(* ===== verification/_CoqProject ===== *)
-Q . S2P
Prelude.v
GoStrings.v
Catalog.v
Resolver.v
GrantTables.v
Authz.v
Middleware.v
Queue.v
PortManager.v
PowerLock.v
FlowCredit.v
CpuPinning.v
Wire.v
Limits.v
Schedule.v
GoNet.v
NetRules.v
NetPublish.v
NetPlan.v
Isolation.v
RedisAcl.v
NodeAuth.v
Programs.v
Pairing.v
Login.v
Revocation.v
Release.v
Migration.v
MigrationNode.v
Moves.v
MoveEnds.v
MoveWorld.v
MoveSafety.v
MoveRuns.v
Billing.v
Lifecycle.v
LifecyclePolicy.v
AccountWorld.v
AccountRuns.v
AccountPass.v
Sessions.v
SessionPolicy.v
SessionWorld.v
SessionLifetime.v
SessionRuns.v
