(* ===== verification/Prelude.v ===== *)
(** * Verification of the DYLARIS platform (Go)

    DYLARIS hosts game servers. [core] is the control plane: HTTP handlers
    behind a capability check, a Postgres store, background workers. [node] is
    the agent on each machine: it takes commands from [core] over Redis
    streams, drives containers, hands out host ports and streams files back
    over gRPC. [pkg] holds what both sides share: the queue, the wire formats,
    the quotas. The parts meet in these places: a handler runs only if
    [RequireCap] resolves the caller's capability; what it decides is queued
    for a node with [Publish]; the node's consumer hands the command to a
    handler which takes the server's power lock, asks the port manager for a
    port and uses the cpuset [core] computed; bulk answers come back under
    credit flow control. On the side, [core] publishes who may talk to whom
    and each node turns it into packet rules for its servers. A node gets all
    of this only after its login: a gRPC stream to some replica of [core],
    which checks its key or secret against the node's row, mints the secret its
    Redis users derive from and provisions those users. A server changes its
    node by a move: [core] runs it as a long program of database writes,
    commands to both nodes and waits for what they report. The account of a
    server's owner decides what may run at all: a shop and the operators move
    it, and an hourly pass of the leading replica stops, cuts off, restores and
    deletes accordingly. People reach all of it through a session: a password,
    where asked for a code, and from then on a signed token that every request
    carries through the middleware, which reads the caller's row each time.

    ** Files

    - [Prelude]: the error notation, the tactics and hints, the reflexive
      closure of a step relation with its invariant rule, what can become of a
      remote call, list lemmas.
    - [GoStrings]: Go's [strings] and [strconv] as the sources use them.
    - [Catalog]: core/authz/catalog.go, presets.go, mode.go, half of apikey.go.
      The catalog is the literal list; lookup, grouping, presets, key
      vocabulary are functions over it.
    - [Resolver]: core/authz/resolver.go, store.go, half of apikey.go.
      [Resolve], [ResolveListed], [HasCap] and the others, against a class
      [Store] whose reads may fail.
    - [GrantTables]: core/store/authz_grants.go. The queries as filters over
      rows; an instance of [Store] that satisfies [CoherentGrants].
    - [Authz]: the properties of the resolver, against a declarative relation
      [Granted] that states who holds what and why.
    - [Middleware]: core/authz/middleware.go, write_audit.go, request_memo.go.
      Handlers are programs over a heap with the shared slots and writers.
    - [Queue]: pkg/queue/queue.go. [qexec] runs one labelled step: a Redis
      command of the source or a step of the environment.
    - [PortManager]: node/port_mgr.go, port_range.go. The ledger in memory and
      in Redis, one definition per method.
    - [PowerLock]: node/power_lock.go, stale_command.go. [exec] runs one
      critical section or channel operation of one goroutine.
    - [FlowCredit]: node/flow_credit.go, in the same style, with the flow
      objects on a heap.
    - [CpuPinning]: core/services/cpu_pinning.go.
    - [Wire]: pkg/voicewire/voicewire.go ([Module VoiceWire]) and
      pkg/protocol/header.go ([Module Protocol]).
    - [Limits]: pkg/beam/quota/quota.go ([Module Quota]),
      pkg/storageplacement/order.go ([Module Storage]), pkg/retry/backoff.go
      ([Module Retry]).
    - [Schedule]: core/services/backup_schedule.go, the search for the next run.
    - [GoNet]: Go's [net] as the sources use it: addresses, prefixes, host and
      port.
    - [NetRules]: node/netpolicy.go, the nftables scripts, the table a script
      stands for and what that table does with a packet.
    - [NetPublish]: core/services/netpolicy_publisher.go, the policies and the
      round that publishes them, one Redis command at a time.
    - [NetPlan]: node/netpolicy_plan.go and netpolicy_reconcile.go, one round
      of the node with what Redis and Docker answer as an argument.
    - [Isolation]: the composition of the three, and the interleaving [pexec]
      of Core's commands with the node's reads.
    - [RedisAcl]: core/services/redisacl/rules.go, derive.go, provision.go,
      prune.go, core/services/acl_reconciler.go, node/redisacl.go and the key
      and channel names of pkg/queue. The rule lists of a node's Redis users
      and the sweep that keeps them, over a class [AclServer] with the laws of
      ACL SETUSER.
    - [NodeAuth]: pkg/nodeauth/nodeauth.go, core/pkg/crypto/at_rest.go.
    - [Programs]: programs as trees of calls and answers, the logic [traced]
      over their histories, the count of their calls, and monitors: states that
      follow the calls and say which may come next.
    - [Pairing]: core/grpc/server.go, core/services/redisacl/secret.go and
      handshake.go, core/services/admission.go, the handlers of
      core/handlers/nodes that take a login away, and the statements of
      core/store they run. [authenticate] is the login of one stream as a
      program, [perform] one statement, [wexec] the interleaving of replicas.
    - [Login]: what every answer of [authenticate] satisfies, and that it ends.
    - [Revocation]: what holds of the rows over every interleaving.
    - [Release]: pkg/release/release.go (versions), [nodeAtLeast].
    - [Migration]: core/services/migration_orchestrator.go. [Migrate] and what
      it calls as a program over the calls [cop] to store, Redis and storage.
    - [MigrationNode]: node/migration_commands.go, pkg/migration/pull.go. The
      handlers of a move's commands as programs over the calls [nop].
    - [Moves]: the order of calls that makes a move safe, as two monitors, and
      that the two sides keep to them.
    - [MoveEnds]: that the waits of a move end and what [Migrate] leaves behind.
    - [MoveWorld]: one server, its row, the streams, progress keys and disks of
      its nodes; [wexec] runs Cores and handlers one call at a time.
    - [MoveSafety]: the invariant of that world. [MoveRuns]: the theorem, a
      whole move run call by call, and the runs that lose data.
    - [Billing]: the row of an account and every statement on it
      (core/store/billing.go, plans.go), retention specs, limits, entitlements,
      node slots, the gates that hand them out and the backup allowance
      (core/services).
    - [Lifecycle]: core/services/billing_lifecycle.go and billing_overlimit.go,
      the storage a backup resolves to and the purge of archives, and the
      handlers of core/handlers/billing that move an account, as programs over
      the calls [op].
    - [LifecyclePolicy]: what the hourly pass and a purge do whatever they are
      answered. [AccountWorld]: rows, links, archives and servers, and any
      number of these programs interleaved over them. [AccountRuns]: the runs
      in which a tenant is treated wrongly. [AccountPass]: what a pass achieves
      when it is answered and nothing interferes.
    - [Sessions]: core/handlers/auth (middleware, signing in and out, sliding
      sessions, tickets, second factor, password reset, addresses, security
      questions, registration, profile), core/handlers/reauth, the operator's
      password reset of core/handlers/users, core/services/auth_policy.go and
      demo.go, the rules of pkg/validate for names and addresses. Each endpoint
      is a program over the calls [op]; [handle] runs one by its [entry].
    - [SessionPolicy]: what every endpoint does whatever it is answered.
      [SessionWorld]: the statements on users and revoked_sessions and the keys
      of Redis, and any number of endpoints interleaved over them, with the
      invariant that a hash or a link is made once and is in one place.
      [SessionLifetime]: what that gives over time. [SessionRuns]: libraries
      that can be run, scripts, the runs that go wrong, the witnesses.

    ** What is shown

    - Authorization: the resolver grants exactly what [Granted] states, its
      batched form agrees with it, nobody gains a PANEL right through a server
      grant, an admin has no standing right on a machine that is not the
      platform's, a grant of a past owner gives nothing, a key holds only what
      it was minted with, and what can be handed on is bounded by what is held.
      [RequireCap] runs the handler exactly for the holders of the capability
      and an owner's audit trail has exactly the actions that happened.
    - Queue: no published message is lost through crashes, failing commands
      and lost replies; one message never has two handlers in one process at a
      time; a message leaves for the dead stream only after its attempts; one
      whose handler always fails does get there; a restarted consumer finds all
      of its own pending entries. Both streams are capped, and what newer
      entries push out of them is the exception.
    - Ports: a server holds at most one port and an operation for one server
      never touches another's, Redis's two records agree, a free port is found when there is one, assignment is all
      or nothing, a restart and an adoption of running containers bring back
      the ports that were held.
    - Power actions: at most one at a time, the newest wins its slot, none
      waits for ever, merged resource changes keep every field, a start never
      undoes a newer stop.
    - Flow control: never more messages than credit, none on a closed flow, no
      sender asleep beside a credit.
    - Cpusets print and parse back; automatic pins are valid, sized right and
      use free cores first; the checks of a manual pin are characterised.
    - Wire formats: every decoder accepts exactly what its encoder writes, or
      reads it back and leaves the following bytes; cut headers are refused.
    - Daily quotas hold for every user over any sequence of uploads; the
      storage order holds every path once.
    - Backup schedules: against a statement of which instants a schedule asks
      for (the day rule, a wall time shown once, twice or skipped), the search
      returns the first one of the first day that has one left.

    - Network policy: after a round of Core and a round of the node a packet
      reaches a server exactly when the ownership of servers says so, so
      tenants are kept apart; a server is fenced off from the machine, the
      platform and the private networks and never reaches the metadata
      service; the tenancy flag never precedes its policy while Core's rounds
      do not overlap; unreadable policies never change the rules; every server
      left without rules is reported.

    - Redis users: a node's user reads and writes the keys of that node and of
      its servers and no other node's, a log shipper's only those of its own
      server; a sweep leaves every paired node with exactly its users, whatever
      was there.
    - Node login: whoever is let in is entitled to it, by the key of the row, the
      secret of a row without a key, a cluster proof for a row without a live
      login, a spent admission or a spent enroll token; every login ends and the
      node is told. Over any interleaving of replicas and operators: a rejected
      key does not come back, a secret changes only by an operator's act, every
      row is paid for, an admission lets in one stream; a reset that lands
      between a login's check and its write is undone, as an explicit run shows.
    - Moves: Core sends each command, reassigns the server and changes its
      status only in the order of the protocol; a node touches a directory only
      under its claim, unpacks only verified bytes and discards only the copy of
      the attempt it is told to. So over any interleaving and any failures that
      [tame] allows (lost replies, dying Cores, late and repeated reports, lost
      commands) the server's data is on the node its row names, when every node
      has a disk of its own, tokens differ and the hash tells the contents that
      come up apart. What [tame] excludes, and a shared disk, is listed in
      [hazard]; for each item a run ends with the row naming a node without the
      data. [Migrate] holds the lock whenever it sends or reassigns, gives it
      back on every return, and leaves no "migrating", and no marker but those a
      cancelled run and a failed restore keep on purpose; every wait ends by its
      deadline; the signed parts of an upload cover the archive.

    - Accounts: an operator's hold and the payments under it are kept apart by
      every statement; rows stay well-typed over any interleaving of passes,
      webhooks and operators; the pass deletes only archives whose retention is
      over, from storages of the platform, object before row, and cuts off only
      who is cut off; undisturbed, and with the row's mark of a link telling
      whether the link is off, it puts every link where its owner's standing
      wants it and removes exactly the expired archives; the gates hand out
      nothing the sweep then punishes as long as a machine's token was minted
      after its last key; a backup stays with its owner's or the
      platform's storage; windows of days, weeks and months have their length
      up to [max_retention], beyond which a date wraps as Go's does.
      Nine runs show where the code falls short of its comments.

    - Sessions: whoever passes the middleware is the account of a row read for
      the request, by a token of this Core bound to that row and not signed out;
      an endpoint of [Sessions] hands out a session only for what earns one by
      the settings as they were read, and writes a
      password, a second factor, an address or a question only for who may.
      Over any interleaving: a key that was ended never comes back, so no
      token bound to it passes again; a session that was signed out stays out
      until its login is ninety days old, which no copy of it outlives, whenever
      the list of the database is read; of the requests that carry one backup
      code or one reset link at most one succeeds; a one-time code is good once
      within its window while Redis keeps its spent steps. Redis may lose any
      key in this world. Nine runs show where the code falls short of its comments.

    ** Conventions, bounds and fuel

    Concurrent code is an executable labelled step function; a run is a list of
    labels, a property holds of every reachable state. A remote call has one of
    three outcomes: it worked, it worked and the reply was lost, it failed. Go
    maps are [gmap]; where the order of iteration can be seen it is an
    argument. [int], [int64], [uint32] and [uint16] are [Z] with the wrap
    written out where it can happen. The recursion of every definition is
    structural, on data or on fuel that is enough: trimming has the length of
    the string, each round removing at least a byte; decimal printing has the
    binary length of the number; the pages of [ownPending] are bounded by
    [maxPendingPages], as in the source; one [process] call has at most six
    phases, and the theorem about poison messages shows it ends; the minting of
    a secret has [mintAttempts] rounds, as in the source, so that a login makes
    at most 37 calls; a live stream has any number of checks, as an argument. A
    wait of a move has one turn per tick of its ticker up to its longest
    deadline and two more, and running out of turns is a call of its own, which
    [waits_end] shows is never made. In the world of a move a node has one
    storage path, a directory's content is one value, and SHA-256 is a function
    that tells the contents that come up apart.

    ** Not modelled

    Time is data (a clock reading is an argument), so timeouts are steps that
    may happen. A JSON text is the value it encodes. SQL beyond the statements
    of the grants, the node login, billing and accounts, Docker, gRPC transport
    and file-system code is left out, as are the panel, the desktop app and the
    installers. Redis loses keys only in the world of sessions: elsewhere it
    keeps what it was given.
    Of a move, the stream consumer around [Migrate], the HTTP server a target
    pulls from and the sweeps of left-over archives and objects are left out.
    Of billing, the text of mails, the traffic reports, plan rows and the link to
    the shop are left out. Of accounts, API keys, the setup wizard, which hands
    out the first session (core/handlers/auth/setup.go), the operator's rename of a user
    (core/handlers/users/username_history.go), avatars,
    read-only endpoints, the text of mails, cookie attributes and letters
    outside ASCII are left out. Placement (floating point) and the text of backup
    schedules are not modelled. bcrypt, JWT signatures, TOTP codes, url.Parse,
    HMAC-SHA256, SHA-256, Ed25519, AES-GCM,
    Redis's ACL engine, the tz database, float rounding, handlers and the
    answers of Docker are parameters. *)

From stdpp Require Export base option list gmap strings sets fin_maps.
From Stdlib Require Export ZArith Lia.

(** ** Notation scope of the development *)
Declare Scope platform_scope.
Delimit Scope platform_scope with platform.

(** Go's [x, err := f()] with a result that is only used when [err == nil]. *)
Notation "'let!' x ':=' c 'in' k" :=
  (match c with inl x => k | inr e => inr e end)
  (at level 10, x pattern, c at level 100, k at level 200) : platform_scope.
Open Scope platform_scope.

(** ** Hint databases *)
Create HintDb platform.
#[export] Hint Extern 5 (_ <= _)%Z => lia : platform.
#[export] Hint Extern 5 (_ < _)%Z => lia : platform.

(** ** Tactics *)

(** Case analysis on the innermost [match] or [if] of the goal or of a
    hypothesis, closing the impossible branches. *)
Ltac split_match :=
  match goal with
  | |- context [match ?x with _ => _ end] =>
      lazymatch x with
      | context [match _ with _ => _ end] => fail
      | _ => destruct x eqn:?
      end
  | H : context [match ?x with _ => _ end] |- _ =>
      lazymatch x with
      | context [match _ with _ => _ end] => fail
      | _ => destruct x eqn:?
      end
  end.
Ltac split_matches := repeat (split_match; simplify_eq/=).

(** Turns boolean tests of the code into the propositions they decide. *)
Ltac to_prop :=
  repeat match goal with
  | H : _ && _ = true |- _ => apply andb_true_iff in H; destruct H
  | H : _ || _ = false |- _ => apply orb_false_iff in H; destruct H
  | H : _ && _ = false |- _ => apply andb_false_iff in H; destruct H
  | H : _ || _ = true |- _ => apply orb_true_iff in H; destruct H
  | H : negb _ = true |- _ => apply negb_true_iff in H
  | H : negb _ = false |- _ => apply negb_false_iff in H
  | H : bool_decide _ = true |- _ => apply bool_decide_eq_true in H
  | H : bool_decide _ = false |- _ => apply bool_decide_eq_false in H
  | H : (_ =? _)%Z = true |- _ => apply Z.eqb_eq in H
  | H : (_ =? _)%Z = false |- _ => apply Z.eqb_neq in H
  | H : (_ <? _)%Z = true |- _ => apply Z.ltb_lt in H
  | H : (_ <? _)%Z = false |- _ => apply Z.ltb_ge in H
  | H : (_ <=? _)%Z = true |- _ => apply Z.leb_le in H
  | H : (_ <=? _)%Z = false |- _ => apply Z.leb_gt in H
  | H : (_ =? _)%string = true |- _ => apply String.eqb_eq in H
  | H : (_ =? _)%string = false |- _ => apply String.eqb_neq in H
  end.

(** ** Errors and pointers

    A Go function that returns [( *T, error)] is modelled by a pair of
    options: both halves are independent, and the code under verification
    relies on which of the two it tests. *)
Inductive go_error :=
| ErrNoRows                      (* sql.ErrNoRows *)
| ErrOther (msg : string).

#[export] Instance go_error_eq_dec : EqDecision go_error.
Proof. solve_decision. Defined.

Definition ptr_err (A : Type) : Type := option A * option go_error.

(** The pointer of a [( *T, error)] result when the error is nil. *)
Definition ok_ptr {A} (r : ptr_err A) : option A :=
  match r.2 with None => r.1 | Some _ => None end.

(** ** Calls to another process *)

(** A call that worked, worked with its reply lost, or never arrived. *)
Inductive outcome := Replied | ReplyLost | Failed.
Definition applied (o : outcome) : bool := match o with Failed => false | _ => true end.
Definition replied (o : outcome) : bool := match o with Replied => true | _ => false end.

(** ** Reachability by steps *)
Section Steps.
Context {A : Type} (R : A -> A -> Prop).

Inductive steps : A -> A -> Prop :=
| steps_refl a : steps a a
| steps_cons a b c : R a b -> steps b c -> steps a c.

Lemma steps_trans a b c : steps a b -> steps b c -> steps a c.
Proof. induction 1; eauto using steps. Qed.

Lemma steps_snoc a b c : steps a b -> R b c -> steps a c.
Proof. intros Hab Hbc. eapply steps_trans; eauto using steps. Qed.

(** An invariant of one step is an invariant of every execution. *)
Lemma steps_invariant (I : A -> Prop) :
  (forall a b, R a b -> I a -> I b) -> forall a b, steps a b -> I a -> I b.
Proof. intros HI a b Hs. induction Hs; eauto. Qed.

(** A quantity that no step decreases does not decrease. *)
Lemma steps_monotone (f : A -> Z) :
  (forall a b, R a b -> (f a <= f b)%Z) -> forall a b, steps a b -> (f a <= f b)%Z.
Proof. intros Hf a b Hs. induction Hs as [|a b c Hab _ IH]; [lia|]. specialize (Hf _ _ Hab). lia. Qed.
End Steps.
#[export] Hint Constructors steps : platform.

(** ** Lists *)

(** Go's [for _, x := range l { if p(x) { return x } }]. *)
Lemma find_Some_iff {A} (p : A -> bool) (l : list A) (x : A) :
  List.find p l = Some x ->
  exists l1 l2, l = l1 ++ x :: l2 /\ p x = true /\ Forall (fun y => p y = false) l1.
Proof.
  induction l as [|y l IH]; simpl; [done|].
  destruct (p y) eqn:Hy; intros H.
  - simplify_eq. exists [], l. eauto.
  - destruct (IH H) as (l1 & l2 & -> & Hx & Hl1). exists (y :: l1), l2. eauto.
Qed.

Lemma find_None_iff {A} (p : A -> bool) (l : list A) :
  List.find p l = None <-> Forall (fun y => p y = false) l.
Proof.
  induction l as [|y l IH]; simpl; [by split|].
  rewrite Forall_cons. destruct (p y); naive_solver.
Qed.

Lemma existsb_In {A} (p : A -> bool) (l : list A) :
  existsb p l = true <-> exists x, x ∈ l /\ p x = true.
Proof.
  rewrite List.existsb_exists. split; intros (x & Hx & Hp); exists x;
    by rewrite list_elem_of_In in *.
Qed.

Lemma forallb_In {A} (p : A -> bool) (l : list A) :
  forallb p l = true <-> forall x, x ∈ l -> p x = true.
Proof.
  rewrite List.forallb_forall. split; intros H x Hx; apply H; by rewrite list_elem_of_In in *.
Qed.

(** A left fold that only inserts keys: what it holds afterwards. *)
Lemma foldl_insert_set (l : list string) (s : gset string) (x : string) :
  x ∈ foldl (fun s c => {[c]} ∪ s) s l <-> x ∈ l \/ x ∈ s.
Proof. revert s. induction l as [|y l IH]; intros s; simpl; [set_solver|]. rewrite IH. set_solver. Qed.

Lemma foldl_delete_set (l : list string) (s : gset string) (x : string) :
  x ∈ foldl (fun s c => s ∖ {[c]}) s l <-> x ∈ s /\ x ∉ l.
Proof. revert s. induction l as [|y l IH]; intros s; simpl; [set_solver|]. rewrite IH. set_solver. Qed.

(** A left fold with an accumulated invariant. *)
Lemma foldl_inv {A B} (f : B -> A -> B) (I : B -> Prop) (l : list A) (b : B) :
  I b -> (forall b a, a ∈ l -> I b -> I (f b a)) -> I (foldl f b l).
Proof.
  revert b. induction l as [|a l IH]; intros b Hb Hf; simpl; [done|].
  apply IH; [apply Hf; set_solver|]. intros b' a' Ha'. apply Hf. set_solver.
Qed.

Lemma filter_snoc {A} (p : A -> bool) (l : list A) x :
  List.filter p (l ++ [x]) = List.filter p l ++ (if p x then [x] else []).
Proof. rewrite List.filter_app. simpl. by destruct (p x). Qed.

Lemma filter_none {A} (p : A -> bool) (l : list A) :
  (forall x, x ∈ l -> p x = false) -> List.filter p l = [].
Proof.
  induction l as [|x l IH]; intros H; simpl; [done|].
  rewrite (H x) by set_solver. apply IH. intros y Hy. apply H. set_solver.
Qed.

(** The same for stdpp's [filter] on a decidable predicate. *)
Lemma filter_keep_all {A} (P : A -> Prop) `{!forall x, Decision (P x)} (l : list A) :
  (forall x, x ∈ l -> P x) -> filter P l = l.
Proof.
  induction l as [|x l IH]; intros Hl; [done|].
  rewrite filter_cons_True by (apply Hl; set_solver). f_equal. apply IH. set_solver.
Qed.

Lemma filter_drop_all {A} (P : A -> Prop) `{!forall x, Decision (P x)} (l : list A) :
  (forall x, x ∈ l -> ~ P x) -> filter P l = [].
Proof.
  induction l as [|x l IH]; intros Hl; [done|].
  rewrite filter_cons_False by (apply Hl; set_solver). apply IH. set_solver.
Qed.

Lemma filter_filter_andb {A} (p q : A -> bool) (l : list A) :
  List.filter p (List.filter q l) = List.filter (fun x => q x && p x) l.
Proof. induction l as [|x l IH]; simpl; [done|]. destruct (q x); simpl; by rewrite IH. Qed.

(** Go's [for _, x := range l { if p(x) { last = x } }]. *)
Definition last_such {A} (p : A -> bool) (l : list A) : option A :=
  foldl (fun acc x => if p x then Some x else acc) None l.

Lemma last_such_snoc {A} (p : A -> bool) (l : list A) x :
  last_such p (l ++ [x]) = if p x then Some x else last_such p l.
Proof. unfold last_such. by rewrite foldl_snoc. Qed.

Lemma find_app {A} (p : A -> bool) (l k : list A) :
  List.find p (l ++ k) = match List.find p l with Some x => Some x | None => List.find p k end.
Proof. induction l as [|x l IH]; simpl; [done|]. by destruct (p x). Qed.

Lemma find_In {A} (p : A -> bool) (l : list A) x :
  List.find p l = Some x -> x ∈ l /\ p x = true.
Proof. intros H. apply List.find_some in H. by rewrite list_elem_of_In. Qed.

(** When at most one element qualifies, the first and the last are the same. *)
Lemma last_such_unique {A} (p : A -> bool) (l : list A) :
  (forall x y, x ∈ l -> y ∈ l -> p x = true -> p y = true -> x = y) ->
  last_such p l = List.find p l.
Proof.
  induction l as [|x l IH] using rev_ind; intros Hu; [done|].
  rewrite last_such_snoc, find_app. simpl.
  rewrite IH by (intros; apply Hu; set_solver).
  destruct (p x) eqn:Hx; [|by destruct (List.find p l)].
  destruct (List.find p l) as [y|] eqn:Hf; [|done].
  apply find_In in Hf as [? ?]. f_equal. apply Hu; set_solver.
Qed.

Lemma last_such_fmap {A B} (f : A -> B) (p : B -> bool) (l : list A) :
  last_such p (f <$> l) = f <$> last_such (fun x => p (f x)) l.
Proof.
  induction l as [|x l IH] using rev_ind; [done|].
  rewrite fmap_app. simpl. rewrite !last_such_snoc, IH. by destruct (p (f x)).
Qed.

Lemma find_filter {A} (p q : A -> bool) (l : list A) :
  List.find p (List.filter q l) = List.find (fun x => q x && p x) l.
Proof. induction l as [|x l IH]; simpl; [done|]. destruct (q x); simpl; by rewrite IH. Qed.

Lemma find_ext {A} (p q : A -> bool) (l : list A) :
  (forall x, p x = q x) -> List.find p l = List.find q l.
Proof. intros H. induction l as [|x l IH]; simpl; [done|]. by rewrite H, IH. Qed.

Lemma foldl_ext_in {A B} (f g : B -> A -> B) (l : list A) (b : B) :
  (forall b a, a ∈ l -> f b a = g b a) -> foldl f b l = foldl g b l.
Proof.
  revert b. induction l as [|a l IH]; intros b H; simpl; [done|].
  rewrite H by set_solver. apply IH. intros b' a' Ha'. apply H. set_solver.
Qed.
