(* ===== verification/GoStrings.v ===== *)
(** * Go's [strings] and [strconv] as the platform uses them

    Strings are byte sequences. The file has the functions of the Go standard
    library the modelled sources call ([HasPrefix], [TrimSpace], [Split],
    [Cut], [Join], [ToLower], [strconv.Itoa], [strconv.Atoi]) and the facts the
    components need of them: [Atoi] inverts [Itoa] on 64-bit integers,
    [Split] inverts [Join], and trimming leaves printable text alone. *)

From stdpp Require Import sorting.
From S2P Require Import Prelude.
From Stdlib Require Import Ascii String.
Open Scope string_scope.
Open Scope list_scope.
Open Scope Z_scope.

(** ** Machine integers *)

Definition int64_min : Z := - 2 ^ 63.
Definition int64_max : Z := 2 ^ 63 - 1.
Definition in_int64 (z : Z) : bool := (int64_min <=? z) && (z <=? int64_max).

(** The arithmetic of [int64], and of [int], wraps around. *)
Definition wrap64 (z : Z) : Z := (z + 2 ^ 63) mod 2 ^ 64 - 2 ^ 63.

Lemma wrap64_small z : int64_min <= z <= int64_max -> wrap64 z = z.
Proof. unfold int64_min, int64_max, wrap64. intros H. rewrite Z.mod_small; lia. Qed.

(** ** Decimal numbers *)

Definition code (c : ascii) : Z := Z.of_nat (nat_of_ascii c).
Definition digit (d : Z) : ascii := ascii_of_nat (Z.to_nat (48 + d)).
Definition is_digit (c : ascii) : bool := (48 <=? code c) && (code c <=? 57).

(** The value of a run of digits read after the value [acc]. *)
Fixpoint digits_val (acc : Z) (s : string) : option Z :=
  match s with
  | EmptyString => Some acc
  | String c s => if is_digit c then digits_val (acc * 10 + (code c - 48)) s else None
  end.

Definition unsigned (s : string) : option Z :=
  match s with EmptyString => None | _ => digits_val 0 s end.

(** [strconv.Atoi] on a 64-bit platform; [None] for either of its errors. *)
Definition Atoi (s : string) : option Z :=
  let r := match s with
           | String "-" s => option_map Z.opp (unsigned s)
           | String "+" s => unsigned s
           | _ => unsigned s
           end in
  match r with Some z => if in_int64 z then Some z else None | None => None end.

Fixpoint itoa_digits (fuel : nat) (n : Z) (acc : string) : string :=
  match fuel with
  | O => acc
  | S fuel =>
      let acc := String (digit (n mod 10)) acc in
      if n / 10 =? 0 then acc else itoa_digits fuel (n / 10) acc
  end.

(** Base-2 digits bound the base-10 digits. *)
Definition Itoa (z : Z) : string :=
  let n := Z.abs z in
  let ds := itoa_digits (S (Z.to_nat (Z.log2 n))) n "" in
  if z <? 0 then String "-" ds else ds.

(** The double quote. *)
Definition dq : string := String (ascii_of_nat 34) "".

(** ** Prefixes, splitting and joining *)

Fixpoint HasPrefix (s p : string) : bool :=
  match p, s with
  | EmptyString, _ => true
  | String a p, String b s => Ascii.eqb a b && HasPrefix s p
  | _, _ => false
  end.

(** The text after a prefix known to be there. *)
Fixpoint drop_str (n : nat) (s : string) : string :=
  match n, s with
  | S n, String _ s => drop_str n s
  | _, _ => s
  end.

(** [strings.Split] and [strings.Cut] with a one-byte separator. *)
Fixpoint Split (sep : ascii) (s : string) : list string :=
  match s with
  | EmptyString => [""]
  | String c s =>
      if Ascii.eqb c sep then "" :: Split sep s
      else match Split sep s with
           | [] => [String c ""]
           | p :: ps => String c p :: ps
           end
  end.

Fixpoint Cut (sep : ascii) (s : string) : option (string * string) :=
  match s with
  | EmptyString => None
  | String c s =>
      if Ascii.eqb c sep then Some ("", s)
      else option_map (fun '(a, b) => (String c a, b)) (Cut sep s)
  end.

Fixpoint Join (parts : list string) (sep : string) : string :=
  match parts with
  | [] => ""
  | [p] => p
  | p :: ps => (p +:+ sep +:+ Join ps sep)%string
  end.

(** [sort.Strings] *)
Definition str_le (a b : string) : Prop := String.leb a b = true.
#[export] Instance str_le_dec a b : Decision (str_le a b).
Proof. unfold str_le. apply _. Defined.
Definition sortStrings (l : list string) : list string := merge_sort str_le l.

(** ** White space

    The UTF-8 encodings of the runes [unicode.IsSpace] accepts. No encoding
    is a prefix or a suffix of another, and a byte string starts (ends) with
    such a rune exactly when it starts (ends) with its bytes. *)
Definition bytes (l : list nat) : string := string_of_list_ascii (ascii_of_nat <$> l).

Definition space_runes : list string := bytes <$>
  [[9]; [10]; [11]; [12]; [13]; [32]; [194; 133]; [194; 160]; [225; 154; 128];
   [226; 128; 128]; [226; 128; 129]; [226; 128; 130]; [226; 128; 131]; [226; 128; 132];
   [226; 128; 133]; [226; 128; 134]; [226; 128; 135]; [226; 128; 136]; [226; 128; 137];
   [226; 128; 138]; [226; 128; 168]; [226; 128; 169]; [226; 128; 175]; [226; 129; 159];
   [227; 128; 128]]%nat.

Fixpoint strip (runes : list string) (fuel : nat) (s : string) : string :=
  match fuel with
  | O => s
  | S fuel =>
      match find (HasPrefix s) runes with
      | Some r => strip runes fuel (drop_str (String.length r) s)
      | None => s
      end
  end.

Definition rev_str (s : string) : string :=
  string_of_list_ascii (rev (list_ascii_of_string s)).

(** Every rune stripped is at least one byte, so the length is fuel enough. *)
Definition TrimSpace (s : string) : string :=
  let l := strip space_runes (String.length s) s in
  rev_str (strip (rev_str <$> space_runes) (String.length l) (rev_str l)).

(** [strings.ToLower] on ASCII. The two runes outside ASCII with an ASCII
    lower case give k and i, which no word the components compare with has. *)
Definition lower (c : ascii) : ascii :=
  if (65 <=? code c) && (code c <=? 90) then ascii_of_nat (Z.to_nat (code c + 32)) else c.
Definition ToLower (s : string) : string := string_of_list_ascii (lower <$> list_ascii_of_string s).

(** ** Lemmas *)

Lemma code_digit d : 0 <= d < 10 -> code (digit d) = 48 + d.
Proof. intros H. unfold code, digit. rewrite nat_ascii_embedding; lia. Qed.

Lemma is_digit_digit d : 0 <= d < 10 -> is_digit (digit d) = true.
Proof. intros H. unfold is_digit. rewrite code_digit by lia. lia. Qed.

Lemma digits_val_cons acc d s :
  0 <= d < 10 -> digits_val acc (String (digit d) s) = digits_val (acc * 10 + d) s.
Proof.
  intros H. cbn [digits_val]. rewrite is_digit_digit, code_digit by lia. f_equal. lia.
Qed.

Lemma itoa_digits_val fuel n acc :
  0 <= n < 2 ^ Z.of_nat fuel -> (fuel > 0)%nat ->
  digits_val 0 (itoa_digits fuel n acc) = digits_val n acc.
Proof.
  revert n acc. induction fuel as [|fuel IH]; intros n acc Hn Hf; [lia|].
  cbn [itoa_digits]. pose proof (Z.mod_pos_bound n 10 ltac:(lia)).
  pose proof (Z.div_mod n 10 ltac:(lia)).
  destruct (Z.eqb_spec (n / 10) 0) as [E|E].
  - rewrite digits_val_cons by lia. f_equal. lia.
  - assert (0 <= n / 10) by (apply Z.div_pos; lia).
    rewrite Nat2Z.inj_succ, Z.pow_succ_r in Hn by lia.
    destruct fuel as [|fuel]; [simpl in *; lia|].
    rewrite IH by lia. rewrite digits_val_cons by lia. f_equal. lia.
Qed.

(** The digits are a non-empty run of digits. *)
Fixpoint all_chars (p : ascii -> bool) (s : string) : bool :=
  match s with EmptyString => true | String c s => p c && all_chars p s end.

Lemma itoa_digits_chars fuel n acc :
  0 <= n -> (fuel > 0)%nat -> all_chars is_digit acc = true ->
  exists c s, itoa_digits fuel n acc = String c s /\ all_chars is_digit (String c s) = true.
Proof.
  revert n acc. induction fuel as [|fuel IH]; intros n acc Hn Hf Ha; [lia|].
  cbn [itoa_digits]. pose proof (Z.mod_pos_bound n 10 ltac:(lia)).
  assert (all_chars is_digit (String (digit (n mod 10)) acc) = true).
  { cbn [all_chars]. by rewrite is_digit_digit. }
  destruct (n / 10 =? 0); [eauto|]. destruct fuel as [|fuel]; [eauto|].
  apply IH; [apply Z.div_pos; lia|lia|done].
Qed.

Lemma log2_fuel n : 0 <= n -> n < 2 ^ Z.of_nat (S (Z.to_nat (Z.log2 n))).
Proof.
  intros Hn. rewrite Nat2Z.inj_succ, Z2Nat.id by apply Z.log2_nonneg.
  destruct (Z.eq_dec n 0) as [->|]; [simpl; lia|]. apply Z.log2_spec. lia.
Qed.

Lemma digit_not_sign c : is_digit c = true -> c <> "-"%char /\ c <> "+"%char.
Proof. by split; intros ->. Qed.

Lemma Atoi_digits c s :
  is_digit c = true ->
  Atoi (String c s) = match digits_val 0 (String c s) with
                      | Some z => if in_int64 z then Some z else None
                      | None => None
                      end.
Proof.
  intros H. destruct (digit_not_sign c H) as [H1 H2]. unfold Atoi, unsigned.
  destruct c as [[] [] [] [] [] [] [] []]; done.
Qed.

(** [Atoi] reads back what [Itoa] writes. *)
Lemma Atoi_Itoa z : in_int64 z = true -> Atoi (Itoa z) = Some z.
Proof.
  intros Hz. unfold Itoa.
  destruct (itoa_digits_chars (S (Z.to_nat (Z.log2 (Z.abs z)))) (Z.abs z) "")
    as (c & s & E & Hc); [lia|lia|done|].
  pose proof (itoa_digits_val (S (Z.to_nat (Z.log2 (Z.abs z)))) (Z.abs z) "") as Hv.
  rewrite E in Hv |- *. specialize (Hv (conj (Z.abs_nonneg z) (log2_fuel _ (Z.abs_nonneg z)))
    (Nat.lt_0_succ _)). change (digits_val (Z.abs z) "") with (Some (Z.abs z)) in Hv.
  destruct (Z.ltb_spec z 0).
  - change (Atoi (String "-" (String c s))) with
      (match option_map Z.opp (digits_val 0 (String c s)) with
       | Some z => if in_int64 z then Some z else None | None => None end).
    rewrite Hv. simpl. replace (- Z.abs z) with z by lia. by rewrite Hz.
  - rewrite Atoi_digits by (cbn in Hc; by apply andb_true_iff in Hc as [? _]).
    rewrite Hv. replace (Z.abs z) with z by lia. by rewrite Hz.
Qed.

Lemma Itoa_chars z : 0 <= z -> all_chars is_digit (Itoa z) = true /\ Itoa z <> "".
Proof.
  intros Hz. unfold Itoa. destruct (Z.ltb_spec z 0); [lia|].
  destruct (itoa_digits_chars (S (Z.to_nat (Z.log2 (Z.abs z)))) (Z.abs z) "")
    as (c & s & -> & Hc); [lia|lia|done|done].
Qed.

Lemma digits_back n : 0 <= n -> digits_val 0 (itoa_digits (S (Z.to_nat (Z.log2 n))) n "") = Some n.
Proof. intros H. rewrite itoa_digits_val; [done|split; [done|by apply log2_fuel]|lia]. Qed.

Lemma Itoa_inj a b : Itoa a = Itoa b -> a = b.
Proof.
  assert (Hneg : forall x y, x < 0 -> 0 <= y -> Itoa x <> Itoa y).
  { intros x y Hx Hy E. destruct (Itoa_chars y Hy) as [Hc _]. rewrite <- E in Hc. unfold Itoa in Hc.
    destruct (Z.ltb_spec x 0); [|lia]. cbn in Hc. discriminate. }
  intros E. assert (Hs : a < 0 <-> b < 0).
  { split; intros H; apply Z.nle_gt; intros H'; [by apply (Hneg a b)|by apply (Hneg b a)]. }
  unfold Itoa in E. pose proof (digits_back (Z.abs a) (Z.abs_nonneg _)) as Ha. pose proof (digits_back (Z.abs b) (Z.abs_nonneg _)) as Hb.
  destruct (Z.ltb_spec a 0), (Z.ltb_spec b 0); try lia; [apply (f_equal (drop_str 1)) in E; cbn [drop_str] in E|].
  all: rewrite E, Hb in Ha; injection Ha as Ha; lia.
Qed.

Lemma Atoi_range s z : Atoi s = Some z -> int64_min <= z <= int64_max.
Proof.
  unfold Atoi. intros H. repeat case_match; simplify_eq;
    by match goal with H : in_int64 _ = true |- _ => unfold in_int64 in H; to_prop end.
Qed.

Lemma all_chars_app p a b :
  all_chars p (a +:+ b)%string = all_chars p a && all_chars p b.
Proof. induction a as [|c a IH]; simpl; [done|]. by rewrite IH, andb_assoc. Qed.

Lemma all_chars_impl (p q : ascii -> bool) s :
  (forall c, p c = true -> q c = true) -> all_chars p s = true -> all_chars q s = true.
Proof.
  intros H. induction s as [|c s IH]; simpl; [done|].
  rewrite !andb_true_iff. naive_solver.
Qed.

(** *** Cutting and splitting *)

Definition not_char (sep c : ascii) : bool := negb (Ascii.eqb c sep).

Lemma Cut_app sep a b :
  all_chars (not_char sep) a = true -> Cut sep (a +:+ String sep b) = Some (a, b).
Proof.
  induction a as [|c a IH]; simpl; unfold not_char.
  - by rewrite Ascii.eqb_refl.
  - rewrite andb_true_iff, negb_true_iff. intros [-> H]. by rewrite IH.
Qed.

Lemma Cut_None sep a : all_chars (not_char sep) a = true -> Cut sep a = None.
Proof.
  induction a as [|c a IH]; simpl; unfold not_char; [done|].
  rewrite andb_true_iff, negb_true_iff. intros [-> H]. by rewrite IH.
Qed.

Lemma Split_single sep a : all_chars (not_char sep) a = true -> Split sep a = [a].
Proof.
  induction a as [|c a IH]; simpl; unfold not_char; [done|].
  rewrite andb_true_iff, negb_true_iff. intros [-> H]. by rewrite IH.
Qed.

Lemma Split_app sep a b :
  all_chars (not_char sep) a = true -> Split sep (a +:+ String sep b) = a :: Split sep b.
Proof.
  induction a as [|c a IH]; simpl; unfold not_char.
  - by rewrite Ascii.eqb_refl.
  - rewrite andb_true_iff, negb_true_iff. intros [-> H]. by rewrite IH.
Qed.

(** Splitting undoes joining when no part holds the separator. *)
Lemma Split_Join sep parts :
  parts <> [] -> Forall (fun p => all_chars (not_char sep) p = true) parts ->
  Split sep (Join parts (String sep "")) = parts.
Proof.
  induction parts as [|p parts IH]; [done|]. intros _ [Hp Hps]%Forall_cons.
  destruct parts as [|q parts]; [by apply Split_single|].
  change (Join (p :: q :: parts) (String sep "")) with
    (p +:+ String sep (Join (q :: parts) (String sep "")))%string.
  by rewrite Split_app, IH.
Qed.

(** *** Trimming *)

(** A byte no white-space rune starts or ends with: ASCII above the blank. *)
Definition graphic (c : ascii) : bool := (32 <? code c) && (code c <? 127).

Definition head_graphic (s : string) : bool :=
  match s with EmptyString => true | String c _ => graphic c end.

Lemma strip_graphic runes fuel s :
  forallb (fun r => match r with EmptyString => false | String c _ => negb (graphic c) end) runes = true ->
  head_graphic s = true -> strip runes fuel s = s.
Proof.
  intros Hr Hs. destruct fuel as [|fuel]; [done|]. simpl.
  destruct (find (HasPrefix s) runes) as [r|] eqn:E; [|done].
  apply find_some in E as [Hin Hp]. rewrite forallb_forall in Hr. specialize (Hr r Hin).
  destruct r as [|c r]; [done|]. destruct s as [|d s]; [done|]. simpl in *.
  apply andb_true_iff in Hp as [He _]. apply Ascii.eqb_eq in He as ->. by rewrite Hs in Hr.
Qed.

Lemma rev_str_involutive s : rev_str (rev_str s) = s.
Proof.
  unfold rev_str. by rewrite list_ascii_of_string_of_list_ascii, rev_involutive,
    string_of_list_ascii_of_string.
Qed.

Lemma TrimSpace_graphic s :
  head_graphic s = true -> head_graphic (rev_str s) = true -> TrimSpace s = s.
Proof.
  intros H1 H2. unfold TrimSpace. rewrite (strip_graphic space_runes) by done.
  rewrite strip_graphic by done. apply rev_str_involutive.
Qed.

Lemma all_chars_forallb p s : all_chars p s = forallb p (list_ascii_of_string s).
Proof. induction s as [|c s IH]; simpl; [done|]. by rewrite IH. Qed.

Lemma TrimSpace_all_graphic s : all_chars graphic s = true -> TrimSpace s = s.
Proof.
  intros H. apply TrimSpace_graphic.
  - destruct s as [|c s]; [done|]. simpl in *. by apply andb_true_iff in H as [? _].
  - rewrite all_chars_forallb, forallb_forall in H. unfold rev_str.
    destruct (rev (list_ascii_of_string s)) as [|c l] eqn:E; [done|].
    apply H, in_rev. rewrite E. by left.
Qed.

Lemma is_digit_graphic c : is_digit c = true -> graphic c = true.
Proof. unfold is_digit, graphic. lia. Qed.

Lemma digit_not_char sep c : is_digit sep = false -> is_digit c = true -> not_char sep c = true.
Proof.
  unfold not_char. intros H1 H2. destruct (Ascii.eqb_spec c sep) as [->|]; [congruence|done].
Qed.
#[export] Hint Resolve is_digit_graphic digit_not_char : platform.

(** *** Concatenation *)

Lemma append_assoc (a b c : string) : ((a +:+ b) +:+ c = a +:+ b +:+ c).
Proof. induction a as [|x a IH]; [done|]. change (String x ((a +:+ b) +:+ c) = String x (a +:+ b +:+ c)). by rewrite IH. Qed.

Lemma append_nil_r (a : string) : (a +:+ "" = a).
Proof. induction a as [|x a IH]; [done|]. change (String x (a +:+ "") = String x a). by rewrite IH. Qed.

Lemma append_inj_l (a b c : string) : a +:+ b = a +:+ c -> b = c.
Proof. induction a as [|x a IH]; [done|]. intros H. apply IH. by inversion H. Qed.

Lemma ascii_of_append a b :
  list_ascii_of_string (a +:+ b) = list_ascii_of_string a ++ list_ascii_of_string b.
Proof.
  induction a as [|x a IH]; [done|].
  change (x :: list_ascii_of_string (a +:+ b) = x :: list_ascii_of_string a ++ list_ascii_of_string b). by rewrite IH.
Qed.

Lemma ascii_of_inj a b : list_ascii_of_string a = list_ascii_of_string b -> a = b.
Proof.
  intros H. rewrite <- (string_of_list_ascii_of_string a), <- (string_of_list_ascii_of_string b). by rewrite H.
Qed.

Lemma ascii_of_length a : List.length (list_ascii_of_string a) = String.length a.
Proof. induction a as [|x a IH]; simpl; [done|]. by rewrite IH. Qed.

Lemma append_tail (a b c d : string) :
  String.length c = String.length d -> a +:+ c = b +:+ d -> c = d.
Proof.
  intros Hl H. apply (f_equal list_ascii_of_string) in H. rewrite !ascii_of_append in H.
  apply app_inj_2 in H as [_ H]; [by apply ascii_of_inj|].
  by rewrite !ascii_of_length.
Qed.

Lemma append_inj_r (a b c : string) : a +:+ c = b +:+ c -> a = b.
Proof.
  intros H. apply (f_equal list_ascii_of_string) in H. rewrite !ascii_of_append in H.
  apply app_inv_tail in H. by apply ascii_of_inj.
Qed.

(** *** Prefixes *)

Lemma HasPrefix_spec s p : HasPrefix s p = true <-> exists r, s = p +:+ r.
Proof.
  revert s. induction p as [|a p IH]; intros s; cbn [HasPrefix].
  { split; [by exists s|by destruct s]. }
  destruct s as [|b s]; cbn [HasPrefix].
  { split; [done|]. intros [r H]. discriminate. }
  rewrite andb_true_iff, Ascii.eqb_eq, IH. split.
  - intros [-> [r ->]]. by exists r.
  - intros [r H]. change (String b s = String a (p +:+ r)) in H. injection H as -> ->. split; [done|by exists r].
Qed.

Lemma HasPrefix_app p r : HasPrefix (p +:+ r) p = true.
Proof. apply HasPrefix_spec. by exists r. Qed.

Lemma Split_nonempty sep s : Split sep s <> [].
Proof. destruct s as [|c s]; cbn [Split]; [done|]. destruct (Ascii.eqb c sep); [done|]. by destruct (Split sep s). Qed.

Lemma Split_Join_id sep s : Join (Split sep s) (String sep "") = s.
Proof.
  induction s as [|c s IH]; [done|]. cbn [Split]. pose proof (Split_nonempty sep s) as Hn.
  destruct (Ascii.eqb_spec c sep) as [->|Hne].
  - destruct (Split sep s) as [|p ps]; [done|].
    change (Join ("" :: p :: ps) (String sep "")) with (String sep (Join (p :: ps) (String sep ""))). by rewrite IH.
  - destruct (Split sep s) as [|p ps]; [done|].
    destruct ps as [|q ps]; cbn [Join] in *; [by rewrite IH|].
    change (String c p +:+ ?x) with (String c (p +:+ x)). by rewrite IH.
Qed.

Lemma Split_inj sep a b : Split sep a = Split sep b -> a = b.
Proof. intros H. by rewrite <- (Split_Join_id sep a), <- (Split_Join_id sep b), H. Qed.

Lemma append_inj_len (a b c d : string) :
  String.length a = String.length b -> a +:+ c = b +:+ d -> a = b /\ c = d.
Proof.
  revert b. induction a as [|x a IH]; intros [|y b] Hl E; [done|discriminate|discriminate|].
  injection Hl as Hl. change (String x (a +:+ c) = String y (b +:+ d)) in E. injection E as -> E.
  by destruct (IH b Hl E) as [-> ->].
Qed.
