(* ===== verification/Catalog.v ===== *)
(** * The capability catalog

    [core/authz/catalog.go], [presets.go], [mode.go] and the catalog half of
    [apikey.go]: the code-defined list of capabilities, its lookup by id, the
    grouped form the role editor is given, the ready-made preset bundles and
    which capabilities an API key may carry. *)

From S2P Require Import Prelude.
Open Scope string_scope. Open Scope list_scope.

(** ** Data *)

Inductive Scope := ScopePanel | ScopeServer | ScopeOwner.

Inductive Verb :=
| VerbRead | VerbWrite | VerbDelete | VerbCreate | VerbRestore | VerbStart | VerbStop
| VerbRestart | VerbKill | VerbExec | VerbAccess | VerbUse | VerbManage | VerbSend.

#[export] Instance Scope_eq_dec : EqDecision Scope.
Proof. solve_decision. Defined.
#[export] Instance Verb_eq_dec : EqDecision Verb.
Proof. solve_decision. Defined.

Definition string_of_scope (s : Scope) : string :=
  match s with ScopePanel => "panel" | ScopeServer => "server" | ScopeOwner => "owner" end.

Definition string_of_verb (v : Verb) : string :=
  match v with
  | VerbRead => "read" | VerbWrite => "write" | VerbDelete => "delete"
  | VerbCreate => "create" | VerbRestore => "restore" | VerbStart => "start"
  | VerbStop => "stop" | VerbRestart => "restart" | VerbKill => "kill"
  | VerbExec => "exec" | VerbAccess => "access" | VerbUse => "use"
  | VerbManage => "manage" | VerbSend => "send"
  end.

Record Capability := mkCapability {
  ID : string;
  Label : string;
  Category : string;
  cap_scope : Scope;
  cap_verb : Verb;
}.

#[export] Instance Capability_eq_dec : EqDecision Capability.
Proof. solve_decision. Defined.

(** The catalog, in source order, in the three blocks its comments mark. The
    first block holds the owner-scoped backup storage capabilities where the
    source has them, among the server ones. *)
Definition catalog_server : list Capability := [
    mkCapability "overview.read" "View overview" "Overview" ScopeServer VerbRead;
    mkCapability "console.read" "Read console" "Console" ScopeServer VerbRead;
    mkCapability "console.send" "Send console command" "Console" ScopeServer VerbSend;
    mkCapability "power.start" "Start server" "Power" ScopeServer VerbStart;
    mkCapability "power.stop" "Stop server" "Power" ScopeServer VerbStop;
    mkCapability "power.restart" "Restart server" "Power" ScopeServer VerbRestart;
    mkCapability "power.kill" "Kill server" "Power" ScopeServer VerbKill;
    mkCapability "rcon.exec" "Run RCON command" "RCON" ScopeServer VerbExec;
    mkCapability "players.read" "View players" "Players" ScopeServer VerbRead;
    mkCapability "players.manage" "Manage players" "Players" ScopeServer VerbManage;
    mkCapability "files.read" "Read files" "Files" ScopeServer VerbRead;
    mkCapability "files.write" "Write files" "Files" ScopeServer VerbWrite;
    mkCapability "files.delete" "Delete files" "Files" ScopeServer VerbDelete;
    mkCapability "sftp.access" "Use SFTP" "SFTP" ScopeServer VerbAccess;
    mkCapability "config.read" "Read configuration" "Config" ScopeServer VerbRead;
    mkCapability "config.write" "Write configuration" "Config" ScopeServer VerbWrite;
    mkCapability "mods.read" "View mods" "Mods" ScopeServer VerbRead;
    mkCapability "mods.write" "Install/update mods" "Mods" ScopeServer VerbWrite;
    mkCapability "mods.delete" "Remove mods" "Mods" ScopeServer VerbDelete;
    mkCapability "domains.read" "View domains" "Domains" ScopeServer VerbRead;
    mkCapability "domains.write" "Manage domains" "Domains" ScopeServer VerbWrite;
    mkCapability "backups.read" "View backups" "Backups" ScopeServer VerbRead;
    mkCapability "backups.create" "Create backup" "Backups" ScopeServer VerbCreate;
    mkCapability "backups.delete" "Delete backup" "Backups" ScopeServer VerbDelete;
    mkCapability "backups.restore" "Restore backup" "Backups" ScopeServer VerbRestore;
    mkCapability "backupstorage.read" "View own backup storage" "Backups" ScopeOwner VerbRead;
    mkCapability "backupstorage.write" "Connect own backup storage" "Backups" ScopeOwner VerbWrite;
    mkCapability "backupstorage.delete" "Remove own backup storage" "Backups" ScopeOwner VerbDelete;
    mkCapability "network.read" "View network" "Network" ScopeServer VerbRead;
    mkCapability "network.write" "Edit network" "Network" ScopeServer VerbWrite;
    mkCapability "tabs.read" "View custom tabs" "Tabs" ScopeServer VerbRead;
    mkCapability "tabs.write" "Manage custom tabs" "Tabs" ScopeServer VerbWrite;
    mkCapability "schedule.read" "View scheduled tasks" "Schedule" ScopeServer VerbRead;
    mkCapability "schedule.write" "Manage scheduled tasks" "Schedule" ScopeServer VerbWrite;
    mkCapability "schedule.delete" "Delete scheduled tasks" "Schedule" ScopeServer VerbDelete;
    mkCapability "stats.read" "View stats" "Stats" ScopeServer VerbRead;
    mkCapability "spark.use" "Use Spark profiler" "Spark" ScopeServer VerbUse;
    mkCapability "members.read" "View members" "Members" ScopeServer VerbRead;
    mkCapability "members.write" "Invite/edit members" "Members" ScopeServer VerbWrite;
    mkCapability "members.delete" "Remove members" "Members" ScopeServer VerbDelete;
    mkCapability "server.settings.write" "Edit server settings" "Server" ScopeServer VerbWrite;
    mkCapability "server.delete" "Delete server" "Server" ScopeServer VerbDelete;
    mkCapability "server.audit.read" "View server audit log" "Audit" ScopeServer VerbRead
  ].

Definition catalog_owner : list Capability := [
    mkCapability "modpack.read" "View modpacks" "Modpacks" ScopeOwner VerbRead;
    mkCapability "modpack.write" "Edit modpacks" "Modpacks" ScopeOwner VerbWrite;
    mkCapability "modpack.delete" "Delete modpacks" "Modpacks" ScopeOwner VerbDelete;
    mkCapability "library.read" "View library (removed)" "Library" ScopeOwner VerbRead;
    mkCapability "library.write" "Edit library (removed)" "Library" ScopeOwner VerbWrite;
    mkCapability "library.delete" "Delete library items (removed)" "Library" ScopeOwner VerbDelete;
    mkCapability "roles.read" "View server-roles" "Server-roles" ScopeOwner VerbRead;
    mkCapability "roles.write" "Edit server-roles" "Server-roles" ScopeOwner VerbWrite;
    mkCapability "roles.delete" "Delete server-roles" "Server-roles" ScopeOwner VerbDelete;
    mkCapability "usage.read" "View account usage" "Usage" ScopeOwner VerbRead;
    mkCapability "apikeys.read" "View API keys" "API keys" ScopeOwner VerbRead;
    mkCapability "apikeys.write" "Create API keys" "API keys" ScopeOwner VerbWrite;
    mkCapability "apikeys.delete" "Revoke API keys" "API keys" ScopeOwner VerbDelete
  ].

Definition catalog_panel : list Capability := [
    mkCapability "users.read" "View users" "Users" ScopePanel VerbRead;
    mkCapability "users.write" "Edit users" "Users" ScopePanel VerbWrite;
    mkCapability "users.delete" "Delete users" "Users" ScopePanel VerbDelete;
    mkCapability "panelroles.read" "View panel roles" "Panel roles" ScopePanel VerbRead;
    mkCapability "panelroles.write" "Edit panel roles" "Panel roles" ScopePanel VerbWrite;
    mkCapability "panelroles.delete" "Delete panel roles" "Panel roles" ScopePanel VerbDelete;
    mkCapability "nodes.read" "View nodes" "Nodes" ScopePanel VerbRead;
    mkCapability "nodes.write" "Edit nodes" "Nodes" ScopePanel VerbWrite;
    mkCapability "nodes.delete" "Delete nodes" "Nodes" ScopePanel VerbDelete;
    mkCapability "topology.read" "View global topology" "Topology" ScopePanel VerbRead;
    mkCapability "topology.write" "Edit global topology" "Topology" ScopePanel VerbWrite;
    mkCapability "tickets.read" "View tickets" "Tickets" ScopePanel VerbRead;
    mkCapability "tickets.write" "Edit tickets" "Tickets" ScopePanel VerbWrite;
    mkCapability "tickets.delete" "Delete tickets" "Tickets" ScopePanel VerbDelete;
    mkCapability "templates.create" "Create templates" "Templates" ScopePanel VerbCreate;
    mkCapability "templates.admin.read" "View all templates" "Templates" ScopePanel VerbRead;
    mkCapability "settings.read" "View platform settings" "Settings" ScopePanel VerbRead;
    mkCapability "settings.write" "Edit platform settings" "Settings" ScopePanel VerbWrite;
    mkCapability "plans.read" "View plans" "Plans" ScopePanel VerbRead;
    mkCapability "plans.write" "Edit plans" "Plans" ScopePanel VerbWrite;
    mkCapability "servers.read" "View all servers" "Servers (oversight)" ScopePanel VerbRead;
    mkCapability "servers.write" "Edit any server" "Servers (oversight)" ScopePanel VerbWrite;
    mkCapability "audit.read" "View audit log" "Audit" ScopePanel VerbRead
  ].

Definition catalog : list Capability := catalog_server ++ catalog_owner ++ catalog_panel.

(** ** Lookup *)

(** The map [byID] is an association list: writing a key puts its pair in
    front, and a lookup finds the pair written last. *)
Fixpoint assoc {A} (m : list (string * A)) (k : string) : option A :=
  match m with
  | [] => None
  | (k', v) :: m => if k' =? k then Some v else assoc m k
  end.

Definition byID : list (string * Capability) :=
  foldl (fun m c => (ID c, c) :: m) [] catalog.

Definition Get (id : string) : option Capability := assoc byID id.

Definition Has (id : string) : bool :=
  match assoc byID id with Some _ => true | None => false end.

Definition All : list Capability := catalog.

Definition ByScope (s : Scope) : list Capability :=
  List.filter (fun c => bool_decide (cap_scope c = s)) catalog.

(** ** The grouped payload of the role editor *)

Record CatalogCapability := mkCatalogCapability {
  cc_ID : string; cc_Label : string; cc_Verb : string }.

Record CatalogCategory := mkCatalogCategory {
  cc_Category : string; cc_Capabilities : list CatalogCapability }.

Record CatalogScope := mkCatalogScope {
  cs_Scope : string; cs_Categories : list CatalogCategory }.

Definition catalog_view (c : Capability) : CatalogCapability :=
  mkCatalogCapability (ID c) (Label c) (string_of_verb (cap_verb c)).

Definition append_cap (c : Capability) (cc : CatalogCategory) : CatalogCategory :=
  mkCatalogCategory (cc_Category cc) (cc_Capabilities cc ++ [catalog_view c]).

(** One iteration of the inner loop: the categories so far and [catIndex]. *)
Definition group_step (sc : Scope)
    (st : list CatalogCategory * gmap string nat) (c : Capability)
  : list CatalogCategory * gmap string nat :=
  let '(cats, catIndex) := st in
  if bool_decide (cap_scope c = sc) then
    match catIndex !! Category c with
    | Some idx => (alter (append_cap c) idx cats, catIndex)
    | None =>
        let idx := length cats in
        (alter (append_cap c) idx (cats ++ [mkCatalogCategory (Category c) []]),
         <[Category c := idx]> catIndex)
    end
  else st.

Definition group_scope (l : list Capability) (sc : Scope) : CatalogScope :=
  mkCatalogScope (string_of_scope sc) (foldl (group_step sc) ([], ∅) l).1.

Definition Grouped : list CatalogScope :=
  map (group_scope catalog) [ScopeServer; ScopeOwner; ScopePanel].

(** ** Presets *)

Record Preset := mkPreset {
  p_ID : string; p_Label : string; p_Description : string; p_Capabilities : list string }.

Definition presets : list Preset := [
    mkPreset "viewer" "Viewer"
      "Read-only access to overview, console, stats, files, config, players and backups."
      ["overview.read"; "console.read"; "stats.read"; "files.read"; "config.read";
       "players.read"; "backups.read"];
    mkPreset "operator" "Operator"
      "Run the server day to day: console, power, RCON and player management."
      ["overview.read"; "stats.read"; "console.read"; "console.send"; "power.start";
       "power.stop"; "power.restart"; "rcon.exec"; "players.read"; "players.manage"];
    mkPreset "builder" "Builder"
      "Everything an operator can do, plus editing files, config, mods and SFTP."
      ["overview.read"; "stats.read"; "console.read"; "console.send"; "power.start";
       "power.stop"; "power.restart"; "rcon.exec"; "players.read"; "players.manage";
       "files.read"; "files.write"; "config.read"; "config.write"; "mods.read"; "mods.write";
       "sftp.access"];
    mkPreset "admin" "Server admin"
      "Full control of the server short of deleting it: files, backups, members, network, schedule and settings."
      ["overview.read"; "console.read"; "console.send"; "power.start"; "power.stop";
       "power.restart"; "power.kill"; "rcon.exec"; "players.read"; "players.manage";
       "files.read"; "files.write"; "files.delete"; "sftp.access"; "config.read";
       "config.write"; "mods.read"; "mods.write"; "mods.delete"; "backups.read";
       "backups.create"; "backups.delete"; "backups.restore"; "network.read"; "network.write";
       "domains.read"; "domains.write"; "tabs.read"; "tabs.write"; "schedule.read";
       "schedule.write"; "schedule.delete"; "stats.read"; "spark.use"; "members.read";
       "members.write"; "members.delete"; "server.settings.write"]
  ].

Definition Presets : list Preset := presets.

(** The capabilities of the preset with this id, as a set. *)
Definition preset_caps (id : string) : gset string :=
  match List.find (fun p => p_ID p =? id) Presets with
  | Some p => list_to_set (p_Capabilities p)
  | None => ∅
  end.

(** ** Permission modes *)

Definition ModeOff : string := "off".
Definition ModeSimple : string := "simple".
Definition ModeAdvanced : string := "advanced".

Definition ValidMode (m : string) : bool :=
  (m =? ModeOff) || (m =? ModeSimple) || (m =? ModeAdvanced).

Definition NormalizeMode (m : string) : string := if ValidMode m then m else ModeSimple.

(** ** What an API key may carry *)

Definition neverOnAKey : list string :=
  ["apikeys."; "roles."; "members.write"; "members.delete"; "library."].

Definition ValidKeyCap (capID : string) : bool :=
  match Get capID with
  | None => false
  | Some c =>
      if bool_decide (cap_scope c <> ScopeServer) && bool_decide (cap_scope c <> ScopeOwner)
      then false
      else negb (existsb (fun p => String.prefix p capID) neverOnAKey)
  end.

Definition KeyCaps : list string :=
  foldl (fun out c => if ValidKeyCap (ID c) then out ++ [ID c] else out) [] All.

(** ** Lemmas: lookup by id *)

Lemma catalog_ids_nodup : NoDup (ID <$> catalog).
Proof. apply (bool_decide_unpack _). vm_compute. exact I. Qed.

Lemma assoc_byID (l : list Capability) m id c :
  NoDup (ID <$> l) ->
  assoc (foldl (fun m c => (ID c, c) :: m) m l) id = Some c <->
  (c ∈ l /\ ID c = id) \/ (assoc m id = Some c /\ id ∉ ID <$> l).
Proof.
  revert m. induction l as [|d l IH]; intros m Hnd; csimpl.
  - split; [intros H; right; split; [done|set_solver]|]. intros [[[]%not_elem_of_nil _]|[H _]]; done.
  - rewrite fmap_cons, NoDup_cons in Hnd. destruct Hnd as [Hd Hnd].
    rewrite (IH _ Hnd). rewrite list_elem_of_fmap in Hd. simpl.
    destruct (String.eqb_spec (ID d) id); set_unfold; naive_solver.
Qed.

Lemma Get_Some (id : string) (c : Capability) :
  Get id = Some c <-> c ∈ catalog /\ ID c = id.
Proof.
  unfold Get, byID. rewrite assoc_byID by apply catalog_ids_nodup. simpl. naive_solver.
Qed.

Lemma Get_ID id c : Get id = Some c -> ID c = id.
Proof. by intros [_ ?]%Get_Some. Qed.

Lemma Has_Get id : Has id = true <-> is_Some (Get id).
Proof. unfold Has, Get. destruct (assoc byID id); split; try done; eauto. Qed.

Lemma ByScope_In s c : c ∈ ByScope s <-> c ∈ catalog /\ cap_scope c = s.
Proof.
  unfold ByScope. rewrite list_elem_of_In, List.filter_In, bool_decide_eq_true.
  by rewrite list_elem_of_In.
Qed.

(** ** Lemmas: key capabilities *)

Lemma ValidKeyCap_true capID :
  ValidKeyCap capID = true <->
  exists c, Get capID = Some c /\ cap_scope c <> ScopePanel /\
    forall p, p ∈ neverOnAKey -> String.prefix p capID = false.
Proof.
  unfold ValidKeyCap. destruct (Get capID) as [c|]; [|split; [done|by intros (c & ? & _)]].
  assert (Hsc : bool_decide (cap_scope c <> ScopeServer) && bool_decide (cap_scope c <> ScopeOwner)
                = bool_decide (cap_scope c = ScopePanel)) by by destruct (cap_scope c).
  rewrite Hsc. clear Hsc. case_bool_decide as Hp; [split; [done|by intros (c' & [= <-] & ? & _)]|].
  rewrite negb_true_iff. split.
  - intros Hex. exists c. split_and!; [done..|]. intros p Hin.
    destruct (String.prefix p capID) eqn:E; [|done].
    rewrite (proj2 (existsb_In _ _)) in Hex; [done|]. eauto.
  - intros (c' & _ & _ & Hno). apply not_true_iff_false. rewrite existsb_In.
    intros (p & Hin & E). rewrite Hno in E; done.
Qed.

(** ** Lemmas: grouping *)

(** What the loop over a prefix [l] of the catalog has built. *)
Record grouped_inv (sc : Scope) (l : list Capability)
    (st : list CatalogCategory * gmap string nat) : Prop := {
  gi_index : forall k i, st.2 !! k = Some i <->
    exists cc, st.1 !! i = Some cc /\ cc_Category cc = k;
  gi_caps : forall cc, cc ∈ st.1 ->
    cc_Capabilities cc =
      catalog_view <$> List.filter
        (fun c => bool_decide (cap_scope c = sc) && (Category c =? cc_Category cc)) l;
  gi_all : forall c, c ∈ l -> cap_scope c = sc -> is_Some (st.2 !! Category c);
}.

Lemma grouped_inv_skip sc l st c :
  cap_scope c <> sc -> grouped_inv sc l st -> grouped_inv sc (l ++ [c]) st.
Proof.
  intros Hsc [Hidx Hcaps Hall]. split; [done| |].
  - intros cc Hcc. rewrite (Hcaps cc Hcc), filter_snoc, bool_decide_eq_false_2 by done.
    simpl. by rewrite app_nil_r.
  - intros d [Hd| ->%list_elem_of_singleton]%elem_of_app Hd'; [eauto|done].
Qed.

Lemma grouped_inv_known sc l cats ci c idx :
  cap_scope c = sc -> ci !! Category c = Some idx -> grouped_inv sc l (cats, ci) ->
  grouped_inv sc (l ++ [c]) (alter (append_cap c) idx cats, ci).
Proof.
  intros Hsc Hci [Hidx Hcaps Hall]; simpl in *.
  pose proof (proj1 (Hidx _ _) Hci) as (cc0 & Hcc0 & Hname). split; simpl.
  - intros k i. rewrite Hidx, list_lookup_alter. case_decide as Hi; [subst i|done].
    rewrite Hcc0. simpl. naive_solver.
  - intros cc (i & Hi)%list_elem_of_lookup. rewrite list_lookup_alter in Hi.
    case_decide as Hii; simplify_eq/=.
    + rewrite Hcc0 in Hi. simplify_eq/=. rewrite filter_snoc, bool_decide_eq_true_2 by done.
      rewrite Hname, String.eqb_refl. simpl. rewrite fmap_app. simpl.
      rewrite (Hcaps cc0) by (apply list_elem_of_lookup; eauto). by rewrite Hname.
    + rewrite (Hcaps cc) by (apply list_elem_of_lookup; eauto). rewrite filter_snoc.
      assert (cc_Category cc <> Category c) as Hne.
      { intros Heq. assert (ci !! Category c = Some i) by (apply Hidx; eauto). congruence. }
      destruct (String.eqb_spec (Category c) (cc_Category cc)); [congruence|].
      by rewrite andb_false_r, app_nil_r.
  - intros d [Hd| ->%list_elem_of_singleton]%elem_of_app Hd'; eauto.
Qed.

Lemma alter_snoc {A} (f : A -> A) (l : list A) x :
  alter f (length l) (l ++ [x]) = l ++ [f x].
Proof. induction l as [|y l IH]; simpl; [done|]. f_equal. apply IH. Qed.

Lemma grouped_inv_new sc l cats ci c :
  cap_scope c = sc -> ci !! Category c = None -> grouped_inv sc l (cats, ci) ->
  grouped_inv sc (l ++ [c])
    (cats ++ [mkCatalogCategory (Category c) [catalog_view c]],
     <[Category c := length cats]> ci).
Proof.
  intros Hsc Hci [Hidx Hcaps Hall]; simpl in *.
  assert (Hfresh : forall cc, cc ∈ cats -> cc_Category cc <> Category c).
  { intros cc (i & Hi)%list_elem_of_lookup Heq.
    assert (ci !! Category c = Some i) by (apply Hidx; eauto). congruence. }
  split; simpl.
  - intros k i. rewrite lookup_insert. setoid_rewrite lookup_snoc_Some. case_decide as Hk; [subst k|].
    + split; [naive_solver|]. intros (cc & [[_ Hi]|[-> _]] & Hcc); [|done].
      by destruct (Hfresh cc); [apply list_elem_of_lookup; eauto|].
    + rewrite Hidx. split; intros (cc & Hi & Hcc); exists cc.
      * eauto using lookup_lt_Some.
      * destruct Hi as [[_ Hi]|[_ <-]]; [done|by simplify_eq/=].
  - intros cc [Hcc| ->%list_elem_of_singleton]%elem_of_app; rewrite filter_snoc.
    + rewrite (Hcaps cc Hcc). specialize (Hfresh cc Hcc).
      destruct (String.eqb_spec (Category c) (cc_Category cc)); [congruence|].
      by rewrite andb_false_r, app_nil_r.
    + simpl. rewrite bool_decide_eq_true_2, String.eqb_refl by done. simpl.
      rewrite filter_none; [done|]. intros d Hd.
      destruct (decide (cap_scope d = sc)) as [Hs|Hs]; [|by rewrite bool_decide_eq_false_2].
      destruct (String.eqb_spec (Category d) (Category c)) as [Heq|]; [|by rewrite andb_false_r].
      destruct (Hall d Hd Hs) as [? Hsome]. congruence.
  - intros d [Hd| ->%list_elem_of_singleton]%elem_of_app Hd'; [|by rewrite lookup_insert_eq].
    destruct (decide (Category d = Category c)) as [->|]; [by rewrite lookup_insert_eq|].
    rewrite lookup_insert_ne by done. eauto.
Qed.

Lemma grouped_inv_step sc l st c :
  grouped_inv sc l st -> grouped_inv sc (l ++ [c]) (group_step sc st c).
Proof.
  destruct st as [cats ci]. intros H. unfold group_step.
  case_bool_decide as Hsc; [|by apply grouped_inv_skip].
  destruct (ci !! Category c) as [idx|] eqn:Hci; [by apply grouped_inv_known|].
  rewrite alter_snoc. by apply grouped_inv_new.
Qed.

Lemma grouped_inv_fold sc l : grouped_inv sc l (foldl (group_step sc) ([], ∅) l).
Proof.
  induction l as [|c l IH] using rev_ind.
  - split; simpl; [|set_solver..]. intros k i. rewrite lookup_empty, lookup_nil. naive_solver.
  - rewrite foldl_snoc. by apply grouped_inv_step.
Qed.

Lemma grouped_names_nodup sc l : NoDup (cc_Category <$> cs_Categories (group_scope l sc)).
Proof.
  destruct (grouped_inv_fold sc l) as [Hidx _ _]. unfold group_scope; simpl.
  apply NoDup_alt. intros i j k Hi Hj. rewrite !list_lookup_fmap in Hi, Hj.
  apply fmap_Some in Hi as (ci & Hi & ->). apply fmap_Some in Hj as (cj & Hj & Heq).
  assert (Some i = Some j) as [=]; [|done].
  rewrite <- (proj2 (Hidx (cc_Category ci) i)) by eauto.
  by rewrite <- (proj2 (Hidx (cc_Category ci) j)) by eauto.
Qed.

(** The categories of a scope: what each holds, and that none is missing. *)
Lemma group_scope_caps sc l cc :
  cc ∈ cs_Categories (group_scope l sc) ->
  cc_Capabilities cc = catalog_view <$> List.filter (fun c => Category c =? cc_Category cc)
    (List.filter (fun c => bool_decide (cap_scope c = sc)) l).
Proof.
  destruct (grouped_inv_fold sc l) as [_ Hcaps _]. intros Hcc.
  by rewrite filter_filter_andb, (Hcaps cc Hcc).
Qed.

Lemma group_scope_complete sc l c :
  c ∈ l -> cap_scope c = sc ->
  exists cc, cc ∈ cs_Categories (group_scope l sc) /\ cc_Category cc = Category c /\
    catalog_view c ∈ cc_Capabilities cc.
Proof.
  destruct (grouped_inv_fold sc l) as [Hidx _ Hall]. intros Hc Hsc.
  destruct (Hall c Hc Hsc) as [i Hi].
  apply Hidx in Hi as (cc & Hi & Hname). apply list_elem_of_lookup_2 in Hi.
  exists cc. split_and!; try done. rewrite (group_scope_caps sc l cc Hi).
  apply list_elem_of_fmap. exists c. split; [done|].
  rewrite list_elem_of_In, !List.filter_In, Hname, String.eqb_refl.
  by rewrite bool_decide_eq_true_2, <- list_elem_of_In by done.
Qed.

(** ** Properties *)

(** the role editor's payload is a faithful partition of the catalog. The
    scopes come in the fixed order server, owner, panel; within a scope no
    category is repeated; a category holds exactly the capabilities of that
    scope and category, in catalog order; and every capability of the catalog
    is in the category its entry names. *)
Lemma Grouped_partition :
  cs_Scope <$> Grouped = ["server"; "owner"; "panel"] /\
  (forall sc, group_scope catalog sc ∈ Grouped /\
     NoDup (cc_Category <$> cs_Categories (group_scope catalog sc)) /\
     (forall cc, cc ∈ cs_Categories (group_scope catalog sc) ->
        cc_Capabilities cc =
          catalog_view <$> List.filter (fun c => Category c =? cc_Category cc) (ByScope sc)) /\
     (forall c, c ∈ catalog -> cap_scope c = sc ->
        exists cc, cc ∈ cs_Categories (group_scope catalog sc) /\ cc_Category cc = Category c /\
          catalog_view c ∈ cc_Capabilities cc)).
Proof.
  split; [done|]. intros sc. split; [destruct sc; set_solver|].
  split; [apply grouped_names_nodup|]. split; [apply group_scope_caps|].
  apply group_scope_complete.
Qed.

(** The presets hand out server access and nothing else. Every capability
    a preset names is a catalog capability of server scope; the builder can do
    everything the operator can; and the strongest preset misses exactly two
    server capabilities, deleting the server and reading its audit trail. *)
Lemma Presets_server_scope :
  Forall (fun p => Forall (fun capID =>
    exists c, Get capID = Some c /\ cap_scope c = ScopeServer) (p_Capabilities p)) Presets /\
  preset_caps "operator" ⊆ preset_caps "builder" /\
  preset_caps "admin" =
    list_to_set (ID <$> ByScope ScopeServer) ∖ {["server.delete"; "server.audit.read"]}.
Proof.
  split; [|split; apply (bool_decide_unpack _); by vm_compute].
  assert (H : forallb (fun p => forallb (fun i =>
        match Get i with Some c => bool_decide (cap_scope c = ScopeServer) | None => false end)
        (p_Capabilities p)) Presets = true) by by vm_compute.
  apply Forall_forall. intros p Hp. apply Forall_forall. intros i Hi.
  rewrite forallb_In in H. specialize (H p Hp).
  rewrite forallb_In in H. specialize (H i Hi). destruct (Get i) as [c|]; [|done].
  exists c. by apply bool_decide_eq_true in H.
Qed.

(** From here on the catalog is used through its lemmas; it still evaluates. *)
#[global] Arguments Get : simpl never.
#[global] Arguments Has : simpl never.
#[global] Arguments ByScope : simpl never.
#[global] Arguments ValidKeyCap : simpl never.
#[global] Opaque Get Has ByScope ValidKeyCap catalog.

Example Get_console_send :
  Get "console.send" =
  Some (mkCapability "console.send" "Send console command" "Console" ScopeServer VerbSend).
Proof. vm_compute. reflexivity. Qed.
