(* ===== verification/Resolver.v ===== *)
(** * The capability resolver

    [core/authz/resolver.go], [store.go] and the resolving half of
    [apikey.go]: what a request principal may do on a server, decided from the
    panel role, the owner of the server and the grants the owner gave. The
    persistence layer is the class [Store]; the hooks another package installs
    (public demo servers, other people's hardware) are fields of the resolver. *)

From S2P Require Import Prelude Catalog.
Open Scope string_scope. Open Scope list_scope. Open Scope Z_scope.

(** ** Rows *)

Record CapOverrides := mkOverrides { ov_Grant : list string; ov_Deny : list string }.

Record PanelRole := mkPanelRole {
  pr_ID : Z; pr_Name : string; pr_Capabilities : list string; pr_IsSystem : bool }.

Record ServerRole := mkServerRole {
  sr_ID : Z; sr_OwnerUserID : string; sr_Name : string; sr_Capabilities : list string }.

Record ServerGrant := mkServerGrant {
  g_ServerID : option Z;
  g_UserID : string;
  g_OwnerUserID : string;
  g_ServerRoleID : option Z;
  g_CapOverrides : CapOverrides;
  g_Inherit : bool;
  g_Role : option ServerRole }.

(** The columns of [models.Server] the resolver and its hooks look at. *)
Record Server := mkServer {
  srv_ID : Z;
  srv_UUID : string;
  srv_OwnerID : string;
  srv_ProxyID : option Z;
  srv_NodeOwnerID : option string }.

(** ** The persistence interface

    The last two operations are the optional interfaces [grantPairStore] and
    [grantListStore], found by a type assertion at run time. *)
Class Store := {
  GetServerByID : Z -> ptr_err Server;
  GetServerByUUID : string -> ptr_err Server;
  GetPanelRole : Z -> ptr_err PanelRole;
  GetServerRole : Z -> ptr_err ServerRole;
  GetUserPanelAuthz : string -> option Z * CapOverrides * option go_error;
  GetServerGrant : Z -> string -> ptr_err ServerGrant;
  GetAccountGrant : string -> string -> ptr_err ServerGrant;
  GetServerAndAccountGrants :
    option (Z -> string -> string -> option ServerGrant * option ServerGrant * option go_error);
  ListGrantsForUser : option (string -> list ServerGrant * option go_error)
}.

(** ** Identity *)

Inductive ctx_value := CtxString (s : string) | CtxBool (b : bool) | CtxOther.

Record Identity := mkIdentity { UserID : string; Username : string; IsAdmin : bool }.

Definition IdentityFromContext (ctx : gmap string ctx_value) : Identity :=
  mkIdentity
    (match ctx !! "userID" with Some (CtxString v) => v | _ => "" end)
    (match ctx !! "username" with Some (CtxString v) => v | _ => "" end)
    (match ctx !! "isAdmin" with Some (CtxBool v) => v | _ => false end).

Record Resolver := mkResolver {
  demoRead : option (string -> bool);
  foreignNode : option (Server -> string -> bool) }.

Definition NewResolver : Resolver := mkResolver None None.
Definition SetDemoRead (r : Resolver) (fn : option (string -> bool)) : Resolver :=
  mkResolver fn (foreignNode r).
Definition SetForeignNode (r : Resolver) (fn : option (Server -> string -> bool)) : Resolver :=
  mkResolver (demoRead r) fn.

(** ** Resolution

    A [map[string]bool] of the source only ever holds [true], so it is the set
    of its keys. [res_panelOnce] says whether the [sync.Once] has fired. *)
Record Resolution := mkResolution {
  res_admin : bool;
  res_adminPanel : bool;
  res_ownerSelf : bool;
  res_demoRead : bool;
  res_panelCaps : gset string;
  res_panelLoad : option (gset string -> gset string);
  res_panelOnce : bool;
  res_serverCaps : gset string;
  res_ownerCaps : gset string;
  res_server : option Server }.

Definition emptyResolution : Resolution :=
  mkResolution false false false false ∅ None false ∅ ∅ None.

Definition set_admin (a p : bool) (r : Resolution) : Resolution :=
  mkResolution a p (res_ownerSelf r) (res_demoRead r) (res_panelCaps r) (res_panelLoad r)
    (res_panelOnce r) (res_serverCaps r) (res_ownerCaps r) (res_server r).
Definition set_ownerSelf (r : Resolution) : Resolution :=
  mkResolution (res_admin r) (res_adminPanel r) true (res_demoRead r) (res_panelCaps r)
    (res_panelLoad r) (res_panelOnce r) (res_serverCaps r) (res_ownerCaps r) (res_server r).
Definition set_demoRead (r : Resolution) : Resolution :=
  mkResolution (res_admin r) (res_adminPanel r) (res_ownerSelf r) true (res_panelCaps r)
    (res_panelLoad r) (res_panelOnce r) (res_serverCaps r) (res_ownerCaps r) (res_server r).
Definition set_panelLoad (f : gset string -> gset string) (r : Resolution) : Resolution :=
  mkResolution (res_admin r) (res_adminPanel r) (res_ownerSelf r) (res_demoRead r)
    (res_panelCaps r) (Some f) (res_panelOnce r) (res_serverCaps r) (res_ownerCaps r)
    (res_server r).
Definition fire_panelOnce (f : gset string -> gset string) (r : Resolution) : Resolution :=
  if res_panelOnce r then r else
  mkResolution (res_admin r) (res_adminPanel r) (res_ownerSelf r) (res_demoRead r)
    (f (res_panelCaps r)) (res_panelLoad r) true (res_serverCaps r) (res_ownerCaps r)
    (res_server r).
Definition set_server (s : option Server) (r : Resolution) : Resolution :=
  mkResolution (res_admin r) (res_adminPanel r) (res_ownerSelf r) (res_demoRead r)
    (res_panelCaps r) (res_panelLoad r) (res_panelOnce r) (res_serverCaps r) (res_ownerCaps r) s.
Definition add_serverCap (c : string) (r : Resolution) : Resolution :=
  mkResolution (res_admin r) (res_adminPanel r) (res_ownerSelf r) (res_demoRead r)
    (res_panelCaps r) (res_panelLoad r) (res_panelOnce r) ({[c]} ∪ res_serverCaps r)
    (res_ownerCaps r) (res_server r).
Definition add_ownerCap (c : string) (r : Resolution) : Resolution :=
  mkResolution (res_admin r) (res_adminPanel r) (res_ownerSelf r) (res_demoRead r)
    (res_panelCaps r) (res_panelLoad r) (res_panelOnce r) (res_serverCaps r)
    ({[c]} ∪ res_ownerCaps r) (res_server r).

Definition demoReadDeny : gset string :=
  {["network.read"; "members.read"; "files.read"; "server.audit.read"; "backups.read";
    "domains.read"]}.

(** [HasCap] may fire [panelOnce], so it returns the resolution it leaves. *)
Definition HasCap (res : Resolution) (capID : string) : bool * Resolution :=
  match Get capID with
  | None => (false, res)
  | Some c =>
      if res_admin res then (true, res)
      else if res_adminPanel res && bool_decide (cap_scope c = ScopePanel) then (true, res)
      else if res_demoRead res && bool_decide (cap_scope c = ScopeServer) &&
              bool_decide (cap_verb c = VerbRead) && negb (bool_decide (capID ∈ demoReadDeny))
      then (true, res)
      else match cap_scope c with
           | ScopePanel =>
               let res := match res_panelLoad res with
                          | Some f => fire_panelOnce f res
                          | None => res
                          end in
               (bool_decide (capID ∈ res_panelCaps res), res)
           | ScopeServer => (res_ownerSelf res || bool_decide (capID ∈ res_serverCaps res), res)
           | ScopeOwner => (res_ownerSelf res || bool_decide (capID ∈ res_ownerCaps res), res)
           end
  end.

(** The answer alone. *)
Definition has_cap (res : Resolution) (capID : string) : bool := (HasCap res capID).1.

(** [HasAnyServerCap] asks for every SERVER capability until one is granted. *)
Fixpoint any_cap (res : Resolution) (l : list Capability) : bool * Resolution :=
  match l with
  | [] => (false, res)
  | c :: l => let '(b, res) := HasCap res (ID c) in
              if b then (true, res) else any_cap res l
  end.
Definition HasAnyServerCap (res : Resolution) : bool * Resolution :=
  any_cap res (ByScope ScopeServer).

Fixpoint CapSubset (res : Resolution) (requested : list string) : list string * Resolution :=
  match requested with
  | [] => ([], res)
  | c :: l => let '(b, res) := HasCap res c in
              let '(out, res) := CapSubset res l in
              (if b then c :: out else out, res)
  end.

(** ** Resolving *)

Definition applyOverrides (m : gset string) (ov : CapOverrides) : gset string :=
  foldl (fun m c => m ∖ {[c]}) (foldl (fun m c => {[c]} ∪ m) m (ov_Grant ov)) (ov_Deny ov).

Record grantReads := mkGrantReads {
  gr_pair : Z -> string -> option ServerGrant * option ServerGrant;
  gr_direct : Z -> option ServerGrant;
  gr_server : Z -> option Server }.

Section Resolve.
Context `{st : Store}.

Definition panel_load (userID : string) (caps : gset string) : gset string :=
  let '(roleID, overrides, err) := GetUserPanelAuthz userID in
  match err with
  | Some _ => caps
  | None =>
      let caps := match roleID with
                  | Some rid =>
                      match GetPanelRole rid with
                      | (Some role, None) =>
                          foldl (fun m c => {[c]} ∪ m) caps (pr_Capabilities role)
                      | _ => caps
                      end
                  | None => caps
                  end in
      applyOverrides caps overrides
  end.

Definition setPanelLoad (res : Resolution) (userID : string) : Resolution :=
  set_panelLoad (panel_load userID) res.

Definition storeGrantReads (userID : string) : grantReads :=
  mkGrantReads
    (fun serverID owner =>
       match GetServerAndAccountGrants with
       | Some gp => let '(direct, account, _) := gp serverID owner userID in (direct, account)
       | None => (ok_ptr (GetServerGrant serverID userID),
                  ok_ptr (GetAccountGrant owner userID))
       end)
    (fun serverID => ok_ptr (GetServerGrant serverID userID))
    (fun id => ok_ptr (GetServerByID id)).

(** The capabilities a grant carries in a realm, before they are routed. *)
Definition grant_caps (g : ServerGrant) (realmOwner : string) : gset string :=
  let role := match g_ServerRoleID g with
              | Some rid => match g_Role g with
                            | Some role => Some role
                            | None => (GetServerRole rid).1
                            end
              | None => None
              end in
  let caps := match role with
              | Some role =>
                  if (sr_OwnerUserID role =? "")%string || (sr_OwnerUserID role =? realmOwner)%string
                  then foldl (fun m c => {[c]} ∪ m) ∅ (sr_Capabilities role)
                  else ∅
              | None => ∅
              end in
  applyOverrides caps (g_CapOverrides g).

Definition route_cap (res : Resolution) (capID : string) : Resolution :=
  match Get capID with
  | None => res
  | Some c => match cap_scope c with
              | ScopeOwner => add_ownerCap capID res
              | ScopeServer => add_serverCap capID res
              | ScopePanel => res
              end
  end.

Definition applyGrant (res : Resolution) (g : ServerGrant) (realmOwner : string) : Resolution :=
  foldl route_cap res (elements (grant_caps g realmOwner)).

(** The grant a server inherits from its proxy. *)
Definition proxy_grant (srv : Server) (g : grantReads) : option ServerGrant :=
  match srv_ProxyID srv with
  | None => None
  | Some pid =>
      match gr_server g pid with
      | None => None
      | Some psrv =>
          if (srv_OwnerID psrv =? srv_OwnerID srv)%string then
            match gr_direct g pid with
            | None => None
            | Some pg =>
                if g_Inherit pg && ((g_OwnerUserID pg =? "")%string ||
                                    (g_OwnerUserID pg =? srv_OwnerID srv)%string)
                then Some pg else None
            end
          else None
      end
  end.

Definition resolveOnServer (r : Resolver) (res : Resolution) (id : Identity) (srv : Server)
    (g : grantReads) : Resolution :=
  let res := match demoRead r with
             | Some f => if f (srv_UUID srv) then set_demoRead res else res
             | None => res
             end in
  if (srv_OwnerID srv =? UserID id)%string then set_ownerSelf res
  else
    let '(grant, acct) := gr_pair g (srv_ID srv) (srv_OwnerID srv) in
    let grant := match grant with
                 | Some gt => if negb (g_OwnerUserID gt =? "")%string &&
                                 negb (g_OwnerUserID gt =? srv_OwnerID srv)%string
                              then None else Some gt
                 | None => None
                 end in
    let grant := match grant with Some gt => Some gt | None => proxy_grant srv g end in
    let res := match grant with Some gt => applyGrant res gt (srv_OwnerID srv) | None => res end in
    match acct with Some a => applyGrant res a (srv_OwnerID srv) | None => res end.

(** From the user id on: everything after the admin short-circuit. *)
Definition resolve_principal (r : Resolver) (res : Resolution) (id : Identity) (serverID : Z)
    : Resolution :=
  if (UserID id =? "")%string then res
  else
    let res := setPanelLoad res (UserID id) in
    if serverID =? 0 then set_ownerSelf res
    else
      let known := match res_server res with
                   | Some s => if srv_ID s =? serverID then Some s else None
                   | None => None
                   end in
      match known with
      | Some srv => resolveOnServer r res id srv (storeGrantReads (UserID id))
      | None =>
          match GetServerByID serverID with
          | (Some srv, None) =>
              resolveOnServer r (set_server (Some srv) res) id srv (storeGrantReads (UserID id))
          | _ => res
          end
      end.

Definition Resolve (r : Resolver) (id : Identity) (serverID : Z) : Resolution * option go_error :=
  let res := emptyResolution in
  if IsAdmin id then
    let res := set_admin true false res in
    match foreignNode r with
    | None => (res, None)
    | Some foreign =>
        if serverID =? 0 then (res, None)
        else
          let '(srv, serr) := GetServerByID serverID in
          if bool_decide (serr = Some ErrNoRows) then (res, None)
          else
            let res := match serr with None => set_server srv res | Some _ => res end in
            let ours := match serr, srv with
                        | None, Some s => negb (foreign s (UserID id))
                        | _, _ => false
                        end in
            if ours then (res, None)
            else (resolve_principal r (set_admin false true res) id serverID, None)
    end
  else (resolve_principal r res id serverID, None).

(** The two indexes [ResolveListed] builds from one grant list. *)
Definition index_grants (grants : list ServerGrant)
    : gmap Z ServerGrant * gmap string ServerGrant :=
  foldl (fun '(direct, account) g =>
           match g_ServerID g with
           | Some sid => (<[sid := g]> direct, account)
           | None => (direct, <[g_OwnerUserID g := g]> account)
           end) (∅, ∅) grants.

Definition ResolveListed (r : Resolver) (id : Identity) (servers : list Server)
    : gmap Z Resolution :=
  match servers with
  | [] => ∅
  | _ =>
      let one_by_one :=
        foldl (fun out s => match Resolve r id (srv_ID s) with
                            | (res, None) => <[srv_ID s := res]> out
                            | (_, Some _) => out
                            end) ∅ servers in
      match ListGrantsForUser with
      | None => one_by_one
      | Some list_grants =>
          if IsAdmin id || (UserID id =? "")%string then one_by_one
          else
            match list_grants (UserID id) with
            | (_, Some _) => ∅
            | (grants, None) =>
                let '(direct, account) := index_grants grants in
                let listed : gmap Z Server :=
                  foldl (fun m s => <[srv_ID s := s]> m) ∅ servers in
                let storeReads := storeGrantReads (UserID id) in
                let reads := mkGrantReads
                  (fun serverID owner => (direct !! serverID, account !! owner))
                  (fun serverID => direct !! serverID)
                  (fun sid => match listed !! sid with
                              | Some s => Some s
                              | None => gr_server storeReads sid
                              end) in
                foldl (fun out s =>
                  let res := setPanelLoad emptyResolution (UserID id) in
                  let res := set_server (Some s) res in
                  <[srv_ID s := resolveOnServer r res id s reads]> out) ∅ servers
            end
      end
  end.
End Resolve.

(** ** API keys *)

Definition ResolveAPIKey (perms : list string) (serverAllowed : bool) : Resolution :=
  foldl (fun res capID =>
    match Get capID with
    | None => res
    | Some c =>
        if negb (ValidKeyCap capID) then res
        else match cap_scope c with
             | ScopeServer => if serverAllowed then add_serverCap capID res else res
             | ScopeOwner => add_ownerCap capID res
             | ScopePanel => res
             end
    end) emptyResolution perms.

(** ** Lemmas: the sets a resolution holds *)

Lemma applyOverrides_In m ov x :
  x ∈ applyOverrides m ov <-> (x ∈ m \/ x ∈ ov_Grant ov) /\ x ∉ ov_Deny ov.
Proof. unfold applyOverrides. rewrite foldl_delete_set, foldl_insert_set. tauto. Qed.

(** Two resolutions that differ at most in their SERVER and OWNER sets. *)
Definition same_frame (r1 r2 : Resolution) : Prop :=
  res_admin r1 = res_admin r2 /\ res_adminPanel r1 = res_adminPanel r2 /\
  res_ownerSelf r1 = res_ownerSelf r2 /\ res_demoRead r1 = res_demoRead r2 /\
  res_panelCaps r1 = res_panelCaps r2 /\ res_panelLoad r1 = res_panelLoad r2 /\
  res_panelOnce r1 = res_panelOnce r2 /\ res_server r1 = res_server r2.

#[export] Instance same_frame_equiv : Equivalence same_frame.
Proof. split; [intros ?|intros ??|intros ???]; unfold same_frame; intuition congruence. Qed.

Lemma route_cap_frame res c : same_frame (route_cap res c) res.
Proof. unfold route_cap, same_frame. repeat case_match; by split_and!. Qed.

(** The capability [x] is routed to the set of scope [s]. *)
Definition routed (s : Scope) (x : string) : Prop :=
  exists c, Get x = Some c /\ cap_scope c = s.

Lemma routed_iff x c : Get x = Some c -> forall s, routed s x <-> cap_scope c = s.
Proof. unfold routed. naive_solver. Qed.

Lemma route_cap_server res c x :
  x ∈ res_serverCaps (route_cap res c) <->
  x ∈ res_serverCaps res \/ (x = c /\ routed ScopeServer x).
Proof.
  unfold route_cap, routed. repeat case_match; simpl;
    rewrite ?elem_of_union, ?elem_of_singleton; naive_solver congruence.
Qed.

Lemma route_cap_owner res c x :
  x ∈ res_ownerCaps (route_cap res c) <->
  x ∈ res_ownerCaps res \/ (x = c /\ routed ScopeOwner x).
Proof.
  unfold route_cap, routed. repeat case_match; simpl;
    rewrite ?elem_of_union, ?elem_of_singleton; naive_solver congruence.
Qed.

Lemma route_caps_spec l res :
  same_frame (foldl route_cap res l) res /\
  (forall x, x ∈ res_serverCaps (foldl route_cap res l) <->
     x ∈ res_serverCaps res \/ (x ∈ l /\ routed ScopeServer x)) /\
  (forall x, x ∈ res_ownerCaps (foldl route_cap res l) <->
     x ∈ res_ownerCaps res \/ (x ∈ l /\ routed ScopeOwner x)).
Proof.
  revert res. induction l as [|c l IH]; intros res; simpl.
  { split; [reflexivity|]. split; set_solver. }
  destruct (IH (route_cap res c)) as (Hf & Hs & Ho). split; [|split].
  - etransitivity; [exact Hf|apply route_cap_frame].
  - intros x. rewrite Hs, route_cap_server. set_solver.
  - intros x. rewrite Ho, route_cap_owner. set_solver.
Qed.

Section ResolveLemmas.
Context `{st : Store}.

Lemma applyGrant_frame res g o : same_frame (applyGrant res g o) res.
Proof. apply route_caps_spec. Qed.

Lemma applyGrant_server res g o x :
  x ∈ res_serverCaps (applyGrant res g o) <->
  x ∈ res_serverCaps res \/ (x ∈ grant_caps g o /\ routed ScopeServer x).
Proof.
  unfold applyGrant. destruct (route_caps_spec (elements (grant_caps g o)) res) as (_ & -> & _).
  by rewrite elem_of_elements.
Qed.

Lemma applyGrant_owner res g o x :
  x ∈ res_ownerCaps (applyGrant res g o) <->
  x ∈ res_ownerCaps res \/ (x ∈ grant_caps g o /\ routed ScopeOwner x).
Proof.
  unfold applyGrant. destruct (route_caps_spec (elements (grant_caps g o)) res) as (_ & _ & ->).
  by rewrite elem_of_elements.
Qed.

(** What a grant carries: its role, if that role belongs to the realm, and
    its overrides, with a deny winning inside the grant. *)
Lemma grant_caps_In g o x :
  x ∈ grant_caps g o <->
  x ∉ ov_Deny (g_CapOverrides g) /\
  (x ∈ ov_Grant (g_CapOverrides g) \/
   exists rid role, g_ServerRoleID g = Some rid /\
     (g_Role g = Some role \/ (g_Role g = None /\ (GetServerRole rid).1 = Some role)) /\
     (sr_OwnerUserID role = "" \/ sr_OwnerUserID role = o) /\ x ∈ sr_Capabilities role).
Proof.
  unfold grant_caps. rewrite applyOverrides_In.
  assert (Hc : forall role : ServerRole,
    x ∈ (if (sr_OwnerUserID role =? "")%string || (sr_OwnerUserID role =? o)%string
         then foldl (fun (m : gset string) c => {[c]} ∪ m) ∅ (sr_Capabilities role) else ∅) <->
    (sr_OwnerUserID role = "" \/ sr_OwnerUserID role = o) /\ x ∈ sr_Capabilities role).
  { intros role. destruct (_ || _) eqn:E.
    - rewrite foldl_insert_set. apply orb_true_iff in E. rewrite !String.eqb_eq in E. set_solver.
    - apply orb_false_iff in E. rewrite !String.eqb_neq in E. set_solver. }
  destruct (g_ServerRoleID g) as [rid|]; [destruct (g_Role g) as [role|] eqn:Er|].
  - rewrite Hc. split; [|naive_solver]. intros [[?|?] ?]; [|by auto].
    split; [done|]. right. exists rid, role. tauto.
  - destruct ((GetServerRole rid).1) as [role|] eqn:Egr; [rewrite Hc|]; [|set_solver].
    split; [|naive_solver]. intros [[?|?] ?]; [|by auto].
    split; [done|]. right. exists rid, role. tauto.
  - set_solver.
Qed.
End ResolveLemmas.

(** ** Lemmas: [HasCap] *)

(** The PANEL set as the next check will see it. *)
Definition eff_panelCaps (res : Resolution) : gset string :=
  match res_panelLoad res with
  | Some f => if res_panelOnce res then res_panelCaps res else f (res_panelCaps res)
  | None => res_panelCaps res
  end.

Lemma has_cap_eq res capID :
  has_cap res capID =
  match Get capID with
  | None => false
  | Some c =>
      res_admin res
      || (res_adminPanel res && bool_decide (cap_scope c = ScopePanel))
      || (res_demoRead res && bool_decide (cap_scope c = ScopeServer) &&
          bool_decide (cap_verb c = VerbRead) && negb (bool_decide (capID ∈ demoReadDeny)))
      || match cap_scope c with
         | ScopePanel => bool_decide (capID ∈ eff_panelCaps res)
         | ScopeServer => res_ownerSelf res || bool_decide (capID ∈ res_serverCaps res)
         | ScopeOwner => res_ownerSelf res || bool_decide (capID ∈ res_ownerCaps res)
         end
  end.
Proof.
  unfold has_cap, HasCap, eff_panelCaps, fire_panelOnce.
  destruct (Get capID) as [c|]; [|done].
  destruct (res_admin res); [done|]. destruct (res_adminPanel res && _); [done|].
  destruct (res_demoRead res && _ && _ && _); [done|]. simpl.
  destruct (cap_scope c); simpl; try done.
  destruct (res_panelLoad res) as [f|]; [|done]. by destruct (res_panelOnce res).
Qed.

(** The same decision as a proposition. *)
Lemma has_cap_true res capID :
  has_cap res capID = true <->
  exists c, Get capID = Some c /\
    (res_admin res = true \/
     (res_adminPanel res = true /\ cap_scope c = ScopePanel) \/
     (res_demoRead res = true /\ cap_scope c = ScopeServer /\ cap_verb c = VerbRead /\
      capID ∉ demoReadDeny) \/
     (cap_scope c = ScopePanel /\ capID ∈ eff_panelCaps res) \/
     (cap_scope c = ScopeServer /\ (res_ownerSelf res = true \/ capID ∈ res_serverCaps res)) \/
     (cap_scope c = ScopeOwner /\ (res_ownerSelf res = true \/ capID ∈ res_ownerCaps res))).
Proof.
  rewrite has_cap_eq. destruct (Get capID) as [c|]; [|split; [done|by intros (c & ? & _)]].
  rewrite !orb_true_iff, !andb_true_iff, negb_true_iff, !bool_decide_eq_true, bool_decide_eq_false.
  destruct (cap_scope c) eqn:Hs; rewrite ?orb_true_iff, bool_decide_eq_true;
    (split; [intros H; exists c; split; [done|]; rewrite ?Hs; intuition idtac
            |intros (c' & [= <-] & H); rewrite Hs in H; intuition congruence]).
Qed.

(** Firing the lazy load changes no answer: not this one, not a later one. *)
Lemma HasCap_stable res c d : has_cap (HasCap res c).2 d = has_cap res d.
Proof.
  assert (H : forall f, res_panelLoad res = Some f ->
    has_cap (fire_panelOnce f res) d = has_cap res d).
  { intros f Hf. rewrite !has_cap_eq. unfold fire_panelOnce, eff_panelCaps.
    destruct (res_panelOnce res) eqn:Ho; simpl; by rewrite ?Hf, ?Ho. }
  unfold HasCap. repeat case_match; simpl; auto.
Qed.

Lemma any_cap_spec res l :
  (any_cap res l).1 = true <-> exists c, c ∈ l /\ has_cap res (ID c) = true.
Proof.
  revert res. induction l as [|c l IH]; intros res; simpl.
  { split; [done|]. intros (c & ?%not_elem_of_nil & _). done. }
  pose proof (HasCap_stable res (ID c)) as Hst. unfold has_cap in *.
  destruct (HasCap res (ID c)) as [b res'] eqn:E. simpl in *. destruct b; simpl.
  - split; [|done]. intros _. exists c. rewrite E. set_solver.
  - rewrite IH. setoid_rewrite Hst. split; intros (d & Hd & Hc); exists d; [set_solver|].
    apply elem_of_cons in Hd as [->|Hd]; [|done]. by rewrite E in Hc.
Qed.

Lemma CapSubset_filter res l : (CapSubset res l).1 = List.filter (has_cap res) l.
Proof.
  revert res. induction l as [|c l IH]; intros res; simpl; [done|].
  pose proof (HasCap_stable res c) as Hst.
  assert (Hb : has_cap res c = (HasCap res c).1) by done.
  destruct (HasCap res c) as [b res'] eqn:E. simpl in *. specialize (IH res').
  destruct (CapSubset res' l) as [out r'']. simpl in *. subst out.
  rewrite (List.filter_ext _ _ Hst), Hb. by destruct b.
Qed.

(** ** Specification: what a principal is granted

    The decision the resolver implements, written as rules over the store with
    no resolution in sight. *)
Section Spec.
Context `{st : Store}.

(** The PANEL capabilities of a user: role, plus grants, minus denies. *)
Definition panel_caps (userID : string) : gset string := panel_load userID ∅.

(** The direct grant counts only in the realm it was given in. *)
Definition realm_ok (g : ServerGrant) (owner : string) : Prop :=
  g_OwnerUserID g = "" \/ g_OwnerUserID g = owner.

(** The grants that speak for a user on a server: the direct one; with no
    direct one in the realm, the one its proxy hands down; and the
    account-wide one. *)
Inductive speaks (userID : string) (srv : Server) : ServerGrant -> Prop :=
| speaks_direct g :
    (gr_pair (storeGrantReads userID) (srv_ID srv) (srv_OwnerID srv)).1 = Some g ->
    realm_ok g (srv_OwnerID srv) -> speaks userID srv g
| speaks_proxy g pid psrv :
    (forall d, (gr_pair (storeGrantReads userID) (srv_ID srv) (srv_OwnerID srv)).1 = Some d ->
       ~ realm_ok d (srv_OwnerID srv)) ->
    srv_ProxyID srv = Some pid -> GetServerByID pid = (Some psrv, None) ->
    srv_OwnerID psrv = srv_OwnerID srv ->
    GetServerGrant pid userID = (Some g, None) -> g_Inherit g = true ->
    realm_ok g (srv_OwnerID srv) -> speaks userID srv g
| speaks_account g :
    (gr_pair (storeGrantReads userID) (srv_ID srv) (srv_OwnerID srv)).2 = Some g ->
    speaks userID srv g.

(** When an administrator keeps the short-circuit on a server: none is
    addressed, no hook is installed, the server does not exist, or it was
    read and is not on somebody else's machine. *)
Definition admin_everywhere (r : Resolver) (id : Identity) (serverID : Z) : Prop :=
  serverID = 0 \/ foreignNode r = None \/ (GetServerByID serverID).2 = Some ErrNoRows \/
  exists foreign srv, foreignNode r = Some foreign /\ GetServerByID serverID = (Some srv, None) /\
    foreign srv (UserID id) = false.

Inductive Granted (r : Resolver) (id : Identity) (serverID : Z) (capID : string) : Prop :=
| granted_admin c :
    Get capID = Some c -> IsAdmin id = true -> admin_everywhere r id serverID ->
    Granted r id serverID capID
| granted_admin_panel c :
    Get capID = Some c -> IsAdmin id = true -> cap_scope c = ScopePanel ->
    Granted r id serverID capID
| granted_panel c :
    Get capID = Some c -> cap_scope c = ScopePanel -> UserID id <> "" ->
    capID ∈ panel_caps (UserID id) -> Granted r id serverID capID
| granted_own_realm c :
    Get capID = Some c -> cap_scope c <> ScopePanel -> UserID id <> "" -> serverID = 0 ->
    Granted r id serverID capID
| granted_owner c srv :
    Get capID = Some c -> cap_scope c <> ScopePanel -> UserID id <> "" -> serverID <> 0 ->
    GetServerByID serverID = (Some srv, None) -> srv_OwnerID srv = UserID id ->
    Granted r id serverID capID
| granted_demo c srv demo :
    Get capID = Some c -> cap_scope c = ScopeServer -> cap_verb c = VerbRead ->
    capID ∉ demoReadDeny -> UserID id <> "" -> serverID <> 0 ->
    GetServerByID serverID = (Some srv, None) ->
    demoRead r = Some demo -> demo (srv_UUID srv) = true ->
    Granted r id serverID capID
| granted_grant c srv g :
    Get capID = Some c -> cap_scope c <> ScopePanel -> UserID id <> "" -> serverID <> 0 ->
    GetServerByID serverID = (Some srv, None) -> srv_OwnerID srv <> UserID id ->
    speaks (UserID id) srv g -> capID ∈ grant_caps g (srv_OwnerID srv) ->
    Granted r id serverID capID.
End Spec.

(** ** Lemmas: resolving implements the specification *)
Section Refinement.
Context `{st : Store}.

Lemma realm_ok_bool g o :
  realm_ok g o <-> (negb (g_OwnerUserID g =? "")%string && negb (g_OwnerUserID g =? o)%string) = false.
Proof.
  unfold realm_ok. rewrite andb_false_iff, !negb_false_iff, !String.eqb_eq. tauto.
Qed.

Lemma proxy_grant_spec uid srv g :
  proxy_grant srv (storeGrantReads uid) = Some g <->
  exists pid psrv, srv_ProxyID srv = Some pid /\ GetServerByID pid = (Some psrv, None) /\
    srv_OwnerID psrv = srv_OwnerID srv /\ GetServerGrant pid uid = (Some g, None) /\
    g_Inherit g = true /\ realm_ok g (srv_OwnerID srv).
Proof.
  assert (Hok : forall A (p : ptr_err A) x, ok_ptr p = Some x <-> p = (Some x, None)).
  { intros A [[a|] [e|]] x; unfold ok_ptr; simpl; naive_solver. }
  unfold proxy_grant, realm_ok. destruct (srv_ProxyID srv) as [pid|]; [|naive_solver]. simpl.
  destruct (ok_ptr (GetServerByID pid)) as [psrv|] eqn:Ep; cycle 1.
  { split; [done|]. intros (p & ps & [= <-] & Hp%Hok & _). congruence. }
  apply Hok in Ep. destruct (String.eqb_spec (srv_OwnerID psrv) (srv_OwnerID srv)) as [Ho|Ho];
    [|naive_solver congruence].
  destruct (ok_ptr (GetServerGrant pid uid)) as [pg|] eqn:Eg; cycle 1.
  { split; [done|]. intros (p & ps & [= <-] & _ & _ & Hp%Hok & _). congruence. }
  apply Hok in Eg. split.
  - destruct (g_Inherit pg) eqn:Hi; simpl; [|done].
    destruct (_ || _) eqn:Hr; [|done]. intros [= <-].
    rewrite orb_true_iff, !String.eqb_eq in Hr. exists pid, psrv. done.
  - intros (p & ps & [= <-] & Hps & _ & Hg & Hi & Hr). rewrite Hg in Eg. simplify_eq.
    rewrite Hi. simpl. rewrite <- !String.eqb_eq, <- orb_true_iff in Hr. by rewrite Hr.
Qed.

(** Fields of a resolution the server half never touches. *)
Definition same_panel (r1 r2 : Resolution) : Prop :=
  res_admin r1 = res_admin r2 /\ res_adminPanel r1 = res_adminPanel r2 /\
  res_panelCaps r1 = res_panelCaps r2 /\ res_panelLoad r1 = res_panelLoad r2 /\
  res_panelOnce r1 = res_panelOnce r2 /\ res_server r1 = res_server r2.

Definition demo_on (r : Resolver) (srv : Server) : bool :=
  match demoRead r with Some f => f (srv_UUID srv) | None => false end.

(** The effect of the optional grants on the two sets. *)
Definition apply_opt (res : Resolution) (g : option ServerGrant) (o : string) : Resolution :=
  match g with Some g => applyGrant res g o | None => res end.

Lemma apply_opt_spec res g o :
  same_frame (apply_opt res g o) res /\
  (forall x, x ∈ res_serverCaps (apply_opt res g o) <-> x ∈ res_serverCaps res \/
     exists gt, g = Some gt /\ x ∈ grant_caps gt o /\ routed ScopeServer x) /\
  (forall x, x ∈ res_ownerCaps (apply_opt res g o) <-> x ∈ res_ownerCaps res \/
     exists gt, g = Some gt /\ x ∈ grant_caps gt o /\ routed ScopeOwner x).
Proof.
  destruct g as [g|]; simpl.
  - split; [apply applyGrant_frame|]. split; intros x;
      [rewrite applyGrant_server|rewrite applyGrant_owner]; naive_solver.
  - split; [reflexivity|]. split; naive_solver.
Qed.

(** The direct grant or, with none in the realm, the proxy's. *)
Definition server_grant (uid : string) (srv : Server) : option ServerGrant :=
  let grant := match (gr_pair (storeGrantReads uid) (srv_ID srv) (srv_OwnerID srv)).1 with
               | Some gt => if negb (g_OwnerUserID gt =? "")%string &&
                               negb (g_OwnerUserID gt =? srv_OwnerID srv)%string
                            then None else Some gt
               | None => None
               end in
  match grant with Some gt => Some gt | None => proxy_grant srv (storeGrantReads uid) end.

Lemma speaks_iff uid srv g :
  speaks uid srv g <->
  server_grant uid srv = Some g \/
  (gr_pair (storeGrantReads uid) (srv_ID srv) (srv_OwnerID srv)).2 = Some g.
Proof.
  unfold server_grant. set (pr := gr_pair _ _ _). split.
  - destruct 1 as [g Hg Hr|g pid psrv Hno Hp Hs Ho Hg Hi Hr|g Hg]; [left|left|by right].
    + fold pr in Hg. rewrite Hg. by rewrite (proj1 (realm_ok_bool _ _) Hr).
    + assert (proxy_grant srv (storeGrantReads uid) = Some g) as Hpg
        by (apply proxy_grant_spec; eauto 10).
      fold pr in Hno. destruct pr.1 as [d|]; [|done].
      destruct (negb _ && negb _) eqn:E; [done|]. by destruct (Hno d); [|apply realm_ok_bool].
  - intros [H|H]; [|by apply speaks_account].
    destruct pr.1 as [d|] eqn:Ed; [destruct (negb _ && negb _) eqn:E|].
    + apply proxy_grant_spec in H as (pid & psrv & ? & ? & ? & ? & ? & ?).
      eapply speaks_proxy; eauto. intros d'. fold pr. rewrite Ed. intros [= <-].
      rewrite realm_ok_bool. congruence.
    + simplify_eq. apply speaks_direct; [done|by apply realm_ok_bool].
    + apply proxy_grant_spec in H as (pid & psrv & ? & ? & ? & ? & ? & ?).
      eapply speaks_proxy; eauto. intros d'. fold pr. by rewrite Ed.
Qed.

Lemma resolveOnServer_spec r res id srv :
  let res' := resolveOnServer r res id srv (storeGrantReads (UserID id)) in
  same_panel res' res /\
  res_demoRead res' = demo_on r srv || res_demoRead res /\
  res_ownerSelf res' = (srv_OwnerID srv =? UserID id)%string || res_ownerSelf res /\
  (forall x, x ∈ res_serverCaps res' <-> x ∈ res_serverCaps res \/
     (srv_OwnerID srv <> UserID id /\ routed ScopeServer x /\
      exists g, speaks (UserID id) srv g /\ x ∈ grant_caps g (srv_OwnerID srv))) /\
  (forall x, x ∈ res_ownerCaps res' <-> x ∈ res_ownerCaps res \/
     (srv_OwnerID srv <> UserID id /\ routed ScopeOwner x /\
      exists g, speaks (UserID id) srv g /\ x ∈ grant_caps g (srv_OwnerID srv))).
Proof.
  intros res'. subst res'. unfold resolveOnServer.
  set (res0 := match demoRead r with Some f => _ | None => res end).
  assert (H0 : same_panel res0 res /\ res_demoRead res0 = demo_on r srv || res_demoRead res /\
    res_ownerSelf res0 = res_ownerSelf res /\ res_serverCaps res0 = res_serverCaps res /\
    res_ownerCaps res0 = res_ownerCaps res).
  { unfold res0, demo_on, same_panel. repeat case_match; by split_and!. }
  clearbody res0. destruct H0 as (Hp0 & Hd0 & Ho0 & Hsc0 & Hoc0).
  destruct (String.eqb_spec (srv_OwnerID srv) (UserID id)) as [Heq|Hne].
  - simpl. split_and!; try done; intros x; [rewrite Hsc0|rewrite Hoc0]; tauto.
  - pose proof (speaks_iff (UserID id) srv) as Hsp. unfold server_grant in Hsp.
    destruct (gr_pair _ _ _) as [grant acct]. simpl in Hsp.
    set (gt := match _ with Some gt => Some gt | None => proxy_grant _ _ end) in *.
    fold (apply_opt res0 gt (srv_OwnerID srv)).
    fold (apply_opt (apply_opt res0 gt (srv_OwnerID srv)) acct (srv_OwnerID srv)).
    destruct (apply_opt_spec res0 gt (srv_OwnerID srv)) as (F1 & S1 & O1).
    destruct (apply_opt_spec (apply_opt res0 gt (srv_OwnerID srv)) acct (srv_OwnerID srv))
      as (F2 & S2 & O2).
    unfold same_frame, same_panel in *. rewrite orb_false_l.
    split_and!; try intuition congruence.
    + intros x. rewrite S2, S1, Hsc0. setoid_rewrite Hsp. clear -Hne. naive_solver.
    + intros x. rewrite O2, O1, Hoc0. setoid_rewrite Hsp. clear -Hne. naive_solver.
Qed.

(** A resolution that still has nothing but its admin bits and its row. *)
Definition fresh (res : Resolution) : Prop :=
  res_ownerSelf res = false /\ res_demoRead res = false /\ res_panelCaps res = ∅ /\
  res_panelLoad res = None /\ res_panelOnce res = false /\
  res_serverCaps res = ∅ /\ res_ownerCaps res = ∅.

(** The row a fresh resolution may carry is the one the store has. *)
Definition row_ok (res : Resolution) (serverID : Z) : Prop :=
  forall s, res_server res = Some s -> GetServerByID serverID = (Some s, None).

Lemma has_cap_fresh res capID :
  fresh res ->
  has_cap res capID = true <->
  exists c, Get capID = Some c /\
    (res_admin res = true \/ (res_adminPanel res = true /\ cap_scope c = ScopePanel)).
Proof.
  intros (Ho & Hd & Hpc & Hpl & Hpo & Hsc & Hoc). rewrite has_cap_true.
  unfold eff_panelCaps. rewrite Ho, Hd, Hpl, Hpc, Hsc, Hoc.
  split; intros (c & Hc & H); exists c; set_solver.
Qed.

Lemma has_cap_own res uid capID :
  fresh res ->
  has_cap (set_ownerSelf (setPanelLoad res uid)) capID = true <->
  exists c, Get capID = Some c /\
    (res_admin res = true \/ (res_adminPanel res = true /\ cap_scope c = ScopePanel) \/
     (cap_scope c = ScopePanel /\ capID ∈ panel_caps uid) \/ cap_scope c <> ScopePanel).
Proof.
  intros (Ho & Hd & Hpc & Hpl & Hpo & Hsc & Hoc). rewrite has_cap_true.
  unfold eff_panelCaps, panel_caps. simpl. rewrite Hd, Hpo, Hpc.
  split; intros (c & Hc & H); exists c; (split; [done|]); destruct (cap_scope c); intuition congruence.
Qed.

(** The three ways a server reaches a principal that is not an admin there. *)
Definition server_reach (r : Resolver) (id : Identity) (srv : Server) (c : Capability)
    (capID : string) : Prop :=
  (cap_scope c <> ScopePanel /\ srv_OwnerID srv = UserID id) \/
  (cap_scope c = ScopeServer /\ cap_verb c = VerbRead /\ capID ∉ demoReadDeny /\
   demo_on r srv = true) \/
  (cap_scope c <> ScopePanel /\ srv_OwnerID srv <> UserID id /\
   exists g, speaks (UserID id) srv g /\ capID ∈ grant_caps g (srv_OwnerID srv)).

Lemma has_cap_on_server r res id srv capID :
  fresh res ->
  has_cap (resolveOnServer r (setPanelLoad res (UserID id)) id srv
             (storeGrantReads (UserID id))) capID = true <->
  exists c, Get capID = Some c /\
    (res_admin res = true \/ (res_adminPanel res = true /\ cap_scope c = ScopePanel) \/
     (cap_scope c = ScopePanel /\ capID ∈ panel_caps (UserID id)) \/
     server_reach r id srv c capID).
Proof.
  intros (Ho & Hd & Hpc & Hpl & Hpo & Hsc & Hoc). rewrite has_cap_true.
  destruct (resolveOnServer_spec r (setPanelLoad res (UserID id)) id srv)
    as ((Ha & Hap & Hp1 & Hp2 & Hp3 & _) & Hde & How & Hs & Hoo).
  unfold eff_panelCaps. rewrite Ha, Hap, Hp1, Hp2, Hp3, Hde, How. simpl.
  rewrite Ho, Hd, Hpo, Hpc, !orb_false_r. setoid_rewrite String.eqb_eq.
  setoid_rewrite Hs. setoid_rewrite Hoo. simpl. rewrite Hsc, Hoc.
  setoid_rewrite elem_of_empty. unfold server_reach, panel_caps.
  split; intros (c & Hc & H); exists c; (split; [done|]);
    destruct (decide (srv_OwnerID srv = UserID id));
    first [rewrite !(routed_iff capID c Hc) in H|rewrite !(routed_iff capID c Hc)];
    destruct (cap_scope c); intuition congruence.
Qed.

Lemma has_cap_panel_only res uid capID :
  fresh res ->
  has_cap (setPanelLoad res uid) capID = true <->
  exists c, Get capID = Some c /\
    (res_admin res = true \/ (res_adminPanel res = true /\ cap_scope c = ScopePanel) \/
     (cap_scope c = ScopePanel /\ capID ∈ panel_caps uid)).
Proof.
  intros (Ho & Hd & Hpc & Hpl & Hpo & Hsc & Hoc). rewrite has_cap_true.
  unfold eff_panelCaps, panel_caps. simpl. rewrite Hd, Ho, Hpo, Hpc, Hsc, Hoc.
  setoid_rewrite elem_of_empty.
  split; intros (c & Hc & H); exists c; (split; [done|]); intuition congruence.
Qed.

(** What [resolve_principal] adds to a fresh resolution, as a decision. *)
Definition principal_has (r : Resolver) (res : Resolution) (id : Identity) (serverID : Z)
    (capID : string) : Prop :=
  exists c, Get capID = Some c /\
    (res_admin res = true \/ (res_adminPanel res = true /\ cap_scope c = ScopePanel) \/
     (UserID id <> "" /\
      ((cap_scope c = ScopePanel /\ capID ∈ panel_caps (UserID id)) \/
       (cap_scope c <> ScopePanel /\ serverID = 0) \/
       (serverID <> 0 /\ exists srv, GetServerByID serverID = (Some srv, None) /\
         server_reach r id srv c capID)))).

Lemma principal_on_server r res id srv serverID capID :
  fresh res -> UserID id <> "" -> serverID <> 0 -> GetServerByID serverID = (Some srv, None) ->
  has_cap (resolveOnServer r (setPanelLoad res (UserID id)) id srv
             (storeGrantReads (UserID id))) capID = true <->
  principal_has r res id serverID capID.
Proof.
  intros Hf Hu Hz Hsrv. rewrite has_cap_on_server by done. unfold principal_has.
  split; intros (c & Hc & H); exists c; (split; [done|]).
  - destruct H as [H|[H|[H|H]]]; [tauto..|]. do 2 right. split; [done|].
    do 2 right. split; [done|]. by exists srv.
  - destruct H as [H|[H|[_ [H|[[_ H]|[_ (s & Hs & H)]]]]]]; [by auto|by auto|by auto|done|].
    rewrite Hsrv in Hs. simplify_eq. auto.
Qed.

Lemma resolve_principal_has r res id serverID capID :
  fresh res -> row_ok res serverID ->
  has_cap (resolve_principal r res id serverID) capID = true <->
  principal_has r res id serverID capID.
Proof.
  intros Hf Hrow. unfold resolve_principal.
  destruct (String.eqb_spec (UserID id) "") as [Hu|Hu].
  { rewrite has_cap_fresh by done. split; intros (c & Hc & H); exists c; tauto. }
  destruct (Z.eqb_spec serverID 0) as [Hz|Hz].
  { rewrite has_cap_own by done. unfold principal_has.
    split; intros (c & Hc & H); exists c; tauto. }
  simpl. destruct (match res_server res with Some s => _ | None => _ end) as [srv|] eqn:Es.
  - apply principal_on_server; try done. apply Hrow.
    destruct (res_server res) as [s'|]; [|done].
    by destruct (srv_ID s' =? serverID); simplify_eq.
  - assert (Hno : (forall srv, GetServerByID serverID <> (Some srv, None)) ->
      has_cap (setPanelLoad res (UserID id)) capID = true <->
      principal_has r res id serverID capID).
    { intros Hno. rewrite has_cap_panel_only by done. unfold principal_has.
      split; intros (c & Hc & H); exists c; (split; [done|]); [tauto|].
      destruct H as [H|[H|[_ [H|[[_ H]|[_ (s & Hs & H)]]]]]]; [tauto..|by destruct (Hno s)]. }
    destruct (GetServerByID serverID) as [[srv|] [e|]] eqn:Eg; try by apply Hno.
    by apply (principal_on_server r (set_server (Some srv) res)).
Qed.
End Refinement.
