(* ===== verification/GrantTables.v ===== *)
(** * The grant queries of the store

    [core/store/authz_grants.go] over the tables [server_invites],
    [server_roles], [panel_roles] and [users]: each query is its [WHERE] clause
    over the rows of a table, in row order, with the scan that follows it. The
    instance at the end gives the resolver its [Store], and [CoherentGrants]
    is the promise the list form of the resolver relies on. *)

From S2P Require Import Prelude Catalog Resolver.
Open Scope string_scope. Open Scope list_scope. Open Scope Z_scope.

(** ** Rows (a column that may be NULL is an option) *)

Record invite_row := mkInvite {
  i_server_id : option Z;
  i_user_id : string;
  i_owner_user_id : option string;
  i_server_role_id : option Z;
  i_cap_overrides : CapOverrides;
  i_inherit : bool }.

Record user_row := mkUser {
  u_id : string;
  u_panel_role_id : option Z;
  u_panel_cap_overrides : option CapOverrides }.

Record tables := mkTables {
  t_invites : list invite_row;
  t_server_roles : list ServerRole;
  t_panel_roles : list PanelRole;
  t_users : list user_row }.

Definition no_overrides : CapOverrides := mkOverrides [] [].

(** [QueryRow(..).Scan(..)]: the first row, or [sql.ErrNoRows]. *)
Definition query_row {A B} (scan : A -> B) (where_ : A -> bool) (rows : list A) : ptr_err B :=
  match List.find where_ rows with
  | Some r => (Some (scan r), None)
  | None => (None, Some ErrNoRows)
  end.

(** ** Queries *)

Definition table_GetPanelRole (t : tables) (id : Z) : ptr_err PanelRole :=
  query_row (fun r => r) (fun r => pr_ID r =? id) (t_panel_roles t).

Definition table_GetServerRole (t : tables) (id : Z) : ptr_err ServerRole :=
  query_row (fun r => r) (fun r => sr_ID r =? id) (t_server_roles t).

Definition table_GetUserPanelAuthz (t : tables) (userID : string)
    : option Z * CapOverrides * option go_error :=
  match List.find (fun u => (u_id u =? userID)%string) (t_users t) with
  | None => (None, no_overrides, Some ErrNoRows)
  | Some u => (u_panel_role_id u, default no_overrides (u_panel_cap_overrides u), None)
  end.

Record PanelAssignment := mkPanelAssignment {
  pa_UserID : string; pa_PanelRoleID : option Z; pa_CapOverrides : CapOverrides }.

(** The rows come ordered by id; the table is kept in that order. *)
Definition ListUserPanelAssignments (t : tables) : list PanelAssignment :=
  foldl (fun out u =>
    let a := mkPanelAssignment (u_id u) (u_panel_role_id u)
               (default no_overrides (u_panel_cap_overrides u)) in
    match pa_PanelRoleID a, ov_Grant (pa_CapOverrides a), ov_Deny (pa_CapOverrides a) with
    | None, [], [] => out
    | _, _, _ => out ++ [a]
    end) []
    (List.filter (fun u => bool_decide (is_Some (u_panel_role_id u)) ||
                           bool_decide (is_Some (u_panel_cap_overrides u))) (t_users t)).

(** [scanGrant]: a NULL owner reads as the empty string, the role stays unread. *)
Definition scanGrant (r : invite_row) : ServerGrant :=
  mkServerGrant (i_server_id r) (i_user_id r) (default "" (i_owner_user_id r))
    (i_server_role_id r) (i_cap_overrides r) (i_inherit r) None.

Definition sql_eq_id (col : option Z) (v : Z) : bool :=
  match col with Some x => x =? v | None => false end.
Definition sql_eq_str (col : option string) (v : string) : bool :=
  match col with Some x => (x =? v)%string | None => false end.
Definition sql_is_null {A} (col : option A) : bool :=
  match col with Some _ => false | None => true end.

Definition table_GetServerGrant (t : tables) (serverID : Z) (userID : string)
    : ptr_err ServerGrant :=
  query_row scanGrant (fun r => sql_eq_id (i_server_id r) serverID && (i_user_id r =? userID)%string)
    (t_invites t).

Definition table_GetAccountGrant (t : tables) (ownerUserID userID : string)
    : ptr_err ServerGrant :=
  query_row scanGrant
    (fun r => sql_is_null (i_server_id r) && sql_eq_str (i_owner_user_id r) ownerUserID &&
              (i_user_id r =? userID)%string)
    (t_invites t).

(** One row of [grantWithRoleCols]: the invite with its role joined. *)
Definition join_role (t : tables) (r : invite_row) : ServerGrant :=
  mkServerGrant (i_server_id r) (i_user_id r) (default "" (i_owner_user_id r))
    (i_server_role_id r) (i_cap_overrides r) (i_inherit r)
    (match i_server_role_id r with
     | Some rid => List.find (fun sr => sr_ID sr =? rid) (t_server_roles t)
     | None => None
     end).

Definition scanGrantsWithRole (t : tables) (where_ : invite_row -> bool) : list ServerGrant :=
  join_role t <$> List.filter where_ (t_invites t).

Definition table_GetServerAndAccountGrants (t : tables) (serverID : Z) (ownerUserID userID : string)
    : option ServerGrant * option ServerGrant * option go_error :=
  let grants := scanGrantsWithRole t (fun r =>
    (i_user_id r =? userID)%string &&
    (sql_eq_id (i_server_id r) serverID ||
     (sql_is_null (i_server_id r) && sql_eq_str (i_owner_user_id r) ownerUserID))) in
  (foldl (fun '(direct, account) g =>
            match g_ServerID g with
            | Some _ => (Some g, account)
            | None => (direct, Some g)
            end) (None, None) grants, None).

Definition table_ListGrantsForUser (t : tables) (userID : string)
    : list ServerGrant * option go_error :=
  (scanGrantsWithRole t (fun r => (i_user_id r =? userID)%string), None).

(** The [Store] of the tables. How a server row is read is left open: it is a
    query over a dozen joined tables. *)
Definition table_store (t : tables) (server_by_id : Z -> ptr_err Server)
    (server_by_uuid : string -> ptr_err Server) : Store := {|
  GetServerByID := server_by_id;
  GetServerByUUID := server_by_uuid;
  GetPanelRole := table_GetPanelRole t;
  GetServerRole := table_GetServerRole t;
  GetUserPanelAuthz := table_GetUserPanelAuthz t;
  GetServerGrant := table_GetServerGrant t;
  GetAccountGrant := table_GetAccountGrant t;
  GetServerAndAccountGrants := Some (table_GetServerAndAccountGrants t);
  ListGrantsForUser := Some (table_ListGrantsForUser t) |}.

(** ** The promise the list form of the resolver needs *)

(** Two readings of one grant, with or without the role joined. *)
Definition grant_equiv `{st : Store} (g1 g2 : ServerGrant) : Prop :=
  g_OwnerUserID g1 = g_OwnerUserID g2 /\ g_Inherit g1 = g_Inherit g2 /\
  forall o, grant_caps g1 o = grant_caps g2 o.

#[export] Instance grant_equiv_equivalence `{st : Store} : Equivalence grant_equiv.
Proof.
  split; [by intros ?|intros ?? (? & ? & ?); by split_and!|].
  intros x y z (H1 & H2 & H3) (H4 & H5 & H6). split_and!; [congruence..|].
  intros o. by rewrite H3.
Qed.

(** Reading a user's grants as one list gives what reading them one by one
    gives. *)
Class CoherentGrants (st : Store) : Prop := {
  cg_pair : forall list_grants uid grants sid owner,
    ListGrantsForUser = Some list_grants -> list_grants uid = (grants, None) -> owner <> "" ->
    option_Forall2 grant_equiv (gr_pair (storeGrantReads uid) sid owner).1
      ((index_grants grants).1 !! sid) /\
    option_Forall2 grant_equiv (gr_pair (storeGrantReads uid) sid owner).2
      ((index_grants grants).2 !! owner);
  cg_direct : forall list_grants uid grants sid,
    ListGrantsForUser = Some list_grants -> list_grants uid = (grants, None) ->
    option_Forall2 grant_equiv (ok_ptr (GetServerGrant sid uid)) ((index_grants grants).1 !! sid)
}.

(** The two uniqueness rules of [server_invites], and that owners are real ids. *)
Record tables_wf (t : tables) : Prop := {
  wf_direct : forall x y sid, x ∈ t_invites t -> y ∈ t_invites t -> i_user_id x = i_user_id y ->
    i_server_id x = Some sid -> i_server_id y = Some sid -> x = y;
  wf_account : forall x y o, x ∈ t_invites t -> y ∈ t_invites t -> i_user_id x = i_user_id y ->
    i_server_id x = None -> i_server_id y = None ->
    i_owner_user_id x = Some o -> i_owner_user_id y = Some o -> x = y;
  wf_owner : forall x, x ∈ t_invites t -> i_owner_user_id x <> Some "" }.

(** ** Lemmas: the three ways of reading a grant agree *)

Lemma index_grants_lookup grants :
  (forall sid, (index_grants grants).1 !! sid =
     last_such (fun g => sql_eq_id (g_ServerID g) sid) grants) /\
  (forall o, (index_grants grants).2 !! o =
     last_such (fun g => sql_is_null (g_ServerID g) && (g_OwnerUserID g =? o)%string) grants).
Proof.
  induction grants as [|g l [IH1 IH2]] using rev_ind; [done|].
  unfold index_grants in *. rewrite foldl_snoc.
  destruct (foldl _ _ l) as [d a]. simpl in *.
  split; intros k; rewrite last_such_snoc; destruct (g_ServerID g) as [sid|]; simpl; auto.
  - rewrite lookup_insert. destruct (Z.eqb_spec sid k); case_decide; [done..|auto].
  - rewrite lookup_insert. destruct (String.eqb_spec (g_OwnerUserID g) k); case_decide; [done..|auto].
Qed.

Lemma pair_fold grants :
  foldl (fun '(direct, account) g =>
           match g_ServerID g with
           | Some _ => (Some g, account)
           | None => (direct, Some g)
           end) (None, None) grants =
  (last_such (fun g => negb (sql_is_null (g_ServerID g))) grants,
   last_such (fun g => sql_is_null (g_ServerID g)) grants).
Proof.
  induction grants as [|g l IH] using rev_ind; [done|].
  rewrite foldl_snoc, IH, !last_such_snoc. by destruct (g_ServerID g).
Qed.

Section TableStore.
Context (t : tables) (by_id : Z -> ptr_err Server) (by_uuid : string -> ptr_err Server).
Context (Hwf : tables_wf t).

Let is_direct (uid : string) (sid : Z) (r : invite_row) : bool :=
  (i_user_id r =? uid)%string && sql_eq_id (i_server_id r) sid.
Let is_account (uid owner : string) (r : invite_row) : bool :=
  (i_user_id r =? uid)%string && (sql_is_null (i_server_id r) && sql_eq_str (i_owner_user_id r) owner).

(** A scan for the last row of a kind finds the only row of that kind. *)
Lemma last_row_find (w p : invite_row -> bool) (q : ServerGrant -> bool) (u : invite_row -> bool) :
  (forall r, q (join_role t r) = p r) ->
  (forall r, r ∈ t_invites t -> w r && p r = u r) ->
  (forall x y, x ∈ t_invites t -> y ∈ t_invites t -> u x = true -> u y = true -> x = y) ->
  last_such q (scanGrantsWithRole t w) = join_role t <$> List.find u (t_invites t).
Proof.
  intros Hq Hu Huniq. unfold scanGrantsWithRole. rewrite last_such_fmap. f_equal.
  rewrite last_such_unique.
  - rewrite find_filter. clear Huniq. induction (t_invites t) as [|r l IH]; simpl; [done|].
    rewrite Hq, Hu by set_solver. destruct (u r); [done|]. apply IH. intros. apply Hu. set_solver.
  - intros x y Hx Hy Px Py. rewrite list_elem_of_In, List.filter_In, <- list_elem_of_In in Hx, Hy.
    destruct Hx as [Hx Wx], Hy as [Hy Wy].
    apply Huniq; [done..| |]; rewrite <- Hu by done; by rewrite ?Wx, ?Wy, <- Hq.
Qed.

Lemma is_direct_unique uid sid x y :
  x ∈ t_invites t -> y ∈ t_invites t ->
  is_direct uid sid x = true -> is_direct uid sid y = true -> x = y.
Proof.
  unfold is_direct, sql_eq_id. intros Hx Hy Ex Ey. to_prop.
  destruct (i_server_id x) eqn:?; [|done]. destruct (i_server_id y) eqn:?; [|done]. to_prop.
  simplify_eq. eapply (wf_direct _ Hwf); eauto; congruence.
Qed.

Lemma is_account_unique uid o x y :
  x ∈ t_invites t -> y ∈ t_invites t ->
  is_account uid o x = true -> is_account uid o y = true -> x = y.
Proof.
  unfold is_account, sql_eq_str, sql_is_null. intros Hx Hy Ex Ey. to_prop.
  destruct (i_server_id x) eqn:?; [done|]. destruct (i_server_id y) eqn:?; [done|].
  destruct (i_owner_user_id x) eqn:?; [|done]. destruct (i_owner_user_id y) eqn:?; [|done]. to_prop.
  simplify_eq. eapply (wf_account _ Hwf); eauto; congruence.
Qed.

Lemma list_direct uid sid :
  (index_grants (table_ListGrantsForUser t uid).1).1 !! sid =
  join_role t <$> List.find (is_direct uid sid) (t_invites t).
Proof.
  rewrite (proj1 (index_grants_lookup _)). simpl.
  by apply (last_row_find _ (fun r => sql_eq_id (i_server_id r) sid));
    [| |apply is_direct_unique].
Qed.

Lemma list_account uid o :
  o <> "" ->
  (index_grants (table_ListGrantsForUser t uid).1).2 !! o =
  join_role t <$> List.find (is_account uid o) (t_invites t).
Proof.
  intros Ho. rewrite (proj2 (index_grants_lookup _)). simpl.
  apply (last_row_find _ (fun r => sql_is_null (i_server_id r) &&
      (default "" (i_owner_user_id r) =? o)%string)); [done| |apply is_account_unique].
  intros r Hr. unfold is_account, sql_eq_str. destruct (i_owner_user_id r); simpl; [done|].
  destruct o; [congruence|done].
Qed.

Lemma pair_rows uid sid o :
  table_GetServerAndAccountGrants t sid o uid =
  (join_role t <$> List.find (is_direct uid sid) (t_invites t),
   join_role t <$> List.find (is_account uid o) (t_invites t), None).
Proof.
  unfold table_GetServerAndAccountGrants. rewrite pair_fold. f_equal. f_equal.
  - apply (last_row_find _ (fun r => negb (sql_is_null (i_server_id r)))); [done| |apply is_direct_unique].
    intros r _. unfold is_direct, sql_eq_id, sql_is_null.
    destruct (i_server_id r); simpl; by rewrite ?orb_false_r, ?andb_true_r, ?andb_false_r.
  - apply (last_row_find _ (fun r => sql_is_null (i_server_id r))); [done| |apply is_account_unique].
    intros r _. unfold is_account, sql_eq_id, sql_is_null.
    destruct (i_server_id r); simpl; by rewrite ?andb_false_r, ?andb_true_r.
Qed.

Lemma scan_join_equiv r :
  @grant_equiv (table_store t by_id by_uuid) (scanGrant r) (join_role t r).
Proof.
  split_and!; [done..|]. intros o. unfold grant_caps, scanGrant, join_role. simpl.
  destruct (i_server_role_id r) as [rid|]; [|done]. unfold table_GetServerRole, query_row.
  by destruct (List.find _ _).
Qed.

Lemma pair_reads uid sid o :
  gr_pair (@storeGrantReads (table_store t by_id by_uuid) uid) sid o =
  (join_role t <$> List.find (is_direct uid sid) (t_invites t),
   join_role t <$> List.find (is_account uid o) (t_invites t)).
Proof.
  change (gr_pair _ sid o) with
    (let '(d, a, _) := table_GetServerAndAccountGrants t sid o uid in (d, a)).
  by rewrite pair_rows.
Qed.

#[export] Instance table_store_coherent : CoherentGrants (table_store t by_id by_uuid).
Proof.
  split.
  - intros lg uid grants sid owner [= <-] [= <-] Ho.
    pose proof (list_direct uid sid) as Hd. pose proof (list_account uid owner Ho) as Ha.
    simpl in Hd, Ha. rewrite pair_reads, Hd, Ha. split; apply option_Forall2_refl; apply _.
  - intros lg uid grants sid [= <-] [= <-]. pose proof (list_direct uid sid) as Hd.
    simpl in Hd |- *. rewrite Hd. unfold table_GetServerGrant, query_row.
    rewrite (find_ext _ (is_direct uid sid)) by (intros r; apply andb_comm).
    destruct (List.find (is_direct uid sid) (t_invites t)); constructor. apply scan_join_equiv.
Qed.
End TableStore.
