(* ===== verification/Authz.v ===== *)
(** * Authorization: the properties of the resolver

    What [core/authz] promises its callers, proved of [Resolver] against any
    [Store], and of the list form against any store with coherent grants; the
    tables of [GrantTables] are the store the witnesses run on. *)

From S2P Require Import Prelude Catalog Resolver GrantTables.
Open Scope string_scope. Open Scope list_scope. Open Scope Z_scope.

(** ** Lemmas: the specification and the resolver agree *)

Section Agree.
Context `{st : Store}.

Lemma Granted_principal r id serverID capID :
  Granted r id serverID capID <->
  (IsAdmin id = true /\ admin_everywhere r id serverID /\ is_Some (Get capID)) \/
  exists c, Get capID = Some c /\
    ((IsAdmin id = true /\ cap_scope c = ScopePanel) \/
     (UserID id <> "" /\
      ((cap_scope c = ScopePanel /\ capID ∈ panel_caps (UserID id)) \/
       (cap_scope c <> ScopePanel /\ serverID = 0) \/
       (serverID <> 0 /\ exists srv, GetServerByID serverID = (Some srv, None) /\
         server_reach r id srv c capID)))).
Proof.
  unfold server_reach. split.
  - destruct 1 as [c|c|c|c|c srv|c srv demo ??????? Hd Hdd|c srv g]; [left; eauto|right..];
      exists c; (split; [done|]); [by left|right; split; [done|]..]; [by left|by right; left|..];
      right; right; (split; [done|]); exists srv; (split; [done|]).
    + by left.
    + right; left. unfold demo_on. by rewrite Hd.
    + right; right. eauto.
  - intros [(Ha & Hw & [c Hc])|(c & Hc & [[Ha Hs]|[Hu [[Hs Hp]|[[Hs Hz]|(Hz & srv & Hsrv & H)]]]])].
    + by eapply granted_admin.
    + by eapply granted_admin_panel.
    + by eapply granted_panel.
    + by eapply granted_own_realm.
    + destruct H as [[Hs Ho]|[(Hs & Hv & Hd & Hon)|(Hs & Ho & g & Hg & Hin)]].
      * by eapply granted_owner.
      * unfold demo_on in Hon. destruct (demoRead r) eqn:?; [|done]. by eapply granted_demo.
      * by eapply granted_grant.
Qed.

(** An administrator outside the short-circuit goes through the same
    principal path with the PANEL bit set. *)
Lemma resolve_admin_cases r id serverID :
  IsAdmin id = true ->
  (admin_everywhere r id serverID /\ res_admin (Resolve r id serverID).1 = true) \/
  (~ admin_everywhere r id serverID /\
   exists res, fresh res /\ row_ok res serverID /\ res_admin res = false /\
     res_adminPanel res = true /\ (Resolve r id serverID).1 = resolve_principal r res id serverID).
Proof.
  intros Ha. unfold Resolve, admin_everywhere. rewrite Ha.
  destruct (foreignNode r) as [foreign|] eqn:Hf; [|left; auto].
  destruct (Z.eqb_spec serverID 0) as [Hz|Hz]; [left; auto|].
  destruct (GetServerByID serverID) as [srv serr] eqn:Hs.
  case_bool_decide as He; [left; subst; simpl; auto|]. simpl.
  assert (Hno : forall e srv', serr = e -> srv = srv' -> (e <> None \/ srv' = None \/
      exists s, srv' = Some s /\ foreign s (UserID id) = true) ->
    ~ (serverID = 0 \/ Some foreign = None \/ e = Some ErrNoRows \/
       exists f s, Some foreign = Some f /\ (srv', e) = (Some s, None) /\ f s (UserID id) = false)).
  { intros e srv' <- <- H. intros [?|[?|[?|(f & s & [= <-] & [= -> ->] & Hn)]]]; [done..|].
    destruct H as [?|[?|(s' & [= <-] & ?)]]; congruence. }
  destruct serr as [e|]; [|destruct srv as [s|]; [destruct (foreign s (UserID id)) eqn:Hfo|]]; simpl.
  - right. split; [eapply Hno; by auto|].
    exists (set_admin false true emptyResolution). by split_and!.
  - right. split; [eapply Hno; eauto 10|].
    exists (set_admin false true (set_server (Some s) emptyResolution)).
    split_and!; try done. intros s' [= <-]. by rewrite Hs.
  - left. split; [|done]. do 3 right. eauto.
  - right. split; [eapply Hno; by auto|].
    exists (set_admin false true (set_server None emptyResolution)). by split_and!.
Qed.

Lemma Resolve_agrees r id serverID capID :
  has_cap (Resolve r id serverID).1 capID = true <-> Granted r id serverID capID.
Proof.
  rewrite Granted_principal. destruct (IsAdmin id) eqn:Ha.
  - destruct (resolve_admin_cases r id serverID Ha)
      as [[Hw Hadm]|[Hw (res & Hf & Hrow & Hadm & Hap & ->)]].
    + rewrite has_cap_true, Hadm. split.
      * intros (c & Hc & _). left. eauto.
      * intros [(_ & _ & [c Hc])|(c & Hc & _)]; eauto.
    + rewrite resolve_principal_has by done. unfold principal_has. rewrite Hadm, Hap. split.
      * intros (c & Hc & [H|[[_ H]|H]]); [done|right; exists c; auto..].
      * intros [(_ & H & _)|(c & Hc & [[_ H]|H])]; [done|exists c; auto..].
  - unfold Resolve. rewrite Ha. simpl.
    rewrite resolve_principal_has by done. unfold principal_has. simpl. split.
    + intros (c & Hc & [H|[[H _]|H]]); [done..|]. right. exists c. auto.
    + intros [(H & _)|(c & Hc & [[H _]|H])]; [done..|]. exists c. auto.
Qed.
End Agree.

(** ** Lemmas: the list form *)

Section Listed.
Context `{st : Store}.

Lemma apply_opt_equiv res g1 g2 o :
  option_Forall2 grant_equiv g1 g2 -> apply_opt res g1 o = apply_opt res g2 o.
Proof.
  destruct 1 as [x y (_ & _ & Hc)|]; simpl; [|done]. unfold applyGrant. by rewrite Hc.
Qed.

Lemma proxy_grant_equiv srv g1 g2 :
  (forall pid, srv_ProxyID srv = Some pid ->
     gr_server g1 pid = gr_server g2 pid /\
     option_Forall2 grant_equiv (gr_direct g1 pid) (gr_direct g2 pid)) ->
  option_Forall2 grant_equiv (proxy_grant srv g1) (proxy_grant srv g2).
Proof.
  intros H. unfold proxy_grant. destruct (srv_ProxyID srv) as [pid|]; [|constructor].
  destruct (H pid eq_refl) as [-> Hd]. destruct (gr_server g2 pid) as [psrv|]; [|constructor].
  destruct (_ =? _)%string; [|constructor].
  destruct Hd as [x y (Ho & Hi & Hc)|]; [|constructor].
  rewrite Ho, Hi. destruct (_ && _); constructor. by split_and!.
Qed.

(** The server half depends on its reads only up to [grant_equiv]. *)
Lemma resolveOnServer_equiv r res id srv g1 g2 :
  option_Forall2 grant_equiv (gr_pair g1 (srv_ID srv) (srv_OwnerID srv)).1
    (gr_pair g2 (srv_ID srv) (srv_OwnerID srv)).1 ->
  option_Forall2 grant_equiv (gr_pair g1 (srv_ID srv) (srv_OwnerID srv)).2
    (gr_pair g2 (srv_ID srv) (srv_OwnerID srv)).2 ->
  (forall pid, srv_ProxyID srv = Some pid ->
     gr_server g1 pid = gr_server g2 pid /\
     option_Forall2 grant_equiv (gr_direct g1 pid) (gr_direct g2 pid)) ->
  resolveOnServer r res id srv g1 = resolveOnServer r res id srv g2.
Proof.
  intros Hd Ha Hp%proxy_grant_equiv. unfold resolveOnServer.
  destruct (gr_pair g1 _ _) as [d1 a1], (gr_pair g2 _ _) as [d2 a2]. simpl in Hd, Ha.
  destruct (_ =? _)%string; [done|].
  set (res0 := match demoRead r with Some f => _ | None => res end).
  set (s1 := match _ with Some gt => Some gt | None => proxy_grant srv g1 end).
  set (s2 := match _ with Some gt => Some gt | None => proxy_grant srv g2 end).
  assert (Hs : option_Forall2 grant_equiv s1 s2).
  { unfold s1, s2. clear s1 s2. destruct Hd as [x y Hxy|]; [|done]. pose proof Hxy as (Ho & _).
    rewrite Ho. destruct (_ && _); [done|]. by constructor. }
  fold (apply_opt res0 s1 (srv_OwnerID srv)). fold (apply_opt res0 s2 (srv_OwnerID srv)).
  rewrite (apply_opt_equiv _ _ _ _ Hs). by apply (apply_opt_equiv _ _ _ _ Ha).
Qed.

(** A loop that stores one value per key. *)
Lemma foldl_insert_keys {V} (F : Server -> V) (G : Z -> V) (l : list Server) k v :
  (forall s, s ∈ l -> F s = G (srv_ID s)) ->
  foldl (fun out s => <[srv_ID s := F s]> out) (∅ : gmap Z V) l !! k = Some v <->
  (exists s, s ∈ l /\ srv_ID s = k) /\ v = G k.
Proof.
  induction l as [|s l IH] using rev_ind; intros HF.
  { simpl. rewrite lookup_empty. set_solver. }
  rewrite foldl_snoc, lookup_insert. case_decide as Hk.
  - rewrite HF by set_solver. set_solver.
  - rewrite IH by (intros; apply HF; set_solver). set_solver.
Qed.

(** The rows of a list query are the rows the store has. *)
Definition listed_ok (servers : list Server) : Prop :=
  Forall (fun s => srv_ID s <> 0 /\ srv_OwnerID s <> "" /\
                   GetServerByID (srv_ID s) = (Some s, None)) servers.

Lemma listed_lookup (servers : list Server) pid s :
  foldl (fun m s => <[srv_ID s := s]> m) (∅ : gmap Z Server) servers !! pid = Some s ->
  s ∈ servers /\ srv_ID s = pid.
Proof.
  induction servers as [|x l IH] using rev_ind; simpl; [by rewrite lookup_empty|].
  rewrite foldl_snoc, lookup_insert. case_decide; intros; simplify_eq; [set_solver|].
  destruct IH; set_solver.
Qed.

Lemma Resolve_no_error r id sid : (Resolve r id sid).2 = None.
Proof. unfold Resolve. repeat case_match; done. Qed.

Lemma Resolve_member r id s :
  IsAdmin id = false -> UserID id <> "" -> srv_ID s <> 0 ->
  GetServerByID (srv_ID s) = (Some s, None) ->
  (Resolve r id (srv_ID s)).1 =
  resolveOnServer r (set_server (Some s) (setPanelLoad emptyResolution (UserID id))) id s
    (storeGrantReads (UserID id)).
Proof.
  intros Ha Hu Hz Hs. unfold Resolve, resolve_principal. rewrite Ha. simpl.
  destruct (String.eqb_spec (UserID id) ""); [done|].
  destruct (Z.eqb_spec (srv_ID s) 0); [done|]. by rewrite Hs.
Qed.

Lemma ResolveListed_agrees `{!CoherentGrants st} r id servers k res :
  listed_ok servers ->
  (forall list_grants, ListGrantsForUser = Some list_grants ->
     (list_grants (UserID id)).2 = None) ->
  ResolveListed r id servers !! k = Some res <->
  (exists s, s ∈ servers /\ srv_ID s = k) /\ res = (Resolve r id k).1.
Proof.
  intros Hok Hread. unfold ResolveListed.
  destruct servers as [|s0 servers']; [rewrite lookup_empty; set_solver|].
  remember (s0 :: servers') as servers eqn:Hsv. clear Hsv.
  assert (Hone : foldl (fun out s => match Resolve r id (srv_ID s) with
                            | (res, None) => <[srv_ID s := res]> out
                            | (_, Some _) => out
                            end) (∅ : gmap Z Resolution) servers !! k = Some res <->
                 (exists s, s ∈ servers /\ srv_ID s = k) /\ res = (Resolve r id k).1).
  { rewrite <- (foldl_insert_keys (fun s => (Resolve r id (srv_ID s)).1)
      (fun k => (Resolve r id k).1)) by done.
    rewrite (foldl_ext_in _ (fun out s => <[srv_ID s := (Resolve r id (srv_ID s)).1]> out)); [done|].
    intros out s _.
    pose proof (Resolve_no_error r id (srv_ID s)) as He.
    by destruct (Resolve r id (srv_ID s)) as [x [e|]]. }
  destruct ListGrantsForUser as [lg|] eqn:Hlg; [|done].
  destruct (IsAdmin id) eqn:Ha; [done|]. destruct (String.eqb_spec (UserID id) "") as [|Hu]; [done|].
  simpl. specialize (Hread lg eq_refl). destruct (lg (UserID id)) as [grants e] eqn:Hg.
  simpl in Hread. subst e. destruct (index_grants grants) as [direct account] eqn:Hix.
  apply (foldl_insert_keys _ (fun k => (Resolve r id k).1)). intros s Hs.
  unfold listed_ok in Hok. rewrite Forall_forall in Hok.
  destruct (Hok s Hs) as (Hz & Ho & Hrow). rewrite (Resolve_member r id s) by done.
  symmetry. destruct (cg_pair lg (UserID id) grants (srv_ID s) (srv_OwnerID s) Hlg Hg Ho) as [Hp1 Hp2].
  rewrite Hix in Hp1, Hp2. apply resolveOnServer_equiv; [done..|].
  intros pid Hpid. split.
  - simpl. destruct (_ !! pid) as [ps|] eqn:Hps; [|done].
    apply listed_lookup in Hps as [Hin <-]. destruct (Hok ps Hin) as (_ & _ & Hrow').
    unfold ok_ptr. by rewrite Hrow'.
  - pose proof (cg_direct lg (UserID id) grants pid Hlg Hg) as Hd. by rewrite Hix in Hd.
Qed.
End Listed.

(** ** Lemmas: API keys *)

Lemma ResolveAPIKey_fold perms allowed res :
  let step := fun res capID =>
    match Get capID with
    | None => res
    | Some c =>
        if negb (ValidKeyCap capID) then res
        else match cap_scope c with
             | ScopeServer => if allowed : bool then add_serverCap capID res else res
             | ScopeOwner => add_ownerCap capID res
             | ScopePanel => res
             end
    end in
  same_frame (foldl step res perms) res /\
  (forall x, x ∈ res_serverCaps (foldl step res perms) <-> x ∈ res_serverCaps res \/
     (x ∈ perms /\ ValidKeyCap x = true /\ routed ScopeServer x /\ allowed = true)) /\
  (forall x, x ∈ res_ownerCaps (foldl step res perms) <-> x ∈ res_ownerCaps res \/
     (x ∈ perms /\ ValidKeyCap x = true /\ routed ScopeOwner x)).
Proof.
  intros step. revert res. induction perms as [|p perms IH]; intros res; simpl.
  { split; [reflexivity|]. split; set_solver. }
  destruct (IH (step res p)) as (Hf & Hs & Ho). clear IH.
  assert (Hstep : same_frame (step res p) res /\
    (forall x, x ∈ res_serverCaps (step res p) <-> x ∈ res_serverCaps res \/
       (x = p /\ ValidKeyCap x = true /\ routed ScopeServer x /\ allowed = true)) /\
    (forall x, x ∈ res_ownerCaps (step res p) <-> x ∈ res_ownerCaps res \/
       (x = p /\ ValidKeyCap x = true /\ routed ScopeOwner x))).
  { unfold step, routed, same_frame. destruct (Get p) as [c|] eqn:Hp;
      [destruct (ValidKeyCap p) eqn:Hv; [destruct (cap_scope c) eqn:Hsc; [|destruct allowed|]|]|];
      simpl; split_and!; try done; intros x; rewrite ?elem_of_union, ?elem_of_singleton;
      clear -Hp Hv Hsc || clear -Hp Hv || clear -Hp; naive_solver congruence. }
  destruct Hstep as (Hf' & Hs' & Ho').
  split; [by etransitivity|]. split; intros x; [rewrite Hs, Hs'|rewrite Ho, Ho'];
    rewrite elem_of_cons; clear; tauto.
Qed.

(** ** A concrete platform

    Two owners, a proxy and a backend of the first owner, a server of the
    second; the member holds a direct inheriting grant on the proxy through a
    role, and an account-wide grant with overrides only. *)
Module Sample.
Definition proxy : Server := mkServer 1 "alice_proxy" "alice" None None.
Definition backend : Server := mkServer 2 "alice_back" "alice" (Some 1) None.
Definition other : Server := mkServer 3 "bob_srv" "bob" None (Some "bob").

Definition by_id (id : Z) : ptr_err Server :=
if id =? 1 then (Some proxy, None)
else if id =? 2 then (Some backend, None)
else if id =? 3 then (Some other, None)
else (None, Some ErrNoRows).

Definition rows : tables := mkTables
[mkInvite (Some 1) "mem" (Some "alice") (Some 7) no_overrides true;
 mkInvite None "mem" (Some "bob") None (mkOverrides ["modpack.read"; "console.read"; "users.read"] ["console.read"]) false]
[mkServerRole 7 "alice" "friends" ["console.read"; "power.start"; "modpack.write"]]
[mkPanelRole 1 "support" ["tickets.read"; "users.read"] false]
[mkUser "mem" None None; mkUser "staff" (Some 1) (Some (mkOverrides ["nodes.read"] ["users.read"]))].

Definition store : Store := table_store rows by_id (fun _ => (None, Some ErrNoRows)).
#[export] Existing Instance store.

Definition resolver : Resolver :=
mkResolver None (Some (fun srv uid => bool_decide (is_Some (srv_NodeOwnerID srv)))).
Definition member : Identity := mkIdentity "mem" "member" false.
Definition admin : Identity := mkIdentity "root" "root" true.

Lemma rows_wf : tables_wf rows.
Proof.
split.
- intros x y sid Hx Hy. set_unfold in Hx. set_unfold in Hy.
  destruct Hx as [->|[->|[]]], Hy as [->|[->|[]]]; done.
- intros x y o Hx Hy. set_unfold in Hx. set_unfold in Hy.
  destruct Hx as [->|[->|[]]], Hy as [->|[->|[]]]; done.
- intros x Hx. set_unfold in Hx. by destruct Hx as [->|[->|[]]].
Qed.

#[export] Instance store_coherent : CoherentGrants store.
Proof. apply table_store_coherent, rows_wf. Qed.
End Sample.
Import Sample.

(** ** Properties *)

(** C3: the resolver implements its specification. For any store, any hooks,
    any identity and any server id, a capability check on the resolution that
    [Resolve] builds succeeds exactly when the rules of [Granted] grant the
    capability: admin short-circuit off other people's machines, panel role
    with overrides, own realm, server ownership, public demo reads, and the
    direct, proxy-inherited and account-wide grants of the server's realm. *)
Theorem Resolve_refines_Granted `{st : Store} r id serverID capID :
  (HasCap (Resolve r id serverID).1 capID).1 = true <-> Granted r id serverID capID.
Proof. apply Resolve_agrees. Qed.

(** C26: the list form equals the single form. Over the tables of the store,
    with the queries that read them, [ResolveListed] answers for exactly the
    listed servers, and for each of them with the resolution [Resolve] builds,
    capability for capability, although it reads the caller's grants once and
    joined with their roles where [Resolve] reads them server by server. The
    tables keep the two uniqueness rules of [server_invites] (one invite per
    user and server, one account-wide invite per user and owner, whose owner is
    not the empty string), every query is answered, and the rows handed in are
    the rows the store returns for their ids, with an id that is not 0 and an
    owner that is not empty. *)
Theorem ResolveListed_is_Resolve t by_id by_uuid r id servers :
  tables_wf t ->
  (forall s, s ∈ servers -> srv_ID s <> 0 /\ srv_OwnerID s <> "" /\
     by_id (srv_ID s) = (Some s, None)) ->
  let st := table_store t by_id by_uuid in
  forall k res, ResolveListed (st := st) r id servers !! k = Some res <->
    (exists s, s ∈ servers /\ srv_ID s = k) /\ res = (Resolve (st := st) r id k).1.
Proof.
  intros Hwf Hok st k res. pose proof (table_store_coherent t by_id by_uuid Hwf).
  apply ResolveListed_agrees; [by apply Forall_forall|]. by intros lg [= <-].
Qed.

Lemma ResolveListed_is_Resolve_witness :
  ResolveListed resolver member [proxy; backend; other] !! 2 = Some (Resolve resolver member 2).1 /\
  has_cap (Resolve resolver member 2).1 "power.start" = true /\
  has_cap (Resolve resolver member 3).1 "power.start" = false.
Proof.
  split; [|by vm_compute].
  apply (ResolveListed_is_Resolve rows by_id (fun _ => (None, Some ErrNoRows)) resolver member
    [proxy; backend; other]).
  - apply rows_wf.
  - intros s Hs. set_unfold in Hs. by destruct Hs as [->|[->|[->|[]]]].
  - split; [|done]. exists backend. set_solver.
Defined.

(** server grants never become platform power. For a principal that is not
    an administrator, a PANEL capability is granted only by the user's own
    panel role and overrides; no server, no owner realm, no invite and no demo
    flag adds one. *)
Lemma no_panel_escalation `{st : Store} r id serverID capID c :
  IsAdmin id = false -> Get capID = Some c -> cap_scope c = ScopePanel ->
  has_cap (Resolve r id serverID).1 capID = true ->
  UserID id <> "" /\ capID ∈ panel_caps (UserID id).
Proof.
  intros Ha Hc Hs. rewrite Resolve_agrees. destruct 1; simplify_eq; congruence || done.
Qed.

Lemma no_panel_escalation_witness :
  let staff := mkIdentity "staff" "staff" false in
  has_cap (Resolve resolver staff 1).1 "nodes.read" = true /\ "nodes.read" ∈ panel_caps "staff".
Proof.
  split; [by vm_compute|].
  refine (proj2 (no_panel_escalation resolver (mkIdentity "staff" "staff" false) 1 "nodes.read"
    (mkCapability "nodes.read" "View nodes" "Nodes" ScopePanel VerbRead) _ _ _ _)); by vm_compute.
Defined.

(** an operator is not the customers' superuser. On a server that runs on
    somebody else's machine an administrator holds a SERVER or OWNER
    capability only the way anybody else does: by owning the server, as a demo
    viewer, or by a grant that speaks for them. *)
Lemma admin_on_foreign_node `{st : Store} r id serverID srv foreign capID c :
  serverID <> 0 -> foreignNode r = Some foreign ->
  GetServerByID serverID = (Some srv, None) -> foreign srv (UserID id) = true ->
  Get capID = Some c -> cap_scope c <> ScopePanel ->
  has_cap (Resolve r id serverID).1 capID = true ->
  UserID id <> "" /\ server_reach r id srv c capID.
Proof.
  intros Hz Hf Hs Hfo Hc Hsc. rewrite Resolve_agrees, Granted_principal.
  intros [(_ & Hw & _)|(c' & Hc' & [[_ H]|[Hu [[H _]|[[_ H]|(_ & srv' & Hs' & H)]]]])];
    simplify_eq; try congruence.
  - destruct Hw as [?|[?|[H|(f & s & H1 & H2 & H3)]]]; [done|congruence| |congruence].
    by rewrite Hs in H.
  - rewrite Hs in Hs'. by simplify_eq.
Qed.

Lemma admin_on_foreign_node_witness :
  has_cap (Resolve resolver admin 3).1 "power.start" = false /\
  has_cap (Resolve resolver admin 1).1 "power.start" = true /\
  (let id := mkIdentity "mem" "member" true in
   UserID id <> "" /\ server_reach resolver id other
     (mkCapability "modpack.read" "View modpacks" "Modpacks" ScopeOwner VerbRead) "modpack.read").
Proof.
  split; [by vm_compute|]. split; [by vm_compute|].
  refine (admin_on_foreign_node resolver (mkIdentity "mem" "member" true) 3 other
    (fun srv uid => bool_decide (is_Some (srv_NodeOwnerID srv))) "modpack.read" _
    _ _ _ _ _ _ _); by vm_compute.
Defined.

(** access follows the realm. After a server changes hands, a row the
    previous owner left behind gives nothing: with a direct grant of another
    realm, no proxy, no account-wide grant of the new owner and no demo flag, a
    non-admin that does not own the server holds no SERVER or OWNER capability
    on it, whatever the old row and its role say. *)
Lemma stale_grant_gives_nothing `{st : Store} r id serverID srv g capID c :
  IsAdmin id = false -> serverID <> 0 -> GetServerByID serverID = (Some srv, None) ->
  srv_OwnerID srv <> UserID id -> srv_ProxyID srv = None -> demo_on r srv = false ->
  gr_pair (storeGrantReads (UserID id)) (srv_ID srv) (srv_OwnerID srv) = (Some g, None) ->
  g_OwnerUserID g <> "" -> g_OwnerUserID g <> srv_OwnerID srv ->
  Get capID = Some c -> cap_scope c <> ScopePanel ->
  has_cap (Resolve r id serverID).1 capID = false.
Proof.
  intros Ha Hz Hs Ho Hp Hd Hpair Hg1 Hg2 Hc Hsc.
  apply not_true_iff_false. rewrite Resolve_agrees, Granted_principal, Ha.
  intros [(? & _)|(c' & Hc' & [[? _]|[Hu [[? _]|[[_ ?]|(_ & srv' & Hs' & H)]]]])];
    simplify_eq; try congruence.
  rewrite Hs in Hs'. simplify_eq.
  destruct H as [[_ ?]|[(_ & _ & _ & ?)|(_ & _ & gt & Hsp & _)]]; try congruence.
  destruct Hsp as [gt Hgt Hr|gt pid psrv _ Hpid|gt Hgt]; rewrite ?Hpair in *; simplify_eq/=.
  destruct Hr; congruence.
Qed.

Lemma stale_grant_gives_nothing_witness :
  let moved := mkServer 1 "alice_proxy" "carol" None None in
  let st := table_store rows (fun _ => (Some moved, None)) (fun _ => (None, None)) in
  has_cap (@Resolve store resolver member 1).1 "power.start" = true /\
  has_cap (@Resolve st resolver member 1).1 "power.start" = false.
Proof.
  intros moved st. split; [by vm_compute|].
  refine (@stale_grant_gives_nothing st resolver member 1 moved
    (join_role rows (mkInvite (Some 1) "mem" (Some "alice") (Some 7) no_overrides true))
    "power.start" (mkCapability "power.start" "Start server" "Power" ScopeServer VerbStart)
    _ _ _ _ _ _ _ _ _ _ _); by vm_compute.
Defined.

(** an API key holds exactly what it was minted with, and nothing it may not
    hold. A check on a key's resolution succeeds exactly for a listed
    capability that keys may carry, and for a SERVER capability only when the
    key's scope covers the server; what keys may carry is never a PANEL
    capability and never one that manages keys, roles or members. *)
Lemma ResolveAPIKey_exact perms serverAllowed capID :
  (has_cap (ResolveAPIKey perms serverAllowed) capID = true <->
   capID ∈ perms /\ ValidKeyCap capID = true /\ (routed ScopeServer capID -> serverAllowed = true)) /\
  (ValidKeyCap capID = true ->
   ~ routed ScopePanel capID /\ forall p, p ∈ neverOnAKey -> String.prefix p capID = false).
Proof.
  split.
  - destruct (ResolveAPIKey_fold perms serverAllowed emptyResolution)
      as ((Ha & Hap & How & Hd & Hpc & Hpl & _) & Hs & Ho).
    fold (ResolveAPIKey perms serverAllowed) in *.
    rewrite has_cap_true. unfold eff_panelCaps. rewrite Ha, Hap, How, Hd, Hpc, Hpl.
    setoid_rewrite Hs. setoid_rewrite Ho. setoid_rewrite elem_of_empty. simpl. split.
    + intros (c & Hc & H). rewrite !(routed_iff _ _ Hc) in *. intuition congruence.
    + intros (Hin & Hv & Hal). pose proof (proj1 (ValidKeyCap_true _) Hv) as (c & Hc & Hsc & _).
      exists c. split; [done|]. rewrite !(routed_iff _ _ Hc) in *.
      destruct (cap_scope c); intuition congruence.
  - intros (c & Hc & Hsc & Hno)%ValidKeyCap_true. split; [|done]. by rewrite (routed_iff _ _ Hc).
Qed.

(** One check never disturbs another, and delegation never widens. The lazy
    read of the panel role leaves every later answer as it was; the subset of
    requested capabilities a delegate may hand on is, in order, the requested
    ones that are granted; and a server is listed exactly when some SERVER
    capability on it is granted. *)
Lemma delegation_bounded `{st : Store} r id serverID requested :
  let res := (Resolve r id serverID).1 in
  (forall c d, has_cap (HasCap res c).2 d = has_cap res d) /\
  sublist (CapSubset res requested).1 requested /\
  (forall c, c ∈ (CapSubset res requested).1 <-> c ∈ requested /\ Granted r id serverID c) /\
  ((HasAnyServerCap res).1 = true <->
     exists c, c ∈ ByScope ScopeServer /\ Granted r id serverID (ID c)).
Proof.
  intros res. split; [intros; apply HasCap_stable|]. rewrite CapSubset_filter. split; [|split].
  - induction requested as [|c l IH]; simpl; [constructor|].
    destruct (has_cap res c); by constructor.
  - intros c. rewrite list_elem_of_In, List.filter_In, <- list_elem_of_In. subst res.
    by rewrite Resolve_agrees.
  - unfold HasAnyServerCap. rewrite any_cap_spec. unfold res. by setoid_rewrite Resolve_agrees.
Qed.
