(* ===== verification/Middleware.v ===== *)
(** * The capability chokepoint and the owner's audit trail

    [RequireCap] (core/authz/middleware.go) decides every server-scoped
    request and, through the [auditedWriter] and the two request-scoped slots
    of core/authz/write_audit.go, records the actions that happened.
    The slots and writers are shared by pointer between the wrapper and the
    handler, so they live in a heap: a context or a writer holds an address,
    and a handler changes what the wrapper reads afterwards. *)

From S2P Require Import Prelude GoStrings Catalog Resolver Authz.
From Stdlib Require Import Ascii String.
Open Scope string_scope.
Open Scope list_scope.
Open Scope Z_scope.

(** ** Requests, writers and the world they act on *)

Definition addr := positive.

(** What reaches the connection's own [http.ResponseWriter]. *)
Inductive resp_event :=
| EvHeader (k v : string)
| EvStatus (code : Z)
| EvBody (b : string)
| EvFlush.

(** [auditedWriter]: [aw_status] and [aw_wrote] of the wrapper. *)
Record auditedWriter := mkAW { aw_status : Z; aw_wrote : bool }.

(** A response writer: the connection's own, or a wrapper around another. *)
Inductive writer := Base | Audited (p : addr) (inner : writer).

(** The authorized action a handler reports back. *)
Record writeSlot := mkWriteSlot { ws_serverID : Z; ws_capID : string }.

Record world := mkWorld {
  w_aws : gmap addr auditedWriter;
  w_slots : gmap addr bool;
  w_writes : gmap addr writeSlot;
  w_next : addr;
  w_resp : list resp_event;
  w_trail : list (Z * string * Z) }.

Definition set_aws (m : gmap addr auditedWriter) (W : world) : world :=
  mkWorld m (w_slots W) (w_writes W) (w_next W) (w_resp W) (w_trail W).
Definition set_slots (m : gmap addr bool) (W : world) : world :=
  mkWorld (w_aws W) m (w_writes W) (w_next W) (w_resp W) (w_trail W).
Definition set_writes (m : gmap addr writeSlot) (W : world) : world :=
  mkWorld (w_aws W) (w_slots W) m (w_next W) (w_resp W) (w_trail W).
Definition emit (e : resp_event) (W : world) : world :=
  mkWorld (w_aws W) (w_slots W) (w_writes W) (w_next W) (w_resp W ++ [e]) (w_trail W).
Definition record_write (sid : Z) (capID : string) (status : Z) (W : world) : world :=
  mkWorld (w_aws W) (w_slots W) (w_writes W) (w_next W) (w_resp W)
    (w_trail W ++ [(sid, capID, status)]).
Definition bump (W : world) : world :=
  mkWorld (w_aws W) (w_slots W) (w_writes W) (Pos.succ (w_next W)) (w_resp W) (w_trail W).

(** The values of a request's context the package reads and adds. *)
Record context := mkContext {
  ctx_vals : gmap string ctx_value;
  ctx_audit : option addr;
  ctx_write : option addr;
  ctx_server : option Server }.

Record request := mkRequest {
  req_method : string;
  req_vars : gmap string string;
  req_ctx : context }.

Definition WithContext (req : request) (c : context) : request :=
  mkRequest (req_method req) (req_vars req) c.

(** [mux.Vars(req)[k]]: a missing variable reads as the empty string. *)
Definition var (req : request) (k : string) : string := default "" (req_vars req !! k).

(** A handler reads the request, writes to the writer and changes the world. *)
Definition HandlerFunc := writer -> request -> world -> world.

(** ** Request memos (request_memo.go) *)

Definition withServer (c : context) (srv : option Server) : context :=
  match srv with
  | None => c
  | Some s => mkContext (ctx_vals c) (ctx_audit c) (ctx_write c) (Some s)
  end.

Definition ServerByID `{st : Store} (c : context) (id : Z) : ptr_err Server :=
  match ctx_server c with
  | Some srv => if srv_ID srv =? id then (Some srv, None) else GetServerByID id
  | None => GetServerByID id
  end.

(** ** The audit slots (write_audit.go) *)

Definition WithAuditSlot (c : context) (W : world) : context * world :=
  (mkContext (ctx_vals c) (Some (w_next W)) (ctx_write c) (ctx_server c),
   bump (set_slots (<[w_next W := false]> (w_slots W)) W)).

Definition MarkAudited (c : context) (W : world) : world :=
  match ctx_audit c with
  | Some p => set_slots (<[p := true]> (w_slots W)) W
  | None => W
  end.

Definition WasAudited (c : context) (W : world) : bool :=
  match ctx_audit c with
  | Some p => default false (w_slots W !! p)
  | None => false
  end.

Definition WithWriteSlot (c : context) (W : world) : context * world :=
  (mkContext (ctx_vals c) (ctx_audit c) (Some (w_next W)) (ctx_server c),
   bump (set_writes (<[w_next W := mkWriteSlot 0 ""]> (w_writes W)) W)).

Definition StashServerWrite (c : context) (serverID : Z) (capID : string) (W : world) : world :=
  match ctx_write c with
  | Some p => set_writes (<[p := mkWriteSlot serverID capID]> (w_writes W)) W
  | None => W
  end.

(** ** Writers *)

Definition newAuditedWriter (inner : writer) (W : world) : writer * world :=
  (Audited (w_next W) inner, bump (set_aws (<[w_next W := mkAW 0 false]> (w_aws W)) W)).

(** [if !w.wrote { w.status, w.wrote = code, true }] *)
Definition note_status (p : addr) (code : Z) (W : world) : world :=
  match w_aws W !! p with
  | Some a => if aw_wrote a then W else set_aws (<[p := mkAW code true]> (w_aws W)) W
  | None => W
  end.

Fixpoint WriteHeader (w : writer) (code : Z) (W : world) : world :=
  match w with
  | Base => emit (EvStatus code) W
  | Audited p inner => WriteHeader inner code (note_status p code W)
  end.

Fixpoint Write (w : writer) (b : string) (W : world) : world :=
  match w with
  | Base => emit (EvBody b) W
  | Audited p inner => Write inner b (note_status p 200 W)
  end.

Fixpoint Flush (w : writer) (W : world) : world :=
  match w with
  | Base => emit EvFlush W
  | Audited _ inner => Flush inner W
  end.

(** The header map is the connection's, through any number of wrappers. *)
Definition SetHeader (k v : string) (W : world) : world := emit (EvHeader k v) W.

Definition status_of (w : writer) (W : world) : Z :=
  match w with
  | Audited p _ => match w_aws W !! p with Some a => aw_status a | None => 0 end
  | Base => 0
  end.

(** ** The chokepoint (middleware.go) *)

Definition denyJSON (w : writer) (msg : string) (code : Z) (W : world) : world :=
  Write w ("{" +:+ dq +:+ "error" +:+ dq +:+ ":" +:+ dq +:+ msg +:+ dq +:+ "}")
    (WriteHeader w code (SetHeader "Content-Type" "application/json" W)).

Section Chokepoint.
Context `{st : Store}.
Variable r : Resolver.
(** Whether [SetServerWriteAudit] has installed a recorder. *)
Variable writeAudit : bool.

Definition serverIDFromRequest (req : request) : Z :=
  let by_uuid :=
    if negb (var req "uuid" =? "")%string then
      match GetServerByUUID (var req "uuid") with
      | (Some srv, None) => srv_ID srv
      | _ => 0
      end
    else 0 in
  if negb (var req "id" =? "")%string then
    match Atoi (var req "id") with
    | Some n => n
    | None => by_uuid
    end
  else by_uuid.

(** The last part of the wrapper: run the handler and record what it did. *)
Definition run_recorded (c : Capability) (serverID : Z) (capID : string) (next : HandlerFunc)
    (w : writer) (req : request) (W : world) : world :=
  if writeAudit && bool_decide (cap_scope c = ScopeServer) &&
     negb (bool_decide (cap_verb c = VerbRead)) &&
     negb (req_method req =? "GET")%string && negb (req_method req =? "HEAD")%string
  then
    let '(aw, W) := newAuditedWriter w W in
    let '(ctx, W) := WithAuditSlot (req_ctx req) W in
    let req := WithContext req ctx in
    let W := next aw req W in
    if (200 <=? status_of aw W) && (status_of aw W <? 300) && negb (WasAudited (req_ctx req) W)
    then record_write serverID capID (status_of aw W) W
    else W
  else next w req W.

Definition RequireCap (capID : string) (next : HandlerFunc) : HandlerFunc := fun w req W =>
  match Get capID with
  | None => denyJSON w "unknown capability" 500 W
  | Some c =>
      let id := IdentityFromContext (ctx_vals (req_ctx req)) in
      if negb (IsAdmin id) && (UserID id =? "")%string then denyJSON w "Unauthorized" 401 W
      else
        let serverID := if bool_decide (cap_scope c = ScopeServer)
                        then serverIDFromRequest req else 0 in
        if bool_decide (cap_scope c = ScopeServer) && (serverID =? 0)
        then denyJSON w "Forbidden" 403 W
        else
          let '(res, err) := Resolve r id serverID in
          match err with
          | Some _ => denyJSON w "Forbidden" 403 W
          | None =>
              if negb (HasCap res capID).1 then denyJSON w "Forbidden" 403 W
              else
                let req := if bool_decide (cap_scope c = ScopeServer)
                           then WithContext req (withServer (req_ctx req) (res_server res))
                           else req in
                run_recorded c serverID capID next w req W
          end
  end.

(** [AuditResolvedWrite]: the recorder for routes that check in the handler. *)
Definition AuditResolvedWrite (next : HandlerFunc) : HandlerFunc := fun w req W =>
  if negb writeAudit then next w req W
  else
    let '(ctx, W) := WithAuditSlot (req_ctx req) W in
    let '(ctx, W) := WithWriteSlot ctx W in
    let req := WithContext req ctx in
    let '(aw, W) := newAuditedWriter w W in
    let W := next aw req W in
    let slot := match ctx_write (req_ctx req) with
                | Some p => default (mkWriteSlot 0 "") (w_writes W !! p)
                | None => mkWriteSlot 0 ""
                end in
    if (ws_serverID slot =? 0) || (status_of aw W <? 200) || (300 <=? status_of aw W) ||
       WasAudited (req_ctx req) W
    then W
    else match Get (ws_capID slot) with
         | None => W
         | Some c =>
             if bool_decide (cap_verb c = VerbRead) then W
             else record_write (ws_serverID slot) (ws_capID slot) (status_of aw W) W
         end.
End Chokepoint.

(** ** Handlers as scripts

    What a handler does to the world, in order: headers, status, body, its
    own audit row and the authorization it reports. *)
Inductive action :=
| AHeader (k v : string)
| AStatus (code : Z)
| ABody (b : string)
| AFlush
| AMark
| AStash (serverID : Z) (capID : string).

Definition run_action (w : writer) (req : request) (W : world) (a : action) : world :=
  match a with
  | AHeader k v => SetHeader k v W
  | AStatus code => WriteHeader w code W
  | ABody b => Write w b W
  | AFlush => Flush w W
  | AMark => MarkAudited (req_ctx req) W
  | AStash sid c => StashServerWrite (req_ctx req) sid c W
  end.

(** The handler that plays the script its request selects. *)
Definition scripted (script : request -> list action) : HandlerFunc :=
  fun w req W => foldl (run_action w req) W (script req).

(** What the client of a script gets, and what the wrapper learns. *)
Definition event_of (a : action) : list resp_event :=
  match a with
  | AHeader k v => [EvHeader k v]
  | AStatus code => [EvStatus code]
  | ABody b => [EvBody b]
  | AFlush => [EvFlush]
  | AMark | AStash _ _ => []
  end.
Definition events (l : list action) : list resp_event := flat_map event_of l.

(** The status the first header or body write fixes; 0 when there is none. *)
Fixpoint first_status (l : list action) : Z :=
  match l with
  | [] => 0
  | AStatus code :: _ => code
  | ABody _ :: _ => 200
  | _ :: l => first_status l
  end.

Definition marks (l : list action) : bool :=
  existsb (fun a => match a with AMark => true | _ => false end) l.

Definition stash_of (s : writeSlot) (a : action) : writeSlot :=
  match a with AStash sid c => mkWriteSlot sid c | _ => s end.
Definition stashed (l : list action) : writeSlot := foldl stash_of (mkWriteSlot 0 "") l.

(** ** Lemmas: writers *)

Lemma note_status_frame p code W :
  w_resp (note_status p code W) = w_resp W /\ w_trail (note_status p code W) = w_trail W /\
  w_slots (note_status p code W) = w_slots W /\ w_writes (note_status p code W) = w_writes W.
Proof. unfold note_status. by repeat case_match. Qed.

Lemma note_status_kept p q code W s :
  w_aws W !! q = Some (mkAW s true) -> w_aws (note_status p code W) !! q = Some (mkAW s true).
Proof.
  intros H. unfold note_status. destruct (w_aws W !! p) as [a|] eqn:E; [|done].
  destruct (aw_wrote a) eqn:Ew; [done|]. simpl. apply lookup_insert_Some.
  destruct (decide (p = q)) as [->|]; [|by right]. rewrite H in E. by simplify_eq/=.
Qed.

(** Any write through any stack of wrappers: one event reaches the client,
    and a status that is fixed stays fixed. *)
Definition one_event (f : world -> world) (e : resp_event) : Prop := forall W,
  w_resp (f W) = w_resp W ++ [e] /\ w_trail (f W) = w_trail W /\
  w_slots (f W) = w_slots W /\ w_writes (f W) = w_writes W /\
  forall q s, w_aws W !! q = Some (mkAW s true) -> w_aws (f W) !! q = Some (mkAW s true).

Lemma WriteHeader_one w code : one_event (WriteHeader w code) (EvStatus code).
Proof.
  induction w as [|p inner IH]; intros W; simpl; [by split_and!|].
  destruct (IH (note_status p code W)) as (-> & -> & -> & -> & Hk).
  destruct (note_status_frame p code W) as (-> & -> & -> & ->).
  split_and!; auto using note_status_kept.
Qed.

Lemma Write_one w b : one_event (Write w b) (EvBody b).
Proof.
  induction w as [|p inner IH]; intros W; simpl; [by split_and!|].
  destruct (IH (note_status p 200 W)) as (-> & -> & -> & -> & Hk).
  destruct (note_status_frame p 200 W) as (-> & -> & -> & ->).
  split_and!; auto using note_status_kept.
Qed.

Lemma Flush_one w : one_event (Flush w) EvFlush /\ forall W, w_aws (Flush w W) = w_aws W.
Proof. induction w as [|p inner IH]; [split; [intros W; by split_and!|done]|exact IH]. Qed.

(** A status fixed by one action, or the one already fixed. *)
Definition act_status (a : auditedWriter) (x : action) : auditedWriter :=
  match x with
  | AStatus code => if aw_wrote a then a else mkAW code true
  | ABody _ => if aw_wrote a then a else mkAW 200 true
  | _ => a
  end.

Lemma note_status_fixes p W a code :
  w_aws W !! p = Some a ->
  exists s, w_aws (note_status p code W) !! p = Some (mkAW s true) /\
    mkAW s true = (if aw_wrote a then a else mkAW code true).
Proof.
  intros H. unfold note_status. rewrite H. destruct a as [s []]; simpl; [eauto|].
  exists code. by rewrite lookup_insert_eq.
Qed.

Lemma run_action_spec p inner req W x a :
  let w := Audited p inner in
  w_aws W !! p = Some a ->
  w_aws (run_action w req W x) !! p = Some (act_status a x).
Proof.
  intros w H. destruct x as [k v|code|b| | |sid c]; simpl; try done.
  - destruct (note_status_fixes p W a code H) as (s & Hs & <-).
    by apply WriteHeader_one.
  - destruct (note_status_fixes p W a 200 H) as (s & Hs & <-).
    by apply Write_one.
  - pose proof (proj2 (Flush_one inner) W) as ->. done.
  - unfold MarkAudited. by destruct (ctx_audit _).
  - unfold StashServerWrite. by destruct (ctx_write _).
Qed.

Lemma run_action_frame w req W x :
  w_resp (run_action w req W x) = w_resp W ++ event_of x /\
  w_trail (run_action w req W x) = w_trail W /\
  (forall q b, ctx_audit (req_ctx req) = Some q -> w_slots W !! q = Some b ->
     w_slots (run_action w req W x) !! q = Some (b || marks [x])) /\
  (forall q s, ctx_write (req_ctx req) = Some q -> w_writes W !! q = Some s ->
     w_writes (run_action w req W x) !! q = Some (stash_of s x)).
Proof.
  destruct x as [k v|code|b| | |sid c]; simpl; rewrite ?app_nil_r;
    [|pose proof (WriteHeader_one w code W) as H|pose proof (Write_one w b W) as H
     |pose proof (proj1 (Flush_one w) W) as H| |];
    try (destruct H as (-> & -> & -> & -> & _)).
  1-4: split_and!; try done; intros q b' _ ->; by rewrite orb_false_r.
  - unfold MarkAudited. split_and!; try by destruct (ctx_audit _).
    intros q b -> _. simpl. by rewrite lookup_insert_eq, orb_true_r.
  - unfold StashServerWrite. split_and!; try by destruct (ctx_write _).
    + intros q b Hq Hb. rewrite orb_false_r. by destruct (ctx_write _).
    + intros q s -> _. simpl. by rewrite lookup_insert_eq.
Qed.

(** ** Lemmas: a whole script *)

Lemma run_script_frame w req l W :
  let W' := foldl (run_action w req) W l in
  w_resp W' = w_resp W ++ events l /\ w_trail W' = w_trail W /\
  (forall q b, ctx_audit (req_ctx req) = Some q -> w_slots W !! q = Some b ->
     w_slots W' !! q = Some (b || marks l)) /\
  (forall q s, ctx_write (req_ctx req) = Some q -> w_writes W !! q = Some s ->
     w_writes W' !! q = Some (foldl stash_of s l)).
Proof.
  revert W. induction l as [|x l IH]; intros W; simpl.
  { rewrite app_nil_r. split_and!; try done. intros q b _ ->. by rewrite orb_false_r. }
  destruct (run_action_frame w req W x) as (H1 & H2 & H3 & H4).
  destruct (IH (run_action w req W x)) as (-> & -> & H5 & H6).
  rewrite H1, H2, <- app_assoc. split_and!; try done.
  - intros q b Hq Hb. rewrite (H5 q _ Hq (H3 q b Hq Hb)). simpl.
    by rewrite orb_false_r, orb_assoc.
  - intros q s Hq Hs. by rewrite (H6 q _ Hq (H4 q s Hq Hs)).
Qed.

Lemma run_script_status p inner req l W a :
  w_aws W !! p = Some a ->
  w_aws (foldl (run_action (Audited p inner) req) W l) !! p = Some (foldl act_status a l).
Proof.
  revert W a. induction l as [|x l IH]; intros W a H; simpl; [done|].
  by apply IH, run_action_spec.
Qed.

Lemma act_status_first l : aw_status (foldl act_status (mkAW 0 false) l) = first_status l.
Proof.
  assert (Hk : forall s l, foldl act_status (mkAW s true) l = mkAW s true).
  { intros s l'. by induction l' as [|[] l' IH]; simpl. }
  induction l as [|[] l IH]; simpl; rewrite ?Hk; done.
Qed.

(** What the recorder reads after the handler returned. *)
Lemma recorded_reads inner req l W (p q : addr) :
  ctx_audit (req_ctx req) = Some q ->
  w_aws W !! p = Some (mkAW 0 false) -> w_slots W !! q = Some false ->
  let W' := foldl (run_action (Audited p inner) req) W l in
  status_of (Audited p inner) W' = first_status l /\ WasAudited (req_ctx req) W' = marks l.
Proof.
  intros Hq Hp Hs W'. split.
  - simpl. unfold W'. by rewrite (run_script_status _ _ _ _ _ _ Hp), act_status_first.
  - unfold WasAudited, W'. rewrite Hq.
    destruct (run_script_frame (Audited p inner) req l W) as (_ & _ & H & _).
    by rewrite (H q false Hq Hs).
Qed.

(** ** Lemmas: the row a resolution carries *)
Section Rows.
Context `{st : Store}.

Lemma applyGrant_server_row res g o : res_server (applyGrant res g o) = res_server res.
Proof. by destruct (applyGrant_frame res g o) as (_ & _ & _ & _ & _ & _ & _ & ?). Qed.

Lemma resolveOnServer_row r res id srv g :
  res_server (resolveOnServer r res id srv g) = res_server res.
Proof.
  unfold resolveOnServer. repeat case_match; rewrite ?applyGrant_server_row; done.
Qed.

Lemma resolve_principal_row r res id sid :
  row_ok res sid -> row_ok (resolve_principal r res id sid) sid.
Proof.
  unfold resolve_principal, row_ok. intros H s.
  destruct (UserID id =? "")%string; [apply H|]. destruct (sid =? 0); [apply H|].
  case_match; [rewrite resolveOnServer_row; apply H|].
  destruct (GetServerByID sid) as [[srv|] [e|]] eqn:E; try apply H.
  rewrite resolveOnServer_row. simpl. by intros [= <-].
Qed.

(** The row carried for a server is the store's row of that server. *)
Lemma Resolve_row r id sid : row_ok (Resolve r id sid).1 sid.
Proof.
  unfold Resolve. destruct (IsAdmin id); [|by apply resolve_principal_row].
  destruct (foreignNode r); [|done]. destruct (sid =? 0); [done|].
  destruct (GetServerByID sid) as [srv serr] eqn:E.
  destruct (bool_decide _); [done|].
  assert (H : row_ok (match serr with
    | None => set_server srv (set_admin true false emptyResolution)
    | Some _ => set_admin true false emptyResolution end) sid).
  { intros s. destruct serr; simpl; [done|]. intros ->. done. }
  repeat case_match; simpl; try exact H; apply resolve_principal_row; exact H.
Qed.
End Rows.

(** ** Specification of the chokepoint *)

Definition identified (req : request) : Prop :=
  let id := IdentityFromContext (ctx_vals (req_ctx req)) in
  IsAdmin id = true \/ UserID id <> "".

(** The server a capability is asked on. *)
Definition target `{st : Store} (c : Capability) (req : request) : Z :=
  if bool_decide (cap_scope c = ScopeServer) then serverIDFromRequest req else 0.

Definition authorized `{st : Store} (r : Resolver) (c : Capability) (req : request) : Prop :=
  (cap_scope c = ScopeServer -> target c req <> 0) /\
  Granted r (IdentityFromContext (ctx_vals (req_ctx req))) (target c req) (ID c).

Definition refusal (msg : string) (code : Z) : list resp_event :=
  [EvHeader "Content-Type" "application/json"; EvStatus code;
   EvBody ("{" +:+ dq +:+ "error" +:+ dq +:+ ":" +:+ dq +:+ msg +:+ dq +:+ "}")%string].

(** The request the handler sees: same method, variables and identity, and
    the row memo answers for the authorized server as the store would. *)
Definition forwarded `{st : Store} (c : Capability) (req req' : request) : Prop :=
  req_method req' = req_method req /\ req_vars req' = req_vars req /\
  ctx_vals (req_ctx req') = ctx_vals (req_ctx req) /\
  (ctx_server (req_ctx req) = None ->
   ServerByID (req_ctx req') (target c req) = GetServerByID (target c req)).

(** What is worth a row: an action, not a read, that ended in success and
    that the handler has not described itself. *)
Definition auditable (c : Capability) (method : string) (l : list action) : bool :=
  bool_decide (cap_scope c = ScopeServer) && negb (bool_decide (cap_verb c = VerbRead)) &&
  negb (method =? "GET")%string && negb (method =? "HEAD")%string &&
  (200 <=? first_status l) && (first_status l <? 300) && negb (marks l).

Lemma denyJSON_spec w msg code W :
  w_resp (denyJSON w msg code W) = w_resp W ++ refusal msg code /\
  w_trail (denyJSON w msg code W) = w_trail W.
Proof.
  unfold denyJSON. set (W1 := SetHeader _ _ W).
  destruct (WriteHeader_one w code W1) as (H1 & H2 & _).
  pose proof (Write_one w ("{" +:+ dq +:+ "error" +:+ dq +:+ ":" +:+ dq +:+ msg +:+ dq +:+ "}")
    (WriteHeader w code W1)) as (-> & -> & _).
  rewrite H1, H2. unfold W1, refusal. simpl. by rewrite <- !app_assoc.
Qed.

Lemma run_recorded_spec wa c sid capID script w req W :
  let W' := run_recorded wa c sid capID (scripted script) w req W in
  exists req', req_method req' = req_method req /\ req_vars req' = req_vars req /\
    ctx_vals (req_ctx req') = ctx_vals (req_ctx req) /\
    ctx_server (req_ctx req') = ctx_server (req_ctx req) /\
    w_resp W' = w_resp W ++ events (script req') /\
    w_trail W' = w_trail W ++
      (if wa && auditable c (req_method req) (script req')
       then [(sid, capID, first_status (script req'))] else []).
Proof.
  unfold run_recorded, auditable.
  destruct (wa && bool_decide (cap_scope c = ScopeServer) && _ && _ && _) eqn:G; cycle 1.
  { exists req. split_and!; try done.
    - apply run_script_frame.
    - unfold scripted. rewrite (proj1 (proj2 (run_script_frame _ _ _ _))).
      rewrite !andb_assoc, G. by rewrite app_nil_r. }
  unfold newAuditedWriter, WithAuditSlot. cbv zeta.
  set (req' := WithContext req _). set (W1 := bump (set_slots _ _)).
  exists req'. rewrite !andb_assoc, G. unfold scripted. rewrite ?andb_true_l.
  destruct (recorded_reads w req' (script req') W1 (w_next W) (Pos.succ (w_next W)))
    as [-> ->]; [done|by apply lookup_insert_eq|by apply lookup_insert_eq|].
  destruct (run_script_frame (Audited (w_next W) w) req' (script req') W1)
    as (Hr & Ht & _ & _).
  split_and!; try done; destruct ((_ <=? _) && _ && _); simpl; rewrite ?Hr, ?Ht, ?app_nil_r; done.
Qed.

Lemma forwarded_memo `{st : Store} r c req :
  let id := IdentityFromContext (ctx_vals (req_ctx req)) in
  forwarded c req
    (if bool_decide (cap_scope c = ScopeServer)
     then WithContext req (withServer (req_ctx req) (res_server (Resolve r id (target c req)).1))
     else req).
Proof.
  intros id. unfold forwarded. split_and!.
  1-3: by case_bool_decide; [destruct (res_server _)|].
  intros Hn. pose proof (Resolve_row r id (target c req)) as Hrow. revert Hrow.
  case_bool_decide; unfold ServerByID; simpl; [|by rewrite Hn].
  destruct (res_server _) as [s|] eqn:Es; simpl; [|by rewrite Hn].
  intros Hrow. rewrite (Hrow s Es). by destruct (srv_ID s =? _).
Qed.

(** ** A concrete deployment

    The member may start the backend through the proxy's grant; the handler
    answers 204 without a row of its own. *)
Definition power_request (uid : string) : request :=
  mkRequest "POST" {["id" := "2"]}
    (mkContext {["userID" := CtxString uid]} None None None).
Definition no_world : world := mkWorld ∅ ∅ ∅ 1%positive [] [].

(** ** Properties *)

(** the chokepoint decides exactly. An unknown capability is answered
    500, a request without identity 401, and one that is not authorized, or
    that names no server for a SERVER capability, 403, with the handler never
    run and nothing recorded. An authorized request gets the handler's own
    response unchanged, with the authorized row in the memo, and one audit row
    is added exactly when a recorder is installed and the handler performed an
    SERVER action that is not a read by a writing method, ended 2xx and did not mark
    the request as audited. *)
Lemma RequireCap_exact `{st : Store} r wa capID script w req W :
  let W' := RequireCap r wa capID (scripted script) w req W in
  match Get capID with
  | None => w_resp W' = w_resp W ++ refusal "unknown capability" 500 /\ w_trail W' = w_trail W
  | Some c =>
      (~ identified req ->
         w_resp W' = w_resp W ++ refusal "Unauthorized" 401 /\ w_trail W' = w_trail W) /\
      (identified req -> ~ authorized r c req ->
         w_resp W' = w_resp W ++ refusal "Forbidden" 403 /\ w_trail W' = w_trail W) /\
      (identified req -> authorized r c req -> exists req', forwarded c req req' /\
         w_resp W' = w_resp W ++ events (script req') /\
         w_trail W' = w_trail W ++
           (if wa && auditable c (req_method req) (script req')
            then [(target c req, capID, first_status (script req'))] else []))
  end.
Proof.
  intros W'. unfold W', RequireCap. clear W'.
  destruct (Get capID) as [c|] eqn:Hc; [|apply denyJSON_spec].
  pose proof (Get_ID _ _ Hc) as HID. unfold identified, authorized. fold (target c req).
  set (id := IdentityFromContext _).
  destruct (IsAdmin id || negb (UserID id =? "")%string) eqn:Hid; cycle 1.
  { apply orb_false_iff in Hid as [-> Hu]. rewrite negb_false_iff in Hu. rewrite Hu.
    apply String.eqb_eq in Hu. split_and!; [intros _; apply denyJSON_spec|naive_solver..]. }
  replace (negb (IsAdmin id) && (UserID id =? "")%string) with false
    by (destruct (IsAdmin id), (UserID id =? "")%string; done).
  assert (Hi : IsAdmin id = true \/ UserID id <> "").
  { apply orb_true_iff in Hid as [|Hid]; [by left|right].
    by apply negb_true_iff, String.eqb_neq in Hid. }
  split; [done|]. rewrite HID, <- Resolve_agrees. unfold has_cap.
  destruct (bool_decide (cap_scope c = ScopeServer) && (target c req =? 0)) eqn:Hz.
  { clear Hid. to_prop. split; [intros; apply denyJSON_spec|naive_solver]. }
  assert (Hz' : cap_scope c = ScopeServer -> target c req <> 0).
  { intros Hs H0. rewrite H0, bool_decide_true in Hz by done. done. }
  pose proof (forwarded_memo r c req) as Hf. pose proof (Resolve_no_error r id (target c req)) as He.
  simpl in Hf. fold id in Hf. destruct (Resolve r id (target c req)) as [res err]. simpl in *.
  subst err. destruct (HasCap res capID).1; simpl; cycle 1.
  { split; [intros; apply denyJSON_spec|naive_solver]. }
  split; [naive_solver|]. intros _ _. revert Hf. set (req1 := if bool_decide _ then _ else _).
  intros (H1 & H2 & H3 & H4).
  destruct (run_recorded_spec wa c (target c req) capID script w req1 W)
    as (req' & E1 & E2 & E3 & E4 & Hr & Ht). exists req'. rewrite H1 in *. split_and!; try done.
  unfold forwarded, ServerByID in *. rewrite E4. split_and!; congruence || done.
Qed.

Import Sample.

Lemma RequireCap_exact_witness :
  let run uid := RequireCap resolver true "power.start" (scripted (fun _ => [AStatus 204]))
                   Base (power_request uid) no_world in
  w_trail (run "mem") = [(2, "power.start", 204)] /\ w_resp (run "mem") = [EvStatus 204] /\
  w_trail (run "stranger") = [] /\ w_resp (run "stranger") = refusal "Forbidden" 403 /\
  ~ authorized resolver (mkCapability "power.start" "Start server" "Power" ScopeServer VerbStart)
      (power_request "stranger").
Proof.
  split_and!; try by vm_compute. intros Ha.
  destruct (proj2 (proj2 (RequireCap_exact resolver true "power.start"
    (fun _ => [AStatus 204]) Base (power_request "stranger") no_world)))
    as (req' & _ & H & _); [right; done|done|]. by vm_compute in H.
Defined.

(** the handler-side recorder is exact too. With a recorder installed,
    a route under [AuditResolvedWrite] answers exactly as its handler does and
    gets one audit row, for the server and capability the handler stashed
    last, precisely when a server was stashed, the first status the handler
    fixed is 2xx, the handler did not mark the request, and the capability
    exists and is not a read. Without a recorder nothing is added. *)
Lemma AuditResolvedWrite_exact wa script w req W :
  let W' := AuditResolvedWrite wa (scripted script) w req W in
  exists req', ctx_vals (req_ctx req') = ctx_vals (req_ctx req) /\
    w_resp W' = w_resp W ++ events (script req') /\
    let l := script req' in
    w_trail W' = w_trail W ++
      (if wa && negb (ws_serverID (stashed l) =? 0) && (200 <=? first_status l) &&
          (first_status l <? 300) && negb (marks l) &&
          match Get (ws_capID (stashed l)) with
          | Some c => negb (bool_decide (cap_verb c = VerbRead))
          | None => false
          end
       then [(ws_serverID (stashed l), ws_capID (stashed l), first_status l)] else []).
Proof.
  unfold AuditResolvedWrite. destruct wa; simpl negb; cycle 1.
  { exists req. split_and!; [done|apply run_script_frame|]. unfold scripted.
    by rewrite (proj1 (proj2 (run_script_frame _ _ _ _))), app_nil_r. }
  unfold WithAuditSlot, WithWriteSlot, newAuditedWriter. cbv zeta iota beta.
  set (req' := WithContext req _). set (W1 := bump (set_aws _ _)).
  set (p := w_next (bump (set_writes _ _))) in *. exists req'. unfold scripted.
  destruct (recorded_reads w req' (script req') W1 p (w_next W))
    as [-> ->]; [done|by apply lookup_insert_eq|by apply lookup_insert_eq|].
  destruct (run_script_frame (Audited p w) req' (script req') W1) as (Hr & Ht & _ & Hw).
  change (ctx_write (req_ctx req')) with (Some (Pos.succ (w_next W))) in *. cbv iota beta.
  rewrite (Hw _ (mkWriteSlot 0 "") eq_refl) by by apply lookup_insert_eq.
  fold (stashed (script req')). change (default _ (Some ?x)) with x.
  generalize (stashed (script req')). intros s. cbv iota.
  rewrite andb_true_l, !Z.leb_antisym.
  destruct (ws_serverID s =? 0), (first_status (script req') <? 200),
    (first_status (script req') <? 300), (marks (script req')); simpl;
    try (rewrite Hr, Ht, app_nil_r; done).
  destruct (Get (ws_capID s)) as [c|]; [case_bool_decide|]; simpl;
    rewrite ?Hr, ?Ht, ?app_nil_r; done.
Qed.
