(* ===== verification/Queue.v ===== *)
(** * The at-least-once work queue (pkg/queue/queue.go)

    A [Consumer] reads a Redis stream through a consumer group, claims each
    entry for the process, hands it to a worker pool and acknowledges it only
    after its handler returned. The file has the consumer's own functions
    ([beginInflight], [dispatch], [process], [deadLetter], [ownPending], ...)
    with one transition per Redis call, so that a crash, a lost reply or
    another worker can come between any two of them. Redis is the
    environment: a stream and its dead stream, both with the approximate cap of
    their XADD, the group's pending list, and the marker and counter keys, with the documented effect of each command; every call may
    work, fail, or work with its reply lost. *)

From S2P Require Import Prelude.
From stdpp Require Import sorting.
Open Scope string_scope.
Open Scope list_scope.
Open Scope Z_scope.

(** ** The environment: one stream and its group *)

Definition DefaultMaxLen : nat := 10000.

(** The member a pending entry was delivered to: this consumer, or one that
    is gone (dead or renamed). *)
Inductive owner := Me | Other.
#[export] Instance owner_eq_dec : EqDecision owner.
Proof. solve_decision. Defined.

Record redis := mkRedis {
  r_next : Z;                       (* the id the next XADD gets *)
  r_stream : list (Z * string);     (* entries with their data field *)
  r_last : Z;                       (* last id the group delivered *)
  r_pel : list (Z * owner);         (* delivered, not acknowledged *)
  r_done : gset Z;                  (* <stream>:done:<id> *)
  r_attempts : gmap Z Z;            (* <stream>:attempts:<id> *)
  r_dead : list (Z * string) }.     (* <stream>:dead: orig_id, data *)

Definition r_data (r : redis) (id : Z) : option string :=
  snd <$> find (fun e => e.1 =? id) (r_stream r).

Definition set_pel (l : list (Z * owner)) (r : redis) : redis :=
  mkRedis (r_next r) (r_stream r) (r_last r) l (r_done r) (r_attempts r) (r_dead r).
Definition set_done (d : gset Z) (r : redis) : redis :=
  mkRedis (r_next r) (r_stream r) (r_last r) (r_pel r) d (r_attempts r) (r_dead r).
Definition set_attempts (a : gmap Z Z) (r : redis) : redis :=
  mkRedis (r_next r) (r_stream r) (r_last r) (r_pel r) (r_done r) a (r_dead r).
Definition set_dead (d : list (Z * string)) (r : redis) : redis :=
  mkRedis (r_next r) (r_stream r) (r_last r) (r_pel r) (r_done r) (r_attempts r) d.

(** XADD with an approximate cap: the oldest [trim] entries may go, but never
    so many that fewer than the cap are left. *)
Definition Publish (payload : string) (trim : nat) (r : redis) : option redis :=
  let s := r_stream r ++ [(r_next r, payload)] in
  if bool_decide (trim = 0 \/ trim + DefaultMaxLen <= length s)%nat then
    Some (mkRedis (r_next r + 1) (drop trim s) (r_last r) (r_pel r) (r_done r) (r_attempts r)
            (r_dead r))
  else None.

(** XACK *)
Definition xack (id : Z) (r : redis) : redis :=
  set_pel (filter (fun e => e.1 <> id) (r_pel r)) r.

(** A message as a read returns it: an entry trimmed from the stream comes
    back with no fields. *)
Record msg := mkMsg { m_ID : Z; m_data : option string }.

Definition msgData (m : msg) : option string := m_data m.

(** XREADGROUP with id [>]: the next entries nobody in the group was given. *)
Definition fresh_entries (count : nat) (r : redis) : list (Z * string) :=
  take count (filter (fun e => r_last r < e.1) (r_stream r)).
Definition xread_new (who : owner) (count : nat) (r : redis) : list msg * redis :=
  let es := fresh_entries count r in
  (map (fun e => mkMsg e.1 (Some e.2)) es,
   mkRedis (r_next r) (r_stream r)
     (match last es with Some e => e.1 | None => r_last r end)
     (r_pel r ++ map (fun e => (e.1, who)) es) (r_done r) (r_attempts r) (r_dead r)).

(** XREADGROUP with an id: this consumer's pending entries after it. *)
Definition xread_own (after : Z) (count : nat) (r : redis) : list msg :=
  map (fun e => mkMsg e.1 (r_data r e.1))
    (take count (filter (fun e => e.2 = Me /\ after < e.1) (r_pel r))).

(** XAUTOCLAIM of the entries idle long enough; an entry that is no longer in
    the stream is dropped from the pending list or handed over empty,
    depending on the server's version ([purge]). *)
Definition xautoclaim (idle : list Z) (purge : bool) (count : nat) (r : redis)
    : list msg * redis :=
  let ids := take count (filter (fun i => i ∈ idle) (map fst (r_pel r))) in
  let gone i := purge && bool_decide (r_data r i = None) in
  (map (fun i => mkMsg i (r_data r i)) (filter (fun i => gone i = false) ids),
   set_pel (map (fun e => if bool_decide (e.1 ∈ ids) then (e.1, Me) else e)
              (filter (fun e => ~ (e.1 ∈ ids /\ gone e.1 = true)) (r_pel r))) r).

(** ** The consumer *)

Inductive pool := MainPool | ExpressPool | InstantPool.
#[export] Instance pool_eq_dec : EqDecision pool.
Proof. solve_decision. Defined.

Record Consumer := mkConsumer {
  c_Count : nat;
  c_MaxDeliveries : Z;
  c_Concurrency : nat;
  c_Express : option (string -> bool);
  c_ExpressConcurrency : nat;
  c_Instant : option (string -> bool) }.

Definition NewConsumer : Consumer := mkConsumer 16 5 1 None 0 None.

Definition expressBacklog : nat := 64.
Definition maxPendingPages : nat := 64.

(** Where [process] stands on one message: before each Redis call, or in the
    handler. *)
Inductive phase :=
| PCheck                  (* EXISTS done *)
| PAckDone                (* XACK of an entry that was done before *)
| PRun (data : string)    (* the handler runs *)
| PIncr (data : string)   (* INCR attempts after an error *)
| PPark (data : string)   (* XADD to the dead stream *)
| PParkAck                (* XACK of a parked entry *)
| PMark                   (* SET done after success *)
| PAck                    (* XACK after success *)
| PDel.                   (* DEL attempts, both ends *)

Record task := mkTask { t_msg : msg; t_pool : pool; t_phase : phase }.

(** The process: what the reader still has to dispatch, the message it is
    handing over, the queues in front of the pools, the workers and the ids
    claimed. *)
Record proc := mkProc {
  p_reader : list msg;
  p_hand : option msg;
  p_main : list msg;
  p_express : list msg;
  p_running : list task;
  p_inflight : gset Z;
  p_ctxDone : bool }.

Definition idle_proc : proc := mkProc [] None [] [] [] ∅ false.

Definition set_reader (l : list msg) (p : proc) : proc :=
  mkProc l (p_hand p) (p_main p) (p_express p) (p_running p) (p_inflight p) (p_ctxDone p).
Definition set_hand (h : option msg) (p : proc) : proc :=
  mkProc (p_reader p) h (p_main p) (p_express p) (p_running p) (p_inflight p) (p_ctxDone p).
Definition set_running (l : list task) (p : proc) : proc :=
  mkProc (p_reader p) (p_hand p) (p_main p) (p_express p) l (p_inflight p) (p_ctxDone p).
Definition set_inflight (i : gset Z) (p : proc) : proc :=
  mkProc (p_reader p) (p_hand p) (p_main p) (p_express p) (p_running p) i (p_ctxDone p).
Definition set_ctxDone (p : proc) : proc :=
  mkProc (p_reader p) (p_hand p) (p_main p) (p_express p) (p_running p) (p_inflight p) true.

(** Instant messages go to their workers with no queue between. *)
Definition queue_of (q : pool) (p : proc) : list msg :=
  match q with MainPool => p_main p | ExpressPool => p_express p | InstantPool => [] end.
Definition set_queue (q : pool) (l : list msg) (p : proc) : proc :=
  match q with
  | MainPool => mkProc (p_reader p) (p_hand p) l (p_express p) (p_running p) (p_inflight p)
                  (p_ctxDone p)
  | ExpressPool => mkProc (p_reader p) (p_hand p) (p_main p) l (p_running p) (p_inflight p)
                     (p_ctxDone p)
  | InstantPool => p
  end.

Definition beginInflight (id : Z) (p : proc) : bool * proc :=
  if decide (id ∈ p_inflight p) then (false, p)
  else (true, set_inflight ({[id]} ∪ p_inflight p) p).
Definition endInflight (id : Z) (p : proc) : proc :=
  set_inflight (p_inflight p ∖ {[id]}) p.

(** *** Routing: [dispatch] and the pools [Run] starts *)
Section Routing.
Variable c : Consumer.

Definition route (m : msg) : pool :=
  match c_Express c with
  | None => MainPool
  | Some express =>
      match msgData m with
      | None => MainPool
      | Some data =>
          if express data then
            match c_Instant c with
            | Some instant => if instant data then InstantPool else ExpressPool
            | None => ExpressPool
            end
          else MainPool
      end
  end.

Definition workers (q : pool) : nat :=
  match q with
  | MainPool => max (c_Concurrency c) 1
  | ExpressPool | InstantPool => max (c_ExpressConcurrency c) 1
  end.

(** The buffer of a forwarder and the message in its hand; a pool without a
    forwarder has no room in front of it. *)
Definition room (q : pool) : nat :=
  match q, c_Express c, c_Instant c with
  | MainPool, Some _, _ => expressBacklog + 1
  | ExpressPool, Some _, Some _ => expressBacklog + 1
  | _, _, _ => 0
  end.
End Routing.

Definition busy (q : pool) (p : proc) : nat :=
  length (filter (fun t => t_pool t = q) (p_running p)).

(** *** [process], one Redis call at a time *)

(** What the handler did; [runHandler] turns a panic into an error. *)
Inductive handler_result := ReturnedNil | ReturnedErr | Panicked.
Definition runHandler (h : handler_result) : bool :=
  match h with ReturnedNil => true | ReturnedErr | Panicked => false end.

Definition missing_data : string := "<missing data field>".

(** Applies the effect of a call that reached Redis. *)
Definition call (o : outcome) (f : redis -> redis) (r : redis) : redis :=
  if applied o then f r else r.

Definition incr (id : Z) (r : redis) : redis :=
  set_attempts (<[id := default 0 (r_attempts r !! id) + 1]> (r_attempts r)) r.

(** The dead stream has the same approximate cap: the oldest [trim] entries
    may go, as far as the cap allows. *)
Definition xadd_dead (id : Z) (data : string) (trim : nat) (r : redis) : redis :=
  let s := r_dead r ++ [(id, data)] in
  set_dead (drop (min trim (length s - DefaultMaxLen)) s) r.

(** The next phase, [None] when [process] returns. *)
Definition process_step (c : Consumer) (m : msg) (ph : phase) (o : outcome)
    (h : handler_result) (trim : nat) (r : redis) : redis * option phase :=
  let id := m_ID m in
  match ph with
  | PCheck =>
      (* n, _ := Exists(...): an error reads as 0 *)
      (r, Some (if replied o && bool_decide (id ∈ r_done r) then PAckDone
                else match msgData m with
                     | None => PPark missing_data
                     | Some data => PRun data
                     end))
  | PAckDone => (call o (xack id) r, None)
  | PRun data => (r, Some (if runHandler h then PMark else PIncr data))
  | PIncr data =>
      let r' := call o (incr id) r in
      let attempts := if replied o then default 0 (r_attempts r' !! id) else 0 in
      (r', if c_MaxDeliveries c <=? attempts then Some (PPark data) else None)
  | PPark data =>
      (call o (xadd_dead id data trim) r,
       if replied o then Some PParkAck else None)
  | PParkAck => (call o (xack id) r, Some PDel)
  | PMark => (call o (fun r => set_done ({[id]} ∪ r_done r) r) r, Some PAck)
  | PAck => (call o (xack id) r, Some PDel)
  | PDel => (call o (fun r => set_attempts (delete id (r_attempts r)) r) r, None)
  end.

(** ** Recovery reads *)

(** [ownPending]: page by page after the last id seen; [ok k] says whether
    the [k]-th read works. *)
Fixpoint own_pages (c : Consumer) (r : redis) (ok : nat -> bool) (pages page : nat)
    (after : Z) (out : list msg) : list msg :=
  match pages with
  | O => out
  | S pages =>
      if ok page then
        let ms := xread_own after (c_Count c) r in
        let out := out ++ ms in
        match last ms with
        | None => out
        | Some m => own_pages c r ok pages (S page) (m_ID m) out
        end
      else out
  end.
Definition ownPending (c : Consumer) (r : redis) (ok : nat -> bool) : list msg :=
  own_pages c r ok maxPendingPages 0 0 [].

(** ** The system: Redis, one consumer process, and what happened so far

    [g_log] has every payload published, [g_ok] the ids for which a handler
    returned nil, [g_fail] how often a handler failed per id, [g_trim] the ids
    the cap has trimmed, [g_dead] everything ever parked, oldest first. They
    only record; no step reads them. *)
Record ghost := mkGhost {
  g_log : gmap Z string;
  g_ok : gset Z;
  g_fail : gmap Z Z;
  g_trim : gset Z;
  g_dead : list (Z * string) }.

Record sys := mkSys { s_redis : redis; s_proc : proc; s_ghost : ghost }.

Definition init_sys : sys :=
  mkSys (mkRedis 1 [] 0 [] ∅ ∅ []) idle_proc (mkGhost ∅ ∅ ∅ ∅ []).

Inductive label :=
| LPublish (payload : string) (trim : nat)
| LRead                                  (* XREADGROUP > works *)
| LOtherRead                             (* a member that then dies reads *)
| LClaim (idle : list Z) (purge : bool)  (* staleClaimed *)
| LOwn (ok : nat -> bool)                (* ownPending *)
| LDispatch                              (* dispatch: beginInflight *)
| LSend                                  (* dispatch: hand the message over *)
| LStart (q : pool)                      (* a free worker takes a queued one *)
| LTask (i : nat) (o : outcome) (h : handler_result) (trim : nat)
| LCancel                                (* ctx is done *)
| LReleaseHand                           (* dispatch: <-ctx.Done() *)
| LRelease (q : pool)                    (* forwarder: <-ctx.Done() *)
| LCrash                                 (* the process dies and restarts *)
| LExpireDone (id : Z)
| LExpireAttempts (id : Z).

Definition ghost_publish (id : Z) (payload : string) (gone : list Z) (g : ghost) : ghost :=
  mkGhost (<[id := payload]> (g_log g)) (g_ok g) (g_fail g) (list_to_set gone ∪ g_trim g)
    (g_dead g).
Definition ghost_handled (id : Z) (h : handler_result) (g : ghost) : ghost :=
  if runHandler h then mkGhost (g_log g) ({[id]} ∪ g_ok g) (g_fail g) (g_trim g) (g_dead g)
  else mkGhost (g_log g) (g_ok g) (<[id := default 0 (g_fail g !! id) + 1]> (g_fail g)) (g_trim g)
    (g_dead g).
Definition ghost_parked (id : Z) (data : string) (o : outcome) (g : ghost) : ghost :=
  if applied o then mkGhost (g_log g) (g_ok g) (g_fail g) (g_trim g) (g_dead g ++ [(id, data)])
  else g.
Definition ghost_task (id : Z) (ph : phase) (o : outcome) (h : handler_result) (g : ghost) : ghost :=
  match ph with
  | PRun _ => ghost_handled id h g
  | PPark data => ghost_parked id data o g
  | _ => g
  end.

(** The worker takes a message: [process] starts at its first call. *)
Definition begin_task (q : pool) (m : msg) (p : proc) : proc :=
  set_running (p_running p ++ [mkTask m q PCheck]) p.

Section Exec.
Variable c : Consumer.

(** The claimed message goes to an idle worker, or to the pool's queue. *)
Definition send (m : msg) (p : proc) : option proc :=
  let q := route c m in
  let p' := set_hand None p in
  if bool_decide (queue_of q p = []) && (busy q p <? workers c q)%nat
  then Some (begin_task q m p')
  else if (length (queue_of q p) <? room c q)%nat
  then Some (set_queue q (queue_of q p ++ [m]) p')
  else None.

Definition qexec (l : label) (s : sys) : option sys :=
  let r := s_redis s in let p := s_proc s in let g := s_ghost s in
  let reading := bool_decide (p_reader p = []) && bool_decide (p_hand p = None) &&
                 negb (p_ctxDone p) in
  match l with
  | LPublish payload trim =>
      let gone := map fst (take trim (r_stream r ++ [(r_next r, payload)])) in
      (fun r' => mkSys r' p (ghost_publish (r_next r) payload gone g)) <$> Publish payload trim r
  | LRead =>
      if reading then let '(ms, r') := xread_new Me (c_Count c) r in
                      Some (mkSys r' (set_reader ms p) g) else None
  | LOtherRead => Some (mkSys (xread_new Other (c_Count c) r).2 p g)
  | LClaim idle purge =>
      if reading then let '(ms, r') := xautoclaim idle purge (c_Count c) r in
                      Some (mkSys r' (set_reader ms p) g) else None
  | LOwn ok => if reading then Some (mkSys r (set_reader (ownPending c r ok) p) g) else None
  | LDispatch =>
      match p_reader p, p_hand p with
      | m :: ms, None =>
          let '(b, p') := beginInflight (m_ID m) p in
          Some (mkSys r (set_reader ms (if b then set_hand (Some m) p' else p')) g)
      | _, _ => None
      end
  | LSend => match p_hand p with
             | Some m => (fun p' => mkSys r p' g) <$> send m p
             | None => None
             end
  | LStart q =>
      match queue_of q p with
      | m :: ms => if (busy q p <? workers c q)%nat
                   then Some (mkSys r (begin_task q m (set_queue q ms p)) g) else None
      | [] => None
      end
  | LTask i o h trim =>
      match p_running p !! i with
      | Some t =>
          let '(r', ph) := process_step c (t_msg t) (t_phase t) o h trim r in
          let id := m_ID (t_msg t) in
          let g' := ghost_task id (t_phase t) o h g in
          let p' := match ph with
                    | Some ph => set_running (<[i := mkTask (t_msg t) (t_pool t) ph]> (p_running p)) p
                    | None => endInflight id (set_running (delete i (p_running p)) p)
                    end in
          Some (mkSys r' p' g')
      | None => None
      end
  | LCancel => Some (mkSys r (set_ctxDone p) g)
  | LReleaseHand =>
      match p_hand p with
      | Some m => if p_ctxDone p
                  then Some (mkSys r (set_reader [] (endInflight (m_ID m) (set_hand None p))) g)
                  else None
      | None => None
      end
  | LRelease q =>
      match queue_of q p with
      | m :: ms => if p_ctxDone p then Some (mkSys r (endInflight (m_ID m) (set_queue q ms p)) g)
                   else None
      | [] => None
      end
  | LCrash => Some (mkSys r idle_proc g)
  | LExpireDone id => Some (mkSys (set_done (r_done r ∖ {[id]}) r) p g)
  | LExpireAttempts id => Some (mkSys (set_attempts (delete id (r_attempts r)) r) p g)
  end.

Definition qstep (s s' : sys) : Prop := exists l, qexec l s = Some s'.
End Exec.

(** ** Lemmas: claims

    Everything the process holds, from the reader's hand to the workers. *)
Definition held (p : proc) : list msg :=
  option_list (p_hand p) ++ p_main p ++ p_express p ++ map t_msg (p_running p).
Definition held_ids (p : proc) : list Z := map m_ID (held p).

(** An id is claimed exactly while one holder has it. *)
Definition claims_ok (p : proc) : Prop :=
  NoDup (held_ids p) /\ forall id, id ∈ p_inflight p <-> id ∈ held_ids p.

Lemma held_ids_perm p p' : held p ≡ₚ held p' -> held_ids p ≡ₚ held_ids p'.
Proof. intros H. unfold held_ids. by rewrite H. Qed.

Lemma claims_move p p' :
  claims_ok p -> held p' ≡ₚ held p -> p_inflight p' = p_inflight p -> claims_ok p'.
Proof.
  intros [Hn Hi] Hp Hf. apply held_ids_perm in Hp. split; [by rewrite Hp|].
  intros id. rewrite Hf, Hi. by rewrite Hp.
Qed.

Lemma claims_add p p' m :
  claims_ok p -> m_ID m ∉ p_inflight p -> held p' ≡ₚ m :: held p ->
  p_inflight p' = {[m_ID m]} ∪ p_inflight p -> claims_ok p'.
Proof.
  intros [Hn Hi] Hm Hp Hf. assert (H : held_ids p' ≡ₚ m_ID m :: held_ids p).
  { unfold held_ids. by rewrite Hp. }
  split.
  - rewrite H. constructor; [by rewrite <- Hi|done].
  - intros id. rewrite H, Hf, elem_of_cons, <- Hi. set_solver.
Qed.

Lemma claims_drop p p' m :
  claims_ok p -> held p ≡ₚ m :: held p' ->
  p_inflight p' = p_inflight p ∖ {[m_ID m]} -> claims_ok p'.
Proof.
  intros [Hn Hi] Hp Hf. assert (H : held_ids p ≡ₚ m_ID m :: held_ids p').
  { unfold held_ids. by rewrite Hp. }
  rewrite H in Hn. apply NoDup_cons in Hn as [Hm Hn]. split; [done|].
  intros id. rewrite Hf, elem_of_difference, Hi, H, elem_of_cons, elem_of_singleton.
  split; [tauto|]. intros Hid. split; [tauto|]. by intros ->.
Qed.

Lemma held_begin q m p : held (begin_task q m p) ≡ₚ m :: held p.
Proof.
  unfold held. simpl. rewrite map_app. simpl. rewrite !app_assoc.
  by rewrite <- Permutation_cons_append.
Qed.

Lemma held_queue q p m ms :
  queue_of q p = m :: ms -> held p ≡ₚ m :: held (set_queue q ms p).
Proof.
  destruct q; simpl; try done; unfold held; simpl; intros ->; by solve_Permutation.
Qed.

Lemma held_enqueue q p m :
  q <> InstantPool -> held (set_queue q (queue_of q p ++ [m]) p) ≡ₚ m :: held p.
Proof.
  destruct q; simpl; try done; unfold held; simpl; intros _; by solve_Permutation.
Qed.

Lemma held_task_phase p i t ph :
  p_running p !! i = Some t ->
  held (set_running (<[i := mkTask (t_msg t) (t_pool t) ph]> (p_running p)) p) = held p.
Proof.
  intros H. unfold held. simpl. do 3 f_equal. change (map t_msg) with (fmap (M:=list) t_msg).
  rewrite list_fmap_insert. simpl. apply list_insert_id. by rewrite list_lookup_fmap, H.
Qed.

Lemma held_task_done p i t :
  p_running p !! i = Some t ->
  held p ≡ₚ t_msg t :: held (set_running (delete i (p_running p)) p).
Proof.
  intros H. unfold held. simpl. rewrite (delete_Permutation (p_running p) i t H) at 1. simpl.
  by solve_Permutation.
Qed.

Lemma room_instant c : room c InstantPool = 0%nat.
Proof. unfold room. by repeat case_match. Qed.

(** The pools never run more than their workers, and what is read ahead of
    them is bounded. *)
Definition caps_ok (c : Consumer) (p : proc) : Prop :=
  forall q, (busy q p <= workers c q)%nat /\ (length (queue_of q p) <= room c q)%nat.

Lemma busy_begin q q' m p :
  busy q (begin_task q' m p) = (busy q p + if decide (q' = q) then 1 else 0)%nat.
Proof.
  unfold busy. simpl. rewrite filter_app, length_app, filter_cons, filter_nil. simpl.
  by destruct (decide (q' = q)).
Qed.

Lemma busy_phase q p i t ph :
  p_running p !! i = Some t ->
  busy q (set_running (<[i := mkTask (t_msg t) (t_pool t) ph]> (p_running p)) p) = busy q p.
Proof.
  intros H. unfold busy. simpl. rewrite insert_take_drop by by apply lookup_lt_Some in H.
  rewrite <- (take_drop_middle _ _ _ H) at 3.
  rewrite !filter_app, !filter_cons, !length_app. simpl. by case_decide.
Qed.

Lemma busy_delete q p i t :
  p_running p !! i = Some t ->
  (busy q (set_running (delete i (p_running p)) p) <= busy q p)%nat.
Proof.
  intros H. unfold busy. simpl. rewrite (delete_Permutation (p_running p) i t H) at 2.
  rewrite filter_cons. case_decide; simpl; lia.
Qed.

Definition proc_ok (c : Consumer) (p : proc) : Prop := claims_ok p /\ caps_ok c p.

Lemma proc_ok_idle c : proc_ok c idle_proc.
Proof.
  split; [split; [constructor|set_solver]|]. intros []; unfold busy; simpl; lia.
Qed.

(** Reads touch nothing but the reader's list. *)
Lemma proc_ok_reader c p ms : proc_ok c p -> proc_ok c (set_reader ms p).
Proof. done. Qed.

Lemma proc_ok_hand c p m p' b :
  p_hand p = None -> beginInflight (m_ID m) p = (b, p') -> proc_ok c p ->
  proc_ok c (if b then set_hand (Some m) p' else p').
Proof.
  unfold beginInflight. intros Hh H [Hc Hq]. case_decide as Hd; simplify_eq; [by split|].
  split; [|done]. apply (claims_add p _ m); [done..| |done]. unfold held. simpl. by rewrite Hh.
Qed.

Lemma proc_ok_send c p m p' :
  p_hand p = Some m -> send c m p = Some p' -> proc_ok c p -> proc_ok c p'.
Proof.
  unfold send. intros Hh H [Hc Hq]. set (q := route c m) in *.
  assert (Hp : held p ≡ₚ m :: held (set_hand None p)) by (unfold held; by rewrite Hh).
  destruct (bool_decide _ && _) eqn:E; [|destruct (_ <? room c q)%nat eqn:E2]; simplify_eq.
  - to_prop. apply Nat.ltb_lt in H0. split.
    + apply (claims_move p); [done|by rewrite held_begin, Hp|done].
    + intros q'. rewrite busy_begin. destruct (Hq q'). case_decide; subst; split; try done.
      all: unfold busy in *; simpl in *; lia.
  - apply Nat.ltb_lt in E2. assert (q <> InstantPool).
    { intros ->. rewrite room_instant in E2. lia. }
    split.
    + apply (claims_move p); [done| |by destruct q].
      rewrite Hp. apply (held_enqueue q (set_hand None p)). done.
    + intros q'. destruct (Hq q') as [Hb Hl]. split; [by destruct q|].
      destruct q, q'; simpl in *; rewrite ?length_app; simpl; lia.
Qed.

Lemma proc_ok_start c p q m ms :
  queue_of q p = m :: ms -> (busy q p < workers c q)%nat -> proc_ok c p ->
  proc_ok c (begin_task q m (set_queue q ms p)).
Proof.
  intros Hm Hb [Hc Hq]. split.
  - apply (claims_move p); [done| |by destruct q].
    by rewrite held_begin, (held_queue q p m ms).
  - intros q'. rewrite busy_begin. destruct (Hq q') as [H1 H2]. split.
    + assert (busy q' (set_queue q ms p) = busy q' p) as -> by by destruct q.
      case_decide; subst; lia.
    + destruct q, q'; simpl in *; rewrite ?Hm in *; simpl in *; lia.
Qed.

Lemma proc_ok_release c p q m ms :
  queue_of q p = m :: ms -> proc_ok c p -> proc_ok c (endInflight (m_ID m) (set_queue q ms p)).
Proof.
  intros Hm [Hc Hq]. split.
  - apply (claims_drop p _ m); [done|by apply held_queue|by destruct q].
  - intros q'. destruct (Hq q') as [H1 H2].
    destruct q, q'; simpl in *; rewrite ?Hm in *; simpl in *; split; lia || done.
Qed.

Lemma proc_ok_exec c l s s' :
  qexec c l s = Some s' -> proc_ok c (s_proc s) -> proc_ok c (s_proc s').
Proof.
  destruct s as [r p g]. intros H Hok. destruct l; simpl in H; simplify_eq/=; split_matches; try done;
    try (by apply proc_ok_reader); try (by apply proc_ok_idle).
  - apply fmap_Some in H as (r' & _ & ->). done.
  - apply proc_ok_reader. by eapply (proc_ok_hand _ _ _ _ true); eauto.
  - apply proc_ok_reader. by eapply (proc_ok_hand _ _ _ _ false); eauto.
  - apply fmap_Some in H as (p' & Hp & ->). eapply proc_ok_send; eauto.
  - apply proc_ok_start; [done|by apply Nat.ltb_lt|done].
  - destruct Hok as [Hc Hq]. split.
    + apply (claims_move p); [done|by rewrite held_task_phase|done].
    + intros q. rewrite busy_phase by done. apply Hq.
  - destruct Hok as [Hc Hq]. split.
    + apply (claims_drop p _ (t_msg t)); [done|by apply held_task_done|done].
    + intros q. split; [|apply Hq]. etransitivity; [by eapply busy_delete|apply Hq].
  - destruct Hok as [Hc Hq]. split; [|exact Hq].
    apply (claims_drop p _ m); [done| |done]. unfold held. simpl.
    match goal with H : p_hand p = _ |- _ => rewrite H end. done.
  - by apply proc_ok_release.
Qed.

(** ** Lemmas: entries in id order *)

Definition by_id {A} (a b : Z * A) : Prop := a.1 < b.1.

Lemma numbered_sorted {A} (l : list (Z * A)) k :
  (forall i e, l !! i = Some e -> e.1 = k + Z.of_nat i) -> StronglySorted by_id l.
Proof.
  revert k. induction l as [|x l IH]; intros k H; constructor.
  - apply (IH (k + 1)). intros i e He. rewrite (H (S i) e He). lia.
  - apply Forall_forall. intros y [i Hi]%list_elem_of_lookup. unfold by_id.
    rewrite (H 0%nat x eq_refl), (H (S i) y Hi). lia.
Qed.

Lemma sorted_filter {A} (R : A -> A -> Prop) (P : A -> Prop) `{!forall x, Decision (P x)} l :
  StronglySorted R l -> StronglySorted R (filter P l).
Proof.
  induction 1 as [|x l Hl IH Hx]; [constructor|]. rewrite filter_cons. case_decide; [|done].
  constructor; [done|]. apply Forall_forall. intros y [_ Hy]%list_elem_of_filter.
  rewrite Forall_forall in Hx. auto.
Qed.

(** A prefix of a sorted list has everything up to its last element. *)
Lemma sorted_take {A} (l : list (Z * A)) n e x :
  StronglySorted by_id l -> last (take n l) = Some e -> x ∈ l -> x.1 <= e.1 -> x ∈ take n l.
Proof.
  intros Hs He Hx Hle. rewrite <- (take_drop n l) in Hs, Hx.
  apply elem_of_app in Hx as [|Hx]; [done|].
  apply last_Some in He as [l' He].
  pose proof (StronglySorted_app_1_elem_of _ _ _ e x Hs) as H. unfold by_id in H.
  assert (e ∈ take n l) by (rewrite He; set_solver). specialize (H ltac:(done) Hx). lia.
Qed.

(** ** Lemmas: no message is lost *)

Definition attempts_of (r : redis) (id : Z) : Z := default 0 (r_attempts r !! id).
Definition fails_of (g : ghost) (id : Z) : Z := default 0 (g_fail g !! id).

(** Why an entry is on the dead stream: its payload, after the allowed number
    of failures; or the placeholder, for an entry the cap has trimmed. *)
Definition parked_ok (c : Consumer) (g : ghost) (id : Z) (d : string) : Prop :=
  (g_log g !! id = Some d /\ c_MaxDeliveries c <= fails_of g id) \/
  (d = missing_data /\ id ∈ g_trim g).

Definition accounted (g : ghost) (id : Z) : Prop :=
  id ∈ g_ok g \/ id ∈ map fst (g_dead g) \/ id ∈ g_trim g.

(** The dead stream has the newest of what was parked: all of it, or as much
    as the cap leaves. *)
Definition dead_ok (dead all : list (Z * string)) : Prop :=
  exists k, dead = drop k all /\ (k = 0 \/ k + DefaultMaxLen <= length all)%nat.

Record redis_inv (c : Consumer) (r : redis) (g : ghost) : Prop := {
  ri_ids : forall i e, r_stream r !! i = Some e ->
           e.1 = r_next r - Z.of_nat (length (r_stream r)) + Z.of_nat i;
  ri_log : forall id d, (id, d) ∈ r_stream r -> g_log g !! id = Some d;
  ri_dom : forall id, is_Some (g_log g !! id) <-> 1 <= id < r_next r;
  ri_kept : forall id, is_Some (g_log g !! id) -> id ∈ map fst (r_stream r) \/ id ∈ g_trim g;
  ri_trim : forall id, id ∈ g_trim g -> id + Z.of_nat DefaultMaxLen < r_next r;
  ri_last : 0 <= r_last r < r_next r;
  ri_pel : forall id, id ∈ map fst (r_pel r) -> is_Some (g_log g !! id);
  ri_done : r_done r ⊆ g_ok g;
  ri_attempts : forall id, 0 <= attempts_of r id <= fails_of g id;
  ri_dead : forall id d, (id, d) ∈ g_dead g -> parked_ok c g id d;
  ri_newest : dead_ok (r_dead r) (g_dead g);
  ri_safe : forall id, 1 <= id <= r_last r -> id ∈ map fst (r_pel r) \/ accounted g id }.

Definition msg_ok (g : ghost) (m : msg) : Prop :=
  is_Some (g_log g !! m_ID m) /\
  match m_data m with
  | Some d => g_log g !! m_ID m = Some d
  | None => m_ID m ∈ g_trim g
  end.

Definition phase_ok (c : Consumer) (r : redis) (g : ghost) (id : Z) (ph : phase) : Prop :=
  match ph with
  | PCheck => True
  | PAckDone | PMark | PAck => id ∈ g_ok g
  | PRun d => g_log g !! id = Some d
  | PIncr d => g_log g !! id = Some d /\ attempts_of r id + 1 <= fails_of g id
  | PPark d => parked_ok c g id d
  | PParkAck => id ∈ map fst (g_dead g)
  | PDel => id ∈ g_ok g \/ id ∈ map fst (g_dead g)
  end.

Definition task_ok (c : Consumer) (r : redis) (g : ghost) (t : task) : Prop :=
  phase_ok c r g (m_ID (t_msg t)) (t_phase t).

Record qinv (c : Consumer) (s : sys) : Prop := {
  qi_proc : proc_ok c (s_proc s);
  qi_redis : redis_inv c (s_redis s) (s_ghost s);
  qi_reader : forall m, m ∈ p_reader (s_proc s) -> msg_ok (s_ghost s) m;
  qi_held : forall m, m ∈ held (s_proc s) -> msg_ok (s_ghost s) m;
  qi_tasks : forall t, t ∈ p_running (s_proc s) -> task_ok c (s_redis s) (s_ghost s) t }.

(** What happened is never undone. *)
Record ghost_le (g g' : ghost) : Prop := {
  gl_log : g_log g ⊆ g_log g';
  gl_ok : g_ok g ⊆ g_ok g';
  gl_fail : forall id, fails_of g id <= fails_of g' id;
  gl_trim : g_trim g ⊆ g_trim g';
  gl_dead : g_dead g ⊆ g_dead g' }.

#[export] Instance ghost_le_preorder : PreOrder ghost_le.
Proof.
  split; [by split|]. intros g1 g2 g3 [] []. split; try (by etransitivity).
  intros id. etransitivity; eauto.
Qed.

Lemma parked_ok_mono c g g' id d : ghost_le g g' -> parked_ok c g id d -> parked_ok c g' id d.
Proof.
  intros [Hl _ Hf Ht _] [[H1 H2]|[H1 H2]]; [left|right]; split; auto.
  - by eapply lookup_weaken.
  - specialize (Hf id). lia.
Qed.

Lemma msg_ok_mono g g' m : ghost_le g g' -> msg_ok g m -> msg_ok g' m.
Proof.
  intros [Hl _ _ Ht _] [[x Hx] H]. split; [exists x; by eapply lookup_weaken|].
  destruct (m_data m); [by eapply lookup_weaken|auto].
Qed.

Lemma gl_dead_id g g' id :
  ghost_le g g' -> id ∈ map fst (g_dead g) -> id ∈ map fst (g_dead g').
Proof.
  intros Hg (e & -> & He)%list_elem_of_fmap. apply list_elem_of_fmap.
  exists e. split; [done|]. by apply (gl_dead _ _ Hg).
Qed.

Lemma accounted_mono g g' id : ghost_le g g' -> accounted g id -> accounted g' id.
Proof.
  intros Hg [H|[H|H]]; [left; by apply (gl_ok _ _ Hg)|right; left; by eapply gl_dead_id|].
  right; right. by apply (gl_trim _ _ Hg).
Qed.

Lemma phase_ok_mono c r g r' g' id ph :
  ghost_le g g' -> attempts_of r' id <= attempts_of r id ->
  phase_ok c r g id ph -> phase_ok c r' g' id ph.
Proof.
  intros Hg Ha. pose proof (fun i => gl_dead_id g g' i Hg) as Hdi.
  pose proof (gl_ok _ _ Hg). pose proof (gl_fail _ _ Hg id). pose proof (gl_log _ _ Hg).
  destruct ph; simpl; auto.
  - intros H2. by eapply lookup_weaken.
  - intros [H2 H3]. split; [by eapply lookup_weaken|lia].
  - by apply parked_ok_mono.
  - intros [|]; auto.
Qed.

Lemma r_data_Some r id d : r_data r id = Some d -> (id, d) ∈ r_stream r.
Proof.
  unfold r_data. intros ([i x] & Hf & ->)%fmap_Some. apply find_some in Hf as [Hin He].
  simpl in *. apply Z.eqb_eq in He as ->. by apply list_elem_of_In.
Qed.

Lemma r_data_None r id : r_data r id = None -> id ∉ map fst (r_stream r).
Proof.
  unfold r_data. intros Hf%fmap_None (e & -> & He%list_elem_of_In)%list_elem_of_fmap.
  eapply find_none in Hf; [|exact He]. by rewrite Z.eqb_refl in Hf.
Qed.

(** A message read for an id that was published is what was published. *)
Lemma msg_ok_read c r g id :
  redis_inv c r g -> is_Some (g_log g !! id) -> msg_ok g (mkMsg id (r_data r id)).
Proof.
  intros Hr Hid. split; [done|]. simpl. destruct (r_data r id) as [d|] eqn:E.
  - by eapply ri_log, r_data_Some.
  - apply r_data_None in E. by destruct (ri_kept c r g Hr id Hid).
Qed.

Lemma stream_sorted c r g : redis_inv c r g -> StronglySorted by_id (r_stream r).
Proof. intros H. eapply numbered_sorted, H. Qed.

Lemma ghost_publish_le id payload gone g :
  g_log g !! id = None -> ghost_le g (ghost_publish id payload gone g).
Proof. intros H. split; simpl; [by apply insert_subseteq|done|done|set_solver|done]. Qed.

Lemma redis_inv_publish c payload trim r r' g :
  let gone := map fst (take trim (r_stream r ++ [(r_next r, payload)])) in
  let g' := ghost_publish (r_next r) payload gone g in
  Publish payload trim r = Some r' -> redis_inv c r g ->
  redis_inv c r' g' /\ ghost_le g g' /\ r_attempts r' = r_attempts r.
Proof.
  intros gone g' H Hr. unfold Publish in H. case_bool_decide as Ht; simplify_eq/=.
  assert (Hfresh : g_log g !! r_next r = None).
  { apply eq_None_not_Some. intros [_ ?]%(ri_dom c r g Hr). lia. }
  assert (Hle : ghost_le g g') by by apply ghost_publish_le.
  split; [|done]. set (s := r_stream r ++ [(r_next r, payload)]) in *.
  assert (Hs : forall i e, s !! i = Some e -> e.1 = r_next r + 1 - Z.of_nat (length s) + Z.of_nat i).
  { intros i e. unfold s. rewrite length_app. simpl. intros [Hi|[-> <-]]%lookup_snoc_Some.
    - destruct Hi as [_ Hi]. rewrite (ri_ids c r g Hr i e Hi). lia.
    - simpl. lia. }
  assert (Hlog : forall id d, (id, d) ∈ s -> g_log g' !! id = Some d).
  { intros id d. unfold s, g'. simpl. rewrite elem_of_app, list_elem_of_singleton.
    intros [Hin|Heq]; simplify_eq; [|by rewrite lookup_insert_eq].
    pose proof (ri_log c r g Hr id d Hin). rewrite lookup_insert_ne; [done|congruence]. }
  split; simpl.
  - intros i e. rewrite lookup_drop, length_drop. intros He.
    pose proof (lookup_lt_Some _ _ _ He). rewrite (Hs _ _ He). lia.
  - intros id d Hin. apply Hlog. rewrite <- (take_drop trim s). set_solver.
  - intros id. rewrite lookup_insert_is_Some, (ri_dom c r g Hr).
    pose proof (ri_last c r g Hr). split; [intros [<-|[_ ?]]; lia|].
    intros ?. destruct (decide (r_next r = id)); [by left|right]. lia.
  - intros id. rewrite lookup_insert_is_Some. intros Hid.
    assert (id ∈ map fst s \/ id ∈ g_trim g) as [Hin|Hin]; [|rewrite <- (take_drop trim s), map_app in Hin|set_solver].
    { unfold s. rewrite map_app. destruct Hid as [<-|[_ Hid]]; [set_solver|].
      destruct (ri_kept c r g Hr id Hid); set_solver. }
    unfold gone. set_solver.
  - intros id [Hin|Hin]%elem_of_union; [|pose proof (ri_trim c r g Hr id Hin); lia].
    apply elem_of_list_to_set, list_elem_of_fmap in Hin as (e & -> & Hin).
    apply list_elem_of_lookup in Hin as [i Hi]. apply lookup_take_Some in Hi as [Hi Hlt].
    rewrite (Hs i e Hi). pose proof (lookup_lt_Some _ _ _ Hi). lia.
  - pose proof (ri_last c r g Hr). lia.
  - intros id Hid. apply lookup_insert_is_Some.
    destruct (decide (r_next r = id)); [by left|right]. split; [done|]. by eapply ri_pel.
  - by destruct Hr.
  - apply (ri_attempts c r g Hr).
  - intros id d Hin. eapply parked_ok_mono; [done|]. by eapply ri_dead.
  - apply (ri_newest c r g Hr).
  - intros id Hid. destruct (ri_safe c r g Hr id Hid); [by left|right].
    by eapply accounted_mono.
Qed.

Lemma fresh_entries_In c r e : e ∈ fresh_entries c r -> e ∈ r_stream r /\ r_last r < e.1.
Proof.
  unfold fresh_entries. intros H. apply elem_of_take in H as (i & H & _).
  apply list_elem_of_lookup_2, list_elem_of_filter in H. tauto.
Qed.

(** A read of new entries skips nothing up to the last id it delivers. *)
Lemma fresh_entries_upto c r g n e id :
  redis_inv c r g -> last (fresh_entries n r) = Some e -> r_last r < id <= e.1 ->
  id ∈ map fst (r_stream r) -> id ∈ map fst (fresh_entries n r).
Proof.
  intros Hr He Hid (x & -> & Hx)%list_elem_of_fmap. apply list_elem_of_fmap. exists x.
  split; [done|]. eapply sorted_take; [|exact He| |lia].
  - by eapply sorted_filter, stream_sorted.
  - apply list_elem_of_filter. split; [lia|done].
Qed.

Lemma redis_inv_read c r g who n :
  redis_inv c r g ->
  redis_inv c (xread_new who n r).2 g /\
  forall m, m ∈ (xread_new who n r).1 -> msg_ok g m.
Proof.
  intros Hr. set (es := fresh_entries n r).
  assert (Hes : forall e, e ∈ es -> g_log g !! e.1 = Some e.2).
  { intros [i d] [He _]%fresh_entries_In. by apply (ri_log c r g Hr). }
  assert (Hpel : map fst (map (fun e : Z * string => (e.1, who)) es) = map fst es).
  { rewrite map_map. done. }
  split.
  - pose proof Hr as [H1 H2 H3 H4 H5 H6 H7 H8 H9 H10 H12 H11]. split; simpl; fold es; try done.
    + destruct (last es) as [e|] eqn:El; [|done].
      assert (He : e ∈ es) by (apply last_Some in El as [l' ->]; set_solver).
      pose proof (Hes e He) as Hl. apply mk_is_Some, H3 in Hl. lia.
    + intros id. rewrite map_app, Hpel. intros [?|(e & -> & He)%list_elem_of_fmap]%elem_of_app; [auto|].
      rewrite (Hes e He). eauto.
    + intros id Hid. rewrite map_app, elem_of_app, Hpel.
      destruct (decide (id <= r_last r)).
      { destruct (H11 id ltac:(lia)) as [|]; [auto|by right]. }
      destruct (last es) as [e|] eqn:El; [|lia].
      assert (He : e ∈ es) by (apply last_Some in El as [l' ->]; set_solver).
      pose proof (Hes e He) as Hl. apply mk_is_Some, H3 in Hl.
      destruct (H4 id) as [Hin|Hin]; [apply H3; lia| |right; right; by right].
      left; right. eapply (fresh_entries_upto c r g n e id); [done|done|lia|done].
  - intros m (e & -> & He)%list_elem_of_fmap. unfold msg_ok. simpl.
    rewrite (Hes e He). eauto.
Qed.

(** Claiming keeps every entry pending, except those the cap has trimmed. *)
Lemma claim_pel c r g idle purge n :
  redis_inv c r g ->
  let pel' := r_pel (xautoclaim idle purge n r).2 in
  (forall id, id ∈ map fst pel' -> id ∈ map fst (r_pel r)) /\
  (forall id, id ∈ map fst (r_pel r) -> id ∈ map fst pel' \/ id ∈ g_trim g).
Proof.
  intros Hr pel'. unfold pel'. simpl.
  set (ids := take n _).
  assert (Hf : forall l, map fst (map (fun e : Z * owner => if bool_decide (e.1 ∈ ids) then (e.1, Me) else e) l)
    = map fst l).
  { intros l. rewrite map_map. apply map_ext. intros e. by case_bool_decide. }
  rewrite Hf. split; intros id (e & -> & He)%list_elem_of_fmap.
  - apply list_elem_of_filter in He as [_ He]. apply list_elem_of_fmap. eauto.
  - destruct (decide (e.1 ∈ ids /\ purge && bool_decide (r_data r e.1 = None) = true))
      as [[_ Hg]|Hn].
    + right. apply andb_true_iff in Hg as [_ Hg].
      apply bool_decide_eq_true, r_data_None in Hg.
      destruct (ri_kept c r g Hr e.1) as [|]; [|done|done].
      eapply ri_pel; [done|]. apply list_elem_of_fmap. eauto.
    + left. apply list_elem_of_fmap. exists e. split; [done|]. by apply list_elem_of_filter.
Qed.

Lemma redis_inv_claim c r g idle purge n :
  redis_inv c r g ->
  redis_inv c (xautoclaim idle purge n r).2 g /\
  forall m, m ∈ (xautoclaim idle purge n r).1 -> msg_ok g m.
Proof.
  intros Hr. destruct (claim_pel c r g idle purge n Hr) as [Hsub Hsup]. split.
  - destruct Hr as [H1 H2 H3 H4 H5 H6 H7 H8 H9 H10 H12 H11]. split; simpl; try done.
    + intros id Hid. by apply H7, Hsub.
    + intros id Hid. destruct (H11 id Hid) as [Hp|Hp]; [|by right].
      destruct (Hsup id Hp); [by left|right; right; by right].
  - intros m (i & -> & Hi)%list_elem_of_fmap. eapply msg_ok_read; [done|].
    apply list_elem_of_filter in Hi as [_ Hi]. apply elem_of_take in Hi as (k & Hk & _).
    apply list_elem_of_lookup_2, list_elem_of_filter in Hk as [_ Hk]. by eapply ri_pel.
Qed.

Lemma own_pages_ok c r g ok pages page after out :
  redis_inv c r g -> (forall m, m ∈ out -> msg_ok g m) ->
  forall m, m ∈ own_pages c r ok pages page after out -> msg_ok g m.
Proof.
  intros Hr. revert page after out. induction pages as [|pages IH]; intros page after out Ho; [done|].
  simpl. destruct (ok page); [|done].
  assert (Ho' : forall m, m ∈ out ++ xread_own after (c_Count c) r -> msg_ok g m).
  { intros m [|Hm]%elem_of_app; [auto|]. unfold xread_own in Hm.
    apply list_elem_of_fmap in Hm as (e & -> & He). eapply msg_ok_read; [done|].
    apply elem_of_take in He as (k & Hk & _).
    apply list_elem_of_lookup_2, list_elem_of_filter in Hk as [_ Hk].
    eapply ri_pel; [done|]. apply list_elem_of_fmap. eauto. }
  case_match; [|done]. by apply IH.
Qed.

Lemma redis_inv_xack c r g id :
  redis_inv c r g -> accounted g id -> redis_inv c (xack id r) g.
Proof.
  intros [H1 H2 H3 H4 H5 H6 H7 H8 H9 H10 H12 H11] Ha. split; simpl; try done.
  - intros i (e & -> & He)%list_elem_of_fmap. apply list_elem_of_filter in He as [_ He].
    apply H7, list_elem_of_fmap. eauto.
  - intros i Hi. destruct (decide (i = id)) as [->|Hne]; [by right|].
    destruct (H11 i Hi) as [(e & -> & He)%list_elem_of_fmap|]; [left|by right].
    apply list_elem_of_fmap. exists e. split; [done|]. by apply list_elem_of_filter.
Qed.

Lemma attempts_insert r id v i :
  attempts_of (set_attempts (<[id := v]> (r_attempts r)) r) i =
  if decide (id = i) then v else attempts_of r i.
Proof. unfold attempts_of. simpl. rewrite lookup_insert. by case_decide. Qed.

Lemma attempts_delete r id i :
  attempts_of (set_attempts (delete id (r_attempts r)) r) i =
  if decide (id = i) then 0 else attempts_of r i.
Proof. unfold attempts_of. simpl. rewrite lookup_delete. by case_decide. Qed.

Lemma redis_inv_attempts c r g a :
  redis_inv c r g -> (forall id, 0 <= attempts_of (set_attempts a r) id <= fails_of g id) ->
  redis_inv c (set_attempts a r) g.
Proof. by intros []. Qed.

Lemma redis_inv_incr c r g id :
  redis_inv c r g -> attempts_of r id + 1 <= fails_of g id -> redis_inv c (incr id r) g.
Proof.
  intros Hr Ha. apply redis_inv_attempts; [done|]. intros i. rewrite attempts_insert.
  pose proof (ri_attempts c r g Hr i). unfold attempts_of in *. case_decide; subst; lia.
Qed.

Lemma redis_inv_del c r g id :
  redis_inv c r g -> redis_inv c (set_attempts (delete id (r_attempts r)) r) g.
Proof.
  intros Hr. apply redis_inv_attempts; [done|]. intros i. rewrite attempts_delete.
  pose proof (ri_attempts c r g Hr i). case_decide; subst; lia.
Qed.

(** The cap of the dead stream takes the oldest first and leaves the cap. *)
Lemma dead_ok_add dead all e trim :
  dead_ok dead all ->
  dead_ok (drop (min trim (length (dead ++ [e]) - DefaultMaxLen)) (dead ++ [e])) (all ++ [e]).
Proof.
  intros (k & -> & Hk). rewrite length_app, length_drop. simpl length.
  set (n := min _ _). exists (k + n)%nat. split.
  - rewrite <- drop_drop, (drop_app_le all); [done|]. destruct Hk as [->|]; lia.
  - rewrite length_app. simpl. unfold n. destruct Hk as [->|Hk]; lia.
Qed.

Lemma ghost_parked_le id d o g : ghost_le g (ghost_parked id d o g).
Proof.
  unfold ghost_parked. destruct (applied o); split; simpl; try done.
  intros x Hx. apply elem_of_app. by left.
Qed.

Lemma redis_inv_park c r g id d o trim :
  redis_inv c r g -> parked_ok c g id d ->
  redis_inv c (call o (xadd_dead id d trim) r) (ghost_parked id d o g).
Proof.
  intros Hr Hp. pose proof (ghost_parked_le id d o g) as Hle. revert Hle.
  unfold call, ghost_parked. destruct (applied o); [|done]. intros Hle.
  destruct Hr as [H1 H2 H3 H4 H5 H6 H7 H8 H9 H10 H12 H11]. split; simpl; try done.
  - intros i x [|Heq%list_elem_of_singleton]%elem_of_app; [|simplify_eq];
      (eapply parked_ok_mono; [exact Hle|auto]).
  - by apply dead_ok_add.
  - intros i Hi. destruct (H11 i Hi); [by left|right]. by eapply accounted_mono.
Qed.

Lemma redis_inv_done c r g d :
  redis_inv c r g -> d ⊆ g_ok g -> redis_inv c (set_done d r) g.
Proof. by intros []. Qed.

Lemma ghost_handled_le id h g : ghost_le g (ghost_handled id h g).
Proof.
  unfold ghost_handled. destruct (runHandler h); split; simpl; try done; [set_solver|].
  intros i. unfold fails_of. simpl. rewrite lookup_insert. case_decide; subst; simpl; lia.
Qed.

(** More successes and failures than before disturb nothing. *)
Lemma redis_inv_handled c r g id h : redis_inv c r g -> redis_inv c r (ghost_handled id h g).
Proof.
  intros Hr. pose proof (ghost_handled_le id h g) as Hle.
  assert (E : g_log (ghost_handled id h g) = g_log g /\ g_trim (ghost_handled id h g) = g_trim g /\
    g_dead (ghost_handled id h g) = g_dead g).
  { unfold ghost_handled. by destruct (runHandler h). }
  destruct E as (El & Et & Ed).
  destruct Hr as [H1 H2 H3 H4 H5 H6 H7 H8 H9 H10 H12 H11]. split; rewrite ?El, ?Et, ?Ed; try done.
  - etransitivity; [done|apply Hle].
  - intros i. pose proof (gl_fail _ _ Hle i). specialize (H9 i). lia.
  - intros i d Hi. by eapply parked_ok_mono, H10.
  - intros i Hi. destruct (H11 i Hi); [by left|right]. by eapply accounted_mono.
Qed.

(** One call of [process] keeps the account: an entry leaves the pending list
    only when it succeeded, is parked or was trimmed. *)
Lemma process_step_inv c m ph o h trim r g r' ph' :
  let id := m_ID m in
  let g' := ghost_task id ph o h g in
  process_step c m ph o h trim r = (r', ph') ->
  redis_inv c r g -> msg_ok g m -> phase_ok c r g id ph ->
  redis_inv c r' g' /\ ghost_le g g' /\
  (forall i, i <> id -> attempts_of r' i = attempts_of r i) /\
  (forall x, ph' = Some x -> phase_ok c r' g' id x).
Proof.
  intros id g' H Hr [Hid Hm] Hph. unfold process_step in H. fold id in H.
  destruct ph as [| |d|d|d| | | |]; simpl in *; subst g'; simplify_eq/=.
  5: { split_and!; [by apply redis_inv_park|apply ghost_parked_le|intros i Hi; unfold call; by destruct (applied o)|].
    intros x. destruct o; [|done..]. intros [= <-]. simpl. rewrite map_app. set_solver. }
  all: unfold call in *.
  - split_and!; try done. intros x [= <-]. unfold msgData.
    destruct (replied o && bool_decide (id ∈ r_done r')) eqn:E.
    + to_prop. by eapply ri_done.
    + destruct (m_data m); [done|]. right. by split.
  - destruct (applied o); split_and!; try done. apply redis_inv_xack; [done|by left].
  - split_and!; try done; [by apply redis_inv_handled|apply ghost_handled_le|].
    intros x [= <-]. unfold ghost_handled.
    destruct (runHandler h); simpl; [set_solver|]. split; [done|].
    pose proof (ri_attempts c r' g Hr id). unfold fails_of in *. simpl.
    rewrite lookup_insert_eq. simpl. lia.
  - destruct Hph as [Hl Ha]. split_and!; [|done| |].
    + destruct (applied o); [by apply redis_inv_incr|done].
    + intros i Hi. destruct (applied o); [|done]. unfold incr. rewrite attempts_insert.
      by case_decide.
    + intros x. destruct (_ <=? _) eqn:E; [|done]. intros [= <-]. left. split; [done|]. to_prop.
      pose proof (ri_attempts c r g Hr id). revert E. destruct o; simpl; [|lia..].
      rewrite lookup_insert_eq. simpl. unfold attempts_of in *. lia.
  - destruct (applied o); split_and!; try done; [apply redis_inv_xack; [done|right; by left]| |];
      intros x [= <-]; by right.
  - destruct (applied o); split_and!; try done; [|by intros x [= <-]..].
    apply redis_inv_done; [done|]. pose proof (ri_done c r g Hr). set_solver.
  - destruct (applied o); split_and!; try done; [apply redis_inv_xack; [done|by left]| |];
      intros x [= <-]; by left.
  - destruct (applied o); split_and!; try done; [by apply redis_inv_del|].
    intros i Hi. rewrite attempts_delete. by case_decide.
Qed.

Lemma running_distinct p i j t u :
  claims_ok p -> p_running p !! i = Some t -> p_running p !! j = Some u -> i <> j ->
  m_ID (t_msg t) <> m_ID (t_msg u).
Proof.
  intros [Hn _] Hi Hj Hne He. unfold held_ids, held in Hn. rewrite !map_app in Hn.
  apply NoDup_app in Hn as (_ & _ & Hn). apply NoDup_app in Hn as (_ & _ & Hn).
  apply NoDup_app in Hn as (_ & _ & Hn). rewrite map_map in Hn.
  apply Hne, (NoDup_lookup _ i j (m_ID (t_msg t)) Hn);
    change (map ?f) with (fmap (M:=list) f); rewrite list_lookup_fmap;
    [rewrite Hi|rewrite Hj, He]; done.
Qed.

Lemma queued_distinct p q m t :
  claims_ok p -> m ∈ queue_of q p -> t ∈ p_running p -> m_ID m <> m_ID (t_msg t).
Proof.
  intros [Hn _] Hm Ht He. unfold held_ids, held in Hn. rewrite !map_app in Hn.
  apply NoDup_app in Hn as (_ & _ & Hn). apply NoDup_app in Hn as (_ & HM & Hn).
  apply NoDup_app in Hn as (_ & HE & _).
  assert (Hr : m_ID m ∈ map m_ID (map t_msg (p_running p))).
  { rewrite He, map_map. apply list_elem_of_fmap. eauto. }
  assert (Hq : forall l, m ∈ l -> m_ID m ∈ map m_ID l).
  { intros l Hl. apply list_elem_of_fmap. eauto. }
  destruct q; simpl in Hm; [eapply HM|eapply HE|by apply elem_of_nil in Hm]; eauto.
  apply elem_of_app. by right.
Qed.

(** A step that leaves the workers where they are, or starts new ones. *)
Lemma qinv_env c s s' :
  qinv c s -> proc_ok c (s_proc s') -> redis_inv c (s_redis s') (s_ghost s') ->
  ghost_le (s_ghost s) (s_ghost s') ->
  (forall id, attempts_of (s_redis s') id <= attempts_of (s_redis s) id) ->
  (forall m, m ∈ p_reader (s_proc s') -> m ∈ p_reader (s_proc s) \/ msg_ok (s_ghost s') m) ->
  (forall m, m ∈ held (s_proc s') -> m ∈ held (s_proc s) \/ m ∈ p_reader (s_proc s)) ->
  (forall t, t ∈ p_running (s_proc s') -> t ∈ p_running (s_proc s) \/ t_phase t = PCheck) ->
  qinv c s'.
Proof.
  intros [_ _ Hrd Hh Ht] Hp Hr Hg Ha H1 H2 H3. split; try done.
  - intros m Hm. destruct (H1 m Hm); [|done]. eapply msg_ok_mono; eauto.
  - intros m Hm. eapply msg_ok_mono; [done|]. destruct (H2 m Hm); auto.
  - intros t Hin. unfold task_ok. destruct (H3 t Hin) as [Hold| ->]; [|done].
    eapply phase_ok_mono; eauto. by apply Ht.
Qed.

Lemma qinv_task c s i t o h trim r' ph :
  qinv c s -> p_running (s_proc s) !! i = Some t ->
  process_step c (t_msg t) (t_phase t) o h trim (s_redis s) = (r', ph) ->
  let id := m_ID (t_msg t) in
  let g' := ghost_task id (t_phase t) o h (s_ghost s) in
  redis_inv c r' g' /\
  (forall m, msg_ok (s_ghost s) m -> msg_ok g' m) /\
  (forall j u, p_running (s_proc s) !! j = Some u -> j <> i -> task_ok c r' g' u) /\
  (forall x, ph = Some x -> phase_ok c r' g' id x).
Proof.
  intros [Hp Hr Hrd Hh Ht] Hi Hs id g'.
  assert (Hm : msg_ok (s_ghost s) (t_msg t)).
  { apply Hh. unfold held. rewrite !elem_of_app. right; right; right.
    apply list_elem_of_fmap. exists t. split; [done|]. by eapply list_elem_of_lookup_2. }
  destruct (process_step_inv c (t_msg t) (t_phase t) o h trim (s_redis s) (s_ghost s) r' ph Hs Hr Hm)
    as (H1 & H2 & H4 & H5). { apply Ht. by eapply list_elem_of_lookup_2. }
  fold id in H1, H2, H4, H5. fold g' in H1, H2, H5. split_and!; try done.
  - intros m. by apply msg_ok_mono.
  - intros j u Hj Hne. unfold task_ok. eapply phase_ok_mono; [done| |].
    + rewrite H4; [done|]. eapply (running_distinct (s_proc s) j i); [apply Hp|done..].
    + apply Ht. by eapply list_elem_of_lookup_2.
Qed.

Lemma qinv_exec_task c i o h trim s s' :
  qexec c (LTask i o h trim) s = Some s' -> qinv c s -> qinv c s'.
Proof.
  intros H Hq. pose proof (proc_ok_exec _ _ _ _ H (qi_proc c s Hq)) as Hp'.
  simpl in H. destruct (p_running (s_proc s) !! i) as [t|] eqn:Hi; [|done].
  destruct (process_step c (t_msg t) (t_phase t) o h trim (s_redis s)) as [r' ph] eqn:Hs.
  destruct (qinv_task c s i t o h trim r' ph Hq Hi Hs) as (H1 & H2 & H3 & H4).
  injection H as <-. destruct Hq as [Hp Hr Hrd Hh Ht]. split; simpl in *; try done.
  - intros m Hm. apply H2, Hrd. by destruct ph.
  - intros m Hm. apply H2, Hh. destruct ph as [ph|].
    + by rewrite held_task_phase in Hm.
    + rewrite (held_task_done _ _ _ Hi). set_solver.
  - intros u Hu. destruct ph as [ph|].
    + apply list_elem_of_lookup in Hu as [j Hj]. simpl in Hj.
      apply list_lookup_insert_Some in Hj as [(<- & <- & _)|(Hne & Hj)].
      * by apply H4.
      * by eapply H3.
    + simpl in Hu. apply list_elem_of_lookup in Hu as [j Hj].
      destruct (decide (j < i)%nat).
      * rewrite list_lookup_delete_lt in Hj by done. eapply H3; [done|lia].
      * rewrite list_lookup_delete_ge in Hj by lia. eapply H3; [done|lia].
Qed.

Lemma held_send c m p p' x :
  p_hand p = Some m -> send c m p = Some p' -> x ∈ held p' -> x ∈ held p.
Proof.
  intros Hh H. unfold send in H. assert (Hp : held p ≡ₚ m :: held (set_hand None p)).
  { unfold held. by rewrite Hh. }
  set (q := route c m) in *. rewrite Hp.
  destruct (bool_decide _ && _); [|destruct (_ <? _)%nat eqn:E]; simplify_eq.
  - by rewrite held_begin.
  - apply Nat.ltb_lt in E. change (queue_of q p) with (queue_of q (set_hand None p)).
    rewrite held_enqueue; [done|]. intros ->. rewrite room_instant in E. lia.
Qed.

Lemma running_send c m p p' t :
  send c m p = Some p' -> t ∈ p_running p' -> t ∈ p_running p \/ t_phase t = PCheck.
Proof.
  unfold send. set (q := route c m). intros H. repeat case_match; simplify_eq; simpl.
  - intros [|Ht%list_elem_of_singleton]%elem_of_app; [by left|right]. by subst.
  - destruct q; simpl; auto.
Qed.

Lemma dispatch_held p b p' m ms x :
  p_reader p = m :: ms -> beginInflight (m_ID m) p = (b, p') ->
  x ∈ held (if b then set_hand (Some m) p' else p') -> x ∈ held p \/ x ∈ p_reader p.
Proof.
  unfold beginInflight. intros Hr H. rewrite Hr. case_decide; simplify_eq; [by left|].
  unfold held. simpl. rewrite !elem_of_cons, !elem_of_app. tauto.
Qed.

Lemma beginInflight_frame id p b p' :
  beginInflight id p = (b, p') -> p_running p' = p_running p /\ p_reader p' = p_reader p.
Proof. unfold beginInflight. case_decide; intros [= <- <-]; done. Qed.

Lemma qinv_exec c l s s' : qexec c l s = Some s' -> qinv c s -> qinv c s'.
Proof.
  intros H Hq. pose proof (proc_ok_exec _ _ _ _ H (qi_proc c s Hq)) as Hp'.
  pose proof (qi_redis c s Hq) as Hr. destruct s as [r p g]. simpl in Hr.
  destruct l as [payload trim| | |idle purge|ok| | |q|i o h trim| | |q| |id|id].
  9: by eapply qinv_exec_task.
  all: simpl in H.
  - apply fmap_Some in H as (r' & Hr' & ->).
    destruct (redis_inv_publish c payload trim r r' g Hr' Hr) as (H1 & H2 & H4).
    eapply (qinv_env c _ _ Hq); simpl; try done; [unfold attempts_of; by rewrite H4| | |]; auto.
  - case_match; [|done]. destruct (redis_inv_read c r g Me (c_Count c) Hr) as [H1 H2]. simplify_eq.
    by eapply (qinv_env c _ _ Hq); simpl; eauto.
  - destruct (redis_inv_read c r g Other (c_Count c) Hr) as [H1 _]. simplify_eq.
    by eapply (qinv_env c _ _ Hq); simpl; eauto.
  - case_match; [|done]. destruct (redis_inv_claim c r g idle purge (c_Count c) Hr) as [H1 H2].
    simplify_eq. by eapply (qinv_env c _ _ Hq); simpl; eauto.
  - case_match; [|done]. simplify_eq. eapply (qinv_env c _ _ Hq); simpl; eauto; try done.
    intros m Hm. right. eapply own_pages_ok; [done| |exact Hm]. intros x Hx. by apply elem_of_nil in Hx.
  - destruct (p_reader p) as [|m ms] eqn:Erd; [done|]. destruct (p_hand p) eqn:Eh; [done|].
    destruct (beginInflight (m_ID m) p) as [b p1] eqn:Eb. simplify_eq.
    destruct (beginInflight_frame _ _ _ _ Eb) as [Hrun _].
    eapply (qinv_env c _ _ Hq); simpl; try done.
    + intros x Hx. left. rewrite Erd. by right.
    + intros x Hx. eapply dispatch_held; eauto.
    + intros t Ht. left. rewrite <- Hrun. by destruct b.
  - destruct (p_hand p) as [m|] eqn:Eh; [|done]. apply fmap_Some in H as (p1 & Hs & ->).
    eapply (qinv_env c _ _ Hq); simpl; try done.
    + intros x Hx. left. revert Hx. unfold send in Hs. repeat case_match; simplify_eq; try done;
        by destruct (route c m).
    + intros x Hx. left. by eapply held_send.
    + intros t. by eapply running_send.
  - destruct (queue_of q p) as [|m ms] eqn:Em; [done|]. case_match; [|done]. simplify_eq.
    eapply (qinv_env c _ _ Hq); simpl; try done.
    + intros x Hx. left. by destruct q.
    + intros x. rewrite held_begin, <- (held_queue q p m ms Em). by left.
    + intros t. simpl. intros [|Ht%list_elem_of_singleton]%elem_of_app; [left; by destruct q|right].
      by subst.
  - simplify_eq. by eapply (qinv_env c _ _ Hq); simpl; eauto.
  - destruct (p_hand p) as [m|] eqn:Eh; [|done]. case_match; [|done]. simplify_eq.
    eapply (qinv_env c _ _ Hq); simpl; eauto; try done.
    + intros x Hx. by apply elem_of_nil in Hx.
    + intros x Hx. left. unfold held in *. simpl in *. set_solver.
  - destruct (queue_of q p) as [|m ms] eqn:Em; [done|]. case_match; [|done]. simplify_eq.
    eapply (qinv_env c _ _ Hq); simpl; eauto; try done.
    + intros x Hx. left. by destruct q.
    + intros x Hx. left. rewrite (held_queue q p m ms Em). right. by destruct q.
    + intros t Ht. left. by destruct q.
  - simplify_eq. eapply (qinv_env c _ _ Hq); simpl; eauto; try done; intros x Hx; by apply elem_of_nil in Hx.
  - simplify_eq. eapply (qinv_env c _ _ Hq); simpl; eauto; try done.
    apply redis_inv_done; [done|]. pose proof (ri_done c r g Hr). set_solver.
  - simplify_eq. eapply (qinv_env c _ _ Hq); simpl; eauto; try done; [by apply redis_inv_del|].
    intros x. rewrite attempts_delete. pose proof (ri_attempts c r g Hr x). case_decide; lia.
Qed.

Lemma qinv_init c : qinv c init_sys.
Proof.
  split; simpl; try (intros x Hx; by apply elem_of_nil in Hx); [apply proc_ok_idle|].
  assert (Hn : forall id : Z, ~ is_Some ((∅ : gmap Z string) !! id)).
  { intros id. rewrite lookup_empty. by intros []. }
  split; simpl; try done; try lia; try (exists 0%nat; by auto); intros id; try set_solver.
  - split; [by intros ?%Hn|lia].
Qed.

Lemma qinv_reachable c s : steps (qstep c) init_sys s -> qinv c s.
Proof.
  intros H. eapply steps_invariant; [|exact H|apply qinv_init].
  intros s1 s2 [l Hl] Hs. by eapply qinv_exec.
Qed.

(** A schedule is a list of labels. *)
Fixpoint run_labels (c : Consumer) (ls : list label) (s : sys) : option sys :=
  match ls with
  | [] => Some s
  | l :: ls => match qexec c l s with Some s' => run_labels c ls s' | None => None end
  end.

Lemma run_labels_steps c ls s s' : run_labels c ls s = Some s' -> steps (qstep c) s s'.
Proof.
  revert s. induction ls as [|l ls IH]; simpl; intros s H; [simplify_eq; constructor|].
  destruct (qexec c l s) as [s1|] eqn:E; [|done]. econstructor; [by exists l|auto].
Qed.

(** ** [process] with a Redis that answers

    At most six calls and handler runs: check, run, count, park, acknowledge,
    clean up. *)
Fixpoint process_fuel (fuel : nat) (c : Consumer) (m : msg) (ph : phase) (h : handler_result)
    (trim : nat) (r : redis) : option redis :=
  match fuel with
  | O => None
  | S fuel =>
      match process_step c m ph Replied h trim r with
      | (r', None) => Some r'
      | (r', Some ph') => process_fuel fuel c m ph' h trim r'
      end
  end.
Definition process (c : Consumer) (m : msg) (h : handler_result) (trim : nat) (r : redis)
    : option redis :=
  process_fuel 6 c m PCheck h trim r.

(** The entry parked on the dead stream and gone from the queue. *)
Definition parked (id : Z) (d : string) (trim : nat) (r : redis) : redis :=
  set_attempts (delete id (r_attempts r)) (xack id (xadd_dead id d trim r)).

(** Runs [process] past the check on a message whose data is known. *)
Ltac run_process Hd :=
  unfold process; simpl; rewrite bool_decide_false by done; unfold msgData; rewrite Hd; simpl.

Lemma process_dedup c m h trim r : m_ID m ∈ r_done r -> process c m h trim r = Some (xack (m_ID m) r).
Proof. intros H. unfold process. simpl. by rewrite bool_decide_true. Qed.

Lemma process_missing c m h trim r :
  m_ID m ∉ r_done r -> m_data m = None ->
  process c m h trim r = Some (parked (m_ID m) missing_data trim r).
Proof. intros H Hd. by run_process Hd. Qed.

Lemma process_success c m d trim r :
  m_ID m ∉ r_done r -> m_data m = Some d ->
  process c m ReturnedNil trim r =
  Some (set_attempts (delete (m_ID m) (r_attempts r))
          (xack (m_ID m) (set_done ({[m_ID m]} ∪ r_done r) r))).
Proof. intros H Hd. by run_process Hd. Qed.

Lemma process_failure c m d h trim r :
  m_ID m ∉ r_done r -> m_data m = Some d -> h <> ReturnedNil ->
  process c m h trim r =
  Some (if c_MaxDeliveries c <=? attempts_of r (m_ID m) + 1
        then parked (m_ID m) d trim (incr (m_ID m) r) else incr (m_ID m) r).
Proof.
  intros H Hd Hh. run_process Hd. replace (runHandler h) with false by by destruct h. simpl.
  rewrite lookup_insert_eq. simpl. fold (attempts_of r (m_ID m)).
  by destruct (_ <=? _).
Qed.

(** The same message delivered [n] times to a handler that always fails. *)
Fixpoint deliveries (n : nat) (c : Consumer) (m : msg) (h : handler_result) (trim : nat)
    (r : redis) : option redis :=
  match n with
  | O => Some r
  | S n => match process c m h trim r with Some r' => deliveries n c m h trim r' | None => None end
  end.

Lemma incr_incr id r n :
  incr id (set_attempts (<[id := n]> (r_attempts r)) r) =
  set_attempts (<[id := n + 1]> (r_attempts r)) r.
Proof. unfold incr. simpl. by rewrite lookup_insert_eq, insert_insert_eq. Qed.

(** State after [n] failures short of the limit. *)
Definition failed (id : Z) (n : nat) (r : redis) : redis :=
  match n with
  | O => r
  | S _ => set_attempts (<[id := Z.of_nat n]> (r_attempts r)) r
  end.

Lemma failed_attempts id n r :
  r_attempts r !! id = None -> attempts_of (failed id n r) id = Z.of_nat n.
Proof.
  intros H. destruct n; simpl; [by unfold attempts_of; rewrite H|].
  rewrite attempts_insert. by case_decide.
Qed.

Lemma incr_failed id n r :
  r_attempts r !! id = None -> incr id (failed id n r) = failed id (S n) r.
Proof.
  intros H. destruct n; [unfold incr; simpl; by rewrite H|].
  unfold failed at 1. rewrite incr_incr. simpl. do 2 f_equal. lia.
Qed.

Lemma parked_failed id d n trim r :
  r_attempts r !! id = None -> parked id d trim (failed id n r) = parked id d trim r.
Proof.
  intros H. unfold parked, xack, xadd_dead. destruct n; [done|]. simpl. by rewrite delete_insert_eq, !delete_id.
Qed.

Lemma deliveries_failing c m d h n trim r :
  m_ID m ∉ r_done r -> m_data m = Some d -> h <> ReturnedNil ->
  r_attempts r !! m_ID m = None -> forall k, (Z.of_nat (k + n) < c_MaxDeliveries c) ->
  deliveries n c m h trim (failed (m_ID m) k r) = Some (failed (m_ID m) (k + n) r).
Proof.
  intros Hdone Hd Hh Ha. induction n as [|n IH]; intros k Hk; simpl; [by rewrite Nat.add_0_r|].
  rewrite (process_failure c m d) by (done || by destruct k).
  rewrite failed_attempts by done. destruct (Z.leb_spec (c_MaxDeliveries c) (Z.of_nat k + 1)); [lia|].
  rewrite incr_failed, IH by (done || lia). do 2 f_equal. lia.
Qed.

Lemma deliveries_app n k c m h trim r :
  deliveries (n + k) c m h trim r =
  match deliveries n c m h trim r with Some r' => deliveries k c m h trim r' | None => None end.
Proof.
  revert r. induction n as [|n IH]; intros r; simpl; [done|].
  by destruct (process c m h trim r).
Qed.

(** The cap never takes the entry that was just added. *)
Lemma xadd_dead_in id d trim r : (id, d) ∈ r_dead (xadd_dead id d trim r).
Proof.
  unfold xadd_dead. simpl. rewrite length_app. simpl length.
  assert (1 <= DefaultMaxLen)%nat by (apply Nat.leb_le; by vm_compute).
  rewrite drop_app_le by lia. set_solver.
Qed.

(** A message that was parked is still on the dead stream, or the cap has
    pushed it out. *)
Lemma dead_ok_in dead all id :
  dead_ok dead all -> id ∈ map fst all ->
  id ∈ map fst dead \/
  exists n, (map fst all !! n = Some id /\ n + DefaultMaxLen < length all)%nat.
Proof.
  intros (k & -> & Hk) [n Hn]%list_elem_of_lookup. destruct (decide (k <= n)%nat).
  - left. apply list_elem_of_lookup. exists (n - k)%nat.
    change (map fst (drop k all)) with (fst <$> drop k all).
    rewrite fmap_drop, lookup_drop. by replace (k + (n - k))%nat with n by lia.
  - right. exists n. split; [done|]. lia.
Qed.

(** ** Lemmas: listing the own pending entries *)

Definition own_of (r : redis) : list (Z * owner) := filter (fun e => e.2 = Me) (r_pel r).
Definition as_msg (r : redis) (e : Z * owner) : msg := mkMsg e.1 (r_data r e.1).

Lemma filter_after {A} (l1 l2 : list (Z * A)) e :
  StronglySorted by_id (l1 ++ e :: l2) ->
  filter (fun x => e.1 < x.1) (l1 ++ e :: l2) = l2.
Proof.
  intros (H1 & _ & H2)%StronglySorted_app. apply StronglySorted_cons in H2 as [H2 _].
  rewrite Forall_forall in H2. rewrite filter_app, filter_cons, decide_False by lia.
  rewrite (filter_keep_all _ l2) by (intros x Hx; by apply H2).
  rewrite filter_drop_all; [done|]. intros x Hx.
  specialize (H1 x e Hx ltac:(set_solver)). unfold by_id in H1. lia.
Qed.

Lemma xread_own_eq after n r :
  xread_own after n r = map (as_msg r) (take n (filter (fun e => after < e.1) (own_of r))).
Proof.
  unfold xread_own, own_of. f_equal. f_equal. rewrite list_filter_filter.
  apply list_filter_iff. tauto.
Qed.

(** Reading on after the entries [l1] gives the next page of the rest. *)
Lemma own_pages_rest c r pages page l1 l2 after out :
  StronglySorted by_id (own_of r) -> own_of r = l1 ++ l2 -> (c_Count c > 0)%nat ->
  filter (fun e => after < e.1) (own_of r) = l2 ->
  own_pages c r (fun _ => true) pages page after out =
  out ++ map (as_msg r) (take (pages * c_Count c) l2).
Proof.
  intros Hs Hl Hc. revert page l1 l2 after out Hl.
  induction pages as [|pages IH]; intros page l1 l2 after out Hl Hf; simpl; [by rewrite app_nil_r|].
  rewrite xread_own_eq, Hf. change (map (as_msg r)) with (fmap (M:=list) (as_msg r)). rewrite fmap_last.
  destruct (last (take (c_Count c) l2)) as [e|] eqn:El; simpl.
  - apply last_Some in El as [l' El].
    assert (Hsplit : l2 = l' ++ e :: drop (c_Count c) l2).
    { rewrite <- (take_drop (c_Count c) l2) at 1. rewrite El. by rewrite <- app_assoc. }
    rewrite (IH _ (l1 ++ l' ++ [e]) (drop (c_Count c) l2)).
    + rewrite <- app_assoc. f_equal. rewrite <- map_app. f_equal.
      rewrite take_take_drop. done.
    + rewrite Hl, Hsplit at 1. by rewrite <- !app_assoc.
    + revert Hs. rewrite Hl, Hsplit at 1 2. intros Hs. rewrite app_assoc in Hs |- *.
      by apply filter_after.
  - apply last_None in El. rewrite El, app_nil_r. destruct l2; [by rewrite take_nil, app_nil_r|].
    destruct (c_Count c); [lia|done].
Qed.

(** ** A concrete run

    Two messages; the worker dies in the middle of the first one, a restart
    recovers it from the pending list, and both are handled. *)
Definition sample_consumer : Consumer := mkConsumer 16 2 1 None 0 None.
Definition ok_calls (n : nat) : list label := repeat (LTask 0 Replied ReturnedNil 0) n.
Definition sample_run : list label :=
  [LPublish "stop" 0; LPublish "backup" 0; LRead; LDispatch; LSend;
   LTask 0 Replied ReturnedNil 0; LCrash; LOwn (fun _ => true); LDispatch; LSend]
  ++ ok_calls 5 ++ [LDispatch; LSend; LTask 0 Replied ReturnedErr 0; LTask 0 Replied ReturnedErr 0].

(** Recovery lists a message whose handler is still running, twice. *)
Definition busy_run : list label :=
  [LPublish "stop" 0; LRead; LDispatch; LSend; LTask 0 Replied ReturnedNil 0;
   LOwn (fun _ => true); LDispatch; LClaim [1] true; LDispatch].

(** A handler panics on a message, and then fails on it once more. *)
Definition poison_run : list label :=
  [LPublish "bad" 0; LRead; LDispatch; LSend]
  ++ [LTask 0 Replied Panicked 0; LTask 0 Replied Panicked 0; LTask 0 Replied Panicked 0]
  ++ [LOwn (fun _ => true); LDispatch; LSend]
  ++ repeat (LTask 0 Replied ReturnedErr 0) 6.

(** ** Properties *)

(** C19: at least once. In every reachable state, after any interleaving of
    publishing, reads, recoveries, worker steps, lost replies, failed calls,
    expiries, crashes and cancellations, every message ever published is still
    in the stream waiting to be delivered, or pending in the group, or a
    handler has returned nil for it, or it is on the dead stream. There are
    two exceptions: a message that 10,000 newer ones have pushed out of the
    capped stream, and a message that was parked and that 10,000 messages
    parked after it have pushed out of the dead stream, which has the same cap.
    Redis itself keeps what it holds: a server that loses its memory loses its
    streams. *)
Theorem no_message_lost c s :
  steps (qstep c) init_sys s ->
  forall id payload, g_log (s_ghost s) !! id = Some payload ->
    (r_last (s_redis s) < id /\ (id, payload) ∈ r_stream (s_redis s)) \/
    id ∈ map fst (r_pel (s_redis s)) \/ id ∈ g_ok (s_ghost s) \/
    id ∈ map fst (r_dead (s_redis s)) \/
    id + Z.of_nat DefaultMaxLen < r_next (s_redis s) \/
    (exists n, map fst (g_dead (s_ghost s)) !! n = Some id /\
       n + DefaultMaxLen < length (g_dead (s_ghost s)))%nat.
Proof.
  intros Hs id payload Hid. destruct (qi_redis c s (qinv_reachable c s Hs)).
  assert (Hdom : 1 <= id < r_next (s_redis s)) by (apply ri_dom0; eauto).
  destruct (decide (r_last (s_redis s) < id)) as [Hlt|Hle].
  - destruct (ri_kept0 id) as [(e & -> & He)%list_elem_of_fmap|Ht]; [eauto| |].
    + left. split; [done|]. destruct e as [i x]. simpl in *.
      rewrite (ri_log0 i x He) in Hid. by simplify_eq.
    + right; right; right; right; left. auto.
  - destruct (ri_safe0 id) as [|[|[Hd|]]]; [lia|auto..| |].
    + destruct (dead_ok_in _ _ id ri_newest0 Hd); tauto.
    + right; right; right; right; left. auto.
Qed.

Lemma no_message_lost_witness :
  exists s, run_labels sample_consumer sample_run init_sys = Some s /\
    1 ∈ g_ok (s_ghost s) /\ (2, Me) ∈ r_pel (s_redis s) /\
    ((r_last (s_redis s) < 2 /\ (2, "backup") ∈ r_stream (s_redis s)) \/
     2 ∈ map fst (r_pel (s_redis s)) \/ 2 ∈ g_ok (s_ghost s) \/
     2 ∈ map fst (r_dead (s_redis s)) \/ 2 + Z.of_nat DefaultMaxLen < r_next (s_redis s) \/
     (exists n, map fst (g_dead (s_ghost s)) !! n = Some 2%Z /\
        n + DefaultMaxLen < length (g_dead (s_ghost s)))%nat).
Proof.
  eexists. split; [by vm_compute|]. split_and!.
  - apply (bool_decide_unpack _). by vm_compute.
  - apply (bool_decide_unpack _). by vm_compute.
  - refine (no_message_lost sample_consumer _ _ 2 "backup" _).
    + apply (run_labels_steps _ sample_run). by vm_compute.
    + by vm_compute.
Defined.

(** C33: live work is never raced by recovery. In every reachable state the
    workers of the process hold different messages, so no message is being
    handled twice at once, however often recovery lists it; a message waiting
    for a worker is not also being handled; and no pool runs more handlers
    than it has workers, nor queues more than its backlog. *)
Theorem never_handled_twice_at_once c s :
  steps (qstep c) init_sys s ->
  (forall i j t u, p_running (s_proc s) !! i = Some t -> p_running (s_proc s) !! j = Some u ->
     m_ID (t_msg t) = m_ID (t_msg u) -> i = j) /\
  (forall q m t, m ∈ queue_of q (s_proc s) -> t ∈ p_running (s_proc s) -> m_ID m <> m_ID (t_msg t)) /\
  (forall q, (busy q (s_proc s) <= workers c q)%nat /\
             (length (queue_of q (s_proc s)) <= room c q)%nat).
Proof.
  intros Hs. destruct (qi_proc c s (qinv_reachable c s Hs)) as [Hc Hq]. split_and!; [| |done].
  - intros i j t u Hi Hj He. destruct (decide (i = j)); [done|].
    by destruct (running_distinct _ _ _ _ _ Hc Hi Hj).
  - intros q m t Hm Ht. by eapply queued_distinct.
Qed.

Lemma never_handled_twice_at_once_witness :
  exists s, run_labels sample_consumer busy_run init_sys = Some s /\
    p_running (s_proc s) = [mkTask (mkMsg 1 (Some "stop")) MainPool (PRun "stop")] /\
    (busy MainPool (s_proc s) <= workers sample_consumer MainPool)%nat.
Proof.
  eexists. split; [by vm_compute|]. split; [by vm_compute|].
  refine (proj1 (proj2 (proj2 (never_handled_twice_at_once sample_consumer _ _)) MainPool)).
  apply (run_labels_steps _ busy_run). by vm_compute.
Defined.

(** the dead stream can be trusted. In every reachable state an entry of
    the dead stream either carries the exact payload published under its id,
    and a handler has failed on it at least MaxDeliveries times, or carries
    the placeholder because the capped stream had dropped the payload. *)
Lemma dead_stream_discipline c s id d :
  steps (qstep c) init_sys s -> (id, d) ∈ r_dead (s_redis s) ->
  (g_log (s_ghost s) !! id = Some d /\ c_MaxDeliveries c <= fails_of (s_ghost s) id) \/
  (d = missing_data /\ id + Z.of_nat DefaultMaxLen < r_next (s_redis s)).
Proof.
  intros Hs Hd. pose proof (qi_redis c s (qinv_reachable c s Hs)) as Hr.
  destruct (ri_newest c _ _ Hr) as (k & Hk & _). rewrite Hk in Hd.
  destruct (ri_dead c _ _ Hr id d (subseteq_drop k _ _ Hd)) as [|[Hm Ht]]; [by left|right].
  split; [done|]. by eapply ri_trim.
Qed.

Lemma dead_stream_discipline_witness :
  exists s, run_labels sample_consumer poison_run init_sys = Some s /\
    r_dead (s_redis s) = [(1, "bad")] /\ r_pel (s_redis s) = [] /\
    ((g_log (s_ghost s) !! 1 = Some "bad" /\ 2 <= fails_of (s_ghost s) 1) \/
     ("bad" = missing_data /\ 1 + Z.of_nat DefaultMaxLen < r_next (s_redis s))).
Proof.
  eexists. split; [by vm_compute|]. split; [by vm_compute|]. split; [by vm_compute|].
  refine (dead_stream_discipline sample_consumer _ 1 "bad" _ _).
  - apply (run_labels_steps _ poison_run). by vm_compute.
  - apply (bool_decide_unpack _). by vm_compute.
Defined.

(** C32: a poison message cannot wedge the queue, and a passing failure does
    not kill a message. With a Redis that answers, a handler that keeps
    failing or panicking on a message leaves it pending and unparked for every
    delivery before the MaxDeliveries-th, and that one parks the payload,
    acknowledges the entry and clears the counter, and however many older
    entries the cap of the dead stream pushes out, the new one is on it; a message already marked
    done is acknowledged without running the handler again. *)
Theorem poison_message_parked c m d h trim r n :
  c_MaxDeliveries c = Z.of_nat (S n) -> m_ID m ∉ r_done r -> m_data m = Some d ->
  h <> ReturnedNil -> r_attempts r !! m_ID m = None ->
  (forall k, (k <= n)%nat -> exists r', deliveries k c m h trim r = Some r' /\
     r_pel r' = r_pel r /\ r_dead r' = r_dead r) /\
  deliveries (S n) c m h trim r = Some (parked (m_ID m) d trim r) /\
  (m_ID m, d) ∈ r_dead (parked (m_ID m) d trim r) /\
  m_ID m ∉ map fst (r_pel (parked (m_ID m) d trim r)) /\
  (forall h', process c m h' trim (set_done ({[m_ID m]} ∪ r_done r) r) =
     Some (xack (m_ID m) (set_done ({[m_ID m]} ∪ r_done r) r))).
Proof.
  intros Hmax Hdone Hd Hh Ha.
  assert (Hk : forall k, (k <= n)%nat -> deliveries k c m h trim r = Some (failed (m_ID m) k r)).
  { intros k Hk. apply (deliveries_failing c m d h k trim r Hdone Hd Hh Ha 0). lia. }
  split_and!.
  - intros k Hle. rewrite (Hk k Hle). eexists. split; [done|]. by destruct k.
  - replace (S n) with (n + 1)%nat by lia. rewrite deliveries_app, (Hk n) by lia. simpl.
    rewrite (process_failure c m d) by (done || by destruct n). rewrite failed_attempts by done.
    destruct (Z.leb_spec (c_MaxDeliveries c) (Z.of_nat n + 1)); [|lia].
    by rewrite incr_failed, parked_failed.
  - apply xadd_dead_in.
  - intros (e & He & Hin)%list_elem_of_fmap. by apply list_elem_of_filter in Hin as [? _].
  - intros h'. apply process_dedup. simpl. set_solver.
Qed.

Lemma poison_message_parked_witness :
  let r := mkRedis 2 [(1, "bad")] 1 [(1, Me)] ∅ ∅ [] in
  deliveries 5 NewConsumer (mkMsg 1 (Some "bad")) Panicked 0 r = Some (parked 1 "bad" 0 r) /\
  r_dead (parked 1 "bad" 0 r) = [(1, "bad")].
Proof.
  split; [|by vm_compute].
  refine (proj1 (proj2 (poison_message_parked NewConsumer (mkMsg 1 (Some "bad")) "bad" Panicked 0
    (mkRedis 2 [(1, "bad")] 1 [(1, Me)] ∅ ∅ []) 4 _ _ _ _ _))); done || set_solver.
Defined.

(** recovery sees every page. When every read answers and the pending
    list is in id order, [ownPending] returns this consumer's pending entries,
    in order and with their payloads, up to 64 pages of them: all of them
    whenever there are no more than 64 times [Count]. *)
Lemma ownPending_complete c r :
  StronglySorted by_id ((0, Me) :: own_of r) -> (c_Count c > 0)%nat ->
  ownPending c r (fun _ => true) = map (as_msg r) (take (64 * c_Count c) (own_of r)).
Proof.
  intros [H0 Hs]%StronglySorted_cons Hc. unfold ownPending.
  rewrite (own_pages_rest c r maxPendingPages 0 [] (own_of r)); try done.
  apply filter_keep_all. rewrite Forall_forall in H0. exact H0.
Qed.

Lemma ownPending_complete_witness :
  let r := mkRedis 4 [(1, "a"); (2, "b"); (3, "c")] 3 [(1, Me); (2, Other); (3, Me)] ∅ ∅ [] in
  let c := mkConsumer 1 5 1 None 0 None in
  ownPending c r (fun _ => true) = [mkMsg 1 (Some "a"); mkMsg 3 (Some "c")].
Proof.
  refine (ownPending_complete (mkConsumer 1 5 1 None 0 None)
    (mkRedis 4 [(1, "a"); (2, "b"); (3, "c")] 3 [(1, Me); (2, Other); (3, Me)] ∅ ∅ []) _ _).
  - repeat constructor.
  - simpl. lia.
Defined.
