(* ===== verification/PortManager.v ===== *)
(** * Host-port ledger of a node (node/port_mgr.go, node/port_range.go)

    [PortManager] hands out the host ports of PORT_RANGE, keeps them in an
    in-memory index from port to server, and mirrors every allocation in Redis
    as a per-server key and a hash field. The file models the ledger with both
    Redis records, every operation on them with the Redis transaction working,
    failing or losing its reply, the load at start, the adoption of the ports
    running containers bind, and the parsing of PORT_RANGE. A Go map is ranged
    over in any order, so the order is an argument where it matters. *)

From S2P Require Import Prelude GoStrings.
From Stdlib Require Import Ascii.
Open Scope string_scope.
Open Scope list_scope.
Open Scope Z_scope.

(** ** PORT_RANGE (port_range.go) *)

Definition defaultPortRangeStart : Z := 25600.
Definition defaultPortRangeEnd : Z := 25699.

Definition parsePortRange (raw : string) : (Z * Z) + string :=
  match Cut "-"%char raw with
  | None => inr ("expected " +:+ dq +:+ "start-end" +:+ dq)
  | Some (first, last) =>
      match Atoi (TrimSpace first) with
      | None => inr "start is not a number"
      | Some start =>
          match Atoi (TrimSpace last) with
          | None => inr "end is not a number"
          | Some stop =>
              if (start <? 1) || (65535 <? start) || (stop <? 1) || (65535 <? stop)
              then inr "ports must be within 1-65535"
              else if stop <? start
              then inr ("end " +:+ Itoa stop +:+ " is below start " +:+ Itoa start)
              else inl (start, stop)
          end
      end
  end.

(** The notice for an unusable value; [quoted] is the value in Go's [%q]. *)
Definition invalid_notice (quoted err : string) : string :=
  "PORT_RANGE " +:+ quoted +:+ " is invalid (" +:+ err +:+ "), using the default range " +:+
  Itoa defaultPortRangeStart +:+ "-" +:+ Itoa defaultPortRangeEnd.

Definition moved_notice : string :=
  "PORT_RANGE_START/PORT_RANGE_END are no longer read - set PORT_RANGE=" +:+
  Itoa defaultPortRangeStart +:+ "-" +:+ Itoa defaultPortRangeEnd +:+
  " instead; using the default range".

(** [getenv] is the environment, [quote] Go's [%q] of a string. *)
Definition resolvePortRange (getenv : string -> string) (quote : string -> string)
    : Z * Z * string :=
  let raw := TrimSpace (getenv "PORT_RANGE") in
  if (raw =? "")%string then
    if negb (getenv "PORT_RANGE_START" =? "")%string || negb (getenv "PORT_RANGE_END" =? "")%string
    then (defaultPortRangeStart, defaultPortRangeEnd, moved_notice)
    else (defaultPortRangeStart, defaultPortRangeEnd, "")
  else
    match parsePortRange raw with
    | inr err => (defaultPortRangeStart, defaultPortRangeEnd, invalid_notice (quote raw) err)
    | inl (s, e) => (s, e, "")
    end.

(** ** The ledger (port_mgr.go) *)

Record PortManager := mkPM {
  rangeStart : Z;
  rangeEnd : Z;
  usedPorts : gmap Z string;         (* port -> serverUUID *)
  rdb_keys : gmap string string;     (* dylaris:node:<id>:port:<uuid> *)
  rdb_ports : gmap string string }.  (* the hash dylaris:node:<id>:ports *)

Definition set_used (u : gmap Z string) (pm : PortManager) : PortManager :=
  mkPM (rangeStart pm) (rangeEnd pm) u (rdb_keys pm) (rdb_ports pm).
Definition set_rdb (k h : gmap string string) (pm : PortManager) : PortManager :=
  mkPM (rangeStart pm) (rangeEnd pm) (usedPorts pm) k h.

(** [persist] and [forget]: one transaction on both records. *)
Definition persist (o : outcome) (uuid : string) (port : Z) (pm : PortManager)
    : PortManager * bool :=
  (if applied o then set_rdb (<[uuid := Itoa port]> (rdb_keys pm))
                             (<[uuid := Itoa port]> (rdb_ports pm)) pm else pm,
   replied o).
Definition forget (o : outcome) (uuid : string) (pm : PortManager) : PortManager * bool :=
  (if applied o then set_rdb (delete uuid (rdb_keys pm)) (delete uuid (rdb_ports pm)) pm else pm,
   replied o).

(** The first entry of the index whose value is the server, in the order the
    range statement happens to visit it. *)
Definition port_of (uuid : string) (used : gmap Z string) : option Z :=
  fst <$> find (fun e => (e.2 =? uuid)%string) (map_to_list used).

Definition GetPort (uuid : string) (pm : PortManager) : Z :=
  default 0 (port_of uuid (usedPorts pm)).

Definition Snapshot (pm : PortManager) : gmap string Z :=
  list_to_map (map (fun e => (e.2, e.1)) (map_to_list (usedPorts pm))).

(** The node's own listeners, by the variable that moves them. *)
Definition own_listeners : list (string * string) :=
  [("SFTP_PORT", "25520"); ("BEAM_GRPC_PORT", "25521"); ("MIGRATION_PORT", "25522");
   ("BEAM_LAN_PORT", "25523")].

Definition hostPortProblem (getenv : string -> string) (port : Z) : string :=
  if (port <? 1024) || (65535 <? port)
  then "host port " +:+ Itoa port +:+ " is outside 1024-65535"
  else
    match find (fun l => let v := getenv l.1 in
                         (Itoa port =? (if (v =? "")%string then l.2 else v))%string)
               own_listeners with
    | Some l => "host port " +:+ Itoa port +:+ " is the node's own " +:+ l.1
    | None => ""
    end.

Inductive port_error :=
| ErrExhausted (first last : Z)
| ErrPersist
| ErrTaken (port : Z) (uuid : string)
| ErrProblem (msg : string).

Definition candidates (pm : PortManager) : list Z :=
  map (fun i => rangeStart pm + Z.of_nat i)
    (seq 0 (Z.to_nat (rangeEnd pm - rangeStart pm + 1))).

(** [shuffle] is the identity in sequential mode and [rand.Shuffle]'s
    permutation in random mode. *)
Definition AllocatePort (getenv : string -> string) (shuffle : list Z -> list Z) (o : outcome)
    (uuid : string) (pm : PortManager) : (Z + port_error) * PortManager :=
  match port_of uuid (usedPorts pm) with
  | Some port => (inl port, pm)
  | None =>
      match find (fun port => (hostPortProblem getenv port =? "")%string &&
                              bool_decide (usedPorts pm !! port = None))
                 (shuffle (candidates pm)) with
      | None => (inr (ErrExhausted (rangeStart pm) (rangeEnd pm)), pm)
      | Some port =>
          let '(pm, ok) := persist o uuid port pm in
          if ok then (inl port, set_used (<[port := uuid]> (usedPorts pm)) pm)
          else (inr ErrPersist, pm)
      end
  end.

(** The flag says whether a retry of the release was started. *)
Definition ReleasePort (o : outcome) (uuid : string) (pm : PortManager) : PortManager * bool :=
  match port_of uuid (usedPorts pm) with
  | None => (pm, false)
  | Some port =>
      let '(pm, ok) := forget o uuid pm in
      (set_used (delete port (usedPorts pm)) pm, negb ok)
  end.

(** The first entry of the server on another port goes. *)
Definition drop_other (uuid : string) (port : Z) (used : gmap Z string) : gmap Z string :=
  match find (fun e => (e.2 =? uuid)%string && negb (e.1 =? port)) (map_to_list used) with
  | Some e => delete e.1 used
  | None => used
  end.

Definition SetPort (o : outcome) (uuid : string) (port : Z) (pm : PortManager)
    : option port_error * PortManager :=
  let taken := match usedPorts pm !! port with
               | Some existing => if (existing =? uuid)%string then None else Some existing
               | None => None
               end in
  match taken with
  | Some existing => (Some (ErrTaken port existing), pm)
  | None =>
      let '(pm, ok) := persist o uuid port pm in
      if ok then (None, set_used (<[port := uuid]> (drop_other uuid port (usedPorts pm))) pm)
      else (Some ErrPersist, pm)
  end.

(** *** Adoption

    [order] lists the bindings in the order the range visits them; [io] is
    what the transaction for a server does. *)
Definition adopt_one (io : string -> outcome) (pm : PortManager) (b : string * Z) : PortManager :=
  let '(uuid, port) := b in
  if port <=? 0 then pm
  else if GetPort uuid pm =? port then pm
  else (SetPort (io uuid) uuid port pm).2.

Definition AdoptExistingBindings (io : string -> outcome) (order : list (string * Z))
    (pm : PortManager) : PortManager := foldl (adopt_one io) pm order.

Definition bound (bindings : list (string * Z)) (uuid : string) : Z :=
  default 0 ((list_to_map bindings : gmap string Z) !! uuid).

(** A recorded owner that does not bind the port gives way. *)
Definition give_way (io : string -> outcome) (bindings : list (string * Z)) (pm : PortManager)
    (b : string * Z) : PortManager :=
  let '(uuid, port) := b in
  match usedPorts pm !! port with
  | None => pm
  | Some owner =>
      if (owner =? uuid)%string || (bound bindings owner =? port) then pm
      else
        let pm := set_used (delete port (usedPorts pm)) pm in
        if bound bindings owner =? 0 then (forget (io owner) owner pm).1 else pm
  end.

(** The two range statements visit the bindings independently. *)
Definition AdoptContainerBindings (io : string -> outcome) (order1 order2 : list (string * Z))
    (pm : PortManager) : PortManager :=
  AdoptExistingBindings io order2 (foldl (give_way io order1) pm order1).

(** *** Loading at start

    [scan] is the per-server keys with the values read, when SCAN works. *)
Definition load_entry (used : gmap Z string) (e : string * string) : gmap Z string :=
  match Atoi e.2 with Some port => <[port := e.1]> used | None => used end.

Definition rebuildFromScan (o : outcome) (found : list (string * string)) (pm : PortManager)
    : PortManager :=
  let numeric := filter (fun e => is_Some (Atoi e.2)) found in
  let pm := set_used (foldl load_entry (usedPorts pm) found) pm in
  if applied o then set_rdb (rdb_keys pm) (list_to_map numeric) pm else pm.

Definition loadFromRedis (scan : bool) (o : outcome) (keys fields : list (string * string))
    (pm : PortManager) : PortManager :=
  if scan then rebuildFromScan o keys pm
  else if replied o then set_used (foldl load_entry (usedPorts pm) fields) pm
  else pm.

Definition NewPortManager (start stop : Z) (k h : gmap string string) (scan : bool) (o : outcome)
    : PortManager :=
  loadFromRedis scan o (map_to_list k) (map_to_list h) (mkPM start stop ∅ k h).

(** *** A release that has to be repeated

    One round of [retryForget]: done, or once more. *)
Definition retry_round (o : outcome) (uuid : string) (pm : PortManager) : PortManager * bool :=
  match port_of uuid (usedPorts pm) with
  | Some _ => (pm, true)
  | None => let '(pm, ok) := forget o uuid pm in (pm, ok)
  end.

(** *** A port that a config change carries *)
Definition claimHostPort (getenv : string -> string) (gateway has_mgr : bool) (o : outcome)
    (uuid : string) (port : Z) (pm : PortManager) : option port_error * PortManager :=
  if gateway || negb has_mgr || (port <=? 0) || (port =? GetPort uuid pm) then (None, pm)
  else
    let problem := hostPortProblem getenv port in
    if negb (problem =? "")%string then (Some (ErrProblem problem), pm)
    else SetPort o uuid port pm.

(** ** Lemmas: the index *)

(** A server has at most one port. *)
Definition one_port (used : gmap Z string) : Prop :=
  forall p q u, used !! p = Some u -> used !! q = Some u -> p = q.

Lemma one_port_NoDup used : NoDup (map snd (map_to_list used)) -> one_port used.
Proof.
  intros Hn p q u Hp%elem_of_map_to_list Hq%elem_of_map_to_list.
  apply list_elem_of_lookup in Hp as [i Hi], Hq as [j Hj].
  assert (i = j) as ->; [|by simplify_eq].
  apply (NoDup_lookup _ i j u Hn); change (map ?f) with (fmap (M:=list) f);
    rewrite list_lookup_fmap; [by rewrite Hi|by rewrite Hj].
Qed.

Lemma port_of_Some u used p : port_of u used = Some p -> used !! p = Some u.
Proof.
  unfold port_of. intros ([k v] & Hf & ->)%fmap_Some. apply find_some in Hf as [Hin He].
  apply list_elem_of_In, elem_of_map_to_list in Hin. simpl in *. to_prop. by subst.
Qed.

Lemma port_of_None u used : port_of u used = None -> forall p, used !! p <> Some u.
Proof.
  unfold port_of. intros Hf%fmap_None p Hp.
  assert (Hin : In (p, u) (map_to_list used)) by (by apply list_elem_of_In, elem_of_map_to_list).
  apply (find_none _ _ Hf) in Hin. simpl in Hin. by rewrite String.eqb_refl in Hin.
Qed.

Lemma port_of_iff u used p : one_port used -> port_of u used = Some p <-> used !! p = Some u.
Proof.
  intros H1. split; [apply port_of_Some|]. intros Hp.
  destruct (port_of u used) as [q|] eqn:E.
  - f_equal. by eapply H1; [apply port_of_Some|].
  - by destruct (port_of_None u used E p).
Qed.

Lemma drop_other_lookup u port used q :
  one_port used ->
  drop_other u port used !! q =
  if decide (used !! q = Some u /\ q <> port) then None else used !! q.
Proof.
  intros H1. unfold drop_other.
  destruct (find _ (map_to_list used)) as [[k v]|] eqn:E.
  - apply find_some in E as [Hin He]. apply list_elem_of_In, elem_of_map_to_list in Hin.
    simpl in *. to_prop. subst v. rewrite lookup_delete.
    case_decide; case_decide as Hd; subst; try done.
    + by destruct Hd.
    + destruct Hd as [Hq _]. by destruct (H1 k q u Hin Hq).
  - case_decide as Hd; [|done]. destruct Hd as [Hq Hne]. exfalso.
    assert (Hin : In (q, u) (map_to_list used)) by (by apply list_elem_of_In, elem_of_map_to_list).
    apply (find_none _ _ E) in Hin. simpl in Hin. rewrite String.eqb_refl in Hin. simpl in Hin.
    to_prop. done.
Qed.

(** The index once a server was given a port. *)
Definition moved (u : string) (port : Z) (used : gmap Z string) (q : Z) : option string :=
  if decide (q = port) then Some u
  else if decide (used !! q = Some u) then None else used !! q.

Lemma moved_lookup u port used q :
  one_port used -> <[port := u]> (drop_other u port used) !! q = moved u port used q.
Proof.
  intros H1. unfold moved. rewrite lookup_insert, drop_other_lookup by done.
  repeat case_decide; subst; try done; tauto || naive_solver.
Qed.

Lemma one_port_ext used used' :
  (forall q, used' !! q = used !! q \/ used' !! q = None) -> one_port used -> one_port used'.
Proof.
  intros H H1 p q u Hp Hq. destruct (H p) as [Ep|Ep], (H q) as [Eq|Eq]; try congruence.
  apply (H1 p q u); congruence.
Qed.

Lemma one_port_moved u port used used' :
  (forall q, used' !! q = moved u port used q) -> one_port used -> one_port used'.
Proof.
  intros H H1 p q v Hp Hq. rewrite H in Hp, Hq. unfold moved in *.
  repeat case_decide; simplify_eq; try done. by eapply H1.
Qed.

Lemma one_port_delete p used : one_port used -> one_port (delete p used).
Proof. apply one_port_ext. intros q. rewrite lookup_delete. case_decide; auto. Qed.

Lemma one_port_new p u used :
  (forall q, used !! q <> Some u) -> one_port used -> one_port (<[p := u]> used).
Proof.
  intros Hn H1. apply (one_port_moved u p used); [|done]. intros q. unfold moved.
  rewrite lookup_insert. repeat case_decide; subst; try done. by destruct (Hn q).
Qed.
#[export] Hint Resolve one_port_delete one_port_new : platform.

Lemma Snapshot_lookup pm u p :
  one_port (usedPorts pm) -> Snapshot pm !! u = Some p <-> usedPorts pm !! p = Some u.
Proof.
  intros H1. unfold Snapshot. rewrite <- elem_of_list_to_map.
  - rewrite list_elem_of_fmap. split.
    + intros ([q v] & Heq & Hin%elem_of_map_to_list). by simplify_eq/=.
    + intros Hp. exists (p, u). split; [done|]. by apply elem_of_map_to_list.
  - rewrite map_map. apply NoDup_fmap_2_strong; [|apply NoDup_map_to_list].
    intros [q v] [q' v'] Hq%elem_of_map_to_list Hq'%elem_of_map_to_list He. simpl in He. subst v'.
    by rewrite (H1 q q' v Hq Hq').
Qed.

(** ** Lemmas: operations *)

Lemma persist_used o u p pm : usedPorts (persist o u p pm).1 = usedPorts pm.
Proof. unfold persist. by destruct (applied o). Qed.
Lemma forget_used o u pm : usedPorts (forget o u pm).1 = usedPorts pm.
Proof. unfold forget. by destruct (applied o). Qed.

(** [SetPort] either changes nothing in the index or moves the server. *)
Lemma SetPort_cases o u port pm err pm' :
  SetPort o u port pm = (err, pm') -> one_port (usedPorts pm) ->
  match err with
  | Some (ErrTaken p owner) =>
      p = port /\ usedPorts pm !! port = Some owner /\ owner <> u /\ pm' = pm
  | Some e => e = ErrPersist /\ o <> Replied /\ usedPorts pm' = usedPorts pm /\
              (o = Failed -> pm' = pm)
  | None => o = Replied /\ (forall q, usedPorts pm' !! q = moved u port (usedPorts pm) q) /\
            rdb_keys pm' = <[u := Itoa port]> (rdb_keys pm) /\
            rdb_ports pm' = <[u := Itoa port]> (rdb_ports pm) /\
            forall owner, usedPorts pm !! port = Some owner -> owner = u
  end.
Proof.
  intros H H1. unfold SetPort in H.
  assert (Hfree : forall owner, usedPorts pm !! port = Some owner -> owner <> u ->
            (err, pm') = (Some (ErrTaken port owner), pm)).
  { intros owner Ho Hne. rewrite Ho in H. destruct (String.eqb_spec owner u); [done|]. done. }
  destruct (usedPorts pm !! port) as [owner|] eqn:Ho;
    [destruct (String.eqb_spec owner u) as [->|Hne]|]; cycle 1.
  { by simplify_eq. }
  all: destruct o; simpl in H; simplify_eq; simpl; split_and!; try done;
    intros q; by rewrite ?moved_lookup || congruence.
Qed.

Lemma candidates_In pm p : p ∈ candidates pm <-> rangeStart pm <= p <= rangeEnd pm.
Proof.
  unfold candidates. rewrite list_elem_of_fmap. split.
  - intros (i & -> & Hi%elem_of_seq). lia.
  - intros Hp. exists (Z.to_nat (p - rangeStart pm)). split; [lia|]. apply elem_of_seq. lia.
Qed.

(** What [AllocatePort] may hand out. *)
Definition free_port (getenv : string -> string) (pm : PortManager) (p : Z) : bool :=
  (hostPortProblem getenv p =? "")%string && bool_decide (usedPorts pm !! p = None).

Lemma AllocatePort_cases getenv shuffle o u pm res pm' :
  AllocatePort getenv shuffle o u pm = (res, pm') ->
  (forall p, p ∈ shuffle (candidates pm) <-> p ∈ candidates pm) ->
  match res with
  | inl p =>
      (usedPorts pm !! p = Some u /\ pm' = pm) \/
      ((forall q, usedPorts pm !! q <> Some u) /\ o = Replied /\
       rangeStart pm <= p <= rangeEnd pm /\ free_port getenv pm p = true /\
       find (free_port getenv pm) (shuffle (candidates pm)) = Some p /\
       pm' = set_used (<[p := u]> (usedPorts pm)) (persist o u p pm).1)
  | inr ErrPersist =>
      o <> Replied /\ usedPorts pm' = usedPorts pm /\ (forall q, usedPorts pm !! q <> Some u)
  | inr (ErrExhausted first last) =>
      first = rangeStart pm /\ last = rangeEnd pm /\ pm' = pm /\
      (forall q, usedPorts pm !! q <> Some u) /\
      forall p, rangeStart pm <= p <= rangeEnd pm -> free_port getenv pm p = false
  | inr _ => False
  end.
Proof.
  intros H Hsh. unfold AllocatePort in H. fold (free_port getenv pm) in H.
  destruct (port_of u (usedPorts pm)) as [p|] eqn:Ep.
  { simplify_eq. left. split; [by apply port_of_Some|done]. }
  pose proof (port_of_None _ _ Ep) as Hno.
  destruct (find (free_port getenv pm) (shuffle (candidates pm))) as [p|] eqn:Ef; cycle 1.
  { simplify_eq. split_and!; try done. intros p Hp. apply (find_none _ _ Ef).
    apply list_elem_of_In, Hsh, candidates_In. done. }
  pose proof (find_some _ _ Ef) as [Hin Hfree].
  apply list_elem_of_In, Hsh, candidates_In in Hin.
  pose proof (persist_used o u p pm) as Hu. unfold persist in H, Hu |- *. simpl in Hu.
  destruct (replied o) eqn:Er; simplify_eq.
  - right. split_and!; try done; [by destruct o|lia|lia|]. simpl. by rewrite Hu.
  - split_and!; [by destruct o|done|done].
Qed.

(** ** Every operation, in any order *)

(** The operations for one server [u]. *)
Inductive op_for (getenv : string -> string) (u : string) : PortManager -> PortManager -> Prop :=
| for_allocate shuffle o pm :
    shuffle (candidates pm) ≡ₚ candidates pm ->
    op_for getenv u pm (AllocatePort getenv shuffle o u pm).2
| for_release o pm : op_for getenv u pm (ReleasePort o u pm).1
| for_set o port pm : op_for getenv u pm (SetPort o u port pm).2
| for_claim gateway mgr o port pm :
    op_for getenv u pm (claimHostPort getenv gateway mgr o u port pm).2
| for_retry o pm : op_for getenv u pm (retry_round o u pm).1.

Inductive pm_step (getenv : string -> string) : PortManager -> PortManager -> Prop :=
| step_for u pm pm' : op_for getenv u pm pm' -> pm_step getenv pm pm'
| step_adopt io order1 order2 pm : pm_step getenv pm (AdoptContainerBindings io order1 order2 pm).

(** The index is single-valued and Redis' two records agree. *)
Definition pm_inv (pm : PortManager) : Prop :=
  one_port (usedPorts pm) /\ rdb_keys pm = rdb_ports pm.

Lemma persist_inv o u p pm : pm_inv pm -> pm_inv (persist o u p pm).1.
Proof.
  intros [H1 H2]. unfold persist, pm_inv. destruct (applied o); simpl; [|done]. by rewrite H2.
Qed.
Lemma forget_inv o u pm : pm_inv pm -> pm_inv (forget o u pm).1.
Proof.
  intros [H1 H2]. unfold forget, pm_inv. destruct (applied o); simpl; [|done]. by rewrite H2.
Qed.
#[export] Hint Resolve persist_inv forget_inv : platform.

Lemma SetPort_inv o u p pm : pm_inv pm -> pm_inv (SetPort o u p pm).2.
Proof.
  intros Hi. destruct (SetPort o u p pm) as [err pm'] eqn:E. simpl.
  pose proof (SetPort_cases _ _ _ _ _ _ E (proj1 Hi)) as H.
  destruct err as [[]|]; [naive_solver| |naive_solver| |].
  - destruct H as (_ & Ho & Hu & _). unfold SetPort in E.
    repeat case_match; simplify_eq; try done;
      match goal with H : persist _ _ _ _ = _ |- _ => apply (f_equal fst) in H; simpl in H; subst end;
      by apply persist_inv.
  - destruct H as [? _]. done.
  - destruct H as (_ & Hm & Hk & Hh & _). destruct Hi as [H1 H2].
    split; [by eapply one_port_moved|]. by rewrite Hk, Hh, H2.
Qed.

Lemma give_way_inv io bs pm b : pm_inv pm -> pm_inv (give_way io bs pm b).
Proof.
  intros Hi. unfold give_way. destruct b as [u p]. repeat case_match; try done.
  - apply forget_inv. destruct Hi. split; simpl; auto with platform.
  - destruct Hi. split; simpl; auto with platform.
Qed.

Lemma adopt_one_inv io pm b : pm_inv pm -> pm_inv (adopt_one io pm b).
Proof. intros Hi. unfold adopt_one. destruct b as [u p]. repeat case_match; auto using SetPort_inv. Qed.

Lemma op_for_inv getenv u pm pm' : op_for getenv u pm pm' -> pm_inv pm -> pm_inv pm'.
Proof.
  intros Hs Hi. destruct Hs as [shuffle o pm Hsh|o pm|o p pm|gw mg o p pm|o pm].
  - destruct (AllocatePort getenv shuffle o u pm) as [res pm'] eqn:E. simpl.
    unfold AllocatePort in E. destruct (port_of u (usedPorts pm)) eqn:Ep; [by simplify_eq|].
    destruct (find _ _) as [p|]; [|by simplify_eq].
    pose proof (persist_inv o u p pm Hi) as Hp. pose proof (persist_used o u p pm) as Hu.
    destruct (persist o u p pm) as [pm1 ok]. simpl in *.
    destruct ok; simplify_eq; [|done]. destruct Hp. split; simpl; [|done].
    apply one_port_new; [|done]. rewrite Hu. by apply port_of_None.
  - unfold ReleasePort. destruct (port_of _ _); [|done].
    pose proof (forget_inv o u pm Hi) as Hf. destruct (forget o u pm) as [pm1 ok]. simpl in *.
    destruct Hf. split; simpl; auto with platform.
  - by apply SetPort_inv.
  - unfold claimHostPort. repeat case_match; try done. by apply SetPort_inv.
  - unfold retry_round. destruct (port_of _ _); [done|].
    pose proof (forget_inv o u pm Hi) as Hf. by destruct (forget o u pm).
Qed.

Lemma pm_step_inv getenv pm pm' : pm_step getenv pm pm' -> pm_inv pm -> pm_inv pm'.
Proof.
  intros [u pm1 pm2 Hs|io o1 o2 pm1] Hi; [by eapply op_for_inv|].
  unfold AdoptContainerBindings, AdoptExistingBindings.
  apply foldl_inv; [|intros; by apply adopt_one_inv].
  apply foldl_inv; [done|intros; by apply give_way_inv].
Qed.

(** ** Lemmas: whose port an operation touches *)

Lemma moved_other u port used q v :
  (forall owner, used !! port = Some owner -> owner = u) -> v <> u ->
  moved u port used q = Some v <-> used !! q = Some v.
Proof. intros Hf Hv. unfold moved. repeat case_decide; subst; naive_solver. Qed.

Lemma SetPort_other o u port pm q v :
  one_port (usedPorts pm) -> v <> u ->
  usedPorts (SetPort o u port pm).2 !! q = Some v <-> usedPorts pm !! q = Some v.
Proof.
  intros H1 Hv. destruct (SetPort o u port pm) as [err pm'] eqn:E. simpl.
  pose proof (SetPort_cases _ _ _ _ _ _ E H1) as H. destruct err as [[]|].
  - by destruct H as (_ & _ & -> & _).
  - by destruct H as (_ & _ & -> & _).
  - by destruct H as (_ & _ & _ & ->).
  - by destruct H as (_ & _ & -> & _).
  - destruct H as (_ & Hm & _ & _ & Hf). rewrite Hm. by apply moved_other.
Qed.

(** An operation for one server leaves the port of every other one alone. *)
Lemma op_for_other getenv u pm pm' q v :
  op_for getenv u pm pm' -> pm_inv pm -> v <> u ->
  usedPorts pm' !! q = Some v <-> usedPorts pm !! q = Some v.
Proof.
  intros Hs [H1 _] Hv. destruct Hs as [shuffle o pm Hsh|o pm|o p pm|gw mg o p pm|o pm].
  - destruct (AllocatePort getenv shuffle o u pm) as [res pm'] eqn:E. simpl.
    pose proof (AllocatePort_cases _ _ _ _ _ _ _ E ltac:(intros; by rewrite Hsh)) as H.
    destruct res as [p|[]]; try done.
    + destruct H as [[_ ->]|(_ & _ & _ & Hfr & _ & ->)]; [done|]. unfold free_port in Hfr. to_prop.
      simpl. rewrite lookup_insert. case_decide; subst; [|done]. naive_solver.
    + by destruct H as (_ & _ & -> & _).
    + by destruct H as (_ & -> & _).
  - unfold ReleasePort. destruct (port_of _ _) as [p|] eqn:Ep; [|done].
    apply port_of_Some in Ep. pose proof (forget_used o u pm) as Hu.
    destruct (forget o u pm) as [pm1 ok]. simpl in *. rewrite Hu, lookup_delete.
    case_decide; subst; naive_solver.
  - by apply SetPort_other.
  - unfold claimHostPort. repeat case_match; try done. by apply SetPort_other.
  - unfold retry_round. destruct (port_of _ _); [done|].
    pose proof (forget_used o u pm) as Hu. destruct (forget o u pm). simpl in *. by rewrite Hu.
Qed.

(** The port an allocation returns is the server's. *)
Lemma AllocatePort_records getenv shuffle o u pm p pm' :
  shuffle (candidates pm) ≡ₚ candidates pm ->
  AllocatePort getenv shuffle o u pm = (inl p, pm') -> usedPorts pm' !! p = Some u.
Proof.
  intros Hsh E. pose proof (AllocatePort_cases _ _ _ _ _ _ _ E ltac:(intros; by rewrite Hsh)) as H.
  simpl in H. destruct H as [[H ->]|(_ & _ & _ & _ & _ & ->)]; [done|]. simpl. by rewrite lookup_insert_eq.
Qed.

(** Why adoption takes a port from a server: another container binds it and
    the server's own does not, or the server's own binds another port. *)
Definition must_go (order1 order2 : list (string * Z)) (q : Z) (v : string) : Prop :=
  (exists u, u <> v /\ (u, q) ∈ order1 /\ bound order1 v <> q) \/
  (exists q', q' <> q /\ (v, q') ∈ order2).

Lemma give_way_loses io bs pm u p q v :
  usedPorts pm !! q = Some v -> usedPorts (give_way io bs pm (u, p)) !! q <> Some v ->
  p = q /\ u <> v /\ bound bs v <> q.
Proof.
  intros Hq Hl. unfold give_way in Hl. destruct (usedPorts pm !! p) as [owner|] eqn:Ep; [|done].
  destruct ((owner =? u)%string || (bound bs owner =? p)) eqn:Eo; [done|].
  assert (Hd : usedPorts (if bound bs owner =? 0
      then (forget (io owner) owner (set_used (delete p (usedPorts pm)) pm)).1
      else set_used (delete p (usedPorts pm)) pm) = delete p (usedPorts pm)).
  { destruct (bound bs owner =? 0); [by rewrite forget_used|done]. }
  cbn zeta in Hl. rewrite Hd, lookup_delete in Hl. case_decide; [subst|done].
  to_prop. by simplify_eq.
Qed.

Lemma adopt_one_loses io pm u p q v :
  one_port (usedPorts pm) -> usedPorts pm !! q = Some v ->
  usedPorts (adopt_one io pm (u, p)) !! q <> Some v -> u = v /\ p <> q.
Proof.
  intros H1 Hq Hl. unfold adopt_one in Hl. destruct (p <=? 0); [done|].
  destruct (GetPort u pm =? p); [done|]. destruct (decide (v = u)) as [->|Hne].
  - split; [done|]. intros ->. destruct (SetPort (io u) u q pm) as [err pm'] eqn:E. simpl in Hl.
    pose proof (SetPort_cases _ _ _ _ _ _ E H1) as H. destruct err as [[]|];
      [by destruct H as (_ & _ & Hu & _); rewrite Hu in Hl|by destruct H as (_ & _ & Hu & _); rewrite Hu in Hl|
       by destruct H as (_ & _ & _ & ->)|by destruct H|].
    destruct H as (_ & Hm & _). rewrite Hm in Hl. unfold moved in Hl. by rewrite decide_True in Hl.
  - destruct Hl. by apply SetPort_other.
Qed.

Lemma Adopt_loses io order1 order2 pm q v :
  pm_inv pm -> usedPorts pm !! q = Some v ->
  usedPorts (AdoptContainerBindings io order1 order2 pm) !! q = Some v \/
  must_go order1 order2 q v.
Proof.
  intros Hi Hq. unfold AdoptContainerBindings, AdoptExistingBindings.
  enough (H : pm_inv (foldl (adopt_one io) (foldl (give_way io order1) pm order1) order2) /\
    (usedPorts (foldl (adopt_one io) (foldl (give_way io order1) pm order1) order2) !! q = Some v \/
     must_go order1 order2 q v)) by apply H.
  apply (foldl_inv (adopt_one io) (fun pm => pm_inv pm /\ (usedPorts pm !! q = Some v \/ _)));
    [apply (foldl_inv (give_way io order1) (fun pm => pm_inv pm /\ (usedPorts pm !! q = Some v \/ _)));
       [by auto|]|].
  - intros pm1 [u p] Hin [Hi1 [Hl|]]; (split; [by apply give_way_inv|]); [|by right].
    destruct (decide (usedPorts (give_way io order1 pm1 (u, p)) !! q = Some v)); [by left|right; left].
    destruct (give_way_loses io order1 pm1 u p q v Hl) as (-> & ? & ?); eauto.
  - intros pm1 [u p] Hin [Hi1 [Hl|]]; (split; [by apply adopt_one_inv|]); [|by right].
    destruct (decide (usedPorts (adopt_one io pm1 (u, p)) !! q = Some v)); [by left|right; right].
    destruct (adopt_one_loses io pm1 u p q v (proj1 Hi1) Hl) as (-> & ?); eauto.
Qed.

(** ** Lemmas: adoption *)

(** Bindings as Docker reports them: one port per container, no port twice. *)
Definition bindings_ok (bs : list (string * Z)) : Prop :=
  NoDup (map fst bs) /\ NoDup (map snd bs) /\ forall b, b ∈ bs -> 0 < b.2.

Lemma bound_In bs u p : bindings_ok bs -> (u, p) ∈ bs -> bound bs u = p.
Proof.
  intros (Hk & _ & _) Hin. unfold bound.
  by rewrite (elem_of_list_to_map_1 (M:=gmap string) bs u p Hk Hin).
Qed.

Lemma bound_pos bs u : bindings_ok bs -> bound bs u = 0 \/ (u, bound bs u) ∈ bs.
Proof.
  intros (Hk & _ & _). unfold bound.
  destruct ((list_to_map bs : gmap string Z) !! u) as [p|] eqn:E; [right|by left].
  by apply elem_of_list_to_map_2 in E.
Qed.

Lemma binding_port_unique bs u v p : bindings_ok bs -> (u, p) ∈ bs -> (v, p) ∈ bs -> u = v.
Proof.
  intros (_ & Hp & _) [i Hi]%list_elem_of_lookup [j Hj]%list_elem_of_lookup.
  assert (i = j) as ->.
  { apply (NoDup_lookup _ i j p Hp); change (map ?f) with (fmap (M:=list) f);
      rewrite list_lookup_fmap; [by rewrite Hi|by rewrite Hj]. }
  by simplify_eq.
Qed.

(** Nobody else is recorded on the port of a binding. *)
Definition clear_for (pm : PortManager) (b : string * Z) : Prop :=
  usedPorts pm !! b.2 = None \/ usedPorts pm !! b.2 = Some b.1.

Lemma give_way_used io bs pm b :
  usedPorts (give_way io bs pm b) = usedPorts pm \/
  usedPorts (give_way io bs pm b) = delete b.2 (usedPorts pm).
Proof.
  unfold give_way. destruct b as [u p]. repeat case_match; auto; right; by rewrite ?forget_used.
Qed.

Lemma give_way_clear io bs pm b :
  bindings_ok bs -> b ∈ bs -> clear_for (give_way io bs pm b) b.
Proof.
  intros Hb Hin. destruct b as [u p]. unfold clear_for, give_way. cbn [fst snd].
  destruct (usedPorts pm !! p) as [owner|] eqn:E; [|by left].
  destruct ((owner =? u)%string || (bound bs owner =? p)) eqn:Eo.
  - right. rewrite E. f_equal. apply orb_true_iff in Eo as [Eo|Eo]; to_prop; [done|].
    pose proof (proj2 (proj2 Hb) _ Hin) as Hpos. simpl in Hpos.
    destruct (bound_pos bs owner Hb) as [H0|H0]; [lia|].
    rewrite Eo in H0. by eapply binding_port_unique.
  - left. destruct (bound bs owner =? 0); [rewrite forget_used|]; apply lookup_delete_eq.
Qed.

Lemma give_way_keeps_clear io bs pm b b' :
  clear_for pm b' -> clear_for (give_way io bs pm b) b'.
Proof.
  unfold clear_for. destruct (give_way_used io bs pm b) as [-> | ->]; [done|].
  rewrite lookup_delete. case_decide; auto.
Qed.

Lemma give_way_all io bs pm l :
  bindings_ok bs -> (forall b, b ∈ l -> b ∈ bs) ->
  forall b, b ∈ l -> clear_for (foldl (give_way io bs) pm l) b.
Proof.
  intros Hb. revert pm. induction l as [|x l IH]; intros pm Hl b Hin; simpl; [set_solver|].
  apply elem_of_cons in Hin as [->|Hin]; [|apply IH; set_solver].
  apply foldl_inv; [apply give_way_clear; set_solver|]. intros. by apply give_way_keeps_clear.
Qed.

(** What adopting the bindings one by one maintains. *)
Definition adopting (bs done : list (string * Z)) (pm : PortManager) : Prop :=
  one_port (usedPorts pm) /\ (forall b, b ∈ bs -> clear_for pm b) /\
  forall b, b ∈ done -> usedPorts pm !! b.2 = Some b.1.

Lemma GetPort_pos pm u p :
  one_port (usedPorts pm) -> 0 < p -> GetPort u pm = p <-> usedPorts pm !! p = Some u.
Proof.
  intros H1 Hp. rewrite <- (port_of_iff u (usedPorts pm) p H1). unfold GetPort.
  destruct (port_of u (usedPorts pm)); simpl; split; intros; simplify_eq; lia || done.
Qed.

Lemma adopt_one_adopting io bs done pm b :
  bindings_ok bs -> (forall x, x ∈ done -> x ∈ bs) -> b ∈ bs -> (forall u, io u = Replied) ->
  adopting bs done pm -> adopting bs (done ++ [b]) (adopt_one io pm b).
Proof.
  intros Hb Hdone Hin Hio (H1 & Hc & Hd). destruct b as [u p]. simpl.
  pose proof (proj2 (proj2 Hb) _ Hin) as Hpos. simpl in Hpos.
  destruct (Z.leb_spec p 0) as [|_]; [lia|].
  destruct (Z.eqb_spec (GetPort u pm) p) as [Hg|Hg].
  - apply GetPort_pos in Hg; [|done..]. split_and!; [done|done|].
    intros b [?| ->%list_elem_of_singleton]%elem_of_app; [auto|done].
  - destruct (SetPort (io u) u p pm) as [err pm'] eqn:E. simpl.
    pose proof (SetPort_cases _ _ _ _ _ _ E H1) as Hs.
    destruct err as [[]|]; rewrite ?Hio in *; try (by destruct Hs as (? & ? & ?)).
    + destruct Hs as (-> & Ho & Hne & _). destruct (Hc _ Hin) as [Hc'|Hc']; simpl in Hc'; congruence.
    + destruct Hs as (_ & Hm & _). unfold moved in Hm. split_and!.
      * by eapply one_port_moved.
      * intros [v q] Hv. unfold clear_for. simpl. rewrite Hm. case_decide.
        { subst. right. f_equal. by eapply binding_port_unique. }
        case_decide; [by left|]. by apply (Hc (v, q)).
      * intros b [Hx| ->%list_elem_of_singleton]%elem_of_app; rewrite Hm; simpl; [|by case_decide].
        destruct b as [v q]. simpl. case_decide as Hq.
        { subst. f_equal. eapply binding_port_unique; [done|exact Hin|by apply Hdone]. }
        specialize (Hd _ Hx). simpl in Hd. case_decide as Hu; [|done].
        rewrite Hd in Hu. simplify_eq. destruct Hq.
        by rewrite <- (bound_In bs u q Hb (Hdone _ Hx)), <- (bound_In bs u p Hb Hin).
Qed.

Lemma adopt_all io bs pm l done :
  bindings_ok bs -> (forall b, b ∈ done ++ l -> b ∈ bs) -> (forall u, io u = Replied) ->
  adopting bs done pm -> adopting bs (done ++ l) (foldl (adopt_one io) pm l).
Proof.
  intros Hb. revert pm done. induction l as [|b l IH]; intros pm done Hl Hio Ha; simpl.
  { by rewrite app_nil_r. }
  rewrite (cons_middle b), app_assoc. apply IH; [|done|].
  - intros x Hx. apply Hl. by rewrite (cons_middle b), app_assoc.
  - apply adopt_one_adopting; try done; [set_solver|apply Hl; set_solver].
Qed.

(** ** Lemmas: Redis as the record of the ledger *)

(** The hash holds exactly the allocations, one decimal port per server. *)
Definition synced (pm : PortManager) : Prop :=
  forall u s, rdb_ports pm !! u = Some s <->
    exists p, s = Itoa p /\ in_int64 p = true /\ usedPorts pm !! p = Some u.

Lemma load_entries_subset used m l :
  (forall u s p, (u, s) ∈ l -> Atoi s = Some p -> used !! p = Some u) ->
  m ⊆ used -> foldl load_entry m l ⊆ used.
Proof.
  intros Hl Hm. apply (foldl_inv load_entry (fun m => m ⊆ used)); [done|].
  intros m' [u s] Hin Hm'. unfold load_entry. simpl.
  destruct (Atoi s) as [p|] eqn:E; [|done]. apply insert_subseteq_l; [|done]. by eapply Hl.
Qed.

Lemma load_entries_keeps m l p : is_Some (m !! p) -> is_Some (foldl load_entry m l !! p).
Proof.
  intros H. apply (foldl_inv load_entry (fun m => is_Some (m !! p))); [done|].
  intros m' [u s] _ Hm'. unfold load_entry. simpl. destruct (Atoi s); [|done].
  rewrite lookup_insert_is_Some'. by right.
Qed.

Lemma load_entries_has m l u s p :
  (u, s) ∈ l -> Atoi s = Some p -> is_Some (foldl load_entry m l !! p).
Proof.
  intros Hin Hs. revert m. induction l as [|e l IH]; intros m; [set_solver|].
  apply elem_of_cons in Hin as [<-|Hin]; [|by apply IH]. simpl. apply load_entries_keeps.
  unfold load_entry. simpl. rewrite Hs, lookup_insert_eq. eauto.
Qed.

(** Reading the record back rebuilds the index. *)
Lemma load_synced pm :
  synced pm -> (forall p u, usedPorts pm !! p = Some u -> in_int64 p = true) ->
  foldl load_entry ∅ (map_to_list (rdb_ports pm)) = usedPorts pm.
Proof.
  intros Hs Hint. assert (Hsub : foldl load_entry ∅ (map_to_list (rdb_ports pm)) ⊆ usedPorts pm).
  { apply load_entries_subset; [|apply map_empty_subseteq]. intros u s p Hin%elem_of_map_to_list Ha.
    apply Hs in Hin as (p' & -> & Hp & Hu). rewrite Atoi_Itoa in Ha by done. by simplify_eq. }
  apply map_eq. intros p. destruct (usedPorts pm !! p) as [u|] eqn:Hu.
  - assert (Hin : (u, Itoa p) ∈ map_to_list (rdb_ports pm)).
    { apply elem_of_map_to_list, Hs. eauto. }
    destruct (load_entries_has ∅ _ _ _ p Hin) as [v Hv]; [apply Atoi_Itoa; eauto|].
    rewrite Hv. rewrite (lookup_weaken _ _ _ _ Hv Hsub) in Hu. done.
  - destruct (foldl load_entry ∅ _ !! p) as [v|] eqn:Hv; [|done].
    rewrite (lookup_weaken _ _ _ _ Hv Hsub) in Hu. done.
Qed.

(** Giving a server a port keeps the record exact. *)
Lemma synced_move pm pm' u port :
  one_port (usedPorts pm) -> in_int64 port = true -> synced pm ->
  (forall owner, usedPorts pm !! port = Some owner -> owner = u) ->
  (forall q, usedPorts pm' !! q = moved u port (usedPorts pm) q) ->
  rdb_ports pm' = <[u := Itoa port]> (rdb_ports pm) -> synced pm'.
Proof.
  intros H1 Hp Hs Hfree Hm Hr v s. rewrite Hr, lookup_insert_Some. split.
  - intros [[<- <-]|[Hne Hv]].
    + exists port. rewrite Hm. unfold moved. by rewrite decide_True.
    + apply Hs in Hv as (p & -> & Hi & Hu). exists p. rewrite Hm. unfold moved.
      destruct (decide (p = port)) as [->|]; [by rewrite (Hfree v Hu) in Hne|].
      rewrite decide_False; [done|]. congruence.
  - intros (p & -> & Hi & Hu). rewrite Hm in Hu. unfold moved in Hu.
    repeat case_decide; simplify_eq; [by left|right]. split; [congruence|].
    apply Hs. eauto.
Qed.

Lemma hostPortProblem_none getenv p :
  hostPortProblem getenv p = "" -> 1024 <= p <= 65535.
Proof.
  unfold hostPortProblem. destruct ((p <? 1024) || (65535 <? p)) eqn:E; [done|]. to_prop. lia.
Qed.

Lemma small_port_int64 p : 0 <= p <= 65535 -> in_int64 p = true.
Proof. intros H. unfold in_int64, int64_min, int64_max. lia. Qed.

(** Operations whose transactions are answered. *)
Inductive pm_op (getenv : string -> string) : PortManager -> PortManager -> Prop :=
| op_allocate shuffle u pm :
    (forall l, shuffle l ≡ₚ l) -> pm_op getenv pm (AllocatePort getenv shuffle Replied u pm).2
| op_release u pm : pm_op getenv pm (ReleasePort Replied u pm).1
| op_set u port pm : in_int64 port = true -> pm_op getenv pm (SetPort Replied u port pm).2
| op_claim gateway mgr u port pm :
    pm_op getenv pm (claimHostPort getenv gateway mgr Replied u port pm).2.

Definition recorded (pm : PortManager) : Prop :=
  one_port (usedPorts pm) /\ synced pm /\
  forall p u, usedPorts pm !! p = Some u -> in_int64 p = true.

Lemma recorded_move pm pm' u port :
  recorded pm -> in_int64 port = true ->
  (forall owner, usedPorts pm !! port = Some owner -> owner = u) ->
  (forall q, usedPorts pm' !! q = moved u port (usedPorts pm) q) ->
  rdb_ports pm' = <[u := Itoa port]> (rdb_ports pm) -> recorded pm'.
Proof.
  intros (H1 & Hs & Hi) Hp Hf Hm Hr. split_and!.
  - by eapply one_port_moved.
  - by eapply synced_move.
  - intros q v. rewrite Hm. unfold moved. intros. repeat case_decide; simplify_eq; eauto.
Qed.

Lemma recorded_set u port pm :
  in_int64 port = true -> recorded pm -> recorded (SetPort Replied u port pm).2.
Proof.
  intros Hp Hr. destruct (SetPort Replied u port pm) as [err pm'] eqn:E. simpl.
  pose proof (SetPort_cases _ _ _ _ _ _ E (proj1 Hr)) as H.
  destruct err as [[]|]; try (by destruct H as (? & ? & ?)).
  - by destruct H as (_ & _ & _ & ->).
  - destruct H as (_ & Hm & _ & Hh & Hf). by eapply recorded_move.
Qed.

Lemma recorded_step getenv pm pm' : pm_op getenv pm pm' -> recorded pm -> recorded pm'.
Proof.
  intros Hop Hr. destruct Hop as [shuffle u pm Hsh|u pm|u port pm Hp|gw mg u port pm].
  - destruct (AllocatePort getenv shuffle Replied u pm) as [res pm'] eqn:E.
    pose proof (AllocatePort_cases _ _ _ _ _ _ _ E) as H. simpl.
    specialize (H ltac:(intros; by rewrite Hsh)).
    destruct res as [p|[]]; try done; try (by destruct H as (? & ? & ?)).
    + destruct H as [[_ ->]|(Hno & _ & _ & Hfr & _ & ->)]; [done|].
      unfold free_port in Hfr. to_prop. apply hostPortProblem_none in H.
      apply (recorded_move pm _ u p); simpl; [done|apply small_port_int64; lia|congruence| |done].
      intros q. rewrite lookup_insert. unfold moved. repeat case_decide; subst; try done.
      by destruct (Hno q).
    + by destruct H as (_ & _ & -> & _).
  - unfold ReleasePort. destruct (port_of u (usedPorts pm)) as [p|] eqn:Ep; [|done]. simpl.
    apply port_of_Some in Ep. destruct Hr as (H1 & Hs & Hi). split_and!; simpl.
    + auto with platform.
    + intros v s. simpl. unfold synced in Hs. rewrite lookup_delete_Some, Hs. split.
      * intros (Hne & q & -> & Hq & Hv). exists q. rewrite lookup_delete_ne by congruence. done.
      * intros (q & -> & Hq & Hv). apply lookup_delete_Some in Hv as [Hne Hv]. split; [|eauto].
        intros ->. by destruct (H1 p q v Ep Hv).
    + intros q v [_ Hv]%lookup_delete_Some. eauto.
  - by apply recorded_set.
  - unfold claimHostPort. destruct (_ || _ || _ || _); [done|]. destruct (negb _) eqn:E; [done|].
    to_prop. apply hostPortProblem_none in E. apply recorded_set; [|done].
    apply small_port_int64. lia.
Qed.

(** Trying a range upwards stops at the first port that will do. *)
Lemma find_range_first (f : Z -> bool) s i n p q :
  find f (map (fun k => s + Z.of_nat k) (seq i n)) = Some p -> s + Z.of_nat i <= q < p -> f q = false.
Proof.
  revert i. induction n as [|n IH]; intros i; simpl; [done|].
  destruct (f (s + Z.of_nat i)) eqn:E; intros H Hq; [simplify_eq; lia|].
  destruct (decide (q = s + Z.of_nat i)) as [->|]; [done|]. apply (IH (S i)); [done|lia].
Qed.

(** ** A concrete node *)
Definition no_env (_ : string) : string := "".
Definition node : PortManager := mkPM 25518 25521 {[25519 := "a"]} {["a" := "25519"]} {["a" := "25519"]}.

(** Every adoption of three containers over a ledger that has two of them the
    wrong way round. *)
Definition stale : PortManager :=
  mkPM 25600 25699 {[25600 := "a"; 25601 := "b"; 25602 := "gone"]} ∅ ∅.
Definition containers : list (string * Z) := [("a", 25601); ("b", 25600); ("c", 25602)].

(** ** Properties *)

(** allocation is exact. Whatever permutation of the range the mode
    tries, [AllocatePort] returns the server's own port when it has one;
    otherwise a port of the range that no server holds and that is neither
    privileged nor one of the node's own listeners, recorded in the ledger and
    in both Redis records; it reports exhaustion only when every port of the
    range is taken or unusable; and a failed transaction allocates nothing. In
    sequential mode the port is the first usable one. *)
Lemma AllocatePort_exact getenv shuffle o u pm res pm' :
  (forall l, shuffle l ≡ₚ l) -> AllocatePort getenv shuffle o u pm = (res, pm') ->
  match res with
  | inl p =>
      (usedPorts pm !! p = Some u /\ pm' = pm) \/
      (rangeStart pm <= p <= rangeEnd pm /\ 1024 <= p <= 65535 /\
       usedPorts pm !! p = None /\ hostPortProblem getenv p = "" /\
       usedPorts pm' = <[p := u]> (usedPorts pm) /\
       rdb_keys pm' !! u = Some (Itoa p) /\ rdb_ports pm' !! u = Some (Itoa p) /\
       (shuffle (candidates pm) = candidates pm ->
        forall q, rangeStart pm <= q < p ->
          is_Some (usedPorts pm !! q) \/ hostPortProblem getenv q <> ""))
  | inr (ErrExhausted _ _) =>
      pm' = pm /\ forall p, rangeStart pm <= p <= rangeEnd pm ->
        is_Some (usedPorts pm !! p) \/ hostPortProblem getenv p <> ""
  | inr _ => o <> Replied /\ usedPorts pm' = usedPorts pm
  end.
Proof.
  intros Hsh E. pose proof (AllocatePort_cases _ _ _ _ _ _ _ E) as H.
  specialize (H ltac:(intros; by rewrite Hsh)).
  assert (Hbusy : forall q, free_port getenv pm q = false ->
    is_Some (usedPorts pm !! q) \/ hostPortProblem getenv q <> "").
  { unfold free_port. intros q Hq. to_prop; [by right|]. left. by apply not_eq_None_Some. }
  destruct res as [p|[first last| |? ?|?]]; try done.
  - destruct H as [H|(Hno & -> & Hr & Hf & Hfind & ->)]; [by left|right].
    unfold free_port in Hf. to_prop. pose proof (hostPortProblem_none _ _ H).
    split_and!; try done; simpl; try lia; try (by rewrite lookup_insert_eq).
    intros Hseq q Hq. apply Hbusy. rewrite Hseq in Hfind.
    eapply (find_range_first _ (rangeStart pm) 0); [exact Hfind|lia].
  - destruct H as (_ & _ & -> & _ & H). split; [done|]. auto.
  - destruct H as (? & ? & _). done.
Qed.

Lemma AllocatePort_exact_witness :
  AllocatePort no_env id Replied "b" node =
    (inl 25518, mkPM 25518 25521 {[25518 := "b"; 25519 := "a"]} {["a" := "25519"; "b" := "25518"]}
                  {["a" := "25519"; "b" := "25518"]}) /\
  (AllocatePort no_env id Replied "c" (AllocatePort no_env id Replied "b" node).2).1 =
    inr (ErrExhausted 25518 25521) /\
  (is_Some (usedPorts (AllocatePort no_env id Replied "b" node).2 !! 25520) \/
   hostPortProblem no_env 25520 <> "").
Proof.
  split_and!.
  - by vm_compute.
  - by vm_compute.
  - refine (proj2 (AllocatePort_exact no_env id Replied "c"
      (AllocatePort no_env id Replied "b" node).2 (inr (ErrExhausted 25518 25521)) _ _ _) 25520 _);
      [done|by vm_compute|]. by vm_compute.
Defined.

(** C25: the ledger stays a ledger. Whatever sequence of allocations,
    releases, forced ports, claims, adoptions and release retries runs, with
    Redis answering, failing or losing replies at every transaction, a server
    holds at most one port, the snapshot lists exactly the ledger, and the
    per-server keys and the hash in Redis never disagree. From any such state
    an operation for one server leaves the port of every other server as it
    was, so no port is ever given to a second server; the port an allocation
    returns is recorded for the server that asked; and adoption takes a port
    from a server only when another container binds that port and its own does
    not, or when its own binds another. *)
Theorem ledger_invariant getenv start stop pm :
  steps (pm_step getenv) (mkPM start stop ∅ ∅ ∅) pm ->
  (forall p q u, usedPorts pm !! p = Some u -> usedPorts pm !! q = Some u -> p = q) /\
  rdb_keys pm = rdb_ports pm /\
  (forall u p, Snapshot pm !! u = Some p <-> usedPorts pm !! p = Some u) /\
  (forall u pm', op_for getenv u pm pm' -> forall v q, v <> u ->
     usedPorts pm' !! q = Some v <-> usedPorts pm !! q = Some v) /\
  (forall shuffle o u p pm', shuffle (candidates pm) ≡ₚ candidates pm ->
     AllocatePort getenv shuffle o u pm = (inl p, pm') -> usedPorts pm' !! p = Some u) /\
  (forall io order1 order2 q v, usedPorts pm !! q = Some v ->
     usedPorts (AdoptContainerBindings io order1 order2 pm) !! q = Some v \/
     must_go order1 order2 q v).
Proof.
  intros Hs. assert (Hi : pm_inv pm).
  { eapply steps_invariant; [apply pm_step_inv|exact Hs|]. done. }
  split_and!; try apply Hi.
  - intros u p. apply Snapshot_lookup, Hi.
  - intros u pm' Hop v q Hv. by eapply op_for_other.
  - intros shuffle o u p pm' Hsh E. by eapply AllocatePort_records.
  - intros io order1 order2 q v. by apply Adopt_loses.
Qed.

Lemma ledger_invariant_witness :
  let pm := (SetPort ReplyLost "b" 25519 (AllocatePort no_env id Replied "b" (mkPM 25518 25521 ∅ ∅ ∅)).2).2 in
  usedPorts pm = {[25518 := "b"]} /\ rdb_ports pm = {["b" := "25519"]} /\ rdb_keys pm = rdb_ports pm.
Proof.
  split; [by vm_compute|]. split; [by vm_compute|].
  refine (proj1 (proj2 (ledger_invariant no_env 25518 25521 _ _))).
  econstructor; [by apply (step_for no_env "b"), (for_allocate no_env "b" id Replied)|].
  econstructor; [apply (step_for no_env "b"), (for_set no_env "b" ReplyLost 25519)|constructor].
Defined.

(** a forced port is all or nothing. [SetPort] refuses exactly a port
    that another server holds, leaving ledger and Redis as they were; when the
    transaction fails the server keeps the port it had; and when it works the
    server holds the new port and no other, every other server keeps its port,
    and both Redis records carry the new one. *)
Lemma SetPort_atomic o u port pm err pm' :
  one_port (usedPorts pm) -> SetPort o u port pm = (err, pm') ->
  ((exists owner, usedPorts pm !! port = Some owner /\ owner <> u) <->
     exists p owner, err = Some (ErrTaken p owner)) /\
  (err <> None -> usedPorts pm' = usedPorts pm) /\
  (err = None -> o = Replied /\
     (forall q v, usedPorts pm' !! q = Some v <->
        (q = port /\ v = u) \/ (q <> port /\ v <> u /\ usedPorts pm !! q = Some v)) /\
     rdb_keys pm' !! u = Some (Itoa port) /\ rdb_ports pm' !! u = Some (Itoa port)).
Proof.
  intros H1 E. pose proof (SetPort_cases _ _ _ _ _ _ E H1) as H.
  assert (Hfree : forall owner, usedPorts pm !! port = Some owner -> owner <> u ->
            err = Some (ErrTaken port owner)).
  { intros owner Ho Hne. unfold SetPort in E. rewrite Ho in E.
    destruct (String.eqb_spec owner u); [done|]. by simplify_eq. }
  split; [|split].
  - split; [intros (w & Hw & Hne); eauto|]. intros (p & owner & ->).
    destruct H as (_ & Ho & Hne & _). eauto.
  - intros Hne. destruct err as [[]|]; try done; try (by destruct H as (_ & _ & ? & _));
      [by destruct H as (_ & _ & _ & ->)].
  - intros ->. destruct H as (Ho & Hm & Hk & Hh & _). split_and!; try done.
    + intros q v. rewrite Hm. unfold moved. repeat case_decide; subst; naive_solver.
    + by rewrite Hk, lookup_insert_eq.
    + by rewrite Hh, lookup_insert_eq.
Qed.

Lemma SetPort_atomic_witness :
  (SetPort Replied "b" 25519 node).1 = Some (ErrTaken 25519 "a") /\
  usedPorts (SetPort Replied "b" 25519 node).2 = usedPorts node /\
  usedPorts (SetPort Replied "a" 25520 node).2 = {[25520 := "a"]}.
Proof.
  split_and!; [by vm_compute| |by vm_compute].
  refine (proj1 (proj2 (SetPort_atomic Replied "b" 25519 node (Some (ErrTaken 25519 "a"))
    (SetPort Replied "b" 25519 node).2 _ _)) _); [|by vm_compute|done].
  apply one_port_NoDup, (bool_decide_unpack _). by vm_compute.
Defined.

(** running containers get their ports back. Given the bindings of the
    host's containers, each with its own port, whatever a ledger loaded from
    Redis says and in whatever order the two passes visit them,
    [AdoptContainerBindings] ends with every container's port recorded for
    its server and nobody else, and with one port per server. *)
Lemma AdoptContainerBindings_restores io bs order pm :
  bindings_ok bs -> order ≡ₚ bs -> one_port (usedPorts pm) -> (forall u, io u = Replied) ->
  let pm' := AdoptContainerBindings io bs order pm in
  (forall u p, (u, p) ∈ bs -> usedPorts pm' !! p = Some u /\ GetPort u pm' = p) /\
  one_port (usedPorts pm').
Proof.
  intros Hb Hord H1 Hio pm'. unfold pm', AdoptContainerBindings, AdoptExistingBindings.
  set (pm1 := foldl (give_way io bs) pm bs).
  assert (Ha : adopting bs [] pm1).
  { split_and!; [| |set_solver].
    - apply (foldl_inv _ (fun pm => one_port (usedPorts pm))); [done|]. intros pm2 b _ Hp.
      destruct (give_way_used io bs pm2 b) as [-> | ->]; auto with platform.
    - intros b Hin. by apply give_way_all. }
  apply (adopt_all io bs pm1 order [] Hb) in Ha; [|intros b; by rewrite Hord|done].
  destruct Ha as (H2 & _ & Hd). split; [|done]. intros u p Hin.
  assert (Hp : usedPorts (foldl (adopt_one io) pm1 order) !! p = Some u).
  { apply (Hd (u, p)). simpl. by rewrite Hord. }
  split; [done|]. apply GetPort_pos; [done| |done]. apply (proj2 (proj2 Hb) _ Hin).
Qed.

Lemma AdoptContainerBindings_restores_witness :
  usedPorts (AdoptContainerBindings (fun _ => Replied) containers containers stale) =
    {[25600 := "b"; 25601 := "a"; 25602 := "c"]} /\
  GetPort "c" (AdoptContainerBindings (fun _ => Replied) containers containers stale) = 25602.
Proof.
  split; [by vm_compute|].
  refine (proj2 (proj1 (AdoptContainerBindings_restores (fun _ => Replied) containers containers stale
    _ _ _ _) "c" 25602 _)); try done.
  - split_and!; [by apply (bool_decide_unpack _); vm_compute..|]. intros b Hb.
    set_unfold in Hb. by destruct Hb as [-> | [-> | [-> | []]]].
  - apply one_port_NoDup, (bool_decide_unpack _). by vm_compute.
  - set_solver.
Defined.

(** allocations survive a restart. After any sequence of allocations,
    releases, forced ports and claims whose transactions are answered, a node
    that starts again and reads the hash back has exactly the ledger it had. *)
Lemma restart_restores getenv start stop pm :
  steps (pm_op getenv) (mkPM start stop ∅ ∅ ∅) pm ->
  usedPorts (NewPortManager start stop (rdb_keys pm) (rdb_ports pm) false Replied) = usedPorts pm.
Proof.
  intros Hs. assert (Hr : recorded pm).
  { eapply steps_invariant; [apply recorded_step|exact Hs|]. split_and!; [done| |done].
    intros u s. simpl. split; [done|]. by intros (p & _ & _ & Hp). }
  destruct Hr as (_ & Hsy & Hi). by apply load_synced.
Qed.

Lemma restart_restores_witness :
  let pm := (AllocatePort no_env id Replied "b"
              (SetPort Replied "a" 25520 (mkPM 25518 25519 ∅ ∅ ∅)).2).2 in
  usedPorts pm = {[25518 := "b"; 25520 := "a"]} /\
  usedPorts (NewPortManager 25518 25519 (rdb_keys pm) (rdb_ports pm) false Replied) = usedPorts pm.
Proof.
  split; [by vm_compute|]. apply (restart_restores no_env).
  econstructor; [by apply (op_set no_env "a" 25520)|].
  econstructor; [by apply (op_allocate no_env id "b")|constructor].
Defined.

(** *** PORT_RANGE *)

Definition valid_range (s e : Z) : Prop := 1 <= s /\ s <= e /\ e <= 65535.

Lemma parsePortRange_valid raw s e : parsePortRange raw = inl (s, e) -> valid_range s e.
Proof.
  unfold parsePortRange, valid_range. intros H. repeat case_match; simplify_eq. to_prop. lia.
Qed.

Lemma Itoa_plain z :
  0 <= z -> TrimSpace (Itoa z) = Itoa z /\ all_chars (not_char "-") (Itoa z) = true.
Proof.
  intros Hz. destruct (Itoa_chars z Hz) as [Hc _]. split.
  - eapply TrimSpace_all_graphic, all_chars_impl; [|done]. apply is_digit_graphic.
  - eapply all_chars_impl; [|done]. intros c. by apply digit_not_char.
Qed.

(** a range is usable or refused. The range the node works with is always
    within 1-65535 and never inverted, whatever PORT_RANGE says, so the
    allocation table is never sized by a negative number; a value in the
    documented form [start-end] is taken as it is, without a notice; and a
    value that is set but not taken always comes with a notice. *)
Lemma resolvePortRange_usable getenv quote :
  let '(s, e, notice) := resolvePortRange getenv quote in
  valid_range s e /\
  (forall a b, valid_range a b ->
     getenv "PORT_RANGE" = (Itoa a +:+ String "-" (Itoa b))%string ->
     (s, e, notice) = (a, b, "")) /\
  (notice = "" -> TrimSpace (getenv "PORT_RANGE") = "" \/
     parsePortRange (TrimSpace (getenv "PORT_RANGE")) = inl (s, e)).
Proof.
  destruct (resolvePortRange getenv quote) as [[s e] notice] eqn:E. unfold resolvePortRange in E.
  assert (Hdef : valid_range defaultPortRangeStart defaultPortRangeEnd).
  { unfold valid_range, defaultPortRangeStart, defaultPortRangeEnd. lia. }
  split_and!.
  - repeat case_match; simplify_eq; try done. by eapply parsePortRange_valid.
  - intros a b Hab Hg. unfold valid_range in Hab.
    destruct (Itoa_plain a ltac:(lia)) as [Ha1 Ha2], (Itoa_plain b ltac:(lia)) as [Hb1 Hb2].
    assert (Ht : TrimSpace (getenv "PORT_RANGE") = getenv "PORT_RANGE").
    { rewrite Hg. apply TrimSpace_all_graphic. rewrite all_chars_app. simpl.
      destruct (Itoa_chars a ltac:(lia)) as [Hca _], (Itoa_chars b ltac:(lia)) as [Hcb _].
      rewrite !(all_chars_impl is_digit graphic) by (done || apply is_digit_graphic). done. }
    rewrite Ht in E. destruct (String.eqb_spec (getenv "PORT_RANGE") "") as [H0|_].
    { rewrite Hg in H0. destruct (Itoa_chars a ltac:(lia)) as [_ Hne]. by destruct (Itoa a). }
    rewrite Hg in E. unfold parsePortRange in E. rewrite Cut_app, Ha1, Hb1 in E by done.
    rewrite !Atoi_Itoa in E by (apply small_port_int64; lia).
    destruct ((a <? 1) || (65535 <? a) || (b <? 1) || (65535 <? b)) eqn:Er.
    { exfalso. to_prop; lia. }
    destruct (Z.ltb_spec b a); [lia|]. by simplify_eq.
  - intros ->. repeat case_match; simplify_eq; to_prop; auto; done.
Qed.
