(* ===== verification/PowerLock.v ===== *)
(** * Power actions of one server (node/power_lock.go, node/stale_command.go)

    The node serialises the commands that stop, start or recreate a server's
    container with one lock per server, keeps at most one waiter per slot and
    lets a newer action replace the waiter of its slot. The file models one
    [serverPowerLock] with the goroutines that use it, one transition per
    critical section or channel operation of the source, so that commands, the
    reconciler and releases interleave at every point; then the checks that
    keep a late start from undoing a newer stop. *)

From S2P Require Import Prelude.
Open Scope string_scope.
Open Scope list_scope.
Open Scope Z_scope.

(** ** Actions and their slots *)

Definition powerActions : gset string := {["start"; "stop"; "kill"; "restart"]}.
Definition serialisedActions : gset string :=
  {["start"; "stop"; "restart"; "switch_server"; "update_resources"; "reconfigure"]}.

Definition waitSlot (action : string) : string :=
  if bool_decide (action ∈ powerActions) then "power" else action.

(** The fields of [DockerConfig] a payload may leave out, and the rest. *)
Record DockerConfig := mkDocker {
  RAMPaddingMB : option Z;
  HostPort : Z;
  ContainerPort : Z;
  rest : string }.

Definition inheritResourceChanges (newer older : DockerConfig) : DockerConfig :=
  mkDocker
    (match RAMPaddingMB newer with None => RAMPaddingMB older | Some _ => RAMPaddingMB newer end)
    (if HostPort newer =? 0 then HostPort older else HostPort newer)
    (if ContainerPort newer =? 0 then ContainerPort older else ContainerPort newer)
    (rest newer).

(** ** The lock and its goroutines *)

(** Where a goroutine stands in [lockServerPower] or [tryLockServerPower]. *)
Inductive pc :=
| Waiting      (* registered, in the first select *)
| GotTurn      (* sent on turn, before the second look at kick *)
| BackOff      (* replaced meanwhile, about to give the turn back *)
| TryTurn      (* the reconciler's turn, before setActive(true) *)
| Running      (* the action runs *)
| Releasing    (* setActive(false) done, the turn still to give back *)
| Ended (ran : bool).
#[export] Instance pc_eq_dec : EqDecision pc.
Proof. solve_decision. Defined.

Record thread := mkThread { th_slot : option string; th_pc : pc }.

(** [turn] is who put the token into the channel of capacity one; [waiting]
    names the waiter of a slot; [kicked] the waiters whose channel is closed;
    [cfgs] the payloads, which a newer waiter may still change. [newest]
    records the last action registered per slot and is never read. *)
Record lock := mkLock {
  turn : option nat;
  active : bool;
  waiting : gmap string nat;
  kicked : gset nat;
  cfgs : gmap nat DockerConfig;
  threads : gmap nat thread;
  next : nat;
  newest : gmap string nat }.

Definition new_lock : lock := mkLock None false ∅ ∅ ∅ ∅ 0 ∅.

Definition set_turn (t : option nat) (l : lock) : lock :=
  mkLock t (active l) (waiting l) (kicked l) (cfgs l) (threads l) (next l) (newest l).
Definition set_active (b : bool) (l : lock) : lock :=
  mkLock (turn l) b (waiting l) (kicked l) (cfgs l) (threads l) (next l) (newest l).
Definition set_waiting (w : gmap string nat) (l : lock) : lock :=
  mkLock (turn l) (active l) w (kicked l) (cfgs l) (threads l) (next l) (newest l).
Definition set_pc (t : nat) (p : pc) (l : lock) : lock :=
  mkLock (turn l) (active l) (waiting l) (kicked l) (cfgs l)
    (alter (fun th => mkThread (th_slot th) p) t (threads l)) (next l) (newest l).

(** The first critical section of [lockServerPower]: replace the waiter of the
    slot, inheriting what a waiting update_resources changed. *)
Definition register (action : string) (cfg : option DockerConfig) (l : lock) : lock :=
  let slot := waitSlot action in
  let t := next l in
  let old := waiting l !! slot in
  let cfg' := match old, cfg with
              | Some o, Some c =>
                  if (action =? "update_resources")%string then
                    match cfgs l !! o with
                    | Some oc => Some (inheritResourceChanges c oc)
                    | None => Some c
                    end
                  else Some c
              | _, _ => cfg
              end in
  mkLock (turn l) (active l) (<[slot := t]> (waiting l))
    (match old with Some o => {[o]} ∪ kicked l | None => kicked l end)
    (match cfg' with Some c => <[t := c]> (cfgs l) | None => cfgs l end)
    (<[t := mkThread (Some slot) Waiting]> (threads l)) (S t) (<[slot := t]> (newest l)).

Inductive label :=
| LCommand (action : string) (cfg : option DockerConfig)  (* lockServerPower begins *)
| LTry                    (* tryLockServerPower finds the turn free *)
| LTurn (t : nat)         (* l.turn <- struct{}{} *)
| LKick (t : nat)         (* <-kick in the first select *)
| LEnter (t : nat)        (* the second critical section *)
| LBack (t : nat)         (* <-l.turn of a replaced waiter *)
| LTryEnter (t : nat)     (* setActive(true) *)
| LFinish (t : nat)       (* release: setActive(false) *)
| LGive (t : nat).        (* release: <-l.turn *)

Definition exec (lb : label) (l : lock) : option lock :=
  match lb with
  | LCommand action cfg =>
      if bool_decide (action ∈ serialisedActions) then Some (register action cfg l) else None
  | LTry =>
      match turn l with
      | None => Some (mkLock (Some (next l)) (active l) (waiting l) (kicked l) (cfgs l)
                        (<[next l := mkThread None TryTurn]> (threads l)) (S (next l)) (newest l))
      | Some _ => None
      end
  | LTurn t =>
      match threads l !! t, turn l with
      | Some (mkThread _ Waiting), None => Some (set_turn (Some t) (set_pc t GotTurn l))
      | _, _ => None
      end
  | LKick t =>
      match threads l !! t with
      | Some (mkThread _ Waiting) =>
          if bool_decide (t ∈ kicked l) then Some (set_pc t (Ended false) l) else None
      | _ => None
      end
  | LEnter t =>
      match threads l !! t with
      | Some (mkThread (Some slot) GotTurn) =>
          if bool_decide (t ∈ kicked l) then Some (set_pc t BackOff l)
          else Some (set_active true (set_waiting (delete slot (waiting l)) (set_pc t Running l)))
      | _ => None
      end
  | LBack t =>
      match threads l !! t with
      | Some (mkThread _ BackOff) => Some (set_turn None (set_pc t (Ended false) l))
      | _ => None
      end
  | LTryEnter t =>
      match threads l !! t with
      | Some (mkThread _ TryTurn) => Some (set_active true (set_pc t Running l))
      | _ => None
      end
  | LFinish t =>
      match threads l !! t with
      | Some (mkThread _ Running) => Some (set_active false (set_pc t Releasing l))
      | _ => None
      end
  | LGive t =>
      match threads l !! t with
      | Some (mkThread _ Releasing) => Some (set_turn None (set_pc t (Ended true) l))
      | _ => None
      end
  end.

Definition lstep (l l' : lock) : Prop := exists lb, exec lb l = Some l'.

(** [serverPowerActive] *)
Definition serverPowerActive (l : lock) : bool := active l.

(** ** Invariant *)

(** The goroutine has the turn. *)
Definition holds_turn (p : pc) : bool :=
  match p with GotTurn | BackOff | TryTurn | Running | Releasing => true | _ => false end.

(** A command that is registered and has not been let in or sent away. *)
Definition pending (p : pc) : bool := match p with Waiting | GotTurn => true | _ => false end.

Record lock_inv (l : lock) : Prop := {
  li_fresh : forall t th, threads l !! t = Some th -> (t < next l)%nat;
  li_turn : forall t th, threads l !! t = Some th -> holds_turn (th_pc th) = true <-> turn l = Some t;
  li_holder : forall t, turn l = Some t -> is_Some (threads l !! t);
  li_active : active l = true <-> exists t th, threads l !! t = Some th /\ th_pc th = Running;
  li_slot : forall t th, threads l !! t = Some th -> pending (th_pc th) = true ->
            exists slot, th_slot th = Some slot /\ (t ∈ kicked l \/ waiting l !! slot = Some t);
  li_waiter : forall slot t, waiting l !! slot = Some t ->
              newest l !! slot = Some t /\ t ∉ kicked l /\
              exists th, threads l !! t = Some th /\ th_slot th = Some slot /\ pending (th_pc th) = true;
  li_newest : forall t th slot, threads l !! t = Some th -> th_slot th = Some slot ->
              exists u, newest l !! slot = Some u /\ (t <= u)%nat;
  li_refused : forall t th, threads l !! t = Some th ->
               th_pc th = Ended false \/ th_pc th = BackOff -> t ∈ kicked l;
  li_kicked : forall t, t ∈ kicked l -> exists th slot u, threads l !! t = Some th /\
              th_slot th = Some slot /\ newest l !! slot = Some u /\ (t < u)%nat /\
              th_pc th <> TryTurn /\ th_pc th <> Running /\ th_pc th <> Releasing /\
              th_pc th <> Ended true;
  li_slots : forall slot t, waiting l !! slot = Some t ->
             slot ∈ ["power"; "switch_server"; "update_resources"; "reconfigure"] }.

(** ** Lemmas *)

Lemma lock_inv_new : lock_inv new_lock.
Proof.
  split; simpl; try done; set_solver.
Qed.

(** The thread table after one goroutine moved on. *)
Lemma set_pc_lookup t p l u th :
  threads (set_pc t p l) !! u = Some th <->
  (u <> t /\ threads l !! u = Some th) \/
  (u = t /\ exists th0, threads l !! t = Some th0 /\ th = mkThread (th_slot th0) p).
Proof.
  simpl. rewrite lookup_alter_Some. naive_solver.
Qed.

(** Nobody else has the turn. *)
Lemma turn_unique l t u th th' :
  lock_inv l -> threads l !! t = Some th -> threads l !! u = Some th' ->
  holds_turn (th_pc th) = true -> holds_turn (th_pc th') = true -> t = u.
Proof.
  intros Hi Ht Hu H1 H2. apply (li_turn l Hi t th Ht) in H1. apply (li_turn l Hi u th' Hu) in H2.
  congruence.
Qed.

(** One goroutine moves from [p] to [p'], with the turn and the active flag
    following it; what is left to show is what depends on the move. *)
Lemma lock_inv_move l t slot p p' tn ac w :
  lock_inv l -> threads l !! t = Some (mkThread slot p) ->
  (holds_turn p' = true <-> tn = Some t) ->
  (tn = turn l \/ (tn = Some t /\ turn l = None) \/ (tn = None /\ holds_turn p = true)) ->
  (ac = true <-> p' = Running \/ (p <> Running /\ active l = true)) ->
  (w = waiting l /\ pending p' = pending p \/
   (exists s, slot = Some s /\ t ∈ kicked l /\ w = waiting l /\ pending p = true /\ pending p' = false) \/
   (exists s, slot = Some s /\ t ∉ kicked l /\ w = delete s (waiting l) /\ pending p = true /\ pending p' = false)) ->
  (p' = Ended false \/ p' = BackOff -> t ∈ kicked l) ->
  (p' = TryTurn \/ p' = Running \/ p' = Releasing \/ p' = Ended true -> t ∉ kicked l) ->
  lock_inv (set_turn tn (set_active ac (set_waiting w (set_pc t p' l)))).
Proof.
  intros Hi Ht Hp' Htn Hac Hw Href Hrun.
  set (l' := set_turn tn (set_active ac (set_waiting w (set_pc t p' l)))).
  assert (Hth : forall u th, threads l' !! u = Some th <->
    (u <> t /\ threads l !! u = Some th) \/ (u = t /\ th = mkThread slot p')).
  { intros u th. change (threads l') with (threads (set_pc t p' l)).
    rewrite set_pc_lookup, Ht. clear. naive_solver. }
  assert (Hpt : holds_turn p = true <-> turn l = Some t) by apply (li_turn l Hi t _ Ht).
  split.
  - intros u th [[_ Hu]|[-> _]]%Hth; by eapply (li_fresh l Hi).
  - intros u th [[Hne Hu]|[-> ->]]%Hth; [|done]. rewrite (li_turn l Hi u th Hu).
    change (turn l') with tn. destruct Htn as [->|[[-> Hn]|[-> Hh]]]; [done|rewrite Hn|].
    { split; [done|]. by intros [= <-]. }
    apply Hpt in Hh. rewrite Hh. split; [|done]. by intros [= <-].
  - intros u Hu. change (turn l') with tn in Hu.
    assert (is_Some (threads l !! u)) as [th Hth'].
    { destruct Htn as [->|[[-> _]|[-> _]]]; simplify_eq; eauto. by apply (li_holder l Hi). }
    destruct (decide (u = t)) as [->|]; eexists; apply Hth; eauto.
  - change (active l') with ac. rewrite Hac. split.
    + intros [->|[Hpr Ha]].
      * exists t. eexists. split; [apply Hth; by right|done].
      * apply (li_active l Hi) in Ha as (u & th & Hu & Hr). exists u, th. split; [|done].
        apply Hth. left. split; [|done]. intros ->. rewrite Ht in Hu. by simplify_eq.
    + intros (u & th & [[Hne Hu]|[-> ->]]%Hth & Hr); [|by left]. right. split.
      * intros ->. destruct Hne. apply (turn_unique l u t th (mkThread slot Running)); try done. by rewrite Hr.
      * apply (li_active l Hi). eauto.
  - intros u th [[Hne Hu]|[-> ->]]%Hth Hpe.
    + destruct (li_slot l Hi u th Hu Hpe) as (s & Hs & Hk). exists s. split; [done|].
      destruct Hk as [|Hk]; [by left|right]. change (waiting l') with w.
      destruct Hw as [[-> _]|[(s' & -> & _ & -> & _)|(s' & -> & Hk' & -> & Hpp & _)]]; [done|done|].
      rewrite lookup_delete_ne; [done|]. intros <-.
      destruct (li_slot l Hi t _ Ht Hpp) as (s2 & Hs2 & Hk2). simplify_eq/=.
      destruct Hk2; [done|]. congruence.
    + simpl in Hpe. destruct Hw as [[-> Hpp]|[(s' & _ & _ & _ & _ & ?)|(s' & _ & _ & _ & _ & ?)]];
        [|congruence..].
      apply (li_slot l Hi t _ Ht). simpl. congruence.
  - intros s u Hu. change (waiting l') with w in Hu.
    assert (Hu' : waiting l !! s = Some u).
    { destruct Hw as [[-> _]|[(s' & _ & _ & -> & _)|(s' & _ & _ & -> & _)]]; [done|done|].
      by apply lookup_delete_Some in Hu as [_ ?]. }
    destruct (li_waiter l Hi s u Hu') as (H1 & H2 & th & H3 & H4 & H5). split_and!; [done|done|].
    destruct (decide (u = t)) as [->|]; [|exists th; split; [apply Hth; by left|done]].
    eexists. split; [apply Hth; by right|]. rewrite Ht in H3. simplify_eq. simpl in *. subst slot.
    split; [done|]. destruct Hw as [[-> Hpp]|[(s' & _ & Hk & _)|(s' & [= <-] & _ & -> & _)]].
    * congruence.
    * done.
    * by rewrite lookup_delete_eq in Hu.
  - intros u th s [[Hne Hu]|[-> ->]]%Hth Hs; [by eapply (li_newest l Hi)|].
    by eapply (li_newest l Hi t _ s Ht).
  - intros u th [[Hne Hu]|[-> ->]]%Hth Hr; [by eapply (li_refused l Hi)|]. auto.
  - intros u Hk. change (kicked l') with (kicked l) in Hk.
    destruct (li_kicked l Hi u Hk) as (th & s & v & Hu & Hs & Hn & Hlt & _).
    destruct (decide (u = t)) as [->|]; [|].
    2: { destruct (li_kicked l Hi u Hk) as (th' & s' & v' & Hu' & H'). exists th', s', v'.
         split; [apply Hth; by left|done]. }
    rewrite Ht in Hu. simplify_eq. exists (mkThread slot p'), s, v.
    split_and!; try done; [apply Hth; by right|..]; simpl; intros ->; by apply Hrun; auto.
  - intros s u Hu. change (waiting l') with w in Hu.
    destruct Hw as [[-> _]|[(s' & _ & _ & -> & _)|(s' & _ & _ & -> & _)]]; [by eapply (li_slots l Hi)..|].
    apply lookup_delete_Some in Hu as [_ ?]. by eapply (li_slots l Hi).
Qed.

Lemma waitSlot_known action :
  action ∈ serialisedActions ->
  waitSlot action ∈ ["power"; "switch_server"; "update_resources"; "reconfigure"].
Proof.
  unfold serialisedActions. rewrite !elem_of_union, !elem_of_singleton.
  intros H. repeat destruct H as [H|H]; subst; apply (bool_decide_unpack _); by vm_compute.
Qed.

Lemma lock_inv_register action cfg l :
  lock_inv l -> action ∈ serialisedActions -> lock_inv (register action cfg l).
Proof.
  intros Hi Hact. pose proof (waitSlot_known action Hact) as Hknown. unfold register.
  set (slot := waitSlot action) in *. set (old := waiting l !! slot).
  assert (Hnew : threads l !! next l = None).
  { apply eq_None_not_Some. intros [th H%(li_fresh l Hi)]. lia. }
  assert (Hk : forall u, u ∈ (match old with Some o => {[o]} ∪ kicked l | None => kicked l end) <->
    u ∈ kicked l \/ waiting l !! slot = Some u).
  { intros u. fold old. destruct old; rewrite ?elem_of_union, ?elem_of_singleton; clear; naive_solver. }
  generalize dependent (match old with Some o => {[o]} ∪ kicked l | None => kicked l end).
  intros K HK. split; simpl.
  - intros t th [[<- <-]|[_ H]]%lookup_insert_Some; [lia|]. apply (li_fresh l Hi) in H. lia.
  - intros t th [[<- <-]|[_ H]]%lookup_insert_Some; [|by apply (li_turn l Hi)]. simpl.
    split; [done|]. intros [th H]%(li_holder l Hi). congruence.
  - intros t H. rewrite lookup_insert_is_Some'. right. by apply (li_holder l Hi).
  - rewrite (li_active l Hi). split; intros (t & th & H & Hr); exists t, th; split; try done.
    + rewrite lookup_insert_ne; [done|]. intros <-. congruence.
    + apply lookup_insert_Some in H as [[_ <-]|[_ H]]; done.
  - intros t th [[<- <-]|[Hne H]]%lookup_insert_Some Hp.
    + exists slot. rewrite lookup_insert_eq. auto.
    + destruct (li_slot l Hi t th H Hp) as (s & Hs & Hw). exists s. split; [done|].
      rewrite HK. destruct Hw as [|Hw]; [auto|].
      destruct (decide (slot = s)) as [<-|]; [auto|]. rewrite lookup_insert_ne by done. auto.
  - intros s t [[<- <-]|[Hne H]]%lookup_insert_Some.
    + rewrite !lookup_insert_eq. split_and!; [done| |eauto].
      rewrite HK. intros [(th & _ & _ & H & _)%(li_kicked l Hi)|H]; [congruence|].
      apply (li_waiter l Hi) in H as (_ & _ & th & H & _). congruence.
    + rewrite lookup_insert_ne by done.
      destruct (li_waiter l Hi s t H) as (H1 & H2 & th & H3 & H4 & H5). split_and!; [done| |].
      * rewrite HK. intros [|H6]; [done|].
        apply (li_waiter l Hi) in H6 as (_ & _ & th' & H7 & H8 & _). congruence.
      * exists th. rewrite lookup_insert_ne; [done|]. intros <-. congruence.
  - intros t th s [[<- <-]|[Hne H]]%lookup_insert_Some Hs; simpl in *.
    + simplify_eq. exists (next l). rewrite lookup_insert_eq. auto.
    + destruct (li_newest l Hi t th s H Hs) as (u & Hu & Hle). pose proof (li_fresh l Hi t th H).
      destruct (decide (slot = s)) as [<-|]; [exists (next l)|exists u].
      * rewrite lookup_insert_eq. split; [done|lia].
      * by rewrite lookup_insert_ne.
  - intros t th [[<- <-]|[Hne H]]%lookup_insert_Some Hr; [naive_solver|].
    rewrite HK. left. by eapply (li_refused l Hi).
  - intros t [Ht|Ht]%HK.
    + destruct (li_kicked l Hi t Ht) as (th & s & u & H1 & H2 & H3 & H4 & H5 & H6 & H7 & H8).
      pose proof (li_fresh l Hi t th H1).
      exists th, s. destruct (decide (slot = s)) as [<-|Hne]; [exists (next l)|exists u].
      all: rewrite ?lookup_insert_eq, ?(lookup_insert_ne (newest l)) by done.
      all: rewrite lookup_insert_ne by lia; split_and!; done || lia.
    + destruct (li_waiter l Hi slot t Ht) as (H1 & H2 & th & H3 & H4 & H5).
      pose proof (li_fresh l Hi t th H3). exists th, slot, (next l).
      rewrite lookup_insert_eq, lookup_insert_ne by lia.
      split_and!; try done; destruct (th_pc th); done.
  - intros s t [[<- _]|[_ H]]%lookup_insert_Some; [done|]. by eapply (li_slots l Hi).
Qed.

Lemma lock_inv_try l l' : lock_inv l -> exec LTry l = Some l' -> lock_inv l'.
Proof.
  intros Hi H. simpl in H. destruct (turn l) eqn:Ht; [done|]. simplify_eq.
  assert (Hnew : threads l !! next l = None).
  { apply eq_None_not_Some. intros [th H%(li_fresh l Hi)]. lia. }
  split; simpl.
  - intros t th [[<- <-]|[_ H]]%lookup_insert_Some; [lia|]. apply (li_fresh l Hi) in H. lia.
  - intros t th [[<- <-]|[Hne H]]%lookup_insert_Some; [done|].
    rewrite (li_turn l Hi t th H), Ht. naive_solver.
  - intros t [= <-]. rewrite lookup_insert_eq. eauto.
  - rewrite (li_active l Hi). split; intros (t & th & H & Hr); exists t, th; split; try done.
    + rewrite lookup_insert_ne; [done|]. intros <-. congruence.
    + apply lookup_insert_Some in H as [[_ <-]|[_ H]]; done.
  - intros t th [[<- <-]|[_ H]]%lookup_insert_Some Hp; [done|]. by apply (li_slot l Hi).
  - intros s t H. destruct (li_waiter l Hi s t H) as (H1 & H2 & th & H3 & H4). split_and!; [done|done|].
    exists th. rewrite lookup_insert_ne; [done|]. intros <-. congruence.
  - intros t th s [[<- <-]|[_ H]]%lookup_insert_Some Hs; [done|]. by eapply (li_newest l Hi).
  - intros t th [[<- <-]|[_ H]]%lookup_insert_Some Hr; [naive_solver|]. by eapply (li_refused l Hi).
  - intros t H. destruct (li_kicked l Hi t H) as (th & s & u & H1 & H2). exists th, s, u.
    rewrite lookup_insert_ne; [done|]. intros <-. congruence.
  - apply (li_slots l Hi).
Qed.

(** A thread that is in the lock was not sent away. *)
Lemma not_kicked l t th :
  lock_inv l -> threads l !! t = Some th ->
  th_pc th = TryTurn \/ th_pc th = Running \/ th_pc th = Releasing -> t ∉ kicked l.
Proof.
  intros Hi Ht Hp Hk. destruct (li_kicked l Hi t Hk) as (th' & s & u & H1 & _ & _ & _ & H2 & H3 & H4 & _).
  rewrite Ht in H1. simplify_eq. tauto.
Qed.

Lemma exec_inv lb l l' : exec lb l = Some l' -> lock_inv l -> lock_inv l'.
Proof.
  intros H Hi. destruct lb as [action cfg| |t|t|t|t|t|t|t]; simpl in H.
  { case_bool_decide; [|done]. simplify_eq. by apply lock_inv_register. }
  { by eapply lock_inv_try. }
  all: destruct (threads l !! t) as [[slot p]|] eqn:Ht; [|done].
  all: pose proof (li_turn l Hi t _ Ht) as Htn; simpl in Htn.
  - destruct p; try done. destruct (turn l) eqn:Et; simplify_eq.
    apply (lock_inv_move l t slot Waiting GotTurn (Some t) (active l) (waiting l)); naive_solver.
  - destruct p; try done. case_bool_decide; simplify_eq.
    destruct (li_slot l Hi t _ Ht eq_refl) as (s & Hs & _). simpl in Hs.
    apply (lock_inv_move l t slot Waiting (Ended false) (turn l) (active l) (waiting l)); naive_solver.
  - destruct p, slot as [s|]; try done. case_bool_decide; simplify_eq.
    + apply (lock_inv_move l t (Some s) GotTurn BackOff (turn l) (active l) (waiting l)); naive_solver.
    + apply (lock_inv_move l t (Some s) GotTurn Running (turn l) true (delete s (waiting l)));
        naive_solver.
  - destruct p; try done. simplify_eq.
    pose proof (li_refused l Hi t _ Ht (or_intror eq_refl)) as Hk.
    apply (lock_inv_move l t slot BackOff (Ended false) None (active l) (waiting l)); naive_solver.
  - destruct p; try done. simplify_eq.
    pose proof (not_kicked l t _ Hi Ht (or_introl eq_refl)) as Hk.
    apply (lock_inv_move l t slot TryTurn Running (turn l) true (waiting l)); naive_solver.
  - destruct p; try done. simplify_eq.
    pose proof (not_kicked l t _ Hi Ht (or_intror (or_introl eq_refl))) as Hk.
    apply (lock_inv_move l t slot Running Releasing (turn l) false (waiting l)); naive_solver.
  - destruct p; try done. simplify_eq.
    pose proof (not_kicked l t _ Hi Ht (or_intror (or_intror eq_refl))) as Hk.
    apply (lock_inv_move l t slot Releasing (Ended true) None (active l) (waiting l)); naive_solver.
Qed.

Lemma lock_inv_reachable l : steps lstep new_lock l -> lock_inv l.
Proof.
  intros H. eapply steps_invariant; [|exact H|apply lock_inv_new].
  intros a b [lb Hlb]. by eapply exec_inv.
Qed.

Lemma kicked_mono l l' : lstep l l' -> kicked l ⊆ kicked l'.
Proof.
  intros [lb H]. destruct lb; simpl in H; repeat case_match; simplify_eq; try done.
  unfold register. simpl. destruct (waiting l !! _); [apply union_subseteq_r|done].
Qed.

Lemma kicked_steps l l' : steps lstep l l' -> kicked l ⊆ kicked l'.
Proof. induction 1 as [|a b c H _ IH]; [done|]. etransitivity; [by apply kicked_mono|done]. Qed.

(** *** Work left *)

Definition rank (p : pc) : nat :=
  match p with
  | Waiting => 5 | GotTurn => 4 | TryTurn => 3 | Running => 2 | BackOff | Releasing => 1 | Ended _ => 0
  end.

Definition work_of (m : gmap nat thread) : nat :=
  sum_list (map (fun e => rank (th_pc e.2)) (map_to_list m)).
Definition work (l : lock) : nat := work_of (threads l).

Lemma work_split m t th :
  m !! t = Some th -> work_of m = (rank (th_pc th) + work_of (delete t m))%nat.
Proof.
  intros H. unfold work_of. rewrite <- (insert_delete_id m t th H) at 1.
  rewrite map_to_list_insert by apply lookup_delete_eq. done.
Qed.

Lemma work_set_pc l t th p :
  threads l !! t = Some th -> (rank p < rank (th_pc th))%nat -> (work (set_pc t p l) < work l)%nat.
Proof.
  intros H Hlt. unfold work. rewrite (work_split (threads l) t th H).
  rewrite (work_split (threads (set_pc t p l)) t (mkThread (th_slot th) p)).
  - simpl. rewrite delete_alter_eq. lia.
  - simpl. by rewrite lookup_alter_eq, H.
Qed.

(** Steps of goroutines that are already there. *)
Definition internal (lb : label) : bool :=
  match lb with LCommand _ _ | LTry => false | _ => true end.

Lemma internal_decreases lb l l' :
  exec lb l = Some l' -> internal lb = true -> (work l' < work l)%nat.
Proof.
  intros H Hin. destruct lb as [action cfg| |t|t|t|t|t|t|t]; simpl in H; try done.
  all: destruct (threads l !! t) as [[slot p]|] eqn:Ht; [|done].
  all: destruct p; repeat case_match; simplify_eq.
  all: eapply (work_set_pc l t _ _ Ht); simpl; lia.
Qed.

Lemma progress l t th :
  lock_inv l -> threads l !! t = Some th -> rank (th_pc th) <> 0%nat ->
  exists lb l', internal lb = true /\ exec lb l = Some l'.
Proof.
  intros Hi Ht Hr. destruct (turn l) as [u|] eqn:Hu.
  - destruct (li_holder l Hi u Hu) as [[slot p] Hth].
    pose proof (proj2 (li_turn l Hi u _ Hth) Hu) as Hh. simpl in Hh.
    destruct p; try done.
    + destruct (li_slot l Hi u _ Hth eq_refl) as (s & Hs & _). simpl in Hs. subst slot.
      exists (LEnter u). simpl. rewrite Hth. case_bool_decide; eauto.
    + exists (LBack u). simpl. rewrite Hth. eauto.
    + exists (LTryEnter u). simpl. rewrite Hth. eauto.
    + exists (LFinish u). simpl. rewrite Hth. eauto.
    + exists (LGive u). simpl. rewrite Hth. eauto.
  - pose proof (li_turn l Hi t th Ht) as Hh. rewrite Hu in Hh. destruct th as [slot p]. simpl in *.
    destruct p; try done; try (by pose proof (proj1 Hh eq_refl)).
    exists (LTurn t). simpl. rewrite Ht, Hu. eauto.
Qed.

(** *** Payloads *)

(** The newest value that is not missing. *)
Fixpoint last_set {A} (missing : A -> bool) (x : A) (l : list A) : A :=
  match l with [] => x | y :: l => last_set missing (if missing y then x else y) l end.

Definition merged (c : DockerConfig) (cs : list DockerConfig) : DockerConfig :=
  foldl (fun older newer => inheritResourceChanges newer older) c cs.

Lemma merged_fields c cs :
  RAMPaddingMB (merged c cs) =
    last_set (fun o => match o with None => true | Some _ => false end) (RAMPaddingMB c)
      (map RAMPaddingMB cs) /\
  HostPort (merged c cs) = last_set (Z.eqb 0) (HostPort c) (map HostPort cs) /\
  ContainerPort (merged c cs) = last_set (Z.eqb 0) (ContainerPort c) (map ContainerPort cs) /\
  rest (merged c cs) = last_set (fun _ => false) (rest c) (map rest cs).
Proof.
  revert c. induction cs as [|d cs IH]; intros c; [done|].
  change (merged c (d :: cs)) with (merged (inheritResourceChanges d c) cs).
  destruct (IH (inheritResourceChanges d c)) as (-> & -> & -> & ->).
  unfold inheritResourceChanges. cbn [RAMPaddingMB HostPort ContainerPort rest map last_set].
  rewrite !(Z.eqb_sym 0). by destruct (RAMPaddingMB d).
Qed.

Definition save (cfg : DockerConfig) (l : lock) : lock := register "update_resources" (Some cfg) l.

Lemma save_waiter cfg l o oc :
  waiting l !! "update_resources" = Some o -> cfgs l !! o = Some oc ->
  let l' := save cfg l in
  waiting l' !! "update_resources" = Some (next l) /\
  cfgs l' !! next l = Some (inheritResourceChanges cfg oc).
Proof.
  intros Hw Ho. unfold save, register.
  replace (waitSlot "update_resources") with "update_resources" by by vm_compute.
  simpl. rewrite Hw, Ho. simpl. by rewrite !lookup_insert_eq.
Qed.

Lemma saves_waiter cs l o oc :
  waiting l !! "update_resources" = Some o -> cfgs l !! o = Some oc ->
  let l' := foldl (fun l c => save c l) l cs in
  exists o', waiting l' !! "update_resources" = Some o' /\ cfgs l' !! o' = Some (merged oc cs).
Proof.
  revert l o oc. induction cs as [|c cs IH]; intros l o oc Hw Ho; simpl; [eauto|].
  destruct (save_waiter c l o oc Hw Ho) as [H1 H2]. by apply (IH _ _ _ H1 H2).
Qed.

(** ** Late commands (stale_command.go)

    Times are in nanoseconds, [issuedAt] in seconds as it travels. *)

Definition staleCommandAge : Z := 600 * 1000000000.

(** [time.Time.Sub] saturates at the bounds of [time.Duration]. *)
Definition time_sub (a b : Z) : Z := Z.max (- 2 ^ 63) (Z.min (2 ^ 63 - 1) (a - b)).

Definition stalePowerAction (action : string) (issuedAt now : Z) (desired : string)
    (desiredErr : bool) : bool :=
  if (issuedAt =? 0) || desiredErr || (time_sub now (issuedAt * 1000000000) <? staleCommandAge)
  then false
  else if (action =? "start")%string || (action =? "restart")%string
  then negb (desired =? "online")%string
  else if (action =? "stop")%string || (action =? "kill")%string
  then (desired =? "online")%string
  else false.

Definition stopNotedAfter (lastStop : option Z) (issuedAt : Z) : bool :=
  if issuedAt =? 0 then false
  else match lastStop with Some v => issuedAt <? v | None => false end.

Definition overtakenByStop (action : string) (lastStop : option Z) (issuedAt : Z) : bool :=
  if (action =? "start")%string || (action =? "restart")%string
  then stopNotedAfter lastStop issuedAt else false.

(** [noteStop] by any number of goroutines at once: the value stored for the
    server and where each call stands in its loop. *)
Inductive note_pc := NLoad | NCas (old : Z) | NDone.
Record notes := mkNotes { lastStop : option Z; calls : gmap nat (Z * note_pc) }.

Definition noteStop_step (t : nat) (s : notes) : option notes :=
  match calls s !! t with
  | Some (issuedAt, NLoad) =>
      (* LoadOrStore *)
      match lastStop s with
      | None => Some (mkNotes (Some issuedAt) (<[t := (issuedAt, NDone)]> (calls s)))
      | Some old =>
          Some (mkNotes (lastStop s)
                  (<[t := (issuedAt, if issuedAt <=? old then NDone else NCas old)]> (calls s)))
      end
  | Some (issuedAt, NCas old) =>
      (* CompareAndSwap *)
      if bool_decide (lastStop s = Some old)
      then Some (mkNotes (Some issuedAt) (<[t := (issuedAt, NDone)]> (calls s)))
      else Some (mkNotes (lastStop s) (<[t := (issuedAt, NLoad)]> (calls s)))
  | _ => None
  end.

(** A call returns at once for a command without a time. *)
Definition noteStop_begin (t : nat) (issuedAt : Z) (s : notes) : option notes :=
  match calls s !! t with
  | Some _ => None
  | None => if issuedAt =? 0 then Some s
            else Some (mkNotes (lastStop s) (<[t := (issuedAt, NLoad)]> (calls s)))
  end.

Definition note_step (s s' : notes) : Prop :=
  (exists t, noteStop_step t s = Some s') \/ (exists t i, noteStop_begin t i s = Some s').

(** What is stored is at least every call that returned, and is one of the
    times noted. *)
Definition notes_inv (s : notes) : Prop :=
  (forall t i, calls s !! t = Some (i, NDone) -> exists v, lastStop s = Some v /\ i <= v) /\
  (forall t i old, calls s !! t = Some (i, NCas old) -> old < i) /\
  (forall v, lastStop s = Some v -> exists t pc, calls s !! t = Some (v, pc)).

Lemma notes_inv_step s s' : note_step s s' -> notes_inv s -> notes_inv s'.
Proof.
  intros [[t H]|(t & i & H)] (Hd & Hc & Hv).
  - unfold noteStop_step in H. destruct (calls s !! t) as [[i p]|] eqn:Ht; [|done].
    destruct p as [|old|]; [destruct (lastStop s) as [old|] eqn:El| |done]; simplify_eq.
    + split_and!; simpl.
      * intros u j. rewrite lookup_insert_Some. intros [[<- Hj]|[_ Hu]]; [|eauto].
        destruct (Z.leb_spec i old); simplify_eq. eauto.
      * intros u j o. rewrite lookup_insert_Some. intros [[<- Hj]|[_ Hu]]; [|eauto].
        destruct (Z.leb_spec i old); by simplify_eq.
      * intros v [= ->]. destruct (Hv v eq_refl) as (u & pc & Hu).
        destruct (decide (u = t)) as [->|]; [|exists u, pc; by rewrite lookup_insert_ne].
        rewrite Ht in Hu. simplify_eq. exists t. eexists. by rewrite lookup_insert_eq.
    + split_and!; simpl.
      * intros u j. rewrite lookup_insert_Some. intros [[<- Hj]|[_ Hu]]; [simplify_eq; exists j; by split; [|lia]|].
        by destruct (Hd u j Hu) as (v & ? & _).
      * intros u j o. rewrite lookup_insert_Some. intros [[<- Hj]|[_ Hu]]; [done|eauto].
      * intros v [= <-]. exists t, NDone. by rewrite lookup_insert_eq.
    + pose proof (Hc t i old Ht). case_bool_decide as Hb; simplify_eq; split_and!; simpl.
      * intros u j. rewrite lookup_insert_Some. intros [[<- Hj]|[_ Hu]]; [simplify_eq; exists j; by split; [|lia]|].
        destruct (Hd u j Hu) as (v & Hv' & Hle). exists i. split; [done|].
        rewrite Hb in Hv'. simplify_eq. lia.
      * intros u j o. rewrite lookup_insert_Some. intros [[<- Hj]|[_ Hu]]; [done|eauto].
      * intros v [= <-]. exists t, NDone. by rewrite lookup_insert_eq.
      * intros u j. rewrite lookup_insert_Some. intros [[<- Hj]|[_ Hu]]; [done|eauto].
      * intros u j o. rewrite lookup_insert_Some. intros [[<- Hj]|[_ Hu]]; [done|eauto].
      * intros v Hv'. destruct (Hv v Hv') as (u & pc & Hu).
        destruct (decide (u = t)) as [->|]; [|exists u, pc; by rewrite lookup_insert_ne].
        rewrite Ht in Hu. simplify_eq. exists t. eexists. by rewrite lookup_insert_eq.
  - unfold noteStop_begin in H. destruct (calls s !! t) eqn:Ht; [done|].
    destruct (i =? 0); simplify_eq; [done|]. split_and!; simpl.
    + intros u j. rewrite lookup_insert_Some. intros [[<- Hj]|[_ Hu]]; [done|eauto].
    + intros u j o. rewrite lookup_insert_Some. intros [[<- Hj]|[_ Hu]]; [done|eauto].
    + intros v Hv'. destruct (Hv v Hv') as (u & pc & Hu). exists u, pc.
      rewrite lookup_insert_ne; [done|]. intros <-. congruence.
Qed.

(** The stored time never goes back. *)
Lemma notes_mono s s' v :
  note_step s s' -> notes_inv s -> lastStop s = Some v -> exists v', lastStop s' = Some v' /\ v <= v'.
Proof.
  intros [[t H]|(t & i & H)] (_ & Hc & _) Hv.
  - unfold noteStop_step in H. destruct (calls s !! t) as [[i p]|] eqn:Ht; [|done].
    destruct p as [|old|]; [rewrite Hv in H; simplify_eq; exists v; by split; [|lia]| |done].
    pose proof (Hc t i old Ht). case_bool_decide as Hb; simplify_eq.
    + exists i. split; [done|lia].
    + exists v. by split; [|lia].
  - unfold noteStop_begin in H. repeat case_match; simplify_eq; exists v; by split; [|lia].
Qed.

Lemma notes_steps s s' v :
  steps note_step s s' -> notes_inv s -> lastStop s = Some v ->
  exists v', lastStop s' = Some v' /\ v <= v'.
Proof.
  intros Hs. revert v. induction Hs as [|a b c Hab _ IH]; intros v Hi Hv; [exists v; by split; [|lia]|].
  destruct (notes_mono a b v Hab Hi Hv) as (v1 & H1 & Hle).
  destruct (IH v1 (notes_inv_step _ _ Hab Hi) H1) as (v2 & H2 & Hle2). exists v2. split; [done|lia].
Qed.

Definition no_notes : notes := mkNotes None ∅.

Lemma notes_reachable s : steps note_step no_notes s -> notes_inv s.
Proof.
  intros H. eapply steps_invariant; [apply notes_inv_step|exact H|]. by split_and!.
Qed.

(** ** Concrete schedules *)
Fixpoint run_lock (ls : list label) (l : lock) : option lock :=
  match ls with
  | [] => Some l
  | lb :: ls => match exec lb l with Some l' => run_lock ls l' | None => None end
  end.

Lemma run_lock_steps ls l l' : run_lock ls l = Some l' -> steps lstep l l'.
Proof.
  revert l. induction ls as [|lb ls IH]; simpl; intros l H; [simplify_eq; constructor|].
  destruct (exec lb l) as [l1|] eqn:E; [|done]. econstructor; [by exists lb|auto].
Qed.

(** A stop runs; a start waits and a stop replaces it as the turn comes free. *)
Definition clicks : list label :=
  [LCommand "stop" None; LTurn 0; LEnter 0; LCommand "start" None; LFinish 0; LGive 0; LTurn 1;
   LCommand "stop" None].

(** ** Properties *)

(** C24: one power action at a time. In every reachable state of a server's
    lock, whatever interleaving of commands, the reconciler's try-lock and
    releases led there, at most one action runs, [serverPowerActive] says
    exactly whether one does, and at most four commands hold a waiting
    place. *)
Theorem power_actions_exclusive l :
  steps lstep new_lock l ->
  (forall t u th th', threads l !! t = Some th -> threads l !! u = Some th' ->
     th_pc th = Running -> th_pc th' = Running -> t = u) /\
  (serverPowerActive l = true <-> exists t th, threads l !! t = Some th /\ th_pc th = Running) /\
  (size (waiting l) <= 4)%nat.
Proof.
  intros Hs. pose proof (lock_inv_reachable l Hs) as Hi. split_and!.
  - intros t u th th' Ht Hu H1 H2. apply (turn_unique l t u th th' Hi Ht Hu); [by rewrite H1|by rewrite H2].
  - apply (li_active l Hi).
  - rewrite <- size_dom. transitivity (size (list_to_set (C:=gset string)
      ["power"; "switch_server"; "update_resources"; "reconfigure"])); [|by vm_compute].
    apply subseteq_size. intros s [t Ht]%elem_of_dom. apply elem_of_list_to_set.
    by eapply (li_slots l Hi).
Qed.

Lemma power_actions_exclusive_witness :
  exists l, run_lock clicks new_lock = Some l /\ (size (waiting l) <= 4)%nat /\
    threads l !! 1%nat = Some (mkThread (Some "power") GotTurn) /\ 1%nat ∈ kicked l.
Proof.
  eexists. split; [by vm_compute|]. split_and!.
  - refine (proj2 (proj2 (power_actions_exclusive _ _))).
    apply (run_lock_steps clicks). by vm_compute.
  - by vm_compute.
  - apply (bool_decide_unpack _). by vm_compute.
Defined.

(** the newest click wins. Once a newer action of the same slot has been
    registered, an older one that is not in the lock yet never runs, in any
    continuation. *)
Lemma newest_click_wins l l' t u th th' slot :
  steps lstep new_lock l -> threads l !! t = Some th -> threads l !! u = Some th' ->
  th_slot th = Some slot -> th_slot th' = Some slot -> (t < u)%nat -> pending (th_pc th) = true ->
  steps lstep l l' ->
  exists th1, threads l' !! t = Some th1 /\ th_pc th1 <> Running /\ th_pc th1 <> Releasing /\
    th_pc th1 <> Ended true.
Proof.
  intros Hs Ht Hu Hst Hsu Hlt Hp Hs'. pose proof (lock_inv_reachable l Hs) as Hi.
  assert (Hk : t ∈ kicked l).
  { destruct (li_slot l Hi t th Ht Hp) as (s & Hs1 & [|Hw]); [done|].
    rewrite Hst in Hs1. simplify_eq.
    destruct (li_waiter l Hi _ _ Hw) as (Hn & _). destruct (li_newest l Hi u th' _ Hu Hsu) as (v & Hv & Hle).
    rewrite Hn in Hv. simplify_eq. lia. }
  apply (kicked_steps l l' Hs') in Hk.
  destruct (li_kicked l' (lock_inv_reachable l' (steps_trans _ _ _ _ Hs Hs')) t Hk)
    as (th1 & s & v & H1 & _ & _ & _ & _ & H2 & H3 & H4). eauto.
Qed.

Lemma newest_click_wins_witness :
  exists l l', run_lock clicks new_lock = Some l /\
    run_lock [LEnter 1; LBack 1; LTurn 2; LEnter 2; LFinish 2; LGive 2] l = Some l' /\
    (exists th, threads l' !! 2%nat = Some th /\ th_pc th = Ended true) /\
    (exists th, threads l' !! 1%nat = Some th /\ th_pc th <> Running /\ th_pc th <> Releasing /\
       th_pc th <> Ended true).
Proof.
  eexists _, _. split; [by vm_compute|]. split; [by vm_compute|]. split.
  { eexists. by split; [by vm_compute|]. }
  refine (newest_click_wins _ _ 1 2 (mkThread (Some "power") GotTurn)
    (mkThread (Some "power") Waiting) "power" _ _ _ _ _ _ _ _);
    [apply (run_lock_steps clicks); by vm_compute|by vm_compute|by vm_compute|done|done|lia|done|].
  apply (run_lock_steps [LEnter 1; LBack 1; LTurn 2; LEnter 2; LFinish 2; LGive 2]).
  by vm_compute.
Defined.

(** C34: every action settles. In a reachable state each step of the
    goroutines already there uses up work, and as long as one of them has not
    ended a step is possible, so without new commands all of them end after at
    most [work l] steps, whatever the scheduler does; and the newest command
    of a slot never ends without having run. *)
Theorem every_action_settles l :
  steps lstep new_lock l ->
  (forall lb l', internal lb = true -> exec lb l = Some l' -> (work l' < work l)%nat) /\
  ((exists t th, threads l !! t = Some th /\ (forall ran, th_pc th <> Ended ran)) ->
     exists lb l', internal lb = true /\ exec lb l = Some l') /\
  (forall t th slot ran, threads l !! t = Some th -> th_slot th = Some slot ->
     newest l !! slot = Some t -> th_pc th = Ended ran -> ran = true).
Proof.
  intros Hs. pose proof (lock_inv_reachable l Hs) as Hi. split_and!.
  - intros lb l' Hin He. by eapply internal_decreases.
  - intros (t & th & Ht & Hr). apply (progress l t th Hi Ht).
    destruct (th_pc th) eqn:E; simpl; try lia. by destruct (Hr ran).
  - intros t th slot ran Ht Hsl Hn He. destruct ran; [done|]. exfalso.
    destruct (li_kicked l Hi t (li_refused l Hi t th Ht (or_introl He)))
      as (th' & s & u & H1 & H2 & H3 & H4 & _).
    rewrite Ht in H1. simplify_eq. lia.
Qed.

Lemma every_action_settles_witness :
  exists l, run_lock clicks new_lock = Some l /\ work l = 9%nat /\
    exists lb l', internal lb = true /\ exec lb l = Some l'.
Proof.
  eexists. split; [by vm_compute|]. split; [by vm_compute|].
  refine (proj1 (proj2 (every_action_settles _ _)) _).
  - apply (run_lock_steps clicks). by vm_compute.
  - exists 2%nat, (mkThread (Some "power") Waiting). split; [by vm_compute|done].
Defined.

(** replacing a waiting settings save loses nothing. However many newer
    resource changes replace a waiting one before the lock comes free, the one
    left waiting carries, for the padding and for both ports, the newest value
    that was sent at all, and the newest payload for everything else. *)
Lemma resource_changes_accumulate l o oc cs :
  waiting l !! "update_resources" = Some o -> cfgs l !! o = Some oc ->
  let l' := foldl (fun l c => save c l) l cs in
  exists o' c, waiting l' !! "update_resources" = Some o' /\ cfgs l' !! o' = Some c /\
    RAMPaddingMB c = last_set (fun p => match p with None => true | Some _ => false end)
                       (RAMPaddingMB oc) (map RAMPaddingMB cs) /\
    HostPort c = last_set (Z.eqb 0) (HostPort oc) (map HostPort cs) /\
    ContainerPort c = last_set (Z.eqb 0) (ContainerPort oc) (map ContainerPort cs) /\
    rest c = last_set (fun _ => false) (rest oc) (map rest cs).
Proof.
  intros Hw Ho l'. destruct (saves_waiter cs l o oc Hw Ho) as (o' & H1 & H2).
  exists o', (merged oc cs). split_and!; [done|done|apply merged_fields..].
Qed.

Lemma resource_changes_accumulate_witness :
  let l := save (mkDocker (Some 768) 0 0 "a") new_lock in
  let l' := save (mkDocker None 0 25570 "c") (save (mkDocker None 25601 0 "b") l) in
  cfgs l' !! 2%nat = Some (mkDocker (Some 768) 25601 25570 "c") /\
  exists o' c, waiting l' !! "update_resources" = Some o' /\ cfgs l' !! o' = Some c /\
    HostPort c = 25601.
Proof.
  split; [by vm_compute|].
  destruct (resource_changes_accumulate (save (mkDocker (Some 768) 0 0 "a") new_lock) 0
    (mkDocker (Some 768) 0 0 "a") [mkDocker None 25601 0 "b"; mkDocker None 0 25570 "c"])
    as (o' & c & H1 & H2 & _ & H3 & _); [by vm_compute|by vm_compute|].
  exists o', c. split_and!; [exact H1|exact H2|]. rewrite H3. by vm_compute.
Defined.

(** a start never undoes a newer stop. Whatever interleaving of
    concurrent [noteStop] calls runs, once the call for a stop queued at [i]
    has returned, every start or restart queued before [i] is reported
    overtaken, then and at every later time; a start queued after every stop
    begun is never dropped by it; and switches are not dropped either. *)
Lemma overtaken_exact s s' t i :
  steps note_step no_notes s -> calls s !! t = Some (i, NDone) -> steps note_step s s' ->
  (forall action issuedAt, action = "start" \/ action = "restart" ->
     0 < issuedAt < i -> overtakenByStop action (lastStop s') issuedAt = true) /\
  (forall action issuedAt, (forall u j pc, calls s' !! u = Some (j, pc) -> j <= issuedAt) ->
     overtakenByStop action (lastStop s') issuedAt = false) /\
  (forall action issuedAt, action <> "start" -> action <> "restart" ->
     overtakenByStop action (lastStop s') issuedAt = false).
Proof.
  intros Hs Ht Hs'. pose proof (notes_reachable s Hs) as Hi.
  destruct (proj1 Hi t i Ht) as (v & Hv & Hle).
  destruct (notes_steps s s' v Hs' Hi Hv) as (v' & Hv' & Hle').
  pose proof (notes_reachable s' (steps_trans _ _ _ _ Hs Hs')) as (_ & _ & Hin).
  unfold overtakenByStop, stopNotedAfter. rewrite Hv'. split_and!.
  - intros action issuedAt [-> | ->] H; simpl; destruct (Z.eqb_spec issuedAt 0); lia.
  - intros action issuedAt H. destruct (Hin v' Hv') as (u & pc & Hu). specialize (H u v' pc Hu).
    destruct (_ || _); [|done]. destruct (issuedAt =? 0); lia.
  - intros action issuedAt H1 H2. apply String.eqb_neq in H1, H2. by rewrite H1, H2.
Qed.

(** Two stops are noted at once; the older one loses the race and still ends. *)
Definition raced : notes := mkNotes (Some 200) {[0%nat := (100, NDone); 1%nat := (200, NDone)]}.

Lemma overtaken_exact_witness :
  overtakenByStop "start" (lastStop raced) 150 = true /\
  overtakenByStop "start" (lastStop raced) 200 = false.
Proof.
  split; [|by vm_compute].
  refine (proj1 (overtaken_exact raced raced 1 200 _ _ _) "start" 150 _ _); [|done|constructor|auto|lia].
  econstructor; [right; by exists 0%nat, 100|]. econstructor; [right; by exists 1%nat, 200|].
  econstructor; [left; by exists 0%nat|]. econstructor; [left; by exists 1%nat|].
  econstructor; [left; by exists 1%nat|]. constructor.
Defined.

(** Only a stale contradiction is dropped. A power action is dropped for
    its age exactly when it carries a time, the desired state could be read,
    at least ten minutes have passed and it works against that state; a fresh
    one, one without a time, or one that agrees is never dropped. *)
Lemma stalePowerAction_exact action issuedAt now desired derr :
  stalePowerAction action issuedAt now desired derr = true <->
  issuedAt <> 0 /\ derr = false /\ now - issuedAt * 1000000000 >= 600 * 1000000000 /\
  ((action = "start" \/ action = "restart") /\ desired <> "online" \/
   (action = "stop" \/ action = "kill") /\ desired = "online").
Proof.
  unfold stalePowerAction, time_sub, staleCommandAge.
  destruct (Z.eqb_spec issuedAt 0) as [|Hne]; [naive_solver|]. destruct derr; [naive_solver|]. simpl.
  destruct (Z.ltb_spec (Z.max (- 2 ^ 63) (Z.min (2 ^ 63 - 1) (now - issuedAt * 1000000000)))
    (600 * 1000000000)) as [Hlt|Hge]; [split; [done|]; intros (_ & _ & ? & _); lia|].
  assert (Hage : now - issuedAt * 1000000000 >= 600 * 1000000000) by lia. clear Hge.
  destruct (String.eqb_spec action "start"); destruct (String.eqb_spec action "restart");
    destruct (String.eqb_spec action "stop"); destruct (String.eqb_spec action "kill");
    destruct (String.eqb_spec desired "online"); subst; simpl; intuition congruence.
Qed.
