(* ===== verification/FlowCredit.v ===== *)
(** * Credit-based flow control of streaming responses (node/flow_credit.go)

    Core opens a streaming request with a window and grants more as its reader
    takes messages; the node sends a counted message only against a credit.
    A [flowCredit] is shared by pointer between the connection's table and the
    sender waiting on it, so the objects live in a heap and the table holds
    addresses. One transition is one critical section or channel operation of
    the source: a grant and its wake-up, or a removal and its close, can be
    separated by any step of a sender. The counter is a [uint32]. *)

From S2P Require Import Prelude.
Open Scope string_scope.
Open Scope list_scope.
Open Scope Z_scope.

Definition uint32_mod : Z := 2 ^ 32.

(** ** Objects and senders *)

(** [f_token] is the one place of the [notify] channel; [f_ring] counts the
    callers of [add] and [close] that have still to ring it. [f_window],
    [f_granted] and [f_sent] only record. *)
Record flowCredit := mkFlow {
  f_n : Z;
  f_closed : bool;
  f_token : bool;
  f_ring : nat;
  f_window : Z;
  f_granted : Z;
  f_sent : Z }.

Definition newFlow (window : Z) : flowCredit := mkFlow window false false 0 window 0 0.

Inductive send_pc :=
| Trying        (* at the top of the loop of acquire *)
| Blocked       (* in the select *)
| Sent          (* acquire returned nil *)
| Refused       (* "the request ended" *)
| Stalled.      (* errFlowStalled *)
#[export] Instance send_pc_eq_dec : EqDecision send_pc.
Proof. solve_decision. Defined.

(** The critical section of [acquire]. *)
Definition acquire_step (f : flowCredit) : flowCredit * send_pc :=
  if f_closed f then (f, Refused)
  else if 0 <? f_n f then
    (mkFlow (f_n f - 1) (f_closed f) (f_token f) (f_ring f) (f_window f) (f_granted f) (f_sent f + 1),
     Sent)
  else (f, Blocked).

(** [add] and [close] up to the unlock; the ring comes after it. *)
Definition add (k : Z) (f : flowCredit) : flowCredit :=
  mkFlow ((f_n f + k) mod uint32_mod) (f_closed f) (f_token f) (S (f_ring f)) (f_window f)
    (f_granted f + k) (f_sent f).
Definition close (f : flowCredit) : flowCredit :=
  mkFlow (f_n f) true (f_token f) (S (f_ring f)) (f_window f) (f_granted f) (f_sent f).

(** [select { case f.notify <- struct{}{}: default: }] *)
Definition ring (f : flowCredit) : option flowCredit :=
  match f_ring f with
  | O => None
  | S r => Some (mkFlow (f_n f) (f_closed f) true r (f_window f) (f_granted f) (f_sent f))
  end.

(** [<-f.notify] *)
Definition take_token (f : flowCredit) : option flowCredit :=
  if f_token f
  then Some (mkFlow (f_n f) (f_closed f) false (f_ring f) (f_window f) (f_granted f) (f_sent f))
  else None.

(** ** The connection *)

Notation addr := nat (only parsing).

(** [c_flows] is the table ([None] is Go's nil map), [c_heap] the objects,
    [c_closing] the objects removed from the table or cancelled whose [close]
    is still to be called, [c_senders] who waits on what. *)
Record conn := mkConn {
  c_flows : option (gmap string addr);
  c_heap : gmap addr flowCredit;
  c_next : addr;
  c_closing : list addr;
  c_senders : gmap nat (addr * send_pc) }.

Definition new_conn : conn := mkConn None ∅ 0%nat [] ∅.

Definition lookup_flow (reqID : string) (c : conn) : option addr :=
  match c_flows c with Some m => m !! reqID | None => None end.

Definition set_heap (a : addr) (f : flowCredit) (c : conn) : conn :=
  mkConn (c_flows c) (<[a := f]> (c_heap c)) (c_next c) (c_closing c) (c_senders c).
Definition set_sender (s : nat) (a : addr) (p : send_pc) (c : conn) : conn :=
  mkConn (c_flows c) (c_heap c) (c_next c) (c_closing c) (<[s := (a, p)]> (c_senders c)).

Definition openFlow (reqID : string) (window : Z) (c : conn) : conn :=
  if window =? 0 then c
  else mkConn (Some (<[reqID := c_next c]> (default ∅ (c_flows c))))
         (<[c_next c := newFlow window]> (c_heap c)) (S (c_next c)) (c_closing c) (c_senders c).

Definition closeFlow (reqID : string) (c : conn) : conn :=
  mkConn (delete reqID <$> c_flows c) (c_heap c) (c_next c)
    (option_list (lookup_flow reqID c) ++ c_closing c) (c_senders c).

Definition cancelFlow (reqID : string) (c : conn) : conn :=
  mkConn (c_flows c) (c_heap c) (c_next c)
    (option_list (lookup_flow reqID c) ++ c_closing c) (c_senders c).

Definition closeFlows (c : conn) : conn :=
  mkConn None (c_heap c) (c_next c)
    (map snd (map_to_list (default ∅ (c_flows c))) ++ c_closing c) (c_senders c).

(** A grant whose request has ended is dropped. *)
Definition grantFlow (reqID : string) (k : Z) (c : conn) : conn :=
  match lookup_flow reqID c with
  | Some a => match c_heap c !! a with Some f => set_heap a (add k f) c | None => c end
  | None => c
  end.

(** A FlowCredit message on the read loop. *)
Definition takeFlowCredit (reqID : string) (cancel : bool) (grant : Z) (c : conn) : conn :=
  if cancel then cancelFlow reqID c else grantFlow reqID grant c.

(** [awaitCredit] up to [acquire]: a message that is not counted, or whose
    request has no window, goes out at once. *)
Definition awaitCredit (s : nat) (reqID : string) (counted : bool) (c : conn) : option conn :=
  match c_senders c !! s with
  | Some _ => None
  | None =>
      if counted then
        match lookup_flow reqID c with
        | Some a => Some (set_sender s a Trying c)
        | None => Some c
        end
      else Some c
  end.

Inductive label :=
| LOpen (reqID : string) (window : Z)
| LClose (reqID : string)
| LCloseAll
| LCredit (reqID : string) (cancel : bool) (grant : Z)
| LDoClose                              (* f.close() of a removed flow *)
| LRing (a : addr)
| LSend (s : nat) (reqID : string) (counted : bool)
| LTry (s : nat)                        (* the critical section of acquire *)
| LWake (s : nat)                       (* <-f.notify *)
| LTimeout (s : nat).                   (* <-timer.C *)

Definition exec (l : label) (c : conn) : option conn :=
  match l with
  | LOpen reqID window =>
      if (0 <=? window) && (window <? uint32_mod) then Some (openFlow reqID window c) else None
  | LClose reqID => Some (closeFlow reqID c)
  | LCloseAll => Some (closeFlows c)
  | LCredit reqID cancel grant =>
      if (0 <=? grant) && (grant <? uint32_mod) then Some (takeFlowCredit reqID cancel grant c)
      else None
  | LDoClose =>
      match c_closing c with
      | a :: l =>
          match c_heap c !! a with
          | Some f => Some (mkConn (c_flows c) (<[a := close f]> (c_heap c)) (c_next c) l (c_senders c))
          | None => None
          end
      | [] => None
      end
  | LRing a =>
      match c_heap c !! a with
      | Some f => (fun f' => set_heap a f' c) <$> ring f
      | None => None
      end
  | LSend s reqID counted => awaitCredit s reqID counted c
  | LTry s =>
      match c_senders c !! s with
      | Some (a, Trying) =>
          match c_heap c !! a with
          | Some f => let '(f', p) := acquire_step f in Some (set_sender s a p (set_heap a f' c))
          | None => None
          end
      | _ => None
      end
  | LWake s =>
      match c_senders c !! s with
      | Some (a, Blocked) =>
          match c_heap c !! a with
          | Some f => (fun f' => set_sender s a Trying (set_heap a f' c)) <$> take_token f
          | None => None
          end
      | _ => None
      end
  | LTimeout s =>
      match c_senders c !! s with
      | Some (a, Blocked) => Some (set_sender s a Stalled c)
      | _ => None
      end
  end.

Definition fstep (c c' : conn) : Prop := exists l, exec l c = Some c'.

(** ** Lemmas: counting *)

Definition flow_ok (f : flowCredit) : Prop :=
  0 <= f_n f < uint32_mod /\ 0 <= f_sent f /\ f_n f + f_sent f <= f_window f + f_granted f.

Lemma flow_ok_new w : 0 <= w < uint32_mod -> flow_ok (newFlow w).
Proof. unfold flow_ok, newFlow. simpl. lia. Qed.

(** A counter that wraps only loses credit. *)
Lemma flow_ok_add k f : 0 <= k -> flow_ok f -> flow_ok (add k f).
Proof.
  unfold flow_ok, add, uint32_mod. simpl. intros Hk (Hn & Hs & Hb).
  pose proof (Z.mod_pos_bound (f_n f + k) (2 ^ 32) ltac:(lia)).
  pose proof (Z.mod_le (f_n f + k) (2 ^ 32) ltac:(lia) ltac:(lia)). lia.
Qed.

Lemma flow_ok_acquire f : flow_ok f -> flow_ok (acquire_step f).1.
Proof.
  unfold acquire_step, flow_ok. destruct (f_closed f); [done|].
  destruct (Z.ltb_spec 0 (f_n f)); simpl; lia.
Qed.

Definition heap_ok (c : conn) : Prop := forall a f, c_heap c !! a = Some f -> flow_ok f.

Lemma heap_ok_insert c c' a f :
  c_heap c' = <[a := f]> (c_heap c) -> flow_ok f -> heap_ok c -> heap_ok c'.
Proof.
  intros E Hf Hc b g. rewrite E. intros [[<- <-]|[_ H]]%lookup_insert_Some; [done|].
  by eapply Hc.
Qed.

Lemma heap_ok_exec l c c' : exec l c = Some c' -> heap_ok c -> heap_ok c'.
Proof.
  intros H Hc. destruct l as [id w|id| |id cancel k| |a|s id counted|s|s|s]; simpl in H.
  - destruct ((0 <=? w) && (w <? uint32_mod)) eqn:E; [|done]. to_prop. simplify_eq.
    unfold openFlow. destruct (w =? 0); [done|].
    eapply heap_ok_insert; [done|by apply flow_ok_new|done].
  - by simplify_eq.
  - by simplify_eq.
  - destruct ((0 <=? k) && (k <? uint32_mod)) eqn:E; [|done]. to_prop. simplify_eq.
    unfold takeFlowCredit, grantFlow. destruct cancel; [done|].
    destruct (lookup_flow id c) as [a|]; [|done]. destruct (c_heap c !! a) as [f|] eqn:Ef; [|done].
    eapply heap_ok_insert; [done|apply flow_ok_add; [done|by eapply Hc]|done].
  - destruct (c_closing c) as [|a cl]; [done|]. destruct (c_heap c !! a) as [f|] eqn:Ef; [|done].
    simplify_eq. eapply heap_ok_insert; [done|by apply (Hc a f)|done].
  - destruct (c_heap c !! a) as [f|] eqn:Ef; [|done]. apply fmap_Some in H as (f' & Hf & ->).
    eapply heap_ok_insert; [done| |done]. unfold ring in Hf. destruct (f_ring f); simplify_eq.
    by apply (Hc a f).
  - unfold awaitCredit in H. repeat case_match; simplify_eq; done.
  - destruct (c_senders c !! s) as [[a []]|]; try done.
    destruct (c_heap c !! a) as [f|] eqn:Ef; [|done].
    pose proof (flow_ok_acquire f (Hc a f Ef)) as Hok. destruct (acquire_step f) as [f' p]. simplify_eq.
    eapply heap_ok_insert; done.
  - destruct (c_senders c !! s) as [[a []]|]; try done.
    destruct (c_heap c !! a) as [f|] eqn:Ef; [|done]. apply fmap_Some in H as (f' & Hf & ->).
    eapply heap_ok_insert; [done| |done]. unfold take_token in Hf. destruct (f_token f); simplify_eq.
    by apply (Hc a f).
  - destruct (c_senders c !! s) as [[a []]|]; try done. by simplify_eq.
Qed.

(** ** Lemmas: a closed flow *)

(** What no step changes about a flow once it is closed. *)
Definition settled (f f' : flowCredit) : Prop := f_closed f' = true /\ f_sent f' = f_sent f.

Lemma settled_insert (m : gmap addr flowCredit) a f b g :
  m !! b = Some g -> f_closed g = true ->
  (a = b -> settled g f) -> exists g', <[a := f]> m !! b = Some g' /\ settled g g'.
Proof.
  intros Hb Hc Hf. destruct (decide (a = b)) as [->|].
  - exists f. rewrite lookup_insert_eq. auto.
  - exists g. rewrite lookup_insert_ne by done. done.
Qed.

(** Objects are allocated below [c_next]. *)
Definition fresh_ok (c : conn) : Prop := forall a f, c_heap c !! a = Some f -> (a < c_next c)%nat.

Lemma closed_exec l c c' a f :
  exec l c = Some c' -> fresh_ok c -> c_heap c !! a = Some f -> f_closed f = true ->
  exists f', c_heap c' !! a = Some f' /\ settled f f'.
Proof.
  intros H Hn Hf Hcl. assert (Hsame : exists f', c_heap c !! a = Some f' /\ settled f f') by (exists f; done).
  destruct l as [id w|id| |id cancel k| |b|s id counted|s|s|s]; simpl in H.
  - case_match; [|done]. simplify_eq. unfold openFlow. case_match; [done|].
    apply settled_insert; [done..|]. intros <-. apply Hn in Hf. lia.
  - by simplify_eq.
  - by simplify_eq.
  - case_match; [|done]. simplify_eq. unfold takeFlowCredit, grantFlow. destruct cancel; [done|].
    destruct (lookup_flow id c) as [b|]; [|done]. destruct (c_heap c !! b) as [g|] eqn:Eg; [|done].
    apply settled_insert; [done..|]. intros ->. by simplify_eq.
  - destruct (c_closing c) as [|b cl]; [done|]. destruct (c_heap c !! b) as [g|] eqn:Eg; [|done].
    simplify_eq. apply settled_insert; [done..|]. intros ->. by simplify_eq.
  - destruct (c_heap c !! b) as [g|] eqn:Eg; [|done]. apply fmap_Some in H as (g' & Hg & ->).
    apply settled_insert; [done..|]. intros ->. unfold ring in Hg.
    destruct (f_ring g); simplify_eq. done.
  - unfold awaitCredit in H. repeat case_match; simplify_eq; done.
  - destruct (c_senders c !! s) as [[b []]|]; try done.
    destruct (c_heap c !! b) as [g|] eqn:Eg; [|done].
    destruct (acquire_step g) as [g' p] eqn:Ea. simplify_eq.
    apply settled_insert; [done..|]. intros ->. simplify_eq. unfold acquire_step in Ea.
    rewrite Hcl in Ea. by simplify_eq.
  - destruct (c_senders c !! s) as [[b []]|]; try done.
    destruct (c_heap c !! b) as [g|] eqn:Eg; [|done]. apply fmap_Some in H as (g' & Hg & ->).
    apply settled_insert; [done..|]. intros ->. unfold take_token in Hg.
    destruct (f_token g); simplify_eq. done.
  - destruct (c_senders c !! s) as [[b []]|]; try done. by simplify_eq.
Qed.

(** ** Lemmas: addresses *)

Definition live (c : conn) (a : addr) : Prop := is_Some (c_heap c !! a).

Record conn_wf (c : conn) : Prop := {
  wf_fresh : fresh_ok c;
  wf_table : forall id a, lookup_flow id c = Some a -> live c a;
  wf_closing : forall a, a ∈ c_closing c -> live c a;
  wf_senders : forall s a p, c_senders c !! s = Some (a, p) -> live c a }.

(** A step that keeps the objects and points only to objects there are. *)
Lemma conn_wf_frame c c' :
  conn_wf c -> (forall a, live c' a <-> live c a) -> c_next c' = c_next c ->
  (forall id a, lookup_flow id c' = Some a -> live c a) ->
  (forall a, a ∈ c_closing c' -> live c a) ->
  (forall s a p, c_senders c' !! s = Some (a, p) -> live c a) -> conn_wf c'.
Proof.
  intros [Hf Ht Hc Hs] Hl Hn H1 H2 H3. split.
  - intros a f Ha. rewrite Hn. destruct (proj1 (Hl a) (mk_is_Some _ _ Ha)) as [g Hg]. by eapply Hf.
  - intros id a Ha. apply Hl. eauto.
  - intros a Ha. apply Hl. eauto.
  - intros s a p Ha. apply Hl. eauto.
Qed.

Lemma live_insert c a f b : live c a -> is_Some (<[a := f]> (c_heap c) !! b) <-> live c b.
Proof. intros Ha. unfold live in *. rewrite lookup_insert_is_Some'. naive_solver. Qed.

Lemma sender_insert c s a p s' a' p' :
  <[s := (a, p)]> (c_senders c) !! s' = Some (a', p') -> conn_wf c -> live c a -> live c a'.
Proof.
  intros [[_ ?]|[_ H]]%lookup_insert_Some Hw Ha; [by simplify_eq|]. by eapply wf_senders.
Qed.

Lemma conn_wf_open id w c : conn_wf c -> conn_wf (openFlow id w c).
Proof.
  intros [Hf Ht Hc Hs]. unfold openFlow. destruct (w =? 0); [done|].
  assert (Hl : forall a, live c a -> is_Some (<[c_next c := newFlow w]> (c_heap c) !! a)).
  { intros a Ha. rewrite lookup_insert_is_Some'. by right. }
  split; simpl.
  - intros a f. simpl. intros [[<- _]|[_ H]]%lookup_insert_Some; [lia|]. apply Hf in H. lia.
  - intros id' a. unfold lookup_flow, live. simpl. rewrite lookup_insert_Some. intros [[_ <-]|[_ H]].
    + by rewrite lookup_insert_eq.
    + apply Hl. destruct (c_flows c) as [m|] eqn:E; [|done]. apply (Ht id'). unfold lookup_flow.
      by rewrite E.
  - intros a Ha. apply Hl. eauto.
  - intros s a p Ha. apply Hl. eauto.
Qed.

Lemma lookup_flow_in c id a m :
  c_flows c = Some m -> m !! id = Some a -> conn_wf c -> live c a.
Proof. intros E H Hw. apply (wf_table c Hw id). unfold lookup_flow. by rewrite E. Qed.

Lemma closing_flow id c a :
  conn_wf c -> a ∈ option_list (lookup_flow id c) ++ c_closing c -> live c a.
Proof.
  intros Hw [H|H]%elem_of_app; [|by apply (wf_closing c Hw)].
  destruct (lookup_flow id c) as [b|] eqn:E; simpl in H; [|by apply elem_of_nil in H].
  apply list_elem_of_singleton in H as ->. by eapply (wf_table c Hw).
Qed.

Lemma conn_wf_exec l c c' : exec l c = Some c' -> conn_wf c -> conn_wf c'.
Proof.
  intros H Hw. pose proof (wf_table c Hw) as Ht. pose proof (wf_closing c Hw) as Hc.
  pose proof (wf_senders c Hw) as Hs.
  destruct l as [id w|id| |id cancel k| |b|s id counted|s|s|s]; simpl in H.
  - case_match; [|done]. simplify_eq. by apply conn_wf_open.
  - simplify_eq. apply (conn_wf_frame c); simpl; try done.
    + intros id' a. unfold lookup_flow. simpl. destruct (c_flows c) as [m|] eqn:E; simpl; [|done].
      intros [_ H]%lookup_delete_Some. by eapply lookup_flow_in.
    + intros a. by apply closing_flow.
  - simplify_eq. apply (conn_wf_frame c); simpl; try done.
    intros a [(e & -> & He)%list_elem_of_fmap|]%elem_of_app; [|auto]. destruct e as [id a].
    apply elem_of_map_to_list in He. destruct (c_flows c) as [m|] eqn:E; simpl in *; [|done].
    by eapply lookup_flow_in.
  - case_match; [|done]. simplify_eq. unfold takeFlowCredit, grantFlow. destruct cancel.
    + apply (conn_wf_frame c); simpl; try done. intros a. by apply closing_flow.
    + destruct (lookup_flow id c) as [a|] eqn:El; [|done].
      destruct (c_heap c !! a) as [f|] eqn:Ef; [|done].
      apply (conn_wf_frame c); simpl; try done. intros b. apply live_insert. by exists f.
  - destruct (c_closing c) as [|a cl] eqn:Ec; [done|]. destruct (c_heap c !! a) as [f|] eqn:Ef; [|done].
    simplify_eq. apply (conn_wf_frame c); simpl; try done.
    + intros b. apply live_insert. by exists f.
    + intros b Hb. apply Hc. by right.
  - destruct (c_heap c !! b) as [f|] eqn:Ef; [|done]. apply fmap_Some in H as (f' & _ & ->).
    apply (conn_wf_frame c); simpl; try done. intros b'. apply live_insert. by exists f.
  - unfold awaitCredit in H. repeat case_match; simplify_eq; try done.
    apply (conn_wf_frame c); simpl; try done. intros s' a' p' Hs'.
    eapply sender_insert; [done..|]. by eapply Ht.
  - destruct (c_senders c !! s) as [[a []]|] eqn:Es; try done.
    destruct (c_heap c !! a) as [f|] eqn:Ef; [|done]. destruct (acquire_step f) as [f' p]. simplify_eq.
    apply (conn_wf_frame c); simpl; try done; [intros b; apply live_insert; by exists f|].
    intros s' a' p' Hs'. eapply sender_insert; [done..|]. by exists f.
  - destruct (c_senders c !! s) as [[a []]|] eqn:Es; try done.
    destruct (c_heap c !! a) as [f|] eqn:Ef; [|done]. apply fmap_Some in H as (f' & _ & ->).
    apply (conn_wf_frame c); simpl; try done; [intros b; apply live_insert; by exists f|].
    intros s' a' p' Hs'. eapply sender_insert; [done..|]. by exists f.
  - destruct (c_senders c !! s) as [[a []]|] eqn:Es; try done. simplify_eq.
    apply (conn_wf_frame c); simpl; try done. intros s' a' p' Hs'.
    eapply sender_insert; [done..|]. by eapply Hs.
Qed.

(** ** Lemmas: no lost wake-up

    A request has one sender at a time: the goroutine that serves it. *)
Definition active_on (c : conn) (a : addr) (s : nat) : Prop :=
  exists p, c_senders c !! s = Some (a, p) /\ (p = Trying \/ p = Blocked).

Definition one_sender (l : label) (c : conn) : Prop :=
  match l with
  | LSend _ id true => forall a s, lookup_flow id c = Some a -> ~ active_on c a s
  | _ => True
  end.

Definition sstep (c c' : conn) : Prop := exists l, one_sender l c /\ exec l c = Some c'.

(** There is something for a blocked sender to see, and it will be told. *)
Definition news (f : flowCredit) : Prop := 0 < f_n f \/ f_closed f = true.
Definition rung (f : flowCredit) : Prop := f_token f = true \/ (f_ring f > 0)%nat.

Record wake_inv (c : conn) : Prop := {
  wi_wf : conn_wf c;
  wi_single : forall a s s', active_on c a s -> active_on c a s' -> s = s';
  wi_wake : forall s a f, c_senders c !! s = Some (a, Blocked) -> c_heap c !! a = Some f ->
            news f -> rung f }.

(** Only one object changes, and it is rung or nobody is blocked on it. *)
Lemma wake_heap c c' a f :
  wake_inv c -> conn_wf c' -> c_senders c' = c_senders c -> c_heap c' = <[a := f]> (c_heap c) ->
  (rung f \/ forall s, c_senders c !! s <> Some (a, Blocked)) -> wake_inv c'.
Proof.
  intros [Hw H1 H2] Hw' Es Eh Hf. split; [done| |].
  - unfold active_on. rewrite Es. exact H1.
  - intros s b g. rewrite Es, Eh. intros Hs [[<- <-]|[_ Hb]]%lookup_insert_Some Hn; [|by eapply H2].
    destruct Hf as [|Hf]; [done|]. by destruct (Hf s).
Qed.

Lemma wake_same c c' :
  wake_inv c -> conn_wf c' -> c_senders c' = c_senders c -> c_heap c' = c_heap c -> wake_inv c'.
Proof.
  intros [Hw H1 H2] Hw' Es Eh. split; [done|unfold active_on; by rewrite Es|].
  intros s a f. rewrite Es, Eh. apply H2.
Qed.

(** The one sender of an object moves on, taking the object along. *)
Lemma wake_move c c' s a p q f f' :
  wake_inv c -> conn_wf c' -> c_senders c !! s = Some (a, p) -> p = Trying \/ p = Blocked ->
  c_heap c !! a = Some f -> c_senders c' = <[s := (a, q)]> (c_senders c) ->
  c_heap c' = <[a := f']> (c_heap c) -> (q = Blocked -> ~ news f') -> wake_inv c'.
Proof.
  intros [Hw H1 H2] Hw' Hs Hp Hf Es Eh Hq.
  assert (Hact : forall b s', active_on c' b s' -> active_on c b s').
  { intros b s' (r & Hr & Hrp). unfold active_on. rewrite Es in Hr.
    apply lookup_insert_Some in Hr as [[<- ?]|[_ Hr]]; [simplify_eq; eauto|eauto]. }
  split; [done| |].
  - intros b s1 s2 A1%Hact A2%Hact. by eapply H1.
  - intros s' b g. rewrite Es, Eh.
    intros [[<- ?]|[Hne Hs']]%lookup_insert_Some [[<- <-]|[Hb Hg]]%lookup_insert_Some Hn; simplify_eq.
    + by destruct (Hq eq_refl).
    + destruct Hne. eapply (H1 a); [by exists p|exists Blocked; auto].
    + by eapply H2.
Qed.

Lemma wake_exec l c c' : one_sender l c -> exec l c = Some c' -> wake_inv c -> wake_inv c'.
Proof.
  intros Hone H Hi. pose proof (conn_wf_exec l c c' H (wi_wf c Hi)) as Hw'.
  pose proof (wi_wf c Hi) as Hw.
  destruct l as [id w|id| |id cancel k| |b|s id counted|s|s|s]; simpl in H.
  - case_match; [|done]. simplify_eq. unfold openFlow in *. case_match; [done|].
    eapply wake_heap; [done..|]. right. intros s Hs%(wf_senders c Hw).
    destruct Hs as [f Hf%(wf_fresh c Hw)]. lia.
  - simplify_eq. by eapply wake_same.
  - simplify_eq. by eapply wake_same.
  - case_match; [|done]. simplify_eq. unfold takeFlowCredit, grantFlow in *.
    destruct cancel; [by eapply wake_same|]. destruct (lookup_flow id c) as [a|]; [|done].
    destruct (c_heap c !! a) as [f|]; [|done]. eapply wake_heap; [done..|].
    left. right. simpl. lia.
  - destruct (c_closing c) as [|a cl]; [done|]. destruct (c_heap c !! a) as [f|]; [|done].
    simplify_eq. eapply wake_heap; [done..|]. left. right. simpl. lia.
  - destruct (c_heap c !! b) as [f|]; [|done]. apply fmap_Some in H as (f' & Hf & ->).
    eapply wake_heap; [done..|]. left. left. unfold ring in Hf. by destruct (f_ring f); simplify_eq.
  - unfold awaitCredit in H. destruct (c_senders c !! s) eqn:Es; [done|].
    destruct counted; [|by simplify_eq]. destruct (lookup_flow id c) as [a|] eqn:El; [|by simplify_eq].
    simplify_eq. destruct Hi as [_ H1 H2]. split; [done| |].
    + intros b s1 s2 (p1 & A1 & Hp1) (p2 & A2 & Hp2). simpl in A1, A2.
      apply lookup_insert_Some in A1 as [[<- ?]|[N1 A1]], A2 as [[<- ?]|[N2 A2]]; simplify_eq; try done.
      * destruct (Hone b s2); [done|]. by exists p2.
      * destruct (Hone b s1); [done|]. by exists p1.
      * eapply H1; [by exists p1|by exists p2].
    + intros s' b f. simpl. intros [[_ ?]|[_ Hs]]%lookup_insert_Some; [done|]. by eapply H2.
  - destruct (c_senders c !! s) as [[a []]|] eqn:Es; try done.
    destruct (c_heap c !! a) as [f|] eqn:Ef; [|done].
    destruct (acquire_step f) as [f' p] eqn:Ea. simplify_eq.
    eapply (wake_move c _ s a Trying p f f'); try done; [by left|]. intros ->.
    unfold acquire_step in Ea. unfold news. destruct (f_closed f) eqn:Ecl; simplify_eq.
    destruct (Z.ltb_spec 0 (f_n f)); simplify_eq. rewrite Ecl. intros [|]; [lia|done].
  - destruct (c_senders c !! s) as [[a []]|] eqn:Es; try done.
    destruct (c_heap c !! a) as [f|] eqn:Ef; [|done]. apply fmap_Some in H as (f' & _ & ->).
    eapply (wake_move c _ s a Blocked Trying f f'); try done. by right.
  - destruct (c_senders c !! s) as [[a []]|] eqn:Es; try done. simplify_eq.
    destruct (wf_senders c Hw s a _ Es) as [f Hf].
    eapply (wake_move c _ s a Blocked Stalled f f); try done; [by right|]. simpl.
    symmetry. by apply insert_id.
Qed.

Lemma wake_reachable c : steps sstep new_conn c -> wake_inv c.
Proof.
  intros H. eapply steps_invariant; [|exact H|].
  - intros a b (l & H1 & H2). by eapply wake_exec.
  - split; [split; try done; intros a Ha; by apply elem_of_nil in Ha| |done].
    by intros a s s' (p & Hp & _).
Qed.

Lemma heap_reachable c : steps fstep new_conn c -> heap_ok c /\ conn_wf c.
Proof.
  intros H. eapply (steps_invariant fstep (fun c => heap_ok c /\ conn_wf c)); [|exact H|].
  - intros a b [l Hl] [H1 H2]. split; [by eapply heap_ok_exec|by eapply conn_wf_exec].
  - split; [done|]. split; try done. intros a Ha. by apply elem_of_nil in Ha.
Qed.

Lemma closed_steps c c' a f :
  steps fstep c c' -> conn_wf c -> c_heap c !! a = Some f -> f_closed f = true ->
  exists f', c_heap c' !! a = Some f' /\ settled f f'.
Proof.
  intros Hs. revert f. induction Hs as [c|c1 c2 c3 [l Hl] _ IH]; intros f Hw Hf Hc; [by exists f|].
  destruct (closed_exec l c1 c2 a f Hl (wf_fresh c1 Hw) Hf Hc) as (f2 & H2 & Hc2 & Hs2).
  destruct (IH f2 (conn_wf_exec l c1 c2 Hl Hw) H2 Hc2) as (f3 & H3 & Hc3 & Hs3).
  exists f3. split; [done|]. split; [done|congruence].
Qed.

Fixpoint run_flow (ls : list label) (c : conn) : option conn :=
  match ls with
  | [] => Some c
  | l :: ls => match exec l c with Some c' => run_flow ls c' | None => None end
  end.

Lemma run_flow_steps ls c c' : run_flow ls c = Some c' -> steps fstep c c'.
Proof.
  revert c. induction ls as [|l ls IH]; simpl; intros c H; [simplify_eq; constructor|].
  destruct (exec l c) as [c1|] eqn:E; [|done]. econstructor; [by exists l|auto].
Qed.

(** A window of one: the second message blocks until Core grants. *)
Definition transfer : list label :=
  [LOpen "r" 1; LSend 0 "r" true; LTry 0; LSend 1 "r" true; LTry 1; LCredit "r" false 3].

(** ** Properties *)

(** the node never outruns its reader. In every reachable state, under
    every interleaving of grants, cancels, closes and senders, the counted
    messages sent for a request are at most its window plus what Core has
    granted, even when the 32-bit counter wraps. *)
Lemma sent_within_credit c a f :
  steps fstep new_conn c -> c_heap c !! a = Some f ->
  0 <= f_sent f <= f_window f + f_granted f.
Proof.
  intros Hs Hf. destruct (heap_reachable c Hs) as [Hok _]. destruct (Hok a f Hf) as (H1 & H2 & H3). lia.
Qed.

Lemma sent_within_credit_witness :
  exists c f, run_flow (transfer ++ [LRing 0; LWake 1; LTry 1]) new_conn = Some c /\
    c_heap c !! 0%nat = Some f /\ f_sent f = 2 /\ 0 <= f_sent f <= f_window f + f_granted f.
Proof.
  eexists _, _. split; [by vm_compute|]. split; [by vm_compute|]. split; [by vm_compute|].
  refine (sent_within_credit _ 0 _ _ _).
  - apply (run_flow_steps (transfer ++ [LRing 0; LWake 1; LTry 1])). by vm_compute.
  - by vm_compute.
Defined.

(** a cancel is final. Once a request's flow is closed, no further
    counted message of it is ever sent, whatever is granted later, and a
    sender that tries is refused. *)
Lemma closed_flow_sends_nothing c c' a f s :
  steps fstep new_conn c -> c_heap c !! a = Some f -> f_closed f = true -> steps fstep c c' ->
  (exists f', c_heap c' !! a = Some f' /\ f_sent f' = f_sent f) /\
  (c_senders c' !! s = Some (a, Trying) ->
   exists c'', exec (LTry s) c' = Some c'' /\ c_senders c'' !! s = Some (a, Refused)).
Proof.
  intros Hs Hf Hc Hs'. destruct (heap_reachable c Hs) as [_ Hw].
  destruct (closed_steps c c' a f Hs' Hw Hf Hc) as (f' & Hf' & Hc' & Hsent). split; [eauto|].
  intros Htry. simpl. rewrite Htry, Hf'. unfold acquire_step. rewrite Hc'.
  eexists. split; [done|]. simpl. by rewrite lookup_insert_eq.
Qed.

Lemma closed_flow_sends_nothing_witness :
  exists c c' f, run_flow (transfer ++ [LCredit "r" true 0; LDoClose]) new_conn = Some c /\
    run_flow [LRing 0; LWake 1; LCredit "r" false 9] c = Some c' /\
    c_heap c !! 0%nat = Some f /\ f_closed f = true /\ f_sent f = 1 /\
    c_senders c' !! 1%nat = Some (0%nat, Trying) /\
    exists c'', exec (LTry 1) c' = Some c'' /\ c_senders c'' !! 1%nat = Some (0%nat, Refused).
Proof.
  eexists _, _, _. split; [by vm_compute|]. split; [by vm_compute|]. split; [by vm_compute|].
  split; [by vm_compute|]. split; [by vm_compute|]. split; [by vm_compute|].
  refine (proj2 (closed_flow_sends_nothing _ _ 0 _ 1 _ _ _ _) _); [| | | |by vm_compute].
  - apply (run_flow_steps (transfer ++ [LCredit "r" true 0; LDoClose])). by vm_compute.
  - by vm_compute.
  - by vm_compute.
  - apply (run_flow_steps [LRing 0; LWake 1; LCredit "r" false 9]). by vm_compute.
Defined.

(** C35: no lost wake-up. When every request has one sender at a time, a
    sender blocked while its flow has credit or is closed is always about to
    be woken: the token is in the channel, or a caller of [add] or [close] is
    about to put it there, after which the sender can go on. *)
Theorem blocked_sender_is_woken c s a f :
  steps sstep new_conn c -> c_senders c !! s = Some (a, Blocked) -> c_heap c !! a = Some f ->
  0 < f_n f \/ f_closed f = true ->
  (exists c', exec (LWake s) c = Some c' /\ c_senders c' !! s = Some (a, Trying)) \/
  (exists c1 c', exec (LRing a) c = Some c1 /\ exec (LWake s) c1 = Some c' /\
     c_senders c' !! s = Some (a, Trying)).
Proof.
  intros Hs Hb Hf Hn. pose proof (wake_reachable c Hs) as [_ _ Hwake].
  destruct (Hwake s a f Hb Hf Hn) as [Ht|Hr].
  - left. simpl. rewrite Hb, Hf. unfold take_token. rewrite Ht. simpl.
    eexists. split; [done|]. simpl. by rewrite lookup_insert_eq.
  - right. simpl. rewrite Hf. unfold ring. destruct (f_ring f) as [|n]; [lia|]. simpl.
    eexists _, _. split; [done|]. simpl. rewrite Hb, lookup_insert_eq. simpl.
    split; [done|]. simpl. by rewrite lookup_insert_eq.
Qed.

Lemma blocked_sender_is_woken_witness :
  exists c f, run_flow transfer new_conn = Some c /\ c_heap c !! 0%nat = Some f /\ f_n f = 3 /\
    ((exists c', exec (LWake 1) c = Some c' /\ c_senders c' !! 1%nat = Some (0%nat, Trying)) \/
     (exists c1 c', exec (LRing 0) c = Some c1 /\ exec (LWake 1) c1 = Some c' /\
        c_senders c' !! 1%nat = Some (0%nat, Trying))).
Proof.
  eexists _, _. split; [by vm_compute|]. split; [by vm_compute|]. split; [by vm_compute|].
  refine (blocked_sender_is_woken _ 1 0 _ _ _ _ _); [|by vm_compute|by vm_compute|by left; vm_compute].
  assert (Hidle : forall c, map_to_list (c_senders c) = [(0%nat, (0%nat, Sent))] ->
    forall a s, ~ active_on c a s).
  { intros c E a s (p & Hp & Hpc). apply elem_of_map_to_list in Hp. rewrite E in Hp.
    apply list_elem_of_singleton in Hp. simplify_eq. naive_solver. }
  econstructor; [exists (LOpen "r" 1); by split|].
  econstructor; [exists (LSend 0 "r" true); split; [|by vm_compute]|].
  { intros a s _ (p & Hp & _). by vm_compute in Hp. }
  econstructor; [exists (LTry 0); by split|].
  econstructor; [exists (LSend 1 "r" true); split; [|by vm_compute]|].
  { intros a s _. apply Hidle. by vm_compute. }
  econstructor; [exists (LTry 1); by split|].
  econstructor; [exists (LCredit "r" false 3); by split|constructor].
Defined.
