(* ===== verification/CpuPinning.v ===== *)
(** * CPU pinning (core/services/cpu_pinning.go)

    Cpuset strings ([parseCpusetList], [compactCpuset]), the choice of cores
    for a server in auto mode ([computeAutoCpuset]) and the checks of a manual
    pin. Go maps are [gmap]s; the sort calls are stdpp's merge sort on the
    source's order, which is total on what it sorts. A rounded CPU limit is an
    integer argument: the rounding of the [float64] limit is done by the
    caller of the definitions.

    The loop of [parseCpusetList] over a range that ends at the largest [int]
    does not end in the source; the definition has the finite range there. *)

From stdpp Require Import sorting.
From Stdlib Require Import Ascii.
From S2P Require Import Prelude GoStrings.
Open Scope string_scope.
Open Scope list_scope.
Open Scope Z_scope.

(** ** Cpuset strings *)

(** [for n := lo; n <= hi; n++] *)
Definition core_range (lo hi : Z) : list Z := seqZ lo (hi - lo + 1).

Definition parse_part (part : string) : list Z :=
  let part := TrimSpace part in
  if (part =? "")%string then []
  else
    match Cut "-"%char part with
    | Some (a, b) =>
        match Atoi (TrimSpace a), Atoi (TrimSpace b) with
        | Some lo, Some hi => if hi <? lo then [] else core_range lo hi
        | _, _ => []
        end
    | None => match Atoi part with Some n => [n] | None => [] end
    end.

Definition parseCpusetList (s : string) : list Z :=
  let s := TrimSpace s in
  if (s =? "")%string then [] else flat_map parse_part (Split ","%char s).

(** The runs of the ids, as the loop of [compactCpuset] finds them. *)
Fixpoint runs (start prev : Z) (ids : list Z) : list (Z * Z) :=
  match ids with
  | [] => [(start, prev)]
  | id :: ids =>
      if id =? prev + 1 then runs start id ids else (start, prev) :: runs id id ids
  end.

Definition print_run (r : Z * Z) : string :=
  if r.1 =? r.2 then Itoa r.1 else Itoa r.1 +:+ String "-" (Itoa r.2).

Definition compactCpuset (ids : list Z) : string :=
  match ids with
  | [] => ""
  | id :: ids => Join (map print_run (runs id id ids)) ","
  end.

Definition allowedCoreSet (nodeCpuset : string) : option (gset Z) :=
  match parseCpusetList nodeCpuset with
  | [] => None
  | ids => Some (list_to_set ids)
  end.

(** [PinMismatch]; [limited] is [cpuLimit > 0] and [need] the limit rounded
    up. *)
Definition PinMismatch (limited : bool) (need : Z) (cpuset : string) : Z * Z * bool :=
  let have := Z.of_nat (length (parseCpusetList cpuset)) in
  if negb limited || (have =? 0) then (have, 0, false)
  else (have, need, negb (have =? need)).

(** ** Topology *)

Record CPUCore := mkCore { core_ID : Z; core_Type : string; core_Sibling : Z }.
Record CPUTopology := mkTopo { LogicalCount : Z; Cores : list CPUCore }.

Inductive pin_error := ErrEmpty | ErrOutsidePool (core : Z) | ErrNoCore (core : Z).

(** [topo] is what [GetNodeTopology] gave, [None] for an error or none. *)
Definition ValidateCpuset (topo : option CPUTopology) (cpuset nodeCpuset : string)
    : option pin_error :=
  let ids := parseCpusetList cpuset in
  let outside id := match allowedCoreSet nodeCpuset with
                    | Some s => negb (bool_decide (id ∈ s))
                    | None => false
                    end in
  if bool_decide (ids = []) then Some ErrEmpty
  else
    match topo with
    | None => option_map ErrOutsidePool (find outside ids)
    | Some t =>
        let valid : gset Z := list_to_set (map core_ID (Cores t)) in
        match find (fun id => negb (bool_decide (id ∈ valid)) || outside id) ids with
        | Some id => Some (if bool_decide (id ∈ valid) then ErrOutsidePool id else ErrNoCore id)
        | None => None
        end
    end.

(** [NodeCoreLoad] over the cpusets of the node's servers. *)
Definition NodeCoreLoad (cpusets : list (Z * string)) (exclude : Z) : gmap Z Z :=
  foldl (fun load e =>
    if e.1 =? exclude then load
    else foldl (fun load id => <[id := default 0 (load !! id) + 1]> load) load (parseCpusetList e.2))
    ∅ cpusets.

(** ** Choosing cores *)

Definition coreTypeRank (t : string) : Z :=
  if (t =? "P")%string then 0 else if (t =? "E")%string then 2 else 1.

Record physCore := mkPhys { threads : list Z; p_rank : Z; p_load : Z }.

Definition load_of (load : gmap Z Z) (id : Z) : Z := default 0 (load !! id).

(** Threads of a core: the less loaded first, then by id. *)
Definition thread_le (load : gmap Z Z) (a b : Z) : Prop :=
  load_of load a < load_of load b \/ (load_of load a = load_of load b /\ a <= b).
#[export] Instance thread_le_dec load a b : Decision (thread_le load a b).
Proof. unfold thread_le. apply _. Defined.

(** Cores: free ones first, then by kind, by load and by their first thread. *)
Definition first_thread (p : physCore) : Z := default 0 (head (threads p)).
Definition phys_key (p : physCore) : Z * Z * Z * Z :=
  (if p_load p =? 0 then 0 else 1, p_rank p, p_load p, first_thread p).
Definition phys_le (p q : physCore) : Prop :=
  let '(f1, r1, l1, t1) := phys_key p in
  let '(f2, r2, l2, t2) := phys_key q in
  f1 < f2 \/ (f1 = f2 /\ (r1 < r2 \/ (r1 = r2 /\ (l1 < l2 \/ (l1 = l2 /\ t1 <= t2))))).
#[export] Instance phys_le_dec p q : Decision (phys_le p q).
Proof. unfold phys_le, phys_key. apply _. Defined.

(** One round of the grouping loop. *)
Definition group_core (byID inPool : gmap Z CPUCore) (load : gmap Z Z)
    (acc : list physCore * gset Z) (id : Z) : list physCore * gset Z :=
  let '(phys, seen) := acc in
  if bool_decide (id ∈ seen) then acc
  else
    match inPool !! id with
    | None => acc
    | Some c =>
        let seen := {[id]} ∪ seen in
        let sib := core_Sibling c in
        let paired := match byID !! sib with
                      | Some s => negb (sib =? id) && (core_Sibling s =? id)
                      | None => false
                      end in
        let joins := paired && bool_decide (is_Some (inPool !! sib)) && negb (bool_decide (sib ∈ seen)) in
        let ths := if joins then [id; sib] else [id] in
        let p := mkPhys (merge_sort (thread_le load) ths) (coreTypeRank (core_Type c))
                   (load_of load id + if paired then load_of load sib else 0) in
        (phys ++ [p], if joins then {[sib]} ∪ seen else seen)
    end.

Definition in_pool (allowed : option (gset Z)) (id : Z) : bool :=
  match allowed with None => true | Some s => bool_decide (id ∈ s) end.

Definition pool_of (topo : CPUTopology) (allowed : option (gset Z)) : gmap Z CPUCore :=
  foldl (fun m c => if in_pool allowed (core_ID c) then <[core_ID c := c]> m else m) ∅ (Cores topo).
Definition all_of (topo : CPUTopology) : gmap Z CPUCore :=
  foldl (fun m c => <[core_ID c := c]> m) ∅ (Cores topo).

Definition pool_ids (pool : gmap Z CPUCore) : list Z :=
  merge_sort Z.le (map fst (map_to_list pool)).

Definition phys_cores (topo : CPUTopology) (load : gmap Z Z) (allowed : option (gset Z))
    : list physCore :=
  let pool := pool_of topo allowed in
  merge_sort phys_le (foldl (group_core (all_of topo) pool load) ([], ∅) (pool_ids pool)).1.

Definition capped_budget (budget reserve : Z) (pool : gmap Z CPUCore) : Z :=
  Z.min budget (Z.max 1 (Z.of_nat (size pool) - reserve)).

(** The ids chosen, before they are sorted and printed. *)
Definition chosen_cores (topo : CPUTopology) (budget reserve : Z) (load : gmap Z Z)
    (allowed : option (gset Z)) : list Z :=
  take (Z.to_nat (capped_budget budget reserve (pool_of topo allowed)))
    (flat_map threads (phys_cores topo load allowed)).

Definition computeAutoCpuset (topo : option CPUTopology) (budget reserve : Z) (load : gmap Z Z)
    (allowed : option (gset Z)) : string :=
  match topo with
  | None => ""
  | Some t =>
      if bool_decide (Cores t = []) || (budget <=? 0) || bool_decide (pool_of t allowed = ∅) then ""
      else compactCpuset (merge_sort Z.le (chosen_cores t budget reserve load allowed))
  end.

Definition cpuReserveHostCores : Z := 1.

(** [AutoCpuset] with the topology and the load read; [ceil] is the rounded
    limit. *)
Definition AutoCpuset (topo : option CPUTopology) (load : gmap Z Z) (ceil : Z) (nodeCpuset : string)
    : string :=
  let allowed := allowedCoreSet nodeCpuset in
  let reserve := match allowed with
                 | Some s => if bool_decide (s = ∅) then cpuReserveHostCores else 0
                 | None => cpuReserveHostCores
                 end in
  match topo with
  | None => ""
  | Some _ => computeAutoCpuset topo (Z.max ceil 1) reserve load allowed
  end.

(** ** Lemmas: cpuset strings *)

Definition core_ok (n : Z) : Prop := 0 <= n <= int64_max.

Lemma core_ok_int64 n : core_ok n -> in_int64 n = true.
Proof. unfold core_ok, in_int64, int64_min, int64_max. lia. Qed.

Lemma core_range_snoc lo hi : lo <= hi -> core_range lo (hi + 1) = core_range lo hi ++ [hi + 1].
Proof.
  intros H. unfold core_range. replace (hi + 1 - lo + 1) with (hi - lo + 1 + 1) by lia.
  rewrite seqZ_app by lia. f_equal. replace (lo + (hi - lo + 1)) with (hi + 1) by lia. done.
Qed.

Lemma core_range_one n : core_range n n = [n].
Proof. unfold core_range. by replace (n - n + 1) with 1 by lia. Qed.

(** The runs spell out the list they came from. *)
Lemma runs_spell start prev ids :
  start <= prev ->
  flat_map (fun r => core_range r.1 r.2) (runs start prev ids) = core_range start prev ++ ids.
Proof.
  revert start prev. induction ids as [|id ids IH]; intros start prev H; simpl; [done|].
  destruct (Z.eqb_spec id (prev + 1)) as [->|Hne]; simpl.
  - rewrite IH, core_range_snoc, <- app_assoc by lia. done.
  - rewrite IH, core_range_one by lia. done.
Qed.

Lemma runs_ok start prev ids :
  core_ok start -> core_ok prev -> start <= prev -> Forall core_ok ids ->
  Forall (fun r => core_ok r.1 /\ core_ok r.2 /\ r.1 <= r.2) (runs start prev ids).
Proof.
  intros Hs Hp Hle Hids. revert start prev Hs Hp Hle.
  induction Hids as [|id ids Hid _ IH]; intros start prev Hs Hp Hle; simpl; [by constructor|].
  destruct (Z.eqb_spec id (prev + 1)) as [->|_]; [apply IH; try done; lia|].
  constructor; [done|]. by apply IH.
Qed.

(** What a run is printed with. *)
Definition run_char (c : ascii) : bool := is_digit c || Ascii.eqb c "-".

Lemma Itoa_run_chars n : 0 <= n -> all_chars run_char (Itoa n) = true.
Proof.
  intros H. eapply all_chars_impl; [|apply Itoa_chars, H]. unfold run_char. by intros c ->.
Qed.

Lemma print_run_chars r :
  core_ok r.1 -> core_ok r.2 -> all_chars run_char (print_run r) = true /\ print_run r <> "".
Proof.
  intros [H1 _] [H2 _]. destruct (Itoa_chars r.1 H1) as [_ Hne]. unfold print_run.
  destruct (r.1 =? r.2); [split; [by apply Itoa_run_chars|done]|]. split.
  - rewrite all_chars_app. simpl. by rewrite !Itoa_run_chars.
  - by destruct (Itoa r.1).
Qed.

Lemma run_char_graphic c : run_char c = true -> graphic c = true.
Proof.
  unfold run_char. intros [H|H]%orb_true_iff; [by apply is_digit_graphic|].
  by apply Ascii.eqb_eq in H as ->.
Qed.

Lemma run_char_not_comma c : run_char c = true -> not_char "," c = true.
Proof.
  unfold run_char. intros [H|H]%orb_true_iff; [by apply digit_not_char|].
  by apply Ascii.eqb_eq in H as ->.
Qed.

Lemma Itoa_no_dash n : 0 <= n -> all_chars (not_char "-") (Itoa n) = true.
Proof. intros H. eapply all_chars_impl; [|apply Itoa_chars, H]. intros c. by apply digit_not_char. Qed.

Lemma Itoa_trim n : 0 <= n -> TrimSpace (Itoa n) = Itoa n.
Proof.
  intros H. apply TrimSpace_all_graphic. eapply all_chars_impl; [|apply Itoa_chars, H].
  apply is_digit_graphic.
Qed.

(** Reading a printed run gives its cores. *)
Lemma parse_print_run r :
  core_ok r.1 -> core_ok r.2 -> r.1 <= r.2 -> parse_part (print_run r) = core_range r.1 r.2.
Proof.
  intros H1 H2 Hle. destruct (print_run_chars r H1 H2) as [Hc Hne]. unfold parse_part.
  rewrite TrimSpace_all_graphic by (eapply all_chars_impl; [apply run_char_graphic|done]).
  apply String.eqb_neq in Hne. rewrite Hne. unfold print_run. destruct H1 as [H1 H1'], H2 as [H2 H2'].
  destruct (Z.eqb_spec r.1 r.2) as [E|E].
  - rewrite Cut_None, Atoi_Itoa by (by apply Itoa_no_dash || by apply core_ok_int64).
    by rewrite <- E, core_range_one.
  - rewrite Cut_app by by apply Itoa_no_dash.
    rewrite !Itoa_trim, !Atoi_Itoa by (done || by apply core_ok_int64).
    destruct (Z.ltb_spec r.2 r.1); [lia|done].
Qed.

Lemma Join_chars p parts :
  p ","%char = true -> Forall (fun s => all_chars p s = true) parts ->
  all_chars p (Join parts ",") = true.
Proof.
  intros Hp H. induction H as [|s parts Hs _ IH]; [done|]. destruct parts as [|q parts]; [done|].
  change (Join (s :: q :: parts) ",") with (s +:+ "," +:+ Join (q :: parts) ",")%string.
  rewrite !all_chars_app, Hs, IH. simpl. by rewrite Hp.
Qed.

Lemma parse_runs rs :
  rs <> [] -> Forall (fun r => core_ok r.1 /\ core_ok r.2 /\ r.1 <= r.2) rs ->
  parseCpusetList (Join (map print_run rs) ",") = flat_map (fun r => core_range r.1 r.2) rs.
Proof.
  intros Hne Hok. unfold parseCpusetList.
  assert (Hchars : Forall (fun s => all_chars run_char s = true) (map print_run rs)).
  { apply Forall_fmap. eapply Forall_impl; [exact Hok|]. intros r (H1 & H2 & _).
    by apply print_run_chars. }
  rewrite TrimSpace_all_graphic.
  2: { apply Join_chars; [done|]. eapply Forall_impl; [exact Hchars|]. intros s.
       apply all_chars_impl, run_char_graphic. }
  assert (Hj : Join (map print_run rs) "," <> "").
  { destruct rs as [|r rs]; [done|]. inversion Hok as [|? ? (H1 & H2 & _)]; subst.
    destruct (print_run_chars r H1 H2) as [_ Hn]. destruct rs; simpl; [done|].
    by destruct (print_run r). }
  apply String.eqb_neq in Hj. rewrite Hj, Split_Join.
  - clear Hne Hchars Hj. induction Hok as [|r rs (H1 & H2 & H3) _ IH]; simpl; [done|].
    by rewrite IH, parse_print_run.
  - by destruct rs.
  - eapply Forall_impl; [exact Hchars|]. intros s. apply all_chars_impl, run_char_not_comma.
Qed.

Lemma parse_compact ids : Forall core_ok ids -> parseCpusetList (compactCpuset ids) = ids.
Proof.
  intros H. destruct ids as [|id ids]; [done|]. inversion H as [|? ? Hid Hids]; subst. simpl.
  rewrite parse_runs.
  - by rewrite runs_spell, core_range_one by lia.
  - assert (Hr : forall s p l, runs s p l <> []).
    { intros s p l. revert s p. induction l as [|x l IH]; intros s p; simpl; [done|]. by destruct (x =? _). }
    apply Hr.
  - apply runs_ok; try done.
Qed.

(** ** Lemmas: the pool *)

Lemma pool_fold allowed l (m : gmap Z CPUCore) id :
  is_Some (foldl (fun m c => if in_pool allowed (core_ID c) then <[core_ID c := c]> m else m) m l !! id)
  <-> is_Some (m !! id) \/ (id ∈ map core_ID l /\ in_pool allowed id = true).
Proof.
  revert m. induction l as [|c l IH]; intros m; simpl; [set_solver|]. rewrite IH, elem_of_cons.
  destruct (in_pool allowed (core_ID c)) eqn:E.
  - rewrite lookup_insert_is_Some'. clear IH. naive_solver.
  - clear IH. naive_solver congruence.
Qed.

Lemma pool_In topo allowed id :
  is_Some (pool_of topo allowed !! id) <-> id ∈ map core_ID (Cores topo) /\ in_pool allowed id = true.
Proof.
  unfold pool_of. rewrite pool_fold, lookup_empty. split; [|by right]. by intros [[? ?]|].
Qed.

Lemma pool_ids_In pool id : id ∈ pool_ids pool <-> is_Some (pool !! id).
Proof.
  unfold pool_ids. rewrite merge_sort_Permutation. rewrite list_elem_of_fmap. split.
  - intros ([k c] & -> & H%elem_of_map_to_list). eauto.
  - intros [c Hc]. exists (id, c). split; [done|]. by apply elem_of_map_to_list.
Qed.

Lemma pool_ids_NoDup pool : NoDup (pool_ids pool).
Proof. unfold pool_ids. rewrite merge_sort_Permutation. apply NoDup_fst_map_to_list. Qed.

Lemma pool_ids_length pool : length (pool_ids pool) = size pool.
Proof.
  unfold pool_ids. rewrite merge_sort_Permutation, length_map. apply length_map_to_list.
Qed.

(** ** Lemmas: grouping *)

Section Grouping.
Context (byID pool : gmap Z CPUCore) (load : gmap Z Z).

(** Every thread of the pool seen so far is in exactly one core, and the load
    of a core counts all its threads. *)
Record grouped (acc : list physCore * gset Z) : Prop := {
  gr_nodup : NoDup (flat_map threads acc.1);
  gr_seen : forall id, id ∈ flat_map threads acc.1 <-> id ∈ acc.2;
  gr_pool : forall id, id ∈ acc.2 -> is_Some (pool !! id) }.

Lemma grouped_start : grouped ([], ∅).
Proof. split; simpl; [constructor|set_solver|set_solver]. Qed.

Lemma grouped_step acc id : grouped acc -> grouped (group_core byID pool load acc id).
Proof.
  intros [Hn Hs Hp]. destruct acc as [phys seen]. simpl in *. unfold group_core.
  destruct (bool_decide (id ∈ seen)) eqn:E; [by split|]. apply bool_decide_eq_false in E.
  destruct (pool !! id) as [c|] eqn:Ec; [|by split].
  set (paired := match byID !! core_Sibling c with Some s => _ | None => false end).
  destruct (paired && bool_decide (is_Some (pool !! core_Sibling c)) &&
    negb (bool_decide (core_Sibling c ∈ {[id]} ∪ seen))) eqn:Ej; simpl.
  - to_prop. split; simpl; rewrite ?flat_map_app; simpl; rewrite ?app_nil_r.
    + rewrite merge_sort_Permutation. apply NoDup_app. split_and!; [done| |].
      * intros x Hx%Hs. set_solver.
      * apply NoDup_cons. split; [set_solver|apply NoDup_singleton].
    + intros x. rewrite elem_of_app, Hs. rewrite merge_sort_Permutation. set_solver.
    + intros x. rewrite !elem_of_union, !elem_of_singleton. intros [->|[->|]]; eauto.
  - split; simpl; rewrite ?flat_map_app; simpl; rewrite ?app_nil_r.
    + apply NoDup_app. split_and!; [done| |apply NoDup_singleton].
      intros x Hx%Hs. set_solver.
    + intros x. rewrite elem_of_app, Hs. set_solver.
    + intros x. rewrite !elem_of_union, !elem_of_singleton. intros [->|]; eauto.
Qed.

Lemma group_core_seen acc id x :
  x ∈ acc.2 -> x ∈ (group_core byID pool load acc id).2.
Proof.
  unfold group_core. destruct acc as [phys seen]. simpl. intros Hx.
  repeat case_match; simpl; set_solver.
Qed.

Lemma group_core_sees acc id : is_Some (pool !! id) -> id ∈ (group_core byID pool load acc id).2.
Proof.
  unfold group_core. destruct acc as [phys seen]. simpl. intros [c Hc].
  destruct (bool_decide (id ∈ seen)) eqn:E; [by apply bool_decide_eq_true in E|].
  rewrite Hc. simpl. case_match; set_solver.
Qed.

Lemma group_all ids acc :
  grouped acc -> (forall id, id ∈ ids -> is_Some (pool !! id)) ->
  grouped (foldl (group_core byID pool load) acc ids) /\
  forall id, id ∈ ids \/ id ∈ acc.2 -> id ∈ (foldl (group_core byID pool load) acc ids).2.
Proof.
  revert acc. induction ids as [|i ids IH]; intros acc Hg Hp; simpl; [set_solver|].
  destruct (IH (group_core byID pool load acc i)) as [H1 H2].
  { by apply grouped_step. }
  { intros id Hid. apply Hp. by right. }
  split; [done|]. intros id. rewrite elem_of_cons. intros [[->|Hid]|Hid]; apply H2; auto.
  - right. apply group_core_sees, Hp. by left.
  - right. by apply group_core_seen.
Qed.
End Grouping.

(** The cores partition the pool. *)
Lemma phys_cores_perm topo load allowed :
  flat_map threads (phys_cores topo load allowed) ≡ₚ pool_ids (pool_of topo allowed).
Proof.
  unfold phys_cores. set (pool := pool_of topo allowed).
  destruct (group_all (all_of topo) pool load (pool_ids pool) ([], ∅)) as [[Hn Hs Hp] H2].
  { apply grouped_start. }
  { intros id. apply pool_ids_In. }
  rewrite merge_sort_Permutation. apply NoDup_Permutation; [done|apply pool_ids_NoDup|].
  intros id. rewrite Hs. split; [intros H; apply pool_ids_In; auto|auto].
Qed.

(** ** Lemmas: the order of the cores *)

#[export] Instance phys_le_trans : Transitive phys_le.
Proof. intros p q r. unfold phys_le, phys_key. lia. Qed.
#[export] Instance phys_le_total : Total phys_le.
Proof. intros p q. unfold phys_le, phys_key. lia. Qed.

Lemma free_before_loaded p q : p_load p = 0 -> p_load q <> 0 -> ~ phys_le q p.
Proof.
  intros Hp Hq. unfold phys_le, phys_key. rewrite Hp. simpl.
  destruct (Z.eqb_spec (p_load q) 0); [done|]. lia.
Qed.

(** A prefix that reaches a later block has the whole of an earlier one. *)
Lemma take_blocks {A} (f : A -> list Z) l1 q l2 n x p :
  NoDup (flat_map f (l1 ++ q :: l2)) -> x ∈ f q -> x ∈ take n (flat_map f (l1 ++ q :: l2)) ->
  p ∈ l1 -> forall y, y ∈ f p -> y ∈ take n (flat_map f (l1 ++ q :: l2)).
Proof.
  rewrite flat_map_app. intros Hn Hx Hin Hp y Hy.
  assert (Hy1 : y ∈ flat_map f l1).
  { apply list_elem_of_In, in_flat_map. exists p. split; by apply list_elem_of_In. }
  destruct (decide (n <= length (flat_map f l1))%nat) as [Hle|Hlt].
  - rewrite take_app_le in Hin by done. apply elem_of_take in Hin as (i & Hi & _).
    apply list_elem_of_lookup_2 in Hi. apply NoDup_app in Hn as (_ & Hd & _).
    destruct (Hd x Hi). simpl. apply elem_of_app. by left.
  - rewrite take_app_ge by lia. apply elem_of_app. by left.
Qed.

Lemma chosen_NoDup topo budget reserve load allowed :
  NoDup (chosen_cores topo budget reserve load allowed).
Proof.
  unfold chosen_cores. eapply sublist_NoDup; [|apply sublist_take].
  rewrite phys_cores_perm. apply pool_ids_NoDup.
Qed.

Lemma chosen_In topo budget reserve load allowed id :
  id ∈ chosen_cores topo budget reserve load allowed -> is_Some (pool_of topo allowed !! id).
Proof.
  unfold chosen_cores. intros (i & H & _)%elem_of_take. apply list_elem_of_lookup_2 in H.
  rewrite phys_cores_perm in H. by apply pool_ids_In.
Qed.

Lemma chosen_length topo budget reserve load allowed :
  0 <= reserve -> 0 < budget -> pool_of topo allowed <> ∅ ->
  Z.of_nat (length (chosen_cores topo budget reserve load allowed)) =
  capped_budget budget reserve (pool_of topo allowed).
Proof.
  intros Hr Hb Hp. unfold chosen_cores. rewrite length_take, phys_cores_perm, pool_ids_length.
  assert (size (pool_of topo allowed) <> 0%nat) by by rewrite map_size_empty_iff.
  unfold capped_budget. lia.
Qed.

(** ** A small hybrid machine

    Cores 0 and 1 are the threads of one performance core, 2 and 3 are
    efficiency cores; core 2 already runs a server. *)
Definition machine : CPUTopology :=
  mkTopo 4 [mkCore 0 "P" 1; mkCore 1 "P" 0; mkCore 2 "E" 2; mkCore 3 "E" 3].
Definition machine_load : gmap Z Z := {[2 := 1]}.

(** When every core is taken the type of a core decides before its load: a
    performance core with five servers on each thread is shared before an
    efficiency core with one. *)
Lemma shared_core_type_first :
  chosen_cores machine 1 0 {[0 := 5; 1 := 5; 2 := 1; 3 := 1]} None = [0].
Proof. by vm_compute. Qed.

(** ** Properties *)

(** cpuset strings round-trip. Reading back what [compactCpuset] prints
    for any list of core ids gives that list: the collapsed runs, the
    separators and the decimal numbers lose nothing. *)
Lemma cpuset_roundtrip ids :
  Forall core_ok ids -> parseCpusetList (compactCpuset ids) = ids.
Proof. apply parse_compact. Qed.

Lemma cpuset_roundtrip_witness :
  compactCpuset [0; 1; 2; 3; 8] = "0-3,8" /\ parseCpusetList "0-3,8" = [0; 1; 2; 3; 8].
Proof.
  split; [by vm_compute|]. refine (cpuset_roundtrip [0; 1; 2; 3; 8] _).
  repeat constructor; by vm_compute.
Defined.

(** an automatic pin is a valid pin of the right size. For a node whose
    pool is not empty, the string [computeAutoCpuset] returns names distinct
    cores in increasing order, all of them existing and inside the allowed
    pool, and exactly as many as the budget asks for, capped by what is left
    after the reserve but at least one. *)
Lemma computeAutoCpuset_fits t budget reserve load allowed :
  Forall core_ok (map core_ID (Cores t)) -> 0 < budget -> 0 <= reserve ->
  pool_of t allowed <> ∅ ->
  let ids := parseCpusetList (computeAutoCpuset (Some t) budget reserve load allowed) in
  StronglySorted Z.le ids /\ NoDup ids /\
  (forall id, id ∈ ids -> id ∈ map core_ID (Cores t) /\ in_pool allowed id = true) /\
  Z.of_nat (length ids) =
    Z.min budget (Z.max 1 (Z.of_nat (size (pool_of t allowed)) - reserve)).
Proof.
  intros Hids Hb Hr Hp ids. unfold ids, computeAutoCpuset.
  set (ch := chosen_cores t budget reserve load allowed).
  assert (Hin : forall id, id ∈ ch -> id ∈ map core_ID (Cores t) /\ in_pool allowed id = true).
  { intros id Hid. by eapply pool_In, chosen_In. }
  destruct (bool_decide (Cores t = []) || (budget <=? 0) || bool_decide (pool_of t allowed = ∅)) eqn:E.
  { exfalso. to_prop; [|lia|done]. apply Hp. unfold pool_of.
    match goal with H : Cores t = [] |- _ => by rewrite H end. }
  clear E. rewrite parse_compact.
  2: { apply Forall_forall. intros id. rewrite merge_sort_Permutation. intros [Hid _]%Hin.
       rewrite Forall_forall in Hids. auto. }
  split_and!.
  - apply StronglySorted_merge_sort; [intros x y z; lia|intros x y; lia].
  - rewrite merge_sort_Permutation. apply chosen_NoDup.
  - intros id. rewrite merge_sort_Permutation. apply Hin.
  - rewrite merge_sort_Permutation. by apply chosen_length.
Qed.

Lemma computeAutoCpuset_fits_witness :
  computeAutoCpuset (Some machine) 3 1 machine_load None = "0-1,3" /\
  Z.of_nat (length (parseCpusetList (computeAutoCpuset (Some machine) 3 1 machine_load None))) =
    Z.min 3 (Z.max 1 (Z.of_nat (size (pool_of machine None)) - 1)).
Proof.
  split; [by vm_compute|].
  refine (proj2 (proj2 (proj2 (computeAutoCpuset_fits machine 3 1 machine_load None _ _ _ _))));
    [|lia|lia|].
  - repeat constructor; by vm_compute.
  - intros H. apply (f_equal size) in H. by vm_compute in H.
Defined.

(** servers spread before they share. A core that already carries load is
    used for a server only when every physical core of the pool without load
    is used by it with all its threads. *)
Lemma free_cores_first t budget reserve load allowed p q x :
  p ∈ phys_cores t load allowed -> q ∈ phys_cores t load allowed ->
  p_load p = 0 -> p_load q <> 0 ->
  x ∈ threads q -> x ∈ chosen_cores t budget reserve load allowed ->
  forall y, y ∈ threads p -> y ∈ chosen_cores t budget reserve load allowed.
Proof.
  intros Hp Hq Hp0 Hq0 Hx Hc. unfold chosen_cores in *.
  assert (Hs : StronglySorted phys_le (phys_cores t load allowed)).
  { apply StronglySorted_merge_sort; apply _. }
  assert (Hn : NoDup (flat_map threads (phys_cores t load allowed))).
  { rewrite phys_cores_perm. apply pool_ids_NoDup. }
  apply list_elem_of_split in Hq as (l1 & l2 & Hl). rewrite Hl in *.
  apply elem_of_app in Hp as [Hp|Hp]; [by eapply take_blocks|].
  apply elem_of_cons in Hp as [->|Hp]; [done|].
  apply StronglySorted_app_1_r in Hs. apply StronglySorted_cons in Hs as [Hs _].
  rewrite Forall_forall in Hs. by destruct (free_before_loaded p q Hp0 Hq0 (Hs p Hp)).
Qed.

Lemma free_cores_first_witness :
  chosen_cores machine 4 0 machine_load None = [0; 1; 3; 2] /\
  1 ∈ chosen_cores machine 4 0 machine_load None.
Proof.
  split; [by vm_compute|].
  refine (free_cores_first machine 4 0 machine_load None (mkPhys [0; 1] 0 0) (mkPhys [2] 2 1) 2
    _ _ _ _ _ _ 1 _); [| |done|done| | |].
  all: apply list_elem_of_In; vm_compute; auto 6.
Defined.

(** what a manual pin is checked for. An accepted cpuset names at least
    one core, and every core it names exists on the node, when its topology is
    known, and lies in the node's pool, when it has one; a pin that names each
    core once passes [PinMismatch] under a limit exactly when it has the
    number of cores the limit rounds up to. A core named twice counts twice
    there: one core pinned as [0,0] passes for a limit of two. *)
Lemma manual_pin_checked topo cpuset nodeCpuset :
  (ValidateCpuset topo cpuset nodeCpuset = None ->
   parseCpusetList cpuset <> [] /\
   forall id, id ∈ parseCpusetList cpuset ->
     (forall t, topo = Some t -> id ∈ map core_ID (Cores t)) /\
     (forall s, allowedCoreSet nodeCpuset = Some s -> id ∈ s)) /\
  (forall need, parseCpusetList cpuset <> [] -> NoDup (parseCpusetList cpuset) ->
     (PinMismatch true need cpuset).2 = false <->
     Z.of_nat (size (list_to_set (parseCpusetList cpuset) : gset Z)) = need) /\
  (PinMismatch true 2 "0,0").2 = false.
Proof.
  split_and!; [| |by vm_compute].
  - unfold ValidateCpuset. intros H. case_bool_decide as Hne; [done|]. split; [done|].
    intros id Hid%list_elem_of_In. destruct topo as [t|].
    + destruct (find _ _) as [?|] eqn:Ef; [done|]. apply (find_none _ _ Ef) in Hid. to_prop.
      split; [intros t' [= <-]; set_solver|]. intros s Hs. rewrite Hs in *. by to_prop.
    + destruct (find _ _) as [?|] eqn:Ef; [done|]. apply (find_none _ _ Ef) in Hid.
      split; [done|]. intros s Hs. rewrite Hs in Hid. by to_prop.
  - intros need Hne Hnd. unfold PinMismatch. rewrite size_list_to_set by done. simpl.
    destruct (Z.eqb_spec (Z.of_nat (length (parseCpusetList cpuset))) 0) as [E|_].
    { destruct (parseCpusetList cpuset); [done|simpl in E; lia]. }
    simpl. rewrite negb_false_iff. apply Z.eqb_eq.
Qed.
