(* ===== verification/Wire.v ===== *)
(** * Wire formats: voice frames and stream headers

    [Module VoiceWire] is pkg/voicewire/voicewire.go, the UDP frame between
    the voice relay and a node; [Module Protocol] is pkg/protocol/header.go,
    the handshake token and the stream and Beam headers. A [[]byte] is a list
    of bytes. The MAC is a parameter of the frame functions; a writer may stop
    taking bytes at any point, and a reader is the bytes that are left. *)

From Stdlib Require Import Ascii String.
From S2P Require Import Prelude GoStrings.
Open Scope list_scope.
Open Scope Z_scope.

Notation bytes := (list ascii).
Notation length := List.length.

(** ** Bytes and big-endian integers *)

Definition byte (z : Z) : ascii := ascii_of_nat (Z.to_nat (z mod 256)).

Fixpoint be (n : nat) (z : Z) : bytes :=
  match n with
  | O => []
  | S n => byte (z / 256 ^ Z.of_nat n) :: be n z
  end.

Definition unbe (l : bytes) : Z := fold_left (fun acc c => acc * 256 + code c) l 0.

Lemma code_byte z : code (byte z) = z mod 256.
Proof.
  unfold code, byte. pose proof (Z.mod_pos_bound z 256 ltac:(lia)).
  rewrite nat_ascii_embedding; lia.
Qed.

Lemma byte_code c : byte (code c) = c.
Proof.
  unfold byte, code. pose proof (nat_ascii_bounded c).
  rewrite Z.mod_small, Nat2Z.id by lia. apply ascii_nat_embedding.
Qed.

Lemma code_range c : 0 <= code c < 256.
Proof. unfold code. pose proof (nat_ascii_bounded c). lia. Qed.

Lemma length_be n z : length (be n z) = n.
Proof. induction n as [|n IH]; simpl; [done|]. by rewrite IH. Qed.

Lemma unbe_acc l acc :
  fold_left (fun acc c => acc * 256 + code c) l acc =
  acc * 256 ^ Z.of_nat (length l) + unbe l.
Proof.
  unfold unbe. revert acc. induction l as [|c l IH]; intros acc; [cbn; lia|].
  cbn [fold_left length]. rewrite IH, (IH (0 * 256 + code c)).
  rewrite Nat2Z.inj_succ, Z.pow_succ_r by lia. ring.
Qed.

Lemma unbe_cons c l : unbe (c :: l) = code c * 256 ^ Z.of_nat (length l) + unbe l.
Proof. unfold unbe at 1. cbn [fold_left]. rewrite unbe_acc. f_equal. Qed.

Lemma unbe_be n z : 0 <= z < 256 ^ Z.of_nat n -> unbe (be n z) = z.
Proof.
  assert (H : forall n, unbe (be n z) = z mod 256 ^ Z.of_nat n).
  { clear n. induction n as [|n IH]; [cbn; by rewrite Z.mod_1_r|].
    cbn [be]. rewrite unbe_cons, code_byte, IH, length_be.
    rewrite Nat2Z.inj_succ, Z.pow_succ_r by lia.
    rewrite (Z.mul_comm 256), Z.rem_mul_r by lia. ring. }
  intros Hz. rewrite H. by apply Z.mod_small.
Qed.

Lemma unbe_range l : 0 <= unbe l < 256 ^ Z.of_nat (length l).
Proof.
  induction l as [|c l IH]; [done|]. rewrite unbe_cons. cbn [length].
  rewrite Nat2Z.inj_succ, Z.pow_succ_r by lia. pose proof (code_range c). nia.
Qed.

Lemma be_unbe l : be (length l) (unbe l) = l.
Proof.
  assert (H : forall n z q, be n (z + q * 256 ^ Z.of_nat n) = be n z).
  { intros n. induction n as [|n IH]; intros z q; [done|]. cbn [be].
    replace (q * 256 ^ Z.of_nat (S n)) with (q * 256 * 256 ^ Z.of_nat n)
      by (rewrite Nat2Z.inj_succ, Z.pow_succ_r by lia; ring).
    rewrite IH. f_equal. unfold byte. f_equal. f_equal.
    rewrite Z.div_add by lia. by rewrite Z.mod_add. }
  induction l as [|c l IH]; [done|]. cbn [length be]. rewrite unbe_cons.
  pose proof (unbe_range l). f_equal.
  - rewrite (Z.add_comm (code c * _)), Z.div_add, Z.div_small by lia.
    by rewrite Z.add_0_l, byte_code.
  - by rewrite (Z.add_comm (code c * _)), H.
Qed.

(** ** Voice frames (voicewire.go) *)
Module VoiceWire.

Definition Version : ascii := byte 2.
Definition TypeReg : ascii := byte 1.
Definition TypeRegAck : ascii := byte 2.
Definition TypeDataUp : ascii := byte 3.
Definition TypeDataDown : ascii := byte 4.
Definition TypeClose : ascii := byte 5.
Definition HeaderLen : nat := 20.
Definition RegLen : nat := 52.
Definition RegAckLen : nat := 28.
Definition DataOverhead : nat := 24.
Definition CloseLen : nat := 24.
Definition magic0 : ascii := byte 215.
Definition magic1 : ascii := byte 86.
Definition regMACOffset : nat := 36.
Definition macLen : nat := 16.

Inductive wire_error := ErrShort | ErrMagic | ErrVersion | ErrType | ErrLength.

(** [Frame]: the fields of its type are set, the others are zero. *)
Record Frame := mkFrame {
  f_Type : ascii;
  f_Server : bytes;
  f_UnixMs : Z;
  f_Nonce : bytes;
  f_MAC : bytes;
  f_Session : Z;
  f_Payload : bytes }.

Definition zeros (n : nat) : bytes := repeat (byte 0) n.

Definition appendHeader (dst : bytes) (typ : ascii) (server : bytes) : bytes :=
  dst ++ [magic0; magic1; Version; typ] ++ server.

(** [b[i]], read only where the length checks allow it. *)
Definition at_ (b : bytes) (i : nat) : ascii := nth i b (byte 0).

(** [b[lo:hi]] *)
Definition slice (lo hi : nat) (b : bytes) : bytes := take (hi - lo) (drop lo b).

Definition Parse (b : bytes) : Frame + wire_error :=
  if bool_decide (length b < HeaderLen)%nat then inr ErrShort
  else if bool_decide (at_ b 0 <> magic0) || bool_decide (at_ b 1 <> magic1) then inr ErrMagic
  else if bool_decide (at_ b 2 <> Version) then inr ErrVersion
  else
    let typ := at_ b 3 in
    let server := slice 4 HeaderLen b in
    if bool_decide (typ = TypeReg) then
      if bool_decide (length b <> RegLen) then inr ErrLength
      else inl (mkFrame typ server (unbe (slice 20 28 b)) (slice 28 36 b)
                  (slice regMACOffset RegLen b) 0 [])
    else if bool_decide (typ = TypeRegAck) then
      if bool_decide (length b <> RegAckLen) then inr ErrLength
      else inl (mkFrame typ server (unbe (slice 20 28 b)) (zeros 8) (zeros 16) 0 [])
    else if bool_decide (typ = TypeDataUp) || bool_decide (typ = TypeDataDown) then
      if bool_decide (length b < DataOverhead)%nat then inr ErrLength
      else inl (mkFrame typ server 0 (zeros 8) (zeros 16) (unbe (slice 20 24 b))
                  (drop DataOverhead b))
    else if bool_decide (typ = TypeClose) then
      if bool_decide (length b <> CloseLen) then inr ErrLength
      else inl (mkFrame typ server 0 (zeros 8) (zeros 16) (unbe (slice 20 24 b)) [])
    else inr ErrType.

Section MAC.
(** HMAC-SHA256 of a key and a message: [crypto/hmac]. *)
Variable hmac_sha256 : bytes -> bytes -> bytes.

Definition regMAC (key signed : bytes) : bytes := take macLen (hmac_sha256 key signed).

Definition AppendReg (dst server : bytes) (unixMs : Z) (nonce key : bytes) : bytes :=
  let start := length dst in
  let dst := appendHeader dst TypeReg server in
  let dst := dst ++ be 8 unixMs in
  let dst := dst ++ nonce in
  dst ++ regMAC key (slice start (start + regMACOffset) dst).

Definition VerifyReg (raw key : bytes) : bool :=
  match Parse raw with
  | inr _ => false
  | inl f => bool_decide (f_Type f = TypeReg) &&
             bool_decide (f_MAC f = regMAC key (take regMACOffset raw))
  end.
End MAC.

Definition AppendRegAck (dst server : bytes) (unixMs : Z) : bytes :=
  appendHeader dst TypeRegAck server ++ be 8 unixMs.

(** [None] is the panic. *)
Definition AppendData (dst : bytes) (typ : ascii) (server : bytes) (session : Z) (payload : bytes)
    : option bytes :=
  if bool_decide (typ <> TypeDataUp) && bool_decide (typ <> TypeDataDown) then None
  else Some (appendHeader dst typ server ++ be 4 session ++ payload).

Definition AppendClose (dst server : bytes) (session : Z) : bytes :=
  appendHeader dst TypeClose server ++ be 4 session.

(** *** What a frame stands for on the wire *)

Section Encodes.
Variable hmac_sha256 : bytes -> bytes -> bytes.

(** [encodes f b]: [b] is the frame of [f] as its encoder writes it; of a REG,
    the part that is signed is what its encoder writes and the MAC is any. *)
Inductive encodes : Frame -> bytes -> Prop :=
| enc_reg server ms nonce key mac :
    length server = 16%nat -> 0 <= ms < 256 ^ 8 -> length nonce = 8%nat -> length mac = 16%nat ->
    encodes (mkFrame TypeReg server ms nonce mac 0 [])
            (take regMACOffset (AppendReg hmac_sha256 [] server ms nonce key) ++ mac)
| enc_ack server ms :
    length server = 16%nat -> 0 <= ms < 256 ^ 8 ->
    encodes (mkFrame TypeRegAck server ms (zeros 8) (zeros 16) 0 []) (AppendRegAck [] server ms)
| enc_data typ server session payload b :
    length server = 16%nat -> 0 <= session < 256 ^ 4 ->
    AppendData [] typ server session payload = Some b ->
    encodes (mkFrame typ server 0 (zeros 8) (zeros 16) session payload) b
| enc_close server session :
    length server = 16%nat -> 0 <= session < 256 ^ 4 ->
    encodes (mkFrame TypeClose server 0 (zeros 8) (zeros 16) session [])
            (AppendClose [] server session).
End Encodes.

(** *** Lemmas *)

(** Parsing what follows a well-formed header. *)
Definition parse_body (typ : ascii) (server body : bytes) : Frame + wire_error :=
  if bool_decide (typ = TypeReg) then
    if bool_decide (length body <> 32%nat) then inr ErrLength
    else inl (mkFrame typ server (unbe (take 8 body)) (slice 8 16 body) (slice 16 32 body) 0 [])
  else if bool_decide (typ = TypeRegAck) then
    if bool_decide (length body <> 8%nat) then inr ErrLength
    else inl (mkFrame typ server (unbe (take 8 body)) (zeros 8) (zeros 16) 0 [])
  else if bool_decide (typ = TypeDataUp) || bool_decide (typ = TypeDataDown) then
    if bool_decide (length body < 4)%nat then inr ErrLength
    else inl (mkFrame typ server 0 (zeros 8) (zeros 16) (unbe (take 4 body)) (drop 4 body))
  else if bool_decide (typ = TypeClose) then
    if bool_decide (length body <> 4%nat) then inr ErrLength
    else inl (mkFrame typ server 0 (zeros 8) (zeros 16) (unbe (take 4 body)) [])
  else inr ErrType.

Lemma slice_header lo hi (h body : bytes) :
  length h = 20%nat -> (20 <= lo <= hi)%nat -> slice lo hi (h ++ body) = slice (lo - 20) (hi - 20) body.
Proof.
  intros Hh Hl. unfold slice. rewrite drop_app_ge by lia. rewrite Hh.
  by replace (hi - 20 - (lo - 20))%nat with (hi - lo)%nat by lia.
Qed.

Lemma length_header typ server : length server = 16%nat -> length (appendHeader [] typ server) = 20%nat.
Proof. intros H. unfold appendHeader. cbn. lia. Qed.

Lemma Parse_body typ server body :
  length server = 16%nat -> Parse (appendHeader [] typ server ++ body) = parse_body typ server body.
Proof.
  intros Hs. pose proof (length_header typ server Hs) as Hh.
  assert (E : forall k, bool_decide (20 + length body <> 20 + k)%nat = bool_decide (length body <> k))
    by (intros k; apply bool_decide_ext; lia).
  assert (L : bool_decide (20 + length body < 24)%nat = bool_decide (length body < 4)%nat)
    by (apply bool_decide_ext; lia).
  unfold Parse, parse_body, HeaderLen, RegLen, RegAckLen, DataOverhead, CloseLen, regMACOffset.
  rewrite (drop_app_ge _ _ 24) by lia. rewrite !(slice_header 20), !(slice_header 28), !(slice_header 36) by lia.
  pose proof (E 32%nat) as E1. pose proof (E 8%nat) as E2. pose proof (E 4%nat) as E3. cbn [Nat.add] in E1, E2, E3, L.
  rewrite !length_app, Hh. cbn [Nat.add Nat.sub]. rewrite E1, E2, E3, L.
  rewrite (bool_decide_false (_ < 20)%nat) by lia.
  replace (slice 4 20 _) with server
    by (change (server = take 16 (server ++ body)); by rewrite take_app_length').
  unfold appendHeader, at_; cbn [app nth].
  rewrite (bool_decide_false (magic0 <> _)), (bool_decide_false (magic1 <> _)),
    (bool_decide_false (Version <> _)) by auto. cbn [orb].
  done.
Qed.

Lemma Parse_header b f :
  Parse b = inl f ->
  exists typ server body, length server = 16%nat /\ b = appendHeader [] typ server ++ body.
Proof.
  unfold Parse, HeaderLen. case_bool_decide as Hl; [done|].
  destruct b as [|c0 [|c1 [|c2 [|typ rest]]]]; cbn in Hl; try lia. unfold at_; cbn [nth].
  destruct (bool_decide (c0 <> magic0)) eqn:H0; [done|].
  destruct (bool_decide (c1 <> magic1)) eqn:H1; [done|].
  destruct (bool_decide (c2 <> Version)) eqn:H2; [done|]. intros _.
  apply bool_decide_eq_false, dec_stable in H0 as ->.
  apply bool_decide_eq_false, dec_stable in H1 as ->.
  apply bool_decide_eq_false, dec_stable in H2 as ->.
  exists typ, (take 16 rest), (drop 16 rest). split; [rewrite length_take; cbn in Hl; lia|].
  unfold appendHeader. cbn [app]. by rewrite <- ?app_comm_cons, take_drop.
Qed.

(** A number field is its [n] bytes. *)
Lemma be_field n (body : bytes) : (n <= length body)%nat -> be n (unbe (take n body)) = take n body.
Proof.
  intros H. rewrite <- (be_unbe (take n body)) at 2. by rewrite length_take_le.
Qed.

Lemma unbe_field n (body : bytes) :
  (n <= length body)%nat -> 0 <= unbe (take n body) < 256 ^ Z.of_nat n.
Proof. intros H. pose proof (unbe_range (take n body)). by rewrite length_take_le in *. Qed.

(** What the MAC of a REG signs. *)
Lemma AppendReg_signed hmac server ms nonce key :
  length server = 16%nat -> length nonce = 8%nat ->
  take regMACOffset (AppendReg hmac [] server ms nonce key) =
  appendHeader [] TypeReg server ++ be 8 ms ++ nonce.
Proof.
  intros Hs Hn. unfold AppendReg. rewrite take_app_length', <- !app_assoc; [done|].
  by rewrite !length_app, length_header, length_be, Hn.
Qed.

Lemma encodes_reg hmac server ms nonce mac :
  length server = 16%nat -> 0 <= ms < 256 ^ 8 -> length nonce = 8%nat -> length mac = 16%nat ->
  encodes hmac (mkFrame TypeReg server ms nonce mac 0 [])
    (appendHeader [] TypeReg server ++ be 8 ms ++ nonce ++ mac).
Proof.
  intros Hs Hm Hn Hc. pose proof (enc_reg hmac server ms nonce [] mac Hs Hm Hn Hc) as H.
  by rewrite AppendReg_signed, <- !app_assoc in H.
Qed.

Lemma parse_body_encodes hmac typ server body f :
  length server = 16%nat ->
  parse_body typ server body = inl f -> encodes hmac f (appendHeader [] typ server ++ body).
Proof.
  intros Hs. unfold parse_body.
  destruct (bool_decide (typ = TypeReg)) eqn:T1;
    [|destruct (bool_decide (typ = TypeRegAck)) eqn:T2;
    [|destruct (bool_decide (typ = TypeDataUp) || bool_decide (typ = TypeDataDown)) eqn:T3;
    [|destruct (bool_decide (typ = TypeClose)) eqn:T4; [|done]]]];
    match goal with |- context [if ?b then inr ErrLength else _] => destruct b eqn:Hl end;
    try done; intros [= <-]; apply bool_decide_eq_false in Hl.
  - apply dec_stable in Hl. apply bool_decide_eq_true in T1 as ->.
    assert (Hb : body = be 8 (unbe (take 8 body)) ++ slice 8 16 body ++ slice 16 32 body).
    { rewrite be_field by lia. unfold slice. cbn [Nat.sub].
      rewrite (take_ge (drop 16 body)) by (rewrite length_drop; lia).
      change 16%nat with (8 + 8)%nat. rewrite <- drop_drop. by rewrite !take_drop. }
    rewrite Hb at 4. apply encodes_reg; try done; [by apply unbe_field; lia|..];
      unfold slice; rewrite length_take, length_drop; lia.
  - apply dec_stable in Hl. apply bool_decide_eq_true in T2 as ->.
    replace body with (be 8 (unbe (take 8 body))) at 2
      by (rewrite be_field by lia; by rewrite take_ge by lia).
    apply enc_ack; [done|]. apply unbe_field; lia.
  - apply enc_data; [done|apply unbe_field; lia|]. unfold AppendData.
    rewrite be_field, take_drop by lia.
    apply orb_true_iff in T3 as [->%bool_decide_eq_true | ->%bool_decide_eq_true]; done.
  - apply dec_stable in Hl. apply bool_decide_eq_true in T4 as ->.
    replace body with (be 4 (unbe (take 4 body))) at 2
      by (rewrite be_field by lia; by rewrite take_ge by lia).
    apply enc_close; [done|]. apply unbe_field; lia.
Qed.

Lemma take_be n z (rest : bytes) : take n (be n z ++ rest) = be n z.
Proof. by rewrite take_app_length' by (by rewrite length_be). Qed.

Lemma encodes_Parse hmac f b : encodes hmac f b -> Parse b = inl f.
Proof.
  intros [server ms nonce key mac Hs Hm Hn Hc|server ms Hs Hm|typ server session payload b' Hs Hm Hd
         |server session Hs Hm].
  - rewrite AppendReg_signed, <- !app_assoc, Parse_body by done.
    unfold parse_body. rewrite bool_decide_true by done.
    rewrite bool_decide_false by (rewrite !length_app, length_be; lia).
    rewrite take_be, unbe_be by done. unfold slice; cbn [Nat.sub].
    rewrite (drop_app_ge _ _ 8), (drop_app_ge _ _ 16), length_be by (rewrite length_be; lia).
    cbn [Nat.sub]. rewrite drop_0, take_app_length', drop_app_length', take_ge by (done || lia). done.
  - unfold AppendRegAck. rewrite Parse_body by done. unfold parse_body.
    rewrite (bool_decide_false (TypeRegAck = TypeReg)), bool_decide_true by done.
    rewrite bool_decide_false by (rewrite length_be; lia).
    by rewrite take_ge, unbe_be by (done || rewrite length_be; lia).
  - unfold AppendData in Hd. destruct (_ && _) eqn:Ht in Hd; [done|]. apply (inj Some) in Hd as <-.
    rewrite Parse_body by done. unfold parse_body.
    rewrite (bool_decide_false (length _ < 4)%nat) by (rewrite length_app, length_be; lia).
    rewrite take_be, unbe_be, drop_app_length' by (done || by rewrite length_be).
    apply andb_false_iff in Ht as [Ht|Ht]; apply bool_decide_eq_false, dec_stable in Ht as ->; done.
  - unfold AppendClose. rewrite Parse_body by done. unfold parse_body.
    rewrite (bool_decide_false (TypeClose = TypeReg)), (bool_decide_false (TypeClose = TypeRegAck)),
      (bool_decide_false (TypeClose = TypeDataUp)), (bool_decide_false (TypeClose = TypeDataDown)),
      (bool_decide_true (TypeClose = TypeClose)) by done. cbn [orb].
    rewrite bool_decide_false by (rewrite length_be; lia).
    by rewrite take_ge, unbe_be by (done || rewrite length_be; lia).
Qed.

Lemma Parse_encodes hmac b f : Parse b = inl f -> encodes hmac f b.
Proof.
  intros Hp. destruct (Parse_header b f Hp) as (typ & server & body & Hs & ->).
  rewrite Parse_body in Hp by done. by apply parse_body_encodes.
Qed.

(** *** Registration *)

Section Registration.
Context (hmac_sha256 : bytes -> bytes -> bytes).
Hypothesis hmac_len : forall key msg, length (hmac_sha256 key msg) = 32%nat.
Local Notation regMAC := (regMAC hmac_sha256).
Local Notation AppendReg := (AppendReg hmac_sha256).

Lemma length_regMAC key msg : length (regMAC key msg) = 16%nat.
Proof. unfold VoiceWire.regMAC, macLen. by rewrite length_take, hmac_len. Qed.

(** The MAC of a REG signs its own 36 bytes, wherever the frame starts. *)
Lemma AppendReg_eq dst server ms nonce key :
  length server = 16%nat -> length nonce = 8%nat ->
  AppendReg dst server ms nonce key =
  dst ++ appendHeader [] TypeReg server ++ be 8 ms ++ nonce ++
  regMAC key (appendHeader [] TypeReg server ++ be 8 ms ++ nonce).
Proof.
  intros Hs Hn. unfold VoiceWire.AppendReg.
  assert (E : (appendHeader dst TypeReg server ++ be 8 ms) ++ nonce =
              dst ++ appendHeader [] TypeReg server ++ be 8 ms ++ nonce)
    by (unfold appendHeader; cbn [app]; by rewrite <- !app_assoc).
  rewrite E. unfold slice, regMACOffset. rewrite drop_app_length' by done.
  rewrite take_ge by (rewrite !length_app, length_header, length_be by done; lia).
  by rewrite <- !app_assoc.
Qed.

(** [VerifyReg] accepts a datagram exactly when it is the REG frame that
    [AppendReg] writes with that key, for some server, time and nonce; and
    appending a REG to a buffer that already holds bytes signs the frame only,
    never the bytes before it. *)
Lemma VerifyReg_exact (raw key : bytes) :
  (VerifyReg hmac_sha256 raw key = true <->
   exists server ms nonce, length server = 16%nat /\ 0 <= ms < 256 ^ 8 /\ length nonce = 8%nat /\
     raw = AppendReg [] server ms nonce key) /\
  (forall dst server ms nonce, length server = 16%nat -> length nonce = 8%nat ->
   AppendReg dst server ms nonce key = dst ++ AppendReg [] server ms nonce key).
Proof.
  split; [|by intros; rewrite !AppendReg_eq].
  assert (Hsig : forall server ms nonce mac, length server = 16%nat -> length nonce = 8%nat ->
    take regMACOffset (appendHeader [] TypeReg server ++ be 8 ms ++ nonce ++ mac) =
    appendHeader [] TypeReg server ++ be 8 ms ++ nonce).
  { intros server ms nonce mac Hs Hn. rewrite (app_assoc (be 8 ms)), (app_assoc (appendHeader _ _ _)).
    apply take_app_length'. by rewrite !length_app, length_header, length_be, Hn. }
  unfold VerifyReg. split.
  - destruct (Parse raw) as [f|] eqn:Hp; [|done].
    destruct (Parse_encodes hmac_sha256 raw f Hp) as [server ms nonce k mac Hs Hm Hn Hc|server ms _ _
      |typ server session payload b _ _ Hd|server session _ _]; cbn [f_Type f_MAC].
    + rewrite AppendReg_signed, <- !app_assoc, Hsig by done. intros [_ ->%bool_decide_eq_true]%andb_true_iff.
      exists server, ms, nonce. by rewrite AppendReg_eq.
    + by intros [?%bool_decide_eq_true _]%andb_true_iff.
    + intros [Ht%bool_decide_eq_true _]%andb_true_iff. by subst.
    + by intros [?%bool_decide_eq_true _]%andb_true_iff.
  - intros (server & ms & nonce & Hs & Hm & Hn & ->). rewrite AppendReg_eq by done. cbn [app].
    rewrite (encodes_Parse hmac_sha256 (mkFrame TypeReg server ms nonce
      (regMAC key (appendHeader [] TypeReg server ++ be 8 ms ++ nonce)) 0 []))
      by (apply encodes_reg; auto using length_regMAC).
    cbn [f_Type f_MAC]. rewrite Hsig by done. by rewrite !bool_decide_true.
Qed.

(** C36: [Parse] is the inverse of the encoders. It accepts exactly the frames
    they write, and reads back exactly the fields that were written: a REG
    whatever its MAC, which [Parse] reads and does not verify, a REG_ACK, a
    DATA with its payload, a CLOSE; any other datagram is refused. [VerifyReg]
    then accepts exactly the REG frames that the encoder signs with the same
    key: for every server, time and nonce that frame parses to these fields
    and verifies, and nothing else does. The HMAC is any keyed function of 32
    bytes. *)
Theorem Parse_exact :
  (forall b f, Parse b = inl f <-> encodes hmac_sha256 f b) /\
  (forall server ms nonce key, length server = 16%nat -> 0 <= ms < 256 ^ 8 ->
     length nonce = 8%nat ->
     Parse (AppendReg [] server ms nonce key) =
       inl (mkFrame TypeReg server ms nonce
              (regMAC key (take regMACOffset (AppendReg [] server ms nonce key))) 0 []) /\
     VerifyReg hmac_sha256 (AppendReg [] server ms nonce key) key = true) /\
  (forall raw key, VerifyReg hmac_sha256 raw key = true ->
     exists server ms nonce, length server = 16%nat /\ 0 <= ms < 256 ^ 8 /\
       length nonce = 8%nat /\ raw = AppendReg [] server ms nonce key).
Proof.
  split_and!.
  - intros b f. split; [apply Parse_encodes|apply encodes_Parse].
  - intros server ms nonce key Hs Hm Hn. split; [|by apply VerifyReg_exact; exists server, ms, nonce].
    apply (encodes_Parse hmac_sha256). rewrite AppendReg_signed by done.
    rewrite (AppendReg_eq []) by done. by apply encodes_reg; try apply length_regMAC.
  - intros raw key. apply VerifyReg_exact.
Qed.
End Registration.

(** A keyed stand-in for the HMAC: 32 bytes of the key followed by the message,
    padded. *)
Definition toy_hmac (key msg : bytes) : bytes := take 32 (key ++ msg ++ zeros 32).

Lemma Parse_exact_witness :
  let raw := AppendReg toy_hmac [] (zeros 16) 77 (zeros 8) [byte 9] in
  (forall key msg, length (toy_hmac key msg) = 32%nat) /\
  VerifyReg toy_hmac raw [byte 9] = true /\ VerifyReg toy_hmac raw [byte 8] = false.
Proof.
  assert (Hl : forall key msg, length (toy_hmac key msg) = 32%nat).
  { intros key msg. unfold toy_hmac. rewrite length_take, !length_app.
    unfold zeros. rewrite repeat_length. lia. }
  split; [done|]. split; [|by vm_compute].
  apply (proj1 (proj2 (Parse_exact toy_hmac Hl))); done || lia.
Defined.
End VoiceWire.

(** ** Handshake token and stream headers (header.go) *)
Module Protocol.

Definition maxTokenLen : nat := 4096.
Definition StreamTypeNew : ascii := byte 1.
Definition StreamTypeResume : ascii := byte 2.
Definition StreamTypeBeam : ascii := byte 3.

(** *** Writers and readers *)

(** A connection that takes [w_room] more bytes and then fails. *)
Record writer := mkWriter { w_out : bytes; w_room : nat }.

Inductive write_error := WriteFailed | TicketTooLong.

Definition Write (p : bytes) (w : writer) : option write_error * writer :=
  (if bool_decide (length p <= w_room w)%nat then None else Some WriteFailed,
   mkWriter (w_out w ++ take (w_room w) p) (w_room w - length p)).

(** Two steps, the second only when the first did not fail. *)
Definition andThen (m1 m2 : writer -> option write_error * writer) (w : writer) :=
  match m1 w with
  | (None, w') => m2 w'
  | (Some e, w') => (Some e, w')
  end.
Local Infix "&>" := andThen (at level 60, right associativity).

(** A connection that delivers [r_left] and then ends, or breaks. *)
Inductive read_error := EOF | ErrUnexpectedEOF | Broken | TokenTooLong | UnknownType (c : ascii).
Record reader := mkReader { r_left : bytes; r_broken : bool }.

Definition rd (A : Type) := reader -> (A + read_error) * reader.
Definition rret {A} (a : A) : rd A := fun r => (inl a, r).
Definition rfail {A} (e : read_error) : rd A := fun r => (inr e, r).
Definition rbind {A B} (m : rd A) (k : A -> rd B) : rd B := fun r =>
  match m r with (inl a, r') => k a r' | (inr e, r') => (inr e, r') end.
Local Notation "'let!' x := m 'in' k" := (rbind m (fun x => k)) (at level 200, x pattern, right associativity).

(** [io.ReadFull] of [n] bytes. *)
Definition ReadFull (n : nat) : rd bytes := fun r =>
  if bool_decide (n <= length (r_left r))%nat
  then (inl (take n (r_left r)), mkReader (drop n (r_left r)) (r_broken r))
  else (inr (if r_broken r then Broken else if bool_decide (r_left r = []) then EOF else ErrUnexpectedEOF),
        mkReader [] (r_broken r)).

(** [binary.Read] of an unsigned integer of [n] bytes. *)
Definition ReadUint (n : nat) : rd Z := let! b := ReadFull n in rret (unbe b).

(** *** The token *)

Fixpoint readToken_loop (rest : bytes) (broken : bool) (buf : bytes) : (string + read_error) * bytes :=
  match rest with
  | [] => if broken then (inr Broken, [])
          else match buf with
               | [] => (inr EOF, [])
               | _ => (inl (TrimSpace (string_of_list_ascii buf)), [])
               end
  | c :: rest =>
      if bool_decide (c = byte 10) then (inl (TrimSpace (string_of_list_ascii buf)), rest)
      else let buf := buf ++ [c] in
           if bool_decide (maxTokenLen < length buf)%nat then (inr TokenTooLong, rest)
           else readToken_loop rest broken buf
  end.

Definition ReadToken : rd string := fun r =>
  let '(x, rest) := readToken_loop (r_left r) (r_broken r) [] in (x, mkReader rest (r_broken r)).

Definition WriteToken (token : string) : writer -> option write_error * writer :=
  Write (list_ascii_of_string token ++ [byte 10]).

(** *** The stream headers *)

Definition WriteStreamHeaderNew (sessionID : bytes) (ip : string) (port : Z) :=
  Write [StreamTypeNew] &>
  Write sessionID &>
  let ip := list_ascii_of_string ip in
  let ip := if bool_decide (255 < length ip)%nat then take 255 ip else ip in
  Write (be 1 (Z.of_nat (length ip))) &>
  Write ip &>
  Write (be 2 port).

Definition WriteStreamHeaderResume (sessionID : bytes) (bytesReceived : Z) :=
  Write [StreamTypeResume] &> Write sessionID &> Write (be 8 bytesReceived).

Definition WriteBeamHeader (ticket : string) :=
  Write [StreamTypeBeam] &>
  let ticketBytes := list_ascii_of_string ticket in
  fun w =>
    if bool_decide (65535 < Z.of_nat (length ticketBytes)) then (Some TicketTooLong, w)
    else (Write (be 2 (Z.of_nat (length ticketBytes))) &> Write ticketBytes) w.

Definition ReadBeamHeader : rd string :=
  let! ticketLen := ReadUint 2 in
  let! ticketBytes := ReadFull (Z.to_nat ticketLen) in
  rret (string_of_list_ascii ticketBytes).

(** [streamType], [sessionID], [ip], [port] and [bytesReceived]. *)
Definition ReadStreamHeader : rd (ascii * bytes * string * Z * Z) :=
  let! typeBuf := ReadFull 1 in
  let streamType := nth 0 typeBuf (byte 0) in
  let! sessionID := ReadFull 16 in
  if bool_decide (streamType = StreamTypeNew) then
    let! ipLen := ReadUint 1 in
    let! ipBytes := ReadFull (Z.to_nat ipLen) in
    let! port := ReadUint 2 in
    rret (streamType, sessionID, string_of_list_ascii ipBytes, port, 0)
  else if bool_decide (streamType = StreamTypeResume) then
    let! bytesReceived := ReadUint 8 in
    rret (streamType, sessionID, "", 0, bytesReceived)
  else rfail (UnknownType streamType).

(** *** Lemmas *)

(** A sequence of writes is one write of the concatenation. *)
Lemma Write_app p q w : (Write p &> Write q) w = Write (p ++ q) w.
Proof.
  unfold andThen, Write. cbn [w_out w_room]. rewrite length_app, take_app.
  case_bool_decide as H1.
  - rewrite (take_ge p) by lia. rewrite <- app_assoc.
    erewrite bool_decide_ext; [f_equal; f_equal; lia|lia].
  - rewrite bool_decide_false by lia.
    replace (w_room w - length p)%nat with 0%nat by lia. rewrite take_0, app_nil_r.
    f_equal. f_equal. lia.
Qed.

Lemma andThen_ext m p q w :
  (forall w, m w = Write q w) -> (Write p &> m) w = Write (p ++ q) w.
Proof. intros H. rewrite <- Write_app. unfold andThen. destruct (Write p w) as [[e|] w']; auto. Qed.

Lemma ReadFull_app p rest br :
  ReadFull (length p) (mkReader (p ++ rest) br) = (inl p, mkReader rest br).
Proof.
  unfold ReadFull; cbn [r_left r_broken]. rewrite bool_decide_true by (rewrite length_app; lia).
  by rewrite take_app_length, drop_app_length.
Qed.

Lemma ReadUint_app n z rest br :
  0 <= z < 256 ^ Z.of_nat n -> ReadUint n (mkReader (be n z ++ rest) br) = (inl z, mkReader rest br).
Proof.
  intros Hz. unfold ReadUint, rbind. rewrite <- (length_be n z) at 1.
  rewrite ReadFull_app. unfold rret. by rewrite unbe_be.
Qed.

(** A read that succeeds takes a prefix, and takes the same prefix when more
    bytes follow. *)
Definition prefix_read {A} (m : rd A) : Prop := forall l br a r',
  m (mkReader l br) = (inl a, r') ->
  exists l', r' = mkReader l' br /\ forall x, m (mkReader (l ++ x) br) = (inl a, mkReader (l' ++ x) br).

Lemma prefix_ReadFull n : prefix_read (ReadFull n).
Proof.
  intros l br a r'. unfold ReadFull; cbn [r_left r_broken]. case_bool_decide as H; [|done].
  intros [= <- <-]. exists (drop n l). split; [done|]. intros x.
  rewrite bool_decide_true by (rewrite length_app; lia).
  by rewrite take_app_le, drop_app_le by done.
Qed.

Lemma prefix_rret {A} (a : A) : prefix_read (rret a).
Proof. intros l br a' r' [= <- <-]. by exists l. Qed.

Lemma prefix_rfail {A} e : prefix_read (@rfail A e).
Proof. by intros l br a r' [=]. Qed.

Lemma prefix_rbind {A B} (m : rd A) (k : A -> rd B) :
  prefix_read m -> (forall a, prefix_read (k a)) -> prefix_read (rbind m k).
Proof.
  intros Hm Hk l br b r'. unfold rbind. destruct (m (mkReader l br)) as [[a|e] r1] eqn:E; [|done].
  destruct (Hm _ _ _ _ E) as (l1 & -> & H1). intros E2.
  destruct (Hk _ _ _ _ _ E2) as (l2 & -> & H2). exists l2. split; [done|]. intros x.
  by rewrite H1, H2.
Qed.

Lemma prefix_ReadUint n : prefix_read (ReadUint n).
Proof. apply prefix_rbind; [apply prefix_ReadFull|]. intros; apply prefix_rret. Qed.

#[local] Hint Resolve prefix_ReadFull prefix_ReadUint prefix_rret prefix_rfail : prefix.

Lemma prefix_ReadStreamHeader : prefix_read ReadStreamHeader.
Proof.
  unfold ReadStreamHeader. apply prefix_rbind; [auto with prefix|intros t].
  apply prefix_rbind; [auto with prefix|intros sid].
  do 2 (case_bool_decide; [repeat (apply prefix_rbind; [auto with prefix|intros ?]); auto with prefix|]).
  auto with prefix.
Qed.

Lemma prefix_ReadBeamHeader : prefix_read ReadBeamHeader.
Proof. repeat (apply prefix_rbind; [auto with prefix|intros ?]); auto with prefix. Qed.

(** A header that a prefix read takes whole is not readable when cut short. *)
Lemma cut_header {A} (m : rd A) h a n br :
  prefix_read m -> m (mkReader (h ++ []) br) = (inl a, mkReader [] br) -> (n < length h)%nat ->
  exists e r, m (mkReader (take n h) br) = (inr e, r).
Proof.
  intros Hp Hm Hn. destruct (m (mkReader (take n h) br)) as [[a'|e] r'] eqn:E; [|eauto].
  destruct (Hp _ _ _ _ E) as (l' & -> & Hx). specialize (Hx (drop n h)).
  rewrite take_drop in Hx. rewrite app_nil_r, Hx in Hm. injection Hm as _ Hl.
  apply app_nil in Hl as [_ Hl]. apply (f_equal length) in Hl. rewrite length_drop in Hl. cbn in Hl. lia.
Qed.

(** [carries write read a h]: the writer puts [h] on the connection, as far as
    it takes it, and fails when it does not take all of it; a reader that gets
    [h] reads [a] and leaves what follows; one that gets less of it fails. *)
Definition carries {A} (write : writer -> option write_error * writer) (read : rd A) (a : A)
    (type_byte h : bytes) : Prop :=
  (forall w, write w = Write (type_byte ++ h) w) /\
  (forall rest br, read (mkReader (h ++ rest) br) = (inl a, mkReader rest br)) /\
  (forall n br, (n < length h)%nat -> exists e r, read (mkReader (take n h) br) = (inr e, r)).

Lemma carries_intro {A} write (read : rd A) a ty h :
  prefix_read read ->
  (forall w, write w = Write (ty ++ h) w) ->
  (forall rest br, read (mkReader (h ++ rest) br) = (inl a, mkReader rest br)) ->
  carries write read a ty h.
Proof.
  intros Hp Hw Hr. split; [done|]. split; [done|]. intros n br Hn. by apply (cut_header read h a).
Qed.

(** The target address a new stream carries: at most 255 bytes of it. *)
Definition cut_ip (ip : string) : bytes := take 255 (list_ascii_of_string ip).

Lemma header_new sid ip port :
  length sid = 16%nat -> 0 <= port < 65536 ->
  carries (WriteStreamHeaderNew sid ip port) ReadStreamHeader
    (StreamTypeNew, sid, string_of_list_ascii (cut_ip ip), port, 0) []
    ([StreamTypeNew] ++ sid ++ be 1 (Z.of_nat (length (cut_ip ip))) ++ cut_ip ip ++ be 2 port).
Proof.
  intros Hs Hport. apply carries_intro; [apply prefix_ReadStreamHeader|..].
  - intros w. unfold WriteStreamHeaderNew. cbv zeta.
    assert (E : (if bool_decide (255 < length (list_ascii_of_string ip))%nat
                 then take 255 (list_ascii_of_string ip) else list_ascii_of_string ip) = cut_ip ip).
    { case_bool_decide; [done|]. unfold cut_ip. rewrite take_ge; [done|lia]. }
    rewrite E, app_nil_l. do 4 (apply andThen_ext; intros ?). done.
  - intros rest br. rewrite <- !app_assoc. unfold ReadStreamHeader, rbind.
    rewrite (ReadFull_app [StreamTypeNew]). cbn [nth]. rewrite <- Hs, ReadFull_app.
    rewrite bool_decide_true by done.
    rewrite ReadUint_app by (unfold cut_ip; rewrite length_take; lia).
    rewrite Nat2Z.id, ReadFull_app. by rewrite ReadUint_app.
Qed.

Lemma header_resume sid n :
  length sid = 16%nat -> 0 <= n < 2 ^ 64 ->
  carries (WriteStreamHeaderResume sid n) ReadStreamHeader
    (StreamTypeResume, sid, "", 0, n) [] ([StreamTypeResume] ++ sid ++ be 8 n).
Proof.
  intros Hs Hn. apply carries_intro; [apply prefix_ReadStreamHeader|..].
  - intros w. rewrite app_nil_l. do 2 (apply andThen_ext; intros ?). done.
  - intros rest br. rewrite <- !app_assoc. unfold ReadStreamHeader, rbind.
    rewrite (ReadFull_app [StreamTypeResume]). cbn [nth]. rewrite <- Hs, ReadFull_app.
    rewrite (bool_decide_false (StreamTypeResume = _)), bool_decide_true by done.
    by rewrite ReadUint_app.
Qed.

Lemma header_beam ticket :
  (Z.of_nat (length (list_ascii_of_string ticket)) <= 65535) ->
  carries (WriteBeamHeader ticket) ReadBeamHeader ticket [StreamTypeBeam]
    (be 2 (Z.of_nat (length (list_ascii_of_string ticket))) ++ list_ascii_of_string ticket).
Proof.
  intros Hl. apply carries_intro; [apply prefix_ReadBeamHeader|..].
  - intros w. apply andThen_ext. intros w'. cbv zeta. rewrite bool_decide_false by lia. apply Write_app.
  - intros rest br. rewrite <- !app_assoc. unfold ReadBeamHeader, rbind.
    rewrite ReadUint_app by lia. rewrite Nat2Z.id, ReadFull_app. unfold rret.
    by rewrite string_of_list_ascii_of_string.
Qed.

(** the stream headers carry what they are given. A new-stream header
    brings its session and port, and the address up to 255 bytes; a resume
    header its session and byte position; a Beam header a ticket of up to
    65535 bytes, after the type byte its reader has consumed. The reader takes
    exactly the header and leaves the bytes that follow; a header cut short
    anywhere is refused; a connection that does not take the whole header
    makes the writer fail; and a longer ticket is refused. *)
Lemma stream_headers_roundtrip (sid : bytes) (ip ticket : string) (port n : Z) :
  length sid = 16%nat -> 0 <= port < 65536 -> 0 <= n < 2 ^ 64 ->
  (exists h, carries (WriteStreamHeaderNew sid ip port) ReadStreamHeader
    (StreamTypeNew, sid, string_of_list_ascii (cut_ip ip), port, 0) [] h) /\
  (exists h, carries (WriteStreamHeaderResume sid n) ReadStreamHeader
    (StreamTypeResume, sid, "", 0, n) [] h) /\
  if bool_decide (Z.of_nat (length (list_ascii_of_string ticket)) <= 65535)
  then exists h, carries (WriteBeamHeader ticket) ReadBeamHeader ticket [StreamTypeBeam] h
  else forall w, exists e w', WriteBeamHeader ticket w = (Some e, w').
Proof.
  intros Hs Hport Hn. split; [eauto using header_new|]. split; [eauto using header_resume|].
  case_bool_decide as Hl; [eauto using header_beam|]. intros w. unfold WriteBeamHeader, andThen.
  destruct (Write _ w) as [[e|] w']; [by eauto|]. rewrite bool_decide_true by lia. eauto.
Qed.

Lemma stream_headers_roundtrip_witness :
  length (repeat (byte 7) 16) = 16%nat /\ 0 <= 25565 < 65536 /\ 0 <= 1000000 < 2 ^ 64 /\
  exists h, carries (WriteStreamHeaderNew (repeat (byte 7) 16) "10.0.0.4" 25565) ReadStreamHeader
    (StreamTypeNew, repeat (byte 7) 16, "10.0.0.4", 25565, 0) [] h.
Proof.
  split; [done|]. split; [done|]. split; [done|].
  refine (proj1 (stream_headers_roundtrip (repeat (byte 7) 16) "10.0.0.4" "" 25565 1000000 _ _ _)); done.
Defined.

(** *** The handshake token *)

Lemma readToken_loop_line l br buf rest :
  byte 10 ∉ l -> (length buf + length l <= maxTokenLen)%nat ->
  readToken_loop (l ++ byte 10 :: rest) br buf =
  (inl (TrimSpace (string_of_list_ascii (buf ++ l))), rest).
Proof.
  revert buf. induction l as [|c l IH]; intros buf Hn Hl; cbn [app readToken_loop].
  - rewrite bool_decide_true by done. by rewrite app_nil_r.
  - apply not_elem_of_cons in Hn as [Hc Hn]. rewrite bool_decide_false by auto.
    cbn [length] in Hl. rewrite bool_decide_false by (rewrite length_app; cbn; lia).
    rewrite IH by (done || rewrite length_app; cbn; lia). by rewrite <- app_assoc.
Qed.

Lemma readToken_loop_long l x br buf :
  byte 10 ∉ l -> (maxTokenLen < length buf + length l)%nat -> (length buf <= maxTokenLen)%nat ->
  exists rest, readToken_loop (l ++ x) br buf = (inr TokenTooLong, rest).
Proof.
  revert buf. induction l as [|c l IH]; intros buf Hn Hl Hb; cbn [length app readToken_loop] in *; [lia|].
  apply not_elem_of_cons in Hn as [Hc Hn]. rewrite bool_decide_false by auto.
  case_bool_decide as H; [eauto|]. rewrite length_app in H; cbn in H.
  apply IH; [done|rewrite length_app; cbn; lia..].
Qed.

(** the handshake. A token of up to 4096 bytes with no newline in it is
    read back as written, apart from white space around it, and everything the
    peer sends after the newline is left on the connection for the next
    protocol; a peer that sends more than 4096 bytes without a newline is cut
    off with an error, whatever follows. *)
Lemma token_roundtrip (token : string) (rest : bytes) (br : bool) :
  byte 10 ∉ list_ascii_of_string token ->
  if bool_decide (length (list_ascii_of_string token) <= maxTokenLen)%nat
  then exists h, (forall w, WriteToken token w = Write h w) /\
       ReadToken (mkReader (h ++ rest) br) = (inl (TrimSpace token), mkReader rest br) /\
       (all_chars graphic token = true ->
        ReadToken (mkReader (h ++ rest) br) = (inl token, mkReader rest br))
  else exists r, ReadToken (mkReader (list_ascii_of_string token ++ rest) br) = (inr TokenTooLong, r).
Proof.
  intros Hn. case_bool_decide as Hl.
  - exists (list_ascii_of_string token ++ [byte 10]). split; [done|].
    assert (E : ReadToken (mkReader ((list_ascii_of_string token ++ [byte 10]) ++ rest) br) =
      (inl (TrimSpace token), mkReader rest br)).
    { unfold ReadToken; cbn [r_left r_broken]. rewrite <- app_assoc; cbn [app].
      rewrite readToken_loop_line by done. by rewrite app_nil_l, string_of_list_ascii_of_string. }
    split; [done|]. intros Hg. by rewrite E, TrimSpace_all_graphic.
  - unfold ReadToken; cbn [r_left r_broken].
    destruct (readToken_loop_long (list_ascii_of_string token) rest br []) as [r ->]; cbn; eauto; lia.
Qed.

Lemma token_roundtrip_witness :
  byte 10 ∉ list_ascii_of_string "link-7f3a" /\
  exists h, (forall w, WriteToken "link-7f3a" w = Write h w) /\
    ReadToken (mkReader (h ++ [byte 1; byte 2]) false) = (inl "link-7f3a", mkReader [byte 1; byte 2] false).
Proof.
  assert (Hn : byte 10 ∉ list_ascii_of_string "link-7f3a") by (apply (bool_decide_unpack _); by vm_compute).
  split; [done|].
  destruct (token_roundtrip "link-7f3a" [byte 1; byte 2] false Hn) as (h & Hw & _ & Hr).
  exists h. split; [done|]. by apply Hr.
Defined.
End Protocol.
