(* ===== verification/Limits.v ===== *)
(** * Upload quotas, storage order and the reconnect schedule

    [Module Quota] is pkg/beam/quota/quota.go: the per-upload cap and the
    per-user daily counter that Core and the nodes share in Redis. [Module
    Storage] is pkg/storageplacement/order.go, the rule that orders a node's
    storage paths. [Module Retry] is pkg/retry/backoff.go. Redis is a map from
    keys to strings; a client that cannot be reached is one whose reads find
    nothing and whose writes may or may not have been applied. *)

From S2P Require Import Prelude GoStrings.
Open Scope string_scope.
Open Scope list_scope.
Open Scope Z_scope.

(** ** Upload limits (quota.go) *)
Module Quota.

Definition MaxUploadBytesKey : string := "beam:max_upload_bytes".
Definition DailyUploadBytesKey : string := "beam:daily_upload_bytes".

Definition DailyKeyPrefix (username : string) : string :=
  ("dylaris:beam:daily:" +:+ username +:+ ":")%string.

(** [day] is the UTC date, as [Format("2006-01-02")] prints it. *)
Definition DailyKey (username day : string) : string := (DailyKeyPrefix username +:+ day)%string.

Definition ExceedsSizeCap (size : Z) (capBytes : option Z) : bool :=
  match capBytes with Some c => c <? size | None => false end.

Definition ExceedsDaily (used : Z) (limit : option Z) (incoming : Z) : bool :=
  match limit with Some l => l <? wrap64 (used + incoming) | None => false end.

(** [rdb.Get(key).Int64()]: nothing for a missing key, a failed read or a value
    that is not an [int64]. *)
Notation client := (string -> option string).
Definition GetInt64 (rdb : client) (key : string) : option Z := rdb key ≫= Atoi.

(** No client is the nil client. *)
Definition MaxUploadCap (rdb : option client) : option Z :=
  match rdb with
  | None => None
  | Some rdb =>
      match GetInt64 rdb MaxUploadBytesKey with
      | Some capBytes => if capBytes <? 0 then None else Some capBytes
      | None => None
      end
  end.

Definition CheckSizeCap (rdb : option client) (size : Z) : bool * option Z :=
  let capBytes := MaxUploadCap rdb in
  (negb (ExceedsSizeCap size capBytes), capBytes).

Definition DailyUsage (rdb : option client) (today username : string) : Z * option Z :=
  match rdb with
  | None => (0, None)
  | Some rdb =>
      if (username =? "")%string then (0, None)
      else match GetInt64 rdb DailyUploadBytesKey with
           | None => (0, None)
           | Some n =>
               if n <? 0 then (0, None)
               else (default 0 (GetInt64 rdb (DailyKey username today)), Some n)
           end
  end.

Definition CheckDailyQuota (rdb : option client) (today username : string) (incoming : Z)
    : bool * Z * option Z :=
  let '(used, limit) := DailyUsage rdb today username in
  (negb (ExceedsDaily used limit incoming), used, limit).

(** Redis' INCRBY: the value must be an integer in its one decimal form, and
    the sum an [int64]; otherwise nothing changes. *)
Definition IncrBy (key : string) (n : Z) (db : gmap string string) : gmap string string :=
  match db !! key with
  | None => if in_int64 n then <[key := Itoa n]> db else db
  | Some s =>
      match Atoi s with
      | Some v => if (Itoa v =? s)%string && in_int64 (v + n) then <[key := Itoa (v + n)]> db else db
      | None => db
      end
  end.

(** The pipeline of INCRBY and EXPIRE; [o] is what became of it. *)
Definition RecordDailyUsage (o : outcome) (have_rdb : bool) (today username : string) (n : Z)
    (db : gmap string string) : gmap string string :=
  if negb have_rdb || (username =? "")%string || (n <=? 0) then db
  else if applied o then IncrBy (DailyKey username today) n db else db.

(** One upload, as the upload paths do it: checked against the counter as it
    stands, written, and booked. *)
Definition upload (o : outcome) (today username : string) (n : Z) (db : gmap string string)
    : bool * gmap string string :=
  let '(ok, _, _) := CheckDailyQuota (Some (fun k => db !! k)) today username n in
  if ok then (true, RecordDailyUsage o true today username n db) else (false, db).

(** *** Keys *)

(** Dates have one length, so a counter belongs to one user and one day. *)
Lemma DailyKey_inj u1 d1 u2 d2 :
  String.length d1 = String.length d2 -> DailyKey u1 d1 = DailyKey u2 d2 -> u1 = u2 /\ d1 = d2.
Proof.
  intros Hl H. assert (d1 = d2) as -> by by eapply append_tail. split; [|done]. apply append_inj_r in H.
  unfold DailyKeyPrefix in H. apply append_inj_l in H. by apply append_inj_r in H.
Qed.

Lemma DailyKey_not_config u d : DailyKey u d <> DailyUploadBytesKey.
Proof. done. Qed.

(** *** Counters *)

(** The bytes booked for a user today. *)
Definition booked (db : gmap string string) (today u : string) : Z :=
  default 0 (GetInt64 (fun k => db !! k) (DailyKey u today)).

(** A counter as INCRBY leaves it. *)
Definition counter_ok (limit : Z) (today : string) (db : gmap string string) : Prop :=
  forall u s, db !! DailyKey u today = Some s -> exists v, s = Itoa v /\ 0 <= v <= limit.

Lemma booked_range limit today db u :
  0 <= limit <= int64_max -> counter_ok limit today db -> 0 <= booked db today u <= limit.
Proof.
  intros Hl Hc. unfold booked, GetInt64. destruct (db !! DailyKey u today) as [s|] eqn:E; simpl; [|lia].
  destruct (Hc u s E) as (v & -> & Hv). rewrite Atoi_Itoa; [done|]. unfold in_int64, int64_min, int64_max in *. lia.
Qed.

Lemma IncrBy_counter limit today db u n :
  0 <= limit <= int64_max -> counter_ok limit today db -> 0 <= n -> booked db today u + n <= limit ->
  IncrBy (DailyKey u today) n db = <[DailyKey u today := Itoa (booked db today u + n)]> db.
Proof.
  intros Hl Hc Hn Hs. pose proof (booked_range limit today db u Hl Hc) as Hb.
  assert (Hr : forall v, 0 <= v <= limit -> in_int64 v = true)
    by (intros v Hv; unfold in_int64, int64_min, int64_max in *; lia).
  unfold IncrBy, booked, GetInt64 in *. destruct (db !! DailyKey u today) as [s|] eqn:E; simpl in *.
  - destruct (Hc u s E) as (v & -> & Hv). rewrite Atoi_Itoa in * by auto. simpl in *.
    rewrite String.eqb_refl, Hr by lia. done.
  - rewrite Hr by lia. done.
Qed.

Lemma booked_insert today db u u' v :
  0 <= v <= int64_max ->
  booked (<[DailyKey u today := Itoa v]> db) today u' = if bool_decide (u' = u) then v else booked db today u'.
Proof.
  intros Hv. unfold booked, GetInt64. case_bool_decide as H.
  - subst. rewrite lookup_insert_eq. simpl. rewrite Atoi_Itoa; [done|].
    unfold in_int64, int64_min, int64_max in *. lia.
  - rewrite lookup_insert_ne; [done|]. intros Hk. apply DailyKey_inj in Hk as [-> _]; done.
Qed.

Lemma counter_insert limit today db u v :
  0 <= v <= limit -> counter_ok limit today db ->
  counter_ok limit today (<[DailyKey u today := Itoa v]> db).
Proof.
  intros Hv Hc u' s. destruct (decide (u' = u)) as [->|Hne].
  - rewrite lookup_insert_eq. intros [= <-]. eauto.
  - rewrite lookup_insert_ne; [apply Hc|]. intros Hk. by apply DailyKey_inj in Hk as [-> _].
Qed.

(** *** A day of uploads *)

Record request := mkReq { rq_user : string; rq_size : Z; rq_out : outcome }.

Fixpoint uploads (today : string) (rs : list request) (db : gmap string string)
    : list bool * gmap string string :=
  match rs with
  | [] => ([], db)
  | r :: rs =>
      let '(ok, db) := upload (rq_out r) today (rq_user r) (rq_size r) db in
      let '(oks, db) := uploads today rs db in
      (ok :: oks, db)
  end.

(** What was admitted and reached the counter, for one user. *)
Fixpoint charged (u : string) (rs : list request) (oks : list bool) : Z :=
  match rs, oks with
  | r :: rs, ok :: oks =>
      (if ok && applied (rq_out r) && bool_decide (rq_user r = u) then rq_size r else 0) + charged u rs oks
  | _, _ => 0
  end.

Definition limited (limit : Z) (today : string) (db : gmap string string) : Prop :=
  (exists s, db !! DailyUploadBytesKey = Some s /\ Atoi s = Some limit) /\ counter_ok limit today db.

Lemma CheckDailyQuota_limited limit today u n db :
  0 <= limit <= int64_max -> limited limit today db -> u <> "" -> 0 <= n <= int64_max - limit ->
  CheckDailyQuota (Some (fun k => db !! k)) today u n =
  (booked db today u + n <=? limit, booked db today u, Some limit).
Proof.
  intros Hl ((s & Hs & Ha) & Hc) Hu Hn. pose proof (booked_range limit today db u Hl Hc) as Hb.
  unfold CheckDailyQuota, DailyUsage, ExceedsDaily. rewrite (proj2 (String.eqb_neq u "")) by done.
  unfold GetInt64 at 1. rewrite Hs; simpl. rewrite Ha. rewrite (proj2 (Z.ltb_ge limit 0)) by lia.
  fold (booked db today u). rewrite wrap64_small by (unfold int64_min, int64_max in *; lia).
  f_equal. f_equal. lia.
Qed.

Lemma upload_limited limit today db o u n :
  0 <= limit <= int64_max -> limited limit today db -> u <> "" -> 0 <= n <= int64_max - limit ->
  let '(ok, db') := upload o today u n db in
  ok = (booked db today u + n <=? limit) /\ limited limit today db' /\
  forall u', booked db' today u' =
    booked db today u' + (if ok && applied o && bool_decide (u = u') then n else 0).
Proof.
  intros Hl Hlim Hu Hn. unfold upload. rewrite (CheckDailyQuota_limited limit) by done.
  pose proof (booked_range limit today db u Hl (proj2 Hlim)) as Hb.
  destruct (Z.leb_spec (booked db today u + n) limit) as [Hle|Hgt];
    [|split_and!; [done|done|intros; simpl; lia]].
  unfold RecordDailyUsage. rewrite (proj2 (String.eqb_neq u "")) by done. simpl.
  destruct (Z.leb_spec n 0) as [H0|H0].
  { split_and!; [done|done|]. intros u'. replace n with 0 by lia. destruct (_ && _); lia. }
  destruct (applied o); [|split_and!; [done|done|intros; simpl; lia]].
  rewrite (IncrBy_counter limit) by (done || lia || apply Hlim). split_and!; [done| |].
  - destruct Hlim as ((s & Hs & Ha) & Hc). split; [|by apply counter_insert; [lia|]].
    exists s. by rewrite lookup_insert_ne by apply DailyKey_not_config.
  - intros u'. rewrite booked_insert by lia. simpl. repeat case_bool_decide; subst; try done; lia.
Qed.

(** the daily quota holds. Take a day on which the limit is set and the
    counters are within it, and any sequence of uploads by any named users,
    each checked against the counter as it stands and booked afterwards, with
    bookings that may be lost. Then no user's counter passes the limit, each
    counter is what it was plus exactly what that user was allowed and booked,
    whatever the others did, and an upload that fits is never refused. *)
Lemma daily_quota_enforced (limit : Z) (today : string) (db : gmap string string) (rs : list request) :
  0 <= limit <= int64_max -> limited limit today db ->
  Forall (fun r => rq_user r <> "" /\ 0 <= rq_size r <= int64_max - limit) rs ->
  let '(oks, db') := uploads today rs db in
  forall u, 0 <= booked db' today u <= limit /\
    booked db' today u = booked db today u + charged u rs oks /\
    forall i r, rs !! i = Some r -> rq_user r = u ->
      oks !! i = Some (booked db today u + charged u (take i rs) oks + rq_size r <=? limit).
Proof.
  intros Hl. revert db. induction rs as [|r rs IH]; intros db Hlim Hrs; simpl.
  { intros u. split_and!; [apply (booked_range limit); [done|apply Hlim]..|lia|by intros]. }
  apply Forall_cons in Hrs as [[Hu Hn] Hrs].
  pose proof (upload_limited limit today db (rq_out r) (rq_user r) (rq_size r) Hl Hlim Hu Hn) as Hup.
  destruct (upload _ _ _ _ _) as [ok db1]. destruct Hup as (Hok & Hlim1 & Hb1).
  specialize (IH db1 Hlim1 Hrs). destruct (uploads today rs db1) as [oks db2].
  intros u. destruct (IH u) as (Hr & Hsum & Hadm). rewrite Hb1 in Hsum, Hadm.
  split_and!; [lia|lia|simpl; lia|]. intros [|i] r' Hi Hu'; simpl in *.
  - injection Hi as <-. rewrite Hok, Hu'. do 2 f_equal. lia.
  - rewrite (Hadm i r' Hi Hu'). do 2 f_equal. lia.
Qed.

(** Two users of a 100-byte day: the second upload of the first does not fit. *)
Lemma daily_quota_enforced_witness :
  let db := {["beam:daily_upload_bytes" := "100"]} : gmap string string in
  let rs := [mkReq "ada" 60 Replied; mkReq "bob" 90 ReplyLost; mkReq "ada" 50 Replied;
             mkReq "ada" 40 Replied] in
  (uploads "2026-01-31" rs db).1 = [true; true; false; true] /\
  booked (uploads "2026-01-31" rs db).2 "2026-01-31" "ada" = 100 /\
  0 <= booked (uploads "2026-01-31" rs db).2 "2026-01-31" "bob" <= 100.
Proof.
  intros db rs. split; [by vm_compute|]. split; [by vm_compute|].
  refine (proj1 (daily_quota_enforced 100 "2026-01-31" db rs _ _ _ "bob")).
  - unfold int64_max. lia.
  - split; [exists "100"; split; by vm_compute|]. intros u s.
    unfold db. rewrite lookup_singleton_ne; [done|]. intros H. symmetry in H. by apply DailyKey_not_config in H.
  - repeat constructor; simpl; unfold int64_max; try done; lia.
Defined.
End Quota.

(** ** Storage paths (order.go) *)
Module Storage.

Definition ModeAuto : string := "auto".
Definition ModeManual : string := "manual".
Definition NormalizeMode (mode : string) : string :=
  if (mode =? ModeManual)%string then ModeManual else ModeAuto.

Definition wanted_step (have : gset string) (acc : gset string * list string) (want : string) :=
  let '(seen, out) := acc in
  if bool_decide (want ∈ have) && negb (bool_decide (want ∈ seen))
  then ({[want]} ∪ seen, out ++ [want]) else acc.

Definition rest_step (acc : gset string * list string) (p : string) :=
  let '(seen, out) := acc in
  if bool_decide (p ∈ seen) then acc else ({[p]} ∪ seen, out ++ [p]).

Definition OrderPaths (available order : list string) : list string :=
  let have : gset string := list_to_set available in
  let acc := fold_left (wanted_step have) order (∅, []) in
  (fold_left rest_step available acc).2.

(** *** The reference order *)

(** Each entry of a list once, where it first stands. *)
Fixpoint first_uses (l : list string) : list string :=
  match l with
  | [] => []
  | x :: l => x :: filter (fun y => y <> x) (first_uses l)
  end.

Lemma elem_of_first_uses x l : x ∈ first_uses l <-> x ∈ l.
Proof.
  induction l as [|y l IH]; [done|]. simpl. rewrite !elem_of_cons, list_elem_of_filter, IH.
  destruct (decide (x = y)); naive_solver.
Qed.

Lemma NoDup_first_uses l : NoDup (first_uses l).
Proof.
  induction l as [|y l IH]; simpl; constructor; [|by apply NoDup_filter].
  rewrite list_elem_of_filter. naive_solver.
Qed.

Lemma filter_first_uses (P : string -> Prop) `{forall x, Decision (P x)} l :
  filter P (first_uses l) = first_uses (filter P l).
Proof.
  induction l as [|y l IH]; [done|]. simpl. rewrite !filter_cons. case_decide as Hy; simpl.
  - f_equal. rewrite <- IH, !list_filter_filter. apply list_filter_iff. naive_solver.
  - rewrite <- IH, list_filter_filter. apply list_filter_iff. intros x. naive_solver.
Qed.

Lemma fold_rest l seen out :
  fold_left rest_step l (seen, out) =
  (list_to_set l ∪ seen, out ++ filter (fun y => y ∉ seen) (first_uses l)).
Proof.
  revert seen out. induction l as [|x l IH]; intros seen out; simpl.
  - rewrite app_nil_r. f_equal. set_solver.
  - rewrite filter_cons. case_bool_decide as Hx.
    + rewrite IH, decide_False by auto. f_equal; [set_solver|]. f_equal.
      rewrite list_filter_filter. apply list_filter_iff. set_solver.
    + rewrite IH, decide_True by done. f_equal; [set_solver|]. rewrite <- app_assoc. do 2 f_equal.
      rewrite list_filter_filter. apply list_filter_iff. set_solver.
Qed.

Lemma filter_ext_in (P Q : string -> Prop) `{forall x, Decision (P x), forall x, Decision (Q x)} (l : list string) :
  (forall x, x ∈ l -> P x <-> Q x) -> filter P l = filter Q l.
Proof.
  induction l as [|y l IH]; intros HPQ; [done|]. rewrite !filter_cons.
  rewrite IH by (intros x Hx; apply HPQ; by right).
  destruct (HPQ y) as [H1 H2]; [by left|]. repeat case_decide; naive_solver.
Qed.

Lemma fold_wanted have order acc :
  fold_left (wanted_step have) order acc = fold_left rest_step (filter (fun x => x ∈ have) order) acc.
Proof.
  revert acc. induction order as [|x order IH]; intros [seen out]; [done|].
  simpl. rewrite filter_cons, IH. case_decide as Hx.
  - rewrite (bool_decide_true (x ∈ have)) by done. simpl. by case_bool_decide.
  - by rewrite (bool_decide_false (x ∈ have)).
Qed.

(** the storage order, as Core predicts it and the node applies it. The
    result is the operator's entries that the node has, each once and in the
    operator's order, followed by the remaining paths in the node's own order;
    so it holds every available path exactly once and nothing else, whatever
    the configuration says. *)
Lemma OrderPaths_exact (available order : list string) :
  OrderPaths available order =
    first_uses (filter (fun x => x ∈ available) order) ++
    first_uses (filter (fun x => x ∉ order) available) /\
  NoDup (OrderPaths available order) /\
  (forall x, x ∈ OrderPaths available order <-> x ∈ available).
Proof.
  assert (E : OrderPaths available order =
    first_uses (filter (fun x => x ∈ available) order) ++
    first_uses (filter (fun x => x ∉ order) available)).
  { unfold OrderPaths. rewrite fold_wanted, !fold_rest. simpl. rewrite !filter_first_uses. f_equal; f_equal.
    - rewrite list_filter_filter. apply list_filter_iff. set_solver.
    - apply filter_ext_in. intros x Hx. rewrite elem_of_union, elem_of_list_to_set, list_elem_of_filter. set_solver. }
  split; [done|]. rewrite E. split.
  - apply NoDup_app. split_and!; [apply NoDup_first_uses| |apply NoDup_first_uses].
    intros x. rewrite !elem_of_first_uses, !list_elem_of_filter. naive_solver.
  - intros x. rewrite elem_of_app, !elem_of_first_uses, !list_elem_of_filter.
    destruct (decide (x ∈ order)); naive_solver.
Qed.
End Storage.

(** ** The reconnect schedule (backoff.go) *)
Module Retry.

Definition FastDelay : Z := 5 * 1000000000.
Definition FastAttempts : Z := 12.
Definition SlowDelay : Z := 30 * 1000000000.

Record Backoff := mkBackoff { attempt : Z }.

Definition Next (b : Backoff) : Z * Backoff :=
  if attempt b <? FastAttempts then (FastDelay, mkBackoff (attempt b + 1))
  else (SlowDelay, mkBackoff FastAttempts).

Definition Reset (b : Backoff) : Backoff := mkBackoff 0.

Fixpoint delays (n : nat) (b : Backoff) : list Z :=
  match n with O => [] | S n => let '(d, b) := Next b in d :: delays n b end.

Lemma delays_from a n :
  0 <= a <= FastAttempts ->
  delays n (mkBackoff a) =
  take n (replicate (Z.to_nat (FastAttempts - a)) FastDelay ++ replicate n SlowDelay).
Proof.
  revert a. induction n as [|n IH]; intros a Ha; [done|]. simpl. unfold Next; simpl.
  destruct (Z.ltb_spec a FastAttempts) as [Hlt|Hge].
  - replace (Z.to_nat (FastAttempts - a)) with (S (Z.to_nat (FastAttempts - (a + 1)))) by lia.
    simpl. f_equal. rewrite IH by lia.
    change (SlowDelay :: replicate n SlowDelay) with (replicate (S n) SlowDelay).
    rewrite !take_app, !take_replicate. do 2 f_equal. lia.
  - replace (FastAttempts - a) with 0 by lia. simpl. f_equal. rewrite IH by lia.
    by replace (FastAttempts - FastAttempts) with 0 by lia.
Qed.

(** The schedule: a fresh or reset backoff waits twelve times five seconds and
    half a minute from then on. *)
Lemma schedule b n :
  delays n (Reset b) = take n (replicate 12 FastDelay ++ replicate n SlowDelay).
Proof. apply delays_from. unfold FastAttempts. lia. Qed.
End Retry.
