(* ===== verification/Schedule.v ===== *)
(** * Backup schedules on the wall clock (core/services/backup_schedule.go)

    The next-run search: a schedule is a set of minutes, hours and days read in
    a time zone, and the search walks calendar days and resolves each matching
    wall time to an instant, across daylight-saving changes. Instants are
    seconds since 1970, except [from], which has nanoseconds; a zone is the
    function from instants to offsets that the tz database gives for a
    location. The text of a schedule is parsed by robfig/cron and [Sscanf];
    the definitions take its parsed form. *)

From stdpp Require Import sorting.
From S2P Require Import Prelude GoStrings.
Open Scope string_scope.
Open Scope list_scope.
Open Scope Z_scope.

(** ** The calendar of package time *)

Definition day_secs : Z := 86400.
Definition hour_secs : Z := 3600.
Definition nanos : Z := 1000000000.

(** Days since 1970-01-01 of a date; the day may lie outside its month. *)
Definition days_of (y m d : Z) : Z :=
  let y := if m <=? 2 then y - 1 else y in
  let era := y / 400 in
  let yoe := y mod 400 in
  let doy := (153 * (if 2 <? m then m - 3 else m + 9) + 2) / 5 + d - 1 in
  era * 146097 + (yoe * 365 + yoe / 4 - yoe / 100 + doy) - 719468.

(** Year, month and day. *)
Definition civil (n : Z) : Z * Z * Z :=
  let z := n + 719468 in
  let era := z / 146097 in
  let doe := z mod 146097 in
  let yoe := (doe - doe / 1460 + doe / 36524 - doe / 146096) / 365 in
  let doy := doe - (365 * yoe + yoe / 4 - yoe / 100) in
  let mp := (5 * doy + 2) / 153 in
  let d := doy - (153 * mp + 2) / 5 + 1 in
  let m := if mp <? 10 then mp + 3 else mp - 9 in
  ((if m <=? 2 then yoe + era * 400 + 1 else yoe + era * 400), m, d).

Definition Weekday (n : Z) : Z := (n + 4) mod 7.

(** [time.Date(y, m, d, h, mi, 0, 0, time.UTC)] *)
Definition DateUTC (y m d h mi : Z) : Z := days_of y m d * day_secs + h * hour_secs + mi * 60.

(** [1<<uint(i) & mask != 0] *)
Definition bit (mask i : Z) : bool := negb (Z.land (Z.shiftl 1 i) mask =? 0).

(** The first answer of a search. *)
Fixpoint first_some {A B} (f : A -> option B) (l : list A) : option B :=
  match l with
  | [] => None
  | x :: l => match f x with Some y => Some y | None => first_some f l end
  end.

(** ** The search *)

(** robfig's [SpecSchedule]: one bit mask per field. *)
Record SpecSchedule := mkSpec { Minute : Z; Hour : Z; Dom : Z; Month : Z; Dow : Z }.

Definition cronStarBit : Z := Z.shiftl 1 63.
Definition cronAllHours : Z := Z.shiftl 1 24 - 1.

Definition cronDayMatches (s : SpecSchedule) (day : Z) : bool :=
  let dom := bit (Dom s) (civil day).2 in
  let dow := bit (Dow s) (Weekday day) in
  if (0 <? Z.land (Dom s) cronStarBit) || (0 <? Z.land (Dow s) cronStarBit) then dom && dow
  else dom || dow.

Section Zone.
(** [loc]: the offset in force at an instant, in seconds. *)
Variable zone : Z -> Z.

(** The reading of the wall clock. *)
Definition wall (t : Z) : Z := t + zone t.

(** The wall clock to the minute, put back together by [time.Date]. *)
Definition wall_minute (t : Z) : Z :=
  let lt := wall t in
  let '(y, m, d) := civil (lt / day_secs) in
  DateUTC y m d (lt / hour_secs mod 24) (lt / 60 mod 60).

Definition wall_step (naive : Z) (found : list Z) (off : Z) : list Z :=
  let t := naive - off in
  if (wall_minute t =? naive) && match found with [] => true | f :: _ => negb (t =? f) end
  then found ++ [t] else found.

Definition wallInstants (y mo d h mi : Z) (both : bool) : list Z :=
  let naive := DateUTC y mo d h mi in
  let before := zone (naive - 36 * hour_secs) in
  let after := zone (naive + 36 * hour_secs) in
  match fold_left (wall_step naive) [before; after] [] with
  | [] => [naive - before]
  | f0 :: rest =>
      let found := match rest with
                   | f1 :: _ => if f1 <? f0 then [f1; f0] else [f0; f1]
                   | [] => [f0]
                   end in
      if both then found else take 1 found
  end.

(** [t.After(from)], with [from] in nanoseconds. *)
Definition After (t from : Z) : bool := from <? t * nanos.

(** The earlier of the best so far and [t], when [t] is after [from]. *)
Definition better (from : Z) (best : option Z) (t : Z) : option Z :=
  if After t from && match best with None => true | Some b => t <? b end then Some t else best.

(** One round of the loop over days, for the day number [day]. *)
Definition day_run (spec : SpecSchedule) (everyHour : bool) (from startH day : Z) : option Z :=
  let '(y, m, d) := civil day in
  if negb (bit (Month spec) m) || negb (cronDayMatches spec day) then None
  else
    let midnight := day * day_secs in
    let before := zone (midnight - 36 * hour_secs) in
    let after := zone (midnight + 60 * hour_secs) in
    if before =? after then
      first_some (fun h =>
        if bit (Hour spec) h then
          first_some (fun mi =>
            if bit (Minute spec) mi then
              let t := midnight + (h * hour_secs + mi * 60 - before) in
              if After t from then Some t else None
            else None) (seqZ 0 60)
        else None) (seqZ startH (24 - startH))
    else
      fold_left (fun best h =>
        if bit (Hour spec) h then
          fold_left (fun best mi =>
            if bit (Minute spec) mi
            then fold_left (better from) (wallInstants y m d h mi everyHour) best
            else best) (seqZ 0 60) best
        else best) (seqZ 0 24) None.

Definition nextWallClockRun (spec : SpecSchedule) (from : Z) : option Z :=
  let everyHour := Z.land (Hour spec) cronAllHours =? cronAllHours in
  let fromLocal := wall (from / nanos) in
  let '(y, m, d) := civil (fromLocal / day_secs) in
  first_some (fun i =>
    day_run spec everyHour from (if i =? 0 then fromLocal / hour_secs mod 24 else 0)
      (days_of y m (d + i))) (seqZ 0 (5 * 366 + 1)).
End Zone.

(** A parsed schedule: nothing parsed, a relative interval in nanoseconds, or a
    wall-clock spec, or neither of them for manual. *)
Definition ComputeBackupNextRun (parsed : option (Z * option SpecSchedule))
    (loc : option (Z -> Z)) (from : Z) : option Z :=
  match parsed with
  | None => None
  | Some (every, spec) =>
      if 0 <? every then Some (from + every)
      else match spec, loc with
           | Some spec, Some zone => (fun t => t * nanos) <$> nextWallClockRun zone spec from
           | _, _ => None
           end
  end.

Fixpoint BackupNextRuns (n : nat) (parsed : option (Z * option SpecSchedule))
    (loc : option (Z -> Z)) (from : Z) : list Z :=
  match n with
  | O => []
  | S n => match ComputeBackupNextRun parsed loc from with
           | None => []
           | Some next => next :: BackupNextRuns n parsed loc next
           end
  end.

(** ** Lemmas: the calendar *)

Lemma year_of_era doe :
  0 <= doe < 146097 ->
  let yoe := (doe - doe / 1460 + doe / 36524 - doe / 146096) / 365 in
  0 <= yoe < 400 /\ 0 <= doe - (365 * yoe + yoe / 4 - yoe / 100) <= 366.
Proof. intros H yoe. unfold yoe. Z.to_euclidean_division_equations. lia. Qed.

Lemma month_range n : let '(_, m, _) := civil n in 1 <= m <= 12.
Proof.
  unfold civil. pose proof (Z.mod_pos_bound (n + 719468) 146097 ltac:(lia)) as Hb.
  destruct (year_of_era _ Hb) as [_ Hd]. set (doy := _ - (365 * _ + _ / 4 - _ / 100)) in *.
  destruct (_ <? 10) eqn:E; Z.to_euclidean_division_equations; lia.
Qed.

Lemma day_positive n : let '(_, _, d) := civil n in 1 <= d.
Proof.
  unfold civil. pose proof (Z.mod_pos_bound (n + 719468) 146097 ltac:(lia)) as Hb.
  destruct (year_of_era _ Hb) as [_ Hd]. set (doy := _ - (365 * _ + _ / 4 - _ / 100)) in *.
  Z.to_euclidean_division_equations; lia.
Qed.

(** [time.Date] of the fields of a day, moved by [i] days. *)
Lemma days_of_civil n i : let '(y, m, d) := civil n in days_of y m (d + i) = n + i.
Proof.
  unfold civil. pose proof (Z.mod_pos_bound (n + 719468) 146097 ltac:(lia)) as Hb.
  destruct (year_of_era _ Hb) as [Hy Hd].
  set (yoe := (_ - _ / 1460 + _ / 36524 - _ / 146096) / 365) in *.
  set (doy := _ - (365 * yoe + yoe / 4 - yoe / 100)) in *.
  assert (Hm : 0 <= (5 * doy + 2) / 153 <= 11) by (Z.to_euclidean_division_equations; lia).
  set (mp := (5 * doy + 2) / 153) in *. set (era := (n + 719468) / 146097).
  assert (He : forall y, y = yoe + era * 400 -> y / 400 = era /\ y mod 400 = yoe)
    by (intros y ->; Z.to_euclidean_division_equations; lia).
  destruct (He _ eq_refl) as [He1 He2].
  assert (Hz : n + 719468 = era * 146097 + (n + 719468) mod 146097)
    by (unfold era; rewrite Z.mul_comm; apply Z.div_mod; lia).
  unfold days_of. destruct (Z.ltb_spec mp 10) as [H10|H10].
  - rewrite (proj2 (Z.leb_gt (mp + 3) 2)), (proj2 (Z.ltb_lt 2 (mp + 3))) by lia.
    rewrite He1, He2. replace (mp + 3 - 3) with mp by lia. unfold doy. lia.
  - rewrite (proj2 (Z.leb_le (mp - 9) 2)), (proj2 (Z.ltb_ge 2 (mp - 9))) by lia.
    replace (yoe + era * 400 + 1 - 1) with (yoe + era * 400) by lia.
    rewrite He1, He2. replace (mp - 9 + 9) with mp by lia. unfold doy. lia.
Qed.

Lemma DateUTC_civil n h mi :
  let '(y, m, d) := civil n in DateUTC y m d h mi = n * day_secs + h * hour_secs + mi * 60.
Proof.
  pose proof (days_of_civil n 0) as H. destruct (civil n) as [[y m] d].
  rewrite Z.add_0_r in H. unfold DateUTC. rewrite H. lia.
Qed.

Lemma wall_minute_eq zone t : wall_minute zone t = wall zone t / 60 * 60.
Proof.
  unfold wall_minute. set (lt := wall zone t).
  pose proof (DateUTC_civil (lt / day_secs) (lt / hour_secs mod 24) (lt / 60 mod 60)) as H.
  destruct (civil (lt / day_secs)) as [[y m] d]. rewrite H. unfold day_secs, hour_secs.
  Z.to_euclidean_division_equations. lia.
Qed.

(** ** A wall time becomes an instant *)

(** A zone around a wall time [n]: at most one change within a day and a half,
    between whole-minute offsets; offsets are at most a day. *)
Record one_change (zone : Z -> Z) (n : Z) : Prop := {
  oc_at : exists c, forall t, n - 36 * hour_secs <= t <= n + 36 * hour_secs ->
    zone t = if t <? c then zone (n - 36 * hour_secs) else zone (n + 36 * hour_secs);
  oc_range : forall t, - 24 * hour_secs <= zone t <= 24 * hour_secs;
  oc_minute : forall t, n - 36 * hour_secs <= t <= n + 36 * hour_secs -> zone t mod 60 = 0 }.

(** The instants the search uses for a wall time: all of them or the first. *)
Lemma wallInstants_cases zone y mo d h mi both :
  let n := DateUTC y mo d h mi in
  let t1 := n - zone (n - 36 * hour_secs) in
  let t2 := n - zone (n + 36 * hour_secs) in
  one_change zone n ->
  wallInstants zone y mo d h mi both =
  match wall zone t1 =? n, wall zone t2 =? n with
  | true, true => if t1 =? t2 then [t1] else if both then [Z.min t1 t2; Z.max t1 t2] else [Z.min t1 t2]
  | true, false => [t1]
  | false, true => [t2]
  | false, false => [t1]
  end.
Proof.
  intros n t1 t2 [_ Hr Hm].
  assert (Hw : forall t, t = t1 \/ t = t2 -> (wall_minute zone t =? n) = (wall zone t =? n)).
  { intros t Ht. rewrite wall_minute_eq. assert (Hn : wall zone t mod 60 = 0).
    { unfold wall. pose proof (Hr (n - 36 * hour_secs)) as R1. pose proof (Hr (n + 36 * hour_secs)) as R2.
      assert (Hin : n - 36 * hour_secs <= t <= n + 36 * hour_secs)
        by (unfold t1, t2, hour_secs in *; destruct Ht as [-> | ->]; lia).
      pose proof (Hm t Hin). pose proof (Hm (n - 36 * hour_secs) ltac:(unfold hour_secs; lia)).
      pose proof (Hm (n + 36 * hour_secs) ltac:(unfold hour_secs; lia)). clear Hin R1 R2.
      unfold t1, t2, n, DateUTC, day_secs, hour_secs in *.
      destruct Ht as [-> | ->]; Z.to_euclidean_division_equations; lia. }
    replace (wall zone t / 60 * 60) with (wall zone t); [done|].
    Z.to_euclidean_division_equations; lia. }
  unfold wallInstants, wall_step. fold n. cbn [fold_left]. fold t1 t2.
  rewrite (Hw t1), (Hw t2) by auto.
  destruct (wall zone t1 =? n), (wall zone t2 =? n); cbn [andb negb app]; try by destruct both.
  rewrite (Z.eqb_sym t2 t1). destruct (Z.eqb_spec t1 t2); cbn [andb negb app]; [by destruct both|].
  destruct (Z.ltb_spec t2 t1).
  - rewrite Z.min_r, Z.max_l by lia. by destruct both.
  - rewrite Z.min_l, Z.max_r by lia. by destruct both.
Qed.

(** Which instants read [n], under [one_change]. *)
Lemma reads_iff zone n t :
  one_change zone n ->
  wall zone t = n <->
  (t = n - zone (n - 36 * hour_secs) \/ t = n - zone (n + 36 * hour_secs)) /\ wall zone t = n.
Proof.
  intros [[c Hc] Hr _]. split; [|tauto]. intros Hw. split; [|done].
  unfold wall in Hw. pose proof (Hr t). unfold hour_secs in *.
  specialize (Hc t ltac:(lia)). destruct (t <? c); lia.
Qed.

(** The instants that show a wall time, in order, and the first of them. *)
Definition resolves (zone : Z -> Z) (n : Z) (all one : list Z) : Prop :=
  (forall t, t ∈ all <-> wall zone t = n) /\ StronglySorted Z.lt all /\
  exists t, one = [t] /\ wall zone t = n /\ forall t', wall zone t' = n -> t <= t'.

Lemma resolves_one zone n t :
  wall zone t = n -> (forall t', wall zone t' = n -> t' = t) -> resolves zone n [t] [t].
Proof.
  intros Ht Hu. split_and!; [|repeat constructor|].
  - intros t'. rewrite list_elem_of_singleton. split; [by intros ->|apply Hu].
  - exists t. split_and!; [done|done|]. intros t' Ht'. rewrite (Hu t' Ht'). lia.
Qed.

Lemma resolves_two zone n a b :
  wall zone a = n -> wall zone b = n -> a < b -> (forall t', wall zone t' = n -> t' = a \/ t' = b) ->
  resolves zone n [a; b] [a].
Proof.
  intros Ha Hb Hlt Hu. split_and!; [|repeat constructor; lia|].
  - intros t'. rewrite !elem_of_cons, elem_of_nil. split; [by intros [->|[->|[]]]|]. intros H%Hu; tauto.
  - exists a. split_and!; [done|done|]. intros t' H%Hu; lia.
Qed.

(** When neither offset gives back the wall time, the clock jumps over it. *)
Lemma skipped_gap zone n :
  let b := zone (n - 36 * hour_secs) in
  let a := zone (n + 36 * hour_secs) in
  one_change zone n -> wall zone (n - b) <> n -> wall zone (n - a) <> n ->
  0 < a - b /\ wall zone (n - b) = n + (a - b).
Proof.
  intros b a [[c Hc] Hr _] H1 H2. pose proof (Hr (n - 36 * hour_secs)) as Hrb.
  pose proof (Hr (n + 36 * hour_secs)) as Hra. fold a b in Hc, Hra, Hrb.
  unfold wall in *. unfold hour_secs in *.
  pose proof (Hc (n - b) ltac:(lia)) as E1. pose proof (Hc (n - a) ltac:(lia)) as E2.
  destruct (Z.ltb_spec (n - b) c), (Z.ltb_spec (n - a) c); lia.
Qed.

(** the wall-clock rule at a daylight-saving change. Take a wall time and a
    zone that changes its offset at most once around it. If the clock shows
    that time at all, the search runs at the first instant that shows it, and
    an hourly schedule at every one of them, in order. If the clock skips it,
    the search runs at exactly one instant, which shows the time shifted
    forward by the length of the gap. *)
Lemma wallInstants_exact (zone : Z -> Z) (y mo d h mi : Z) :
  let n := DateUTC y mo d h mi in
  let gap := zone (n + 36 * hour_secs) - zone (n - 36 * hour_secs) in
  one_change zone n ->
  ((exists t, wall zone t = n) ->
   resolves zone n (wallInstants zone y mo d h mi true) (wallInstants zone y mo d h mi false)) /\
  ((forall t, wall zone t <> n) ->
   0 < gap /\ forall both, exists t, wallInstants zone y mo d h mi both = [t] /\ wall zone t = n + gap).
Proof.
  intros n gap Hoc. pose proof (fun t => reads_iff zone n t Hoc) as Hreads.
  pose proof (wallInstants_cases zone y mo d h mi true Hoc) as Ht.
  pose proof (wallInstants_cases zone y mo d h mi false Hoc) as Hf.
  fold n in Ht, Hf, Hreads. cbv zeta in Ht, Hf.
  set (t1 := n - zone (n - 36 * hour_secs)) in *. set (t2 := n - zone (n + 36 * hour_secs)) in *.
  revert Ht Hf.
  destruct (Z.eqb_spec (wall zone t1) n) as [H1|H1], (Z.eqb_spec (wall zone t2) n) as [H2|H2];
    intros Ht Hf; rewrite Ht, Hf.
  - split; [intros _|intros Hno; by destruct (Hno t1)]. destruct (Z.eqb_spec t1 t2) as [He|He].
    + apply resolves_one; [done|]. intros t' [[]_]%Hreads; congruence.
    + destruct (Z.min_spec t1 t2) as [[Hlt ->]|[Hle ->]].
      * rewrite Z.max_r by lia. apply resolves_two; auto. intros t' [? _]%Hreads. tauto.
      * rewrite Z.max_l by lia. apply resolves_two; auto; [lia|]. intros t' [? _]%Hreads. tauto.
  - split; [intros _|intros Hno; by destruct (Hno t1)].
    apply resolves_one; [done|]. intros t' [[-> | ->] Hw]%Hreads; done.
  - split; [intros _|intros Hno; by destruct (Hno t2)].
    apply resolves_one; [done|]. intros t' [[-> | ->] Hw]%Hreads; done.
  - split; [intros [t [[-> | ->] Hw]%Hreads]; done|]. intros _.
    destruct (skipped_gap zone n Hoc H1 H2) as [Hg Hw]. split; [done|]. intros both. exists t1.
    split; [by destruct both|done].
Qed.

(** ** The search finds the first slot *)

(** The instants at which a schedule runs on a calendar day. *)
Definition day_slots (zone : Z -> Z) (spec : SpecSchedule) (everyHour : bool) (day : Z) : list Z :=
  let '(y, m, d) := civil day in
  if negb (bit (Month spec) m) || negb (cronDayMatches spec day) then []
  else flat_map (fun h =>
    if bit (Hour spec) h then
      flat_map (fun mi =>
        if bit (Minute spec) mi then wallInstants zone y m d h mi everyHour else []) (seqZ 0 60)
    else []) (seqZ 0 24).

(** [r] is the first of [l] after [from]. *)
Definition first_after (from : Z) (l : list Z) (r : option Z) : Prop :=
  match r with
  | Some t => t ∈ l /\ After t from = true /\ forall t', t' ∈ l -> After t' from = true -> t <= t'
  | None => forall t', t' ∈ l -> After t' from = false
  end.

(** A zone from the instant [lo] on: whole-minute offsets, at most one change in
    any four days. An offset is at most a day at any time. *)
Record zone_ok (lo : Z) (zone : Z -> Z) : Prop := {
  zk_range : forall t, - 24 * hour_secs <= zone t <= 24 * hour_secs;
  zk_minute : forall t, lo <= t -> zone t mod 60 = 0;
  zk_change : forall a, lo <= a -> exists c, forall t, a <= t <= a + 96 * hour_secs ->
    zone t = if t <? c then zone a else zone (a + 96 * hour_secs) }.

Lemma zone_ok_later lo lo' zone : lo <= lo' -> zone_ok lo zone -> zone_ok lo' zone.
Proof. intros Hl [Hr Hm Hc]. split; [done|intros t Ht; apply Hm; lia|intros a Ha; apply Hc; lia]. Qed.

Lemma zk_settled lo zone a t :
  zone_ok lo zone -> lo <= a -> zone a = zone (a + 96 * hour_secs) ->
  a <= t <= a + 96 * hour_secs -> zone t = zone a.
Proof.
  intros Hz Ha He Ht. destruct (zk_change _ _ Hz a Ha) as [c Hc]. rewrite (Hc t Ht).
  by destruct (t <? c).
Qed.

Lemma zone_one_change lo zone n : zone_ok lo zone -> lo <= n - 36 * hour_secs -> one_change zone n.
Proof.
  intros [Hr Hm Hc] Hl. split; [|done|intros t Ht; apply Hm; lia].
  destruct (Hc _ Hl) as [c H]. exists c. intros t Ht.
  pose proof (H (n + 36 * hour_secs) ltac:(unfold hour_secs in *; lia)) as He.
  rewrite (H t) by (unfold hour_secs in *; lia).
  destruct (Z.ltb_spec t c), (Z.ltb_spec (n + 36 * hour_secs) c); congruence || lia.
Qed.

Lemma first_after_mono from l l' r :
  (forall t, t ∈ l -> t ∈ l') ->
  (forall t, t ∈ l' -> After t from = true -> exists t0, t0 ∈ l /\ After t0 from = true /\ t0 <= t) ->
  first_after from l r -> first_after from l' r.
Proof.
  intros Hsub Hlow. destruct r as [r|]; simpl.
  - intros (Hin & Ha & Hl). split_and!; [auto|done|]. intros t Ht Hat.
    destruct (Hlow t Ht Hat) as (t0 & Ht0 & Ha0 & Hle). specialize (Hl t0 Ht0 Ha0). lia.
  - intros Hno t Ht. destruct (After t from) eqn:E; [|done].
    destruct (Hlow t Ht E) as (t0 & Ht0 & Ha0 & _). by rewrite (Hno t0 Ht0) in Ha0.
Qed.

Lemma fold_better from l best :
  (forall b, best = Some b -> After b from = true) ->
  first_after from (option_list best ++ l) (fold_left (better from) l best).
Proof.
  revert best. induction l as [|t l IH]; intros best Hb; simpl.
  { rewrite app_nil_r. destruct best as [b|]; simpl; [|by intros t' ?%elem_of_nil].
    split_and!; [set_solver|auto|]. intros t'. rewrite list_elem_of_singleton. intros ->; lia. }
  eapply first_after_mono; [..|apply IH]; unfold better; destruct (After t from) eqn:E; simpl; try done.
  - destruct best as [b|]; simpl; [destruct (t <? b)|]; set_solver.
  - set_solver.
  - intros t' Ht' Ha. destruct (decide (t' ∈ l)) as [Hl|Hl].
    { exists t'. split_and!; [|done|lia]. apply elem_of_app. by right. }
    destruct best as [b|]; simpl in *.
    + assert (Hor : t' = b \/ t' = t) by set_solver.
      destruct (Z.ltb_spec t b); eexists; split_and!; [by left|done|lia|by left|by auto|lia].
    + exists t. assert (t' = t) as -> by set_solver. split_and!; [by left|done|lia].
  - intros t' Ht' Ha. exists t'. split_and!; [|done|lia]. apply elem_of_app in Ht' as [?|Ht']; [set_solver|].
    apply elem_of_cons in Ht' as [->|]; [congruence|set_solver].
  - destruct best as [b|]; simpl; [destruct (t <? b)|]; intros ? [= <-]; auto.
Qed.

Lemma fold_left_flat_map {A B C} (f : C -> B -> C) (g : A -> list B) l a :
  fold_left f (flat_map g l) a = fold_left (fun a x => fold_left f (g x) a) l a.
Proof. revert a. induction l as [|x l IH]; intros a; [done|]. simpl. by rewrite fold_left_app, IH. Qed.

Lemma fold_left_ext {A B} (f g : A -> B -> A) l a :
  (forall a x, f a x = g a x) -> fold_left f l a = fold_left g l a.
Proof. intros H. revert a. induction l as [|x l IH]; intros a; [done|]. simpl. by rewrite H, IH. Qed.

Lemma first_some_range {B} (f : Z -> option B) a n :
  match first_some f (seqZ a n) with
  | Some y => exists x, a <= x < a + n /\ f x = Some y /\ forall x', a <= x' < x -> f x' = None
  | None => forall x, a <= x < a + n -> f x = None
  end.
Proof.
  destruct (Z.le_gt_cases n 0) as [Hn|Hn].
  { rewrite seqZ_nil by done. simpl. intros x Hx. lia. }
  assert (Hpos : 0 <= n) by lia. clear Hn. revert a.
  pattern n. apply natlike_ind; [| |done].
  { intros a. rewrite seqZ_nil by lia. simpl. intros x Hx. lia. }
  clear n Hpos. intros n Hn IH a. rewrite seqZ_cons by lia. simpl.
  destruct (f a) as [y|] eqn:E; [exists a; split_and!; [lia..|done|intros; lia]|].
  replace (Z.succ n - 1) with n by lia. replace (Z.pred (Z.succ n)) with n by lia.
  specialize (IH (Z.succ a)). destruct (first_some f (seqZ (Z.succ a) n)) as [y|].
  - destruct IH as (x & Hx & Hf & Hl). exists x. split_and!; [lia..|done|].
    intros x' Hx'. destruct (decide (x' = a)) as [->|]; [done|]. apply Hl. lia.
  - intros x Hx. destruct (decide (x = a)) as [->|]; [done|]. apply IH. lia.
Qed.

(** On a day without a change every wall time is one instant. *)
Lemma wallInstants_settled lo zone day h mi both :
  zone_ok lo zone -> lo <= day * day_secs - 36 * hour_secs ->
  zone (day * day_secs - 36 * hour_secs) = zone (day * day_secs + 60 * hour_secs) ->
  0 <= h < 24 -> 0 <= mi < 60 ->
  let '(y, m, d) := civil day in
  wallInstants zone y m d h mi both =
    [day * day_secs + (h * hour_secs + mi * 60 - zone (day * day_secs - 36 * hour_secs))].
Proof.
  intros Hz0 Hlo He Hh Hmi. pose proof (zk_range _ _ Hz0) as Hr.
  pose proof (DateUTC_civil day h mi) as Hn.
  destruct (civil day) as [[y m] d]. pose proof (wallInstants_cases zone y m d h mi both) as Hc.
  cbv zeta in Hc. rewrite Hn in Hc. clear Hn.
  specialize (Hc ltac:(eapply zone_one_change; [done|unfold hour_secs in *; lia])).
  set (b := zone (day * day_secs - 36 * hour_secs)) in *.
  assert (Hz : forall t, day * day_secs - 36 * hour_secs <= t <= day * day_secs + 60 * hour_secs ->
    zone t = b).
  { intros t Ht. eapply (zk_settled _ _ (day * day_secs - 36 * hour_secs)); [done|done| |unfold hour_secs in *; lia].
    fold b. rewrite He. f_equal. unfold hour_secs. lia. }
  pose proof (Hr (day * day_secs - 36 * hour_secs)) as Hb. fold b in Hb.
  unfold wall in Hc. rewrite !Hz in Hc by (rewrite ?Hz; unfold hour_secs in *; lia).
  rewrite Hc, !(proj2 (Z.eqb_eq _ _)) by lia. f_equal. lia.
Qed.

Lemma day_slots_elem zone spec eh day t :
  t ∈ day_slots zone spec eh day <->
  let '(y, m, d) := civil day in
  bit (Month spec) m = true /\ cronDayMatches spec day = true /\
  exists h mi, 0 <= h < 24 /\ 0 <= mi < 60 /\ bit (Hour spec) h = true /\ bit (Minute spec) mi = true /\
    t ∈ wallInstants zone y m d h mi eh.
Proof.
  unfold day_slots. destruct (civil day) as [[y m] d].
  destruct (bit (Month spec) m); [|cbn [negb orb]; rewrite elem_of_nil; naive_solver].
  destruct (cronDayMatches spec day); cbn [negb orb]; [|rewrite elem_of_nil; naive_solver].
  rewrite list_elem_of_In, in_flat_map. split.
  - intros (h & Hh & Ht). destruct (bit (Hour spec) h) eqn:Eh; [|done].
    apply in_flat_map in Ht as (mi & Hmi & Ht). destruct (bit (Minute spec) mi) eqn:Em; [|done].
    apply list_elem_of_In, elem_of_seqZ in Hh, Hmi. apply list_elem_of_In in Ht.
    split_and!; [done..|]. exists h, mi. split_and!; done || lia.
  - intros (_ & _ & h & mi & Hh & Hmi & Eh & Em & Ht). exists h.
    split; [apply list_elem_of_In, elem_of_seqZ; lia|]. rewrite Eh. apply in_flat_map. exists mi.
    split; [apply list_elem_of_In, elem_of_seqZ; lia|]. rewrite Em. by apply list_elem_of_In.
Qed.

(** The hour the search starts at on the first day hides no slot. *)
Definition start_ok (zone : Z -> Z) (from startH day : Z) : Prop :=
  startH = 0 \/
  startH = wall zone (from / nanos) / hour_secs mod 24 /\ day = wall zone (from / nanos) / day_secs.

Lemma before_start lo zone from startH day h mi :
  zone_ok lo zone -> lo <= day * day_secs - 36 * hour_secs -> start_ok zone from startH day ->
  zone (day * day_secs - 36 * hour_secs) = zone (day * day_secs + 60 * hour_secs) ->
  0 <= h < startH -> 0 <= mi < 60 ->
  After (day * day_secs + (h * hour_secs + mi * 60 - zone (day * day_secs - 36 * hour_secs))) from = false.
Proof.
  intros Hz0 Hlo [->|[Hst Hday]] He Hh Hmi; [lia|]. unfold After.
  set (fs := from / nanos) in *. pose proof (zk_range _ _ Hz0 fs) as Hrf.
  assert (Hz : zone fs = zone (day * day_secs - 36 * hour_secs)).
  { eapply zk_settled; [done|done|rewrite He; f_equal; unfold hour_secs; lia|]. unfold wall, hour_secs, day_secs in *.
    Z.to_euclidean_division_equations. lia. }
  assert (Hlt : day * day_secs + (h * hour_secs + mi * 60 - zone (day * day_secs - 36 * hour_secs)) <= fs).
  { rewrite <- Hz. unfold wall, hour_secs, day_secs in *. Z.to_euclidean_division_equations. lia. }
  apply Z.ltb_ge. pose proof (Z.mul_div_le from nanos ltac:(done)) as Hd. fold fs in Hd. unfold nanos in *. lia.
Qed.

(** The loop over minutes, and the double loop of the fast path, over hours
    from [a]. *)
Lemma minutes_spec (minute : Z -> bool) (T : Z -> Z) from :
  match first_some (fun mi =>
    if minute mi then if After (T mi) from then Some (T mi) else None else None) (seqZ 0 60) with
  | Some t => After t from = true /\ exists mi, 0 <= mi < 60 /\ minute mi = true /\ t = T mi /\
      forall mi', 0 <= mi' < mi -> minute mi' = true -> After (T mi') from = false
  | None => forall mi, 0 <= mi < 60 -> minute mi = true -> After (T mi) from = false
  end.
Proof.
  pose proof (first_some_range (fun mi =>
    if minute mi then if After (T mi) from then Some (T mi) else None else None) 0 60) as H.
  destruct (first_some _ _) as [t|].
  - destruct H as (mi & Hmi & Hv & Hl). destruct (minute mi) eqn:Em; [|done].
    destruct (After (T mi) from) eqn:Ea; [|done]. injection Hv as <-. split; [done|].
    exists mi. split_and!; try done; try lia. intros mi' Hmi' Em'. specialize (Hl mi' Hmi').
    cbv beta in Hl. rewrite Em' in Hl. by destruct (After (T mi') from).
  - intros mi Hmi Em. specialize (H mi Hmi). cbv beta in H. rewrite Em in H.
    by destruct (After (T mi) from).
Qed.

Lemma scan_spec (hour minute : Z -> bool) (T : Z -> Z -> Z) from a :
  (forall h mi h' mi', 0 <= mi < 60 -> 0 <= mi' < 60 -> h < h' \/ h = h' /\ mi <= mi' ->
   T h mi <= T h' mi') ->
  let slot h mi := a <= h < 24 /\ 0 <= mi < 60 /\ hour h = true /\ minute mi = true in
  match first_some (fun h =>
    if hour h then
      first_some (fun mi =>
        if minute mi then if After (T h mi) from then Some (T h mi) else None else None) (seqZ 0 60)
    else None) (seqZ a (24 - a)) with
  | Some t => After t from = true /\ (exists h mi, slot h mi /\ t = T h mi) /\
              forall h mi, slot h mi -> After (T h mi) from = true -> t <= T h mi
  | None => forall h mi, slot h mi -> After (T h mi) from = false
  end.
Proof.
  intros Hmono slot.
  pose proof (first_some_range (fun h => if hour h then
      first_some (fun mi =>
        if minute mi then if After (T h mi) from then Some (T h mi) else None else None) (seqZ 0 60)
    else None) a (24 - a)) as H.
  destruct (first_some _ (seqZ a (24 - a))) as [t|].
  - destruct H as (h & Hh & Ht & Hless). destruct (hour h) eqn:Eh; [|done].
    pose proof (minutes_spec minute (T h) from) as Hi. rewrite Ht in Hi.
    destruct Hi as (Ha & mi & Hmi & Em & -> & Hl).
    split_and!; [done|exists h, mi; split; [split_and!; done || lia|done]|].
    intros h' mi' (Hh' & Hmi' & Eh' & Em') Ha'.
    destruct (Z.lt_trichotomy h' h) as [Hlt|[->|Hgt]]; [|destruct (Z.lt_ge_cases mi' mi) as [Hlt|Hge]|].
    + specialize (Hless h' ltac:(lia)). cbv beta in Hless. rewrite Eh' in Hless.
      pose proof (minutes_spec minute (T h') from) as Hi. rewrite Hless in Hi.
      by rewrite (Hi mi' Hmi' Em') in Ha'.
    + by rewrite (Hl mi' ltac:(lia) Em') in Ha'.
    + apply Hmono; lia.
    + apply Hmono; lia.
  - intros h mi (Hh & Hmi & Eh & Em). specialize (H h ltac:(lia)). cbv beta in H. rewrite Eh in H.
    pose proof (minutes_spec minute (T h) from) as Hi. rewrite H in Hi. auto.
Qed.

Lemma day_run_settled lo zone spec eh from startH day :
  zone_ok lo zone -> lo <= day * day_secs - 36 * hour_secs -> start_ok zone from startH day ->
  zone (day * day_secs - 36 * hour_secs) = zone (day * day_secs + 60 * hour_secs) ->
  first_after from (day_slots zone spec eh day) (day_run zone spec eh from startH day).
Proof.
  intros Hz Hlo Hst He. pose proof (day_slots_elem zone spec eh day) as Hsl. unfold day_run.
  pose proof (fun h mi => wallInstants_settled lo zone day h mi eh Hz Hlo He) as Hw.
  pose proof (fun h mi => before_start lo zone from startH day h mi Hz Hlo Hst He) as Hbs.
  destruct (civil day) as [[y m] d].
  destruct (bit (Month spec) m); cbn [negb orb]; [|by intros t (? & _)%Hsl].
  destruct (cronDayMatches spec day); cbn [negb orb]; [|by intros t (_ & ? & _)%Hsl].
  rewrite (proj2 (Z.eqb_eq _ _) He).
  set (T := fun h mi => day * day_secs +
    (h * hour_secs + mi * 60 - zone (day * day_secs - 36 * hour_secs))) in *.
  assert (Hstart : 0 <= startH).
  { destruct Hst as [->|[-> _]]; [done|]. by apply Z.mod_pos_bound. }
  pose proof (scan_spec (bit (Hour spec)) (bit (Minute spec)) T from startH) as H.
  cbv zeta in H. assert (Hmono : forall h mi h' mi', 0 <= mi < 60 -> 0 <= mi' < 60 ->
    h < h' \/ h = h' /\ mi <= mi' -> T h mi <= T h' mi') by (intros; unfold T, hour_secs; lia).
  specialize (H Hmono).
  assert (Hel : forall t, t ∈ day_slots zone spec eh day -> After t from = true ->
    exists h mi, startH <= h < 24 /\ 0 <= mi < 60 /\ bit (Hour spec) h = true /\
      bit (Minute spec) mi = true /\ t = T h mi).
  { intros t (_ & _ & h & mi & Hh & Hmi & Eh & Em & Ht)%Hsl Ha.
    rewrite Hw, list_elem_of_singleton in Ht by done. subst t. fold (T h mi) in *.
    exists h, mi. split_and!; try done; try lia.
    destruct (Z.lt_ge_cases h startH) as [Hlt|]; [|done].
    assert (Hf : After (T h mi) from = false) by (apply Hbs; lia). congruence. }
  change (first_after from (day_slots zone spec eh day)
    (first_some (fun h => if bit (Hour spec) h then first_some (fun mi => if bit (Minute spec) mi then
      if After (T h mi) from then Some (T h mi) else None else None) (seqZ 0 60) else None)
      (seqZ startH (24 - startH)))).
  destruct (first_some _ (seqZ startH _)) as [t|]; unfold first_after.
  - destruct H as (Ha & (h & mi & (Hh & Hmi & Eh & Em) & ->) & Hl). split_and!; [|done|].
    + apply Hsl. split_and!; [done..|]. exists h, mi. split_and!; try done; try lia.
      rewrite Hw by lia. by apply list_elem_of_singleton.
    + intros t' Ht' Ha'. destruct (Hel t' Ht' Ha') as (h' & mi' & Hh' & Hmi' & Eh' & Em' & ->). by apply Hl.
  - intros t Ht. destruct (After t from) eqn:Ea; [|done].
    destruct (Hel t Ht Ea) as (h & mi & Hh & Hmi & Eh & Em & ->). by rewrite H in Ea.
Qed.

Lemma day_run_exact lo zone spec eh from startH day :
  zone_ok lo zone -> lo <= day * day_secs - 36 * hour_secs -> start_ok zone from startH day ->
  first_after from (day_slots zone spec eh day) (day_run zone spec eh from startH day).
Proof.
  intros Hz Hlo Hst.
  destruct (decide (zone (day * day_secs - 36 * hour_secs) = zone (day * day_secs + 60 * hour_secs)))
    as [He|He]; [by eapply day_run_settled|].
  unfold day_run, day_slots. destruct (civil day) as [[y m] d].
  destruct (negb (bit (Month spec) m) || negb (cronDayMatches spec day));
    [by intros t ?%elem_of_nil|].
  rewrite (proj2 (Z.eqb_neq _ _) He).
  match goal with |- first_after _ ?l ?r => replace r with (fold_left (better from) l None) end.
  { by apply (fold_better from _ None). }
  rewrite fold_left_flat_map. apply fold_left_ext. intros best h.
  destruct (bit (Hour spec) h); [|done]. rewrite fold_left_flat_map. apply fold_left_ext.
  intros best' mi. by destruct (bit (Minute spec) mi).
Qed.

(** The calendar day the search starts from, and what a schedule runs at on
    the [i]-th day of the search. *)
Definition from_day (zone : Z -> Z) (from : Z) : Z := wall zone (from / nanos) / day_secs.
Definition slots_on (zone : Z -> Z) (spec : SpecSchedule) (from i : Z) : list Z :=
  day_slots zone spec (Z.land (Hour spec) cronAllHours =? cronAllHours) (from_day zone from + i).

(** The days of the search lie within the four days before [from] and later. *)
Definition zone_from (from : Z) (zone : Z -> Z) : Prop :=
  zone_ok (from / nanos - 96 * hour_secs) zone.

Lemma search_days zone from i :
  zone_from from zone -> 0 <= i ->
  from / nanos - 96 * hour_secs <= (from_day zone from + i) * day_secs - 36 * hour_secs.
Proof.
  intros Hz Hi. pose proof (zk_range _ _ Hz (from / nanos)) as Hr.
  unfold from_day, wall, day_secs, hour_secs in *. set (fs := from / nanos) in *.
  Z.to_euclidean_division_equations. lia.
Qed.

Lemma search_spec (zone : Z -> Z) (spec : SpecSchedule) (from : Z) :
  zone_from from zone ->
  match nextWallClockRun zone spec from with
  | Some t => exists i, 0 <= i <= 5 * 366 /\
      first_after from (slots_on zone spec from i) (Some t) /\
      forall j, 0 <= j < i -> first_after from (slots_on zone spec from j) None
  | None => forall j, 0 <= j <= 5 * 366 -> first_after from (slots_on zone spec from j) None
  end.
Proof.
  intros Hz. unfold nextWallClockRun.
  pose proof (days_of_civil (from_day zone from)) as Hdays. unfold from_day in Hdays at 1.
  destruct (civil _) as [[y m] d].
  set (eh := Z.land (Hour spec) cronAllHours =? cronAllHours).
  set (f := fun i => day_run zone spec eh from _ _).
  assert (Hf : forall i, 0 <= i -> first_after from (slots_on zone spec from i) (f i)).
  { intros i Hi. unfold f, slots_on. rewrite Hdays.
    eapply day_run_exact; [exact Hz|by apply search_days|].
    destruct (Z.eqb_spec i 0) as [->|]; [right|by left]. split; [done|]. unfold from_day. lia. }
  pose proof (first_some_range f 0 (5 * 366 + 1)) as H.
  destruct (first_some f (seqZ 0 (5 * 366 + 1))) as [t|].
  - destruct H as (i & Hi & Ht & Hless). exists i. split_and!; [lia..|rewrite <- Ht; apply Hf; lia|].
    intros j Hj. rewrite <- (Hless j Hj). apply Hf; lia.
  - intros j Hj. rewrite <- (H j ltac:(lia)). apply Hf; lia.
Qed.

(** The instants of the panel's preview are in order. *)
Lemma BackupNextRuns_sorted n parsed zone from :
  zone_from from zone -> StronglySorted Z.lt (from :: BackupNextRuns n parsed (Some zone) from).
Proof.
  revert from. induction n as [|n IH]; intros from Hz; simpl; [repeat constructor|].
  destruct (ComputeBackupNextRun parsed (Some zone) from) as [next|] eqn:E; [|repeat constructor].
  assert (Hlt : from < next).
  { unfold ComputeBackupNextRun in E. destruct parsed as [[every spec]|]; [|done].
    destruct (Z.ltb_spec 0 every); [simplify_eq; lia|]. destruct spec as [spec|]; [|done].
    destruct (nextWallClockRun zone spec from) as [t|] eqn:Et; simplify_eq/=.
    pose proof (search_spec zone spec from Hz) as Hs. rewrite Et in Hs.
    destruct Hs as (_ & _ & (_ & Ha & _) & _). unfold After in Ha. lia. }
  assert (Hz' : zone_from next zone).
  { eapply zone_ok_later; [|exact Hz]. apply Z.sub_le_mono_r, Z.div_le_mono; [done|lia]. }
  specialize (IH next Hz'). apply StronglySorted_inv in IH as [Hs Hall].
  constructor; [by constructor|]. constructor; [done|].
  eapply Forall_impl; [apply Hall|]. simpl. lia.
Qed.

(** ** What a schedule asks for *)

(** The day fields: with a star in either, both must match, otherwise one. *)
Definition day_due (spec : SpecSchedule) (day : Z) : Prop :=
  let '(_, m, d) := civil day in
  let dom := Z.testbit (Dom spec) d = true in
  let dow := Z.testbit (Dow spec) (Weekday day) = true in
  Z.testbit (Month spec) m = true /\
  if Z.testbit (Dom spec) 63 || Z.testbit (Dow spec) 63 then dom /\ dow else dom \/ dow.

Definition hourly (spec : SpecSchedule) : Prop :=
  forall h, 0 <= h < 24 -> Z.testbit (Hour spec) h = true.

(** When the wall time [n] runs: at the first instant that shows it; for an
    hourly schedule at any other one too; and when the clock is put forward
    over it at an instant [c], at the instant that would have shown it had the
    clock been left alone. *)
Inductive runs_for (zone : Z -> Z) (spec : SpecSchedule) (n t : Z) : Prop :=
| runs_first : wall zone t = n -> (forall t', wall zone t' = n -> t <= t') -> runs_for zone spec n t
| runs_again : hourly spec -> wall zone t = n -> runs_for zone spec n t
| runs_shifted c :
    (forall t', wall zone t' <> n) -> c + zone (c - 1) <= n < c + zone c -> t = n - zone (c - 1) ->
    runs_for zone spec n t.

Definition runs_on (zone : Z -> Z) (spec : SpecSchedule) (day t : Z) : Prop :=
  day_due spec day /\
  exists h mi, 0 <= h < 24 /\ 0 <= mi < 60 /\
    Z.testbit (Hour spec) h = true /\ Z.testbit (Minute spec) mi = true /\
    runs_for zone spec (day * day_secs + h * hour_secs + mi * 60) t.

(** The masks of the code read single bits. *)
Lemma land_pow2 mask i : 0 <= i -> Z.land (2 ^ i) mask = if Z.testbit mask i then 2 ^ i else 0.
Proof.
  intros Hi. apply Z.bits_inj_iff'. intros k Hk. rewrite Z.land_spec, Z.pow2_bits_eqb by done.
  destruct (Z.eqb_spec i k) as [->|Hne].
  - destruct (Z.testbit mask k); by rewrite ?Z.bits_0, ?Z.pow2_bits_true.
  - destruct (Z.testbit mask i); by rewrite ?Z.bits_0, ?Z.pow2_bits_false.
Qed.

Lemma bit_testbit mask i : 0 <= i -> bit mask i = Z.testbit mask i.
Proof.
  intros Hi. unfold bit. rewrite Z.shiftl_1_l, land_pow2 by done.
  pose proof (Z.pow_pos_nonneg 2 i ltac:(lia) Hi). by destruct (Z.testbit mask i); lia.
Qed.

Lemma starred mask : (0 <? Z.land mask cronStarBit) = Z.testbit mask 63.
Proof.
  unfold cronStarBit. rewrite Z.shiftl_1_l, Z.land_comm, land_pow2 by lia.
  by destruct (Z.testbit mask 63).
Qed.

Lemma hourly_mask spec : (Z.land (Hour spec) cronAllHours =? cronAllHours) = true <-> hourly spec.
Proof.
  assert (Hall : forall k, 0 <= k -> Z.testbit cronAllHours k = (k <? 24)).
  { intros k Hk. change cronAllHours with (Z.ones 24). by apply Z.testbit_ones_nonneg. }
  rewrite Z.eqb_eq. split.
  - intros He h Hh. assert (Hb : Z.testbit (Z.land (Hour spec) cronAllHours) h = true)
      by (rewrite He, Hall; lia). rewrite Z.land_spec in Hb. by apply andb_true_iff in Hb as [? _].
  - intros Hh. apply Z.bits_inj_iff'. intros k Hk. rewrite Z.land_spec, Hall by done.
    destruct (Z.ltb_spec k 24); [by rewrite Hh|by rewrite andb_false_r].
Qed.

Lemma day_due_code spec day :
  let '(_, m, _) := civil day in
  bit (Month spec) m = true /\ cronDayMatches spec day = true <-> day_due spec day.
Proof.
  unfold cronDayMatches, day_due. pose proof (month_range day) as Hm. pose proof (day_positive day) as Hd.
  assert (Hw : 0 <= Weekday day) by by apply Z.mod_pos_bound.
  destruct (civil day) as [[y m] d]. simpl. rewrite !bit_testbit, !starred by lia.
  destruct (_ || _); [rewrite andb_true_iff|rewrite orb_true_iff]; tauto.
Qed.

(** The instants of a skipped wall time. *)
Lemma skipped_shift zone n t :
  let b := zone (n - 36 * hour_secs) in
  one_change zone n -> (forall t', wall zone t' <> n) ->
  t = n - b <-> exists c, c + zone (c - 1) <= n < c + zone c /\ t = n - zone (c - 1).
Proof.
  intros b Hoc Hno. set (a := zone (n + 36 * hour_secs)).
  destruct (skipped_gap zone n Hoc (Hno _) (Hno _)) as [Hgap Hw]. fold a b in Hgap, Hw.
  pose proof (Hno (n - a)) as Hna. destruct Hoc as [[c Hc] Hr _]. fold a b in Hc.
  pose proof (Hr (n - 36 * hour_secs)) as Hb. pose proof (Hr (n + 36 * hour_secs)) as Ha. fold a in Ha. fold b in Hb.
  unfold wall, hour_secs in *.
  pose proof (Hc (n - b) ltac:(lia)) as E1. pose proof (Hc (n - a) ltac:(lia)) as E2.
  assert (Hin : n - a < c <= n - b)
    by (destruct (Z.ltb_spec (n - b) c), (Z.ltb_spec (n - a) c); lia).
  assert (Hbefore : forall c', c' + zone (c' - 1) <= n < c' + zone c' -> zone (c' - 1) = b).
  { intros c' Hc'. pose proof (Hr c'). pose proof (Hr (c' - 1)).
    pose proof (Hc c' ltac:(lia)) as F1. pose proof (Hc (c' - 1) ltac:(lia)) as F2.
    destruct (Z.ltb_spec c' c), (Z.ltb_spec (c' - 1) c); lia. }
  split.
  - intros ->. exists c. pose proof (Hc c ltac:(lia)) as F1. pose proof (Hc (c - 1) ltac:(lia)) as F2.
    destruct (Z.ltb_spec c c), (Z.ltb_spec (c - 1) c); lia.
  - intros (c' & Hc' & ->). by rewrite Hbefore.
Qed.

Lemma runs_for_code zone spec y m d h mi t :
  let n := DateUTC y m d h mi in
  one_change zone n ->
  t ∈ wallInstants zone y m d h mi (Z.land (Hour spec) cronAllHours =? cronAllHours) <->
  runs_for zone spec n t.
Proof.
  intros n Hoc. pose proof (hourly_mask spec) as Hh. set (eh := _ =? cronAllHours) in *.
  destruct (wallInstants_exact zone y m d h mi Hoc) as [Hshown Hskip]. fold n in Hshown, Hskip.
  pose proof (wallInstants_cases zone y m d h mi eh Hoc) as Hcases. fold n in Hcases. cbv zeta in Hcases.
  pose proof (fun t => reads_iff zone n t Hoc) as Hreads.
  assert (Hdec : (exists t', wall zone t' = n) \/ (forall t', wall zone t' <> n) /\
    wallInstants zone y m d h mi eh = [n - zone (n - 36 * hour_secs)]).
  { revert Hcases. destruct (Z.eqb_spec (wall zone (n - zone (n - 36 * hour_secs))) n); [eauto|].
    destruct (Z.eqb_spec (wall zone (n - zone (n + 36 * hour_secs))) n); [eauto|].
    intros ->. right. split; [|done]. intros t' [[-> | ->] Hw]%Hreads; done. }
  destruct Hdec as [Hex|[Hno Hone]].
  - destruct (Hshown Hex) as (Hall & _ & t0 & Ht0 & Hw0 & Hmin). destruct eh.
    + rewrite Hall. split; [intros; apply runs_again; tauto|].
      intros [?|?|c Hno _ _]; try done. by destruct Hex as [t' ?%Hno].
    + rewrite Ht0, list_elem_of_singleton. split; [intros ->; by apply runs_first|].
      intros [Hw Hl|Hev%Hh Hw|c Hno _ _]; [|done|by destruct Hex as [t' ?%Hno]].
      specialize (Hmin t Hw). specialize (Hl t0 Hw0). lia.
  - rewrite Hone, list_elem_of_singleton, (skipped_shift zone n t Hoc Hno). split.
    + intros (c & Hc & ->). by eapply runs_shifted.
    + intros [Hw _|_ Hw|c _ Hc ->]; [by destruct (Hno t)..|eauto].
Qed.

Lemma slots_on_runs zone spec from i t :
  zone_from from zone -> 0 <= i ->
  t ∈ slots_on zone spec from i <-> runs_on zone spec (from_day zone from + i) t.
Proof.
  intros Hz Hi. pose proof (search_days zone from i Hz Hi) as Hlo.
  unfold slots_on. set (day := from_day zone from + i) in *. rewrite day_slots_elem.
  unfold runs_on. pose proof (day_due_code spec day) as Hd. pose proof (DateUTC_civil day) as Hn.
  destruct (civil day) as [[y m] d]. rewrite <- Hd, Logic.and_assoc.
  do 2 apply and_iff_compat_l.
  assert (Hiff : forall h mi, 0 <= h < 24 -> 0 <= mi < 60 ->
    t ∈ wallInstants zone y m d h mi (Z.land (Hour spec) cronAllHours =? cronAllHours) <->
    runs_for zone spec (day * day_secs + h * hour_secs + mi * 60) t).
  { intros h mi Hh Hmi. rewrite <- Hn. apply runs_for_code. rewrite Hn.
    eapply zone_one_change; [exact Hz|unfold hour_secs in *; lia]. }
  split; intros (h & mi & Hh & Hmi & Eh & Em & Ht); exists h, mi;
    rewrite !bit_testbit in * by lia; split_and!; try done; try lia; by apply Hiff.
Qed.

(** C37: the next run is the first slot. A schedule asks for wall times on the
    days its day fields name, by the rule that a star in one day field makes
    both count; a wall time runs at the first instant that shows it, at every
    such instant for a schedule that names all the hours, and, when the clock
    is put forward over it, as much later as the clock is put forward. The
    search returns an instant after [from] at which the schedule runs: on the
    earliest calendar day of the zone, from the day of [from] on, that has one
    left, and the earliest of that day. It returns none only when none of the
    1,831 days from that day on has one. The zone is any function whose
    offsets, from four days before [from] on, are whole minutes and change at
    most once in any four days, and are at most a day at all times: zones that
    kept local mean time to the second are outside only while they did. *)
Theorem nextWallClockRun_exact (zone : Z -> Z) (spec : SpecSchedule) (from : Z) :
  zone_from from zone ->
  let runs i t := runs_on zone spec (from_day zone from + i) t /\ from < t * nanos in
  match nextWallClockRun zone spec from with
  | Some t => exists i, 0 <= i <= 5 * 366 /\ runs i t /\ (forall t', runs i t' -> t <= t') /\
      forall j t', 0 <= j < i -> ~ runs j t'
  | None => forall j t', 0 <= j <= 5 * 366 -> ~ runs j t'
  end.
Proof.
  intros Hz runs. pose proof (search_spec zone spec from Hz) as H.
  assert (Hr : forall i t, 0 <= i -> runs i t <-> t ∈ slots_on zone spec from i /\ After t from = true).
  { intros i t Hi. unfold runs, After. by rewrite <- slots_on_runs, Z.ltb_lt. }
  assert (Hno : forall j, 0 <= j -> first_after from (slots_on zone spec from j) None ->
    forall t', ~ runs j t').
  { intros j Hj Hn t' [Hs Ha]%Hr; [|exact Hj]. unfold first_after in Hn. specialize (Hn t' Hs). rewrite Hn in Ha. discriminate Ha. }
  destruct (nextWallClockRun zone spec from) as [t|].
  - destruct H as (i & Hi & (Hs & Ha & Hl) & Hj). exists i. split; [done|].
    split_and!; [apply Hr; [lia|done]|intros t' [? ?]%Hr; [by apply Hl|lia]|].
    intros j t' Hjj. apply Hno; [lia|by apply Hj].
  - intros j t' Hj. apply Hno; [lia|by apply H].
Qed.

(** ** Concrete zones

    Central Europe and western Greenland in 2025, from the tz database. Both
    change at 01:00 UTC on 30 March and 26 October; in Greenland that is one
    hour before midnight. *)
Definition summer_2025 (winter : Z) (t : Z) : Z :=
  if (1743296400 <=? t) && (t <? 1761440400) then winter + 3600 else winter.
Definition berlin : Z -> Z := summer_2025 3600.
Definition nuuk : Z -> Z := summer_2025 (-7200).

Lemma summer_2025_ok winter :
  winter mod 60 = 0 -> - 23 * hour_secs <= winter <= 23 * hour_secs ->
  forall lo, zone_ok lo (summer_2025 winter).
Proof.
  intros Hm Hr lo. unfold summer_2025. constructor.
  - intros t. unfold hour_secs in *. destruct (_ && _); lia.
  - intros t _. destruct (_ && _); [|done]. Z.to_euclidean_division_equations. lia.
  - intros a _. exists (if a <? 1743296400 then 1743296400 else 1761440400). intros t Ht.
    unfold hour_secs in *.
    assert (E : forall x,
      (1743296400 <=? x) && (x <? 1761440400) = bool_decide (1743296400 <= x < 1761440400)).
    { intros x. case_bool_decide; lia. }
    rewrite !E. destruct (Z.ltb_spec a 1743296400).
    + destruct (Z.ltb_spec t 1743296400); repeat case_bool_decide; lia.
    + destruct (Z.ltb_spec t 1761440400); repeat case_bool_decide; lia.
Qed.

(** Every day at a time. *)
Definition daily (hh mm : Z) : SpecSchedule :=
  mkSpec (Z.shiftl 1 mm) (Z.shiftl 1 hh) (2 ^ 64 - 1) (2 ^ 64 - 1) (2 ^ 64 - 1).

(** 02:30 does not exist in Berlin on the day of the change: the run is at the
    instant that reads 03:30. *)
Lemma wallInstants_exact_witness :
  one_change berlin (DateUTC 2025 3 30 2 30) /\
  exists t, wallInstants berlin 2025 3 30 2 30 false = [t] /\
    wall berlin t = DateUTC 2025 3 30 2 30 + 3600.
Proof.
  assert (Hoc : one_change berlin (DateUTC 2025 3 30 2 30)).
  { constructor.
    - exists 1743296400. intros t. change (DateUTC 2025 3 30 2 30) with 1743301800.
      unfold berlin, summer_2025, hour_secs. intros Ht. destruct (Z.ltb_spec t 1743296400).
      + rewrite (proj2 (Z.leb_gt 1743296400 t)) by lia. done.
      + rewrite (proj2 (Z.leb_le 1743296400 t)), (proj2 (Z.ltb_lt t 1761440400)) by lia. done.
    - intros t. unfold berlin, summer_2025, hour_secs. destruct (_ && _); lia.
    - intros t _. unfold berlin, summer_2025. by destruct (_ && _). }
  split; [done|]. refine (proj2 (proj2 (wallInstants_exact berlin 2025 3 30 2 30 Hoc) _) false).
  intros t Hw. change (DateUTC 2025 3 30 2 30) with 1743301800 in Hw. unfold wall, berlin, summer_2025 in Hw.
  destruct (Z.leb_spec 1743296400 t), (Z.ltb_spec t 1761440400); simpl in Hw; lia.
Defined.

Lemma nextWallClockRun_exact_witness :
  nextWallClockRun berlin (daily 2 30) (1743249600 * nanos) = Some 1743298200 /\
  exists i, 0 <= i <= 5 * 366 /\
    runs_on berlin (daily 2 30) (from_day berlin (1743249600 * nanos) + i) 1743298200.
Proof.
  assert (E : nextWallClockRun berlin (daily 2 30) (1743249600 * nanos) = Some 1743298200) by by vm_compute.
  split; [done|].
  assert (Hz : zone_from (1743249600 * nanos) berlin)
    by (apply (summer_2025_ok 3600); [reflexivity|unfold hour_secs; lia]).
  pose proof (nextWallClockRun_exact berlin (daily 2 30) (1743249600 * nanos) Hz) as H.
  rewrite E in H. destruct H as (i & Hi & [Hf _] & _). exists i. split; [exact Hi|exact Hf].
Defined.

(** A run that the change moves past midnight belongs to the day before, where
    a search that starts after midnight does not look: at ten past midnight on
    30 March in Greenland, a backup at 23:30 has its slot of the 29th twenty
    minutes ahead, and the search returns the one of the evening. *)
Lemma shifted_past_midnight :
  let from := 1743297000 * nanos in
  day_slots nuuk (daily 23 30) false (from_day nuuk from - 1) = [1743298200] /\
  After 1743298200 from = true /\
  nextWallClockRun nuuk (daily 23 30) from = Some 1743381000.
Proof. split_and!; by vm_compute. Qed.
