(* ===== verification/GoNet.v ===== *)
(** * Go's [net] addresses as the platform uses them

    [net.ParseIP], [IP.To4], [IP.String], [net.SplitHostPort] and
    [net.ParseCIDR], after package net and net/netip. An [IP] is its 16-byte
    form, a number below [2 ^ 128]; an IPv4 address is the one mapped into
    IPv6. The fact the network policy needs is that a string [ParseIP]
    accepts has nothing in it but hexadecimal digits, dots and colons. *)

From Stdlib Require Import Ascii String.
From S2P Require Import Prelude GoStrings.
Open Scope string_scope.
Open Scope list_scope.
Open Scope Z_scope.

(** ** Addresses *)

Definition hex_val (c : ascii) : option Z :=
  let n := code c in
  if is_digit c then Some (n - 48)
  else if (97 <=? n) && (n <=? 102) then Some (n - 87)
  else if (65 <=? n) && (n <=? 70) then Some (n - 55)
  else None.
Definition is_hex (c : ascii) : bool := if hex_val c then true else false.

(** One field of a dotted quad: no leading zero, at most 255. *)
Definition octet (s : string) : option Z :=
  match s with
  | String "0" (String _ _) => None
  | _ => match unsigned s with Some v => if v <=? 255 then Some v else None | None => None end
  end.

Definition parseIPv4 (s : string) : option Z :=
  match Split "." s with
  | [a; b; c; d] =>
      match octet a, octet b, octet c, octet d with
      | Some a, Some b, Some c, Some d => Some (((a * 256 + b) * 256 + c) * 256 + d)
      | _, _, _, _ => None
      end
  | _ => None
  end.

(** The longest run of hexadecimal digits, and what follows it. *)
Fixpoint hex_run (s : string) : string * string :=
  match s with
  | EmptyString => ("", "")
  | String c t => if is_hex c then let '(run, rest) := hex_run t in (String c run, rest) else ("", s)
  end.

Fixpoint hex_number (acc : Z) (s : string) : Z :=
  match s with
  | EmptyString => acc
  | String c s => hex_number (acc * 16 + default 0 (hex_val c)) s
  end.

(** The loop of [parseIPv6]: the 16-bit groups read so far, and how many of
    them precede the ellipsis. The fuel is the room left for groups. *)
Fixpoint v6_loop (room : nat) (groups : list Z) (ellipsis : option nat) (s : string)
    : option (list Z * option nat) :=
  match room with
  | O => if (s =? "")%string then Some (groups, ellipsis) else None
  | S room =>
      let '(run, rest) := hex_run s in
      if (run =? "")%string || (4 <? Z.of_nat (String.length run)) then None
      else
        let groups' := groups ++ [hex_number 0 run] in
        match rest with
        | EmptyString => Some (groups', ellipsis)
        | String "." _ =>
            let here := length groups in
            if (match ellipsis with None => negb (Nat.eqb here 6) | Some _ => false end) ||
               Nat.ltb 6 here then None
            else match parseIPv4 s with
                 | Some v => Some (groups ++ [v / 65536; v mod 65536], ellipsis)
                 | None => None
                 end
        | String ":" EmptyString => None
        | String ":" (String ":" s') =>
            match ellipsis with
            | Some _ => None
            | None =>
                let ellipsis := Some (length groups') in
                if (s' =? "")%string then Some (groups', ellipsis)
                else v6_loop room groups' ellipsis s'
            end
        | String ":" s' => v6_loop room groups' ellipsis s'
        | _ => None
        end
  end.

Definition v6_value (groups : list Z) : Z := fold_left (fun acc g => acc * 65536 + g) groups 0.

(** Filling the ellipsis, which stands for at least one group. *)
Definition v6_finish (r : list Z * option nat) : option Z :=
  let '(groups, ellipsis) := r in
  let n := length groups in
  match ellipsis with
  | Some e => if Nat.ltb n 8
              then Some (v6_value (take e groups ++ replicate (8 - n) 0 ++ drop e groups)) else None
  | None => if Nat.ltb n 8 then None else Some (v6_value groups)
  end.

Definition parseIPv6 (s : string) : option Z :=
  match s with
  | String ":" (String ":" EmptyString) => Some 0
  | String ":" (String ":" s) => v6_loop 8 [] (Some 0%nat) s ≫= v6_finish
  | _ => v6_loop 8 [] None s ≫= v6_finish
  end.

Definition v4InV6Prefix : Z := 65535.
Definition map4 (v : Z) : Z := v4InV6Prefix * 2 ^ 32 + v.

(** Which parser the first dot, colon or percent sign chooses. *)
Fixpoint addr_kind (s : string) : ascii :=
  match s with
  | EmptyString => "%"%char
  | String c s =>
      if Ascii.eqb c "." || Ascii.eqb c ":" || Ascii.eqb c "%" then c else addr_kind s
  end.

(** An address with a zone is not an [IP]. *)
Definition ParseIP (s : string) : option Z :=
  if Ascii.eqb (addr_kind s) "." then map4 <$> parseIPv4 s
  else if Ascii.eqb (addr_kind s) ":" then
    match Cut "%" s with Some _ => None | None => parseIPv6 s end
  else None.

Definition To4 (ip : Z) : option Z :=
  if ip / 2 ^ 32 =? v4InV6Prefix then Some (ip mod 2 ^ 32) else None.

(** [IP.String] of an IPv4 address. *)
Definition ip4_string (v : Z) : string :=
  Join (Itoa <$> [v / 2 ^ 24 mod 256; v / 2 ^ 16 mod 256; v / 2 ^ 8 mod 256; v mod 256]) ".".

(** *** Printing an IPv6 address

    The longest run of at least two zero groups, the first of several, becomes
    the double colon. *)
Definition groups6 (ip : Z) : list Z := (fun i => ip / 2 ^ (16 * (7 - i)) mod 65536) <$> seqZ 0 8.

Definition hex_digit (d : Z) : ascii :=
  ascii_of_nat (Z.to_nat (if d <? 10 then 48 + d else 87 + d)).
Definition hex_string (g : Z) : string :=
  let ds := [g / 4096; g / 256 mod 16; g / 16 mod 16] in
  string_of_list_ascii
    ((fix skip ds := match ds with [] => [] | d :: r => if d =? 0 then skip r else hex_digit <$> ds end) ds ++
     [hex_digit (g mod 16)]).

Fixpoint zeros (l : list Z) : nat := match l with g :: l => if g =? 0 then S (zeros l) else 0%nat | [] => 0%nat end.
Definition zero_run (gs : list Z) : nat * nat :=
  fold_left (fun '(a, b) i =>
    let n := zeros (drop i gs) in
    if Nat.leb 2 n && Nat.ltb (b - a) n then (i, i + n)%nat else (a, b)) (seq 0 8) (255, 255)%nat.

Definition ip6_string (ip : Z) : string :=
  let gs := groups6 ip in
  let '(a, b) := zero_run gs in
  if Nat.ltb a 8
  then (Join (hex_string <$> take a gs) ":" +:+ "::" +:+ Join (hex_string <$> drop b gs) ":")%string
  else Join (hex_string <$> gs) ":".

Definition IP_String (ip : Z) : string :=
  match To4 ip with Some v => ip4_string v | None => ip6_string ip end.

(** [IP.IsPrivate] of an IPv4 address. *)
Definition IsPrivate4 (v : Z) : bool :=
  (v / 2 ^ 24 =? 10) || (v / 2 ^ 20 =? 172 * 16 + 1) || (v / 2 ^ 16 =? 192 * 256 + 168).

(** ** Host and port *)

Definition has_char (c : ascii) (s : string) : bool := if Cut c s then true else false.

(** The text around the last separator. *)
Definition CutLast (sep : ascii) (s : string) : option (string * string) :=
  match Cut sep (rev_str s) with Some (b, a) => Some (rev_str a, rev_str b) | None => None end.

(** [net.SplitHostPort] *)
Definition SplitHostPort (s : string) : option (string * string) :=
  match s with
  | String "[" rest =>
      match Cut "]" rest with
      | Some (host, String ":" port) =>
          if has_char ":" port || has_char "[" rest || has_char "]" port then None else Some (host, port)
      | _ => None
      end
  | _ =>
      match CutLast ":" s with
      | Some (host, port) =>
          if has_char ":" host || has_char "[" s || has_char "]" s then None else Some (host, port)
      | None => None
      end
  end.

(** ** Networks *)

(** The base address and the length of its prefix, of 128 bits. *)
Record IPNet := mkNet { net_ip : Z; net_bits : Z }.

Definition Contains (n : IPNet) (ip : Z) : bool :=
  ip / 2 ^ (128 - net_bits n) =? net_ip n / 2 ^ (128 - net_bits n).

Definition masked (ip bits : Z) : IPNet :=
  mkNet (ip / 2 ^ (128 - bits) * 2 ^ (128 - bits)) bits.

(** [dtoi] on the whole string: decimal, leading zeros allowed. *)
Definition prefix_length (s : string) : option Z :=
  match unsigned s with Some n => if n <? 16777215 then Some n else None | None => None end.

Definition ParseCIDR (s : string) : option IPNet :=
  match Cut "/" s with
  | None => None
  | Some (addr, mask) =>
      match ParseIP addr, prefix_length mask with
      | Some ip, Some n =>
          let v4 := Ascii.eqb (addr_kind addr) "." in
          if n <=? (if v4 then 32 else 128) then Some (masked ip (if v4 then 96 + n else n)) else None
      | _, _ => None
      end
  end.

(** [IPNet.String] of an IPv4 network. *)
Definition net4_string (n : IPNet) : string :=
  (ip4_string (net_ip n mod 2 ^ 32) +:+ "/" +:+ Itoa (net_bits n - 96))%string.

(** ** Lemmas *)

Definition addr_char (c : ascii) : bool := is_hex c || Ascii.eqb c "." || Ascii.eqb c ":".

Lemma is_digit_hex c : is_digit c = true -> is_hex c = true.
Proof. intros H. unfold is_hex, hex_val. by rewrite H. Qed.

Lemma digits_val_chars acc s v : digits_val acc s = Some v -> all_chars is_digit s = true.
Proof.
  revert acc. induction s as [|c s IH]; intros acc; [done|]. simpl.
  destruct (is_digit c); [|done]. apply IH.
Qed.

Lemma octet_chars s v : octet s = Some v -> all_chars is_digit s = true.
Proof.
  intros H. assert (Hu : exists w, unsigned s = Some w).
  { unfold octet in H. repeat case_match; simplify_eq; eauto. }
  destruct Hu as [w Hw]. unfold unsigned in Hw. destruct s; [done|]. by eapply digits_val_chars.
Qed.

Lemma digits_val_nonneg acc s v : 0 <= acc -> digits_val acc s = Some v -> 0 <= v.
Proof.
  revert acc. induction s as [|c s IH]; intros acc Ha; simpl; [by intros [= <-]|].
  destruct (is_digit c) eqn:E; [|done]. apply IH. unfold is_digit in E. to_prop. lia.
Qed.

Lemma octet_range s v : octet s = Some v -> 0 <= v <= 255.
Proof.
  intros H. assert (Hu : unsigned s = Some v /\ v <= 255).
  { unfold octet in H. repeat case_match; simplify_eq; to_prop; auto. }
  destruct Hu as [Hw Hle]. split; [|done]. unfold unsigned in Hw. destruct s; [done|].
  by eapply digits_val_nonneg; [|exact Hw].
Qed.

Lemma parseIPv4_range s v : parseIPv4 s = Some v -> 0 <= v < 2 ^ 32.
Proof.
  unfold parseIPv4. intros H. repeat case_match; simplify_eq.
  repeat match goal with H : octet _ = Some _ |- _ => apply octet_range in H end. lia.
Qed.

(** A string is the joined fields [Split] gives. *)
Lemma Split_chars sep (p : ascii -> bool) s :
  p sep = true -> Forall (fun f => all_chars p f = true) (Split sep s) -> all_chars p s = true.
Proof.
  intros Hsep. induction s as [|c s IH]; [done|]. simpl.
  destruct (Ascii.eqb_spec c sep) as [->|Hne].
  - intros [_ H]%Forall_cons. rewrite Hsep. by apply IH.
  - destruct (Split sep s) as [|f fs] eqn:E; intros [Hc H]%Forall_cons; simpl in Hc; to_prop.
    + destruct s; simpl in E; [done|]. by repeat case_match.
    + match goal with Hp : p c = true |- _ => rewrite Hp end. apply IH. by constructor.
Qed.

Lemma parseIPv4_chars s v : parseIPv4 s = Some v -> all_chars addr_char s = true.
Proof.
  intros H. apply (Split_chars "."); [done|]. unfold parseIPv4 in H. repeat case_match; simplify_eq.
  assert (Hd : forall f w, octet f = Some w -> all_chars addr_char f = true).
  { intros f w Hf. eapply all_chars_impl; [|by eapply octet_chars]. intros c Hc.
    unfold addr_char. by rewrite is_digit_hex. }
  repeat constructor; eauto.
Qed.

Lemma hex_run_chars s run rest :
  hex_run s = (run, rest) -> s = (run +:+ rest)%string /\ all_chars addr_char run = true.
Proof.
  revert run rest. induction s as [|c s IH]; intros run rest; simpl; [by intros [= <- <-]|].
  destruct (is_hex c) eqn:E; [|by intros [= <- <-]].
  destruct (hex_run s) as [r t]. intros [= <- <-]. destruct (IH r t eq_refl) as [-> Hr].
  split; [done|]. simpl. unfold addr_char at 1. by rewrite E.
Qed.

Lemma v6_loop_chars room groups e s r :
  v6_loop room groups e s = Some r -> all_chars addr_char s = true.
Proof.
  revert groups e s. induction room as [|room IH]; intros groups e s; cbn [v6_loop].
  { destruct (String.eqb_spec s ""); [by subst|done]. }
  destruct (hex_run s) as [run rest] eqn:Er. apply hex_run_chars in Er as [Es Hrun].
  destruct (_ || _); [done|]. intros H.
  assert (Hrest : all_chars addr_char rest = true \/ all_chars addr_char s = true).
  { destruct rest as [|c rest]; [by left|].
    destruct (Ascii.eqb_spec c ".") as [->|Hdot].
    { right. destruct (_ || _) in H; [done|]. destruct (parseIPv4 s) eqn:E4; [|done].
      by eapply parseIPv4_chars. }
    destruct (Ascii.eqb_spec c ":") as [->|Hcol].
    { left. simpl. destruct rest as [|c2 rest]; [done|].
      destruct (Ascii.eqb_spec c2 ":") as [->|Hc2].
      - destruct e; [done|]. destruct (String.eqb_spec rest ""); [by subst|]. simpl. by eapply IH.
      - assert (H' : v6_loop room (groups ++ [hex_number 0 run]) e (String c2 rest) = Some r).
        { rewrite <- H. repeat (match goal with |- context [match ?x with _ => _ end] => destruct x end; try done). }
        by eapply IH. }
    exfalso. repeat (match type of H with context [match ?x with _ => _ end] => destruct x end; try done). }
  destruct Hrest as [Hr|Hr]; [|done]. rewrite Es, all_chars_app, Hrun, Hr. done.
Qed.

(** A parsed address is safe to write into a script: no space, no newline, no
    brace, no semicolon. *)
Lemma ParseIP_chars s ip : ParseIP s = Some ip -> all_chars addr_char s = true.
Proof.
  unfold ParseIP. destruct (Ascii.eqb (addr_kind s) ".").
  { destruct (parseIPv4 s) eqn:E; [|done]. intros _. by eapply parseIPv4_chars. }
  destruct (Ascii.eqb (addr_kind s) ":"); [|done]. destruct (Cut "%" s); [done|].
  assert (Hl : forall e s', v6_loop 8 [] e s' ≫= v6_finish = Some ip -> all_chars addr_char s' = true).
  { intros e s' H. destruct (v6_loop 8 [] e s') eqn:E; [|done]. by eapply v6_loop_chars. }
  unfold parseIPv6. intros H.
  assert (Hs : (exists s', s = String ":" (String ":" s')) \/
               v6_loop 8 [] None s ≫= v6_finish = Some ip).
  { destruct s as [|c1 [|c2 s]]; [by right|right; rewrite <- H|].
    - repeat (match goal with |- context [match ?x with _ => _ end] => destruct x end; try done).
    - destruct (Ascii.eqb_spec c1 ":") as [->|H1]; [destruct (Ascii.eqb_spec c2 ":") as [->|H2]|];
        [by eauto|right; rewrite <- H..];
        repeat (match goal with |- context [match ?x with _ => _ end] => destruct x end; try done). }
  destruct Hs as [[s' ->]|Hs]; [|by apply Hl in Hs].
  destruct s' as [|c3 s']; [done|]. by apply Hl in H.
Qed.

Lemma To4_map4 v : 0 <= v < 2 ^ 32 -> To4 (map4 v) = Some v.
Proof.
  intros H. unfold To4, map4. rewrite Z.div_add_l, Z.div_small by lia. rewrite Z.add_0_r, Z.eqb_refl.
  by rewrite Z.add_comm, Z.mod_add, Z.mod_small by lia.
Qed.

Lemma map4_To4 ip v : To4 ip = Some v -> ip = map4 v /\ 0 <= v < 2 ^ 32.
Proof.
  unfold To4, map4. destruct (Z.eqb_spec (ip / 2 ^ 32) v4InV6Prefix) as [E|]; [|done]. intros [= <-].
  rewrite <- E. split; [|by apply Z.mod_pos_bound]. rewrite Z.mul_comm. apply Z.div_mod. lia.
Qed.

(** *** Printed addresses read back *)

Lemma Itoa_octet x : 0 <= x <= 255 -> octet (Itoa x) = Some x.
Proof.
  intros H. assert (E : forallb (fun x => bool_decide (octet (Itoa x) = Some x)) (seqZ 0 256) = true)
    by by vm_compute.
  rewrite forallb_forall in E. specialize (E x).
  apply bool_decide_eq_true in E; [done|]. apply list_elem_of_In, elem_of_seqZ. lia.
Qed.

Lemma Itoa_no_sep x sep : 0 <= x -> is_digit sep = false -> all_chars (not_char sep) (Itoa x) = true.
Proof.
  intros Hx Hs. eapply all_chars_impl; [|by apply Itoa_chars]. intros c Hc. by apply digit_not_char.
Qed.

Definition octets (v : Z) : list Z := [v / 2 ^ 24 mod 256; v / 2 ^ 16 mod 256; v / 2 ^ 8 mod 256; v mod 256].

Lemma octets_range v : Forall (fun x => 0 <= x <= 255) (octets v).
Proof. repeat constructor; Z.to_euclidean_division_equations; lia. Qed.

Lemma Split_ip4_string v : Split "." (ip4_string v) = Itoa <$> octets v.
Proof.
  unfold ip4_string. fold (octets v). apply (Split_Join "."); [done|].
  pose proof (octets_range v) as H. apply Forall_fmap. eapply Forall_impl; [done|]. simpl.
  intros x Hx. apply Itoa_no_sep; [lia|done].
Qed.

Lemma parseIPv4_string v : 0 <= v < 2 ^ 32 -> parseIPv4 (ip4_string v) = Some v.
Proof.
  intros Hv. unfold parseIPv4. rewrite Split_ip4_string. unfold octets. cbn [fmap list_fmap].
  pose proof (octets_range v) as H. unfold octets in H.
  repeat match goal with H : Forall _ (_ :: _) |- _ => apply Forall_cons in H as [? H] end.
  rewrite !Itoa_octet by done. f_equal. Z.to_euclidean_division_equations; lia.
Qed.

Lemma addr_kind_chars (p : ascii -> bool) c s rest :
  (forall d, p d = true -> Ascii.eqb d "." || Ascii.eqb d ":" || Ascii.eqb d "%" = false) ->
  all_chars p s = true -> c = "."%char \/ c = ":"%char \/ c = "%"%char ->
  addr_kind (s +:+ String c rest) = c.
Proof.
  intros Hp. induction s as [|d s IH]; simpl; intros Hs Hc.
  - destruct Hc as [->|[->| ->]]; done.
  - to_prop. rewrite Hp by done. auto.
Qed.

Lemma ip4_string_kind v : addr_kind (ip4_string v) = "."%char.
Proof.
  unfold ip4_string. fold (octets v). pose proof (octets_range v) as H. unfold octets in *.
  apply Forall_cons in H as [Hx _]. cbn [fmap list_fmap Join].
  apply (addr_kind_chars is_digit); [|by apply Itoa_chars; lia|by left].
  intros d Hd. unfold is_digit in Hd. to_prop.
  destruct (Ascii.eqb_spec d "."); [by subst|]. destruct (Ascii.eqb_spec d ":"); [by subst|].
  by destruct (Ascii.eqb_spec d "%"); [subst|].
Qed.

(** [IP.String] of an IPv4 address is read back as that address. *)
Lemma ParseIP_string v : 0 <= v < 2 ^ 32 -> ParseIP (ip4_string v) = Some (map4 v).
Proof. intros H. unfold ParseIP. rewrite ip4_string_kind. simpl. by rewrite parseIPv4_string. Qed.

Lemma ip4_string_chars v : 0 <= v < 2 ^ 32 -> all_chars addr_char (ip4_string v) = true.
Proof. intros H. eapply ParseIP_chars. by apply ParseIP_string. Qed.

(** An IPv4 network reads back as itself. *)
Definition net4_ok (n : IPNet) : Prop :=
  96 <= net_bits n <= 128 /\ (exists v, To4 (net_ip n) = Some v) /\
  n = masked (net_ip n) (net_bits n).

Lemma masked_idem ip bits : masked (net_ip (masked ip bits)) bits = masked ip bits.
Proof.
  unfold masked; cbn [net_ip]. f_equal. destruct (Z.le_gt_cases bits 128).
  - rewrite Z.div_mul; [done|]. apply Z.pow_nonzero; lia.
  - rewrite Z.pow_neg_r by lia. by rewrite !Zdiv_0_r.
Qed.

Lemma masked_short ip bits v : 0 <= bits < 96 -> To4 (net_ip (masked ip bits)) <> Some v.
Proof.
  intros Hb H. apply map4_To4 in H as [H Hv]. unfold masked, map4, v4InV6Prefix in H; cbn [net_ip] in H.
  replace (128 - bits) with (33 + (95 - bits)) in H by lia.
  rewrite Z.pow_add_r in H by lia. set (k := 2 ^ (95 - bits)) in *.
  assert (E : (65535 * 2 ^ 32 + v) mod 2 ^ 33 = 0).
  { rewrite <- H. rewrite (Z.mul_comm (2 ^ 33)), Z.mul_assoc. apply Z.mod_mul. lia. }
  Z.to_euclidean_division_equations; lia.
Qed.

Lemma ParseCIDR_net4 s n v : ParseCIDR s = Some n -> To4 (net_ip n) = Some v -> net4_ok n.
Proof.
  unfold ParseCIDR, prefix_length. intros H Hv. destruct (Cut "/" s) as [[addr mask]|]; [|done].
  destruct (ParseIP addr) as [ip|]; [|done]. destruct (unsigned mask) as [k|] eqn:Eu; [|done].
  assert (Hk : 0 <= k).
  { unfold unsigned in Eu. destruct mask; [done|]. by eapply digits_val_nonneg; [|exact Eu]. }
  destruct (k <? 16777215); [|done]. destruct (Ascii.eqb (addr_kind addr) ".").
  - destruct (Z.leb_spec k 32); [|done]. injection H as <-.
    split_and!; simpl; try lia; [by eexists|]. symmetry. apply masked_idem.
  - destruct (Z.leb_spec k 128); [|done]. injection H as <-.
    destruct (Z.le_gt_cases 96 k) as [Hge|Hlt]; [|exfalso; eapply (masked_short ip k v); [lia|exact Hv]].
    split_and!; simpl; try lia; [by eexists|]. symmetry. apply masked_idem.
Qed.

Lemma prefix_length_Itoa k : 0 <= k <= 32 -> prefix_length (Itoa k) = Some k.
Proof.
  intros H. assert (E : forallb (fun k => bool_decide (prefix_length (Itoa k) = Some k)) (seqZ 0 33) = true)
    by by vm_compute.
  rewrite forallb_forall in E. specialize (E k).
  apply bool_decide_eq_true in E; [done|]. apply list_elem_of_In, elem_of_seqZ. lia.
Qed.

Lemma ParseCIDR_string n : net4_ok n -> ParseCIDR (net4_string n) = Some n.
Proof.
  intros (Hb & [v Hv] & Hm). destruct (map4_To4 _ _ Hv) as [Hip Hr].
  unfold ParseCIDR, net4_string.
  assert (E : net_ip n mod 2 ^ 32 = v)
    by (rewrite Hip; unfold map4; rewrite Z.add_comm, Z.mod_add, Z.mod_small; lia).
  rewrite E. change ("/" +:+ Itoa (net_bits n - 96))%string with (String "/" (Itoa (net_bits n - 96))).
  rewrite Cut_app.
  2: { eapply all_chars_impl; [|by apply ip4_string_chars]. intros c Hc. unfold addr_char in Hc.
       unfold not_char. destruct (Ascii.eqb_spec c "/"); [by subst|done]. }
  rewrite ParseIP_string, prefix_length_Itoa, ip4_string_kind by lia. simpl.
  rewrite (proj2 (Z.leb_le _ _)) by lia. rewrite <- Hip.
  replace (96 + (net_bits n - 96)) with (net_bits n) by lia. by rewrite <- Hm.
Qed.
