(* ===== verification/NetRules.v ===== *)
(** * The network rules of a game server (node/netpolicy.go)

    The node writes an nftables script into the network namespace of every
    game server: an input chain that accepts the addresses and ports it was
    given and drops the rest, and an output chain that keeps a server off the
    machine, the platform and the private networks around it. The file has the
    functions that render the script, the table the script stands for, and
    what that table does with a packet: the first rule that matches decides,
    and the chain's policy decides when none does. *)

From stdpp Require Import sorting.
From Stdlib Require Import Ascii String.
From S2P Require Import Prelude GoStrings GoNet.
Open Scope string_scope.
Open Scope list_scope.
Open Scope Z_scope.

Notation length := List.length.

(** ** Rendering *)

Definition nl : string := String (ascii_of_nat 10) "".
Infix "^" := String.append (right associativity, at level 30) : string_scope.

Definition netPolicyTable : string := "dylaris".
Definition platformPortLow : Z := 25500.
Definition platformPortHigh : Z := 25599.

Record netEgress := mkEgress {
  eg_overlay : string; eg_redisIP : string; eg_redisPort : Z; eg_gamePort : Z; eg_gateway : string }.

Record publishedPort := mkPub { pub_proto : string; pub_port : Z }.

Definition dedupe_step (acc : gset string * list string) (s : string) : gset string * list string :=
  let '(seen, out) := acc in
  let s := TrimSpace s in
  if (s =? "")%string then acc
  else if bool_decide (s ∈ seen) then acc
  else ({[s]} ∪ seen, out ++ [s]).
Definition dedupeSorted (l : list string) : list string :=
  sortStrings (fold_left dedupe_step l (∅, [])).2.

(** The ports of one protocol, each once, as they are printed. *)
Definition port_step (proto : string) (acc : gset Z * list string) (p : publishedPort)
    : gset Z * list string :=
  let '(seen, ports) := acc in
  if (pub_proto p =? proto)%string && negb (pub_port p =? 0) && negb (bool_decide (pub_port p ∈ seen))
  then ({[pub_port p]} ∪ seen, ports ++ [Itoa (pub_port p)]) else acc.
Definition public_ports (proto : string) (public : list publishedPort) : list string :=
  (fold_left (port_step proto) public (∅, [])).2.

Definition allow_line (a : string) : string :=
  match ParseIP a with
  | None => ""
  | Some ip => match To4 ip with
               | Some _ => ("    ip saddr " ^ a ^ " accept" ^ nl)%string
               | None => ("    ip6 saddr " ^ a ^ " accept" ^ nl)%string
               end
  end.

Definition ports_line (public : list publishedPort) (proto : string) : string :=
  match public_ports proto public with
  | [] => ""
  | ports => ("    " ^ proto ^ " dport { " ^ Join (sortStrings ports) ", " ^ " } accept" ^ nl)%string
  end.

Fixpoint concat (l : list string) : string :=
  match l with [] => "" | s :: l => (s ^ concat l)%string end.

Definition writeIngressChain (allow : list string) (public : list publishedPort) : string :=
  ("  chain input {" ^ nl ^
   "    type filter hook input priority 0; policy drop;" ^ nl ^
   "    ct state established,related accept" ^ nl ^
   "    iif lo accept" ^ nl ^
   "    ip protocol icmp accept" ^ nl ^
   "    ip6 nexthdr icmpv6 accept" ^ nl ^
   concat (allow_line <$> dedupeSorted allow) ^
   concat (ports_line public <$> ["tcp"; "udp"]) ^
   "  }" ^ nl)%string.

(** The runs of ports between the spared ones, as the loop closes them. *)
Definition port_run_step (game : Z) (acc : Z * list (Z * Z)) (p : Z) : Z * list (Z * Z) :=
  let '(start, parts) := acc in
  if (p <=? platformPortHigh) && negb (p =? game) && negb (p =? 25565) then acc
  else (p + 1, if start <=? p - 1 then parts ++ [(start, p - 1)] else parts).
Definition platform_runs (game : Z) : list (Z * Z) :=
  (fold_left (port_run_step game)
     (seqZ platformPortLow (platformPortHigh + 1 - platformPortLow + 1)) (platformPortLow, [])).2.

Definition print_range (r : Z * Z) : string :=
  if r.1 =? r.2 then Itoa r.1 else (Itoa r.1 ^ "-" ^ Itoa r.2)%string.

Definition platformPortSet (game : Z) : string :=
  Join (["5432"; "6379"] ++ (print_range <$> platform_runs game)) ", ".

(** What the chain has beyond the link-local drops: the shared network, the
    Redis address and the gateway, when all of them can be written. *)
Definition egress_parts (eg : option netEgress) : option (IPNet * Z * option Z) :=
  match eg with
  | None => None
  | Some eg =>
      match ParseCIDR (eg_overlay eg) with
      | None => None
      | Some overlay =>
          match To4 (net_ip overlay), ParseIP (eg_redisIP eg) ≫= To4 with
          | Some _, Some redis =>
              if (eg_redisPort eg <? 1) || (65535 <? eg_redisPort eg) then None
              else Some (overlay, redis, ParseIP (eg_gateway eg) ≫= To4)
          | _, _ => None
          end
      end
  end.

Definition writeEgressChain (eg : option netEgress) : string :=
  ("  chain output {" ^ nl ^
   "    type filter hook output priority 0; policy accept;" ^ nl ^
   "    ip daddr 169.254.0.0/16 drop" ^ nl ^
   "    ip6 daddr fd00:ec2::254 drop" ^ nl ^
   match eg, egress_parts eg with
   | Some e, Some (overlay, redis, gateway) =>
       let ports := platformPortSet (eg_gamePort e) in
       "    ct state established,related accept" ^ nl ^
       "    oif lo accept" ^ nl ^
       "    ip daddr " ^ ip4_string redis ^ " tcp dport " ^ Itoa (eg_redisPort e) ^ " accept" ^ nl ^
       "    udp dport 53 accept" ^ nl ^
       "    tcp dport 53 accept" ^ nl ^
       match gateway with
       | Some gw => "    ip daddr " ^ ip4_string gw ^ " drop" ^ nl
       | None => ""
       end ^
       "    ip daddr " ^ net4_string overlay ^ " tcp dport { " ^ ports ^ " } drop" ^ nl ^
       "    ip daddr " ^ net4_string overlay ^ " udp dport { " ^ ports ^ " } drop" ^ nl ^
       "    ip daddr " ^ net4_string overlay ^ " accept" ^ nl ^
       "    ip daddr { 10.0.0.0/8, 172.16.0.0/12, 192.168.0.0/16, 100.64.0.0/10 } drop" ^ nl ^
       "    ip6 daddr { fc00::/7, fe80::/10 } meta l4proto { tcp, udp } drop" ^ nl
   | _, _ => ""
   end ^
   "  }" ^ nl)%string.

Definition renderNetPolicy (ingress : bool) (allow : list string) (public : list publishedPort)
    (eg : option netEgress) : string :=
  ("table inet " ^ netPolicyTable ^ nl ^
   "delete table inet " ^ netPolicyTable ^ nl ^
   "table inet " ^ netPolicyTable ^ " {" ^ nl ^
   (if ingress then writeIngressChain allow public else "") ^
   writeEgressChain eg ^
   "}" ^ nl)%string.

Definition netPolicyRulesetFor (allow : list string) (public : list publishedPort)
    (eg : option netEgress) : string := renderNetPolicy true allow public eg.

(** ** What a script stands for *)

Inductive l4 := Tcp | Udp | Icmp | Icmpv6 | OtherL4.
#[export] Instance l4_eq_dec : EqDecision l4.
Proof. solve_decision. Defined.

Inductive verdict := Accept | Drop.
#[export] Instance verdict_eq_dec : EqDecision verdict.
Proof. solve_decision. Defined.

(** The matches the scripts use. An operand is the text in the script; [true]
    is [ip], [false] is [ip6]. *)
Inductive nmatch :=
| CtEstablished
| IifLo
| OifLo
| IpIcmp
| Ip6Icmp
| Saddr (v4 : bool) (a : string)
| Daddr (v4 : bool) (a : string)
| DaddrSet (v4 : bool) (nets : list string)
| Dport (p : l4) (port : Z)
| DportSet (p : l4) (ports : list string)
| L4TcpUdp.

Record rule := mkRule { r_matches : list nmatch; r_verdict : verdict }.
Record chain := mkChain { c_name : string; c_policy : verdict; c_rules : list rule }.

(** *** Printing *)

Definition family (v4 : bool) : string := if v4 then "ip" else "ip6".
Definition l4_name (p : l4) : string :=
  match p with Tcp => "tcp" | Udp => "udp" | Icmp => "icmp" | Icmpv6 => "icmpv6" | OtherL4 => "" end.
Definition verdict_name (v : verdict) : string :=
  match v with Accept => "accept" | Drop => "drop" end.

Definition print_match (m : nmatch) : string :=
  match m with
  | CtEstablished => "ct state established,related"
  | IifLo => "iif lo"
  | OifLo => "oif lo"
  | IpIcmp => "ip protocol icmp"
  | Ip6Icmp => "ip6 nexthdr icmpv6"
  | Saddr v4 a => family v4 ^ " saddr " ^ a
  | Daddr v4 a => family v4 ^ " daddr " ^ a
  | DaddrSet v4 nets => family v4 ^ " daddr { " ^ Join nets ", " ^ " }"
  | Dport p port => l4_name p ^ " dport " ^ Itoa port
  | DportSet p ports => l4_name p ^ " dport { " ^ Join ports ", " ^ " }"
  | L4TcpUdp => "meta l4proto { tcp, udp }"
  end%string.

Definition print_rule (r : rule) : string :=
  ("    " ^ concat ((fun m => print_match m ^ " ") <$> r_matches r) ^ verdict_name (r_verdict r) ^ nl)%string.

Definition print_chain (c : chain) : string :=
  ("  chain " ^ c_name c ^ " {" ^ nl ^
   "    type filter hook " ^ c_name c ^ " priority 0; policy " ^ verdict_name (c_policy c) ^ ";" ^ nl ^
   concat (print_rule <$> c_rules c) ^ "  }" ^ nl)%string.

Definition print_table (cs : list chain) : string :=
  ("table inet " ^ netPolicyTable ^ nl ^ "delete table inet " ^ netPolicyTable ^ nl ^
   "table inet " ^ netPolicyTable ^ " {" ^ nl ^ concat (print_chain <$> cs) ^ "}" ^ nl)%string.

(** *** Packets

    As a chain sees one: its family, addresses in 16-byte form, protocol and
    destination port, whether it belongs to a known connection and whether it
    stays on the loopback interface. *)
Record packet := mkPacket {
  pk_v4 : bool; pk_src : Z; pk_dst : Z; pk_l4 : l4; pk_dport : Z;
  pk_established : bool; pk_lo : bool }.

(** An operand of an address match: an address or a prefix. *)
Definition operand_net (a : string) : option IPNet :=
  match Cut "/" a with
  | Some _ => ParseCIDR a
  | None => (fun ip => mkNet ip 128) <$> ParseIP a
  end.

Definition addr_in (a : string) (ip : Z) : bool :=
  match operand_net a with Some n => Contains n ip | None => false end.

(** An element of a port set: a port or a range. *)
Definition port_in (port : Z) (s : string) : bool :=
  match Cut "-" s with
  | None => bool_decide (Atoi s = Some port)
  | Some (lo, hi) =>
      match Atoi lo, Atoi hi with
      | Some lo, Some hi => (lo <=? port) && (port <=? hi)
      | _, _ => false
      end
  end.

Definition eval_match (m : nmatch) (p : packet) : bool :=
  match m with
  | CtEstablished => pk_established p
  | IifLo | OifLo => pk_lo p
  | IpIcmp => pk_v4 p && bool_decide (pk_l4 p = Icmp)
  | Ip6Icmp => negb (pk_v4 p) && bool_decide (pk_l4 p = Icmpv6)
  | Saddr v4 a => eqb (pk_v4 p) v4 && addr_in a (pk_src p)
  | Daddr v4 a => eqb (pk_v4 p) v4 && addr_in a (pk_dst p)
  | DaddrSet v4 nets => eqb (pk_v4 p) v4 && existsb (fun a => addr_in a (pk_dst p)) nets
  | Dport l port => bool_decide (pk_l4 p = l) && (pk_dport p =? port)
  | DportSet l ports => bool_decide (pk_l4 p = l) && existsb (port_in (pk_dport p)) ports
  | L4TcpUdp => bool_decide (pk_l4 p = Tcp) || bool_decide (pk_l4 p = Udp)
  end.

Definition eval_rule (p : packet) (r : rule) : bool := forallb (fun m => eval_match m p) (r_matches r).

Definition decide_packet (c : chain) (p : packet) : verdict :=
  match find (eval_rule p) (c_rules c) with Some r => r_verdict r | None => c_policy c end.

(** *** The table of a script *)

Definition allow_rules (a : string) : list rule :=
  match ParseIP a with
  | None => []
  | Some ip => [mkRule [Saddr (if To4 ip then true else false) a] Accept]
  end.

Definition port_rules (public : list publishedPort) (p : l4) : list rule :=
  match public_ports (l4_name p) public with
  | [] => []
  | ports => [mkRule [DportSet p (sortStrings ports)] Accept]
  end.

Definition input_chain (allow : list string) (public : list publishedPort) : chain :=
  mkChain "input" Drop
    ([mkRule [CtEstablished] Accept; mkRule [IifLo] Accept; mkRule [IpIcmp] Accept;
      mkRule [Ip6Icmp] Accept] ++
     flat_map allow_rules (dedupeSorted allow) ++
     flat_map (port_rules public) [Tcp; Udp]).

Definition platform_ports (game : Z) : list string :=
  ["5432"; "6379"] ++ (print_range <$> platform_runs game).

Definition private_nets : list string :=
  ["10.0.0.0/8"; "172.16.0.0/12"; "192.168.0.0/16"; "100.64.0.0/10"].

Definition output_chain (eg : option netEgress) : chain :=
  mkChain "output" Accept
    ([mkRule [Daddr true "169.254.0.0/16"] Drop; mkRule [Daddr false "fd00:ec2::254"] Drop] ++
     match eg, egress_parts eg with
     | Some e, Some (overlay, redis, gateway) =>
         let net := net4_string overlay in
         [mkRule [CtEstablished] Accept; mkRule [OifLo] Accept;
          mkRule [Daddr true (ip4_string redis); Dport Tcp (eg_redisPort e)] Accept;
          mkRule [Dport Udp 53] Accept; mkRule [Dport Tcp 53] Accept] ++
         match gateway with Some gw => [mkRule [Daddr true (ip4_string gw)] Drop] | None => [] end ++
         [mkRule [Daddr true net; DportSet Tcp (platform_ports (eg_gamePort e))] Drop;
          mkRule [Daddr true net; DportSet Udp (platform_ports (eg_gamePort e))] Drop;
          mkRule [Daddr true net] Accept;
          mkRule [DaddrSet true private_nets] Drop;
          mkRule [DaddrSet false ["fc00::/7"; "fe80::/10"]; L4TcpUdp] Drop]
     | _, _ => []
     end).

(** ** The script prints its table *)

Lemma concat_app l1 l2 : concat (l1 ++ l2) = (concat l1 ^ concat l2)%string.
Proof. induction l1 as [|x l1 IH]; simpl; [done|]. by rewrite IH, append_assoc. Qed.

Lemma concat_flat_map {A} (f : A -> string) (g : A -> list rule) l :
  (forall x, f x = concat (print_rule <$> g x)) ->
  concat (f <$> l) = concat (print_rule <$> flat_map g l).
Proof.
  intros H. induction l as [|x l IH]; [done|]. cbn [flat_map]. rewrite fmap_cons, fmap_app, concat_app. cbn [concat]. by rewrite <- H, IH.
Qed.

(** Both sides as one right-nested concatenation; adjacent literals are equal
    by computation. *)
Ltac open_text :=
  cbn [app fmap list_fmap concat r_matches r_verdict print_match verdict_name family l4_name
       c_name c_policy c_rules].
Ltac same_text :=
  unfold print_chain, print_table; open_text; unfold print_rule; open_text;
  rewrite ?append_assoc, ?append_nil_r;
  repeat match goal with
  | |- context [ip4_string ?v] => generalize (ip4_string v); intro
  | |- context [net4_string ?n] => generalize (net4_string n); intro
  | |- context [Itoa (eg_redisPort ?e)] => generalize (Itoa (eg_redisPort e)); intro
  | |- context [Join (platform_ports ?x) ?sep] => generalize (Join (platform_ports x) sep); intro
  | |- context [Join (sortStrings ?x) ?sep] => generalize (Join (sortStrings x) sep); intro
  | |- context [concat (?f <$> ?l)] => generalize (concat (f <$> l)); intro
  end; vm_compute; reflexivity.

Lemma allow_line_rules a : allow_line a = concat (print_rule <$> allow_rules a).
Proof. unfold allow_line, allow_rules. destruct (ParseIP a) as [ip|]; [|done]. destruct (To4 ip); same_text. Qed.

Lemma ports_line_rules public p :
  p = Tcp \/ p = Udp -> ports_line public (l4_name p) = concat (print_rule <$> port_rules public p).
Proof.
  intros Hp. unfold ports_line, port_rules. destruct (public_ports (l4_name p) public) as [|t ts]; [done|].
  destruct Hp as [-> | ->]; same_text.
Qed.

Lemma writeIngressChain_print allow public :
  writeIngressChain allow public = print_chain (input_chain allow public).
Proof.
  unfold writeIngressChain, print_chain, input_chain. cbn [c_rules c_name c_policy].
  rewrite !fmap_app, !concat_app, <- (concat_flat_map allow_line) by apply allow_line_rules.
  cbn [flat_map]. rewrite !fmap_app, !concat_app, <- !ports_line_rules by auto.
  generalize (concat (allow_line <$> dedupeSorted allow)). intros lines. open_text.
  generalize (ports_line public "tcp") (ports_line public "udp"). intros. same_text.
Qed.

Lemma writeEgressChain_print eg : writeEgressChain eg = print_chain (output_chain eg).
Proof.
  unfold writeEgressChain, output_chain.
  destruct eg as [e|]; [|same_text].
  destruct (egress_parts (Some e)) as [[[overlay redis] gateway]|]; [|same_text].
  unfold platformPortSet. fold (platform_ports (eg_gamePort e)).
  destruct gateway; same_text.
Qed.

Lemma renderNetPolicy_print ingress allow public eg :
  renderNetPolicy ingress allow public eg =
  print_table ((if ingress then [input_chain allow public] else []) ++ [output_chain eg]).
Proof.
  unfold renderNetPolicy, print_table. rewrite writeEgressChain_print, writeIngressChain_print.
  destruct ingress; cbn [app fmap list_fmap concat]; by rewrite ?append_assoc, ?append_nil_r.
Qed.

(** ** Lemmas: operands *)

Lemma dedupe_fold l seen out :
  (forall x, x ∈ out <-> x ∈ seen) ->
  forall x, x ∈ (fold_left dedupe_step l (seen, out)).2 <->
    x ∈ out \/ x <> "" /\ exists a, a ∈ l /\ x = TrimSpace a.
Proof.
  revert seen out. induction l as [|a l IH]; intros seen out Hs x; simpl.
  { split; [by left|]. intros [?|(_ & a & Ha & _)]; [done|]. by apply elem_of_nil in Ha. }
  destruct (String.eqb_spec (TrimSpace a) "") as [He|He].
  { rewrite IH by done. split; intros [?|(Hx & b & Hb & ->)]; auto; right; split; auto; [exists b; set_solver|].
    apply elem_of_cons in Hb as [->|Hb]; [done|by exists b]. }
  case_bool_decide as Hin.
  { rewrite IH by done. split; intros [?|(Hx & b & Hb & ->)]; auto; [right; split; auto; exists b; set_solver|].
    apply elem_of_cons in Hb as [->|Hb]; [left; by apply Hs|right; split; [done|by exists b]]. }
  rewrite IH by set_solver. rewrite elem_of_app, list_elem_of_singleton. split.
  - intros [[?| ->]|(Hx & b & Hb & ->)]; auto; right; split; auto; [exists a|exists b]; set_solver.
  - intros [?|(Hx & b & Hb & ->)]; auto. apply elem_of_cons in Hb as [->|Hb]; [by left; right|].
    right. split; [done|by exists b].
Qed.

Lemma dedupeSorted_elem x l :
  x ∈ dedupeSorted l <-> x <> "" /\ exists a, a ∈ l /\ x = TrimSpace a.
Proof.
  unfold dedupeSorted, sortStrings. rewrite merge_sort_Permutation, dedupe_fold by set_solver.
  split; [intros [H|H]; [by apply elem_of_nil in H|done]|by right].
Qed.

Lemma port_fold proto l seen out :
  (forall n, n ∈ seen -> Itoa n ∈ out) ->
  forall s, s ∈ (fold_left (port_step proto) l (seen, out)).2 <->
    s ∈ out \/ exists p, p ∈ l /\ pub_proto p = proto /\ pub_port p <> 0 /\ s = Itoa (pub_port p).
Proof.
  revert seen out. induction l as [|p l IH]; intros seen out Hs s; simpl.
  { split; [by left|]. intros [?|(p & Hp & _)]; [done|]. by apply elem_of_nil in Hp. }
  destruct (String.eqb_spec (pub_proto p) proto) as [Hp|Hp]; simpl.
  2: { rewrite IH by done. split; intros [?|(q & Hq & ?)]; auto; [right; exists q; set_solver|].
       apply elem_of_cons in Hq as [->|Hq]; [naive_solver|right; by exists q]. }
  destruct (Z.eqb_spec (pub_port p) 0) as [H0|H0]; simpl.
  { rewrite IH by done. split; intros [?|(q & Hq & ?)]; auto; [right; exists q; set_solver|].
    apply elem_of_cons in Hq as [->|Hq]; [naive_solver|right; by exists q]. }
  case_bool_decide as Hin; simpl.
  { rewrite IH by done. split; intros [?|(q & Hq & Hrest)]; auto; [right; exists q; set_solver|].
    apply elem_of_cons in Hq as [->|Hq]; [|right; by exists q].
    destruct Hrest as (_ & _ & ->). left. by apply Hs. }
  rewrite IH by (intros n; rewrite elem_of_union, elem_of_singleton, elem_of_app;
    intros [-> |?]; [right; by apply list_elem_of_singleton|left; auto]).
  rewrite elem_of_app, list_elem_of_singleton. split.
  - intros [[?| ->]|(q & Hq & ?)]; auto; right; [exists p|exists q]; set_solver.
  - intros [?|(q & Hq & Hrest)]; auto. apply elem_of_cons in Hq as [->|Hq]; [|right; by exists q].
    left. right. naive_solver.
Qed.

Lemma public_ports_elem proto public s :
  s ∈ public_ports proto public <->
  exists p, p ∈ public /\ pub_proto p = proto /\ pub_port p <> 0 /\ s = Itoa (pub_port p).
Proof.
  unfold public_ports. rewrite port_fold by set_solver.
  split; [intros [H|H]; [by apply elem_of_nil in H|done]|by right].
Qed.

(** An address operand matches the address it spells. *)
Lemma addr_in_ip a ip x : ParseIP a = Some ip -> addr_in a x = (x =? ip).
Proof.
  intros H. unfold addr_in, operand_net. rewrite Cut_None, H.
  - simpl. unfold Contains; cbn [net_ip net_bits]. by rewrite !Z.div_1_r.
  - eapply all_chars_impl; [|by eapply ParseIP_chars]. intros c Hc. unfold addr_char in Hc.
    unfold not_char. destruct (Ascii.eqb_spec c "/"); [by subst|done].
Qed.

Lemma net4_string_Cut n : net4_ok n -> Cut "/" (net4_string n) <> None.
Proof.
  intros H. pose proof (ParseCIDR_string n H) as Hp. unfold ParseCIDR in Hp. by destruct (Cut "/" _).
Qed.

Lemma addr_in_net n x : net4_ok n -> addr_in (net4_string n) x = Contains n x.
Proof.
  intros H. unfold addr_in, operand_net. pose proof (net4_string_Cut n H).
  destruct (Cut "/" (net4_string n)); [|done]. by rewrite ParseCIDR_string.
Qed.

Lemma port_in_Itoa port n : 0 <= n <= int64_max -> port_in port (Itoa n) = (port =? n).
Proof.
  intros H. unfold port_in. rewrite Cut_None by (apply Itoa_no_sep; [lia|done]).
  rewrite Atoi_Itoa by (unfold in_int64, int64_min, int64_max in *; lia).
  destruct (Z.eqb_spec port n); [by subst; rewrite bool_decide_true|].
  rewrite bool_decide_false; congruence.
Qed.

Lemma port_in_range port r :
  0 <= r.1 <= r.2 -> r.2 <= int64_max -> port_in port (print_range r) = (r.1 <=? port) && (port <=? r.2).
Proof.
  intros H1 H2. destruct r as [lo hi]; cbn [fst snd] in *. unfold print_range; cbn [fst snd].
  destruct (Z.eqb_spec lo hi) as [->|Hne]; [rewrite port_in_Itoa by lia; lia|].
  unfold port_in. change ("-" ^ Itoa hi)%string with (String "-" (Itoa hi)).
  rewrite Cut_app by (apply Itoa_no_sep; [lia|done]).
  rewrite !Atoi_Itoa by (unfold in_int64, int64_min, int64_max in *; lia). done.
Qed.

(** ** The platform's ports *)

(** A port of the platform that is not a game port. *)
Definition platform_port (game port : Z) : Prop :=
  port = 5432 \/ port = 6379 \/
  platformPortLow <= port <= platformPortHigh /\ port <> game /\ port <> 25565.

(** The loop up to [p]: the closed runs hold what precedes [start], and nothing
    from [start] to [p] is spared. *)
Definition runs_inv (game p : Z) (acc : Z * list (Z * Z)) : Prop :=
  let '(start, parts) := acc in
  platformPortLow <= start <= p /\
  Forall (fun r => platformPortLow <= r.1 <= r.2 /\ r.2 <= platformPortHigh) parts /\
  (forall x, start <= x < p -> x <= platformPortHigh /\ x <> game /\ x <> 25565) /\
  (forall x, (exists r, r ∈ parts /\ r.1 <= x <= r.2) <->
    platformPortLow <= x < start /\ x <= platformPortHigh /\ x <> game /\ x <> 25565).

Lemma runs_step game p acc :
  p <= platformPortHigh + 1 -> runs_inv game p acc -> runs_inv game (p + 1) (port_run_step game acc p).
Proof.
  intros Hp. destruct acc as [start parts]. intros (Hs & Hf & Hopen & Hx). unfold port_run_step.
  destruct ((p <=? platformPortHigh) && negb (p =? game) && negb (p =? 25565)) eqn:E.
  { to_prop. split_and!; try lia; try done. intros x Hxx.
    destruct (decide (x = p)) as [->|]; [lia|]. apply Hopen. lia. }
  assert (Hspared : platformPortHigh < p \/ p = game \/ p = 25565) by (to_prop; lia).
  clear E. unfold runs_inv, platformPortLow, platformPortHigh in *.
  split_and!; try lia.
  - destruct (Z.leb_spec start (p - 1)); [|done]. apply Forall_app. split; [done|].
    constructor; [|done]. simpl. split; [lia|]. specialize (Hopen (p - 1) ltac:(lia)). lia.
  - intros x. destruct (Z.leb_spec start (p - 1)) as [Hle|Hgt].
    + split.
      * intros (r & [Hr|Hr]%elem_of_app & Hrx).
        { specialize (proj1 (Hx x) (ex_intro _ r (conj Hr Hrx))). lia. }
        apply list_elem_of_singleton in Hr as ->. simpl in Hrx. specialize (Hopen x ltac:(lia)). lia.
      * intros (Hr & H1 & H2 & H3). destruct (Z.lt_ge_cases x start).
        { destruct (proj2 (Hx x)) as (r & Hin & Hrx); [lia|]. exists r. rewrite elem_of_app. auto. }
        exists (start, p - 1). rewrite elem_of_app, list_elem_of_singleton. split; [by right|]. simpl. lia.
    + rewrite Hx. split; [lia|]. intros (Hr & H1 & H2 & H3).
      assert (x <> p) by lia. lia.
Qed.

Lemma runs_fold game n p acc :
  p + n <= platformPortHigh + 2 -> 0 <= n -> runs_inv game p acc ->
  runs_inv game (p + n) (fold_left (port_run_step game) (seqZ p n) acc).
Proof.
  intros Hb Hn. revert p acc Hb. pattern n. apply natlike_ind; [| |done].
  { intros p acc _ H. rewrite Z.add_0_r. done. }
  clear n Hn. intros n Hn IH p acc Hb H. rewrite seqZ_cons by lia. cbn [fold_left].
  replace (p + Z.succ n) with (Z.succ p + n) by lia. replace (Z.pred (Z.succ n)) with n by lia.
  apply IH; [lia|]. apply runs_step; [lia|done].
Qed.

Lemma platform_runs_inv game :
  runs_inv game (platformPortHigh + 2)
    (fold_left (port_run_step game)
       (seqZ platformPortLow (platformPortHigh + 1 - platformPortLow + 1)) (platformPortLow, [])).
Proof.
  replace (platformPortHigh + 2) with (platformPortLow + (platformPortHigh + 1 - platformPortLow + 1)) by lia.
  apply runs_fold; [lia|done|]. split_and!; try lia; [done|].
  intros x. split; [intros (r & Hr & _); by apply elem_of_nil in Hr|lia].
Qed.

Lemma platform_ports_exact game port :
  existsb (port_in port) (platform_ports game) = true <-> platform_port game port.
Proof.
  pose proof (platform_runs_inv game) as Hi. unfold platform_ports, platform_runs.
  destruct (fold_left _ _ _) as [start parts]. destruct Hi as (Hs & Hf & Hopen & Hx). cbn [snd].
  assert (Hend : forall x, platformPortLow <= x <= platformPortHigh ->
    x < start \/ start <= x < platformPortHigh + 2) by lia.
  rewrite existsb_app, orb_true_iff. cbn [existsb].
  assert (E1 : port_in port "5432" = (port =? 5432)) by (apply (port_in_Itoa port 5432); done).
  assert (E2 : port_in port "6379" = (port =? 6379)) by (apply (port_in_Itoa port 6379); done).
  rewrite E1, E2, orb_false_r, orb_true_iff, !Z.eqb_eq, existsb_exists. unfold platform_port.
  assert (Hruns : (exists s, In s (print_range <$> parts) /\ port_in port s = true) <->
    exists r, r ∈ parts /\ r.1 <= port <= r.2).
  { rewrite Forall_forall in Hf. assert (Hb : forall r, r ∈ parts ->
      port_in port (print_range r) = (r.1 <=? port) && (port <=? r.2)).
    { intros r Hr. specialize (Hf r Hr). unfold platformPortLow, platformPortHigh in Hf.
      apply port_in_range; unfold int64_max; lia. }
    split.
    - intros (s & (r & -> & Hr)%list_elem_of_In%list_elem_of_fmap & Hp).
      exists r. split; [done|]. rewrite Hb in Hp by done. to_prop. lia.
    - intros (r & Hr & Hp). exists (print_range r).
      split; [by apply list_elem_of_In, list_elem_of_fmap_2|]. rewrite Hb by done. lia. }
  rewrite Hruns, Hx. specialize (Hopen (platformPortHigh + 1)). unfold platformPortLow, platformPortHigh in *. lia.
Qed.

(** ** What the chains do *)

(** The family of a packet is the family of its addresses. *)
Definition pk_ok (p : packet) : Prop :=
  (pk_v4 p = true <-> is_Some (To4 (pk_src p))) /\ (pk_v4 p = true <-> is_Some (To4 (pk_dst p))).

Definition is_icmp (p : packet) : Prop :=
  if pk_v4 p then pk_l4 p = Icmp else pk_l4 p = Icmpv6.

(** The packet goes to a port Docker publishes. *)
Definition to_published (public : list publishedPort) (p : packet) : Prop :=
  exists q, q ∈ public /\ pub_port q <> 0 /\ pk_dport p = pub_port q /\
    (pk_l4 p = Tcp /\ pub_proto q = "tcp" \/ pk_l4 p = Udp /\ pub_proto q = "udp").

Definition ports_ok (public : list publishedPort) : Prop :=
  Forall (fun q => 0 <= pub_port q < 65536) public.

(** A chain of accepts over a policy of drop. *)
Lemma decide_accepts name rules p :
  Forall (fun r => r_verdict r = Accept) rules ->
  decide_packet (mkChain name Drop rules) p = Accept <-> exists r, r ∈ rules /\ eval_rule p r = true.
Proof.
  intros Hf. unfold decide_packet; cbn [c_rules c_policy].
  destruct (find (eval_rule p) rules) as [r|] eqn:E.
  - apply find_some in E as [Hin He]. apply list_elem_of_In in Hin. rewrite Forall_forall in Hf.
    rewrite (Hf r Hin). split; [by exists r|done].
  - split; [done|]. intros (r & Hr & He). apply list_elem_of_In in Hr.
    by rewrite (find_none _ _ E r Hr) in He.
Qed.

Lemma allow_rules_eval l p :
  pk_ok p ->
  (exists r, r ∈ flat_map allow_rules l /\ eval_rule p r = true) <->
  exists a, a ∈ l /\ ParseIP a = Some (pk_src p).
Proof.
  intros [Hsrc _]. split.
  - intros (r & (a & Ha & Hr)%list_elem_of_In%in_flat_map & He). exists a.
    split; [by apply list_elem_of_In|]. unfold allow_rules in Hr. destruct (ParseIP a) as [ip|] eqn:Ep; [|done].
    destruct Hr as [<-|[]]. unfold eval_rule in He. cbn in He. rewrite (addr_in_ip a ip) in He by done.
    to_prop. by subst.
  - intros (a & Ha & Ep). exists (mkRule [Saddr (if To4 (pk_src p) then true else false) a] Accept).
    split.
    + apply list_elem_of_In, in_flat_map. exists a. split; [by apply list_elem_of_In|].
      unfold allow_rules. rewrite Ep. by left.
    + unfold eval_rule. cbn. rewrite (addr_in_ip a (pk_src p)), Z.eqb_refl, !andb_true_r by done.
      apply eqb_true_iff. destruct (To4 (pk_src p)) as [v|] eqn:E4.
      * apply Hsrc. by eexists.
      * destruct (pk_v4 p) eqn:Ev; [|done]. destruct (proj1 Hsrc eq_refl) as [v Hv]. congruence.
Qed.

Lemma port_rules_eval public l p :
  ports_ok public -> l = Tcp \/ l = Udp ->
  (exists r, r ∈ port_rules public l /\ eval_rule p r = true) <->
  exists q, q ∈ public /\ pub_port q <> 0 /\ pk_dport p = pub_port q /\ pk_l4 p = l /\
    pub_proto q = l4_name l.
Proof.
  intros Hok Hl.
  assert (He : (exists s, s ∈ public_ports (l4_name l) public /\ port_in (pk_dport p) s = true) <->
    exists q, q ∈ public /\ pub_port q <> 0 /\ pk_dport p = pub_port q /\ pub_proto q = l4_name l).
  { unfold ports_ok in Hok. rewrite Forall_forall in Hok. split.
    - intros (s & (q & Hq & Hp & H0 & ->)%public_ports_elem & Hin). exists q.
      specialize (Hok q Hq). rewrite port_in_Itoa in Hin by (unfold int64_max; lia). to_prop. auto.
    - intros (q & Hq & H0 & Hd & Hp). exists (Itoa (pub_port q)).
      rewrite public_ports_elem. split; [by exists q|]. specialize (Hok q Hq).
      rewrite port_in_Itoa by (unfold int64_max; lia). lia. }
  assert (Hr : (exists r, r ∈ port_rules public l /\ eval_rule p r = true) <->
    pk_l4 p = l /\ exists s, s ∈ public_ports (l4_name l) public /\ port_in (pk_dport p) s = true).
  { unfold port_rules. destruct (public_ports (l4_name l) public) as [|t ts] eqn:Ep.
    { split; [intros (r & Hr & _); by apply elem_of_nil in Hr|].
      intros (_ & s & Hs & _). by apply elem_of_nil in Hs. }
    rewrite <- Ep. unfold eval_rule. split.
    - intros (r & ->%list_elem_of_singleton & H). cbn in H. to_prop. split; [done|].
      match goal with H : existsb _ _ = true |- _ => apply existsb_exists in H as (s & Hs & Hin) end.
      apply list_elem_of_In in Hs. unfold sortStrings in Hs. rewrite merge_sort_Permutation in Hs. by exists s.
    - intros (Hl4 & s & Hs & Hin). eexists. split; [by apply list_elem_of_singleton|]. cbn.
      rewrite bool_decide_true by done. rewrite andb_true_r. simpl. apply existsb_exists.
      exists s. split; [|done]. apply list_elem_of_In. unfold sortStrings. by rewrite merge_sort_Permutation. }
  rewrite Hr, He. naive_solver.
Qed.

Lemma elem_app_eval (l1 l2 : list rule) p :
  (exists r, r ∈ l1 ++ l2 /\ eval_rule p r = true) <->
  (exists r, r ∈ l1 /\ eval_rule p r = true) \/ (exists r, r ∈ l2 /\ eval_rule p r = true).
Proof. setoid_rewrite elem_of_app. naive_solver. Qed.

Lemma elem_cons_eval r l p :
  (exists r', r' ∈ r :: l /\ eval_rule p r' = true) <->
  eval_rule p r = true \/ (exists r', r' ∈ l /\ eval_rule p r' = true).
Proof. setoid_rewrite elem_of_cons. naive_solver. Qed.

Lemma input_accepts allow public :
  Forall (fun r => r_verdict r = Accept) (c_rules (input_chain allow public)).
Proof.
  cbn [input_chain c_rules app]. repeat (constructor; [done|]). apply Forall_app. split.
  - apply Forall_forall. intros r (a & _ & Hr)%list_elem_of_In%in_flat_map.
    unfold allow_rules in Hr. destruct (ParseIP a); [|done]. by destruct Hr as [<-|[]].
  - apply Forall_forall. intros r (l & _ & Hr)%list_elem_of_In%in_flat_map.
    unfold port_rules in Hr. destruct (public_ports _ _); [done|]. by destruct Hr as [<-|[]].
Qed.

Lemma icmp_eval p :
  is_icmp p <-> eval_rule p (mkRule [IpIcmp] Accept) = true \/ eval_rule p (mkRule [Ip6Icmp] Accept) = true.
Proof.
  unfold is_icmp, eval_rule. cbn. rewrite !andb_true_r.
  destruct (pk_v4 p); cbn; rewrite bool_decide_eq_true; naive_solver.
Qed.

Lemma published_eval public p :
  ports_ok public ->
  to_published public p <-> exists r, r ∈ flat_map (port_rules public) [Tcp; Udp] /\ eval_rule p r = true.
Proof.
  intros Hok. cbn [flat_map]. rewrite !elem_app_eval, !port_rules_eval by auto.
  unfold to_published. cbn [l4_name]. split.
  - intros (q & Hq & H0 & Hd & [[Hl Hn]|[Hl Hn]]); [left|right; left]; exists q; auto.
  - intros [(q & Hq)|[(q & Hq)|(r & Hr & _)]]; [exists q; naive_solver..|]. by apply elem_of_nil in Hr.
Qed.

Lemma input_chain_exact allow public p :
  pk_ok p -> ports_ok public ->
  decide_packet (input_chain allow public) p = Accept <->
    pk_established p = true \/ pk_lo p = true \/ is_icmp p \/
    (exists a, a ∈ allow /\ ParseIP (TrimSpace a) = Some (pk_src p)) \/ to_published public p.
Proof.
  intros Hp Hpub. unfold input_chain. rewrite decide_accepts by apply (input_accepts allow public).
  cbn [app]. rewrite !elem_cons_eval, elem_app_eval, <- published_eval, allow_rules_eval by done.
  rewrite icmp_eval.
  assert (Hd : (exists a, a ∈ dedupeSorted allow /\ ParseIP a = Some (pk_src p)) <->
    exists a, a ∈ allow /\ ParseIP (TrimSpace a) = Some (pk_src p)).
  { setoid_rewrite dedupeSorted_elem. split.
    - intros (a & (H0 & b & Hb & ->) & Ha). by exists b.
    - intros (b & Hb & Ha). exists (TrimSpace b). split; [|done]. split; [|by exists b].
      intros E. rewrite E in Ha. done. }
  rewrite Hd.
  assert (He : eval_rule p (mkRule [CtEstablished] Accept) = pk_established p) by apply andb_true_r.
  assert (Hi : eval_rule p (mkRule [IifLo] Accept) = pk_lo p) by apply andb_true_r.
  rewrite He, Hi. tauto.
Qed.

(** *** Where a server may connect *)

(** fd00:ec2::254 *)
Definition metadata6 : Z := 0xfd000ec2 * 2 ^ 96 + 0x254.

(** The cloud's metadata service: 169.254.0.0/16, and fd00:ec2::254. *)
Definition metadata (ip : Z) : Prop :=
  match To4 ip with
  | Some v => v / 2 ^ 16 = 169 * 256 + 254
  | None => ip = metadata6
  end.

(** 10/8, 172.16/12, 192.168/16 and 100.64/10. *)
Definition private4 (v : Z) : Prop :=
  v / 2 ^ 24 = 10 \/ v / 2 ^ 20 = 172 * 16 + 1 \/ v / 2 ^ 16 = 192 * 256 + 168 \/ v / 2 ^ 22 = 100 * 4 + 1.

(** fc00::/7 and fe80::/10. *)
Definition private6 (ip : Z) : Prop := ip / 2 ^ 121 = 126 \/ ip / 2 ^ 118 = 1018.

Definition tcp_or_udp (p : packet) : Prop := pk_l4 p = Tcp \/ pk_l4 p = Udp.

(** The addresses and ports open to a server that is told about the shared
    network [overlay], the Redis address and the gateway. *)
Definition fenced_reach (e : netEgress) (overlay : IPNet) (redis : Z) (gateway : option Z) (p : packet)
    : Prop :=
  (tcp_or_udp p /\ pk_dport p = 53) \/
  match To4 (pk_dst p) with
  | Some v =>
      (v = redis /\ pk_l4 p = Tcp /\ pk_dport p = eg_redisPort e) \/
      (gateway <> Some v /\
       if Contains overlay (pk_dst p)
       then ~ (tcp_or_udp p /\ platform_port (eg_gamePort e) (pk_dport p))
       else ~ private4 v)
  | None => ~ (private6 (pk_dst p) /\ tcp_or_udp p)
  end.

Definition may_reach (eg : option netEgress) (p : packet) : Prop :=
  ~ metadata (pk_dst p) /\
  match eg, egress_parts eg with
  | Some e, Some (overlay, redis, gateway) =>
      pk_established p = true \/ pk_lo p = true \/ fenced_reach e overlay redis gateway p
  | _, _ => True
  end.

Lemma decide_accept_rule name pol ms rs p :
  decide_packet (mkChain name pol (mkRule ms Accept :: rs)) p = Accept <->
  eval_rule p (mkRule ms Accept) = true \/ decide_packet (mkChain name pol rs) p = Accept.
Proof. unfold decide_packet; cbn [c_rules c_policy find]. destruct (eval_rule p _); naive_solver. Qed.

Lemma decide_drop_rule name pol ms rs p :
  decide_packet (mkChain name pol (mkRule ms Drop :: rs)) p = Accept <->
  ~ eval_rule p (mkRule ms Drop) = true /\ decide_packet (mkChain name pol rs) p = Accept.
Proof. unfold decide_packet; cbn [c_rules c_policy find]. destruct (eval_rule p _); naive_solver. Qed.

(** A prefix of IPv4 addresses, by the leading bits. *)
Lemma addr_in_prefix4 s base k v :
  operand_net s = Some (mkNet (map4 (base * 2 ^ k)) (128 - k)) -> 0 <= k <= 32 -> 0 <= v < 2 ^ 32 ->
  addr_in s (map4 v) = (v / 2 ^ k =? base).
Proof.
  intros E Hk Hv. unfold addr_in. rewrite E. unfold Contains; cbn [net_ip net_bits].
  replace (128 - (128 - k)) with k by lia. unfold map4.
  assert (Hp : 2 ^ 32 = 2 ^ (32 - k) * 2 ^ k) by (rewrite <- Z.pow_add_r by lia; f_equal; lia).
  rewrite Hp, Z.mul_assoc. rewrite !Z.div_add_l by (apply Z.pow_nonzero; lia).
  rewrite Z.div_mul by (apply Z.pow_nonzero; lia).
  destruct (Z.eqb_spec (v / 2 ^ k) base); lia.
Qed.

Lemma addr_in_prefix6 s base k ip :
  operand_net s = Some (mkNet (base * 2 ^ k) (128 - k)) -> 0 <= k ->
  addr_in s ip = (ip / 2 ^ k =? base).
Proof.
  intros E Hk. unfold addr_in. rewrite E. unfold Contains; cbn [net_ip net_bits].
  replace (128 - (128 - k)) with k by lia. by rewrite Z.div_mul by (apply Z.pow_nonzero; lia).
Qed.

Section egress_rules.
Context (p : packet) (Hp : pk_ok p).

Lemma family4 (b : bool) : eqb (pk_v4 p) b = true <-> (b = true <-> is_Some (To4 (pk_dst p))).
Proof. destruct Hp as [_ H]. rewrite eqb_true_iff, <- H. destruct (pk_v4 p), b; intuition congruence. Qed.

Lemma eval_daddr b a v :
eval_rule p (mkRule [Daddr b a] v) = true <->
(b = true <-> is_Some (To4 (pk_dst p))) /\ addr_in a (pk_dst p) = true.
Proof. unfold eval_rule. cbn. by rewrite andb_true_r, andb_true_iff, family4. Qed.

Lemma eval_metadata :
(eval_rule p (mkRule [Daddr true "169.254.0.0/16"] Drop) = true \/
 eval_rule p (mkRule [Daddr false "fd00:ec2::254"] Drop) = true) <-> metadata (pk_dst p).
Proof.
rewrite !eval_daddr. unfold metadata. destruct (To4 (pk_dst p)) as [v|] eqn:E4.
- destruct (map4_To4 _ _ E4) as [-> Hv].
  rewrite (addr_in_prefix4 "169.254.0.0/16" (169 * 256 + 254) 16 v eq_refl) by lia. rewrite Z.eqb_eq.
  assert (is_Some (Some v)) by done. intuition congruence.
- rewrite (addr_in_ip "fd00:ec2::254" metadata6 _ eq_refl), Z.eqb_eq. assert (~ is_Some (@None Z)) by (by intros []). intuition congruence.
Qed.

Lemma eval_private4 v :
To4 (pk_dst p) = Some v ->
eval_rule p (mkRule [DaddrSet true private_nets] Drop) = true <-> private4 v.
Proof.
intros E4. destruct (map4_To4 _ _ E4) as [Ed Hv]. unfold eval_rule, private4.
cbn [r_matches forallb eval_match private_nets existsb]. rewrite andb_true_r, andb_true_iff, family4, Ed.
rewrite (addr_in_prefix4 "10.0.0.0/8" 10 24 v eq_refl), (addr_in_prefix4 "172.16.0.0/12" (172 * 16 + 1) 20 v eq_refl),
  (addr_in_prefix4 "192.168.0.0/16" (192 * 256 + 168) 16 v eq_refl), (addr_in_prefix4 "100.64.0.0/10" (100 * 4 + 1) 22 v eq_refl) by lia.
rewrite orb_false_r, !orb_true_iff, !Z.eqb_eq, <- Ed, E4. assert (is_Some (Some v)) by done. tauto.
Qed.

Lemma eval_private6 :
To4 (pk_dst p) = None ->
eval_rule p (mkRule [DaddrSet false ["fc00::/7"; "fe80::/10"]; L4TcpUdp] Drop) = true <->
private6 (pk_dst p) /\ tcp_or_udp p.
Proof.
intros E4. unfold eval_rule, private6, tcp_or_udp.
cbn [r_matches forallb eval_match existsb]. rewrite andb_true_r, !andb_true_iff, family4.
rewrite (addr_in_prefix6 "fc00::/7" 126 121 _ eq_refl), (addr_in_prefix6 "fe80::/10" 1018 118 _ eq_refl) by lia.
rewrite orb_false_r, !orb_true_iff, !Z.eqb_eq, !bool_decide_eq_true, E4.
assert (~ is_Some (@None Z)) by (by intros []). intuition congruence.
Qed.

Lemma eval_other_family b nets rest v :
(b = true <-> ~ is_Some (To4 (pk_dst p))) -> eval_rule p (mkRule (DaddrSet b nets :: rest) v) = true <-> False.
Proof.
intros H. unfold eval_rule. cbn [r_matches forallb eval_match]. rewrite !andb_true_iff, family4. tauto.
Qed.

Lemma eval_dns :
(eval_rule p (mkRule [Dport Udp 53] Accept) = true \/ eval_rule p (mkRule [Dport Tcp 53] Accept) = true) <->
tcp_or_udp p /\ pk_dport p = 53.
Proof.
unfold eval_rule, tcp_or_udp. cbn [r_matches forallb eval_match].
rewrite !andb_true_r, !andb_true_iff, !bool_decide_eq_true, !Z.eqb_eq. tauto.
Qed.

Lemma eval_host rest ip verdict :
0 <= ip < 2 ^ 32 ->
eval_rule p (mkRule (Daddr true (ip4_string ip) :: rest) verdict) = true <->
To4 (pk_dst p) = Some ip /\ eval_rule p (mkRule rest verdict) = true.
Proof.
intros Hip. unfold eval_rule. cbn [r_matches forallb eval_match].
rewrite !andb_true_iff, family4, (addr_in_ip _ (map4 ip)) by by apply ParseIP_string. rewrite Z.eqb_eq.
split.
- intros ([_ ->] & Hr). by rewrite To4_map4.
- intros [E Hr]. destruct (map4_To4 _ _ E) as [Ed _]. split; [|done]. split; [|done].
  rewrite E. split; [by eexists|done].
Qed.

Lemma eval_overlay n rest verdict :
net4_ok n ->
eval_rule p (mkRule (Daddr true (net4_string n) :: rest) verdict) = true <->
is_Some (To4 (pk_dst p)) /\ Contains n (pk_dst p) = true /\ eval_rule p (mkRule rest verdict) = true.
Proof.
intros Hn. unfold eval_rule. cbn [r_matches forallb eval_match].
rewrite !andb_true_iff, family4, addr_in_net by done. intuition.
Qed.

Lemma eval_platform game :
(eval_rule p (mkRule [DportSet Tcp (platform_ports game)] Drop) = true \/
 eval_rule p (mkRule [DportSet Udp (platform_ports game)] Drop) = true) <->
tcp_or_udp p /\ platform_port game (pk_dport p).
Proof.
unfold eval_rule, tcp_or_udp. cbn [r_matches forallb eval_match].
rewrite !andb_true_r, !andb_true_iff, !bool_decide_eq_true, platform_ports_exact. tauto.
Qed.
End egress_rules.

Lemma egress_parts_ok eg overlay redis gw :
  egress_parts eg = Some (overlay, redis, gw) ->
  net4_ok overlay /\ 0 <= redis < 2 ^ 32 /\ forall g, gw = Some g -> 0 <= g < 2 ^ 32.
Proof.
  assert (H4 : forall s v, ParseIP s ≫= To4 = Some v -> 0 <= v < 2 ^ 32).
  { intros s v H. destruct (ParseIP s); [|done]. by apply map4_To4 in H as []. }
  unfold egress_parts. intros H. destruct eg as [e|]; [|done].
  destruct (ParseCIDR (eg_overlay e)) as [n|] eqn:En; [|done].
  destruct (To4 (net_ip n)) as [w|] eqn:Ew; [|done].
  destruct (ParseIP (eg_redisIP e) ≫= To4) as [r|] eqn:Er; [|done].
  destruct (_ || _); [done|]. simplify_eq.
  split; [by eapply ParseCIDR_net4|]. split; [by eapply H4|]. intros g Hg. by eapply H4.
Qed.

Lemma eval_fences p :
  pk_ok p ->
  (eval_rule p (mkRule [DaddrSet true private_nets] Drop) = true \/
   eval_rule p (mkRule [DaddrSet false ["fc00::/7"; "fe80::/10"]; L4TcpUdp] Drop) = true) <->
  match To4 (pk_dst p) with
  | Some v => private4 v
  | None => private6 (pk_dst p) /\ tcp_or_udp p
  end.
Proof.
  intros Hp. destruct (To4 (pk_dst p)) as [v|] eqn:E4.
  - rewrite (eval_private4 p Hp v E4), (eval_other_family p Hp); [tauto|].
    rewrite E4. split; [done|]. intros H. by destruct H.
  - rewrite (eval_private6 p Hp E4), (eval_other_family p Hp); [tauto|].
    rewrite E4. split; [by intros _ []|done].
Qed.

Lemma output_rest e overlay redis gw p :
  pk_ok p -> net4_ok overlay -> 0 <= redis < 2 ^ 32 -> (forall g, gw = Some g -> 0 <= g < 2 ^ 32) ->
  decide_packet (mkChain "output" Accept
    (match gw with Some gw => [mkRule [Daddr true (ip4_string gw)] Drop] | None => [] end ++
     [mkRule [Daddr true (net4_string overlay); DportSet Tcp (platform_ports (eg_gamePort e))] Drop;
      mkRule [Daddr true (net4_string overlay); DportSet Udp (platform_ports (eg_gamePort e))] Drop;
      mkRule [Daddr true (net4_string overlay)] Accept;
      mkRule [DaddrSet true private_nets] Drop;
      mkRule [DaddrSet false ["fc00::/7"; "fe80::/10"]; L4TcpUdp] Drop])) p = Accept <->
  match To4 (pk_dst p) with
  | Some v => gw <> Some v /\
      if Contains overlay (pk_dst p)
      then ~ (tcp_or_udp p /\ platform_port (eg_gamePort e) (pk_dport p)) else ~ private4 v
  | None => ~ (private6 (pk_dst p) /\ tcp_or_udp p)
  end.
Proof.
  intros Hp Hn Hr Hg.
  assert (Hend : decide_packet (mkChain "output" Accept []) p = Accept <-> True) by done.
  assert (Hnil : eval_rule p (mkRule [] Accept) = true <-> True) by done.
  assert (Hgw : forall rs, decide_packet (mkChain "output" Accept
    (match gw with Some gw => [mkRule [Daddr true (ip4_string gw)] Drop] | None => [] end ++ rs)) p = Accept <->
    ~ (gw <> None /\ To4 (pk_dst p) = gw) /\ decide_packet (mkChain "output" Accept rs) p = Accept).
  { intros rs. destruct gw as [g|]; cbn [app]; [|tauto].
    rewrite decide_drop_rule, (eval_host p Hp) by auto. unfold eval_rule at 1. simpl. intuition congruence. }
  rewrite Hgw, !decide_drop_rule, decide_accept_rule, !decide_drop_rule, Hend.
  rewrite !(eval_overlay p Hp) by done. rewrite Hnil.
  pose proof (eval_platform p (eg_gamePort e)) as Hpl. pose proof (eval_fences p Hp) as Hf.
  destruct (To4 (pk_dst p)) as [v|].
  - assert (is_Some (Some v)) by done. destruct (Contains overlay (pk_dst p)); [|destruct gw]; intuition congruence.
  - assert (~ is_Some (@None Z)) by (by intros []). destruct gw; intuition congruence.
Qed.

Lemma output_chain_exact eg p :
  pk_ok p -> decide_packet (output_chain eg) p = Accept <-> may_reach eg p.
Proof.
  intros Hp. unfold output_chain, may_reach. cbn [app]. rewrite !decide_drop_rule.
  rewrite <- (eval_metadata p Hp).
  assert (Hend : decide_packet (mkChain "output" Accept []) p = Accept) by done.
  destruct eg as [e|]; [|tauto].
  destruct (egress_parts (Some e)) as [[[overlay redis] gw]|] eqn:Eq; [|tauto].
  destruct (egress_parts_ok _ _ _ _ Eq) as (Hn & Hr & Hg). cbn [app].
  rewrite !decide_accept_rule, (output_rest e overlay redis gw p) by done.
  unfold fenced_reach. rewrite (eval_host p Hp) by done. rewrite <- eval_dns.
  assert (He : eval_rule p (mkRule [CtEstablished] Accept) = pk_established p) by apply andb_true_r.
  assert (Hi : eval_rule p (mkRule [OifLo] Accept) = pk_lo p) by apply andb_true_r.
  assert (Hd : eval_rule p (mkRule [Dport Tcp (eg_redisPort e)] Accept) = true <->
               pk_l4 p = Tcp /\ pk_dport p = eg_redisPort e).
  { unfold eval_rule. cbn. by rewrite !andb_true_r, andb_true_iff, bool_decide_eq_true, Z.eqb_eq. }
  rewrite He, Hi, Hd.
  repeat match goal with |- context [eval_rule p ?r = true] => generalize (eval_rule p r = true); intro end.
  clear. destruct (To4 (pk_dst p)) as [v|].
  - assert (Hv : Some v = Some redis <-> v = redis) by (split; congruence). rewrite Hv. intuition.
  - assert (Hv : None = Some redis <-> False) by done. rewrite Hv. intuition.
Qed.

(** The rules a game server gets let in exactly what they should. The
    script the node renders is the table of [input_chain] and [output_chain];
    and that input chain accepts a packet exactly when it belongs to a known
    connection, stays on loopback, is ICMP, comes from an address of the
    allowlist, or goes to a port Docker publishes for that protocol. An entry
    that is not an address lets nobody in. *)
Lemma ingress_exact allow public eg p :
  pk_ok p -> ports_ok public ->
  netPolicyRulesetFor allow public eg = print_table [input_chain allow public; output_chain eg] /\
  (decide_packet (input_chain allow public) p = Accept <->
    pk_established p = true \/ pk_lo p = true \/ is_icmp p \/
    (exists a, a ∈ allow /\ ParseIP (TrimSpace a) = Some (pk_src p)) \/ to_published public p).
Proof.
  intros Hp Hpub. split; [apply (renderNetPolicy_print true)|by apply input_chain_exact].
Qed.

(** A player on the published port, and one on another. *)
Lemma ingress_exact_witness :
  let p := mkPacket true (map4 (8 * 2 ^ 24)) (map4 (10 * 2 ^ 24)) Tcp 25565 false false in
  pk_ok p /\ decide_packet (input_chain ["10.0.0.2"; "nobody"] [mkPub "tcp" 25565]) p = Accept /\
  netPolicyRulesetFor ["10.0.0.2"; "nobody"] [mkPub "tcp" 25565] None =
    print_table [input_chain ["10.0.0.2"; "nobody"] [mkPub "tcp" 25565]; output_chain None].
Proof.
  intros p. assert (Hp : pk_ok p).
  { split; (split; [intros _; vm_compute; eexists; reflexivity|reflexivity]). }
  assert (Hpub : ports_ok [mkPub "tcp" 25565]) by (repeat constructor; simpl; lia).
  destruct (ingress_exact ["10.0.0.2"; "nobody"] [mkPub "tcp" 25565] None p Hp Hpub) as [Hs Hd].
  split; [exact Hp|]. split; [|exact Hs]. apply Hd. right; right; right; right.
  exists (mkPub "tcp" 25565). split; [by left|]. split; [done|]. split; [reflexivity|]. left. split; reflexivity.
Defined.

(** The output chain fences a game server in. Nothing opens a way to the
    cloud's metadata addresses, whatever else is known; with the shared
    network and the Redis address known, a new connection leaves exactly when
    it is DNS, or Redis at its own address and port, or avoids the gateway and
    goes either into the shared network at a port that is not the platform's,
    or outside every private range. A value that does not parse leaves only
    the metadata drop. *)
Lemma egress_exact ingress allow public eg p :
  pk_ok p ->
  renderNetPolicy ingress allow public eg =
    print_table ((if ingress then [input_chain allow public] else []) ++ [output_chain eg]) /\
  (decide_packet (output_chain eg) p = Accept <-> may_reach eg p).
Proof. intros Hp. split; [apply renderNetPolicy_print|by apply output_chain_exact]. Qed.

(** The gateway of the shared network at 10.1.0.1, dialled at port 25510. *)
Lemma egress_exact_witness :
  let eg := Some (mkEgress "10.1.0.0/16" "10.1.0.9" 6379 25565 "10.1.0.1") in
  let p := mkPacket true (map4 (10 * 2 ^ 24)) (map4 (10 * 2 ^ 24 + 2 ^ 16 + 7)) Tcp 25510 false false in
  pk_ok p /\ ~ may_reach eg p.
Proof.
  intros eg p. assert (Hp : pk_ok p).
  { split; (split; [intros _; vm_compute; eexists; reflexivity|reflexivity]). }
  destruct (egress_exact true [] [] eg p Hp) as [_ Hd]. split; [exact Hp|].
  intros H. apply Hd in H. revert H. vm_compute. discriminate.
Defined.
