(* ===== verification/NetPublish.v ===== *)
(** * Publishing the network policy (core/services/netpolicy_publisher.go)

    Core tells every node which of its servers may be reached by which other
    server. The file has the two policies (the proxy's alone on the platform's
    own machines, every server of the same owner on a machine shared between
    owners), the kind of a node they depend on, and the round that writes them
    to Redis, one Redis command at a time so that other files can interleave
    it. A Redis value is [VPolicy] when its text is the JSON of a policy. *)

From Stdlib Require Import Ascii String.
From S2P Require Import Prelude GoStrings.
Open Scope string_scope.
Open Scope list_scope.
Open Scope Z_scope.

Notation length := List.length.

(** ** Servers and nodes *)

(** The fields of models.Server and models.Node the publisher reads. *)
Record Server := mkServer {
  ID : Z; UUID : string; OwnerID : string; NodeID : Z; ProxyID : option Z }.

Record Node := mkNode { n_ID : Z; n_Token : string; n_OwnerID : option string; n_Tags : string }.

Inductive NodeKind := NodeKindPlatform | NodeKindExternal | NodeKindBYON.
#[export] Instance NodeKind_eq_dec : EqDecision NodeKind.
Proof. solve_decision. Defined.

Definition IsExternal (n : Node) : bool :=
  existsb (fun t => (TrimSpace t =? "external")%string) (Split "," (n_Tags n)).

Definition Kind (n : Node) : NodeKind :=
  let owned := match n_OwnerID n with Some o => negb (o =? "")%string | None => false end in
  if owned then NodeKindBYON
  else if IsExternal n then NodeKindExternal else NodeKindPlatform.

(** ** Policies *)

(** Server UUID to the UUIDs of the servers that may reach it. *)
Notation policy := (gmap string (list string)).

Definition uuidByID (servers : list Server) : gmap Z string :=
  fold_left (fun m s => <[ID s := UUID s]> m) servers ∅.
Definition ownerByID (servers : list Server) : gmap Z string :=
  fold_left (fun m s => <[ID s := OwnerID s]> m) servers ∅.

(** What the link of a server to its proxy appends to its list. *)
Definition proxy_peer (uuids owners : gmap Z string) (s : Server) : list string :=
  match ProxyID s with
  | None => []
  | Some pid =>
      let sameOwner := (default "" (owners !! pid) =? OwnerID s)%string in
      match uuids !! pid with
      | Some u => if sameOwner && negb (u =? "")%string && negb (u =? UUID s)%string then [u] else []
      | None => []
      end
  end.

Definition build_step (uuids owners : gmap Z string) (out : gmap Z policy) (s : Server) : gmap Z policy :=
  if NodeID s =? 0 then <[0 := ∅]> out
  else
    let m := default ∅ (out !! NodeID s) in
    let allow := default [] (m !! UUID s) ++ proxy_peer uuids owners s in
    <[NodeID s := <[UUID s := allow]> m]> out.

Definition BuildNodePolicies (servers : list Server) : gmap Z policy :=
  fold_left (build_step (uuidByID servers) (ownerByID servers)) servers ∅.

Definition ownersOnNode (servers : list Server) (nodeID : Z) : Z :=
  Z.of_nat (size (fold_left (fun owners s =>
    if NodeID s =? nodeID then {[OwnerID s]} ∪ owners else owners) servers (∅ : gset string))).

Definition add_peer (acc : gset string * list string) (u : string) : gset string * list string :=
  let '(seen, allow) := acc in
  if negb (u =? "")%string && negb (bool_decide (u ∈ seen)) then ({[u]} ∪ seen, allow ++ [u]) else acc.

(** The list of one server of a shared machine: its proxy first, then the
    servers of its owner there. *)
Definition same_owner_list (base : policy) (servers : list Server) (nodeID : Z) (s : Server) : list string :=
  let acc := fold_left add_peer (default [] (base !! UUID s)) ({[UUID s]}, []) in
  (fold_left (fun acc peer =>
     if (NodeID peer =? nodeID) && (OwnerID peer =? OwnerID s)%string then add_peer acc (UUID peer) else acc)
     servers acc).2.

Definition SameOwnerPolicies (servers : list Server) (nodeID : Z) : policy :=
  let base := default ∅ (BuildNodePolicies servers !! nodeID) in
  fold_left (fun out s =>
    if negb (NodeID s =? nodeID) || (UUID s =? "")%string then out
    else <[UUID s := same_owner_list base servers nodeID s]> out) servers ∅.

(** ** The round *)

Definition NetPolicyKey (nodeToken : string) : string := "dylaris:node:" +:+ nodeToken +:+ ":netpolicy".
Definition NetPolicyTenancyKey (nodeToken : string) : string :=
  "dylaris:node:" +:+ nodeToken +:+ ":netpolicy_tenancy".

Inductive rvalue := VText (s : string) | VPolicy (p : policy).
Notation redis := (gmap string rvalue).

Definition node_shared (servers : list Server) (n : Node) : bool :=
  negb (bool_decide (Kind n = NodeKindPlatform)) && (1 <? ownersOnNode servers (n_ID n)).

Definition node_policy (servers : list Server) (n : Node) : policy :=
  if node_shared servers n || bool_decide (Kind n = NodeKindBYON)
  then SameOwnerPolicies servers (n_ID n)
  else default ∅ (BuildNodePolicies servers !! n_ID n).

(** One node's turn in a round, at the command it sends next. *)
Inductive pub_pc := PubClearFlag | PubSetPolicy | PubSetFlag | PubDone.
Record pub_turn := mkTurn { pt_servers : list Server; pt_node : Node; pt_pc : pub_pc }.

Definition pub_start (servers : list Server) (n : Node) : pub_turn :=
  mkTurn servers n (if node_shared servers n then PubSetPolicy else PubClearFlag).

Definition pub_step (t : pub_turn) (o : outcome) (db : redis) : pub_turn * redis :=
  let n := pt_node t in
  let shared := node_shared (pt_servers t) n in
  let go pc := mkTurn (pt_servers t) n pc in
  let write k v := if applied o then <[k := v]> db else db in
  match pt_pc t with
  | PubClearFlag =>
      (go PubSetPolicy, if applied o then delete (NetPolicyTenancyKey (n_Token n)) db else db)
  | PubSetPolicy =>
      (go (if replied o && shared then PubSetFlag else PubDone),
       write (NetPolicyKey (n_Token n)) (VPolicy (node_policy (pt_servers t) n)))
  | PubSetFlag => (go PubDone, write (NetPolicyTenancyKey (n_Token n)) (VText "shared"))
  | PubDone => (t, db)
  end.

(** The whole turn: at most three commands, [os] their outcomes. *)
Definition publish_node (os : nat -> outcome) (servers : list Server) (n : Node) (db : redis) : redis :=
  let '(t1, db1) := pub_step (pub_start servers n) (os 0%nat) db in
  let '(t2, db2) := pub_step t1 (os 1%nat) db1 in
  (pub_step t2 (os 2%nat) db2).2.

Record NetPolicyPublisher := mkPublisher {
  pb_store : bool; pb_redis : bool; pb_leader : option bool }.

(** [nodes] and [servers] are what the store answers; [os] the outcome of
    each command of each node's turn. *)
Definition RunOnce (p : NetPolicyPublisher) (nodes : option (list Node)) (servers : option (list Server))
    (os : nat -> nat -> outcome) (db : redis) : redis :=
  if negb (pb_redis p) || negb (pb_store p) then db
  else if match pb_leader p with Some l => negb l | None => false end then db
  else match nodes, servers with
       | Some nodes, Some servers =>
           fold_left (fun db '(i, n) => publish_node (os i) servers n db) (imap pair nodes) db
       | _, _ => db
       end.

(** ** Lemmas: the two policies *)

(** The rows of the servers table: id is its key and uuid is unique. *)
Definition rows_ok (servers : list Server) : Prop :=
  NoDup (ID <$> servers) /\ NoDup (UUID <$> servers).

Lemma unique_row {A B} (f : A -> B) (l : list A) x y :
  NoDup (f <$> l) -> x ∈ l -> y ∈ l -> f x = f y -> x = y.
Proof.
  induction l as [|z l IH]; simpl; intros Hnd Hx Hy E; [by apply elem_of_nil in Hx|].
  apply NoDup_cons in Hnd as [Hz Hnd].
  apply elem_of_cons in Hx as [->|Hx]; apply elem_of_cons in Hy as [->|Hy]; auto; exfalso; apply Hz.
  - rewrite E. by apply list_elem_of_fmap_2.
  - rewrite <- E. by apply list_elem_of_fmap_2.
Qed.

Lemma filter_unique {A B} `{EqDecision B} (f : A -> B) (p : A -> bool) (l : list A) x :
  NoDup (f <$> l) -> x ∈ l -> p x = true -> (forall y, y ∈ l -> p y = true -> f y = f x) ->
  List.filter p l = [x].
Proof.
  induction l as [|z l IH]; simpl; intros Hnd Hx Hp Hall; [by apply elem_of_nil in Hx|].
  apply NoDup_cons in Hnd as [Hz Hnd]. apply elem_of_cons in Hx as [->|Hx].
  - rewrite Hp. f_equal. apply filter_none. intros y Hy. apply not_true_is_false. intros Hpy.
    apply Hz.
    rewrite <- (Hall y) by (done || by right). by apply list_elem_of_fmap_2.
  - destruct (p z) eqn:Ez.
    + exfalso. apply Hz. rewrite (Hall z) by (done || by left). by apply list_elem_of_fmap_2.
    + apply IH; auto. intros y Hy. apply Hall. by right.
Qed.

Lemma fold_insert_unique {V} (f : Server -> V) servers (m : gmap Z V) s :
  NoDup (ID <$> servers) -> s ∈ servers ->
  fold_left (fun m s => <[ID s := f s]> m) servers m !! ID s = Some (f s).
Proof.
  intros Hnd Hs. revert m. induction servers as [|x l IH] using rev_ind; intros m; [by apply elem_of_nil in Hs|].
  rewrite fold_left_app. simpl. apply elem_of_app in Hs as [Hs|Hs%list_elem_of_singleton].
  - rewrite fmap_app in Hnd. apply NoDup_app in Hnd as (Hnd & Hx & _).
    rewrite lookup_insert_ne; [by apply IH|]. intros E. apply (Hx (ID s)); [by apply list_elem_of_fmap_2|].
    simpl. rewrite E. by left.
  - subst. by rewrite lookup_insert_eq.
Qed.

Lemma fold_insert_elem {V} (f : Server -> V) servers (m : gmap Z V) i v :
  fold_left (fun m s => <[ID s := f s]> m) servers m !! i = Some v ->
  m !! i = Some v \/ exists s, s ∈ servers /\ ID s = i /\ f s = v.
Proof.
  revert m. induction servers as [|x l IH]; simpl; intros m H; [by left|].
  apply IH in H as [H|(s & Hs & E)]; [|right; exists s; split; [by right|done]].
  destruct (decide (ID x = i)) as [<-|Hne].
  - rewrite lookup_insert_eq in H. simplify_eq. right. exists x. by split; [left|].
  - rewrite lookup_insert_ne in H by done. by left.
Qed.

Lemma proxy_peer_elem servers s u :
  rows_ok servers ->
  u ∈ proxy_peer (uuidByID servers) (ownerByID servers) s <->
  exists q, q ∈ servers /\ ProxyID s = Some (ID q) /\ UUID q = u /\ OwnerID q = OwnerID s /\
    u <> "" /\ u <> UUID s.
Proof.
  intros [Hid _]. unfold proxy_peer. split.
  - destruct (ProxyID s) as [pid|]; [|by intros ?%elem_of_nil].
    destruct (uuidByID servers !! pid) as [v|] eqn:Ev; [|by intros ?%elem_of_nil].
    destruct (_ && _ && _) eqn:E; [|by intros ?%elem_of_nil]. intros ->%list_elem_of_singleton.
    unfold uuidByID in Ev. apply fold_insert_elem in Ev as [Ev|(q & Hq & <- & <-)]; [by rewrite lookup_empty in Ev|].
    unfold ownerByID in E. rewrite fold_insert_unique in E by done. simpl in E. to_prop. exists q. auto 10.
  - intros (q & Hq & -> & <- & Ho & H0 & Hne). unfold uuidByID, ownerByID.
    rewrite !fold_insert_unique by done. simpl.
    rewrite Ho, String.eqb_refl. destruct (String.eqb_spec (UUID q) ""); [done|].
    destruct (String.eqb_spec (UUID q) (UUID s)); [done|]. simpl. by apply list_elem_of_singleton.
Qed.

Definition on (n : Z) (u : string) (s : Server) : bool := (NodeID s =? n) && (UUID s =? u)%string.

Lemma build_fold uuids owners servers n u :
  n <> 0 ->
  default ∅ (fold_left (build_step uuids owners) servers ∅ !! n) !! u =
  match List.filter (on n u) servers with
  | [] => None
  | fs => Some (flat_map (proxy_peer uuids owners) fs)
  end.
Proof.
  intros Hn. induction servers as [|s l IH] using rev_ind; [done|].
  rewrite fold_left_app, filter_snoc. cbn [fold_left]. set (out := fold_left _ l ∅) in *.
  unfold build_step at 1, on at 2. destruct (Z.eqb_spec (NodeID s) 0) as [E0|E0].
  { rewrite lookup_insert_ne by done. destruct (Z.eqb_spec (NodeID s) n); [lia|]. simpl.
    by rewrite app_nil_r. }
  destruct (Z.eqb_spec (NodeID s) n) as [<-|Hne]; simpl.
  2: { rewrite lookup_insert_ne by done. by rewrite app_nil_r. }
  rewrite lookup_insert_eq. simpl. destruct (String.eqb_spec (UUID s) u) as [<-|Hu].
  - rewrite lookup_insert_eq, IH. destruct (List.filter _ l) as [|f fs]; simpl; [by rewrite app_nil_r|].
    by rewrite flat_map_app, <- app_assoc; simpl; rewrite app_nil_r.
  - rewrite lookup_insert_ne by done. by rewrite app_nil_r.
Qed.

Lemma build_lookup servers s :
  rows_ok servers -> s ∈ servers -> NodeID s <> 0 ->
  default ∅ (BuildNodePolicies servers !! NodeID s) !! UUID s =
  Some (proxy_peer (uuidByID servers) (ownerByID servers) s).
Proof.
  intros [_ Hu] Hs Hn. unfold BuildNodePolicies. rewrite build_fold by done.
  rewrite (filter_unique UUID _ _ s); [by simpl; rewrite app_nil_r|done..| |].
  - unfold on. by rewrite Z.eqb_refl, String.eqb_refl.
  - intros y _ Hy. unfold on in Hy. to_prop. done.
Qed.

Lemma build_lookup_inv servers n u l :
  n <> 0 -> default ∅ (BuildNodePolicies servers !! n) !! u = Some l ->
  exists s, s ∈ servers /\ NodeID s = n /\ UUID s = u.
Proof.
  intros Hn. unfold BuildNodePolicies. rewrite build_fold by done.
  destruct (List.filter (on n u) servers) as [|s fs] eqn:E; [done|]. intros _.
  assert (Hs : In s (List.filter (on n u) servers)) by (rewrite E; by left).
  apply filter_In in Hs as [Hs Ho]. unfold on in Ho. to_prop. exists s. rewrite list_elem_of_In. auto.
Qed.

Lemma add_peer_fold l acc x :
  (forall y, y ∈ acc.2 -> y ∈ acc.1) ->
  let r := fold_left add_peer l acc in
  (x ∈ r.2 <-> x ∈ acc.2 \/ (x ∈ l /\ x <> "" /\ x ∉ acc.1)) /\
  (x ∈ r.1 <-> x ∈ acc.1 \/ (x ∈ l /\ x <> "")).
Proof.
  revert acc. induction l as [|u l IH]; intros [seen allow] Hin; cbn [fold_left].
  { simpl. setoid_rewrite elem_of_nil. tauto. }
  unfold add_peer at 2 4. destruct (String.eqb_spec u "") as [->|H0]; cbn [negb andb].
  { destruct (IH (seen, allow) Hin) as [-> ->]. rewrite elem_of_cons. simpl. naive_solver. }
  destruct (bool_decide_reflect (u ∈ seen)) as [Hs|Hs]; cbn [negb andb].
  - destruct (IH (seen, allow) Hin) as [-> ->]. rewrite elem_of_cons. simpl. naive_solver.
  - destruct (IH ({[u]} ∪ seen, allow ++ [u])) as [-> ->]; [set_solver|]. simpl.
    rewrite elem_of_cons, elem_of_app, list_elem_of_singleton, elem_of_union, elem_of_singleton.
    destruct (decide (x = u)) as [->|Hne]; naive_solver.
Qed.

Lemma fold_left_if {A B C} (c : A -> bool) (g : A -> C) (f : B -> C -> B) l b :
  fold_left (fun b x => if c x then f b (g x) else b) l b = fold_left f (g <$> List.filter c l) b.
Proof. revert b. induction l as [|x l IH]; intros b; [done|]. simpl. by destruct (c x); simpl. Qed.

Lemma same_owner_list_elem base servers n s u :
  u ∈ same_owner_list base servers n s <->
  u <> "" /\ u <> UUID s /\
  (u ∈ default [] (base !! UUID s) \/
   exists q, q ∈ servers /\ NodeID q = n /\ OwnerID q = OwnerID s /\ UUID q = u).
Proof.
  unfold same_owner_list.
  rewrite (fold_left_if (fun q => (NodeID q =? n) && (OwnerID q =? OwnerID s)%string) UUID add_peer).
  set (base_l := default [] _). set (own := UUID <$> _).
  assert (Hown : u ∈ own <-> exists q, q ∈ servers /\ NodeID q = n /\ OwnerID q = OwnerID s /\ UUID q = u).
  { unfold own. rewrite list_elem_of_fmap. split.
    - intros (q & -> & [Hq Hc]%list_elem_of_In%filter_In). to_prop. exists q. rewrite list_elem_of_In. auto.
    - intros (q & Hq & Hn & Ho & <-). exists q. split; [done|]. apply list_elem_of_In, filter_In.
      rewrite <- list_elem_of_In, Hn, Ho, Z.eqb_refl, String.eqb_refl. auto. }
  assert (H0 : forall y, y ∈ (({[UUID s]} : gset string), @nil string).2 -> y ∈ ({[UUID s]} : gset string))
    by (intros y Hy; by apply elem_of_nil in Hy).
  rewrite (proj1 (add_peer_fold own _ u ltac:(intros y;
    rewrite (proj1 (add_peer_fold base_l _ y H0)), (proj2 (add_peer_fold base_l _ y H0)); set_solver))).
  rewrite (proj1 (add_peer_fold base_l _ u H0)), (proj2 (add_peer_fold base_l _ u H0)), <- Hown. simpl.
  rewrite elem_of_nil, elem_of_singleton. destruct (decide (u ∈ base_l)); naive_solver.
Qed.

Lemma SameOwner_fold base servers n rest u :
  fold_left (fun out s =>
    if negb (NodeID s =? n) || (UUID s =? "")%string then out
    else <[UUID s := same_owner_list base servers n s]> out) rest (∅ : policy) !! u =
  match last_such (fun s => on n u s && negb (u =? "")%string) rest with
  | Some s => Some (same_owner_list base servers n s)
  | None => None
  end.
Proof.
  induction rest as [|s rest IH] using rev_ind; [done|].
  rewrite fold_left_app, last_such_snoc. simpl. unfold on at 1.
  destruct (Z.eqb_spec (NodeID s) n) as [Hn|Hn]; simpl; [|done].
  destruct (String.eqb_spec (UUID s) "") as [H0|H0]; simpl.
  - destruct (String.eqb_spec (UUID s) u) as [<-|]; simpl; [|done]. rewrite H0 in *. exact IH.
  - destruct (String.eqb_spec (UUID s) u) as [<-|Hne]; simpl.
    + rewrite lookup_insert_eq. by destruct (String.eqb_spec (UUID s) "").
    + by rewrite lookup_insert_ne.
Qed.

Lemma SameOwner_lookup servers n s :
  rows_ok servers -> s ∈ servers -> NodeID s = n -> UUID s <> "" ->
  SameOwnerPolicies servers n !! UUID s =
  Some (same_owner_list (default ∅ (BuildNodePolicies servers !! n)) servers n s).
Proof.
  intros [_ Hu] Hs Hn H0. unfold SameOwnerPolicies. rewrite SameOwner_fold.
  assert (Hon : forall x, x ∈ servers -> on n (UUID s) x && negb (UUID s =? "")%string = true -> x = s).
  { intros x Hx Hc. unfold on in Hc. to_prop. by apply (unique_row UUID servers). }
  rewrite last_such_unique by (intros x y Hx Hy Px Py; by rewrite (Hon x Hx Px), (Hon y Hy Py)).
  destruct (List.find _ servers) as [s'|] eqn:E.
  - apply find_In in E as [Hs' Hc]. by rewrite (Hon s' Hs' Hc).
  - apply find_none with (x := s) in E; [|by apply list_elem_of_In].
    unfold on in E. rewrite Hn, Z.eqb_refl, String.eqb_refl in E. by destruct (String.eqb_spec (UUID s) "").
Qed.

Lemma SameOwner_lookup_inv servers n u l :
  SameOwnerPolicies servers n !! u = Some l ->
  exists s, s ∈ servers /\ NodeID s = n /\ UUID s = u.
Proof.
  unfold SameOwnerPolicies. rewrite SameOwner_fold.
  destruct (last_such _ servers) as [s|] eqn:E; [|done]. intros _. exists s.
  revert E. induction servers as [|x rest IH] using rev_ind; [done|]. rewrite last_such_snoc.
  destruct (_ && _) eqn:Ec.
  - intros [= <-]. unfold on in Ec. to_prop. split; [|done]. apply elem_of_app. right. by left.
  - intros H. destruct (IH H) as (Hs & ?). split; [|done]. apply elem_of_app. by left.
Qed.

(** ** Who may reach a server *)

(** Whether the machine separates along owner lines and not by proxy link. *)
Definition by_owner (servers : list Server) (n : Node) : Prop :=
  Kind n = NodeKindBYON \/ (Kind n <> NodeKindPlatform /\ 1 < ownersOnNode servers (n_ID n)).

(** [q] may reach [s]: its own proxy, and on a machine separated by owner
    every server there of the same owner. *)
Definition may_talk (servers : list Server) (n : Node) (q s : Server) : Prop :=
  q ∈ servers /\ UUID q <> "" /\ UUID q <> UUID s /\ OwnerID q = OwnerID s /\
  (ProxyID s = Some (ID q) \/ (by_owner servers n /\ NodeID q = n_ID n)).

Lemma by_owner_spec servers n :
  by_owner servers n <-> node_shared servers n || bool_decide (Kind n = NodeKindBYON) = true.
Proof.
  unfold by_owner, node_shared. rewrite orb_true_iff, andb_true_iff, negb_true_iff, bool_decide_eq_true,
    bool_decide_eq_false, Z.ltb_lt. tauto.
Qed.

Lemma policy_exact servers n s :
  rows_ok servers -> s ∈ servers -> NodeID s = n_ID n -> n_ID n <> 0 -> UUID s <> "" ->
  exists l, node_policy servers n !! UUID s = Some l /\
    forall u, u ∈ l <-> exists q, may_talk servers n q s /\ UUID q = u.
Proof.
  intros Hok Hs Hn H0 Hu.
  assert (Hb : default ∅ (BuildNodePolicies servers !! n_ID n) !! UUID s =
    Some (proxy_peer (uuidByID servers) (ownerByID servers) s)) by (rewrite <- Hn; apply build_lookup; by rewrite ?Hn).
  unfold node_policy, may_talk. pose proof (by_owner_spec servers n) as Hby.
  destruct (node_shared servers n || _).
  - eexists. split; [by apply SameOwner_lookup|]. intros u.
    rewrite same_owner_list_elem, Hb. simpl. rewrite proxy_peer_elem by done.
    split; [|naive_solver]. intros (Hu0 & Hus & [(q & ?)|(q & ?)]); exists q; naive_solver.
  - eexists. split; [exact Hb|]. intros u. rewrite proxy_peer_elem by done. naive_solver.
Qed.

Lemma policy_only_here servers n u l :
  n_ID n <> 0 -> node_policy servers n !! u = Some l ->
  exists s, s ∈ servers /\ NodeID s = n_ID n /\ UUID s = u.
Proof.
  intros H0. unfold node_policy. destruct (_ || _); [apply SameOwner_lookup_inv|by apply build_lookup_inv].
Qed.

(** ** The keys *)

Lemma NetPolicyKey_inj a b : NetPolicyKey a = NetPolicyKey b -> a = b.
Proof. unfold NetPolicyKey. intros H%append_inj_l. by apply append_inj_r in H. Qed.

Lemma NetPolicyTenancyKey_inj a b : NetPolicyTenancyKey a = NetPolicyTenancyKey b -> a = b.
Proof. unfold NetPolicyTenancyKey. intros H%append_inj_l. by apply append_inj_r in H. Qed.

Lemma keys_differ a b : NetPolicyKey a <> NetPolicyTenancyKey b.
Proof.
  unfold NetPolicyKey, NetPolicyTenancyKey. intros H%append_inj_l.
  change ":netpolicy" with (":netpol" +:+ "icy") in H.
  change ":netpolicy_tenancy" with (":netpolicy_tena" +:+ "ncy") in H.
  rewrite <- !append_assoc in H. by apply append_tail in H.
Qed.

(** ** What a round leaves behind *)

(** The value under the policy key of [n] after its turn, [old] before it,
    [o] the outcome of the write. *)
Definition policy_after (servers : list Server) (n : Node) (o : outcome) (old : option rvalue) : option rvalue :=
  if applied o then Some (VPolicy (node_policy servers n)) else old.

(** The same under the flag key: [o1] and [o2] are the outcomes of the first
    two commands, which are the clearing of the flag and the policy on a
    machine that is not shared, the policy and the flag on one that is. *)
Definition flag_after (servers : list Server) (n : Node) (o1 o2 : outcome) (old : option rvalue) : option rvalue :=
  if node_shared servers n then
    if replied o1 && applied o2 then Some (VText "shared") else old
  else if applied o1 then None else old.

Lemma publish_node_own os servers n db :
  let db' := publish_node os servers n db in
  db' !! NetPolicyKey (n_Token n) =
    policy_after servers n (if node_shared servers n then os 0%nat else os 1%nat) (db !! NetPolicyKey (n_Token n)) /\
  db' !! NetPolicyTenancyKey (n_Token n) =
    flag_after servers n (os 0%nat) (os 1%nat) (db !! NetPolicyTenancyKey (n_Token n)).
Proof.
  pose proof (keys_differ (n_Token n) (n_Token n)) as Hk.
  unfold publish_node, pub_start, policy_after, flag_after.
  destruct (node_shared servers n) eqn:Es; cbn [pub_step pt_pc pt_node pt_servers]; rewrite ?Es.
  - destruct (os 0%nat); cbn [replied applied andb pub_step pt_pc pt_node pt_servers]; rewrite ?Es.
    + destruct (os 1%nat); cbn; rewrite ?Es; cbn;
        rewrite ?lookup_insert_eq, ?lookup_insert_ne, ?lookup_insert_eq, ?lookup_insert_ne by congruence; done.
    + cbn. rewrite lookup_insert_eq, lookup_insert_ne by congruence. done.
    + cbn. done.
  - destruct (os 0%nat), (os 1%nat); cbn; rewrite ?Es; cbn;
      rewrite ?lookup_insert_eq, ?lookup_insert_ne by congruence;
      rewrite ?lookup_delete_ne, ?lookup_delete_eq by congruence; done.
Qed.

Lemma publish_node_frame os servers n db k :
  k <> NetPolicyKey (n_Token n) -> k <> NetPolicyTenancyKey (n_Token n) ->
  publish_node os servers n db !! k = db !! k.
Proof.
  intros H1 H2. unfold publish_node.
  assert (Hs : forall t o d, pt_node t = n -> pt_node (pub_step t o d).1 = n /\ (pub_step t o d).2 !! k = d !! k).
  { intros [l m pc] o d Hm. cbn in Hm. subst m. destruct pc; cbn; split; try done; destruct (applied o); try done;
      rewrite ?lookup_insert_ne, ?lookup_delete_ne by congruence; done. }
  pose proof (Hs (pub_start servers n) (os 0%nat) db eq_refl) as [N1 E1].
  destruct (pub_step (pub_start servers n) (os 0%nat) db) as [t1 d1].
  pose proof (Hs t1 (os 1%nat) d1 N1) as [N2 E2]. destruct (pub_step t1 (os 1%nat) d1) as [t2 d2].
  pose proof (Hs t2 (os 2%nat) d2 N2) as [_ E3]. cbn [snd] in *. congruence.
Qed.

(** Three commands finish every turn. *)
Lemma publish_node_done os servers n db :
  let s1 := pub_step (pub_start servers n) (os 0%nat) db in
  let s2 := pub_step s1.1 (os 1%nat) s1.2 in
  pt_pc (pub_step s2.1 (os 2%nat) s2.2).1 = PubDone.
Proof.
  unfold pub_start. destruct (node_shared servers n) eqn:Es; cbn; rewrite ?Es;
    destruct (os 0%nat), (os 1%nat); cbn; rewrite ?Es; done.
Qed.

Lemma imap_pair_snoc {A} (l : list A) x : imap pair (l ++ [x]) = imap pair l ++ [(length l, x)].
Proof. rewrite imap_app. simpl. by rewrite Nat.add_0_r. Qed.

Lemma round_frame os servers nodes db k :
  (forall n, n ∈ nodes -> k <> NetPolicyKey (n_Token n) /\ k <> NetPolicyTenancyKey (n_Token n)) ->
  fold_left (fun db '(i, n) => publish_node (os i) servers n db) (imap pair nodes) db !! k = db !! k.
Proof.
  induction nodes as [|n l IH] using rev_ind; intros H; [done|].
  rewrite imap_pair_snoc, fold_left_app. cbn [fold_left].
  destruct (H n) as [H1 H2]; [apply elem_of_app; right; by left|].
  rewrite publish_node_frame by done. apply IH. intros m Hm. apply H, elem_of_app. by left.
Qed.

Lemma round_node os servers nodes db i n :
  NoDup (n_Token <$> nodes) -> nodes !! i = Some n ->
  let db' := fold_left (fun db '(i, n) => publish_node (os i) servers n db) (imap pair nodes) db in
  db' !! NetPolicyKey (n_Token n) =
    policy_after servers n (if node_shared servers n then os i 0%nat else os i 1%nat) (db !! NetPolicyKey (n_Token n)) /\
  db' !! NetPolicyTenancyKey (n_Token n) =
    flag_after servers n (os i 0%nat) (os i 1%nat) (db !! NetPolicyTenancyKey (n_Token n)).
Proof.
  induction nodes as [|m l IH] using rev_ind; intros Hnd Hi; [done|].
  rewrite fmap_app in Hnd. apply NoDup_app in Hnd as (Hnd & Hm & _).
  rewrite imap_pair_snoc, fold_left_app. cbn [fold_left].
  apply lookup_app_Some in Hi as [Hi|[Hlen Hi]].
  - assert (Hne : n_Token n <> n_Token m).
    { intros E. apply (Hm (n_Token n)); [apply list_elem_of_fmap_2; by eapply list_elem_of_lookup_2|].
      rewrite E. by left. }
    rewrite !publish_node_frame; [by apply IH|..].
    + intros E. symmetry in E. by apply keys_differ in E.
    + intros E. by apply NetPolicyTenancyKey_inj in E.
    + intros E. by apply NetPolicyKey_inj in E.
    + apply keys_differ.
  - apply list_lookup_singleton_Some in Hi as [Hi ->]. assert (i = length l) as -> by lia.
    assert (Hf : forall k, (k = NetPolicyKey (n_Token n) \/ k = NetPolicyTenancyKey (n_Token n)) ->
      fold_left (fun db '(i, n) => publish_node (os i) servers n db) (imap pair l) db !! k = db !! k).
    { intros k Hk. apply round_frame. intros q Hq.
      assert (Hne : n_Token q <> n_Token n)
        by (intros E; apply (Hm (n_Token q)); [by apply list_elem_of_fmap_2|rewrite E; by left]).
      split; intros E; destruct Hk as [->| ->]; try (by apply keys_differ in E); try (symmetry in E; by apply keys_differ in E);
        try apply NetPolicyKey_inj in E; try apply NetPolicyTenancyKey_inj in E; congruence. }
    rewrite <- !Hf by auto. apply publish_node_own.
Qed.

Definition leading (p : NetPolicyPublisher) : bool :=
  pb_redis p && pb_store p && default true (pb_leader p).

Lemma RunOnce_leading p nodes servers os db :
  leading p = true ->
  RunOnce p (Some nodes) (Some servers) os db =
  fold_left (fun db '(i, n) => publish_node (os i) servers n db) (imap pair nodes) db.
Proof. unfold leading, RunOnce. destruct p as [[] [] [[]|]]; done. Qed.

Lemma RunOnce_idle p nodes servers os db :
  leading p = false \/ nodes = None \/ servers = None -> RunOnce p nodes servers os db = db.
Proof.
  unfold leading, RunOnce. intros H.
  destruct p as [[] [] [[]|]], nodes, servers; cbn in *; try done; naive_solver.
Qed.

(** A round tells every node exactly who may reach its servers. When the
    leader's round writes all of a node's commands, the node's policy has one
    entry for each of its servers and no other; an entry lists the server's
    own proxy when both have one owner, and, on a customer's machine or on an
    external one shared between owners, every other server there of that
    owner; never the server itself and never a server of another owner. The
    tenancy flag is set exactly on machines outside the platform's fleet with
    servers of more than one owner. *)
Lemma RunOnce_publishes p nodes servers os db i n :
  leading p = true -> rows_ok servers -> NoDup (n_Token <$> nodes) ->
  nodes !! i = Some n -> n_ID n <> 0 -> (forall j, os i j = Replied) ->
  let db' := RunOnce p (Some nodes) (Some servers) os db in
  exists pol,
    db' !! NetPolicyKey (n_Token n) = Some (VPolicy pol) /\
    (db' !! NetPolicyTenancyKey (n_Token n) = Some (VText "shared") <->
      Kind n <> NodeKindPlatform /\ 1 < ownersOnNode servers (n_ID n)) /\
    (forall s, s ∈ servers -> NodeID s = n_ID n -> UUID s <> "" ->
      exists l, pol !! UUID s = Some l /\ forall u, u ∈ l <-> exists q, may_talk servers n q s /\ UUID q = u) /\
    (forall u l, pol !! u = Some l -> exists s, s ∈ servers /\ NodeID s = n_ID n /\ UUID s = u).
Proof.
  intros Hl Hok Ht Hi H0 Hos db'. unfold db'. rewrite RunOnce_leading by done.
  destruct (round_node os servers nodes db i n Ht Hi) as [E1 E2]. exists (node_policy servers n).
  rewrite E1, E2. unfold policy_after, flag_after. rewrite !Hos. split; [by destruct (node_shared _ _)|].
  split.
  - unfold node_shared. rewrite <- (bool_decide_eq_false (Kind n = NodeKindPlatform)), <- Z.ltb_lt.
    destruct (bool_decide _), (1 <? _); cbn; intuition congruence.
  - split; [intros; by apply policy_exact|intros; by eapply policy_only_here].
Qed.

(** A proxy and its backend on a platform node, with a stranger beside them. *)
Definition fleet_servers : list Server :=
  [mkServer 1 "proxy" "ann" 7 None; mkServer 2 "lobby" "ann" 7 (Some 1); mkServer 3 "other" "bob" 7 (Some 1)].
Definition fleet_node : Node := mkNode 7 "t7" None "".

Lemma fleet_rows_ok : rows_ok fleet_servers.
Proof. split; apply NoDup_ListNoDup; repeat constructor; simpl; intuition congruence. Qed.

Lemma RunOnce_publishes_witness :
  exists pol, RunOnce (mkPublisher true true (Some true)) (Some [fleet_node]) (Some fleet_servers)
      (fun _ _ => Replied) ∅ !! NetPolicyKey "t7" = Some (VPolicy pol) /\
    exists l, pol !! "other" = Some l /\ "proxy" ∉ l.
Proof.
  destruct (RunOnce_publishes (mkPublisher true true (Some true)) [fleet_node] fleet_servers (fun _ _ => Replied) ∅
    0 fleet_node eq_refl fleet_rows_ok (NoDup_singleton _) eq_refl ltac:(simpl; lia) ltac:(done))
    as (pol & Hp & _ & Hs & _).
  exists pol. split; [exact Hp|].
  destruct (Hs (mkServer 3 "other" "bob" 7 (Some 1))) as (l & El & Hl); [right; right; by left|done|done|].
  exists l. split; [exact El|]. intros (q & (Hq & _ & _ & Ho & _) & Hu)%Hl.
  repeat (apply elem_of_cons in Hq as [->|Hq]; [by simpl in *|]). by apply elem_of_nil in Hq.
Defined.

(** A round that goes wrong stays local. Without the lease, Redis or a
    listing nothing is written; otherwise, whatever each command's outcome,
    the keys of one node depend on that node's commands alone: the policy is
    the new one or the old one, the flag appears only after the policy was
    confirmed written, and no other key changes. *)
Lemma RunOnce_contains_failures p nodes servers os db :
  (leading p = false -> RunOnce p (Some nodes) (Some servers) os db = db) /\
  RunOnce p None (Some servers) os db = db /\ RunOnce p (Some nodes) None os db = db /\
  (leading p = true -> NoDup (n_Token <$> nodes) ->
    let db' := RunOnce p (Some nodes) (Some servers) os db in
    (forall i n, nodes !! i = Some n ->
      db' !! NetPolicyKey (n_Token n) = policy_after servers n
        (if node_shared servers n then os i 0%nat else os i 1%nat) (db !! NetPolicyKey (n_Token n)) /\
      db' !! NetPolicyTenancyKey (n_Token n) =
        flag_after servers n (os i 0%nat) (os i 1%nat) (db !! NetPolicyTenancyKey (n_Token n))) /\
    (forall k, (forall n, n ∈ nodes -> k <> NetPolicyKey (n_Token n) /\ k <> NetPolicyTenancyKey (n_Token n)) ->
      db' !! k = db !! k)).
Proof.
  split; [intros; apply RunOnce_idle; auto|]. split; [apply RunOnce_idle; auto|].
  split; [apply RunOnce_idle; auto|]. intros Hl Ht. cbv zeta. rewrite RunOnce_leading by done. split.
  - intros i n Hi. by apply round_node.
  - intros k Hk. by apply round_frame.
Qed.

(** The policy write of a shared machine fails: its flag is not set. *)
Lemma RunOnce_contains_failures_witness :
  RunOnce (mkPublisher true true None) (Some [mkNode 7 "t7" (Some "ann") ""]) (Some fleet_servers)
    (fun _ _ => Failed) ∅ !! NetPolicyTenancyKey "t7" = None.
Proof.
  destruct (RunOnce_contains_failures (mkPublisher true true None) [mkNode 7 "t7" (Some "ann") ""] fleet_servers
    (fun _ _ => Failed) ∅) as (_ & _ & _ & H).
  destruct (H eq_refl (NoDup_singleton _)) as [H1 _].
  destruct (H1 0%nat (mkNode 7 "t7" (Some "ann") "") eq_refl) as [_ E].
  cbn [n_Token] in E. rewrite E. vm_compute. reflexivity.
Defined.
