(* ===== verification/NetPlan.v ===== *)
(** * Network policy on the node (node/netpolicy_plan.go, netpolicy_reconcile.go)

    One round of the reconciler: the tenancy flag and the policy are read from
    Redis, the addresses of the node, the Link and the peers from Docker, and
    every running game server gets the script NetRules describes. What Redis
    and Docker answer in a round is a [world]; what the node remembers between
    rounds is a [netdm]. A Docker map that is ranged over is the list of its
    values, in any order. *)

From Stdlib Require Import Ascii String.
From S2P Require Import Prelude GoStrings GoNet NetRules NetPublish.
Open Scope string_scope.
Open Scope list_scope.
Open Scope Z_scope.

Notation length := List.length.

(** ** What the node keeps *)

Record policySource := mkSource { ps_policy : policy; ps_seen : bool }.
Definition ps_set (m : policy) : policySource := mkSource m true.

(** Server UUID to why its rules could not be applied. *)
Record netPolicyState := mkState { unpublished : bool; failed : gmap string string; nps_applied : Z }.

(** When the host table was last written (never: [None]) and why it failed. *)
Record hostRulesState := mkHost { hr_last : option Z; hr_problem : string }.

Record netdm := mkDm {
  dm_external : bool; dm_force : bool; dm_hostNet : bool; dm_self : string; dm_game : Z;
  dm_redisAddr : string; dm_viaWarp : bool;
  dm_tenancyShared : bool; dm_src : policySource; dm_separates : bool;
  dm_linkAddrless : bool; dm_netGW : gmap string string; dm_state : netPolicyState;
  dm_host : hostRulesState }.

Definition with_tenancy (st : netdm) (b : bool) : netdm :=
  mkDm (dm_external st) (dm_force st) (dm_hostNet st) (dm_self st) (dm_game st) (dm_redisAddr st) (dm_viaWarp st)
    b (dm_src st) (dm_separates st) (dm_linkAddrless st) (dm_netGW st) (dm_state st) (dm_host st).
Definition with_src (st : netdm) (s : policySource) : netdm :=
  mkDm (dm_external st) (dm_force st) (dm_hostNet st) (dm_self st) (dm_game st) (dm_redisAddr st) (dm_viaWarp st)
    (dm_tenancyShared st) s (dm_separates st) (dm_linkAddrless st) (dm_netGW st) (dm_state st) (dm_host st).
Definition with_separates (st : netdm) (b : bool) : netdm :=
  mkDm (dm_external st) (dm_force st) (dm_hostNet st) (dm_self st) (dm_game st) (dm_redisAddr st) (dm_viaWarp st)
    (dm_tenancyShared st) (dm_src st) b (dm_linkAddrless st) (dm_netGW st) (dm_state st) (dm_host st).
Definition with_addrless (st : netdm) (b : bool) : netdm :=
  mkDm (dm_external st) (dm_force st) (dm_hostNet st) (dm_self st) (dm_game st) (dm_redisAddr st) (dm_viaWarp st)
    (dm_tenancyShared st) (dm_src st) (dm_separates st) b (dm_netGW st) (dm_state st) (dm_host st).
Definition with_netGW (st : netdm) (m : gmap string string) : netdm :=
  mkDm (dm_external st) (dm_force st) (dm_hostNet st) (dm_self st) (dm_game st) (dm_redisAddr st) (dm_viaWarp st)
    (dm_tenancyShared st) (dm_src st) (dm_separates st) (dm_linkAddrless st) m (dm_state st) (dm_host st).
Definition with_state (st : netdm) (s : netPolicyState) : netdm :=
  mkDm (dm_external st) (dm_force st) (dm_hostNet st) (dm_self st) (dm_game st) (dm_redisAddr st) (dm_viaWarp st)
    (dm_tenancyShared st) (dm_src st) (dm_separates st) (dm_linkAddrless st) (dm_netGW st) s (dm_host st).
Definition with_host (st : netdm) (h : hostRulesState) : netdm :=
  mkDm (dm_external st) (dm_force st) (dm_hostNet st) (dm_self st) (dm_game st) (dm_redisAddr st) (dm_viaWarp st)
    (dm_tenancyShared st) (dm_src st) (dm_separates st) (dm_linkAddrless st) (dm_netGW st) (dm_state st) h.

(** ** What the outside answers *)

Inductive rread := RNil | RErr | RVal (v : rvalue).

Record endpoint := mkEp { IPAddress : string; GlobalIPv6Address : string }.
Record port := mkPort { PrivatePort : Z; PublicPort : Z; PortType : string }.
Record summary := mkSummary {
  Names : list string; Image : string; Labels : gmap string string;
  Networks : option (list (option endpoint)); Ports : list port }.
Record ipam := mkIpam { Subnet : string; Gateway : string }.

(** [w_links] and [w_running] are the two container listings of a round,
    [w_now] the clock in seconds, [w_net] the id of the shared network, [w_ipam] its inspection with the
    driver ([inl]: why there is none), [w_identities] the names this node answers to. *)
Record world := mkWorld {
  w_now : Z; w_flag : rread; w_policy : rread;
  w_links : option (list summary); w_running : option (list summary);
  w_identities : list string;
  w_inspect : string -> option (option (list (option endpoint)));
  w_lookup : string -> option (list Z);
  w_net : string + string; w_ipam : string + (list ipam * string);
  w_apply : string -> string -> option string }.

(** ** Redis *)

Definition netPolicyKey (nodeToken : string) : string := "dylaris:node:" +:+ nodeToken +:+ ":netpolicy".
Definition netPolicyTenancyKey (nodeToken : string) : string :=
  "dylaris:node:" +:+ nodeToken +:+ ":netpolicy_tenancy".

(** [connected]: there is a Redis client and a node token. *)
Definition sharedTenancy (connected : bool) (r : rread) (st : netdm) : bool * netdm :=
  let st :=
    if negb connected then st
    else match r with
         | RNil => with_tenancy st false
         | RErr => st
         | RVal v => with_tenancy st (match v with VText s => (s =? "shared")%string | VPolicy _ => false end)
         end in
  (dm_tenancyShared st, st).

Inductive loaded := LErr | LUnpublished | LPolicy (p : policy).

Definition loadNetPolicy (connected : bool) (r : rread) : loaded :=
  if negb connected then LUnpublished
  else match r with
       | RNil => LUnpublished
       | RErr => LErr
       | RVal (VPolicy p) => LPolicy p
       | RVal (VText _) => LErr
       end.

(** ** Addresses *)

Definition networkAddrs (networks : list (option endpoint)) : list string :=
  flat_map (fun ep =>
    match ep with
    | None => []
    | Some ep =>
        (if (IPAddress ep =? "")%string then [] else [IPAddress ep]) ++
        (if (GlobalIPv6Address ep =? "")%string then [] else [GlobalIPv6Address ep])
    end) networks.

Definition containerAddrs (w : world) (name : string) : list string :=
  match w_inspect w name with
  | Some (Some nets) => networkAddrs nets
  | _ => []
  end.

Definition peerAddrs (w : world) (uuids : list string) : list string :=
  flat_map (fun u =>
    let name := "mc_" +:+ u in
    match containerAddrs w name with
    | [] => match w_lookup w name with Some ips => IP_String <$> ips | None => [] end
    | addrs => addrs
    end) uuids.

(** [strings.TrimPrefix(s, "/")] and [strings.Contains]. *)
Definition trim_slash (s : string) : string := match s with String "/" s => s | _ => s end.
Fixpoint contains_str (s sub : string) : bool :=
  HasPrefix s sub || match s with EmptyString => false | String _ s => contains_str s sub end.

Definition roleLabel : string := "com.dylaris.role".
Definition roleLink : string := "link".
Definition linkContainerName : string := "dylaris_link".
Definition ownerLabel : string := "com.dylaris.node".

Definition isLinkContainer (names : list string) (image : string) (labels : gmap string string) : bool :=
  (default "" (labels !! roleLabel) =? roleLink)%string ||
  contains_str image "gateway-link" ||
  existsb (fun n => (trim_slash n =? linkContainerName)%string) names.

(** The addresses of the Links, and how many Links have none. *)
Definition linkContainerAddrs (containers : list summary) : list string * Z :=
  fold_left (fun '(addrs, addrless) c =>
    if negb (isLinkContainer (Names c) (Image c) (Labels c)) then (addrs, addrless)
    else match default [] (networkAddrs <$> Networks c) with
         | [] => (addrs, addrless + 1)
         | got => (addrs ++ got, addrless)
         end) containers ([], 0).

Definition linkAddrs (w : world) (st : netdm) : list string * netdm :=
  match w_links w with
  | None => ([], st)
  | Some containers =>
      let '(addrs, addrless) := linkContainerAddrs containers in
      (addrs, with_addrless st (0 <? addrless))
  end.

(** The first private IPv4 gateway of the network, remembered by its id. *)
Definition private_gateway (c : ipam) : option Z :=
  match ParseIP (Gateway c) ≫= To4 with
  | Some v => if IsPrivate4 v then Some v else None
  | None => None
  end.
Definition networkGateway (w : world) (netID : string) (st : netdm) : option string * netdm :=
  match dm_netGW st !! netID with
  | Some gw => (Some gw, st)
  | None =>
      match w_ipam w with
      | inl _ => (None, st)
      | inr (configs, _) =>
          match omap private_gateway configs with
          | [] => (None, st)
          | v :: _ => (Some (ip4_string v), with_netGW st (<[netID := ip4_string v]> (dm_netGW st)))
          end
      end
  end.

Definition infraPeers (w : world) (st : netdm) : list string * netdm :=
  let own := if (dm_self st =? "")%string then [] else containerAddrs w (dm_self st) in
  let '(links, st) := linkAddrs w st in
  if dm_hostNet st || dm_linkAddrless st then
    match w_net w with
    | inl _ => (own ++ links, st)
    | inr netID =>
        let '(gw, st) := networkGateway w netID st in
        (own ++ links ++ match gw with Some gw => [gw] | None => [] end, st)
    end
  else (own ++ links, st).

(** ** The fence around a server *)

(** The first configuration with an IPv4 subnet: the subnet, the gateway and
    the driver, with the network's id. *)
Definition ipv4_subnet (c : ipam) : option (ipam * IPNet) :=
  match ParseCIDR (Subnet c) with
  | Some n => match To4 (net_ip n) with Some _ => Some (c, n) | None => None end
  | None => None
  end.
Definition sharedNetInfo (w : world) : string + (string * string * string * string) :=
  match w_net w with
  | inl err => inl err
  | inr id =>
      match w_ipam w with
      | inl err => inl ("inspect network: " +:+ err)
      | inr (configs, driver) =>
          match omap ipv4_subnet configs with
          | [] => inl "the shared network has no IPv4 subnet"
          | (c, n) :: _ =>
              let gateway := match ParseIP (Gateway c) ≫= To4 with Some v => ip4_string v | None => "" end in
              inr (id, net4_string n, gateway, driver)
          end
      end
  end.

Definition warpProxyRedisPort : string := "25571".

Definition resolveSidecarRedisAddr (nodeAddr : string) (nodeViaProxy : bool) (gateway : string) : string :=
  if negb nodeViaProxy then nodeAddr
  else if (gateway =? "")%string then "" else gateway +:+ ":" +:+ warpProxyRedisPort.

Definition sidecarRedisAddr (w : world) (netID nodeAddr : string) (st : netdm) : option string * netdm :=
  if dm_viaWarp st then
    match networkGateway w netID st with
    | (None, st) => (None, st)
    | (Some gw, st) => (Some (resolveSidecarRedisAddr nodeAddr true gw), st)
    end
  else (Some (resolveSidecarRedisAddr nodeAddr false ""), st).

(** The address of the Redis host: a literal, or its first IPv4 address. *)
Definition redis_host_ip (w : world) (host : string) : option Z :=
  match ParseIP host with
  | Some ip => Some ip
  | None => match w_lookup w host with
            | None => None
            | Some ips => head (List.filter (fun ip => if To4 ip then true else false) ips)
            end
  end.

Definition egressPolicy (w : world) (st : netdm) : option netEgress * netdm :=
  match sharedNetInfo w with
  | inl _ => (None, st)
  | inr (netID, subnet, gateway, _) =>
      match sidecarRedisAddr w netID (dm_redisAddr st) st with
      | (None, st) => (None, st)
      | (Some addr, st) =>
          (match SplitHostPort addr with
           | None => None
           | Some (host, portStr) =>
               match Atoi portStr with
               | None => None
               | Some p =>
                   match redis_host_ip w host with
                   | None => None
                   | Some ip => Some (mkEgress subnet (IP_String ip) p (dm_game st) gateway)
                   end
               end
           end, st)
      end
  end.

(** ** The table of the host *)

Definition hostRulesTable : string := "dylaris_host".
Definition hostRulesInterval : Z := 5 * 60.
Definition metadataAddr : string := "169.254.169.254".

Definition hostRuleset (subnet : string) (gwbridge : bool) : string :=
  let rules :=
    match ParseCIDR subnet with
    | Some n => match To4 (net_ip n) with
                | Some _ => ["    ip saddr " +:+ net4_string n +:+ " ip daddr " +:+ metadataAddr +:+ " drop" +:+ nl]
                | None => []
                end
    | None => []
    end ++
    (if gwbridge then ["    iifname " +:+ dq +:+ "docker_gwbridge" +:+ dq +:+ " ip daddr " +:+ metadataAddr +:+ " drop" +:+ nl]
     else []) in
  match rules with
  | [] => ""
  | _ => "table inet " +:+ hostRulesTable +:+ nl +:+
         "delete table inet " +:+ hostRulesTable +:+ nl +:+
         "table inet " +:+ hostRulesTable +:+ " {" +:+ nl +:+
         "  chain forward {" +:+ nl +:+
         "    type filter hook forward priority -10; policy accept;" +:+ nl +:+
         concat rules +:+ "  }" +:+ nl +:+ "}" +:+ nl
  end.

Definition host_due (h : hostRulesState) (now : Z) : bool :=
  match hr_last h with
  | None => true
  | Some last => (hostRulesInterval <=? now - last) || negb (hr_problem h =? "")%string
  end.
Definition host_record (now : Z) (err : option string) : hostRulesState := mkHost (Some now) (default "" err).

Definition ensureHostRules (w : world) (st : netdm) : netdm :=
  if negb (host_due (dm_host st) (w_now w)) then st
  else
    let err :=
      match sharedNetInfo w with
      | inl err => Some err
      | inr (_, subnet, _, driver) =>
          let script := hostRuleset subnet ((driver =? "overlay")%string && negb (dm_external st)) in
          if (script =? "")%string then Some "no usable subnet for the servers' network"
          else w_apply w "host" script
      end in
    with_host st (host_record (w_now w) err).

(** ** The round *)

Record netPlan := mkPlan {
  pl_separate : bool; pl_unpublished : bool; pl_noInfra : bool;
  pl_policy : policy; pl_infra : list string; pl_eg : option netEgress }.

(** Whether this machine separates its servers. The flag is read only where
    it decides. *)
Definition plan_tenancy (connected : bool) (flag : rread) (st : netdm) : bool * netdm :=
  if negb (dm_external st) || dm_force st then (true, st) else sharedTenancy connected flag st.

Definition plan_source (connected : bool) (r : rread) (st : netdm) : netdm :=
  match loadNetPolicy connected r with
  | LPolicy p => with_src st (ps_set p)
  | LErr | LUnpublished => st
  end.

Definition plan_rest (w : world) (separate : bool) (st : netdm) : netPlan * netdm :=
  let policy := ps_policy (dm_src st) in
  let haveSource := ps_seen (dm_src st) in
  let st := with_separates st separate in
  if negb separate then (mkPlan false false false policy [] None, st)
  else
    let '(eg, st) := egressPolicy w st in
    if negb haveSource then (mkPlan false true false policy [] eg, st)
    else
      let '(infra, st) := infraPeers w st in
      match infra with
      | [] => (mkPlan false false true policy infra eg, st)
      | _ => (mkPlan true false false policy infra eg, st)
      end.

Definition planNetPolicy (connected : bool) (w : world) (st : netdm) : netPlan * netdm :=
  let '(separate, st) := plan_tenancy connected (w_flag w) st in
  plan_rest w separate (plan_source connected (w_policy w) st).

(** *** One server *)

Record MCContainer := mkMC { mc_UUID : string; mc_ContainerName : string; mc_Published : list publishedPort }.

Definition ownsContainer (labels : gmap string string) (self : list string) : bool :=
  let owner := TrimSpace (default "" (labels !! ownerLabel)) in
  (owner =? "")%string || match self with [] => true | _ => existsb (String.eqb owner) self end.

(** The first name with the prefix decides whether, and as what, a container
    is listed. *)
Definition mc_name (names : list string) : option string :=
  find (fun n => HasPrefix n "mc_") (trim_slash <$> names).

Definition mc_container (self : list string) (c : summary) : option MCContainer :=
  match mc_name (Names c) with
  | None => None
  | Some clean =>
      if ownsContainer (Labels c) self
      then Some (mkMC (drop_str 3 clean) clean
                  ((fun p => mkPub (PortType p) (PrivatePort p)) <$>
                   List.filter (fun p => negb (PublicPort p =? 0)) (Ports c)))
      else None
  end.

Definition ListRunningMCContainers (w : world) : option (list MCContainer) :=
  match w_running w with
  | Some containers => Some (omap (mc_container (w_identities w)) containers)
  | None => None
  end.

(** The addresses of one peer, resolved once per round. *)
Definition peer_cached (w : world) (cache : gmap string (list string)) (peer : string)
    : list string * gmap string (list string) :=
  match cache !! peer with
  | Some addrs => (addrs, cache)
  | None => let addrs := peerAddrs w [peer] in (addrs, <[peer := addrs]> cache)
  end.

Definition allow_list (w : world) (plan : netPlan) (uuid : string) (cache : gmap string (list string))
    : list string * gmap string (list string) :=
  if pl_separate plan then
    fold_left (fun '(allow, cache) peer =>
      let '(addrs, cache) := peer_cached w cache peer in (allow ++ addrs, cache))
      (default [] (pl_policy plan !! uuid)) (pl_infra plan, cache)
  else ([], cache).

Definition errNoInfraAddrs : string := "node and Link have no resolvable address".

(** The script written into a server, the error of the application, and the
    cache. *)
Definition applyPlanned (w : world) (plan : netPlan) (c : MCContainer) (cache : gmap string (list string))
    : string * option string * gmap string (list string) :=
  let '(allow, cache) := allow_list w plan (mc_UUID c) cache in
  let script := renderNetPolicy (pl_separate plan) allow (mc_Published c) (pl_eg plan) in
  (script,
   match w_apply w ("container:" +:+ mc_ContainerName c) script with
   | Some err => Some err
   | None => if pl_noInfra plan then Some errNoInfraAddrs else None
   end, cache).

(** *** All servers *)

Definition shortUUID (u : string) : string := if 8 <? Z.of_nat (String.length u) then substring 0 8 u else u.

Definition recordUnpublished : netPolicyState := mkState true ∅ 0.

(** [failed] never holds a nil error here. *)
Definition recordRound (applied : Z) (failed : gmap string string) : netPolicyState :=
  mkState false (map_imap (fun uuid err => Some (shortUUID uuid +:+ ": " +:+ err)) failed) applied.

(** One turn of the loop: the script of the server is logged. *)
Definition reconcile_step (w : world) (plan : netPlan)
    (acc : Z * gmap string string * gmap string (list string) * list (MCContainer * string)) (c : MCContainer) :=
  let '(applied, failed, cache, log) := acc in
  let '(script, err, cache) := applyPlanned w plan c cache in
  match err with
  | Some err => (applied, <[mc_UUID c := err]> failed, cache, log ++ [(c, script)])
  | None => (applied + 1, failed, cache, log ++ [(c, script)])
  end.

(** The state after a round and the scripts it wrote. *)
Definition reconcileNetPolicy (connected : bool) (w : world) (st : netdm) : netdm * list (MCContainer * string) :=
  let st := ensureHostRules w st in
  let '(plan, st) := planNetPolicy connected w st in
  match ListRunningMCContainers w with
  | None => (st, [])
  | Some containers =>
      let '(applied, failed, _, log) := fold_left (reconcile_step w plan) containers (0, ∅, ∅, []) in
      (with_state st (if pl_unpublished plan then recordUnpublished else recordRound applied failed), log)
  end.

(** *** The gate of a start

    A new server waits for a marker file, which is written after its rules.
    What happens, in order: rules written into a container with the error they
    gave, the kick of a round, the marker (with whether it could be written). *)
Inductive gate_event := GRules (c : MCContainer) (script : string) (err : option string) | GKick | GMarker (ok : bool).

Definition gate_step (w : world) (plan : netPlan) (uuid : string)
    (acc : gmap string (list string) * list gate_event) (c : MCContainer) :=
  let '(cache, evs) := acc in
  if (mc_UUID c =? uuid)%string then
    let '(script, err, cache) := applyPlanned w plan c cache in (cache, evs ++ [GRules c script err])
  else (cache, evs).

(** [rdb]: the reconciler runs on this node. *)
Definition openNetGate (rdb connected : bool) (w : world) (uuid : string) (marker : bool) (st : netdm)
    : netdm * list gate_event :=
  if rdb then
    let '(plan, st) := planNetPolicy connected w st in
    let evs := match ListRunningMCContainers w with
               | None => []
               | Some running => (fold_left (gate_step w plan uuid) running (∅, [])).2
               end in
    (st, evs ++ [GKick; GMarker marker])
  else (st, [GMarker marker]).

(** *** Following the Links *)

Definition linkAddrsKey (addrs : list string) : string := Join (dedupeSorted addrs) ",".

(** One tick of the watch: the key it compares with next, and whether it asks
    for a round. *)
Definition watch_tick (w : world) (last : string) (st : netdm) : string * bool * netdm :=
  let '(addrs, st) := linkAddrs w st in
  let now := linkAddrsKey addrs in
  if (now =? last)%string then (last, false, st) else (now, true, st).

(** *** Taking the rules off *)

Definition dropTableScript (table : string) : string :=
  "table inet " +:+ table +:+ nl +:+ "delete table inet " +:+ table +:+ nl.

(** Switching the policy off: the scripts run, with the namespace each goes
    to, and the servers whose gate is opened. *)
Definition removeNetPolicy (image : string) (w : world) : list (string * string) * list string :=
  if (image =? "")%string then ([], [])
  else
    let running := default [] (ListRunningMCContainers w) in
    (((fun c => ("container:" +:+ mc_ContainerName c, dropTableScript netPolicyTable)) <$> running) ++
     [("host", dropTableScript hostRulesTable)], mc_UUID <$> running).

(** *** What the panel shows *)

(** [entries]: the map of failures in the order the loop meets it. *)
Definition snapshot (st : netPolicyState) (entries : list (string * string)) : Z * Z * string * bool :=
  let '(_, reason) := fold_left (fun '(first, reason) '(uuid, r) =>
    if (first =? "")%string || negb (String.leb first uuid) then (uuid, r) else (first, reason)) entries ("", "") in
  (nps_applied st, Z.of_nat (size (failed st)), reason, unpublished st).

Definition netPolicyNotice (enforced external : bool) (applied failures : Z) (lastReason : string) (unpublished : bool)
    : string :=
  if negb enforced then
    if external then "Not separated: Core reports no servers of more than one owner on this machine (an older Core never does), so they share the Docker network. The cloud metadata address is still blocked. NETPOLICY=on on the node separates them regardless."
    else "Off: no policy is being applied on this node."
  else if unpublished then
    "Waiting: this node has not been sent a policy yet, so its servers accept any other server until it arrives."
  else if failures =? 0 then ""
  else
    let subject := if failures =? 1 then "1 server could not be given its rules and is"
                   else Itoa failures +:+ " servers could not be given their rules and are" in
    "On for " +:+ Itoa applied +:+ ", but " +:+ subject +:+ " reachable from any other server. Error: " +:+ lastReason.

(** ** Lemmas: the cache of peers *)

Definition cache_ok (w : world) (cache : gmap string (list string)) : Prop :=
  forall peer addrs, cache !! peer = Some addrs -> addrs = peerAddrs w [peer].

Definition allow_of (w : world) (plan : netPlan) (uuid : string) : list string :=
  if pl_separate plan then pl_infra plan ++ peerAddrs w (default [] (pl_policy plan !! uuid)) else [].
Definition script_of (w : world) (plan : netPlan) (c : MCContainer) : string :=
  renderNetPolicy (pl_separate plan) (allow_of w plan (mc_UUID c)) (mc_Published c) (pl_eg plan).
Definition err_of (w : world) (plan : netPlan) (c : MCContainer) : option string :=
  match w_apply w ("container:" +:+ mc_ContainerName c) (script_of w plan c) with
  | Some err => Some err
  | None => if pl_noInfra plan then Some errNoInfraAddrs else None
  end.

Lemma peerAddrs_cons w u l : peerAddrs w (u :: l) = peerAddrs w [u] ++ peerAddrs w l.
Proof. unfold peerAddrs. cbn [flat_map]. by rewrite app_nil_r. Qed.

Lemma allow_fold w peers allow cache :
  cache_ok w cache ->
  exists cache', cache_ok w cache' /\
    fold_left (fun '(allow, cache) peer =>
      let '(addrs, cache) := peer_cached w cache peer in (allow ++ addrs, cache)) peers (allow, cache) =
    (allow ++ peerAddrs w peers, cache').
Proof.
  revert allow cache. induction peers as [|u l IH]; intros allow cache Hc; cbn [fold_left].
  { exists cache. split; [done|]. cbn. by rewrite app_nil_r. }
  assert (Hu : exists cache', cache_ok w cache' /\ peer_cached w cache u = (peerAddrs w [u], cache')).
  { unfold peer_cached. destruct (cache !! u) as [a|] eqn:E.
    - exists cache. by rewrite (Hc u a E).
    - eexists. split; [|done]. intros v a. destruct (decide (u = v)) as [<-|Hne].
      + rewrite lookup_insert_eq. by intros [= <-].
      + rewrite lookup_insert_ne by done. apply Hc. }
  destruct Hu as (c1 & Hc1 & ->). destruct (IH (allow ++ peerAddrs w [u]) c1 Hc1) as (c2 & Hc2 & E).
  exists c2. split; [done|]. rewrite E, (peerAddrs_cons w u l). by rewrite app_assoc.
Qed.

Lemma applyPlanned_spec w plan c cache :
  cache_ok w cache ->
  exists cache', cache_ok w cache' /\ applyPlanned w plan c cache = (script_of w plan c, err_of w plan c, cache').
Proof.
  intros Hc. unfold applyPlanned, err_of, script_of, allow_of, allow_list.
  destruct (pl_separate plan); [|by exists cache].
  destruct (allow_fold w (default [] (pl_policy plan !! mc_UUID c)) (pl_infra plan) cache Hc) as (c' & Hc' & ->).
  by exists c'.
Qed.

Lemma gate_fold w plan uuid cs cache evs :
  cache_ok w cache ->
  (fold_left (gate_step w plan uuid) cs (cache, evs)).2 =
  evs ++ ((fun c => GRules c (script_of w plan c) (err_of w plan c)) <$>
          List.filter (fun c => (mc_UUID c =? uuid)%string) cs).
Proof.
  revert cache evs. induction cs as [|c cs IH]; intros cache evs Hc; cbn [fold_left]; [by rewrite app_nil_r|].
  unfold gate_step at 2. cbn [List.filter]. destruct (mc_UUID c =? uuid)%string; [|by apply IH].
  destruct (applyPlanned_spec w plan c cache Hc) as (c1 & Hc1 & ->).
  rewrite IH by done. by rewrite <- app_assoc, fmap_cons.
Qed.

Lemma openNetGate_spec connected w uuid marker st plan st1 cs :
  planNetPolicy connected w st = (plan, st1) -> ListRunningMCContainers w = Some cs ->
  openNetGate true connected w uuid marker st =
  (st1, ((fun c => GRules c (script_of w plan c) (err_of w plan c)) <$>
         List.filter (fun c => (mc_UUID c =? uuid)%string) cs) ++ [GKick; GMarker marker]).
Proof.
  intros Hp Hl. unfold openNetGate. rewrite Hp, Hl. by rewrite gate_fold by (by intros ? ? ?%lookup_empty_Some).
Qed.

Definition fail_step (w : world) (plan : netPlan) (m : gmap string string) (c : MCContainer) : gmap string string :=
  match err_of w plan c with Some e => <[mc_UUID c := e]> m | None => m end.
Definition got_rules (w : world) (plan : netPlan) (c : MCContainer) : bool :=
  if err_of w plan c then false else true.

Lemma reconcile_fold w plan cs a m cache log :
  cache_ok w cache ->
  exists cache', fold_left (reconcile_step w plan) cs (a, m, cache, log) =
    (a + Z.of_nat (length (List.filter (got_rules w plan) cs)), fold_left (fail_step w plan) cs m, cache',
     log ++ ((fun c => (c, script_of w plan c)) <$> cs)).
Proof.
  revert a m cache log. induction cs as [|c cs IH]; intros a m cache log Hc.
  { exists cache. cbn. by rewrite app_nil_r, Z.add_0_r. }
  cbn [fold_left]. unfold reconcile_step at 2.
  destruct (applyPlanned_spec w plan c cache Hc) as (c1 & Hc1 & ->).
  unfold fail_step at 2. cbn [List.filter]. unfold got_rules at 1. destruct (err_of w plan c) as [e|].
  - destruct (IH a (<[mc_UUID c:=e]> m) c1 (log ++ [(c, script_of w plan c)]) Hc1) as (c2 & ->).
    exists c2. rewrite fmap_cons, <- app_assoc. done.
  - destruct (IH (a + 1) m c1 (log ++ [(c, script_of w plan c)]) Hc1) as (c2 & ->).
    exists c2. rewrite fmap_cons, <- app_assoc. cbn [app length]. f_equal. f_equal. f_equal. lia.
Qed.

Lemma fail_fold_lookup w plan cs m c :
  NoDup (mc_UUID <$> cs) -> c ∈ cs -> err_of w plan c <> None ->
  fold_left (fail_step w plan) cs m !! mc_UUID c = err_of w plan c.
Proof.
  intros Hnd Hc He. revert m. induction cs as [|x l IH] using rev_ind; intros m; [by apply elem_of_nil in Hc|].
  rewrite fold_left_app. cbn [fold_left]. rewrite fmap_app in Hnd. apply NoDup_app in Hnd as (Hnd & Hx & _).
  unfold fail_step at 1. apply elem_of_app in Hc as [Hc|Hc%list_elem_of_singleton].
  - assert (Hne : mc_UUID x <> mc_UUID c).
    { intros E. apply (Hx (mc_UUID c)); [by apply list_elem_of_fmap_2|]. cbn. rewrite E. by left. }
    destruct (err_of w plan x); rewrite ?lookup_insert_ne by done; by apply IH.
  - subst x. destruct (err_of w plan c) as [e|]; [by rewrite lookup_insert_eq|done].
Qed.

Lemma fail_fold_inv w plan cs m u e :
  fold_left (fail_step w plan) cs m !! u = Some e ->
  m !! u = Some e \/ exists c, c ∈ cs /\ mc_UUID c = u /\ err_of w plan c <> None.
Proof.
  revert m. induction cs as [|x l IH]; intros m H; cbn [fold_left] in H; [by left|].
  apply IH in H as [H|(c & Hc & ?)]; [|right; exists c; by split; [right|]].
  unfold fail_step in H. destruct (err_of w plan x) as [ex|] eqn:Ex; [|by left].
  destruct (decide (mc_UUID x = u)) as [<-|Hne].
  - right. exists x. split; [by left|]. split; [done|]. by rewrite Ex.
  - rewrite lookup_insert_ne in H by done. by left.
Qed.

Lemma fail_fold_size w plan cs :
  NoDup (mc_UUID <$> cs) ->
  (length (List.filter (got_rules w plan) cs) + size (fold_left (fail_step w plan) cs ∅))%nat = length cs.
Proof.
  induction cs as [|x l IH] using rev_ind; intros Hnd; [done|].
  rewrite fmap_app in Hnd. apply NoDup_app in Hnd as (Hnd & Hx & _). specialize (IH Hnd).
  rewrite fold_left_app, filter_snoc, !length_app. cbn [fold_left length].
  set (m := fold_left _ l ∅) in *. set (k := length (List.filter _ l)) in *.
  unfold fail_step, got_rules. destruct (err_of w plan x) as [e|] eqn:E.
  - assert (Hf : m !! mc_UUID x = None).
    { apply eq_None_not_Some. intros [e' He']. apply fail_fold_inv in He' as [He'|(c & Hc & Ec & _)]; [done|].
      apply (Hx (mc_UUID c)); [by apply list_elem_of_fmap_2|]. cbn. rewrite Ec. by left. }
    rewrite map_size_insert_None by done. cbn [length]. lia.
  - cbn [length]. lia.
Qed.

Lemma recordRound_lookup applied m u :
  failed (recordRound applied m) !! u = (fun err => shortUUID u +:+ ": " +:+ err) <$> m !! u.
Proof. unfold recordRound; cbn. rewrite map_lookup_imap. by destruct (m !! u). Qed.

Lemma recordRound_size applied m : size (failed (recordRound applied m)) = size m.
Proof.
  rewrite <- !size_dom. f_equal. apply set_eq. intros u. rewrite !elem_of_dom, recordRound_lookup.
  by rewrite fmap_is_Some.
Qed.

Lemma notice_empty external applied failures reason :
  netPolicyNotice true external applied failures reason false = "" <-> failures = 0.
Proof.
  unfold netPolicyNotice. cbn [negb]. destruct (Z.eqb_spec failures 0); [done|]. split; [|done].
  change ("On for " +:+ ?x) with (String "O" ("n for " +:+ x)). done.
Qed.

Lemma reconcile_unfold connected w st plan st1 cs :
  planNetPolicy connected w (ensureHostRules w st) = (plan, st1) -> ListRunningMCContainers w = Some cs ->
  reconcileNetPolicy connected w st =
  (with_state st1 (if pl_unpublished plan then recordUnpublished
     else recordRound (Z.of_nat (length (List.filter (got_rules w plan) cs))) (fold_left (fail_step w plan) cs ∅)),
   (fun c => (c, script_of w plan c)) <$> cs).
Proof.
  intros Hp Hl. unfold reconcileNetPolicy. rewrite Hp, Hl.
  destruct (reconcile_fold w plan cs 0 ∅ ∅ []) as (cache & ->); [by intros ? ? ?%lookup_empty_Some|]. done.
Qed.

(** Failing open is loud. After a round on a machine that separates its
    servers and has a policy, every running server has been given its script
    exactly once; the servers whose rules did not apply are exactly the ones
    in the failure map, the two counts add up to the servers there are, and
    the notice for the panel is empty only when every server got its rules. *)
Lemma failures_reported connected w st plan st1 cs entries :
  planNetPolicy connected w (ensureHostRules w st) = (plan, st1) -> ListRunningMCContainers w = Some cs ->
  NoDup (mc_UUID <$> cs) -> pl_unpublished plan = false ->
  let '(st', log) := reconcileNetPolicy connected w st in
  let '(applied, failures, reason, unpub) := snapshot (dm_state st') entries in
  log = (fun c => (c, script_of w plan c)) <$> cs /\
  applied + failures = Z.of_nat (length cs) /\
  (forall c, c ∈ cs -> (is_Some (failed (dm_state st') !! mc_UUID c) <-> is_Some (err_of w plan c))) /\
  (forall external, netPolicyNotice true external applied failures reason unpub = "" <->
    forall c, c ∈ cs -> err_of w plan c = None).
Proof.
  intros Hp Hl Hnd Hu. rewrite (reconcile_unfold _ _ _ _ _ _ Hp Hl), Hu. unfold snapshot.
  destruct (fold_left _ entries _) as [f reason]. cbn [dm_state with_state nps_applied unpublished recordRound].
  pose proof (fail_fold_size w plan cs Hnd) as Hsz.
  set (a := Z.of_nat (length (List.filter _ cs))) in *. set (m := fold_left _ cs ∅) in *.
  assert (Hm : forall c, c ∈ cs -> (is_Some (m !! mc_UUID c) <-> is_Some (err_of w plan c))).
  { intros c Hc. unfold m. split.
    - intros [e He]. apply fail_fold_inv in He as [He|(c' & Hc' & Ec & Hne)]; [done|].
      rewrite <- (unique_row mc_UUID cs c' c) by done. by destruct (err_of w plan c').
    - intros [e He]. rewrite fail_fold_lookup by (done || by rewrite He). by rewrite He. }
  change (mkState false _ a) with (recordRound a m). rewrite recordRound_size.
  split; [done|]. split; [unfold a; lia|]. split.
  - intros c Hc. rewrite recordRound_lookup, fmap_is_Some. by apply Hm.
  - intros external. rewrite notice_empty. split.
    + intros H0 c Hc. destruct (err_of w plan c) eqn:E; [|done]. exfalso.
      assert (Hs : is_Some (m !! mc_UUID c)) by (apply Hm; [done|by rewrite E]).
      destruct Hs as [e He]. assert (size m <> 0%nat); [|lia]. intros E0. apply map_size_empty_iff in E0.
      by rewrite E0, lookup_empty in He.
    + intros Hall. assert (m = ∅) as ->; [|done]. apply map_empty. intros u. apply eq_None_not_Some. intros [e He].
      apply fail_fold_inv in He as [He|(c & Hc & _ & Hne)]; [done|]. by rewrite Hall in Hne.
Qed.

(** A node with one server whose rules apply and one whose do not. *)
Definition lab_world : world :=
  mkWorld 0 RNil (RVal (VPolicy {["a" := ["b"]]})) (Some [])
    (Some [mkSummary ["/mc_a"] "game" ∅ None [mkPort 25565 30000 "tcp"]; mkSummary ["/mc_b"] "game" ∅ None []])
    []
    (fun name => if (name =? "node")%string then Some (Some [Some (mkEp "10.0.0.2" "")])
                 else if (name =? "mc_b")%string then Some (Some [Some (mkEp "10.0.0.4" "")]) else None)
    (fun _ => None) (inl "no network") (inl "no network")
    (fun mode _ => if (mode =? "container:mc_b")%string then Some "helper timed out" else None).
Definition lab_node : netdm :=
  mkDm false false false "node" 25565 "redis:6379" false false (mkSource ∅ false) false false ∅ (mkState false ∅ 0)
    (mkHost None "").

Lemma failures_reported_witness :
  let '(st', log) := reconcileNetPolicy true lab_world lab_node in
  let '(applied, failures, reason, _) := snapshot (dm_state st') [("b", "b: helper timed out")] in
  applied = 1 /\ failures = 1 /\ is_Some (failed (dm_state st') !! "b").
Proof.
  destruct (planNetPolicy true lab_world (ensureHostRules lab_world lab_node)) as [plan st1] eqn:Ep.
  pose proof (failures_reported true lab_world lab_node plan st1
    [mkMC "a" "mc_a" [mkPub "tcp" 25565]; mkMC "b" "mc_b" []] [("b", "b: helper timed out")] Ep eq_refl) as H.
  vm_compute in Ep. injection Ep as <- <-.
  assert (Hnd : NoDup (mc_UUID <$> [mkMC "a" "mc_a" [mkPub "tcp" 25565]; mkMC "b" "mc_b" []])).
  { apply NoDup_ListNoDup. repeat constructor; simpl; intuition congruence. }
  specialize (H Hnd eq_refl).
  destruct (reconcileNetPolicy true lab_world lab_node) as [st' log] eqn:E.
  destruct (snapshot (dm_state st') _) as [[[applied failures] reason] unpub] eqn:Es.
  destruct H as (_ & _ & Hf & _).
  vm_compute in E. injection E as <- <-. vm_compute in Es. injection Es as <- <- <- <-.
  split; [reflexivity|]. split; [reflexivity|].
  apply (Hf (mkMC "b" "mc_b" [])); [right; by left|]. vm_compute. by eexists.
Defined.

(** Where nothing is separated, a failed application is not in the notice. *)
Lemma unseparated_failure_silent external applied failures reason failures' reason' unpub :
  netPolicyNotice false external applied failures reason unpub =
  netPolicyNotice false external applied failures' reason' unpub.
Proof. done. Qed.

(** ** Lemmas: what a plan depends on *)

Definition same_source (st st' : netdm) : Prop :=
  dm_external st' = dm_external st /\ dm_force st' = dm_force st /\
  dm_tenancyShared st' = dm_tenancyShared st /\ dm_src st' = dm_src st.

Lemma same_source_refl st : same_source st st.
Proof. done. Qed.

Lemma networkGateway_source w id st : same_source st (networkGateway w id st).2.
Proof. unfold networkGateway. repeat case_match; done. Qed.

Lemma egressPolicy_source w st : same_source st (egressPolicy w st).2.
Proof.
  unfold egressPolicy, sidecarRedisAddr. destruct (sharedNetInfo w) as [e|[[[id sub] gw] drv]]; [done|].
  destruct (dm_viaWarp st); [|done].
  pose proof (networkGateway_source w id st) as H. by destruct (networkGateway w id st) as [[?|] ?].
Qed.

Lemma infraPeers_source w st : same_source st (infraPeers w st).2.
Proof.
  unfold infraPeers, linkAddrs. set (own := if (dm_self st =? "")%string then [] else _).
  assert (H : forall l st1, same_source st st1 ->
    same_source st (if dm_hostNet st1 || dm_linkAddrless st1 then
      match w_net w with
      | inl _ => (own ++ l, st1)
      | inr netID => let '(gw, st2) := networkGateway w netID st1 in
                      (own ++ l ++ match gw with Some gw => [gw] | None => [] end, st2)
      end else (own ++ l, st1)).2).
  { intros l st1 H1. destruct (_ || _); [|done]. destruct (w_net w) as [e|id]; [done|].
    pose proof (networkGateway_source w id st1) as H2. destruct (networkGateway w id st1) as [gw st2].
    cbn [snd] in *. unfold same_source in *. intuition congruence. }
  destruct (w_links w) as [cs|]; [|by apply H]. destruct (linkContainerAddrs cs) as [addrs n]. by apply H.
Qed.

Lemma ensureHostRules_source w st : same_source st (ensureHostRules w st).
Proof. unfold ensureHostRules. by destruct (negb _). Qed.

(** The plan of a round, by its two inputs from Redis. *)
Lemma plan_rest_spec w separate st :
  let '(plan, st') := plan_rest w separate st in
  dm_separates st' = separate /\ same_source st st' /\
  pl_policy plan = ps_policy (dm_src st) /\
  pl_separate plan = separate && ps_seen (dm_src st) && negb (bool_decide (pl_infra plan = [])) /\
  pl_unpublished plan = separate && negb (ps_seen (dm_src st)) /\
  pl_noInfra plan = separate && ps_seen (dm_src st) && bool_decide (pl_infra plan = []) /\
  (separate && ps_seen (dm_src st) = true ->
    pl_infra plan = (infraPeers w (egressPolicy w (with_separates st separate)).2).1) /\
  pl_eg plan = (if separate then (egressPolicy w (with_separates st separate)).1 else None).
Proof.
  unfold plan_rest. destruct separate; cbn [negb]; [|done].
  pose proof (egressPolicy_source w (with_separates st true)) as H1.
  assert (S1 : dm_separates (egressPolicy w (with_separates st true)).2 = true).
  { unfold egressPolicy, sidecarRedisAddr, networkGateway. repeat case_match; simplify_eq; done. }
  destruct (egressPolicy w (with_separates st true)) as [eg st1]. cbn [fst snd] in *.
  destruct (ps_seen (dm_src st)); cbn [negb andb]; [|done].
  pose proof (infraPeers_source w st1) as H2.
  assert (S2 : dm_separates (infraPeers w st1).2 = true).
  { unfold infraPeers, linkAddrs, networkGateway. repeat case_match; simplify_eq; done. }
  destruct (infraPeers w st1) as [infra st2]. cbn [fst snd] in *.
  unfold same_source in *; cbn in H1.
  destruct infra; cbn [pl_policy pl_separate pl_unpublished pl_noInfra pl_infra pl_eg];
    repeat split; first [done|intuition congruence].
Qed.

(** ** Rounds over time *)

Definition readable (connected : bool) (w : world) : option policy :=
  match loadNetPolicy connected (w_policy w) with LPolicy p => Some p | _ => None end.

Definition last_policy (connected : bool) (ws : list world) : option policy :=
  fold_left (fun acc w => match readable connected w with Some p => Some p | None => acc end) ws None.

Definition run_rounds (connected : bool) (ws : list world) (st : netdm) : netdm :=
  fold_left (fun st w => (reconcileNetPolicy connected w st).1) ws st.

Lemma plan_tenancy_src connected r st : dm_src (plan_tenancy connected r st).2 = dm_src st.
Proof. unfold plan_tenancy, sharedTenancy. repeat case_match; done. Qed.

Lemma plan_src connected w st :
  dm_src (planNetPolicy connected w st).2 =
  match readable connected w with Some p => mkSource p true | None => dm_src st end.
Proof.
  unfold planNetPolicy. pose proof (plan_tenancy_src connected (w_flag w) st) as Ht.
  destruct (plan_tenancy connected (w_flag w) st) as [sep st1]. cbn [snd] in Ht.
  pose proof (plan_rest_spec w sep (plan_source connected (w_policy w) st1)) as H.
  destruct (plan_rest _ _ _) as [plan st2]. destruct H as (_ & (_ & _ & _ & Hs) & _).
  cbn [snd]. rewrite Hs. unfold plan_source, readable. destruct (loadNetPolicy connected (w_policy w)); done.
Qed.

Lemma reconcile_src connected w st :
  dm_src (reconcileNetPolicy connected w st).1 = dm_src (planNetPolicy connected w (ensureHostRules w st)).2.
Proof.
  unfold reconcileNetPolicy. destruct (planNetPolicy connected w (ensureHostRules w st)) as [plan st1].
  destruct (ListRunningMCContainers w); [|done]. by destruct (fold_left _ _ _) as [[[? ?] ?] ?].
Qed.

Lemma run_rounds_src connected ws st :
  dm_src (run_rounds connected ws st) =
  match last_policy connected ws with Some p => mkSource p true | None => dm_src st end.
Proof.
  unfold run_rounds, last_policy. induction ws as [|w ws IH] using rev_ind; [done|].
  rewrite !fold_left_app. cbn [fold_left]. rewrite reconcile_src, plan_src.
  rewrite (proj2 (proj2 (proj2 (ensureHostRules_source w _)))), IH.
  by destruct (readable connected w).
Qed.

(** The rules follow the last policy Core published, and nothing else
    narrows them. Through any rounds of a fresh node, with any reads failing
    or finding nothing: until a policy was read the scripts have no input
    chain at all, and from then on an input chain admits the node's and the
    Link's addresses, at least one of them, and the peers the latest policy
    read names for that server, as they resolve in this round. *)
Lemma rules_follow_last_policy connected ws w st c script :
  ps_seen (dm_src st) = false ->
  (c, script) ∈ (reconcileNetPolicy connected w (run_rounds connected ws st)).2 ->
  exists eg,
    script = print_table [output_chain eg] \/
    exists p infra,
      last_policy connected (ws ++ [w]) = Some p /\ infra <> [] /\
      (exists st', infra = (infraPeers w st').1) /\
      script = print_table
        [input_chain (infra ++ peerAddrs w (default [] (p !! mc_UUID c))) (mc_Published c); output_chain eg].
Proof.
  intros Hfresh Hin. set (st0 := ensureHostRules w (run_rounds connected ws st)) in *.
  destruct (planNetPolicy connected w st0) as [plan st1] eqn:Ep.
  assert (Hlog : script = script_of w plan c).
  { destruct (ListRunningMCContainers w) as [cs|] eqn:El.
    - rewrite (reconcile_unfold _ _ _ _ _ _ Ep El) in Hin. cbn [snd] in Hin.
      apply list_elem_of_fmap in Hin as (c' & [= -> ->] & _). done.
    - unfold reconcileNetPolicy in Hin. fold st0 in Hin. rewrite Ep, El in Hin. by apply elem_of_nil in Hin. }
  subst script. exists (pl_eg plan). unfold script_of, allow_of. rewrite renderNetPolicy_print.
  destruct (pl_separate plan) eqn:Es; [|by left]. right.
  unfold planNetPolicy in Ep. pose proof (plan_tenancy_src connected (w_flag w) st0) as Ht.
  destruct (plan_tenancy connected (w_flag w) st0) as [sep st2]. cbn [snd] in Ht.
  pose proof (plan_rest_spec w sep (plan_source connected (w_policy w) st2)) as H. rewrite Ep in H.
  destruct H as (_ & _ & Hpol & Hsep & _ & _ & Hinf & _). rewrite Es in Hsep. symmetry in Hsep.
  apply andb_prop in Hsep as [Hsep Hne]. apply negb_true_iff, bool_decide_eq_false in Hne.
  assert (Hsrc : dm_src (plan_source connected (w_policy w) st2) =
    match last_policy connected (ws ++ [w]) with Some p => mkSource p true | None => dm_src st end).
  { unfold plan_source, last_policy. rewrite fold_left_app. cbn [fold_left].
    pose proof (run_rounds_src connected ws st) as Hr.
    rewrite <- (proj2 (proj2 (proj2 (ensureHostRules_source w (run_rounds connected ws st))))) in Hr.
    fold st0 in Hr. unfold last_policy in Hr.
    unfold readable at 1. destruct (loadNetPolicy connected (w_policy w)); cbn; rewrite ?Ht; done. }
  rewrite Hsrc in Hpol, Hsep. destruct (last_policy connected (ws ++ [w])) as [p|].
  - exists p, (pl_infra plan). split; [done|]. split; [done|].
    split; [eexists; by apply Hinf; rewrite Hsrc|]. by rewrite Hpol.
  - rewrite Hfresh in Hsep. by rewrite andb_false_r in Hsep.
Qed.

(** A round with a policy, then one that cannot read it. *)
Definition blind_world : world :=
  mkWorld 15 RErr RErr (w_links lab_world) (w_running lab_world) [] (w_inspect lab_world) (w_lookup lab_world)
    (w_net lab_world) (w_ipam lab_world) (w_apply lab_world).

Lemma rules_follow_last_policy_witness :
  exists script eg, (mkMC "a" "mc_a" [mkPub "tcp" 25565], script) ∈
    (reconcileNetPolicy true blind_world (run_rounds true [lab_world] lab_node)).2 /\
    script = print_table [input_chain ["10.0.0.2"; "10.0.0.4"] [mkPub "tcp" 25565]; output_chain eg].
Proof.
  eexists.
  assert (Hin : (mkMC "a" "mc_a" [mkPub "tcp" 25565],
      netPolicyRulesetFor ["10.0.0.2"; "10.0.0.4"] [mkPub "tcp" 25565] None) ∈
    (reconcileNetPolicy true blind_world (run_rounds true [lab_world] lab_node)).2)
    by (apply list_elem_of_In; vm_compute; left; reflexivity).
  destruct (rules_follow_last_policy true [lab_world] blind_world lab_node _ _ eq_refl Hin)
    as (eg & [E|(p & infra & Hl & Hne & Hi & E)]).
  - exfalso. apply (f_equal (String.substring 74 1)) in E. revert E. vm_compute. discriminate.
  - exists None. split; [exact Hin|]. apply (renderNetPolicy_print true).
Defined.
