(* ===== verification/Isolation.v ===== *)
(** * Tenant isolation, end to end

    Core publishes a policy (NetPublish), the node reads it and plans a round
    (NetPlan), and every game server gets a table of rules (NetRules). The
    file composes the three: which packets reach a server after a round of
    Core and a round of the node, in terms of who owns which server. It also
    has the interleaving of Core's writes with the node's two reads. *)

From Stdlib Require Import Ascii String.
From S2P Require Import Prelude GoStrings GoNet NetRules NetPublish NetPlan.
Open Scope string_scope.
Open Scope list_scope.
Open Scope Z_scope.

Notation length := List.length.

(** ** One round of Core, one round of the node *)

Lemma netPolicyKey_same token : netPolicyKey token = NetPolicyKey token.
Proof. done. Qed.
Lemma netPolicyTenancyKey_same token : netPolicyTenancyKey token = NetPolicyTenancyKey token.
Proof. done. Qed.

Definition read_key (db : redis) (k : string) : rread :=
  match db !! k with Some v => RVal v | None => RNil end.

(** A round of Core's leader, and the node it is looked at from. *)
Record core_round := mkCore {
  cr_pub : NetPolicyPublisher; cr_nodes : list Node; cr_servers : list Server;
  cr_os : nat -> nat -> outcome; cr_before : redis; cr_index : nat; cr_node : Node }.

Definition cr_after (r : core_round) : redis :=
  RunOnce (cr_pub r) (Some (cr_nodes r)) (Some (cr_servers r)) (cr_os r) (cr_before r).

(** It led, its commands for that node were answered, and its rows are rows
    of the database. *)
Definition core_ok (r : core_round) : Prop :=
  leading (cr_pub r) = true /\ rows_ok (cr_servers r) /\ NoDup (n_Token <$> cr_nodes r) /\
  cr_nodes r !! cr_index r = Some (cr_node r) /\ n_ID (cr_node r) <> 0 /\
  forall j, cr_os r (cr_index r) j = Replied.

(** The node reads its two keys after that round. *)
Definition node_reads (r : core_round) (w : world) : Prop :=
  w_flag w = read_key (cr_after r) (netPolicyTenancyKey (n_Token (cr_node r))) /\
  w_policy w = read_key (cr_after r) (netPolicyKey (n_Token (cr_node r))).

(** The machines that must separate their servers. *)
Definition must_separate (r : core_round) (st : netdm) : Prop :=
  dm_external st = false \/ dm_force st = true \/
  (Kind (cr_node r) <> NodeKindPlatform /\ 1 < ownersOnNode (cr_servers r) (n_ID (cr_node r))).

(** The addresses of the node and the Links. *)
Definition infra_addrs (w : world) (st : netdm) : list string := (infraPeers w (egressPolicy w st).2).1.

Definition holds (addrs : list string) (ip : Z) : Prop :=
  exists a, a ∈ addrs /\ ParseIP (TrimSpace a) = Some ip.

Definition server_holds (w : world) (s : Server) (ip : Z) : Prop := holds (peerAddrs w [UUID s]) ip.

(** ** Lemmas: what the addresses depend on *)

Definition same_docker (st st' : netdm) : Prop :=
  dm_self st' = dm_self st /\ dm_hostNet st' = dm_hostNet st /\ dm_linkAddrless st' = dm_linkAddrless st /\
  dm_netGW st' = dm_netGW st /\ dm_viaWarp st' = dm_viaWarp st /\ dm_redisAddr st' = dm_redisAddr st /\
  dm_game st' = dm_game st.

Lemma networkGateway_docker w id st st' :
  same_docker st st' ->
  (networkGateway w id st').1 = (networkGateway w id st).1 /\
  same_docker (networkGateway w id st).2 (networkGateway w id st').2.
Proof.
  intros H. pose proof H as (_ & _ & _ & E & _). unfold networkGateway. rewrite E.
  destruct (dm_netGW st !! id); [by split|]. destruct (w_ipam w) as [e|[cs drv]]; [by split|].
  destruct (omap private_gateway cs); [by split|]. split; [done|].
  unfold same_docker in *. cbn. tauto.
Qed.

Lemma egressPolicy_docker w st st' :
  same_docker st st' ->
  (egressPolicy w st').1 = (egressPolicy w st).1 /\ same_docker (egressPolicy w st).2 (egressPolicy w st').2.
Proof.
  intros H. pose proof H as (_ & _ & _ & _ & Ev & Er & Eg). unfold egressPolicy, sidecarRedisAddr.
  destruct (sharedNetInfo w) as [e|[[[id sub] gw] drv]]; [by split|]. rewrite Ev, Er.
  destruct (dm_viaWarp st).
  - destruct (networkGateway_docker w id st st' H) as [E1 H1].
    assert (Hg : dm_game (networkGateway w id st').2 = dm_game (networkGateway w id st).2) by (by apply H1).
    destruct (networkGateway w id st) as [[g|] s1], (networkGateway w id st') as [[g'|] s1']; cbn in *; try done.
    injection E1 as ->. by rewrite Hg.
  - cbn. by rewrite Eg.
Qed.

Lemma infraPeers_docker w st st' : same_docker st st' -> (infraPeers w st').1 = (infraPeers w st).1.
Proof.
  intros H. pose proof H as (Es & Eh & El & _). unfold infraPeers, linkAddrs. rewrite Es.
  assert (Hg : forall own l s s', same_docker s s' ->
    (if dm_hostNet s' || dm_linkAddrless s' then
       match w_net w with
       | inl _ => (own ++ l, s')
       | inr netID => let '(gw, s2) := networkGateway w netID s' in
                       (own ++ l ++ match gw with Some gw => [gw] | None => [] end, s2)
       end else (own ++ l, s')).1 =
    (if dm_hostNet s || dm_linkAddrless s then
       match w_net w with
       | inl _ => (own ++ l, s)
       | inr netID => let '(gw, s2) := networkGateway w netID s in
                       (own ++ l ++ match gw with Some gw => [gw] | None => [] end, s2)
       end else (own ++ l, s)).1 :> list string).
  { intros own l s s' Hs. pose proof Hs as (_ & -> & -> & _). destruct (_ || _); [|done].
    destruct (w_net w) as [e|id]; [done|]. destruct (networkGateway_docker w id s s' Hs) as [E _].
    by destruct (networkGateway w id s), (networkGateway w id s'); cbn in *; subst. }
  destruct (w_links w) as [cs|]; [|by apply Hg]. destruct (linkContainerAddrs cs) as [addrs k].
  apply Hg. unfold same_docker in *. cbn. tauto.
Qed.

Lemma infra_addrs_docker w st st' : same_docker st st' -> infra_addrs w st' = infra_addrs w st.
Proof. intros H. unfold infra_addrs. apply infraPeers_docker. by apply egressPolicy_docker. Qed.

Lemma ensureHostRules_docker w st : same_docker st (ensureHostRules w st).
Proof. unfold ensureHostRules. by destruct (negb _). Qed.

(** ** The plan of that round *)

Lemma core_round_reads r w :
  core_ok r -> node_reads r w ->
  w_policy w = RVal (VPolicy (node_policy (cr_servers r) (cr_node r))) /\
  w_flag w = (if node_shared (cr_servers r) (cr_node r) then RVal (VText "shared") else RNil).
Proof.
  intros (Hl & _ & Ht & Hi & _ & Hos) [Hf Hp]. rewrite Hf, Hp. unfold read_key, cr_after.
  rewrite netPolicyKey_same, netPolicyTenancyKey_same, RunOnce_leading by done.
  destruct (round_node (cr_os r) (cr_servers r) (cr_nodes r) (cr_before r) _ _ Ht Hi) as [-> ->].
  unfold policy_after, flag_after. rewrite !Hos. by destruct (node_shared _ _).
Qed.

Lemma must_separate_tenancy r w st :
  core_ok r -> node_reads r w -> must_separate r st -> (plan_tenancy true (w_flag w) st).1 = true.
Proof.
  intros Hc Hr Hm. destruct (core_round_reads r w Hc Hr) as [_ ->]. unfold plan_tenancy.
  destruct (dm_external st) eqn:Ee; cbn [negb orb]; [|done]. destruct (dm_force st) eqn:Ef; [done|].
  destruct Hm as [Hm|[Hm|[Hk Ho]]]; [congruence..|].
  assert (node_shared (cr_servers r) (cr_node r) = true) as ->; [|done].
  unfold node_shared. rewrite bool_decide_false by done. cbn. lia.
Qed.

Lemma plan_separates r w st :
  core_ok r -> node_reads r w -> must_separate r st -> infra_addrs w st <> [] ->
  let plan := (planNetPolicy true w st).1 in
  pl_separate plan = true /\ pl_policy plan = node_policy (cr_servers r) (cr_node r) /\
  pl_infra plan = infra_addrs w st /\ pl_eg plan = (egressPolicy w st).1.
Proof.
  intros Hc Hr Hm Hne. unfold planNetPolicy.
  pose proof (must_separate_tenancy r w st Hc Hr Hm) as Ht. destruct (core_round_reads r w Hc Hr) as [Hp _].
  assert (Hd : same_docker st (plan_tenancy true (w_flag w) st).2)
    by (unfold plan_tenancy, sharedTenancy; repeat case_match; done).
  destruct (plan_tenancy true (w_flag w) st) as [sep st1]. cbn [fst snd] in *. subst sep.
  set (st2 := plan_source true (w_policy w) st1).
  assert (Hsrc : dm_src st2 = mkSource (node_policy (cr_servers r) (cr_node r)) true)
    by (unfold st2; by rewrite Hp).
  assert (Hd2 : same_docker st (with_separates st2 true)) by (unfold st2; by rewrite Hp).
  pose proof (plan_rest_spec w true st2) as H. destruct (plan_rest w true st2) as [plan st3]. cbn [fst].
  destruct H as (_ & _ & Hpol & Hsep & _ & _ & Hinf & Heg). rewrite Hsrc in *. cbn in Hpol, Hsep, Hinf, Heg.
  specialize (Hinf eq_refl). fold (infra_addrs w (with_separates st2 true)) in Hinf.
  rewrite (infra_addrs_docker w _ _ Hd2) in Hinf.
  rewrite Hsep, Hpol, Hinf, Heg, (proj1 (egressPolicy_docker w _ _ Hd2)). by rewrite bool_decide_false.
Qed.

Lemma peerAddrs_elem w us a : a ∈ peerAddrs w us <-> exists u, u ∈ us /\ a ∈ peerAddrs w [u].
Proof.
  induction us as [|u us IH].
  - split; [by intros ?%elem_of_nil|]. intros (u & Hu & _). by apply elem_of_nil in Hu.
  - rewrite peerAddrs_cons, elem_of_app, IH. setoid_rewrite elem_of_cons. naive_solver.
Qed.

Lemma holds_app l1 l2 ip : holds (l1 ++ l2) ip <-> holds l1 ip \/ holds l2 ip.
Proof.
  unfold holds. split.
  - intros (a & [Ha|Ha]%elem_of_app & E); [left|right]; by exists a.
  - intros [(a & Ha & E)|(a & Ha & E)]; exists a; (split; [apply elem_of_app; auto|done]).
Qed.

Lemma holds_peers w us ip : holds (peerAddrs w us) ip <-> exists u, u ∈ us /\ holds (peerAddrs w [u]) ip.
Proof.
  unfold holds. split.
  - intros (a & (u & Hu & Ha)%peerAddrs_elem & E). exists u. split; [done|]. by exists a.
  - intros (u & Hu & a & Ha & E). exists a. split; [apply peerAddrs_elem; by exists u|done].
Qed.

(** A packet that opens a connection from outside, to no published port. *)
Definition unsolicited (c : MCContainer) (p : packet) : Prop :=
  pk_established p = false /\ pk_lo p = false /\ ~ is_icmp p /\ ~ to_published (mc_Published c) p.

Lemma script_of_round connected w st c script :
  (c, script) ∈ (reconcileNetPolicy connected w st).2 ->
  script = script_of w (planNetPolicy connected w (ensureHostRules w st)).1 c.
Proof.
  intros Hin. destruct (planNetPolicy connected w (ensureHostRules w st)) as [plan st1] eqn:Ep. cbn [fst].
  destruct (ListRunningMCContainers w) as [cs|] eqn:El.
  - rewrite (reconcile_unfold _ _ _ _ _ _ Ep El) in Hin. cbn [snd] in Hin.
    by apply list_elem_of_fmap in Hin as (c' & [= -> ->] & _).
  - unfold reconcileNetPolicy in Hin. rewrite Ep, El in Hin. by apply elem_of_nil in Hin.
Qed.

Lemma server_rules r w st c s script :
  core_ok r -> node_reads r w -> must_separate r st -> infra_addrs w st <> [] ->
  s ∈ cr_servers r -> NodeID s = n_ID (cr_node r) -> UUID s <> "" -> mc_UUID c = UUID s ->
  (c, script) ∈ (reconcileNetPolicy true w st).2 ->
  exists allow,
    script = print_table [input_chain allow (mc_Published c); output_chain (egressPolicy w st).1] /\
    forall ip, holds allow ip <->
      holds (infra_addrs w st) ip \/
      exists q, may_talk (cr_servers r) (cr_node r) q s /\ server_holds w q ip.
Proof.
  intros Hc Hr Hm Hne Hs Hn Hu Ec Hin. apply script_of_round in Hin. subst script.
  pose proof (ensureHostRules_docker w st) as Hd.
  destruct (plan_separates r w (ensureHostRules w st) Hc Hr) as (Hsep & Hpol & Hinf & Heg).
  { unfold must_separate. destruct (ensureHostRules_source w st) as (-> & -> & _). exact Hm. }
  { by rewrite (infra_addrs_docker w _ _ Hd). }
  rewrite (infra_addrs_docker w _ _ Hd) in Hinf. rewrite (proj1 (egressPolicy_docker w _ _ Hd)) in Heg.
  set (plan := (planNetPolicy true w (ensureHostRules w st)).1) in *.
  unfold script_of, allow_of. rewrite Hsep, Hpol, Hinf, Heg, Ec, renderNetPolicy_print.
  destruct Hc as (_ & Hok & _ & _ & H0 & _).
  destruct (policy_exact (cr_servers r) (cr_node r) s Hok Hs Hn H0 Hu) as (l & El & Hl). rewrite El.
  eexists. split; [done|]. intros ip. unfold server_holds. cbn [default from_option id].
  rewrite holds_app, holds_peers. apply or_iff_compat_l. split.
  - intros (u & (q & Hq & <-)%Hl & Ha). by exists q.
  - intros (q & Hq & Ha). exists (UUID q). split; [apply Hl; by exists q|done].
Qed.


(** C2: Tenants are kept apart. After a round of Core that published its policy
    and a round of the node that read it and knows an address of its own or of
    a Link, on a platform node and on every
    external or customer's machine with servers of more than one owner: of any
    packet whose source is an address neither of the node nor of a Link, and of
    no server of this server's owner, the table in the server's namespace
    accepts exactly what is part of a connection the server opened, what comes
    in on its loopback, ICMP, and what goes to a port the server publishes to
    everyone. Everything else from another tenant is dropped. *)
Theorem tenants_isolated r w st c s script p :
  core_ok r -> node_reads r w -> must_separate r st -> infra_addrs w st <> [] ->
  s ∈ cr_servers r -> NodeID s = n_ID (cr_node r) -> UUID s <> "" -> mc_UUID c = UUID s ->
  (c, script) ∈ (reconcileNetPolicy true w st).2 ->
  pk_ok p -> ports_ok (mc_Published c) ->
  ~ holds (infra_addrs w st) (pk_src p) ->
  (forall q, q ∈ cr_servers r -> server_holds w q (pk_src p) -> OwnerID q <> OwnerID s) ->
  exists allow,
    script = print_table [input_chain allow (mc_Published c); output_chain (egressPolicy w st).1] /\
    (decide_packet (input_chain allow (mc_Published c)) p = Accept <->
      pk_established p = true \/ pk_lo p = true \/ is_icmp p \/ to_published (mc_Published c) p).
Proof.
  intros Hc Hr Hm Hne Hs Hn Hu Ec Hin Hp Hports Hinf Hown.
  destruct (server_rules r w st c s script) as (allow & Escr & Hallow); try done.
  exists allow. split; [done|]. rewrite input_chain_exact by done.
  assert (Hno : ~ holds allow (pk_src p)).
  { intros [Ha|(q & Hq & Ha)]%Hallow; [done|]. destruct Hq as (Hq & _ & _ & Ho & _). by apply (Hown q Hq Ha). }
  unfold holds in Hno. tauto.
Qed.

(** ** The metadata address and the fence *)

Lemma script_metadata w plan c p :
  pk_ok p -> metadata (pk_dst p) ->
  exists pre eg, script_of w plan c = print_table (pre ++ [output_chain eg]) /\
    decide_packet (output_chain eg) p = Drop.
Proof.
  intros Hp Hm. unfold script_of. rewrite renderNetPolicy_print. eexists _, (pl_eg plan). split; [done|].
  destruct (decide_packet _ p) eqn:E; [|done]. apply output_chain_exact in E; [|done]. by destruct E.
Qed.

(** No game server reaches the cloud's metadata service. Whatever Core
    has published, whatever Redis and Docker answer, every script a round
    writes and every script written at a server's start has an output chain
    that drops every packet to the metadata addresses; and at a start the
    marker that lets the server process run comes after the script. *)
Lemma metadata_blocked connected w st uuid marker p :
  pk_ok p -> metadata (pk_dst p) ->
  (forall c script, (c, script) ∈ (reconcileNetPolicy connected w st).2 ->
    exists pre eg, script = print_table (pre ++ [output_chain eg]) /\ decide_packet (output_chain eg) p = Drop) /\
  exists rules post, (openNetGate true connected w uuid marker st).2 = rules ++ post /\
    (forall ok, GMarker ok ∉ rules) /\ post = [GKick; GMarker marker] /\
    forall c cs, ListRunningMCContainers w = Some cs -> c ∈ cs -> mc_UUID c = uuid ->
      exists script err, GRules c script err ∈ rules /\
        exists pre eg, script = print_table (pre ++ [output_chain eg]) /\ decide_packet (output_chain eg) p = Drop.
Proof.
  intros Hp Hm. split.
  { intros c script Hin. rewrite (script_of_round connected w st c script Hin). by apply script_metadata. }
  destruct (planNetPolicy connected w st) as [plan st1] eqn:Ep.
  destruct (ListRunningMCContainers w) as [cs|] eqn:El.
  - rewrite (openNetGate_spec _ _ _ _ _ _ _ _ Ep El). cbn [snd]. eexists _, _. split; [done|].
    split; [by intros ok (c & ? & _)%list_elem_of_fmap|]. split; [done|].
    intros c cs' [= <-] Hc Hu. exists (script_of w plan c), (err_of w plan c). split; [|by apply script_metadata].
    apply list_elem_of_fmap. exists c. split; [done|]. apply list_elem_of_In, filter_In.
    split; [by apply list_elem_of_In|]. by rewrite Hu, String.eqb_refl.
  - unfold openNetGate. rewrite Ep, El. exists [], [GKick; GMarker marker]. split; [done|].
    split; [by intros ok ?%elem_of_nil|]. done.
Qed.

(** The egress values the node works out can all be written into the chain,
    so a server on a separating machine gets the whole fence. *)
Lemma egress_known w st eg id sub gw drv v :
  sharedNetInfo w = inr (id, sub, gw, drv) -> (egressPolicy w st).1 = Some eg ->
  ParseIP (eg_redisIP eg) = Some (map4 v) -> 0 <= v < 2 ^ 32 -> 1 <= eg_redisPort eg <= 65535 ->
  exists overlay, net4_string overlay = sub /\ net4_ok overlay /\
    egress_parts (Some eg) = Some (overlay, v, ParseIP gw ≫= To4).
Proof.
  intros Hs He Hr Hv Hport. unfold egressPolicy in He. rewrite Hs in He.
  assert (Esub : eg_overlay eg = sub /\ eg_gateway eg = gw).
  { destruct (sidecarRedisAddr w id (dm_redisAddr st) st) as [[addr|] st1]; [|done]. cbn [fst] in He.
    repeat case_match; simplify_eq; done. }
  destruct Esub as [Esub Egw]. unfold sharedNetInfo in Hs. destruct (w_net w) as [|id']; [done|].
  destruct (w_ipam w) as [|[cfgs drv']]; [done|].
  destruct (omap ipv4_subnet cfgs) as [|[c net] rest] eqn:Eo; [done|]. injection Hs as -> Es _ _.
  assert (Hn : net4_ok net).
  { assert (Hin : (c, net) ∈ omap ipv4_subnet cfgs) by (rewrite Eo; by left).
    apply list_elem_of_omap in Hin as (c' & _ & Hc). unfold ipv4_subnet in Hc.
    destruct (ParseCIDR (Subnet c')) as [m|] eqn:Em; [|done]. destruct (To4 (net_ip m)) as [x|] eqn:Ex; [|done].
    injection Hc as <- <-. by eapply ParseCIDR_net4. }
  exists net. split; [done|]. split; [done|]. unfold egress_parts. rewrite Esub, <- Es, ParseCIDR_string by done.
  destruct Hn as (_ & [x Hx] & _). rewrite Hx, Hr. cbn [mbind option_bind]. rewrite To4_map4 by done.
  rewrite Egw. destruct (Z.ltb_spec (eg_redisPort eg) 1); [lia|]. by destruct (Z.ltb_spec 65535 (eg_redisPort eg)); [lia|].
Qed.

(** On a separating machine whose shared network and Redis are IPv4, a
    server is fenced in: after the rounds of Core and the node, its script
    has an output chain under which a new connection leaves only as
    [fenced_reach] says, with the network's own subnet and gateway in it. *)
Lemma server_fenced r w st c script id sub gw drv eg v p :
  core_ok r -> node_reads r w -> must_separate r st -> infra_addrs w st <> [] ->
  sharedNetInfo w = inr (id, sub, gw, drv) -> (egressPolicy w st).1 = Some eg ->
  ParseIP (eg_redisIP eg) = Some (map4 v) -> 0 <= v < 2 ^ 32 -> 1 <= eg_redisPort eg <= 65535 ->
  (c, script) ∈ (reconcileNetPolicy true w st).2 ->
  pk_ok p -> pk_established p = false -> pk_lo p = false ->
  exists pre overlay, net4_string overlay = sub /\
    script = print_table (pre ++ [output_chain (Some eg)]) /\
    (decide_packet (output_chain (Some eg)) p = Accept <->
      ~ metadata (pk_dst p) /\ fenced_reach eg overlay v (ParseIP gw ≫= To4) p).
Proof.
  intros Hc Hr Hm Hne Hnet Heg Hip Hv Hport Hin Hp He Hlo.
  destruct (egress_known w st eg id sub gw drv v Hnet Heg Hip Hv Hport) as (overlay & Hsub & _ & Hparts).
  pose proof (ensureHostRules_docker w st) as Hd.
  destruct (plan_separates r w (ensureHostRules w st) Hc Hr) as (_ & _ & _ & Hpeg).
  { unfold must_separate. destruct (ensureHostRules_source w st) as (-> & -> & _). exact Hm. }
  { by rewrite (infra_addrs_docker w _ _ Hd). }
  rewrite (proj1 (egressPolicy_docker w _ _ Hd)), Heg in Hpeg.
  rewrite (script_of_round true w st c script Hin). unfold script_of. rewrite Hpeg, renderNetPolicy_print.
  eexists _, overlay. split; [done|]. split; [done|]. rewrite output_chain_exact by done.
  unfold may_reach. rewrite Hparts, He, Hlo. intuition congruence.
Qed.

(** *** Examples

    An operator's machine at home with two servers of Ann's and one of Bob's. *)
Definition home_servers : list Server :=
  [mkServer 1 "a1" "ann" 7 None; mkServer 2 "a2" "ann" 7 None; mkServer 3 "b1" "bob" 7 None].
Definition home_node : Node := mkNode 7 "t7" None "eu, external".
Definition home_round : core_round :=
  mkCore (mkPublisher true true None) [home_node] home_servers (fun _ _ => Replied) ∅ 0 home_node.
Definition home_inspect (name : string) : option (option (list (option endpoint))) :=
  let at_ ip := Some (Some [Some (mkEp ip "")]) in
  if (name =? "node")%string then at_ "10.0.0.2"
  else if (name =? "mc_a1")%string then at_ "10.0.0.11"
  else if (name =? "mc_a2")%string then at_ "10.0.0.12"
  else if (name =? "mc_b1")%string then at_ "10.0.0.13" else None.
Definition home_running : list summary :=
  (fun n => mkSummary [n] "game" ∅ None []) <$> ["/mc_a1"; "/mc_a2"; "/mc_b1"].
Definition home_world : world :=
  mkWorld 0 (read_key (cr_after home_round) (netPolicyTenancyKey "t7")) (read_key (cr_after home_round) (netPolicyKey "t7"))
    (Some []) (Some home_running) [] home_inspect (fun _ => None)
    (inr "net1") (inr ([mkIpam "10.0.0.0/24" "10.0.0.1"], "bridge")) (fun _ _ => None).
Definition home_dm : netdm :=
  mkDm true false false "node" 25565 "10.0.0.9:6379" false false (mkSource ∅ false) false false ∅ (mkState false ∅ 0)
    (mkHost None "").
Definition home_packet (src : Z) : packet :=
  mkPacket true (map4 (10 * 2 ^ 24 + src)) (map4 (10 * 2 ^ 24 + 11)) Tcp 25575 false false.
Definition home_egress : netEgress := mkEgress "10.0.0.0/24" "10.0.0.9" 6379 25565 "10.0.0.1".
Definition home_script : string :=
  renderNetPolicy true ["10.0.0.2"; "10.0.0.12"] [] (Some home_egress).

Lemma home_core_ok : core_ok home_round.
Proof.
  split; [done|]. split.
  - split; apply NoDup_ListNoDup; repeat constructor; simpl; intuition congruence.
  - split; [apply NoDup_singleton|]. split; [done|]. split; [simpl; lia|done].
Qed.
Lemma home_reads : node_reads home_round home_world.
Proof. split; reflexivity. Qed.
Lemma home_separates : must_separate home_round home_dm.
Proof. right. right. split; vm_compute; [discriminate|reflexivity]. Qed.
Lemma home_infra : infra_addrs home_world home_dm = ["10.0.0.2"].
Proof. vm_compute. reflexivity. Qed.
Lemma home_scripts : (mkMC "a1" "mc_a1" [], home_script) ∈ (reconcileNetPolicy true home_world home_dm).2.
Proof. apply list_elem_of_In. vm_compute. left. reflexivity. Qed.
Lemma home_packet_ok src : 0 <= src < 256 -> pk_ok (home_packet src).
Proof.
  intros H. assert (E : To4 (map4 (10 * 2 ^ 24 + src)) = Some (10 * 2 ^ 24 + src)) by (apply To4_map4; lia).
  assert (E' : To4 (map4 (10 * 2 ^ 24 + 11)) = Some (10 * 2 ^ 24 + 11)) by (apply To4_map4; lia).
  unfold pk_ok, home_packet; cbn [pk_v4 pk_src pk_dst]. rewrite E, E'. by repeat split.
Qed.
Lemma home_unsolicited src : unsolicited (mkMC "a1" "mc_a1" []) (home_packet src).
Proof.
  split; [done|]. split; [done|]. split; [done|]. intros (q & Hq & _). by apply elem_of_nil in Hq.
Qed.

(** The metadata address from Ann's server. *)
Lemma metadata_blocked_witness :
  let p := mkPacket true (map4 (10 * 2 ^ 24 + 11)) (map4 (169 * 2 ^ 24 + 254 * 2 ^ 16 + 169 * 2 ^ 8 + 254)) Tcp 80 false false in
  exists pre eg, home_script = print_table (pre ++ [output_chain eg]) /\ decide_packet (output_chain eg) p = Drop.
Proof.
  intros p. assert (Hp : pk_ok p).
  { split; (split; [intros _; vm_compute; eexists; reflexivity|reflexivity]). }
  destruct (metadata_blocked true home_world home_dm "a1" true p Hp) as [H _]; [vm_compute; reflexivity|].
  exact (H _ _ home_scripts).
Defined.

(** The LAN behind the machine is out of reach. *)
Lemma server_fenced_witness :
  let p := mkPacket true (map4 (10 * 2 ^ 24 + 11)) (map4 (192 * 2 ^ 24 + 168 * 2 ^ 16 + 5)) Tcp 445 false false in
  exists pre overlay, home_script = print_table (pre ++ [output_chain (Some home_egress)]) /\
    net4_string overlay = "10.0.0.0/24" /\ ~ fenced_reach home_egress overlay (10 * 2 ^ 24 + 9) (Some (10 * 2 ^ 24 + 1)) p.
Proof.
  intros p. assert (Hp : pk_ok p).
  { split; (split; [intros _; vm_compute; eexists; reflexivity|reflexivity]). }
  destruct (server_fenced home_round home_world home_dm (mkMC "a1" "mc_a1" []) home_script "net1" "10.0.0.0/24" "10.0.0.1"
    "bridge" home_egress (10 * 2 ^ 24 + 9) p home_core_ok home_reads home_separates) as (pre & overlay & Hsub & Hscr & Hd);
    [by rewrite home_infra|vm_compute; reflexivity..|lia|simpl; lia|apply home_scripts|exact Hp|reflexivity|reflexivity|].
  exists pre, overlay. split; [exact Hscr|]. split; [exact Hsub|]. intros Hf.
  assert (Ha : decide_packet (output_chain (Some home_egress)) p = Accept).
  { apply Hd. split; [intros Hm; vm_compute in Hm; discriminate|exact Hf]. }
  vm_compute in Ha. discriminate.
Defined.


(** Bob's server does not. *)
Lemma tenants_isolated_witness :
  exists allow, home_script = print_table [input_chain allow []; output_chain (egressPolicy home_world home_dm).1] /\
    (decide_packet (input_chain allow []) (home_packet 13) = Accept <->
      pk_established (home_packet 13) = true \/ pk_lo (home_packet 13) = true \/ is_icmp (home_packet 13) \/ to_published [] (home_packet 13)).
Proof.
  refine (tenants_isolated home_round home_world home_dm (mkMC "a1" "mc_a1" []) (mkServer 1 "a1" "ann" 7 None)
    home_script (home_packet 13) home_core_ok home_reads home_separates _ _ eq_refl _ eq_refl home_scripts
    (home_packet_ok 13 _) _ _ _);
    [by rewrite home_infra|by left|done|lia|by constructor| |].
  - rewrite home_infra. intros (a & ->%list_elem_of_singleton & E). vm_compute in E. discriminate.
  - intros q Hq (a & Ha & E). revert Ha E.
    repeat (apply elem_of_cons in Hq as [->|Hq]; [intros Ha%list_elem_of_In; vm_compute in Ha;
      destruct Ha as [<-|[]]; vm_compute; discriminate|]).
    by apply elem_of_nil in Hq.
Defined.

(** ** The flag and the policy under interleaving

    Core's rounds for one node [n] and the node's rounds, command by command.
    Round [k] works on the [k]-th snapshot of the servers table; the ghost
    fields say which round wrote what is in Redis now and what the node holds.
    The ticker and the handlers of a proxy link each start a round, so rounds
    may overlap when [overlap] is set. *)
Record use := mkUse {
  u_shared : bool; u_flag_round : nat; u_policy_round : nat; u_read : bool; u_policy : policy }.

Record pairing := mkPairing {
  pa_db : redis; pa_table : list Server; pa_snaps : list (list Server);
  pa_turns : gmap nat pub_turn; pa_flag_round : nat; pa_policy_round : nat;
  pa_read : option (bool * nat); pa_dm : netdm; pa_src_round : nat; pa_uses : list use }.

Inductive plabel :=
| PTable (servers : list Server)
| PStart
| PCmd (k : nat) (o : outcome)
| PReadFlag (ok : bool)
| PReadPolicy (ok : bool).

(** A read that gets no answer is an error. *)
Definition try_read (ok : bool) (db : redis) (key : string) : rread := if ok then read_key db key else RErr.
Definition says_shared (r : rread) : bool :=
  match r with RVal (VText s) => (s =? "shared")%string | _ => false end.

Definition pexec (overlap : bool) (n : Node) (l : plabel) (s : pairing) : option pairing :=
  match l with
  | PTable servers =>
      Some (mkPairing (pa_db s) servers (pa_snaps s) (pa_turns s) (pa_flag_round s) (pa_policy_round s)
              (pa_read s) (pa_dm s) (pa_src_round s) (pa_uses s))
  | PStart =>
      if overlap || Nat.eqb (size (pa_turns s)) 0 then
        Some (mkPairing (pa_db s) (pa_table s) (pa_snaps s ++ [pa_table s])
                (<[length (pa_snaps s) := pub_start (pa_table s) n]> (pa_turns s))
                (pa_flag_round s) (pa_policy_round s) (pa_read s) (pa_dm s) (pa_src_round s) (pa_uses s))
      else None
  | PCmd k o =>
      match pa_turns s !! k with
      | None => None
      | Some t =>
          let '(t', db') := pub_step t o (pa_db s) in
          let turns := match pt_pc t' with PubDone => delete k (pa_turns s) | _ => <[k := t']> (pa_turns s) end in
          let '(fr, pr) :=
            match pt_pc t with
            | PubSetFlag => (if applied o then k else pa_flag_round s, pa_policy_round s)
            | PubSetPolicy => (pa_flag_round s, if applied o then k else pa_policy_round s)
            | _ => (pa_flag_round s, pa_policy_round s)
            end in
          Some (mkPairing db' (pa_table s) (pa_snaps s) turns fr pr
                  (pa_read s) (pa_dm s) (pa_src_round s) (pa_uses s))
      end
  | PReadFlag ok =>
      match pa_read s with
      | Some _ => None
      | None =>
          let r := try_read ok (pa_db s) (netPolicyTenancyKey (n_Token n)) in
          let '(_, dm) := plan_tenancy true r (pa_dm s) in
          Some (mkPairing (pa_db s) (pa_table s) (pa_snaps s) (pa_turns s) (pa_flag_round s) (pa_policy_round s)
                  (Some (says_shared r, pa_flag_round s)) dm (pa_src_round s) (pa_uses s))
      end
  | PReadPolicy ok =>
      match pa_read s with
      | None => None
      | Some (shared, f) =>
          let r := try_read ok (pa_db s) (netPolicyKey (n_Token n)) in
          let dm := plan_source true r (pa_dm s) in
          let g := match loadNetPolicy true r with LPolicy _ => pa_policy_round s | _ => pa_src_round s end in
          Some (mkPairing (pa_db s) (pa_table s) (pa_snaps s) (pa_turns s) (pa_flag_round s) (pa_policy_round s)
                  None dm g (pa_uses s ++ [mkUse shared f g ok (ps_policy (dm_src dm))]))
      end
  end.

Definition pair_step (overlap : bool) (n : Node) (s s' : pairing) : Prop := exists l, pexec overlap n l s = Some s'.

Definition pair_init (dm : netdm) : pairing := mkPairing ∅ [] [] ∅ 0 0 None dm 0 [].

Definition snap (s : pairing) (k : nat) (servers : list Server) : Prop := pa_snaps s !! k = Some servers.

(** The round [f] found the machine shared. *)
Definition shared_at (n : Node) (s : pairing) (f : nat) : Prop :=
  exists servers, snap s f servers /\ node_shared servers n = true.

Definition use_ok (n : Node) (s : pairing) (u : use) : Prop :=
  u_shared u = true -> u_read u = true ->
  (u_flag_round u <= u_policy_round u)%nat /\ shared_at n s (u_flag_round u) /\
  exists servers, snap s (u_policy_round u) servers /\ u_policy u = node_policy servers n.

Record pair_inv (n : Node) (s : pairing) : Prop := {
  pi_turn : forall k t, pa_turns s !! k = Some t ->
    S k = length (pa_snaps s) /\ snap s k (pt_servers t) /\ pt_node t = n /\
    (pt_pc t = PubSetFlag -> pa_policy_round s = k /\ node_shared (pt_servers t) n = true /\
       is_Some (pa_db s !! NetPolicyKey (n_Token n)));
  pi_policy : forall v, pa_db s !! NetPolicyKey (n_Token n) = Some v ->
    exists servers, snap s (pa_policy_round s) servers /\ v = VPolicy (node_policy servers n);
  pi_round : (pa_policy_round s <= length (pa_snaps s) - 1)%nat;
  pi_flag : forall v, pa_db s !! NetPolicyTenancyKey (n_Token n) = Some v ->
    (pa_flag_round s <= pa_policy_round s)%nat /\ shared_at n s (pa_flag_round s) /\
    is_Some (pa_db s !! NetPolicyKey (n_Token n));
  pi_read : forall f, pa_read s = Some (true, f) ->
    (f <= pa_policy_round s)%nat /\ shared_at n s f /\ is_Some (pa_db s !! NetPolicyKey (n_Token n));
  pi_uses : Forall (use_ok n s) (pa_uses s) }.

Lemma snap_grow s l k servers : snap s k servers -> (pa_snaps s ++ l) !! k = Some servers.
Proof. intros H. by apply lookup_app_l_Some. Qed.

Lemma pair_inv_init n dm : pair_inv n (pair_init dm).
Proof. constructor; cbn; try done; lia. Qed.

Lemma pair_start n s s' : pair_inv n s -> pexec false n PStart s = Some s' -> pair_inv n s'.
Proof.
  intros [It Ip Ir If Ird Iu] H. unfold pexec in H. cbn [orb] in H.
  destruct (Nat.eqb_spec (size (pa_turns s)) 0) as [E|]; [|done]. apply map_size_empty_inv in E.
  injection H as <-.
  assert (Hsh : forall f, shared_at n s f ->
    exists servers, (pa_snaps s ++ [pa_table s]) !! f = Some servers /\ node_shared servers n = true).
  { intros f (sv & Hsv & Hs). exists sv. split; [by apply snap_grow|done]. }
  constructor; unfold use_ok, shared_at, snap in *; cbn in *.
  - intros k t. rewrite E. intros [<- <-]%lookup_singleton_Some. rewrite length_app. cbn.
    split; [lia|]. split; [by rewrite lookup_app_r, Nat.sub_diag by lia|]. split; [done|].
    unfold pub_start. by destruct (node_shared _ _).
  - intros v Hv. destruct (Ip v Hv) as (sv & Hsv & Ev). exists sv. split; [by apply snap_grow|done].
  - rewrite length_app. cbn. lia.
  - intros v Hv. destruct (If v Hv) as (? & ? & ?). auto.
  - intros f Hf. destruct (Ird f Hf) as (? & ? & ?). auto.
  - eapply Forall_impl; [done|]. cbn. intros u Hu H1 H2. destruct (Hu H1 H2) as (Ha & Hb & sg & Hsg & Eg).
    split; [done|]. split; [by apply Hsh|]. exists sg. split; [by apply snap_grow|done].
Qed.

(** A command in a state where the facts about Redis hold again. *)
Lemma pair_cmd_inv n s k t' db' fr pr :
  pair_inv n s -> is_Some (pa_turns s !! k) ->
  (pt_pc t' <> PubDone -> pt_node t' = n /\ snap s k (pt_servers t')) ->
  (pa_policy_round s <= pr <= k)%nat ->
  (is_Some (pa_db s !! NetPolicyKey (n_Token n)) -> is_Some (db' !! NetPolicyKey (n_Token n))) ->
  (pt_pc t' = PubSetFlag -> pr = k /\ node_shared (pt_servers t') n = true /\ is_Some (db' !! NetPolicyKey (n_Token n))) ->
  (forall v, db' !! NetPolicyKey (n_Token n) = Some v ->
    exists servers, snap s pr servers /\ v = VPolicy (node_policy servers n)) ->
  (forall v, db' !! NetPolicyTenancyKey (n_Token n) = Some v ->
    (fr <= pr)%nat /\ shared_at n s fr /\ is_Some (db' !! NetPolicyKey (n_Token n))) ->
  pair_inv n (mkPairing db' (pa_table s) (pa_snaps s)
    (match pt_pc t' with PubDone => delete k (pa_turns s) | _ => <[k := t']> (pa_turns s) end)
    fr pr (pa_read s) (pa_dm s) (pa_src_round s) (pa_uses s)).
Proof.
  intros [It Ip Ir If Ird Iu] [t Ht] Hn Hpr Hpk Hsf Hp Hf. destruct (It k t Ht) as (Hk & _).
  assert (Hone : forall k' u, k' <> k -> pa_turns s !! k' = Some u -> False).
  { intros k' u Hne Hu. destruct (It k' u Hu) as (? & _). lia. }
  assert (Hturn : forall k' u,
    match pt_pc t' with PubDone => delete k (pa_turns s) | _ => <[k := t']> (pa_turns s) end !! k' = Some u ->
    k' = k /\ u = t' /\ pt_pc t' <> PubDone).
  { intros k' u Hu. destruct (decide (k' = k)) as [->|Hne].
    - destruct (pt_pc t') eqn:Epc; rewrite ?lookup_insert_eq, ?lookup_delete_eq in Hu; [..|done];
        injection Hu as <-; (split; [done|]; split; [done|]; congruence).
    - exfalso. apply (Hone k' u Hne).
      destruct (pt_pc t'); rewrite ?lookup_insert_ne, ?lookup_delete_ne in Hu by done; done. }
  constructor; cbn [pa_db pa_snaps pa_turns pa_flag_round pa_policy_round pa_read pa_uses];
    unfold use_ok, shared_at, snap in *; cbn [pa_snaps] in *; try done.
  - intros k' u Hu. destruct (Hturn k' u Hu) as (-> & -> & Hnd). destruct (Hn Hnd). auto.
  - lia.
  - intros f Hrd. destruct (Ird f Hrd) as (? & ? & ?). split; [lia|]. auto.
Qed.

Lemma pair_cmd n k o s s' : pair_inv n s -> pexec false n (PCmd k o) s = Some s' -> pair_inv n s'.
Proof.
  intros HI H. pose proof HI as [It Ip Ir If _ _]. unfold pexec in H.
  destruct (pa_turns s !! k) as [t|] eqn:Et; [|done].
  destruct (It k t Et) as (Hk & Hsn & Hn & Hfl). destruct t as [sv m pc]; cbn in Hsn, Hn, Hfl; subst m.
  pose proof (keys_differ (n_Token n) (n_Token n)) as Hkd.
  assert (Hs : is_Some (pa_turns s !! k)) by by rewrite Et.
  assert (Hle : (pa_policy_round s <= k)%nat) by lia.
  destruct (pub_step (mkTurn sv n pc) o (pa_db s)) as [t' db'] eqn:Ep. cbn [pt_pc] in H.
  destruct (match pc with PubSetFlag => _ | _ => _ end) as [fr pr] eqn:Er. injection H as <-.
  destruct pc; cbn in Ep, Er; simplify_eq; apply pair_cmd_inv; cbn [pt_pc pt_servers pt_node]; try done;
    destruct o; cbn [applied replied andb];
    rewrite ?lookup_delete_ne, ?lookup_delete_eq, ?lookup_insert_ne, ?lookup_insert_eq by congruence;
    try done; try lia; eauto.
  - by destruct (node_shared sv n).
  - intros v [= <-]. by exists sv.
  - intros v [= <-]. by exists sv.
  - intros v Hv. destruct (If v Hv) as (? & ? & ?). split; [lia|]. split; [done|]. by eexists.
  - intros v Hv. destruct (If v Hv) as (? & ? & ?). split; [lia|]. split; [done|]. by eexists.
  - intros v _. destruct (Hfl eq_refl) as (-> & Hsh & Hpk). split; [done|]. split; [by exists sv|].
    by rewrite lookup_insert_ne by congruence.
  - intros v _. destruct (Hfl eq_refl) as (-> & Hsh & Hpk). split; [done|]. split; [by exists sv|].
    by rewrite lookup_insert_ne by congruence.
Qed.

Lemma pair_read_flag n ok s s' : pair_inv n s -> pexec false n (PReadFlag ok) s = Some s' -> pair_inv n s'.
Proof.
  intros [It Ip Ir If Ird Iu] H. unfold pexec in H. destruct (pa_read s); [done|].
  destruct (plan_tenancy _ _ _) as [sep dm]. injection H as <-.
  constructor; unfold use_ok, shared_at, snap in *; cbn in *; try done.
  intros f [= Hsh <-]. unfold try_read, read_key, says_shared in Hsh. destruct ok; [|done].
  rewrite netPolicyTenancyKey_same in Hsh. destruct (pa_db s !! NetPolicyTenancyKey (n_Token n)) as [v|] eqn:E; [|done].
  by apply (If v).
Qed.

Lemma pair_read_policy n ok s s' : pair_inv n s -> pexec false n (PReadPolicy ok) s = Some s' -> pair_inv n s'.
Proof.
  intros [It Ip Ir If Ird Iu] H. unfold pexec in H. destruct (pa_read s) as [[sh f]|] eqn:Er; [|done].
  injection H as <-.
  constructor; unfold use_ok, shared_at, snap in *; cbn [pa_db pa_snaps pa_turns pa_flag_round pa_policy_round pa_read pa_uses] in *;
    try done.
  apply Forall_app. split; [done|]. constructor; [|done]. cbn. intros -> ->. cbn.
  destruct (Ird f eq_refl) as (Hle & Hsh & v & Hv). unfold read_key. rewrite netPolicyKey_same, Hv.
  destruct (Ip v Hv) as (sv & Hsv & ->). cbn. split; [done|]. split; [done|]. by exists sv.
Qed.

Lemma pair_inv_step n s s' : pair_inv n s -> pair_step false n s s' -> pair_inv n s'.
Proof.
  intros HI [[sv| |k o|ok|ok] H].
  - injection H as <-. by destruct HI.
  - by eapply pair_start.
  - by eapply pair_cmd.
  - by eapply pair_read_flag.
  - by eapply pair_read_policy.
Qed.

(** C27: The tenancy flag never arrives before its policy. While Core's rounds
    do not overlap, and under every interleaving of its commands with the two
    reads of the node, every outcome of the commands and every change of the
    servers table: a node that reads the flag and then reads the policy holds
    the policy of the round that set the flag, or of a later one, and that
    round saw servers of more than one owner on the machine. *)
Theorem flag_pairs_with_policy n dm s u :
  steps (pair_step false n) (pair_init dm) s -> u ∈ pa_uses s -> u_shared u = true -> u_read u = true ->
  (u_flag_round u <= u_policy_round u)%nat /\ shared_at n s (u_flag_round u) /\
  exists servers, snap s (u_policy_round u) servers /\ u_policy u = node_policy servers n.
Proof.
  intros Hs Hu. assert (HI : pair_inv n s).
  { eapply steps_invariant; [|exact Hs|apply pair_inv_init]. intros a b Ha Hab. by eapply pair_inv_step. }
  destruct HI as [_ _ _ _ _ Iu]. rewrite Forall_forall in Iu. by apply Iu.
Qed.

(** Bob's server arrives on Ann's machine between two rounds. *)
Fixpoint run_pair (overlap : bool) (n : Node) (ls : list plabel) (s : pairing) : option pairing :=
  match ls with
  | [] => Some s
  | l :: ls => match pexec overlap n l s with Some s => run_pair overlap n ls s | None => None end
  end.

Lemma run_pair_steps overlap n ls s s' :
  run_pair overlap n ls s = Some s' -> steps (pair_step overlap n) s s'.
Proof.
  revert s. induction ls as [|l ls IH]; intros s H; cbn in H; [injection H as <-; constructor|].
  destruct (pexec overlap n l s) as [s1|] eqn:E; [|done]. econstructor; [by exists l|]. by apply IH.
Qed.

Definition ann_alone : list Server := [mkServer 1 "a1" "ann" 7 None; mkServer 2 "a2" "ann" 7 None].

Definition orderly : list plabel :=
  [PTable ann_alone; PStart; PCmd 0 Replied; PCmd 0 Replied; PTable home_servers; PStart; PCmd 1 Replied;
   PCmd 1 Replied; PReadFlag true; PReadPolicy true].

Lemma flag_pairs_with_policy_witness :
  exists s u, run_pair false home_node orderly (pair_init home_dm) = Some s /\ u ∈ pa_uses s /\
    (u_flag_round u <= u_policy_round u)%nat.
Proof.
  destruct (run_pair false home_node orderly (pair_init home_dm)) as [s|] eqn:E; [|vm_compute in E; discriminate].
  assert (Eu : pa_uses s = [mkUse true 1 1 true (node_policy home_servers home_node)]).
  { vm_compute in E. injection E as <-. vm_compute. reflexivity. }
  exists s, (mkUse true 1 1 true (node_policy home_servers home_node)).
  split; [reflexivity|]. split; [rewrite Eu; by left|].
  apply (flag_pairs_with_policy home_node home_dm s); [by apply (run_pair_steps false _ orderly)|rewrite Eu; by left|done|done].
Defined.

(** A read of the policy that fails after the flag was read leaves the node
    with the older list: Ann's servers are cut off from each other although
    the policy that keeps them together was there to read. *)
Definition hiccup : list plabel :=
  [PTable ann_alone; PStart; PCmd 0 Replied; PCmd 0 Replied; PReadFlag true; PReadPolicy true;
   PTable home_servers; PStart; PCmd 1 Replied; PCmd 1 Replied; PReadFlag true; PReadPolicy false].

Lemma flag_with_older_list_after_failed_read :
  exists s u, run_pair false home_node hiccup (pair_init home_dm) = Some s /\ u ∈ pa_uses s /\
    u_shared u = true /\ (u_policy_round u < u_flag_round u)%nat /\ u_policy u !! "a1" = Some [] /\
    node_policy home_servers home_node !! "a1" = Some ["a2"].
Proof.
  eexists _, _. split; [vm_compute; reflexivity|]. cbn [pa_uses].
  split; [apply list_elem_of_In; right; left; reflexivity|]. cbn [u_shared u_policy_round u_flag_round u_policy].
  split; [reflexivity|]. split; [lia|]. split; reflexivity.
Qed.

(** Two overlapping rounds: the older snapshot is written last, under the
    newer flag, and stays until the next round. *)
Definition overlapping : list plabel :=
  [PTable ann_alone; PStart; PCmd 0 Replied; PTable home_servers; PStart; PCmd 1 Replied; PCmd 1 Replied;
   PCmd 0 Replied; PReadFlag true; PReadPolicy true].

Lemma flag_with_older_list_when_rounds_overlap :
  exists s u, run_pair true home_node overlapping (pair_init home_dm) = Some s /\ pa_turns s = ∅ /\
    u ∈ pa_uses s /\ u_shared u = true /\ u_read u = true /\ (u_policy_round u < u_flag_round u)%nat.
Proof.
  eexists _, _. split; [vm_compute; reflexivity|]. cbn [pa_turns pa_uses]. split; [reflexivity|].
  split; [apply list_elem_of_In; left; reflexivity|]. cbn [u_shared u_read u_policy_round u_flag_round].
  split; [reflexivity|]. split; [reflexivity|]. lia.
Qed.
