(* ===== verification/RedisAcl.v ===== *)
(** * Redis credentials of a node (core/services/redisacl, acl_reconciler.go)

    Every node has an ACL user of its own on the shared Redis, every game
    server's log shipper another, every Link another. The file has the rule
    lists Core sends, the names and derived passwords on both sides, the
    provisioning of a node and the sweep that reapplies and prunes users, and
    what the rules allow. Redis is the class [AclServer]; [AclLaws] states
    what its documentation says of [ACL SETUSER]. HMAC-SHA256 in hex is the
    parameter [derive]. *)

From Stdlib Require Import Ascii String.
From S2P Require Import Prelude GoStrings Limits.
Open Scope string_scope.
Open Scope list_scope.
Open Scope Z_scope.

Notation length := List.length.

(** ** Names and keys *)

Definition SFTPAuthKeyPrefix (nodeToken : string) : string := "sftp:auth:" +:+ nodeToken +:+ ":".
Definition SFTPAuthKey (nodeToken username : string) : string := SFTPAuthKeyPrefix nodeToken +:+ username.
Definition NodeUsername (token : string) : string := "node-" +:+ token.
Definition ShipperUsername (token serverUUID : string) : string :=
  "node-" +:+ token +:+ "-shipper-" +:+ serverUUID.
Definition LinkUsername (token : string) : string := "node-" +:+ token +:+ "-link".

Definition accessEpochPrefix : string := "beam:access-epoch:".

Definition migrationNodeKey (nodeToken serverUUID leaf : string) : string :=
  "dylaris:migration:node:" +:+ nodeToken +:+ ":" +:+ serverUUID +:+ ":" +:+ leaf.
Definition MigrationStatusKey (nodeToken serverUUID : string) : string := migrationNodeKey nodeToken serverUUID "status".
Definition MigrationMetaKey (nodeToken serverUUID : string) : string := migrationNodeKey nodeToken serverUUID "meta".
Definition MigrationNodeKeyPattern (nodeToken : string) : string := "dylaris:migration:node:" +:+ nodeToken +:+ ":*".

Definition BackupResultsChannel (nodeToken : string) : string := "dylaris:backup:results:" +:+ nodeToken.
Definition BackupRestoresChannel (nodeToken : string) : string := "dylaris:backup:restores:" +:+ nodeToken.
Definition ModResultsChannel (nodeToken : string) : string := "dylaris:mods:results:" +:+ nodeToken.
Definition SetupResultsChannel (nodeToken : string) : string := "dylaris:setup:results:" +:+ nodeToken.
Definition SFTPAuditChannel (nodeToken : string) : string := "dylaris:sftp:audit:" +:+ nodeToken.

(** ** Rule lists *)

Definition commandCats : list string :=
  ["+@read"; "+@write"; "+@stream"; "+@pubsub"; "+@connection"; "+@transaction";
   "-@dangerous"; "-@admin"; "-@scripting"; "-scan"].

Definition globalReadKeys : list string :=
  ["%R~dylaris:routing_mode"; "%R~dylaris:file_access_mode"; "%R~dylaris:placement:*";
   "%R~beam:bw_limit"; "%R~beam:bw_up_internal"; "%R~beam:bw_down_internal";
   "%R~beam:max_upload_bytes"; "%R~beam:daily_upload_bytes";
   "%R~" +:+ accessEpochPrefix +:+ "*"; "%R~dylaris:core:*"].

Definition BeamQuotaSelector (usernames : list string) : string :=
  match usernames with
  | [] => ""
  | _ => "(" +:+ fold_right (fun u b => "~" +:+ Quota.DailyKeyPrefix u +:+ "* " +:+ b) "+get +incrby +expire)"
                   (sortStrings usernames)
  end.

Definition migrationKeys (token : string) : list string :=
  ["~dylaris:migration:endpoint:" +:+ token; "%R~dylaris:migration:endpoint:*";
   "~" +:+ MigrationNodeKeyPattern token; "%R~dylaris:migration:*:orchestration"].

Definition BuildNodeACLRules (token password : string) (serverUUIDs : list string) : list string :=
  ["on"; ">" +:+ password; "resetkeys"; "resetchannels"] ++
  ["~dylaris:node:" +:+ token +:+ ":*"; "~dylaris:discovery:" +:+ token; "~beam:node-endpoint:" +:+ token] ++
  ["~dylaris:errors:node:" +:+ token] ++
  ["~node:" +:+ token +:+ ":*"] ++
  ["%R~sftp:node:" +:+ token +:+ ":*"] ++
  ["%R~" +:+ SFTPAuthKeyPrefix token +:+ "*"] ++
  migrationKeys token ++
  ((fun u => "~dylaris:server:" +:+ u +:+ ":*") <$> serverUUIDs) ++
  globalReadKeys ++
  ["&" +:+ BackupResultsChannel token; "&" +:+ BackupRestoresChannel token; "&" +:+ ModResultsChannel token;
   "&" +:+ SetupResultsChannel token; "&" +:+ SFTPAuditChannel token] ++
  ((fun u => "&dylaris:server:" +:+ u +:+ ":stats:live") <$> serverUUIDs) ++
  commandCats.

Definition BuildShipperACLRules (password serverUUID : string) : list string :=
  ["on"; ">" +:+ password; "resetkeys"; "resetchannels"] ++
  ["~dylaris:server:" +:+ serverUUID +:+ ":logs";
   "~dylaris:server:" +:+ serverUUID +:+ ":logs:*";
   "~dylaris:server:" +:+ serverUUID +:+ ":java-heap";
   "~dylaris:server:" +:+ serverUUID +:+ ":input";
   "~dylaris:server:" +:+ serverUUID +:+ ":log_filter_rcon";
   "~dylaris:server:" +:+ serverUUID +:+ ":stop-requested"] ++
  commandCats.

Definition BuildLinkACLRules (password nodeToken tunnelToken : string) : list string :=
  ["on"; ">" +:+ password; "resetkeys"; "resetchannels"] ++
  ["~link:" +:+ tunnelToken; "~online_link:" +:+ tunnelToken; "~dylaris:errors:link:" +:+ nodeToken;
   "~dylaris:link:" +:+ nodeToken +:+ ":stats"; "~hub:link:discovery:" +:+ nodeToken; "~beam:node:" +:+ nodeToken;
   "%R~sys:edges"; "%R~edge:registry:*"; "%R~edge:cert:fingerprint:*";
   "%R~sys:beams"; "%R~beam:registry:*"; "%R~beam:cert:fingerprint:*";
   "%R~beam:node-endpoint:" +:+ nodeToken] ++
  commandCats.

(** ** Redis *)

(** A user's state [U]: one rule of [ACL SETUSER], the passwords on its list,
    the keys of its root permission, whether it may scan. *)
Class AclServer (U : Type) := {
  acl_fresh : U;
  acl_rule : string -> U -> U;
  acl_password : U -> string -> bool;
  acl_read : U -> string -> bool;
  acl_write : U -> string -> bool;
  acl_scan : U -> bool }.

(** A pattern whose only special character is the star. *)
Fixpoint star_match (p k : string) : bool :=
  match p with
  | EmptyString => (k =? "")%string
  | String "*" p =>
      (fix any (k : string) : bool :=
         star_match p k || match k with EmptyString => false | String _ k => any k end) k
  | String c p => match k with String d k => Ascii.eqb c d && star_match p k | EmptyString => false end
  end.
Definition glob_special (c : ascii) : bool :=
  Ascii.eqb c "?" || Ascii.eqb c "[" || Ascii.eqb c "]" || Ascii.eqb c "\" || Ascii.eqb c "^".
Definition star_only (p : string) : bool := all_chars (fun c => negb (glob_special c)) p.

(** Rules that leave keys alone, and rules that leave passwords alone. *)
Definition key_neutral (r : string) : bool :=
  (r =? "on")%string || (r =? "resetchannels")%string ||
  existsb (HasPrefix r) [">"; "&"; "+"; "-"].
Definition pass_neutral (r : string) : bool :=
  (r =? "on")%string || (r =? "resetkeys")%string || (r =? "resetchannels")%string ||
  existsb (HasPrefix r) ["~"; "%"; "&"; "+"; "-"].

Class AclLaws (U : Type) `{!AclServer U} := {
  law_resetkeys u k : acl_read (acl_rule "resetkeys" u) k = false /\ acl_write (acl_rule "resetkeys" u) k = false;
  law_key p u k : star_only p = true ->
    acl_read (acl_rule ("~" +:+ p) u) k = acl_read u k || star_match p k /\
    acl_write (acl_rule ("~" +:+ p) u) k = acl_write u k || star_match p k;
  law_key_read p u k : star_only p = true ->
    acl_read (acl_rule ("%R~" +:+ p) u) k = acl_read u k || star_match p k /\
    acl_write (acl_rule ("%R~" +:+ p) u) k = acl_write u k;
  law_key_neutral r u k : key_neutral r = true ->
    acl_read (acl_rule r u) k = acl_read u k /\ acl_write (acl_rule r u) k = acl_write u k;
  law_password pw u q : acl_password (acl_rule (">" +:+ pw) u) q = acl_password u q || (q =? pw)%string;
  law_pass_neutral r u q : pass_neutral r = true -> acl_password (acl_rule r u) q = acl_password u q;
  law_fresh q k : acl_password acl_fresh q = false /\ acl_read acl_fresh k = false /\ acl_write acl_fresh k = false;
  law_scan u : acl_scan (acl_rule "-scan" u) = false }.

Definition setuser {U} `{!AclServer U} (rules : list string) (u : U) : U :=
  fold_left (fun u r => acl_rule r u) rules u.

(** ** Passwords *)

Section passwords.
(** HMAC-SHA256 of the domain under the secret, in hex. *)
Context (derive : string -> string -> string).

Definition NodePassword (secret token : string) : string := derive secret ("dylaris-redis-acl:v1:node:" +:+ token).
Definition ShipperPassword (secret token serverUUID : string) : string :=
  derive secret ("dylaris-redis-acl:v1:shipper:" +:+ token +:+ ":" +:+ serverUUID).
Definition LinkPassword (secret token : string) : string := derive secret ("dylaris-redis-acl:v1:link:" +:+ token).
Definition Proof_ (secret token : string) : string := derive secret ("dylaris-redis-acl:v1:proof:" +:+ token).
Definition ChallengeResponse (secret nonce : string) : string :=
  derive secret ("dylaris-redis-acl:v1:challenge:" +:+ nonce).
Definition HeartbeatSig (secret token : string) (ts : Z) : string :=
  derive secret ("dylaris-redis-acl:v1:heartbeat:" +:+ token +:+ ":" +:+ Itoa ts).
Definition ClusterProof (clusterSecret token : string) : string :=
  derive clusterSecret ("dylaris-node-cluster-proof:v1:" +:+ token).
End passwords.

(** *** The node's copies (node/redisacl.go) *)

Definition sftpAuthKey (nodeToken username : string) : string := "sftp:auth:" +:+ nodeToken +:+ ":" +:+ username.
Definition aclNodeUsername (token : string) : string := "node-" +:+ token.
Definition aclShipperUsername (token serverUUID : string) : string :=
  "node-" +:+ token +:+ "-shipper-" +:+ serverUUID.

Section node_passwords.
Context (aclDerive : string -> string -> string).

Definition aclNodePassword (secret token : string) : string :=
  aclDerive secret ("dylaris-redis-acl:v1:node:" +:+ token).
Definition aclShipperPassword (secret token serverUUID : string) : string :=
  aclDerive secret ("dylaris-redis-acl:v1:shipper:" +:+ token +:+ ":" +:+ serverUUID).
Definition aclProof (secret token : string) : string := aclDerive secret ("dylaris-redis-acl:v1:proof:" +:+ token).
Definition aclChallengeResponse (secret nonce : string) : string :=
  aclDerive secret ("dylaris-redis-acl:v1:challenge:" +:+ nonce).
Definition aclHeartbeatSig (secret token : string) (ts : Z) : string :=
  aclDerive secret ("dylaris-redis-acl:v1:heartbeat:" +:+ token +:+ ":" +:+ Itoa ts).
Definition aclClusterProof (clusterSecret token : string) : string :=
  aclDerive clusterSecret ("dylaris-node-cluster-proof:v1:" +:+ token).
End node_passwords.

(** ** Provisioning *)

Definition nodeACLPrefix : string := "node-".

(** The servers of each node, as the reconciler collects them. *)
Definition ExpectedNodeACLUsers (serversByToken : gmap string (list string)) : gset string :=
  list_to_set (flat_map (fun '(t, uuids) => NodeUsername t :: LinkUsername t :: (ShipperUsername t <$> uuids))
    (map_to_list serversByToken)).

Definition UnknownNodeACLUsers (users : list string) (expected : gset string) : list string :=
  List.filter (fun u => HasPrefix u nodeACLPrefix && negb (bool_decide (u ∈ expected))) users.

Section provisioning.
Context {U : Type} `{!AclServer U}.
(** [derive] as above; [sha256] of a text, in hex. *)
Context (derive : string -> string -> string) (sha256 : string -> string).

Notation users := (gmap string U).

Definition acl_setuser (o : outcome) (name : string) (rules : list string) (us : users) : users :=
  if applied o then <[name := setuser rules (default acl_fresh (us !! name))]> us else us.
Definition acl_deluser (o : outcome) (name : string) (us : users) : users :=
  if applied o then delete name us else us.

(** Deletions in order, whatever each reports; [os i] is the outcome of the
    i-th command. *)
Fixpoint delusers (os : nat -> outcome) (i : nat) (names : list string) (us : users) : users :=
  match names with
  | [] => us
  | u :: names => delusers os (S i) names (acl_deluser (os i) u us)
  end.

(** Commands in order, stopping at the first that reports an error. *)
Fixpoint run_setusers (os : nat -> outcome) (i : nat) (cmds : list (string * list string)) (us : users)
    : bool * users :=
  match cmds with
  | [] => (true, us)
  | (name, rules) :: cmds =>
      let us := acl_setuser (os i) name rules us in
      if replied (os i) then run_setusers os (S i) cmds us else (false, us)
  end.

Definition LinkTunnelToken (nodeToken clusterSecret : string) : string := sha256 (nodeToken +:+ clusterSecret).

Definition node_setusers (token tunnelToken secret : string) (serverUUIDs : list string) : list (string * list string) :=
  (NodeUsername token, BuildNodeACLRules token (NodePassword derive secret token) serverUUIDs) ::
  ((fun u => (ShipperUsername token u, BuildShipperACLRules (ShipperPassword derive secret token u) u)) <$> serverUUIDs) ++
  [(LinkUsername token, BuildLinkACLRules (LinkPassword derive secret token) token tunnelToken)].

Definition EnsureNodeACLNoSave (os : nat -> outcome) (token tunnelToken secret : string) (serverUUIDs : list string)
    (us : users) : bool * users :=
  run_setusers os 0 (node_setusers token tunnelToken secret serverUUIDs) us.

(** [listed]: whether [ACL USERS] answers; [os] the outcomes of the deletions. *)
Definition RemoveNodeACL (os : nat -> outcome) (listed : bool) (token : string) (us : users) : users :=
  let us := delusers os 0 [NodeUsername token; LinkUsername token; "node-" +:+ token +:+ "-shipper"] us in
  if listed then
    let prefix := "node-" +:+ token +:+ "-shipper-" in
    delusers os 3 (List.filter (fun u => HasPrefix u prefix) (map_to_list us).*1) us
  else us.

(** *** The sweep (acl_reconciler.go) *)

Record acl_node := mkAclNode { an_ID : Z; an_Token : string }.

(** What [LoadNodeSecret] answers: an error, no secret, or one. *)
Inductive loaded_secret := SecretErr | SecretNone | SecretOf (s : string).

Definition sweep_node (load : Z -> loaded_secret) (servers : Z -> option (list string)) (clusterSecret : string)
    (os : nat -> outcome) (n : acl_node) (us : users) : users :=
  match load (an_ID n), servers (an_ID n) with
  | SecretOf secret, Some uuids =>
      (EnsureNodeACLNoSave os (an_Token n) (LinkTunnelToken (an_Token n) clusterSecret) secret uuids us).2
  | _, _ => us
  end.

Fixpoint sweep_nodes (load : Z -> loaded_secret) (servers : Z -> option (list string)) (clusterSecret : string)
    (os : nat -> nat -> outcome) (i : nat) (nodes : list acl_node) (us : users) : users :=
  match nodes with
  | [] => us
  | n :: nodes => sweep_nodes load servers clusterSecret os (S i) nodes (sweep_node load servers clusterSecret (os i) n us)
  end.

(** The servers by token, or nothing when one listing fails. *)
Fixpoint servers_by_token (servers : Z -> option (list string)) (nodes : list acl_node)
    (m : gmap string (list string)) : option (gmap string (list string)) :=
  match nodes with
  | [] => Some m
  | n :: nodes =>
      match servers (an_ID n) with
      | None => None
      | Some uuids => servers_by_token servers nodes (<[an_Token n := uuids]> m)
      end
  end.

Definition pruneOrphanNodeACLs (listed : bool) (servers : Z -> option (list string)) (os : nat -> outcome)
    (nodes : list acl_node) (us : users) : users :=
  match nodes with
  | [] => us
  | _ =>
      if negb listed then us
      else match servers_by_token servers nodes ∅ with
           | None => us
           | Some m =>
               delusers os 0 (UnknownNodeACLUsers (map_to_list us).*1 (ExpectedNodeACLUsers m)) us
           end
  end.

(** [servers] and [servers'] are the listings of the two passes. *)
Definition reconcileOnce (nodes : option (list acl_node)) (load : Z -> loaded_secret)
    (servers servers' : Z -> option (list string)) (clusterSecret : string)
    (os : nat -> nat -> outcome) (listed : bool) (us : users) : users :=
  match nodes with
  | None => us
  | Some nodes =>
      let us := sweep_nodes load servers clusterSecret os 1 nodes us in
      pruneOrphanNodeACLs listed servers' (os 0%nat) nodes us
  end.

(** [clearselectors] and, for a node with users, the selector. *)
Definition SetNodeBeamQuotaGrant (o : outcome) (token : string) (usernames : list string) (us : users) : users :=
  let sel := BeamQuotaSelector usernames in
  acl_setuser o (NodeUsername token) ("clearselectors" :: if (sel =? "")%string then [] else [sel]) us.
End provisioning.

(** ** Lemmas: patterns *)

(** Names that fill a place in a key: no separator, no special character. *)
Definition plain_char (c : ascii) : bool := not_char ":" c && not_char "*" c && negb (glob_special c).
Definition plain (s : string) : bool := all_chars plain_char s.

Lemma star_cons c p k :
  c <> "*"%char ->
  star_match (String c p) k = match k with String d k => Ascii.eqb c d && star_match p k | EmptyString => false end.
Proof. intros H. destruct c as [[] [] [] [] [] [] [] []]; done. Qed.

Lemma star_any p k : star_match (String "*" p) k = true <-> exists m r, k = m +:+ r /\ star_match p r = true.
Proof.
  induction k as [|c k IH].
  - change (star_match (String "*" p) "") with (star_match p "" || false). rewrite orb_false_r. split.
    + intros H. by exists "", "".
    + intros (m & r & E & H). destruct m; [|discriminate]. by change ("" = r) in E; subst.
  - change (star_match (String "*" p) (String c k)) with (star_match p (String c k) || star_match (String "*" p) k).
    rewrite orb_true_iff, IH. split.
    + intros [H|(m & r & -> & H)]; [by exists "", (String c k)|]. by exists (String c m), r.
    + intros ([|d m] & r & E & H).
      * left. change (String c k = r) in E. by subst.
      * right. change (String c k = String d (m +:+ r)) in E. injection E as -> ->. by exists m, r.
Qed.

Lemma star_literal a p k :
  all_chars (not_char "*") a = true ->
  star_match (a +:+ p) k = true <-> exists r, k = a +:+ r /\ star_match p r = true.
Proof.
  revert k. induction a as [|c a IH]; intros k Ha.
  { change ("" +:+ p) with p. split; [intros H; by exists k|]. intros (r & -> & H). done. }
  cbn [all_chars] in Ha. apply andb_true_iff in Ha as [Hc Ha].
  change (String c a +:+ p) with (String c (a +:+ p)).
  rewrite star_cons by (intros ->; done). destruct k as [|d k].
  { split; [done|]. intros (r & E & _). discriminate. }
  rewrite andb_true_iff, Ascii.eqb_eq, IH by done. split.
  - intros [-> (r & -> & H)]. by exists r.
  - intros (r & E & H). change (String d k = String c (a +:+ r)) in E. injection E as -> ->. split; [done|by exists r].
Qed.

(** A key pattern by the segments between colons: everything below a prefix,
    one key, or anything between two texts. *)
Inductive kpat := KPre (ss : list string) | KLit (ss : list string) | KMid (a b : string).

Definition pat_text (pt : kpat) : string :=
  match pt with
  | KPre ss => Join ss ":" +:+ ":*"
  | KLit ss => Join ss ":"
  | KMid a b => a +:+ "*" +:+ b
  end.

Definition pat_match (pt : kpat) (k : string) : Prop :=
  match pt with
  | KPre ss => exists rest, rest <> [] /\ Split ":" k = ss ++ rest
  | KLit ss => Split ":" k = ss
  | KMid a b => exists m, k = a +:+ m +:+ b
  end.

Definition pat_ok (pt : kpat) : Prop :=
  match pt with
  | KPre ss | KLit ss => ss <> [] /\ Forall (fun s => plain s = true) ss
  | KMid a b => forallb (fun s => all_chars (fun c => not_char "*" c && negb (glob_special c)) s) [a; b] = true
  end.

Lemma plain_chars s (p : ascii -> bool) :
  (forall c, plain_char c = true -> p c = true) -> plain s = true -> all_chars p s = true.
Proof. intros H. by apply all_chars_impl. Qed.

Lemma join_chars (p : ascii -> bool) ss :
  p ":"%char = true -> (forall c, plain_char c = true -> p c = true) ->
  Forall (fun s => plain s = true) ss -> all_chars p (Join ss ":") = true.
Proof.
  intros Hc Hp. induction ss as [|s ss IH]; intros Hs; [done|]. apply Forall_cons in Hs as [H1 H2].
  destruct ss as [|s' ss]; [by apply plain_chars|].
  change (Join (s :: s' :: ss) ":") with (s +:+ ":" +:+ Join (s' :: ss) ":").
  rewrite !all_chars_app, IH, (plain_chars s p) by done. cbn. by rewrite Hc.
Qed.

Lemma Split_under ss k :
  ss <> [] -> Forall (fun s => plain s = true) ss ->
  (exists r, k = Join ss ":" +:+ ":" +:+ r) <-> (exists rest, rest <> [] /\ Split ":" k = ss ++ rest).
Proof.
  intros Hne Hs. split.
  - intros [r ->]. exists (Split ":" r). split; [apply Split_nonempty|].
    induction ss as [|s ss IH]; [done|]. apply Forall_cons in Hs as [H1 H2].
    assert (Hsp : all_chars (not_char ":") s = true).
    { apply plain_chars; [|done]. intros c Hc. unfold plain_char in Hc. by to_prop. }
    destruct ss as [|s' ss].
    { change (Join [s] ":" +:+ ":" +:+ r) with (s +:+ String ":" r). by rewrite Split_app. }
    change (Join (s :: s' :: ss) ":") with (s +:+ ":" +:+ Join (s' :: ss) ":").
    rewrite !append_assoc. change (":" +:+ ?x) with (String ":" x). rewrite Split_app by done.
    cbn [app]. f_equal. by apply IH.
  - intros (rest & Hr & E). exists (Join rest ":"). rewrite <- (Split_Join_id ":" k), E.
    clear E Hs. induction ss as [|s ss IH]; [done|]. destruct ss as [|s' ss].
    + by destruct rest.
    + change (Join ((s :: s' :: ss) ++ rest) ":") with (s +:+ ":" +:+ Join ((s' :: ss) ++ rest) ":").
      change (Join (s :: s' :: ss) ":") with (s +:+ ":" +:+ Join (s' :: ss) ":").
      by rewrite IH, !append_assoc by done.
Qed.

Lemma not_star_plain c : plain_char c = true -> not_char "*" c = true.
Proof. unfold plain_char. intros H. by to_prop. Qed.

Lemma pat_match_spec pt k : pat_ok pt -> star_match (pat_text pt) k = true <-> pat_match pt k.
Proof.
  destruct pt as [ss|ss|a b]; cbn [pat_ok pat_text pat_match].
  - intros [Hne Hs]. rewrite <- Split_under by done.
    change (Join ss ":" +:+ ":*") with (Join ss ":" +:+ ":" +:+ "*").
    rewrite star_literal by (apply join_chars; [done|apply not_star_plain|done]).
    change (":" +:+ "*") with (":" +:+ String "*" ""). setoid_rewrite star_literal; [|done]. setoid_rewrite star_any.
    split.
    + intros (r & -> & r2 & -> & _). by exists r2.
    + intros [r ->]. exists (":" +:+ r). split; [done|]. exists r. split; [done|]. exists r, "".
      by rewrite append_nil_r.
  - intros [Hne Hs]. rewrite <- (append_nil_r (Join ss ":")).
    rewrite star_literal by (apply join_chars; [done|apply not_star_plain|done]).
    assert (Hj : Split ":" (Join ss ":") = ss).
    { apply (Split_Join ":"); [done|]. eapply Forall_impl; [done|]. cbn. intros s Hp.
      apply plain_chars; [|done]. intros c Hc. unfold plain_char in Hc. by to_prop. }
    split.
    + intros (r & -> & Hr%String.eqb_eq). subst r. by rewrite append_nil_r.
    + intros E. exists "". split; [|done]. rewrite append_nil_r. apply (Split_inj ":"). by rewrite E.
  - cbn. rewrite !andb_true_iff. intros (Ha & Hb & _).
    assert (Hs : forall s, all_chars (fun c => not_char "*" c && negb (glob_special c)) s = true ->
      all_chars (not_char "*") s = true) by (intros s; apply all_chars_impl; intros c Hc; by to_prop).
    rewrite star_literal by auto. change ("*" +:+ b) with (String "*" b). setoid_rewrite star_any.
    assert (Hlit : forall r, star_match b r = true <-> r = b).
    { intros r. rewrite <- (append_nil_r b), star_literal, append_nil_r by auto. split.
      - intros (r' & -> & Hr%String.eqb_eq). subst. by rewrite append_nil_r.
      - intros ->. exists "". by rewrite append_nil_r. }
    split.
    + intros (r & -> & m & r' & -> & ->%Hlit). by exists m.
    + intros [m ->]. exists (m +:+ b). split; [done|]. exists m, b. split; [done|]. by apply Hlit.
Qed.

(** ** Lemmas: what a rule list grants *)

(** A grant: read and write, or read alone. *)
Inductive grant := GW (pt : kpat) | GR (pt : kpat).
Definition grant_pat (g : grant) : kpat := match g with GW pt | GR pt => pt end.
Definition grant_text (g : grant) : string :=
  match g with GW pt => "~" +:+ pat_text pt | GR pt => "%R~" +:+ pat_text pt end.

Definition may_write (gs : list grant) (k : string) : Prop := exists pt, GW pt ∈ gs /\ pat_match pt k.
Definition may_read (gs : list grant) (k : string) : Prop := exists g, g ∈ gs /\ pat_match (grant_pat g) k.

Lemma pat_star_only pt : pat_ok pt -> star_only (pat_text pt) = true.
Proof.
  unfold star_only. destruct pt as [ss|ss|a b]; cbn [pat_ok pat_text].
  - intros [_ Hs]. rewrite all_chars_app, join_chars; [done|done| |done].
    intros c Hc. unfold plain_char in Hc. by to_prop; apply negb_true_iff.
  - intros [_ Hs]. apply join_chars; [done| |done].
    intros c Hc. unfold plain_char in Hc. by to_prop; apply negb_true_iff.
  - cbn. rewrite !andb_true_iff. intros (Ha & Hb & _). rewrite !all_chars_app.
    assert (Hs : forall s, all_chars (fun c => not_char "*" c && negb (glob_special c)) s = true ->
      all_chars (fun c => negb (glob_special c)) s = true) by (intros s; apply all_chars_impl; intros c Hc; by to_prop; apply negb_true_iff).
    by rewrite (Hs a Ha), (Hs b Hb).
Qed.

Section acl_users.
Context {U : Type} `{!AclServer U, !AclLaws U}.

Lemma setuser_app r1 r2 (u : U) : setuser (r1 ++ r2) u = setuser r2 (setuser r1 u).
Proof. apply fold_left_app. Qed.

Lemma setuser_neutral rules (u : U) k :
  forallb key_neutral rules = true ->
  acl_read (setuser rules u) k = acl_read u k /\ acl_write (setuser rules u) k = acl_write u k.
Proof.
  revert u. induction rules as [|r rules IH]; intros u H; [done|]. cbn in H. apply andb_true_iff in H as [H1 H2].
  change (setuser (r :: rules) u) with (setuser rules (acl_rule r u)).
  destruct (IH (acl_rule r u) H2) as [-> ->]. by apply law_key_neutral.
Qed.

Lemma setuser_grants gs (u : U) k :
  Forall (fun g => pat_ok (grant_pat g)) gs ->
  (acl_read (setuser (grant_text <$> gs) u) k = true <-> acl_read u k = true \/ may_read gs k) /\
  (acl_write (setuser (grant_text <$> gs) u) k = true <-> acl_write u k = true \/ may_write gs k).
Proof.
  unfold may_read, may_write. revert u. induction gs as [|g gs IH]; intros u Hok; cbn [fmap list_fmap].
  { cbn. setoid_rewrite elem_of_nil. naive_solver. }
  apply Forall_cons in Hok as [Hg Hok].
  change (setuser (grant_text g :: (grant_text <$> gs)) u) with (setuser (grant_text <$> gs) (acl_rule (grant_text g) u)).
  destruct (IH (acl_rule (grant_text g) u) Hok) as [-> ->]. setoid_rewrite elem_of_cons.
  destruct g as [pt|pt]; cbn [grant_text grant_pat] in *.
  - destruct (law_key (pat_text pt) u k (pat_star_only pt Hg)) as [-> ->].
    rewrite !orb_true_iff, !(pat_match_spec pt) by done. split.
    + split.
      * intros [[H|H]|(g & Hin & H)]; [by left|right; exists (GW pt); auto|right; exists g; auto].
      * intros [H|(g & [Eg|Hin] & Hm)]; [auto|subst g; left; by right|right; by exists g].
    + split.
      * intros [[H|H]|(p & Hin & H)]; [by left|right; exists pt; auto|right; exists p; auto].
      * intros [H|(p & [[= Eg]|Hin] & Hm)]; [auto|subst p; left; by right|right; by exists p].
  - destruct (law_key_read (pat_text pt) u k (pat_star_only pt Hg)) as [-> ->].
    rewrite orb_true_iff, (pat_match_spec pt) by done. split.
    + split.
      * intros [[H|H]|(g & Hin & H)]; [by left|right; exists (GR pt); auto|right; exists g; auto].
      * intros [H|(g & [Eg|Hin] & Hm)]; [auto|subst g; left; by right|right; by exists g].
    + split.
      * intros [H|(p & Hin & H)]; [by left|right; exists p; auto].
      * intros [H|(p & [Eg|Hin] & Hm)]; [by left|done|right; by exists p].
Qed.

(** Rules that reset the keys, grant [gs] and then leave keys alone. *)
Lemma setuser_exact pre gs post (u : U) k :
  Forall (fun g => pat_ok (grant_pat g)) gs -> forallb key_neutral post = true ->
  let u' := setuser (pre ++ ["resetkeys"; "resetchannels"] ++ (grant_text <$> gs) ++ post) u in
  (acl_read u' k = true <-> may_read gs k) /\ (acl_write u' k = true <-> may_write gs k).
Proof.
  intros Hg Hp u'. unfold u'. rewrite !setuser_app.
  destruct (setuser_neutral post (setuser (grant_text <$> gs) (setuser ["resetkeys"; "resetchannels"] (setuser pre u))) k Hp)
    as [-> ->].
  destruct (setuser_grants gs (setuser ["resetkeys"; "resetchannels"] (setuser pre u)) k Hg) as [-> ->].
  change (setuser ["resetkeys"; "resetchannels"] (setuser pre u))
    with (acl_rule "resetchannels" (acl_rule "resetkeys" (setuser pre u))).
  destruct (law_key_neutral "resetchannels" (acl_rule "resetkeys" (setuser pre u)) k eq_refl) as [-> ->].
  destruct (law_resetkeys (setuser pre u) k) as [-> ->]. split; split; [by intros [|]|auto|by intros [|]|auto].
Qed.

Lemma scan_off rules (u : U) : acl_scan (setuser (rules ++ commandCats) u) = false.
Proof. unfold commandCats. rewrite setuser_app. apply law_scan. Qed.
End acl_users.

(** ** The three rule lists, by what they grant *)

Definition node_grants (token : string) (serverUUIDs : list string) : list grant :=
  [GW (KPre ["dylaris"; "node"; token]); GW (KLit ["dylaris"; "discovery"; token]);
   GW (KLit ["beam"; "node-endpoint"; token]); GW (KLit ["dylaris"; "errors"; "node"; token]);
   GW (KPre ["node"; token]); GR (KPre ["sftp"; "node"; token]); GR (KPre ["sftp"; "auth"; token]);
   GW (KLit ["dylaris"; "migration"; "endpoint"; token]); GR (KPre ["dylaris"; "migration"; "endpoint"]);
   GW (KPre ["dylaris"; "migration"; "node"; token]); GR (KMid "dylaris:migration:" ":orchestration")] ++
  ((fun u => GW (KPre ["dylaris"; "server"; u])) <$> serverUUIDs) ++
  [GR (KLit ["dylaris"; "routing_mode"]); GR (KLit ["dylaris"; "file_access_mode"]); GR (KPre ["dylaris"; "placement"]);
   GR (KLit ["beam"; "bw_limit"]); GR (KLit ["beam"; "bw_up_internal"]); GR (KLit ["beam"; "bw_down_internal"]);
   GR (KLit ["beam"; "max_upload_bytes"]); GR (KLit ["beam"; "daily_upload_bytes"]);
   GR (KPre ["beam"; "access-epoch"]); GR (KPre ["dylaris"; "core"])].

Definition shipper_grants (serverUUID : string) : list grant :=
  let key leaf := ["dylaris"; "server"; serverUUID; leaf] in
  [GW (KLit (key "logs")); GW (KPre (key "logs")); GW (KLit (key "java-heap")); GW (KLit (key "input"));
   GW (KLit (key "log_filter_rcon")); GW (KLit (key "stop-requested"))].

Definition link_grants (nodeToken tunnelToken : string) : list grant :=
  [GW (KLit ["link"; tunnelToken]); GW (KLit ["online_link"; tunnelToken]);
   GW (KLit ["dylaris"; "errors"; "link"; nodeToken]); GW (KLit ["dylaris"; "link"; nodeToken; "stats"]);
   GW (KLit ["hub"; "link"; "discovery"; nodeToken]); GW (KLit ["beam"; "node"; nodeToken]);
   GR (KLit ["sys"; "edges"]); GR (KPre ["edge"; "registry"]); GR (KPre ["edge"; "cert"; "fingerprint"]);
   GR (KLit ["sys"; "beams"]); GR (KPre ["beam"; "registry"]); GR (KPre ["beam"; "cert"; "fingerprint"]);
   GR (KLit ["beam"; "node-endpoint"; nodeToken])].

Definition node_channels (token : string) (serverUUIDs : list string) : list string :=
  ["&" +:+ BackupResultsChannel token; "&" +:+ BackupRestoresChannel token; "&" +:+ ModResultsChannel token;
   "&" +:+ SetupResultsChannel token; "&" +:+ SFTPAuditChannel token] ++
  ((fun u => "&dylaris:server:" +:+ u +:+ ":stats:live") <$> serverUUIDs).

Ltac same_rules := cbn [fmap list_fmap app grant_text pat_text Join]; rewrite ?append_assoc; reflexivity.

Lemma BuildNodeACLRules_grants token password uuids :
  BuildNodeACLRules token password uuids =
  ["on"; ">" +:+ password] ++ ["resetkeys"; "resetchannels"] ++ (grant_text <$> node_grants token uuids) ++
  (node_channels token uuids ++ commandCats).
Proof.
  unfold BuildNodeACLRules, node_grants, node_channels, migrationKeys, SFTPAuthKeyPrefix, globalReadKeys.
  rewrite !fmap_app, <- !app_assoc.
  rewrite <- list_fmap_compose.
  assert (E : (grant_text ∘ (fun u => GW (KPre ["dylaris"; "server"; u]))) <$> uuids =
              (fun u => "~dylaris:server:" +:+ u +:+ ":*") <$> uuids).
  { apply list_fmap_ext. intros i u _. unfold compose. cbn [grant_text pat_text Join]. by rewrite !append_assoc. }
  rewrite E. cbn [app]. same_rules.
Qed.

Lemma BuildShipperACLRules_grants password uuid :
  BuildShipperACLRules password uuid =
  ["on"; ">" +:+ password] ++ ["resetkeys"; "resetchannels"] ++ (grant_text <$> shipper_grants uuid) ++ commandCats.
Proof. unfold BuildShipperACLRules, shipper_grants. same_rules. Qed.

Lemma BuildLinkACLRules_grants password token tunnel :
  BuildLinkACLRules password token tunnel =
  ["on"; ">" +:+ password] ++ ["resetkeys"; "resetchannels"] ++ (grant_text <$> link_grants token tunnel) ++ commandCats.
Proof. unfold BuildLinkACLRules, link_grants. same_rules. Qed.

Lemma node_grants_ok token uuids :
  plain token = true -> Forall (fun u => plain u = true) uuids ->
  Forall (fun g => pat_ok (grant_pat g)) (node_grants token uuids).
Proof.
  intros Ht Hu. unfold node_grants. rewrite !Forall_app, Forall_fmap. split.
  - repeat constructor; done.
  - split; [|repeat constructor; done]. eapply Forall_impl; [done|]. cbn. intros u Hp. repeat constructor; done.
Qed.

Lemma shipper_grants_ok uuid :
  plain uuid = true -> Forall (fun g => pat_ok (grant_pat g)) (shipper_grants uuid).
Proof. intros Hu. unfold shipper_grants. repeat constructor; done. Qed.

Lemma link_grants_ok token tunnel :
  plain token = true -> plain tunnel = true -> Forall (fun g => pat_ok (grant_pat g)) (link_grants token tunnel).
Proof. intros Ht Hu. unfold link_grants. repeat constructor; done. Qed.

Lemma node_channels_neutral token uuids : forallb key_neutral (node_channels token uuids ++ commandCats) = true.
Proof.
  unfold node_channels. rewrite !forallb_app, !andb_true_iff. split; [|done]. split; [done|].
  apply forallb_forall. intros r (u & <- & _)%in_map_iff. done.
Qed.

(** ** What a credential reaches *)

(** The keys that belong to the node [t]. *)
Definition node_space (t : string) (k : string) : Prop :=
  Split ":" k ∈ [["dylaris"; "discovery"; t]; ["beam"; "node-endpoint"; t]; ["dylaris"; "errors"; "node"; t];
                 ["dylaris"; "migration"; "endpoint"; t]] \/
  exists rest, Split ":" k ∈ (fun pre => pre ++ rest) <$>
    [["dylaris"; "node"; t]; ["node"; t]; ["dylaris"; "migration"; "node"; t]; ["sftp"; "node"; t]; ["sftp"; "auth"; t]].

Definition server_space (uuid : string) (k : string) : Prop :=
  exists rest, Split ":" k = ["dylaris"; "server"; uuid] ++ rest.

Definition is_orchestration (k : string) : Prop := exists m, k = "dylaris:migration:" +:+ m +:+ ":orchestration".

Lemma orchestration_segments k :
  is_orchestration k -> exists rest, Split ":" k = ["dylaris"; "migration"] ++ rest.
Proof. intros [m ->]. by exists (Split ":" (m +:+ ":orchestration")). Qed.

Ltac each_in H := repeat (apply elem_of_cons in H as [H|H]; [|]); try (by apply elem_of_nil in H).
Ltac in_list := first [apply list_elem_of_here|apply list_elem_of_further; in_list].

Lemma node_grants_elem g token uuids :
  g ∈ node_grants token uuids ->
  (exists u, u ∈ uuids /\ g = GW (KPre ["dylaris"; "server"; u])) \/ g ∈ node_grants token [].
Proof.
  unfold node_grants. intros H. apply elem_of_app in H as [H|H]; [right; apply elem_of_app; by left|].
  apply elem_of_app in H as [H|H].
  - left. apply list_elem_of_fmap in H as (u & -> & Hu). by exists u.
  - right. apply elem_of_app. by right.
Qed.

(** What of another node's keys a grant reaches: its transfer endpoint and
    the plan of a migration, both to read. *)
Lemma grants_foreign t1 t2 uuids k g :
  t1 <> t2 -> node_space t2 k -> g ∈ node_grants t1 uuids -> pat_match (grant_pat g) k ->
  g = GR (KPre ["dylaris"; "migration"; "endpoint"]) \/ g = GR (KMid "dylaris:migration:" ":orchestration").
Proof.
  intros Hne Hk Hg Hm. apply node_grants_elem in Hg as [(u & _ & ->)|Hg].
  - destruct Hm as (rest & _ & Hm). destruct Hk as [Hk|[r Hk]]; cbn [fmap list_fmap] in Hk; each_in Hk; rewrite Hm in Hk; done.
  - unfold node_grants in Hg. cbn [fmap list_fmap app] in Hg. each_in Hg; subst g; cbn [grant_pat pat_match] in Hm;
      first [by left|by right|exfalso]; first [destruct Hm as (rest & _ & Hm)|idtac];
      (destruct Hk as [Hk|[r Hk]]; cbn [fmap list_fmap] in Hk; each_in Hk; rewrite Hk in Hm; cbn [app] in Hm; congruence).
Qed.

Lemma grants_server t uuids v k g :
  v ∉ uuids -> server_space v k -> g ∈ node_grants t uuids -> ~ pat_match (grant_pat g) k.
Proof.
  intros Hv [r Hk] Hg Hm. apply node_grants_elem in Hg as [(u & Hu & ->)|Hg].
  - destruct Hm as (rest & _ & Hm). rewrite Hk in Hm. cbn [app] in Hm. congruence.
  - unfold node_grants in Hg. cbn [fmap list_fmap app] in Hg. each_in Hg; subst g; cbn [grant_pat pat_match] in Hm;
      first [apply orchestration_segments in Hm as [rest Hm]|destruct Hm as (rest & _ & Hm)|idtac];
      rewrite Hk in Hm; cbn [app] in Hm; congruence.
Qed.

Section reach.
Context {U : Type} `{!AclServer U, !AclLaws U}.

Lemma node_acl_exact token password uuids (u : U) k :
  plain token = true -> Forall (fun v => plain v = true) uuids ->
  let u' := setuser (BuildNodeACLRules token password uuids) u in
  (acl_read u' k = true <-> may_read (node_grants token uuids) k) /\
  (acl_write u' k = true <-> may_write (node_grants token uuids) k).
Proof.
  intros Ht Hu u'. unfold u'. rewrite BuildNodeACLRules_grants.
  apply setuser_exact; [by apply node_grants_ok|apply node_channels_neutral].
Qed.

Lemma shipper_acl_exact password uuid (u : U) k :
  plain uuid = true ->
  let u' := setuser (BuildShipperACLRules password uuid) u in
  (acl_read u' k = true <-> may_read (shipper_grants uuid) k) /\
  (acl_write u' k = true <-> may_write (shipper_grants uuid) k).
Proof.
  intros Hu u'. unfold u'. rewrite BuildShipperACLRules_grants. by apply setuser_exact; [apply shipper_grants_ok|].
Qed.
End reach.

(** C21: A node's Redis user is kept to its own node and its own servers.
    Whatever the user held before, after [BuildNodeACLRules] its root
    permission writes no key
    of another node and reads none but the transfer endpoint and the plan of a
    migration; it neither reads nor writes a key of a server that is not on
    its list, and it may not scan; and it has every key below its own node and
    its servers. Tokens and UUIDs are plain names, as Core mints them. *)
Theorem node_acl_isolated (U : Type) `{!AclServer U, !AclLaws U} token password uuids (u : U) :
  plain token = true -> Forall (fun v => plain v = true) uuids ->
  let u' := setuser (BuildNodeACLRules token password uuids) u in
  acl_scan u' = false /\
  (forall t k, t <> token -> node_space t k ->
    acl_write u' k = false /\
    (acl_read u' k = true ->
      (exists rest, Split ":" k = ["dylaris"; "migration"; "endpoint"] ++ rest) \/ is_orchestration k)) /\
  (forall v k, v ∉ uuids -> server_space v k -> acl_read u' k = false /\ acl_write u' k = false) /\
  (forall k rest, rest <> [] ->
    Split ":" k = ["dylaris"; "node"; token] ++ rest \/ (exists v, v ∈ uuids /\ Split ":" k = ["dylaris"; "server"; v] ++ rest) ->
    acl_read u' k = true /\ acl_write u' k = true).
Proof.
  intros Ht Hu u'.
  assert (He : forall k, (acl_read u' k = true <-> may_read (node_grants token uuids) k) /\
    (acl_write u' k = true <-> may_write (node_grants token uuids) k)) by (intros k; by apply node_acl_exact).
  split; [unfold u'; rewrite BuildNodeACLRules_grants, !app_assoc; apply scan_off|]. split; [|split].
  - intros t k Hne Hk. destruct (He k) as [Hr Hw]. split.
    + apply not_true_is_false. rewrite Hw. intros (pt & Hg & Hm).
      by destruct (grants_foreign token t uuids k _ (not_eq_sym Hne) Hk Hg Hm).
    + rewrite Hr. intros (g & Hg & Hm).
      destruct (grants_foreign token t uuids k g (not_eq_sym Hne) Hk Hg Hm) as [->| ->]; [left|by right].
      destruct Hm as (rest & _ & Hm). by exists rest.
  - intros v k Hv Hk. destruct (He k) as [Hr Hw].
    split; apply not_true_is_false; [rewrite Hr; intros (g & Hg & Hm)|rewrite Hw; intros (pt & Hg & Hm)];
      by eapply grants_server.
  - intros k rest Hne Hk. destruct (He k) as [-> ->].
    assert (Hg : exists pt, GW pt ∈ node_grants token uuids /\ pat_match pt k).
    { destruct Hk as [Hk|(v & Hv & Hk)].
      - exists (KPre ["dylaris"; "node"; token]). split; [by left|by exists rest].
      - exists (KPre ["dylaris"; "server"; v]). split; [|by exists rest].
        unfold node_grants. apply elem_of_app. right. apply elem_of_app. left. apply list_elem_of_fmap. by exists v. }
    destruct Hg as (pt & Hg & Hm). split; [by exists (GW pt)|by exists pt].
Qed.

(** The credential inside a game container reaches six names of its own
    server and nothing else: the log stream and what is below it, the Java
    heap, the input, the console filter and the stop request. So it can
    neither touch the keys that enforce the disk limit or the desired state
    of its own server, nor any key of another server, nor scan. *)
Lemma shipper_confined (U : Type) `{!AclServer U, !AclLaws U} password uuid (u : U) k :
  plain uuid = true ->
  let u' := setuser (BuildShipperACLRules password uuid) u in
  acl_scan u' = false /\ (acl_read u' k = true <-> acl_write u' k = true) /\
  (acl_write u' k = true <->
    (exists leaf, leaf ∈ ["logs"; "java-heap"; "input"; "log_filter_rcon"; "stop-requested"] /\
      Split ":" k = ["dylaris"; "server"; uuid; leaf]) \/
    (exists rest, rest <> [] /\ Split ":" k = ["dylaris"; "server"; uuid; "logs"] ++ rest)).
Proof.
  intros Hu u'. split; [unfold u'; rewrite BuildShipperACLRules_grants, !app_assoc; apply scan_off|].
  destruct (shipper_acl_exact password uuid u k Hu) as [Hr Hw]. fold u' in Hr, Hw. rewrite Hr, Hw.
  assert (Hg : forall g, g ∈ shipper_grants uuid -> g = GW (grant_pat g)).
  { intros g Hg. unfold shipper_grants in Hg. each_in Hg; by subst g. }
  split.
  - split; [|by intros (pt & Hp & Hm); exists (GW pt)]. intros (g & Hin & Hm).
    exists (grant_pat g). split; [|done]. by rewrite <- Hg.
  - unfold may_write, shipper_grants. split.
    + intros (pt & Hp & Hm). each_in Hp; injection Hp as ->; cbn [pat_match] in Hm;
        first [by right|left; eexists; split; [|exact Hm]; in_list].
    + intros [(leaf & Hl & Hk)|Hk]; [|exists (KPre ["dylaris"; "server"; uuid; "logs"]); split; [in_list|done]].
      exists (KLit ["dylaris"; "server"; uuid; leaf]). split; [|done]. each_in Hl; subst leaf; in_list.
Qed.

(** ** Passwords *)

Section password_lemmas.
Context {U : Type} `{!AclServer U, !AclLaws U}.

Lemma setuser_pass_neutral rules (u : U) q :
  forallb pass_neutral rules = true -> acl_password (setuser rules u) q = acl_password u q.
Proof.
  revert u. induction rules as [|r rules IH]; intros u H; [done|]. cbn in H. apply andb_true_iff in H as [H1 H2].
  change (setuser (r :: rules) u) with (setuser rules (acl_rule r u)). rewrite IH by done. by apply law_pass_neutral.
Qed.

(** After [on] and the new password, rules that leave passwords alone: the
    list has the new password beside the old ones. *)
Lemma setuser_password password rules (u : U) q :
  forallb pass_neutral rules = true ->
  acl_password (setuser (["on"; ">" +:+ password] ++ rules) u) q = acl_password u q || (q =? password)%string.
Proof.
  intros H. rewrite setuser_app, setuser_pass_neutral by done.
  change (setuser ["on"; ">" +:+ password] u) with (acl_rule (">" +:+ password) (acl_rule "on" u)).
  by rewrite law_password, law_pass_neutral.
Qed.

Lemma node_rules_password token password uuids (u : U) q :
  acl_password (setuser (BuildNodeACLRules token password uuids) u) q = acl_password u q || (q =? password)%string.
Proof.
  rewrite BuildNodeACLRules_grants. apply setuser_password. rewrite !forallb_app, !andb_true_iff. split; [done|].
  split; [|split; [|done]].
  - apply forallb_forall. intros r (g & <- & _)%in_map_iff. unfold pass_neutral. apply orb_true_intro. right.
    apply existsb_exists. destruct g as [pt|pt]; [exists "~"|exists "%"]; (split; [cbn; auto|]); [apply HasPrefix_app|].
    apply HasPrefix_spec. by exists ("R~" +:+ pat_text pt).
  - unfold node_channels. rewrite forallb_app, andb_true_iff. split; [done|].
    apply forallb_forall. intros r (v & <- & _)%in_map_iff. done.
Qed.

(** The rules add a password and drop none: a user that is still there keeps
    the ones it had, so one derived from a secret since cleared goes on
    working until the user is deleted. *)
Lemma old_password_survives token p1 p2 uuids1 uuids2 (u : U) :
  acl_password (setuser (BuildNodeACLRules token p2 uuids2) (setuser (BuildNodeACLRules token p1 uuids1) u)) p1 = true.
Proof. rewrite !node_rules_password, String.eqb_refl, orb_true_r. done. Qed.
End password_lemmas.

(** Under one secret the three kinds of password are apart, and so are the
    containers of a node, where the derivation does not collide. *)
Lemma passwords_apart derive secret t t' v w :
  (forall d d', derive secret d = derive secret d' -> d = d') ->
  NodePassword derive secret t <> LinkPassword derive secret t' /\
  NodePassword derive secret t <> ShipperPassword derive secret t' v /\
  LinkPassword derive secret t <> ShipperPassword derive secret t' v /\
  (ShipperPassword derive secret t v = ShipperPassword derive secret t w -> v = w).
Proof.
  intros Hi. unfold NodePassword, LinkPassword, ShipperPassword.
  split; [|split; [|split]]; intros E%Hi; try discriminate. by do 3 apply append_inj_l in E.
Qed.

(** The copies the node carries derive what Core derives. *)
Lemma node_copies_agree derive secret token x ts :
  aclNodePassword derive secret token = NodePassword derive secret token /\
  aclShipperPassword derive secret token x = ShipperPassword derive secret token x /\
  aclProof derive secret token = Proof_ derive secret token /\
  aclChallengeResponse derive secret x = ChallengeResponse derive secret x /\
  aclHeartbeatSig derive secret token ts = HeartbeatSig derive secret token ts /\
  aclClusterProof derive secret token = ClusterProof derive secret token /\
  sftpAuthKey token x = SFTPAuthKey token x /\ aclNodeUsername token = NodeUsername token /\
  aclShipperUsername token x = ShipperUsername token x.
Proof. unfold SFTPAuthKey, SFTPAuthKeyPrefix. rewrite !append_assoc. repeat split. Qed.

(** ** The sweep *)

Lemma HasPrefix_node x : HasPrefix ("node-" +:+ x) nodeACLPrefix = true.
Proof. apply HasPrefix_app. Qed.

(** Names of two nodes whose tokens have one length do not meet. *)
Definition node_names (token : string) (x : string) : Prop :=
  x = NodeUsername token \/ x = LinkUsername token \/ exists v, x = ShipperUsername token v.

Lemma node_names_disjoint t1 t2 x :
  String.length t1 = String.length t2 -> node_names t1 x -> node_names t2 x -> t1 = t2.
Proof.
  intros Hl H1 H2.
  assert (Hn : forall t, node_names t x -> exists r, x = "node-" +:+ (t +:+ r)).
  { unfold node_names, NodeUsername, LinkUsername, ShipperUsername.
    intros t [->|[->|[v ->]]]; [exists ""; by rewrite append_nil_r|by eexists|by eexists]. }
  apply Hn in H1 as [r1 ->]. apply Hn in H2 as [r2 E]. apply append_inj_l in E.
  by apply append_inj_len in E as [-> _].
Qed.

Section sweep_lemmas.
Context {U : Type} `{!AclServer U} (derive : string -> string -> string) (sha256 : string -> string).
  Implicit Types us : gmap string U.

Lemma delusers_other os i names us x : x ∉ names -> delusers os i names us !! x = us !! x.
Proof.
  revert i us. induction names as [|u names IH]; intros i us H; [done|].
  apply not_elem_of_cons in H as [H1 H2]. cbn [delusers]. rewrite IH by done.
  unfold acl_deluser. destruct (applied (os i)); [|done]. by apply lookup_delete_ne.
Qed.

Lemma delusers_gone os i names us x : us !! x = None -> delusers os i names us !! x = None.
Proof.
  revert i us. induction names as [|u names IH]; intros i us H; [done|]. cbn [delusers]. apply IH.
  unfold acl_deluser. destruct (applied (os i)); [|done]. destruct (decide (u = x)) as [->|Hne].
  - apply lookup_delete_eq.
  - by rewrite lookup_delete_ne.
Qed.

Lemma delusers_all os i names us x :
  (forall j, applied (os j) = true) -> x ∈ names -> delusers os i names us !! x = None.
Proof.
  intros Ho. revert i us. induction names as [|u names IH]; intros i us Hx; [by apply elem_of_nil in Hx|].
  cbn [delusers]. apply elem_of_cons in Hx as [->|Hx]; [|by apply IH].
  apply delusers_gone. unfold acl_deluser. rewrite Ho. apply lookup_delete_eq.
Qed.

Lemma users_listed us x : x ∈ (map_to_list us).*1 <-> is_Some (us !! x).
Proof.
  rewrite list_elem_of_fmap. split.
  - intros ([k u] & -> & Hk%elem_of_map_to_list). by exists u.
  - intros [u Hu]. exists (x, u). split; [done|by apply elem_of_map_to_list].
Qed.

Lemma run_other os i cmds us x : x ∉ cmds.*1 -> (run_setusers os i cmds us).2 !! x = us !! x.
Proof.
  revert i us. induction cmds as [|[name rules] cmds IH]; intros i us H; [done|].
  cbn [fmap list_fmap fst] in H. apply not_elem_of_cons in H as [H1 H2]. cbn [run_setusers].
  assert (E : acl_setuser (os i) name rules us !! x = us !! x).
  { unfold acl_setuser. destruct (applied (os i)); [|done]. by apply lookup_insert_ne. }
  destruct (replied (os i)); [rewrite IH|]; done.
Qed.

Lemma run_replied os i cmds us name rules :
  (forall j, os j = Replied) -> NoDup cmds.*1 -> (name, rules) ∈ cmds ->
  (run_setusers os i cmds us).2 !! name = Some (setuser rules (default acl_fresh (us !! name))).
Proof.
  intros Ho. revert i us. induction cmds as [|[x r] cmds IH]; intros i us Hd Hin; [by apply elem_of_nil in Hin|].
  cbn [fmap list_fmap fst] in Hd. apply NoDup_cons in Hd as [Hx Hd]. cbn [run_setusers].
  unfold acl_setuser. rewrite Ho. cbn [applied replied]. apply elem_of_cons in Hin as [[= -> ->]|Hin].
  - rewrite run_other by done. by rewrite lookup_insert_eq.
  - assert (Hne : x <> name) by (intros ->; apply Hx, list_elem_of_fmap; by exists (name, rules)).
    rewrite IH by done. by rewrite lookup_insert_ne.
Qed.

Lemma setusers_names token tunnel secret uuids x :
  x ∈ (node_setusers derive token tunnel secret uuids).*1 -> node_names token x.
Proof.
  unfold node_setusers, node_names. cbn [fmap list_fmap fst]. intros H. apply elem_of_cons in H as [->|H]; [by left|].
  rewrite fmap_app in H. apply elem_of_app in H as [H|H].
  - rewrite <- list_fmap_compose in H. apply list_elem_of_fmap in H as (v & -> & _). right; right. by exists v.
  - apply list_elem_of_singleton in H as ->. right; by left.
Qed.

Lemma node_name_first t r : NodeUsername t <> NodeUsername t +:+ String "-" r.
Proof.
  rewrite <- (append_nil_r (NodeUsername t)) at 1. intros E%append_inj_l. discriminate.
Qed.

Lemma setusers_NoDup token tunnel secret uuids :
  NoDup uuids -> NoDup (node_setusers derive token tunnel secret uuids).*1.
Proof.
  intros Hu. unfold node_setusers. cbn [fmap list_fmap fst]. rewrite fmap_app, <- list_fmap_compose.
  cbn [fmap list_fmap fst]. constructor.
  - rewrite elem_of_app, list_elem_of_fmap, list_elem_of_singleton. intros [(v & E & _)|E].
    + by apply (node_name_first token ("shipper-" +:+ v)).
    + by apply (node_name_first token "link").
  - apply NoDup_app. split; [|split].
    + apply NoDup_fmap_2; [|done]. intros v w E. unfold compose, ShipperUsername in E. cbn [fst] in E.
      by do 3 apply append_inj_l in E.
    + intros x (v & -> & _)%list_elem_of_fmap E. apply list_elem_of_singleton in E.
      unfold compose, ShipperUsername, LinkUsername in E. cbn [fst] in E. apply append_inj_l, append_inj_l in E. discriminate.
    + apply NoDup_singleton.
Qed.

Lemma sweep_node_other load servers cs os n us x :
  ~ node_names (an_Token n) x -> sweep_node derive sha256 load servers cs os n us !! x = us !! x.
Proof.
  intros H. unfold sweep_node. destruct (load (an_ID n)); try done. destruct (servers (an_ID n)); [|done].
  apply run_other. by intros Hx%setusers_names.
Qed.

Lemma sweep_nodes_other load servers cs os i nodes us x :
  Forall (fun n => ~ node_names (an_Token n) x) nodes ->
  sweep_nodes derive sha256 load servers cs os i nodes us !! x = us !! x.
Proof.
  revert i us. induction nodes as [|n nodes IH]; intros i us H; [done|]. apply Forall_cons in H as [H1 H2].
  cbn [sweep_nodes]. rewrite IH by done. by apply sweep_node_other.
Qed.

(** A node whose own commands answer is provisioned, whatever happens to the
    others. *)
Lemma sweep_nodes_at load servers cs os i nodes us k n secret uuids len name rules :
  NoDup (an_Token <$> nodes) -> Forall (fun n => String.length (an_Token n) = len) nodes ->
  nodes !! k = Some n -> load (an_ID n) = SecretOf secret -> servers (an_ID n) = Some uuids -> NoDup uuids ->
  (forall j, os (i + k)%nat j = Replied) ->
  (name, rules) ∈ node_setusers derive (an_Token n) (LinkTunnelToken sha256 (an_Token n) cs) secret uuids ->
  sweep_nodes derive sha256 load servers cs os i nodes us !! name =
  Some (setuser rules (default acl_fresh (us !! name))).
Proof.
  intros Hd Hlen Hk Hl Hs Hu Ho Hin.
  assert (Hn : node_names (an_Token n) name).
  { eapply setusers_names, list_elem_of_fmap. by exists (name, rules). }
  revert i k us Hd Hlen Hk Ho. induction nodes as [|m nodes IH]; intros i k us Hd Hlen Hk Ho; [done|].
  cbn [fmap list_fmap] in Hd. apply NoDup_cons in Hd as [Hm Hd]. apply Forall_cons in Hlen as [Hlm Hlen].
  cbn [sweep_nodes]. destruct k as [|k].
  - injection Hk as ->. rewrite sweep_nodes_other.
    + unfold sweep_node. rewrite Hl, Hs. apply run_replied; [|by apply setusers_NoDup|done].
      intros j. rewrite <- (Nat.add_0_r i). apply Ho.
    + apply Forall_forall. intros n' Hn' Hname. apply Hm, list_elem_of_fmap. exists n'. split; [|done].
      eapply node_names_disjoint; [|done|done]. rewrite Forall_forall in Hlen. by rewrite Hlm, (Hlen n' Hn').
  - cbn in Hk. rewrite (IH (S i) k) by (try done; intros j; rewrite <- plus_n_Sm in Ho; apply Ho).
    rewrite sweep_node_other; [done|]. intros Hname. apply Hm, list_elem_of_fmap. exists n.
    assert (Hn' : n ∈ nodes) by by apply list_elem_of_lookup_2 in Hk.
    split; [|done]. eapply node_names_disjoint; [|done|done]. rewrite Forall_forall in Hlen. by rewrite Hlm, (Hlen n Hn').
Qed.
End sweep_lemmas.

Lemma servers_by_token_spec servers nodes m0 m :
  servers_by_token servers nodes m0 = Some m -> NoDup (an_Token <$> nodes) ->
  (forall n, n ∈ nodes -> m !! an_Token n = servers (an_ID n)) /\
  (forall t, t ∉ an_Token <$> nodes -> m !! t = m0 !! t).
Proof.
  revert m0. induction nodes as [|n nodes IH]; intros m0 H Hd; cbn [servers_by_token] in H.
  { injection H as ->. split; [|done]. intros n Hn. by apply elem_of_nil in Hn. }
  destruct (servers (an_ID n)) as [uuids|] eqn:E; [|done].
  cbn [fmap list_fmap] in Hd |- *. apply NoDup_cons in Hd as [Hn Hd]. destruct (IH _ H Hd) as [IH1 IH2]. split.
  - intros n' Hin. apply elem_of_cons in Hin as [->|Hin]; [|by apply IH1]. rewrite IH2 by done. by rewrite lookup_insert_eq.
  - intros t [Hne Ht]%not_elem_of_cons. rewrite IH2 by done. by rewrite lookup_insert_ne.
Qed.

Lemma servers_by_token_total servers nodes m0 :
  Forall (fun n => is_Some (servers (an_ID n))) nodes -> is_Some (servers_by_token servers nodes m0).
Proof.
  revert m0. induction nodes as [|n nodes IH]; intros m0 H; cbn [servers_by_token]; [by eexists|].
  apply Forall_cons in H as [[l ->] H2]. by apply IH.
Qed.

Lemma expected_spec m x :
  x ∈ ExpectedNodeACLUsers m <->
  exists t l, m !! t = Some l /\ (x = NodeUsername t \/ x = LinkUsername t \/ exists v, v ∈ l /\ x = ShipperUsername t v).
Proof.
  unfold ExpectedNodeACLUsers. rewrite elem_of_list_to_set, list_elem_of_In, in_flat_map. split.
  - intros ([t l] & Hin & Hx). exists t, l. rewrite <- list_elem_of_In in Hin. rewrite <- list_elem_of_In in Hx.
    split; [by apply elem_of_map_to_list|]. apply elem_of_cons in Hx as [->|Hx]; [by left|].
    apply elem_of_cons in Hx as [->|Hx]; [right; by left|]. apply list_elem_of_fmap in Hx as (v & -> & Hv).
    right; right. by exists v.
  - intros (t & l & Hm & Hx). exists (t, l). rewrite <- !list_elem_of_In.
    split; [by apply elem_of_map_to_list|]. rewrite !elem_of_cons, list_elem_of_fmap.
    destruct Hx as [->|[->|(v & Hv & ->)]]; [by left|right; by left|right; right; by exists v].
Qed.

Lemma unknown_spec users expected x :
  x ∈ UnknownNodeACLUsers users expected <-> x ∈ users /\ HasPrefix x nodeACLPrefix = true /\ x ∉ expected.
Proof.
  unfold UnknownNodeACLUsers. rewrite list_elem_of_In, filter_In, <- list_elem_of_In, andb_true_iff, negb_true_iff.
  by rewrite bool_decide_eq_false.
Qed.

Section prune.
Context {U : Type} `{!AclServer U}.
  Implicit Types us : gmap string U.

(** Whatever fails, pruning leaves alone a user that is expected and a user
    outside Core's names. *)
Lemma prune_keeps listed servers os nodes us x :
  NoDup (an_Token <$> nodes) ->
  (HasPrefix x nodeACLPrefix = true -> exists n, n ∈ nodes /\ forall l, servers (an_ID n) = Some l ->
    x = NodeUsername (an_Token n) \/ x = LinkUsername (an_Token n) \/ exists v, v ∈ l /\ x = ShipperUsername (an_Token n) v) ->
  pruneOrphanNodeACLs listed servers os nodes us !! x = us !! x.
Proof.
  intros Hd Hx. unfold pruneOrphanNodeACLs. destruct nodes as [|n0 nodes]; [done|]. destruct listed; [|done].
  cbn [negb]. destruct (servers_by_token servers (n0 :: nodes) ∅) as [m|] eqn:E; [|done].
  apply delusers_other. rewrite unknown_spec. intros (_ & Hp & Hex). destruct (Hx Hp) as (n & Hn & Hl).
  destruct (servers_by_token_spec _ _ _ _ E Hd) as [Hm _]. specialize (Hm n Hn).
  assert (Hsome : is_Some (servers (an_ID n))).
  { destruct (servers (an_ID n)) eqn:En; [by eexists|]. exfalso. clear -E Hn En.
    revert E. generalize (∅ : gmap string (list string)). revert Hn. induction (n0 :: nodes) as [|n' ns IH]; intros Hn m0 E.
    - by apply elem_of_nil in Hn.
    - cbn [servers_by_token] in E. apply elem_of_cons in Hn as [->|Hn]; [by rewrite En in E|].
      destruct (servers (an_ID n')); [|done]. by eapply IH. }
  destruct Hsome as [l Hs]. apply Hex, expected_spec. exists (an_Token n), l. rewrite Hm, Hs. by auto.
Qed.

(** When every listing and every deletion works, nothing else is left in
    Core's names. *)
Lemma prune_all servers os nodes us x :
  NoDup (an_Token <$> nodes) -> nodes <> [] -> Forall (fun n => is_Some (servers (an_ID n))) nodes ->
  (forall j, applied (os j) = true) -> HasPrefix x nodeACLPrefix = true ->
  is_Some (pruneOrphanNodeACLs true servers os nodes us !! x) ->
  exists n l, n ∈ nodes /\ servers (an_ID n) = Some l /\
    (x = NodeUsername (an_Token n) \/ x = LinkUsername (an_Token n) \/ exists v, v ∈ l /\ x = ShipperUsername (an_Token n) v).
Proof.
  intros Hd Hne Hs Ho Hp. unfold pruneOrphanNodeACLs. destruct nodes as [|n0 nodes]; [done|]. cbn [negb].
  destruct (servers_by_token_total servers (n0 :: nodes) ∅ Hs) as [m E]. rewrite E. intros Hx.
  destruct (servers_by_token_spec _ _ _ _ E Hd) as [Hm Hm0].
  assert (Hin : x ∈ ExpectedNodeACLUsers m).
  { destruct (decide (x ∈ ExpectedNodeACLUsers m)) as [|Hn]; [done|]. exfalso. destruct Hx as [u Hx].
    rewrite delusers_all in Hx; [done|done|]. apply unknown_spec. split; [|done]. apply users_listed.
    destruct (us !! x) eqn:Eu; [by eexists|]. by rewrite delusers_gone in Hx. }
  apply expected_spec in Hin as (t & l & Ht & Hname).
  destruct (decide (t ∈ an_Token <$> n0 :: nodes)) as [Hin|Hnin].
  - apply list_elem_of_fmap in Hin as (n & -> & Hn). exists n, l. rewrite <- (Hm n Hn). auto.
  - rewrite (Hm0 t Hnin) in Ht. by rewrite lookup_empty in Ht.
Qed.
End prune.

(** A sweep of the reconciler gives every node its users and leaves no
    other. Each node whose secret and servers are read and whose own commands
    answer has afterwards its agent, shipper and link users, each with exactly
    the rules built for it, whatever fails for the other nodes; a user outside
    Core's names is never touched; and when the listings and deletions work,
    every remaining user in Core's names is the agent, the link or the shipper
    of a server of a listed node. Tokens are minted with one length. *)
Lemma sweep_provisions (U : Type) `{!AclServer U} derive sha256 nodes load servers servers' cs os listed
    (us : gmap string U) len :
  NoDup (an_Token <$> nodes) -> Forall (fun n => String.length (an_Token n) = len) nodes ->
  let us' := reconcileOnce derive sha256 (Some nodes) load servers servers' cs os listed us in
  (forall k n secret uuids name rules,
    nodes !! k = Some n -> load (an_ID n) = SecretOf secret -> servers (an_ID n) = Some uuids -> NoDup uuids ->
    (forall l, servers' (an_ID n) = Some l -> uuids ⊆ l) -> (forall j, os (S k) j = Replied) ->
    (name, rules) ∈ node_setusers derive (an_Token n) (LinkTunnelToken sha256 (an_Token n) cs) secret uuids ->
    us' !! name = Some (setuser rules (default acl_fresh (us !! name)))) /\
  (forall x, HasPrefix x nodeACLPrefix = false -> us' !! x = us !! x) /\
  (listed = true -> nodes <> [] -> Forall (fun n => is_Some (servers' (an_ID n))) nodes ->
    (forall j, applied (os 0%nat j) = true) ->
    forall x, HasPrefix x nodeACLPrefix = true -> is_Some (us' !! x) ->
    exists n l, n ∈ nodes /\ servers' (an_ID n) = Some l /\
      (x = NodeUsername (an_Token n) \/ x = LinkUsername (an_Token n) \/
       exists v, v ∈ l /\ x = ShipperUsername (an_Token n) v)).
Proof.
  intros Hd Hlen us'. unfold us', reconcileOnce. split; [|split].
  - intros k n secret uuids name rules Hk Hl Hs Hu Hsub Ho Hin. rewrite prune_keeps; [|done|].
    + by eapply sweep_nodes_at.
    + intros _. exists n. split; [by eapply list_elem_of_lookup_2|]. intros l Hsl.
      unfold node_setusers in Hin. apply elem_of_cons in Hin as [[= -> _]|Hin]; [by left|].
      apply elem_of_app in Hin as [Hin|Hin].
      * apply list_elem_of_fmap in Hin as (v & [= -> _] & Hv). right; right. exists v. split; [by apply (Hsub l)|done].
      * apply list_elem_of_singleton in Hin as [= -> _]. right; by left.
  - intros x Hx. rewrite prune_keeps; [|done|by rewrite Hx]. apply sweep_nodes_other. apply Forall_forall.
    intros n _ Hn. revert Hx. destruct Hn as [->|[->|[v ->]]]; unfold NodeUsername, LinkUsername, ShipperUsername;
      by rewrite HasPrefix_node.
  - intros -> Hne Hs Ho x. by apply prune_all.
Qed.

(** ** A Redis that satisfies the laws *)

Record acl_user := mkAclUser {
  au_passwords : list string;
  au_read : list string;
  au_write : list string;
  au_scan : bool }.

Definition acl_user_rule (r : string) (u : acl_user) : acl_user :=
  match r with
  | String ">" pw => mkAclUser (pw :: au_passwords u) (au_read u) (au_write u) (au_scan u)
  | String "~" p => mkAclUser (au_passwords u) (p :: au_read u) (p :: au_write u) (au_scan u)
  | String "%" (String "R" (String "~" p)) => mkAclUser (au_passwords u) (p :: au_read u) (au_write u) (au_scan u)
  | _ =>
      if (r =? "resetkeys")%string then mkAclUser (au_passwords u) [] [] (au_scan u)
      else if (r =? "+@read")%string then mkAclUser (au_passwords u) (au_read u) (au_write u) true
      else if (r =? "-scan")%string then mkAclUser (au_passwords u) (au_read u) (au_write u) false
      else u
  end.

#[export] Instance acl_user_server : AclServer acl_user := {
  acl_fresh := mkAclUser [] [] [] false;
  acl_rule := acl_user_rule;
  acl_password u q := existsb (String.eqb q) (au_passwords u);
  acl_read u k := existsb (fun p => star_match p k) (au_read u);
  acl_write u k := existsb (fun p => star_match p k) (au_write u);
  acl_scan := au_scan }.

Ltac by_char c := destruct c as [[] [] [] [] [] [] [] []]; try discriminate; try done.

Lemma acl_user_other r u :
  (forall s, r <> String ">" s) -> (forall s, r <> String "~" s) -> (forall s, r <> String "%" s) ->
  au_passwords (acl_user_rule r u) = au_passwords u /\
  (r <> "resetkeys" -> au_read (acl_user_rule r u) = au_read u /\ au_write (acl_user_rule r u) = au_write u).
Proof.
  intros H1 H2 H3.
  assert (E : acl_user_rule r u =
    if (r =? "resetkeys")%string then mkAclUser (au_passwords u) [] [] (au_scan u)
    else if (r =? "+@read")%string then mkAclUser (au_passwords u) (au_read u) (au_write u) true
    else if (r =? "-scan")%string then mkAclUser (au_passwords u) (au_read u) (au_write u) false
    else u).
  { destruct r as [|c r]; [done|]. specialize (H1 r). specialize (H2 r). specialize (H3 r). by_char c. }
  rewrite E. destruct (String.eqb_spec r "resetkeys"); [done|].
  by destruct (r =? "+@read")%string, (r =? "-scan")%string.
Qed.

Lemma neutral_prefix r l :
  existsb (HasPrefix r) ((fun c => String c "") <$> l) = true -> exists c s, c ∈ l /\ r = String c s.
Proof.
  intros (p & Hp & H)%existsb_exists. apply list_elem_of_In, list_elem_of_fmap in Hp as (c & -> & Hc).
  apply HasPrefix_spec in H as [s ->]. by exists c, s.
Qed.

Lemma acl_user_key_neutral r u :
  key_neutral r = true ->
  au_read (acl_user_rule r u) = au_read u /\ au_write (acl_user_rule r u) = au_write u.
Proof.
  intros H. unfold key_neutral in H. apply orb_true_iff in H as [H|H].
  { apply orb_true_iff in H as [->%String.eqb_eq| ->%String.eqb_eq]; done. }
  apply (neutral_prefix r [">"; "&"; "+"; "-"]%char) in H as (c & s & Hc & ->).
  each_in Hc; subst c; [done| | |]; by apply acl_user_other.
Qed.

Lemma acl_user_pass_neutral r u : pass_neutral r = true -> au_passwords (acl_user_rule r u) = au_passwords u.
Proof.
  intros H. unfold pass_neutral in H. rewrite <- !orb_assoc in H.
  apply orb_true_iff in H as [->%String.eqb_eq|H]; [done|]. apply orb_true_iff in H as [->%String.eqb_eq|H]; [done|].
  apply orb_true_iff in H as [->%String.eqb_eq|H]; [done|].
  apply (neutral_prefix r ["~"; "%"; "&"; "+"; "-"]%char) in H as (c & s & Hc & ->).
  each_in Hc; subst c; [done| | | |]; try by apply acl_user_other.
  destruct s as [|c s]; [done|]. by_char c. destruct s as [|d s]; [done|]. by_char d.
Qed.

#[export] Instance acl_user_laws : AclLaws acl_user.
Proof.
  split; cbn [acl_read acl_write acl_password acl_rule acl_scan acl_fresh acl_user_server].
  - done.
  - intros p u k _. change ("~" +:+ p) with (String "~" p). cbn. by rewrite (orb_comm (star_match p k)), (orb_comm (star_match p k)).
  - intros p u k _. change ("%R~" +:+ p) with (String "%" (String "R" (String "~" p))). cbn.
    by rewrite (orb_comm (star_match p k)).
  - intros r u k H. by destruct (acl_user_key_neutral r u H) as [-> ->].
  - intros pw u q. change (">" +:+ pw) with (String ">" pw). cbn. by rewrite (orb_comm (q =? pw)%string).
  - intros r u q H. by rewrite acl_user_pass_neutral.
  - done.
  - done.
Qed.

Lemma node_acl_isolated_witness :
  let u := setuser (BuildNodeACLRules "aa" "pw" ["s1"]) (acl_fresh : acl_user) in
  acl_write u "dylaris:node:bb:cmds" = false /\ acl_read u "dylaris:server:s2:input" = false.
Proof.
  assert (H : plain "aa" = true /\ Forall (fun v => plain v = true) ["s1"]).
  { split; [reflexivity|]. constructor; [reflexivity|constructor]. }
  destruct (node_acl_isolated acl_user "aa" "pw" ["s1"] acl_fresh (proj1 H) (proj2 H)) as (_ & Hn & Hs & _).
  split.
  - refine (proj1 (Hn "bb" "dylaris:node:bb:cmds" _ _)); [discriminate|].
    right. exists ["cmds"]. left.
  - refine (proj1 (Hs "s2" "dylaris:server:s2:input" _ _)).
    + intros E. apply list_elem_of_singleton in E. discriminate.
    + exists ["input"]. reflexivity.
Defined.

Lemma shipper_confined_witness :
  acl_write (setuser (BuildShipperACLRules "pw" "s1") (acl_fresh : acl_user)) "dylaris:server:s1:logs" = true.
Proof.
  apply (shipper_confined acl_user "pw" "s1" acl_fresh "dylaris:server:s1:logs" eq_refl).
  left. exists "logs". split; [left|reflexivity].
Defined.

Lemma sweep_provisions_witness :
  let us' := reconcileOnce (fun s d => s +:+ d) (fun s => s) (Some [mkAclNode 1 "aa"]) (fun _ => SecretOf "k")
    (fun _ => Some ["s1"]) (fun _ => Some ["s1"]) "c" (fun _ _ => Replied) true
    {[ "node-zz" := (acl_fresh : acl_user); "default" := acl_fresh ]} in
  us' !! "node-zz" = None /\ us' !! "default" = Some acl_fresh.
Proof.
  assert (H : NoDup (an_Token <$> [mkAclNode 1 "aa"]) /\
              Forall (fun n => String.length (an_Token n) = 2%nat) [mkAclNode 1 "aa"]).
  { split; [apply NoDup_singleton|]. constructor; [reflexivity|constructor]. }
  destruct (sweep_provisions acl_user (fun s d => s +:+ d) (fun s => s) [mkAclNode 1 "aa"] (fun _ => SecretOf "k")
    (fun _ => Some ["s1"]) (fun _ => Some ["s1"]) "c" (fun _ _ => Replied) true
    {[ "node-zz" := (acl_fresh : acl_user); "default" := acl_fresh ]} 2 (proj1 H) (proj2 H)) as (_ & Hd & _).
  intros us'. split; [vm_compute; reflexivity|]. unfold us'. rewrite Hd; vm_compute; reflexivity.
Defined.
