(* ===== verification/NodeAuth.v ===== *)
(** * Keys and signatures of a node's login (pkg/nodeauth, core/pkg/crypto)

    What a node signs and what Core accepts as a key, the fingerprint a person
    compares, and the sealing of the node secret in the database, with
    encoding/hex. A byte is an [ascii], a byte slice a [string]. Ed25519,
    SHA-256 and AES-GCM are parameters. *)

From Stdlib Require Import Ascii String.
From S2P Require Import Prelude GoStrings GoNet.
Open Scope string_scope.
Open Scope list_scope.
Open Scope Z_scope.

Notation length := List.length.

(** ** encoding/hex *)

Fixpoint EncodeToString (b : string) : string :=
  match b with
  | EmptyString => ""
  | String c b => String (hex_digit (code c / 16)) (String (hex_digit (code c mod 16)) (EncodeToString b))
  end.

Fixpoint DecodeString (s : string) : option string :=
  match s with
  | EmptyString => Some ""
  | String _ EmptyString => None
  | String a (String b s) =>
      match hex_val a, hex_val b, DecodeString s with
      | Some x, Some y, Some r => Some (String (ascii_of_nat (Z.to_nat (x * 16 + y))) r)
      | _, _, _ => None
      end
  end.

(** [s[0:n]]. *)
Fixpoint take_str (n : nat) (s : string) : string :=
  match n, s with
  | S n, String c s => String c (take_str n s)
  | _, _ => ""
  end.

(** ** pkg/nodeauth *)

Definition challengeDomain : string := "dylaris-node-auth:v1:".
Definition challengeMessage (identity nonce : string) : string := challengeDomain +:+ identity +:+ ":" +:+ nonce.

Definition smallOrder : list string :=
  (fun h => default "" (DecodeString h)) <$>
  ["0000000000000000000000000000000000000000000000000000000000000000";
   "0100000000000000000000000000000000000000000000000000000000000000";
   "26e8958fc2b227b045c3f489f2ef98f0d5dfac05d3c63339b13802886d53fc05";
   "c7176a703d4dd84fba3c0b760d10670f2a2053fa2c39ccc64ec7fd7792ac037a";
   "ecffffffffffffffffffffffffffffffffffffffffffffffffffffffffffff7f";
   "edffffffffffffffffffffffffffffffffffffffffffffffffffffffffffff7f";
   "eeffffffffffffffffffffffffffffffffffffffffffffffffffffffffffff7f"].

(** The byte at an index below the length. *)
Definition byte_at (i : nat) (s : string) : Z := match String.get i s with Some c => code c | None => 0 end.

Definition ValidPublicKey (pub : string) : bool :=
  Nat.eqb (String.length pub) 32 &&
  negb (existsb (fun bad =>
    (take_str 31 pub =? take_str 31 bad)%string && (Z.land (byte_at 31 pub) 127 =? byte_at 31 bad)) smallOrder).

Definition ShortFingerprint (fp : string) : string :=
  if Nat.ltb (String.length fp) 16 then fp
  else take_str 4 fp +:+ "-" +:+ take_str 4 (drop_str 4 fp) +:+ "-" +:+
       take_str 4 (drop_str 8 fp) +:+ "-" +:+ take_str 4 (drop_str 12 fp).

Section signatures.
(** [ed25519.Sign] and [ed25519.Verify]; [sha256] of a byte slice, as bytes. *)
Context (ed_Sign : string -> string -> string) (ed_Verify : string -> string -> string -> bool) (sha256 : string -> string).

Definition SignChallenge (key identity nonce : string) : string := ed_Sign key (challengeMessage identity nonce).
Definition VerifyChallenge (pub identity nonce sig : string) : bool :=
  if negb (ValidPublicKey pub) then false else ed_Verify pub (challengeMessage identity nonce) sig.

Definition KeyFingerprint (pub : string) : string :=
  if (pub =? "")%string then "" else EncodeToString (sha256 pub).
End signatures.

(** ** node_self_service.go: the fingerprint as a person copies it

    [strings.ToLower] changes letters outside ASCII as well; none of them
    becomes a hexadecimal digit, so the text is refused all the same. *)
Definition to_lower (c : ascii) : ascii :=
  if (65 <=? code c) && (code c <=? 90) then ascii_of_nat (Z.to_nat (code c + 32)) else c.
Fixpoint map_str (f : ascii -> ascii) (s : string) : string :=
  match s with EmptyString => "" | String c s => String (f c) (map_str f s) end.
Fixpoint drop_char (x : ascii) (s : string) : string :=
  match s with EmptyString => "" | String c s => if Ascii.eqb c x then drop_char x s else String c (drop_char x s) end.
Definition lower_hex (c : ascii) : bool := is_digit c || ((97 <=? code c) && (code c <=? 102)).

Definition normalizeFingerprint (s : string) : string :=
  let s := drop_char "-" (map_str to_lower (TrimSpace s)) in
  if all_chars lower_hex s then s else "".

(** ** core/pkg/crypto: sealing at rest *)

Section at_rest.
(** SHA-256, [gcm.Seal] and [gcm.Open] under a 32-byte key. *)
Context (sha256 : string -> string) (gcm_Seal : string -> string -> string -> string)
  (gcm_Open : string -> string -> string -> option string).

Definition nonceSize : nat := 12.
Definition DeriveKey (baseSecret purpose : string) : string :=
  sha256 (baseSecret +:+ String (ascii_of_nat 31) purpose).

(** [nonce] is what the random source gave, if it did. *)
Definition Encrypt (nonce : option string) (key plaintext : string) : option string :=
  if negb (Nat.eqb (String.length key) 32) then None
  else match nonce with
       | None => None
       | Some nonce => Some (EncodeToString (nonce +:+ gcm_Seal key nonce plaintext))
       end.

Definition Decrypt (key encoded : string) : option string :=
  if negb (Nat.eqb (String.length key) 32) then None
  else match DecodeString encoded with
       | None => None
       | Some raw =>
           if Nat.ltb (String.length raw) nonceSize then None
           else gcm_Open key (take_str nonceSize raw) (drop_str nonceSize raw)
       end.
End at_rest.

(** ** Lemmas *)

Ltac by_byte c := destruct c as [[] [] [] [] [] [] [] []]; vm_compute; reflexivity.

Lemma hex_hi c : hex_val (hex_digit (code c / 16)) = Some (code c / 16).
Proof. by_byte c. Qed.
Lemma hex_lo c : hex_val (hex_digit (code c mod 16)) = Some (code c mod 16).
Proof. by_byte c. Qed.
Lemma hex_byte c : ascii_of_nat (Z.to_nat (code c / 16 * 16 + code c mod 16)) = c.
Proof. by_byte c. Qed.
Lemma hex_lower c : lower_hex (hex_digit (code c / 16)) && lower_hex (hex_digit (code c mod 16)) = true.
Proof. by_byte c. Qed.

Lemma hex_roundtrip b : DecodeString (EncodeToString b) = Some b.
Proof.
  induction b as [|c b IH]; [done|]. cbn [EncodeToString DecodeString].
  by rewrite hex_hi, hex_lo, IH, hex_byte.
Qed.

Lemma hex_inj a b : EncodeToString a = EncodeToString b -> a = b.
Proof. intros H. apply (f_equal DecodeString) in H. rewrite !hex_roundtrip in H. by injection H. Qed.

Lemma hex_length b : String.length (EncodeToString b) = (2 * String.length b)%nat.
Proof. induction b as [|c b IH]; [done|]. cbn [EncodeToString String.length]. rewrite IH. lia. Qed.

Lemma hex_digits b : all_chars lower_hex (EncodeToString b) = true.
Proof.
  induction b as [|c b IH]; [done|]. cbn [EncodeToString all_chars].
  pose proof (hex_lower c) as H. apply andb_true_iff in H as [-> ->]. done.
Qed.

Lemma take_str_app a b : take_str (String.length a) (a +:+ b) = a.
Proof. induction a as [|c a IH]; [by destruct b|]. cbn [String.length]. change (String c a +:+ b) with (String c (a +:+ b)). cbn [take_str]. by rewrite IH. Qed.

Lemma drop_str_app a b : drop_str (String.length a) (a +:+ b) = b.
Proof. induction a as [|c a IH]; [by destruct b|]. cbn [String.length]. change (String c a +:+ b) with (String c (a +:+ b)). cbn [drop_str]. done. Qed.

(** What is sealed is read back. *)
Lemma Decrypt_Encrypt seal open key nonce plaintext ct :
  (forall k n p, open k n (seal k n p) = Some p) -> String.length nonce = nonceSize ->
  Encrypt seal (Some nonce) key plaintext = Some ct -> Decrypt open key ct = Some plaintext.
Proof.
  intros Hgcm Hn. unfold Encrypt, Decrypt. destruct (Nat.eqb (String.length key) 32); [|done]. cbn [negb].
  intros [= <-]. rewrite hex_roundtrip. rewrite <- Hn.
  assert (E : Nat.ltb (String.length (nonce +:+ seal key nonce plaintext)) (String.length nonce) = false).
  { apply Nat.ltb_ge. rewrite <- !ascii_of_length, ascii_of_append, length_app. lia. }
  by rewrite E, take_str_app, drop_str_app.
Qed.

(** A signature answers one identity and one nonce: nonces have one length. *)
Lemma challengeMessage_inj i j n m :
  String.length n = String.length m -> challengeMessage i n = challengeMessage j m -> i = j /\ n = m.
Proof.
  unfold challengeMessage. intros Hl E%append_inj_l. rewrite <- !append_assoc in E.
  pose proof (append_tail _ _ _ _ Hl E) as ->. apply append_inj_r, append_inj_r in E. done.
Qed.

(** *** Fingerprints *)

Lemma map_str_app f a b : map_str f (a +:+ b) = map_str f a +:+ map_str f b.
Proof. induction a as [|c a IH]; [done|]. change (String c a +:+ b) with (String c (a +:+ b)). cbn [map_str]. by rewrite IH. Qed.

Lemma drop_char_app x a b : drop_char x (a +:+ b) = drop_char x a +:+ drop_char x b.
Proof.
  induction a as [|c a IH]; [done|]. change (String c a +:+ b) with (String c (a +:+ b)). cbn [drop_char]. rewrite IH.
  by destruct (Ascii.eqb c x).
Qed.

Lemma lower_hex_fixed c : lower_hex c = true -> to_lower c = c /\ Ascii.eqb c "-" = false /\ graphic c = true.
Proof. destruct c as [[] [] [] [] [] [] [] []]; vm_compute; done. Qed.

Lemma hex_text_fixed s : all_chars lower_hex s = true -> drop_char "-" (map_str to_lower s) = s.
Proof.
  induction s as [|c s IH]; [done|]. cbn [all_chars]. intros [Hc Hs]%andb_true_iff.
  destruct (lower_hex_fixed c Hc) as (El & Ed & _). cbn [map_str drop_char]. by rewrite El, Ed, IH.
Qed.

Lemma take_str_all (p : ascii -> bool) n s : all_chars p s = true -> all_chars p (take_str n s) = true.
Proof.
  revert s. induction n as [|n IH]; intros [|c s]; try done. cbn [take_str all_chars].
  intros [-> Hs]%andb_true_iff. by apply IH.
Qed.

Lemma drop_str_all (p : ascii -> bool) n s : all_chars p s = true -> all_chars p (drop_str n s) = true.
Proof.
  revert s. induction n as [|n IH]; intros [|c s]; try done. cbn [drop_str all_chars].
  intros [_ Hs]%andb_true_iff. by apply IH.
Qed.

Lemma take_drop_join n m s : take_str n s +:+ take_str m (drop_str n s) = take_str (n + m) s.
Proof.
  revert s. induction n as [|n IH]; intros s; [by destruct s|]. destruct s as [|c s]; [by destruct m|].
  cbn [take_str drop_str Nat.add]. change (String c (take_str n s) +:+ ?x) with (String c (take_str n s +:+ x)).
  by rewrite IH.
Qed.

(** The short form a node logs names the first sixteen digits of the
    fingerprint, whatever is copied around it by hand. *)
Lemma short_fingerprint_read fp :
  all_chars lower_hex fp = true -> (16 <= String.length fp)%nat ->
  normalizeFingerprint (ShortFingerprint fp) = take_str 16 fp.
Proof.
  intros Hf Hl. unfold ShortFingerprint. rewrite (proj2 (Nat.ltb_ge _ _) Hl).
  set (a := take_str 4 fp). set (b := take_str 4 (drop_str 4 fp)).
  set (c := take_str 4 (drop_str 8 fp)). set (d := take_str 4 (drop_str 12 fp)).
  assert (Ha : all_chars lower_hex a = true) by by apply take_str_all.
  assert (Hb : all_chars lower_hex b = true) by by apply take_str_all, drop_str_all.
  assert (Hc : all_chars lower_hex c = true) by by apply take_str_all, drop_str_all.
  assert (Hd : all_chars lower_hex d = true) by by apply take_str_all, drop_str_all.
  assert (Hg : forall s, all_chars lower_hex s = true -> all_chars graphic s = true).
  { intros s. apply all_chars_impl. intros x Hx. by apply lower_hex_fixed. }
  unfold normalizeFingerprint. rewrite TrimSpace_all_graphic by (rewrite !all_chars_app, !andb_true_iff; auto 10).
  rewrite !map_str_app, !drop_char_app.
  rewrite (hex_text_fixed a), (hex_text_fixed b), (hex_text_fixed c), (hex_text_fixed d) by done.
  change (drop_char "-" (map_str to_lower "-")) with "". repeat change ("" +:+ ?x) with x.
  assert (E : a +:+ (b +:+ (c +:+ d)) = take_str 16 fp).
  { rewrite <- !append_assoc. unfold a, b, c, d.
    rewrite (take_drop_join 4 4 fp : _ = take_str 8 fp), (take_drop_join 8 4 fp : _ = take_str 12 fp).
    apply (take_drop_join 12 4). }
  rewrite E. by rewrite take_str_all.
Qed.

(** The sign bit of a key plays no part in the check, so a point of small
    order is refused with either sign. *)
Lemma small_order_refused bad i :
  bad ∈ smallOrder -> (i = 0 \/ i = 128) ->
  ValidPublicKey (take_str 31 bad +:+ String (ascii_of_nat (Z.to_nat (byte_at 31 bad + i))) "") = false.
Proof.
  intros Hb Hi. unfold smallOrder in Hb. cbn [fmap list_fmap] in Hb.
  repeat (apply elem_of_cons in Hb as [Hb|Hb]; [subst bad; destruct Hi as [-> | ->]; vm_compute; reflexivity|]).
  by apply elem_of_nil in Hb.
Qed.
