(* ===== verification/Programs.v ===== *)
(** * Programs that call out

    Code that talks to a database, a stream or a random source is a tree: it
    has an answer, or it makes a call and goes on with whatever comes back. The
    calls [op] and the type [ans c] of what answers a call are parameters, so
    nothing is assumed of the answers here. [traced] is the logic of such a
    program: what must hold when a call is made, given the calls and answers
    so far, and what holds at the end. *)

From S2P Require Import Prelude.

Section programs.
Context {op : Type} {ans : op -> Type}.

Inductive prog (A : Type) : Type :=
  | Ret (a : A)
  | Do (c : op) (k : ans c -> prog A).
Arguments Ret {A} a.
Arguments Do {A} c k.

Fixpoint prog_bind {A B} (p : prog A) (f : A -> prog B) : prog B :=
  match p with
  | Ret a => f a
  | Do c k => Do c (fun x => prog_bind (k x) f)
  end.

(** A call with its answer. The newest call is first in a history. *)
Definition event : Type := sigT ans.
Definition Ev (c : op) (a : ans c) : event := existT c a.

(** The answers a call may have, whatever the state of the world. *)
Context (possible : forall c, ans c -> Prop).

(** Every call is made as [G] allows after the calls so far, and every way to
    the end satisfies [Q]. *)
Fixpoint traced {A} (G : list event -> op -> Prop) (h : list event) (p : prog A) (Q : list event -> A -> Prop) : Prop :=
  match p with
  | Ret a => Q h a
  | Do c k => G h c /\ forall a, possible c a -> traced G (Ev c a :: h) (k a) Q
  end.

Lemma traced_bind {A B} G h (p : prog A) (f : A -> prog B) Q :
  traced G h p (fun h' a => traced G h' (f a) Q) -> traced G h (prog_bind p f) Q.
Proof.
  revert h. induction p as [a|c k IH]; intros h H; [done|]. destruct H as [H1 H2]. split; [done|].
  intros a Ha. apply IH. by apply H2.
Qed.

Lemma traced_mono {A} G G' h (p : prog A) (Q Q' : list event -> A -> Prop) :
  (forall h c, G h c -> G' h c) -> (forall h a, Q h a -> Q' h a) -> traced G h p Q -> traced G' h p Q'.
Proof.
  intros HG HQ. revert h. induction p as [a|c k IH]; intros h H; [by apply HQ|]. destruct H as [H1 H2].
  split; [by apply HG|]. intros a Ha. apply IH. by apply H2.
Qed.

Lemma traced_any {A} h (p : prog A) : traced (fun _ _ => True) h p (fun _ _ => True).
Proof. revert h. induction p as [a|c k IH]; intros h; [done|]. split; [done|]. intros a _. apply IH. Qed.

(** Calls are only ever added to a history. *)
Lemma traced_grows {A} G h (p : prog A) Q :
  traced G h p Q -> traced (fun h' c => (exists l, h' = l ++ h) /\ G h' c) h p (fun h' a => (exists l, h' = l ++ h) /\ Q h' a).
Proof.
  assert (H : forall l, traced G (l ++ h) p Q -> traced (fun h' c => (exists l, h' = l ++ h) /\ G h' c) (l ++ h) p
    (fun h' a => (exists l, h' = l ++ h) /\ Q h' a)); [|apply (H [])].
  induction p as [a|c k IH]; intros l Ht.
  - split; [by exists l|done].
  - destruct Ht as [H1 H2]. split; [split; [by exists l|done]|]. intros a Ha. apply (IH a (Ev c a :: l)). by apply H2.
Qed.

(** A run: the calls made, oldest first, and what is left to do. *)
Inductive run {A} : prog A -> list event -> prog A -> Prop :=
  | run_nil p : run p [] p
  | run_cons c k a h q : possible c a -> run (k a) h q -> run (Do c k) (Ev c a :: h) q.

Lemma traced_run {A} G h0 (p : prog A) h q Q :
  run p h q -> traced G h0 p Q -> traced G (rev h ++ h0) q Q.
Proof.
  intros H. revert h0. induction H as [p|c k a h q Ha H IH]; intros h0 Ht; [done|].
  destruct Ht as [_ Ht]. cbn [rev]. rewrite <- app_assoc. apply IH. by apply Ht.
Qed.

(** How many calls a program makes at most, given how many its parts make. *)
Fixpoint calls_within {A} (n : nat) (p : prog A) {struct p} : Prop :=
  match p with
  | Ret _ => True
  | Do c k => match n with O => False | S n => forall a, calls_within n (k a) end
  end.

Lemma calls_mono {A} n m (p : prog A) : (n <= m)%nat -> calls_within n p -> calls_within m p.
Proof.
  revert n m. induction p as [a|c k IH]; intros n m Hle H; [exact I|]. destruct n as [|n]; [destruct H|].
  destruct m as [|m]; [lia|]. cbn in *. intros x. eapply IH; [|apply H]. lia.
Qed.

Lemma calls_bind {A B} n m (p : prog A) (f : A -> prog B) :
  calls_within n p -> (forall a, calls_within m (f a)) -> calls_within (n + m) (prog_bind p f).
Proof.
  revert n. induction p as [a|c k IH]; intros n Hp Hf.
  - eapply calls_mono; [|apply Hf]. lia.
  - destruct n as [|n]; [destruct Hp|]. cbn [prog_bind Nat.add calls_within] in *. intros x. by apply IH.
Qed.

(** A run of a program that makes at most [n] calls has at most [n]. *)
Lemma calls_run {A} n (p : prog A) h q : calls_within n p -> run p h q -> (List.length h <= n)%nat.
Proof.
  intros Hc Hr. revert n Hc. induction Hr as [p|c k a h q Ha H IH]; intros n Hc; [cbn; lia|].
  destruct n as [|n]; [destruct Hc|]. cbn in *. specialize (IH n (Hc a)). lia.
Qed.
End programs.

Arguments prog {op} ans A.
Arguments Ret {op ans A} a.
Arguments Do {op ans A} c k.
Arguments event {op} ans.
Arguments Ev {op ans} c a.

#[export] Instance prog_mret {op} {ans : op -> Type} : MRet (prog ans) := fun A a => Ret a.
#[export] Instance prog_mbind {op} {ans : op -> Type} : MBind (prog ans) := fun A B f p => prog_bind p f.

(** One call, its answer being the result. *)
Definition call {op} {ans : op -> Type} (c : op) : prog ans (ans c) := Do c Ret.

Lemma traced_call {op} {ans : op -> Type} possible {A} (G : list (event ans) -> op -> Prop) h c (k : ans c -> prog ans A) Q :
  G h c -> (forall a, possible c a -> traced possible G (Ev c a :: h) (k a) Q) ->
  traced possible G h (call c ≫= k) Q.
Proof. intros H1 H2. split; [done|]. apply H2. Qed.

(** A part, by what it guarantees. *)
Lemma traced_part {op} {ans : op -> Type} possible {A B} (G : list (event ans) -> op -> Prop) h (p : prog ans A)
    (f : A -> prog ans B) P Q :
  traced possible G h p P -> (forall l a, P (l ++ h) a -> traced possible G (l ++ h) (f a) Q) ->
  traced possible G h (p ≫= f) Q.
Proof.
  intros Hp Hf. apply traced_bind. apply traced_grows in Hp.
  eapply traced_mono; [| |exact Hp]; [by intros h' c [_ H]|]. intros h' a [[l ->] Ha]. by apply Hf.
Qed.

Lemma calls_seq {op} {ans : op -> Type} {A B} (n m k : nat) (p : prog ans A) (f : A -> prog ans B) :
  calls_within n p -> (forall a, calls_within m (f a)) -> (n + m <= k)%nat -> calls_within k (p ≫= f).
Proof. intros Hp Hf Hle. eapply calls_mono; [exact Hle|]. by apply calls_bind. Qed.

Lemma calls_call {op} {ans : op -> Type} {A} (n : nat) (c : op) (k : ans c -> prog ans A) :
  (forall a, calls_within n (k a)) -> calls_within (S n) (call c ≫= k).
Proof. intros H a. apply H. Qed.

(** ** Programs by their calls *)
Section only.
Context {op : Type} {ans : op -> Type} (P : op -> Prop).

(** Every call of the program satisfies [P], whatever is answered. *)
Fixpoint only {A} (p : prog ans A) : Prop :=
  match p with Ret _ => True | Do c k => P c /\ forall a, only (k a) end.

Lemma only_bind {A B} (p : prog ans A) (f : A -> prog ans B) : only p -> (forall a, only (f a)) -> only (p ≫= f).
Proof. induction p as [a|c k IH]; intros Hp Hf; [apply Hf|]. destruct Hp as [H1 H2]. split; [done|]. intros a. by apply IH. Qed.

Lemma only_traced {A} possible (G : list (event ans) -> op -> Prop) h (p : prog ans A) :
  (forall h c, P c -> G h c) -> only p -> traced possible G h p (fun _ _ => True).
Proof.
  intros HG. revert h. induction p as [a|c k IH]; intros h H; [done|]. destruct H as [H1 H2]. split; [by apply HG|].
  intros a _. apply IH, H2.
Qed.

Lemma only_run {A} possible (p : prog ans A) h q : only p -> run possible p h q -> only q.
Proof. intros Hp Hr. induction Hr as [p|c k a h q Ha Hr IH]; [done|]. apply IH. by destruct Hp. Qed.
End only.

Lemma only_mono {op} {ans : op -> Type} (P P' : op -> Prop) {A} (p : prog ans A) :
  (forall c, P c -> P' c) -> only P p -> only P' p.
Proof. intros HP. induction p as [a|c k IH]; [done|]. intros [H1 H2]. split; [by apply HP|]. intros a. by apply IH. Qed.

(** ** Monitors

    A monitor is a state that follows the calls of a program. [monitored] says
    that every call is one the monitor's state allows, whatever the answers. *)
Section monitors.
Context {op : Type} {ans : op -> Type} {M : Type} (mstep : M -> forall c, ans c -> M) (allowed : M -> op -> Prop).

Fixpoint monitored {A} (s : M) (p : prog ans A) (Q : M -> A -> Prop) : Prop :=
  match p with
  | Ret a => Q s a
  | Do c k => allowed s c /\ forall a, monitored (mstep s c a) (k a) Q
  end.

Lemma monitored_bind {A B} s (p : prog ans A) (f : A -> prog ans B) Q :
  monitored s p (fun s' a => monitored s' (f a) Q) -> monitored s (p ≫= f) Q.
Proof.
  revert s. induction p as [a|c k IH]; intros s H; [done|]. destruct H as [H1 H2]. split; [done|].
  intros a. apply IH, H2.
Qed.

Lemma monitored_mono {A} s (p : prog ans A) (Q Q' : M -> A -> Prop) :
  (forall s a, Q s a -> Q' s a) -> monitored s p Q -> monitored s p Q'.
Proof.
  intros HQ. revert s. induction p as [a|c k IH]; intros s H; [by apply HQ|]. destruct H as [H1 H2].
  split; [done|]. intros a. apply IH, H2.
Qed.

(** A part, by what it guarantees. *)
Lemma monitored_part {A B} s (p : prog ans A) (f : A -> prog ans B) P Q :
  monitored s p P -> (forall s a, P s a -> monitored s (f a) Q) -> monitored s (p ≫= f) Q.
Proof. intros Hp Hf. apply monitored_bind. eapply monitored_mono; [exact Hf|exact Hp]. Qed.

Lemma monitored_call {A} s c (k : ans c -> prog ans A) Q :
  allowed s c -> (forall a, monitored (mstep s c a) (k a) Q) -> monitored s (call c ≫= k) Q.
Proof. intros H1 H2. split; [done|]. apply H2. Qed.
End monitors.
