(* ===== verification/Pairing.v ===== *)
(** * How a node logs in (core/grpc/server.go, core/services/redisacl)

    [NodeConnect] and the handlers with which an operator or an owner takes a
    node's login away and lets it back in, as programs: every message, store
    statement and random draw is a call, and [perform] says what a call does
    to the rows it touches, each statement at once. [wexec] interleaves any
    number of such programs, as replicas of Core and their streams do. *)

From Stdlib Require Import Ascii String.
From S2P Require Import Prelude GoStrings GoNet NodeAuth RedisAcl Programs.
Open Scope string_scope.
Open Scope list_scope.
Open Scope Z_scope.

Notation length := List.length.

(** ** Messages *)

Record NodeIdentity := mkIdentity { ni_Hostname : string; ni_CpuCores : Z; ni_CpuModel : string; ni_MemoryBytes : Z }.

Record NodeAuth := mkAuth {
  na_NodeToken : string;
  na_EnrollToken : string;
  na_SecretProof : string;
  na_ClusterProof : string;
  na_NodePublicKey : string;
  na_ReleaseVersion : string;
  na_Ips : option (string * list string);
  na_Identity : option NodeIdentity }.

(** What a node sends: its first message, the answer to a challenge, anything
    else. *)
Inductive msg := MAuth (a : NodeAuth) | MChallengeResponse (response signature : string) | MOther.

Record AuthResult := mkAR {
  ar_Ok : bool;
  ar_Message : string;
  ar_CoreId : string;
  ar_AclEnabled : bool;
  ar_NodeSecret : string;
  ar_AssignedId : string;
  ar_RedisAddr : string;
  ar_ModpackMirrorHost : string;
  ar_NodeKeyRejected : bool;
  ar_UpdateRequired : string;
  ar_UpdateRequiredVersion : string;
  ar_UpdateRequiredDeadline : string }.

Definition failure (m : string) : AuthResult := mkAR false m "" false "" "" "" "" false "" "" "".

Record JoinAttempt := mkAttempt {
  ja_NodeToken : string;
  ja_PeerIP : string;
  ja_PublicIP : string;
  ja_PrivateIPs : string;
  ja_Hostname : string;
  ja_CPUCores : Z;
  ja_CPUModel : string;
  ja_MemoryBytes : Z;
  ja_ReleaseVersion : string;
  ja_Reason : string;
  ja_PresentedKey : string }.

Record Node := mkNode { nd_ID : Z; nd_Token : string; nd_Owned : bool; nd_PlatformToken : bool }.

(** The decision of the update gate; the deadline as RFC 3339, if there is one. *)
Record UpdateVerdict := mkVerdict {
  uv_Refuse : bool;
  uv_Warn : bool;
  uv_Message : string;
  uv_MinVersion : string;
  uv_Deadline : option string }.

(** ** Calls *)

Inductive op :=
  (* the stream, the random source, the registry of live streams *)
  | Recv
  | SendChallenge (nonce : string)
  | SendAuth (ar : AuthResult)
  | NewNonce
  | RandSecret
  | RandNonce
  | NewUUID
  | RegisterProved (id : Z) (token key : string)
  | Unregister (id : Z)
  | Await
  (* the node rows *)
  | GetNodeByToken (token : string)
  | GetNodeEnrolledVia (id : Z)
  | GetNodeByID (id : Z)
  | GetNodeSecretEnc (id : Z)
  | SetNodeSecretEnc (id : Z) (enc : string)
  | SetNodeSecretEncIfUnchanged (id : Z) (prev next : string)
  | GetNodePublicKeys (id : Z)
  | SetNodePublicKeyIfUnchanged (id : Z) (prevKey prevRejected key : string)
  | RejectNodePublicKey (id : Z)
  | ResetNodeLogin (id : Z)
  | CreateNode (token address : string)
  | SetNodeOwner (id : Z) (owner : string)
  | SetNodeEnrolledVia (id : Z) (via : string)
  | SetNodeDisplayName (id : Z) (name : string)
  | SetNodeLastAuthPeerIP (id : Z) (ip : string)
  | GetNodeLastAuthPeerIP (id : Z)
  | DeleteNode (id : Z)
  | ListServersByNode (id : Z)
  (* Redis users *)
  | EnsureNodeACL (token tunnelToken secret : string) (uuids : list string)
  | RemoveNodeACL (token : string)
  (* enroll tokens, the join mode, the owner's plan *)
  | ResolveNodeEnrollToken (plaintext : string)
  | ConsumeNodeEnrollToken (plaintext : string)
  | NodeEnrollTokenLabel (plaintext : string)
  | BindWarpKeyFromEnrollToken (plaintext : string) (id : Z)
  | NodeLimitReached (owner : string)
  | OwnerSuspended (owner : string)
  | GetJoinMode
  | ConsumeOneShotJoin
  (* refused joins and admissions *)
  | RecordNodeJoinAttempt (a : JoinAttempt)
  | GetNodeJoinAttempt (token : string)
  | ConsumeNodeJoinApproval (token peerIP keyFingerprint : string)
  | ApproveNodeJoinAttempt (token peerIP presentedKey : string)
  | ApproveNodeJoinAttemptForKey (token keyFingerprint : string)
  | ArmNodeJoinApproval (token fromIP : string)
  | DeleteNodeJoinAttempt (token : string)
  (* what happens beside these programs *)
  | ExpireApproval (token : string)
  | MintEnrollToken (hash user : string) (platform recovery : bool)
  | ExpireEnrollToken (hash : string)
  | RevokeWarpKey (hash : string).

(** A read that may fail is an [option]; where the source tells a missing row
    from a failure, [Some None] is the missing row. *)
Definition ans (c : op) : Type :=
  match c with
  | Recv => option msg
  | SendChallenge _ | SendAuth _ => bool
  | NewNonce | RandSecret | RandNonce => option string
  | NewUUID => string
  | RegisterProved _ _ _ | Unregister _ | RemoveNodeACL _ | ExpireApproval _ | MintEnrollToken _ _ _ _
  | ExpireEnrollToken _ | RevokeWarpKey _ => unit
  | Await => bool
  | GetNodeByToken _ => option (option (Z * option string))
  | GetNodeEnrolledVia _ => option (option string)
  | GetNodeByID _ => option string
  | GetNodeSecretEnc _ | GetNodeLastAuthPeerIP _ => option string
  | SetNodeSecretEnc _ _ | ResetNodeLogin _ | SetNodeOwner _ _ | SetNodeEnrolledVia _ _ | SetNodeDisplayName _ _
  | SetNodeLastAuthPeerIP _ _ | DeleteNode _ | EnsureNodeACL _ _ _ _ | ConsumeOneShotJoin
  | RecordNodeJoinAttempt _ | DeleteNodeJoinAttempt _ => bool
  | SetNodeSecretEncIfUnchanged _ _ _ | SetNodePublicKeyIfUnchanged _ _ _ _ | RejectNodePublicKey _
  | ConsumeNodeJoinApproval _ _ _ | ApproveNodeJoinAttempt _ _ _ | ApproveNodeJoinAttemptForKey _ _
  | ArmNodeJoinApproval _ _ | BindWarpKeyFromEnrollToken _ _ => option bool
  | GetNodePublicKeys _ => option (string * string)
  | CreateNode _ _ => option Z
  | ListServersByNode _ => option (list string)
  | ResolveNodeEnrollToken _ => option (option (string * bool))
  | ConsumeNodeEnrollToken _ => option (option string)
  | NodeEnrollTokenLabel _ => option string
  | NodeLimitReached _ | OwnerSuspended _ => bool
  | GetJoinMode => option (option string)
  | GetNodeJoinAttempt _ => option (option (string * string))
  end.

Notation program := (prog ans).

(** ** The programs *)

(** What the platform's cryptography computes: HMAC-SHA256 in hex, SHA-256,
    Ed25519 verification, AES-GCM. *)
Record crypto := mkCrypto {
  cr_derive : string -> string -> string;
  cr_sha256 : string -> string;
  cr_Verify : string -> string -> string -> bool;
  cr_Seal : string -> string -> string -> string;
  cr_Open : string -> string -> string -> option string }.

(** The server of one replica: its configuration, and which of its optional
    parts are wired. *)
Record Server := mkServer {
  sv_coreID : string;
  sv_clusterSecret : string;
  sv_redisAddr : string;
  sv_mirrorHost : string;
  sv_admission : bool;
  sv_joins : bool;
  sv_updateGate : string -> string -> UpdateVerdict }.

Definition redisAddrFor (s : Server) (owned : bool) : string := if owned then "" else sv_redisAddr s.

Definition peerIP (addr : option string) : option Z :=
  match addr with
  | None => None
  | Some a => match SplitHostPort a with Some (host, _) => ParseIP host | None => ParseIP a end
  end.
Definition peerIPString (addr : option string) : string :=
  match peerIP addr with Some ip => IP_String ip | None => "" end.

Definition applyUpdateWarning (ar : AuthResult) (v : UpdateVerdict) : AuthResult :=
  if negb (uv_Warn v) then ar
  else mkAR (ar_Ok ar) (ar_Message ar) (ar_CoreId ar) (ar_AclEnabled ar) (ar_NodeSecret ar) (ar_AssignedId ar)
         (ar_RedisAddr ar) (ar_ModpackMirrorHost ar) (ar_NodeKeyRejected ar)
         (uv_Message v) (uv_MinVersion v) (default "" (uv_Deadline v)).

Definition decodeNodeKey (s : string) : option string :=
  if (s =? "")%string then Some ""
  else match DecodeString s with
       | Some b => if Nat.eqb (String.length b) 32 then Some b else None
       | None => None
       end.

Section programs.
Context (cr : crypto).

Definition sha256_hex (s : string) : string := EncodeToString (cr_sha256 cr s).
Definition key_fingerprint : string -> string := KeyFingerprint (cr_sha256 cr).
Definition verify_signature : string -> string -> string -> string -> bool := VerifyChallenge (cr_Verify cr).
Definition secret_key (clusterSecret : string) : string := DeriveKey (cr_sha256 cr) clusterSecret "node-redis-secret".

(** *** secret.go *)

Inductive secret_err := ErrStore | ErrSecretContention.
Definition mintAttempts : nat := 3.

(** The stored secret, when it can be read. *)
Definition readable (clusterSecret enc : string) : option string :=
  if (enc =? "")%string then None
  else match Decrypt (cr_Open cr) (secret_key clusterSecret) enc with
       | Some pt => if Nat.eqb (String.length pt) 32 then Some pt else None
       | None => None
       end.

Fixpoint mint_loop (attempts : nat) (clusterSecret : string) (nodeID : Z) : program (string + secret_err) :=
  match attempts with
  | O => Ret (inr ErrSecretContention)
  | S attempts =>
      enc ← call (GetNodeSecretEnc nodeID);
      match enc with
      | None => Ret (inr ErrStore)
      | Some enc =>
          match readable clusterSecret enc with
          | Some pt => Ret (inl pt)
          | None =>
              secret ← call RandSecret;
              match secret with
              | None => Ret (inr ErrStore)
              | Some secret =>
                  nonce ← call RandNonce;
                  match Encrypt (cr_Seal cr) nonce (secret_key clusterSecret) secret with
                  | None => Ret (inr ErrStore)
                  | Some ct =>
                      won ← call (SetNodeSecretEncIfUnchanged nodeID enc ct);
                      match won with
                      | None => Ret (inr ErrStore)
                      | Some true => Ret (inl secret)
                      | Some false => mint_loop attempts clusterSecret nodeID
                      end
                  end
              end
          end
      end
  end.

Definition LoadOrCreateNodeSecret (clusterSecret : string) (nodeID : Z) : program (string + secret_err) :=
  mint_loop mintAttempts clusterSecret nodeID.

Definition LoadNodeSecret (clusterSecret : string) (nodeID : Z) : program loaded_secret :=
  enc ← call (GetNodeSecretEnc nodeID);
  match enc with
  | None => Ret SecretErr
  | Some enc =>
      if (enc =? "")%string then Ret SecretNone
      else match Decrypt (cr_Open cr) (secret_key clusterSecret) enc with
           | None => Ret SecretErr
           | Some pt => Ret (if Nat.eqb (String.length pt) 32 then SecretOf pt else SecretNone)
           end
  end.

(** *** handshake.go, with the adapter of core/main.go *)

Definition ensure (cs : string) (nodeID : Z) (token : string) : program (option string) :=
  secret ← LoadOrCreateNodeSecret cs nodeID;
  match secret with
  | inr _ => Ret None
  | inl secret =>
      uuids ← call (ListServersByNode nodeID);
      match uuids with
      | None => Ret None
      | Some uuids =>
          ok ← call (EnsureNodeACL token (LinkTunnelToken sha256_hex token cs) secret uuids);
          Ret (if ok : bool then Some (EncodeToString secret) else None)
      end
  end.

Definition EnsureExisting : string -> Z -> string -> program (option string) := ensure.

(** No error and nothing done for a token that is not found, or whose lookup
    fails: [NodeIDByToken] answers both alike. *)
Definition EnsureForToken (cs token : string) : program bool :=
  n ← call (GetNodeByToken token);
  match n with
  | Some (Some (id, _)) => r ← ensure cs id token; Ret (bool_decide (is_Some r))
  | _ => Ret true
  end.

Definition CreateBYONNode (token address owner displayName : string) : program (option Z) :=
  id ← call (CreateNode token address);
  match id with
  | None => Ret None
  | Some id =>
      ok ← call (SetNodeOwner id owner);
      if negb ok then Ret None
      else if (displayName =? "")%string then Ret (Some id)
      else ok ← call (SetNodeDisplayName id displayName); Ret (if ok : bool then Some id else None)
  end.

Definition create_marked (via token address displayName : string) : program (option Z) :=
  id ← call (CreateNode token address);
  match id with
  | None => Ret None
  | Some id =>
      ok ← call (SetNodeEnrolledVia id via);
      if negb ok then Ret None
      else if (displayName =? "")%string then Ret (Some id)
      else ok ← call (SetNodeDisplayName id displayName); Ret (if ok : bool then Some id else None)
  end.
Definition NodeEnrolledViaClusterProof : string := "cluster_proof".
Definition NodeEnrolledViaPlatformToken : string := "platform_token".
Definition CreatePlatformNode : string -> string -> string -> program (option Z) := create_marked NodeEnrolledViaClusterProof.
Definition CreatePlatformTokenNode : string -> string -> string -> program (option Z) := create_marked NodeEnrolledViaPlatformToken.

(** The label, trimmed; none when it cannot be read. *)
Definition EnrollTokenLabel (enrollToken : string) : program string :=
  l ← call (NodeEnrollTokenLabel enrollToken);
  Ret (TrimSpace (default "" l)).

(** The id, the row, the secret in hex, whether the row is owned. *)
Definition Enroll (cs token enrollToken address : string) : program (option (string * Z * string * bool)) :=
  res ← call (ResolveNodeEnrollToken enrollToken);
  match res with
  | None | Some None => Ret None
  | Some (Some (ownerID, platform)) =>
      limited ← (if platform then Ret false else call (NodeLimitReached ownerID));
      if limited : bool then Ret None else
      suspended ← (if platform then Ret false else call (OwnerSuspended ownerID));
      if suspended : bool then Ret None else
      consumed ← call (ConsumeNodeEnrollToken enrollToken);
      match consumed with
      | None | Some None => Ret None
      | Some (Some consumedOwner) =>
          label ← EnrollTokenLabel enrollToken;
          let name := if (label =? "")%string then token else label in
          assignedID ← call NewUUID;
          id ← (if platform then CreatePlatformTokenNode assignedID address name
                else CreateBYONNode assignedID address consumedOwner name);
          match id with
          | None => Ret None
          | Some id =>
              _ ← call (BindWarpKeyFromEnrollToken enrollToken id);
              secretHex ← ensure cs id assignedID;
              match secretHex with
              | None => Ret None
              | Some secretHex => Ret (Some (assignedID, id, secretHex, negb platform))
              end
          end
      end
  end.

Definition EnrollPlatform (cs token address : string) : program (option (string * Z * string)) :=
  assignedID ← call NewUUID;
  id ← CreatePlatformNode assignedID address token;
  match id with
  | None => Ret None
  | Some id =>
      secretHex ← ensure cs id assignedID;
      Ret (match secretHex with Some h => Some (assignedID, id, h) | None => None end)
  end.

Definition HasSecret (cs : string) (nodeID : Z) : program (option bool) :=
  l ← LoadNodeSecret cs nodeID;
  Ret (match l with SecretErr => None | SecretNone => Some false | SecretOf _ => Some true end).

Definition Handshake_VerifyProof (cs : string) (nodeID : Z) (token proof : string) : program (option bool) :=
  l ← LoadNodeSecret cs nodeID;
  Ret (match l with
       | SecretErr => None
       | SecretNone => Some false
       | SecretOf s => Some (Proof_ (cr_derive cr) s token =? proof)%string
       end).

Definition Handshake_VerifyChallenge (cs : string) (nodeID : Z) (nonce response : string) : program (option bool) :=
  l ← LoadNodeSecret cs nodeID;
  Ret (match l with
       | SecretErr => None
       | SecretNone => Some false
       | SecretOf s => Some (ChallengeResponse (cr_derive cr) s nonce =? response)%string
       end).

(** The registered key and the last rejected one, each empty for none. *)
Definition NodeKeys (nodeID : Z) : program (option (string * string)) :=
  r ← call (GetNodePublicKeys nodeID);
  Ret (match r with
       | None => None
       | Some (k, r) =>
           match decodeNodeKey k, decodeNodeKey r with
           | Some k, Some r => Some (k, r)
           | _, _ => None
           end
       end).

Definition SetNodeKey (nodeID : Z) (prevKey prevRejected key : string) : program (option bool) :=
  call (SetNodePublicKeyIfUnchanged nodeID (EncodeToString prevKey) (EncodeToString prevRejected) (EncodeToString key)).

Definition VerifyClusterProof (cs token proof : string) : bool :=
  negb (proof =? "")%string && (ClusterProof (cr_derive cr) cs token =? proof)%string.

(** *** admission.go *)

(** Allowed, or the reason it is not. *)
Definition CheckNewRegistration : program (option (bool * string)) :=
  mode ← call GetJoinMode;
  Ret (match mode with
       | None => None
       | Some mode =>
           if (default "open" mode =? "disabled")%string then Some (false, "join_disabled") else Some (true, "")
       end).

Definition ConsumeJoinSlot : program bool :=
  mode ← call GetJoinMode;
  match mode with
  | None => Ret false
  | Some None => Ret true
  | Some (Some mode) => if negb (mode =? "one-shot")%string then Ret true else call ConsumeOneShotJoin
  end.

(** *** store: what the login reads of a row *)

Inductive lookup_result := LookupErr | NodeNotFound | NodeFound (n : Node).

Definition NodeLoginFacts (token : string) : program lookup_result :=
  r ← call (GetNodeByToken token);
  match r with
  | None => Ret LookupErr
  | Some None => Ret NodeNotFound
  | Some (Some (id, owner)) =>
      via ← call (GetNodeEnrolledVia id);
      Ret (match via with
           | None => LookupErr
           | Some None => NodeNotFound
           | Some (Some via) =>
               NodeFound (mkNode id token
                 (match owner with Some o => negb (o =? "")%string | None => false end)
                 (via =? NodeEnrolledViaPlatformToken)%string)
           end)
  end.

(** *** server.go *)

(** A stream that was let in: the row, and what its login proved. *)
Record session := mkSession { ss_node : Node; ss_key : string; ss_nonce : string; ss_resp : string }.

Definition msgNoRecord : string :=
  "Core has no record of this node. Re-admission is granted per node and cannot be granted for one that is not listed, so clear the cached identity on the node (.node_id and .node_secret in its storage directory) and restart it; it will pair again. If the node IS listed in the panel, admit it from Settings -> Nodes instead - nothing needs setting on the machine.".
Definition msgNoKey : string :=
  "this node logs in with a key and presented none. Run a current image with its .node_key in place (the node logs why it could not read it), or reset its pairing in Settings -> Nodes".
Definition msgOtherKey : string :=
  "this node presents a different key than the live one Core holds for it, and only an operator replaces a live key: Roll key in Settings -> Nodes, or Admit under Connection attempts".

Section connection.
(** The replica, the socket's address, the first message. *)
Context (s : Server) (peer : option string) (auth : NodeAuth).
Local Notation cs := (sv_clusterSecret s).
Local Notation token := (na_NodeToken auth).
Local Notation presented := (na_NodePublicKey auth).

(** The stream ends with this answer. *)
Definition refuse (ar : AuthResult) : program (option session) := _ ← call (SendAuth ar); Ret None.
Definition sendFail (m : string) : program (option session) := refuse (failure m).

Definition attempt (fingerprint reason : string) : JoinAttempt :=
  mkAttempt token (peerIPString peer)
    (match na_Ips auth with Some (p, _) => p | None => "" end)
    (match na_Ips auth with Some (_, l) => Join l "," | None => "" end)
    (match na_Identity auth with Some i => ni_Hostname i | None => "" end)
    (match na_Identity auth with Some i => ni_CpuCores i | None => 0 end)
    (match na_Identity auth with Some i => ni_CpuModel i | None => "" end)
    (match na_Identity auth with Some i => ni_MemoryBytes i | None => 0 end)
    (na_ReleaseVersion auth) reason fingerprint.

Definition recordRefusal (fingerprint reason : string) : program unit :=
  if negb (sv_joins s) then Ret tt
  else _ ← call (RecordNodeJoinAttempt (attempt fingerprint reason)); Ret tt.

(** The nonce with the node's two answers, or the stream has ended. *)
Definition challenge : program (option (string * string * string)) :=
  nonce ← call NewNonce;
  match nonce with
  | None => _ ← sendFail "challenge init failed"; Ret None
  | Some nonce =>
      sent ← call (SendChallenge nonce);
      if negb sent then Ret None else
      m ← call Recv;
      match m with
      | None => Ret None
      | Some (MChallengeResponse resp sig) => Ret (Some (nonce, resp, sig))
      | Some _ => _ ← sendFail "challenge response required"; Ret None
      end
  end.

Definition stillPaired (nodeID : Z) (authKey hmacNonce hmacResp : string) : program (option bool) :=
  let secret_part :=
    if (hmacNonce =? "")%string then Ret (Some true) else Handshake_VerifyChallenge cs nodeID hmacNonce hmacResp in
  if (authKey =? "")%string then secret_part
  else
    keys ← NodeKeys nodeID;
    match keys with
    | None => Ret None
    | Some (now, _) => if negb (now =? authKey)%string then Ret (Some false) else secret_part
    end.

Definition success (v : UpdateVerdict) (secret assigned : string) (owned : bool) : AuthResult :=
  applyUpdateWarning
    (mkAR true "" (sv_coreID s) true secret assigned (redisAddrFor s owned) (sv_mirrorHost s) false "" "" "") v.

(** A new node: admitted by the join mode, entitled by an enroll token or the
    cluster proof, its key proved before anything is spent. *)
Definition enroll_new (v : UpdateVerdict) (address : string) : program (option session) :=
  let enroll := negb (na_EnrollToken auth =? "")%string in
  if negb (na_SecretProof auth =? "")%string && negb enroll then sendFail msgNoRecord
  else if negb enroll && negb (VerifyClusterProof cs token (na_ClusterProof auth))
  then sendFail "unknown node and no enroll token or cluster proof"
  else
    proved ← (if (presented =? "")%string then Ret (Some true)
              else c ← challenge;
                   match c with
                   | None => Ret None
                   | Some (nonce, _, sig) => Ret (Some (verify_signature presented token nonce sig))
                   end);
    match proved with
    | None => Ret None
    | Some false => sendFail "bad challenge response"
    | Some true =>
        r ← (if enroll then Enroll cs token (na_EnrollToken auth) address
             else r ← EnrollPlatform cs token address;
                  Ret (match r with Some (a, i, h) => Some (a, i, h, false) | None => None end));
        match r with
        | None => sendFail "enrollment failed"
        | Some (assignedID, id, secretHex, owned) =>
            keyStored ← (if (presented =? "")%string then Ret false
                         else r ← SetNodeKey id "" "" presented;
                              Ret (match r with Some b => b | None => false end));
            _ ← (if sv_admission s then ConsumeJoinSlot else Ret true);
            still ← (if keyStored : bool then stillPaired id presented "" "" else Ret (Some true));
            match still with
            | Some true =>
                sent ← call (SendAuth (success v secretHex assignedID owned));
                Ret (if sent : bool
                     then Some (mkSession (mkNode id assignedID owned (enroll && negb owned))
                                  (if keyStored : bool then presented else "") "" "")
                     else None)
            | _ => sendFail "the node's pairing changed during login; connect again"
            end
        end
    end.

(** The presented key, on a row that still holds the keys read before; losing
    to a replica that stored this very key is no failure. *)
Definition storeKey (nodeID : Z) (key rejected : string) : program (option bool) :=
  won ← SetNodeKey nodeID key rejected presented;
  match won with
  | None => Ret None
  | Some true => Ret (Some true)
  | Some false =>
      now ← NodeKeys nodeID;
      Ret (match now with Some (now, _) => Some (now =? presented)%string | None => None end)
  end.

(** What every login of a known node ends with: the users are provisioned, the
    pairing is read again, and only then does anything leave Core. *)
Definition hand_over (v : UpdateVerdict) (node : Node) (fingerprint : string) (hasSecret rehand : bool)
    (authKey hmacNonce resp : string) : program (option session) :=
  secretHex ← EnsureExisting cs (nd_ID node) (nd_Token node);
  match secretHex with
  | None => sendFail "acl provision failed"
  | Some secretHex =>
      let hmacResp := if (hmacNonce =? "")%string then "" else resp in
      paired ← stillPaired (nd_ID node) authKey hmacNonce hmacResp;
      match paired with
      | None => sendFail "acl state error"
      | Some false =>
          _ ← recordRefusal fingerprint "the node's pairing changed while it logged in (Reset pairing, Roll key or an approval)";
          sendFail "the node's pairing changed during login; connect again"
      | Some true =>
          sent ← call (SendAuth (success v (if negb hasSecret || rehand then secretHex else "") "" (nd_Owned node)));
          if negb sent then Ret None else
          _ ← (if sv_joins s then call (DeleteNodeJoinAttempt (nd_Token node)) else Ret true);
          Ret (Some (mkSession node authKey hmacNonce hmacResp))
      end
  end.

(** A row that never held a key: the answer to the nonce under its secret. *)
Definition secret_login (v : UpdateVerdict) (node : Node) (fingerprint : string) (hasSecret : bool)
    (key rejected nonce resp : string) : program (option session) :=
  ok ← Handshake_VerifyChallenge cs (nd_ID node) nonce resp;
  match ok with
  | Some true =>
      if (presented =? "")%string then hand_over v node fingerprint hasSecret false "" nonce resp
      else
        stored ← storeKey (nd_ID node) key rejected;
        match stored with
        | None => hand_over v node fingerprint hasSecret false "" nonce resp
        | Some false =>
            _ ← recordRefusal fingerprint "another Core replica registered a different key for this node during its login";
            sendFail "this node's key changed while it logged in; connect again"
        | Some true => hand_over v node fingerprint hasSecret false presented nonce resp
        end
  | _ =>
      _ ← recordRefusal fingerprint "the node's secret and Core's do not match";
      sendFail "bad challenge response"
  end.

Definition admission_reason (node : Node) (key : string) : string * string :=
  let proof := negb (na_ClusterProof auth =? "")%string in
  let fail := "this node is not admitted; approve it in Settings -> Nodes" in
  if nd_Owned node && proof then
    ("a cluster proof was presented for a customer's node, which re-pairs only through an admission", fail)
  else if nd_PlatformToken node && proof then
    ("a cluster proof was presented for an External node, which holds no cluster secret and re-pairs only through an admission", fail)
  else if negb (key =? "")%string && negb (nd_Owned node) then
    ("the node presents a different key than the live one Core holds for it, and only an operator replaces a live key. If it lost its .node_key, use Roll key in Settings -> Nodes or Admit it here: it keeps its secret and its game servers", msgOtherKey)
  else if negb (key =? "")%string then ("the node presents a different key than Core holds for it", fail)
  else ("waiting to be admitted: no cluster secret and no approval", fail).

(** First issuance, or re-pairing under the identity Core has: a cluster proof
    for the operator's own rows without a live login, or an admission. *)
Definition re_pair (v : UpdateVerdict) (node : Node) (fingerprint : string) (hasSecret : bool)
    (key rejected : string) : program (option session) :=
  if negb (key =? "")%string && (presented =? "")%string then
    _ ← recordRefusal fingerprint "this node logs in with a key and presented none: its image predates keys, or it could not read its .node_key";
    sendFail msgNoKey
  else
    let noLiveLogin := (key =? "")%string && (negb (rejected =? "")%string || negb hasSecret) in
    let clusterProof := negb (nd_Owned node) && negb (nd_PlatformToken node) && noLiveLogin &&
                        VerifyClusterProof cs (nd_Token node) (na_ClusterProof auth) in
    admitted ← (if clusterProof then Ret (Some true)
                else if sv_joins s then call (ConsumeNodeJoinApproval (nd_Token node) (peerIPString peer) fingerprint)
                else Ret (Some false));
    match admitted with
    | None => sendFail "admission check failed"
    | Some false =>
        let '(reason, fail) := admission_reason node key in
        _ ← recordRefusal fingerprint reason;
        sendFail fail
    | Some true =>
        if (presented =? "")%string then hand_over v node fingerprint hasSecret true "" "" ""
        else
          stored ← storeKey (nd_ID node) key rejected;
          match stored with
          | None => sendFail "acl state error"
          | Some false =>
              _ ← recordRefusal fingerprint "another Core replica registered a different key for this node during its re-pair";
              sendFail "this node's key changed while it was being admitted; connect again"
          | Some true => hand_over v node fingerprint hasSecret true presented "" ""
          end
    end.

(** A node Core has a row for. *)
Definition known_node (v : UpdateVerdict) (node : Node) : program (option session) :=
  hasSecret ← HasSecret cs (nd_ID node);
  match hasSecret with
  | None => sendFail "acl state error"
  | Some hasSecret =>
      keys ← NodeKeys (nd_ID node);
      match keys with
      | None => sendFail "acl state error"
      | Some (key, rejected) =>
          if negb (presented =? "")%string && (presented =? rejected)%string then
            refuse (mkAR false "an operator replaced this node's key; generate a new one and connect again" "" false "" "" "" "" true "" "" "")
          else
            let secretLogin := (key =? "")%string && (rejected =? "")%string && hasSecret in
            c ← (if negb (presented =? "")%string || secretLogin then
                   c ← challenge; Ret (match c with Some x => Some (Some x) | None => None end)
                 else Ret (Some None));
            match c with
            | None => Ret None
            | Some c =>
                let '(nonce, resp, sig) := default ("", "", "") c in
                if negb (presented =? "")%string && negb (verify_signature presented token nonce sig) then
                  _ ← recordRefusal "" "the node could not prove the key it presented";
                  sendFail "bad challenge response"
                else
                  let fingerprint := key_fingerprint presented in
                  if negb (key =? "")%string && (presented =? key)%string then
                    hand_over v node fingerprint hasSecret (na_SecretProof auth =? "")%string presented "" resp
                  else if secretLogin then secret_login v node fingerprint hasSecret key rejected nonce resp
                  else re_pair v node fingerprint hasSecret key rejected
            end
      end
  end.

(** From the first message to the answer. *)
Definition authenticate : program (option session) :=
  let v := sv_updateGate s "node" (na_ReleaseVersion auth) in
  if uv_Refuse v then sendFail (uv_Message v)
  else if negb (presented =? "")%string && negb (ValidPublicKey presented) then sendFail "malformed node key"
  else
    let address := match na_Ips auth with Some (p, _) => p | None => "" end in
    look ← NodeLoginFacts token;
    match look with
    | LookupErr => sendFail "node lookup failed"
    | NodeNotFound =>
        if sv_admission s then
          adm ← CheckNewRegistration;
          match adm with
          | None => sendFail "admission unavailable"
          | Some (false, reason) => sendFail reason
          | Some (true, _) => enroll_new v address
          end
        else enroll_new v address
    | NodeFound node => known_node v node
    end.

(** One tick of a live stream: whether it goes on. *)
Definition recheck (ss : session) : program bool :=
  look ← NodeLoginFacts (nd_Token (ss_node ss));
  match look with
  | NodeNotFound => Ret false
  | _ =>
      paired ← stillPaired (nd_ID (ss_node ss)) (ss_key ss) (ss_nonce ss) (ss_resp ss);
      Ret (match paired with Some b => b | None => true end)
  end.

(** The stream until it ends by itself or is closed; at most [ticks] checks. *)
Fixpoint live (ticks : nat) (ss : session) : program unit :=
  match ticks with
  | O => Ret tt
  | S ticks =>
      tick ← call Await;
      if negb tick then Ret tt
      else on ← recheck ss; if on : bool then live ticks ss else Ret tt
  end.
End connection.

(** The handler of one stream. *)
Definition NodeConnect (s : Server) (peer : option string) (ticks : nat) : program unit :=
  first ← call Recv;
  match first with
  | None => Ret tt
  | Some (MAuth auth) =>
      r ← authenticate s peer auth;
      match r with
      | None => Ret tt
      | Some ss =>
          _ ← (if sv_joins s then call (SetNodeLastAuthPeerIP (nd_ID (ss_node ss)) (peerIPString peer)) else Ret true);
          _ ← call (RegisterProved (nd_ID (ss_node ss)) (nd_Token (ss_node ss)) (ss_key ss));
          _ ← live s ticks ss;
          _ ← call (Unregister (nd_ID (ss_node ss)));
          Ret tt
      end
  | Some _ => _ ← call (SendAuth (failure "first message must be NodeAuth")); Ret tt
  end.

(** *** node_admission.go, node_self_service.go: taking a login away *)

(** Whether it worked. *)
Definition revokeNodeLogin (nodeID : Z) (rotate : bool) : program bool :=
  if rotate then call (ResetNodeLogin nodeID)
  else
    keyNode ← call (RejectNodePublicKey nodeID);
    match keyNode with
    | None => Ret false
    | Some true => Ret true
    | Some false => call (SetNodeSecretEnc nodeID "")
    end.

Definition resetNodePairing (nodeID : Z) (token : string) : program bool :=
  ok ← revokeNodeLogin nodeID true;
  if negb ok then Ret false else _ ← call (RemoveNodeACL token); Ret true.

(** [foreign]: whether the node is not the caller's. *)
Definition ResetPairing (foreign : bool) (id : Z) : program bool :=
  node ← call (GetNodeByID id);
  match node with
  | None => Ret false
  | Some token => if foreign then Ret false else resetNodePairing id token
  end.

Definition RollSecret (foreign : bool) (id : Z) : program bool :=
  node ← call (GetNodeByID id);
  match node with
  | None => Ret false
  | Some token =>
      if foreign then Ret false else
      fromIP ← call (GetNodeLastAuthPeerIP id);
      match fromIP with
      | None => Ret false
      | Some fromIP =>
          if (fromIP =? "")%string then Ret false else
          ok ← revokeNodeLogin id false;
          if negb ok then Ret false else
          _ ← call (RemoveNodeACL token);
          armed ← call (ArmNodeJoinApproval token fromIP);
          Ret (match armed with Some b => b | None => false end)
      end
  end.

(** [seenIP] and [seenKey]: the attempt the operator was shown. *)
Definition ApproveJoinAttempt (foreign : bool) (token seenIP seenKey : string) : program bool :=
  node ← call (GetNodeByToken token);
  match node with
  | None | Some None => Ret false
  | Some (Some (id, _)) =>
      if foreign then Ret false
      else if (seenIP =? "")%string then Ret false else
      cur ← call (GetNodeJoinAttempt token);
      match cur with
      | None | Some None => Ret false
      | Some (Some (ip, key)) =>
          if negb (ip =? seenIP)%string || negb (key =? seenKey)%string then Ret false else
          ok ← revokeNodeLogin id false;
          if negb ok then Ret false else
          _ ← call (RemoveNodeACL token);
          armed ← call (ApproveNodeJoinAttempt token seenIP seenKey);
          Ret (match armed with Some b => b | None => false end)
      end
  end.

(** The owner's: [id] and [token] are a machine of theirs. *)
Definition AdmitMyNode (id : Z) (token fingerprint : string) : program bool :=
  if (TrimSpace fingerprint =? "")%string then Ret false else
  let fp := normalizeFingerprint fingerprint in
  let n := String.length fp in
  if negb (Nat.eqb n 16) && negb (Nat.eqb n 64) then Ret false else
  ok ← revokeNodeLogin id false;
  if negb ok then Ret false else
  _ ← call (RemoveNodeACL token);
  armed ← call (ApproveNodeJoinAttemptForKey token fp);
  Ret (match armed with Some b => b | None => false end).

Definition DismissJoinAttempt (token : string) : program bool := call (DeleteNodeJoinAttempt token).
End programs.

(** ** What the calls do *)

(** A node's row. *)
Record node_row := mkRow {
  nr_token : string;
  nr_owner : option string;
  nr_via : string;
  nr_secret : string;
  nr_key : string;
  nr_rejected : string;
  nr_peer : string }.

(** A refused join, with the admission armed for it. *)
Record join_row := mkJoin { jr_peer : string; jr_key : string; jr_armed : bool; jr_from : string; jr_akey : string }.

(** An enroll token: whether it was spent, whether it expired or was deleted,
    and whether the node key minted with it is live. *)
Record enroll_row := mkEnroll {
  er_user : string;
  er_platform : bool;
  er_recovery : bool;
  er_used : bool;
  er_expired : bool;
  er_live : bool }.

(** [db_next] is the next id of the sequence. *)
Record db := mkDb {
  db_nodes : gmap Z node_row;
  db_joins : gmap string join_row;
  db_enroll : gmap string enroll_row;
  db_mode : option string;
  db_next : Z }.

Definition with_nodes (f : gmap Z node_row -> gmap Z node_row) (s : db) : db :=
  mkDb (f (db_nodes s)) (db_joins s) (db_enroll s) (db_mode s) (db_next s).
Definition with_joins (f : gmap string join_row -> gmap string join_row) (s : db) : db :=
  mkDb (db_nodes s) (f (db_joins s)) (db_enroll s) (db_mode s) (db_next s).
Definition with_enroll (f : gmap string enroll_row -> gmap string enroll_row) (s : db) : db :=
  mkDb (db_nodes s) (db_joins s) (f (db_enroll s)) (db_mode s) (db_next s).
Definition with_mode (m : option string) (s : db) : db :=
  mkDb (db_nodes s) (db_joins s) (db_enroll s) m (db_next s).
(** A new row under the next id. *)
Definition insert_row (r : node_row) (s : db) : db :=
  mkDb (<[db_next s := r]> (db_nodes s)) (db_joins s) (db_enroll s) (db_mode s) (db_next s + 1).

Definition set_secret (enc : string) (r : node_row) : node_row :=
  mkRow (nr_token r) (nr_owner r) (nr_via r) enc (nr_key r) (nr_rejected r) (nr_peer r).
Definition set_keys (key rejected : string) (r : node_row) : node_row :=
  mkRow (nr_token r) (nr_owner r) (nr_via r) (nr_secret r) key rejected (nr_peer r).
(** The key moved aside; a row without one keeps what it rejected before. *)
Definition reject_key (r : node_row) : node_row :=
  set_keys "" (if (nr_key r =? "")%string then nr_rejected r else nr_key r) r.
Definition disarm (j : join_row) : join_row := mkJoin (jr_peer j) (jr_key j) false "" (jr_akey j).
Definition arm (from akey : string) (j : join_row) : join_row := mkJoin (jr_peer j) (jr_key j) true from akey.

(** Whether an armed admission is for this address and key. *)
Definition approval_matches (j : join_row) (peerIP fingerprint : string) : bool :=
  (negb (jr_from j =? "")%string && (jr_from j =? peerIP)%string &&
   ((jr_akey j =? "")%string || (jr_akey j =? fingerprint)%string)) ||
  ((jr_from j =? "")%string && Nat.leb 16 (String.length (jr_akey j)) && HasPrefix fingerprint (jr_akey j)).

Definition token_row (token : string) (s : db) : option (Z * node_row) :=
  List.find (fun '(_, r) => (nr_token r =? token)%string) (map_to_list (db_nodes s)).

(** What is not decided by the rows: how a call ends, and the answers of
    everything else. *)
Record choice := mkChoice {
  ch_out : outcome;
  ch_msg : option msg;
  ch_text : option string;
  ch_yes : bool;
  ch_list : list string }.

Definition reply {A} (o : outcome) (a : A) : option A := if replied o then Some a else None.
Definition random (n : nat) (t : option string) : option string :=
  match t with Some t => if Nat.eqb (String.length t) n then Some t else None | None => None end.

Section semantics.
Context (cr : crypto) (clusterSecret : string).

(** A statement on one row: how many rows it changed (none or one), and the
    state; nothing happens when it does not arrive. *)
Definition on_row (o : outcome) (id : Z) (test : node_row -> bool) (f : node_row -> node_row) (s : db)
    : option bool * db :=
  match db_nodes s !! id with
  | None => (reply o false, s)
  | Some r =>
      if test r then (reply o true, if applied o then with_nodes <[id := f r]> s else s)
      else (reply o false, s)
  end.

(** An update without a condition reports no count. *)
Definition update_row (o : outcome) (id : Z) (f : node_row -> node_row) (s : db) : bool * db :=
  let '(r, s) := on_row o id (fun _ => true) f s in (replied o, s).

Definition reset_login (o : outcome) (id : Z) (s : db) : bool * db :=
  match db_nodes s !! id with
  | None => (false, s)
  | Some r =>
      (replied o,
       if applied o
       then with_joins (alter disarm (nr_token r)) (with_nodes <[id := set_secret "" (reject_key r)]> s)
       else s)
  end.

Definition consume_enroll (o : outcome) (hash : string) (s : db) : option (option string) * db :=
  match db_enroll s !! hash with
  | Some e =>
      if negb (er_used e) && negb (er_expired e) && (negb (er_platform e) || er_live e) then
        (reply o (Some (er_user e)),
         if applied o then with_enroll <[hash := mkEnroll (er_user e) (er_platform e) (er_recovery e) true (er_expired e) (er_live e)]> s else s)
      else (reply o None, s)
  | None => (reply o None, s)
  end.

Definition consume_approval (o : outcome) (token peerIP fingerprint : string) (s : db) : option bool * db :=
  match db_joins s !! token with
  | Some j =>
      if jr_armed j && approval_matches j peerIP fingerprint then
        (reply o true,
         if applied o
         then with_joins <[token := mkJoin (jr_peer j) (jr_key j) false "" ""]> s
         else s)
      else (reply o false, s)
  | None => (reply o false, s)
  end.

(** Arming an admission that replaces the row's, or makes the row. *)
Definition arm_row (o : outcome) (token : string) (j : join_row) (s : db) : option bool * db :=
  (reply o true, if applied o then with_joins <[token := j]> s else s).

Definition approve_shown (o : outcome) (token peerIP key : string) (s : db) : option bool * db :=
  match db_joins s !! token with
  | Some j =>
      if negb (jr_peer j =? "")%string && (jr_peer j =? peerIP)%string && (jr_key j =? key)%string
      then arm_row o token (arm (jr_peer j) (jr_key j) j) s
      else (reply o false, s)
  | None => (reply o false, s)
  end.

Definition record_attempt (o : outcome) (a : JoinAttempt) (s : db) : bool * db :=
  let j := default (mkJoin "" "" false "" "") (db_joins s !! ja_NodeToken a) in
  (replied o,
   if applied o
   then with_joins <[ja_NodeToken a := mkJoin (ja_PeerIP a) (ja_PresentedKey a) (jr_armed j) (jr_from j) (jr_akey j)]> s
   else s).

Definition hashed (plaintext : string) : string := EncodeToString (cr_sha256 cr plaintext).

Definition perform (c : op) (ch : choice) (s : db) : ans c * db :=
  let o := ch_out ch in
  match c return ans c * db with
  | Recv => (ch_msg ch, s)
  | SendChallenge _ => (ch_yes ch, s)
  | SendAuth _ => (ch_yes ch, s)
  | NewNonce => (EncodeToString <$> random 32 (ch_text ch), s)
  | RandSecret => (random 32 (ch_text ch), s)
  | RandNonce => (random nonceSize (ch_text ch), s)
  | NewUUID => (default "" (ch_text ch), s)
  | RegisterProved _ _ _ => (tt, s)
  | Unregister _ => (tt, s)
  | Await => (ch_yes ch, s)
  | GetNodeByToken t => (reply o (option_map (fun '(id, r) => (id, nr_owner r)) (token_row t s)), s)
  | GetNodeEnrolledVia id => (reply o (nr_via <$> db_nodes s !! id), s)
  | GetNodeByID id => (if replied o then nr_token <$> db_nodes s !! id else None, s)
  | GetNodeSecretEnc id => (if replied o then nr_secret <$> db_nodes s !! id else None, s)
  | SetNodeSecretEnc id enc => update_row o id (set_secret enc) s
  | SetNodeSecretEncIfUnchanged id prev next => on_row o id (fun r => (nr_secret r =? prev)%string) (set_secret next) s
  | GetNodePublicKeys id => (if replied o then (fun r => (nr_key r, nr_rejected r)) <$> db_nodes s !! id else None, s)
  | SetNodePublicKeyIfUnchanged id pk pr k =>
      on_row o id (fun r => (nr_key r =? pk)%string && (nr_rejected r =? pr)%string) (fun r => set_keys k (nr_rejected r) r) s
  | RejectNodePublicKey id =>
      match db_nodes s !! id with
      | None => (None, s)
      | Some r =>
          (reply o (negb (nr_rejected (reject_key r) =? "")%string),
           if applied o then with_nodes <[id := reject_key r]> s else s)
      end
  | ResetNodeLogin id => reset_login o id s
  | CreateNode t a =>
      (reply o (db_next s), if applied o then insert_row (mkRow t None "" "" "" "" "") s else s)
  | SetNodeOwner id owner =>
      update_row o id (fun r => mkRow (nr_token r) (Some owner) (nr_via r) (nr_secret r) (nr_key r) (nr_rejected r) (nr_peer r)) s
  | SetNodeEnrolledVia id via =>
      update_row o id (fun r => mkRow (nr_token r) (nr_owner r) via (nr_secret r) (nr_key r) (nr_rejected r) (nr_peer r)) s
  | SetNodeDisplayName _ _ => (replied o, s)
  | SetNodeLastAuthPeerIP id ip =>
      update_row o id (fun r => mkRow (nr_token r) (nr_owner r) (nr_via r) (nr_secret r) (nr_key r) (nr_rejected r) ip) s
  | GetNodeLastAuthPeerIP id => (if replied o then nr_peer <$> db_nodes s !! id else None, s)
  | DeleteNode id => (replied o, if applied o then with_nodes (delete id) s else s)
  | ListServersByNode _ => (reply o (ch_list ch), s)
  | EnsureNodeACL _ _ _ _ => (replied o, s)
  | RemoveNodeACL _ => (tt, s)
  | ResolveNodeEnrollToken p =>
      (reply o (match db_enroll s !! hashed p with
                | Some e => if negb (er_used e) && negb (er_expired e) && negb (er_recovery e) then Some (er_user e, er_platform e) else None
                | None => None
                end), s)
  | ConsumeNodeEnrollToken p => consume_enroll o (hashed p) s
  | NodeEnrollTokenLabel _ => (ch_text ch, s)
  | BindWarpKeyFromEnrollToken _ _ => (reply o (ch_yes ch), s)
  | NodeLimitReached _ => (ch_yes ch, s)
  | OwnerSuspended _ => (ch_yes ch, s)
  | GetJoinMode => (reply o (db_mode s), s)
  | ConsumeOneShotJoin =>
      (replied o, if applied o && bool_decide (db_mode s = Some "one-shot") then with_mode (Some "disabled") s else s)
  | RecordNodeJoinAttempt a => record_attempt o a s
  | GetNodeJoinAttempt t => (reply o ((fun j => (jr_peer j, jr_key j)) <$> db_joins s !! t), s)
  | ConsumeNodeJoinApproval t ip fp => consume_approval o t ip fp s
  | ApproveNodeJoinAttempt t ip key => approve_shown o t ip key s
  | ApproveNodeJoinAttemptForKey t fp =>
      if Nat.ltb (String.length fp) 16 then (Some false, s)
      else arm_row o t (let j := default (mkJoin "" "" false "" "") (db_joins s !! t) in arm "" fp j) s
  | ArmNodeJoinApproval t ip =>
      if (ip =? "")%string then (Some false, s)
      else arm_row o t (let j := default (mkJoin ip "" false "" "") (db_joins s !! t) in arm ip "" j) s
  | DeleteNodeJoinAttempt t => (replied o, if applied o then with_joins (delete t) s else s)
  | ExpireApproval t => (tt, with_joins (alter (fun j => mkJoin (jr_peer j) (jr_key j) false (jr_from j) (jr_akey j)) t) s)
  | MintEnrollToken h u p rec =>
      (tt, match db_enroll s !! h with
           | Some _ => s
           | None => with_enroll <[h := mkEnroll u p rec false false true]> s
           end)
  | ExpireEnrollToken h =>
      (tt, with_enroll (alter (fun e => mkEnroll (er_user e) (er_platform e) (er_recovery e) (er_used e) true (er_live e)) h) s)
  | RevokeWarpKey h =>
      (tt, with_enroll (alter (fun e => mkEnroll (er_user e) (er_platform e) (er_recovery e) (er_used e) (er_expired e) false) h) s)
  end.

(** An answer some state and some choice give. *)
Definition possible (c : op) (a : ans c) : Prop := exists ch s, (perform c ch s).1 = a.

(** *** Replicas at work *)

(** What starts a program: a stream, or a handler. *)
Inductive request :=
| RConnect (s : Server) (peer : option string) (ticks : nat)
| REnsure (token : string)
| RReset (foreign : bool) (id : Z)
| RRoll (foreign : bool) (id : Z)
| RApprove (foreign : bool) (token seenIP seenKey : string)
| RAdmit (id : Z) (token fingerprint : string)
| RDismiss (token : string).

Definition program_of (r : request) : program unit :=
  match r with
  | RConnect s peer ticks =>
      NodeConnect cr (mkServer (sv_coreID s) clusterSecret (sv_redisAddr s) (sv_mirrorHost s) (sv_admission s) (sv_joins s) (sv_updateGate s)) peer ticks
  | REnsure token => _ ← EnsureForToken cr clusterSecret token; Ret tt
  | RReset f id => _ ← ResetPairing f id; Ret tt
  | RRoll f id => _ ← RollSecret f id; Ret tt
  | RApprove f t ip key => _ ← ApproveJoinAttempt f t ip key; Ret tt
  | RAdmit id t fp => _ ← AdmitMyNode id t fp; Ret tt
  | RDismiss t => _ ← DismissJoinAttempt t; Ret tt
  end.

(** A program under way, with its calls so far, the newest first. *)
Record thread := mkThread { th_prog : program unit; th_hist : list (event ans) }.

(** [w_log] has every call with who made it, the newest first. *)
Record world := mkWorld { w_db : db; w_threads : gmap nat thread; w_log : list (nat * event ans) }.

Inductive label :=
| LStart (i : nat) (r : request)
| LCall (i : nat) (ch : choice)
| LEnv (c : op) (ch : choice).

(** What happens beside these programs: nodes are deleted, admissions expire,
    enroll tokens are minted, expire or lose their node key. *)
Definition env_op (c : op) : bool :=
  match c with
  | DeleteNode _ | ExpireApproval _ | MintEnrollToken _ _ _ _ | ExpireEnrollToken _ | RevokeWarpKey _ => true
  | _ => false
  end.

Definition wexec (l : label) (w : world) : option world :=
  match l with
  | LStart i r =>
      match w_threads w !! i with
      | Some _ => None
      | None => Some (mkWorld (w_db w) (<[i := mkThread (program_of r) []]> (w_threads w)) (w_log w))
      end
  | LCall i ch =>
      match w_threads w !! i with
      | Some (mkThread (Do c k) h) =>
          let '(a, s) := perform c ch (w_db w) in
          Some (mkWorld s (<[i := mkThread (k a) (Ev c a :: h)]> (w_threads w)) ((i, Ev c a) :: w_log w))
      | _ => None
      end
  | LEnv c ch => if env_op c then Some (mkWorld (perform c ch (w_db w)).2 (w_threads w) (w_log w)) else None
  end.

Definition wstep (w w' : world) : Prop := exists l, wexec l w = Some w'.
Definition reachable (s : db) (w : world) : Prop := steps wstep (mkWorld s ∅ []) w.
End semantics.
