(* ===== verification/Login.v ===== *)
(** * Who is let in, and what stays revoked (the properties of [Pairing])

    [entitled] states who may be answered with success, and what may be handed
    to them; every answer of [authenticate] follows it, whatever the store,
    the stream and the other replicas do. Over interleavings of any number of
    streams and handlers: a rejected key never becomes the login key again
    while it is the rejected one, a stored secret changes only by an
    operator's hand, an enroll token and an admission let in one caller. *)

From Stdlib Require Import Ascii String.
From S2P Require Import Prelude GoStrings GoNet NodeAuth RedisAcl Programs Pairing.
Open Scope string_scope.
Open Scope list_scope.
Open Scope Z_scope.

Notation length := List.length.
Notation history := (list (event ans)).
Notation Called c a := (Ev (ans := ans) c a).

(** ** Histories, the newest call first *)

(** This answer came after this nonce was drawn. *)
Definition answered (h : history) (nonce resp sig : string) : Prop :=
  exists h1 h2 h3, h = h1 ++ Called Recv (Some (MChallengeResponse resp sig)) :: h2 ++ Called NewNonce (Some nonce) :: h3.

(** The last time the keys, the secret of a row were read. *)
Fixpoint latest_keys (id : Z) (h : history) : option (option (string * string)) :=
  match h with
  | [] => None
  | existT (GetNodePublicKeys i) a :: h => if i =? id then Some a else latest_keys id h
  | _ :: h => latest_keys id h
  end.
Fixpoint latest_secret (id : Z) (h : history) : option (option string) :=
  match h with
  | [] => None
  | existT (GetNodeSecretEnc i) a :: h => if i =? id then Some a else latest_secret id h
  | _ :: h => latest_secret id h
  end.

Section policy.
Context (cr : crypto) (cs : string).

(** This secret was the row's when the stream read or wrote it. *)
Definition stored_secret (h : history) (id : Z) (sec : string) : Prop :=
  (exists enc, Called (GetNodeSecretEnc id) (Some enc) ∈ h /\ readable cr cs enc = Some sec) \/
  (exists prev ct, Called (SetNodeSecretEncIfUnchanged id prev ct) (Some true) ∈ h /\ readable cr cs ct = Some sec).

(** The row had no secret the stream could read. *)
Definition no_secret (h : history) (id : Z) : Prop :=
  exists enc, Called (GetNodeSecretEnc id) (Some enc) ∈ h /\ readable cr cs enc = None.

(** The row held these keys when the stream read them. *)
Definition read_keys (h : history) (id : Z) (key rejected : string) : Prop :=
  exists k r, Called (GetNodePublicKeys id) (Some (k, r)) ∈ h /\
    decodeNodeKey k = Some key /\ decodeNodeKey r = Some rejected.

(** The last read of the row's key found this one; the last read of its secret
    found one under which this answers the nonce. *)
Definition key_now (h : history) (id : Z) (key : string) : Prop :=
  exists k r, latest_keys id h = Some (Some (k, r)) /\ decodeNodeKey k = Some key.
Definition secret_answers (h : history) (id : Z) (nonce resp : string) : Prop :=
  exists enc sec, latest_secret id h = Some (Some enc) /\ readable cr cs enc = Some sec /\
    ChallengeResponse (cr_derive cr) sec nonce = resp.

Section caller.
Context (peer : option string) (auth : NodeAuth).
Local Notation token := (na_NodeToken auth).
Local Notation presented := (na_NodePublicKey auth).

(** The caller signed this stream's nonce with the key it presented. *)
Definition holds_key (h : history) : Prop :=
  exists nonce resp sig, answered h nonce resp sig /\ verify_signature cr presented token nonce sig = true.

(** A key that is presented is held, and the row names it at the end. *)
Definition key_proved (h : history) (id : Z) : Prop :=
  presented <> "" -> holds_key h /\ key_now h id presented.

(** The row the token names, as the login read it. *)
Definition is_row (h : history) (id : Z) (owned platform : bool) : Prop :=
  exists owner via, Called (GetNodeByToken token) (Some (Some (id, owner))) ∈ h /\
    Called (GetNodeEnrolledVia id) (Some (Some via)) ∈ h /\
    owned = (match owner with Some o => negb (o =? "")%string | None => false end) /\
    platform = (via =? NodeEnrolledViaPlatformToken)%string.

(** Why a known node is let in, and what it may be handed. *)
Inductive known_reason (h : history) (id : Z) (owned platform : bool) (ar : AuthResult) : Prop :=
| by_key rejected :
    presented <> "" -> read_keys h id presented rejected -> key_proved h id ->
    (ar_NodeSecret ar <> "" -> na_SecretProof auth = "" \/ no_secret h id) ->
    known_reason h id owned platform ar
| by_secret nonce resp sig :
    read_keys h id "" "" -> answered h nonce resp sig -> secret_answers h id nonce resp ->
    (presented <> "" -> holds_key h) -> ar_NodeSecret ar = "" ->
    known_reason h id owned platform ar
| by_cluster_proof rejected :
    owned = false -> platform = false -> VerifyClusterProof cr cs token (na_ClusterProof auth) = true ->
    read_keys h id "" rejected -> rejected <> "" \/ no_secret h id -> key_proved h id ->
    known_reason h id owned platform ar
| by_admission key rejected :
    Called (ConsumeNodeJoinApproval token (peerIPString peer) (key_fingerprint cr presented)) (Some true) ∈ h ->
    read_keys h id key rejected -> (key <> "" -> presented <> "") -> key_proved h id ->
    known_reason h id owned platform ar.

(** Why a new row is made, and for whom. *)
Inductive new_reason (h : history) (id : Z) (ar : AuthResult) : Prop :=
| by_tenant_token u owner :
    na_EnrollToken auth <> "" -> Called (ResolveNodeEnrollToken (na_EnrollToken auth)) (Some (Some (u, false))) ∈ h ->
    Called (NodeLimitReached u) false ∈ h -> Called (OwnerSuspended u) false ∈ h ->
    Called (ConsumeNodeEnrollToken (na_EnrollToken auth)) (Some (Some owner)) ∈ h -> Called (SetNodeOwner id owner) true ∈ h ->
    new_reason h id ar
| by_platform_token u owner :
    na_EnrollToken auth <> "" -> Called (ResolveNodeEnrollToken (na_EnrollToken auth)) (Some (Some (u, true))) ∈ h ->
    Called (ConsumeNodeEnrollToken (na_EnrollToken auth)) (Some (Some owner)) ∈ h ->
    Called (SetNodeEnrolledVia id NodeEnrolledViaPlatformToken) true ∈ h ->
    new_reason h id ar
| by_new_cluster_proof :
    na_EnrollToken auth = "" -> na_SecretProof auth = "" -> VerifyClusterProof cr cs token (na_ClusterProof auth) = true ->
    Called (SetNodeEnrolledVia id NodeEnrolledViaClusterProof) true ∈ h ->
    new_reason h id ar.

(** Who may be answered with success. *)
Inductive entitled (admission : bool) (h : history) (ar : AuthResult) : Prop :=
| entitled_known id owned platform :
    is_row h id owned platform -> known_reason h id owned platform ar -> ar_AssignedId ar = "" ->
    (ar_NodeSecret ar <> "" -> exists sec, stored_secret h id sec /\ ar_NodeSecret ar = EncodeToString sec) ->
    entitled admission h ar
| entitled_new id address sec :
    (admission = true -> exists mode, Called GetJoinMode (Some mode) ∈ h /\ mode <> Some "disabled") ->
    (presented <> "" -> holds_key h) -> new_reason h id ar ->
    Called (CreateNode (ar_AssignedId ar) address) (Some id) ∈ h ->
    stored_secret h id sec -> ar_NodeSecret ar = EncodeToString sec ->
    entitled admission h ar.
End caller.

(** No row was made yet. *)
Definition fresh (h : history) : Prop := Forall (fun e => forall t a r, e <> Called (CreateNode t a) r) h.

(** The enroll token of this login was read as a platform's or a tenant's, and
    spent on this stream; [owner] is whom the spending named. *)
Definition spent_token (auth : NodeAuth) (h : history) (platform : bool) (owner : string) : Prop :=
  na_EnrollToken auth <> "" /\
  (exists u, Called (ResolveNodeEnrollToken (na_EnrollToken auth)) (Some (Some (u, platform))) ∈ h) /\
  Called (ConsumeNodeEnrollToken (na_EnrollToken auth)) (Some (Some owner)) ∈ h.

(** No token was presented and the cluster proof holds. *)
Definition cluster_member (auth : NodeAuth) : Prop :=
  na_EnrollToken auth = "" /\ VerifyClusterProof cr cs (na_NodeToken auth) (na_ClusterProof auth) = true.

Definition may_create (auth : NodeAuth) (h : history) : Prop :=
  (exists platform owner, spent_token auth h platform owner) \/ cluster_member auth.

(** The stream made this row. *)
Definition made (h : history) (id : Z) : Prop := exists t a, Called (CreateNode t a) (Some id) ∈ h.

(** What a call of a stream may be, after its calls so far. *)
Definition allowed (admission : bool) (peer : option string) (auth : NodeAuth) (h : history) (c : op) : Prop :=
  match c with
  | SendAuth ar => ar_Ok ar = true -> entitled peer auth admission h ar
  | SetNodePublicKeyIfUnchanged _ _ pr k => k <> pr /\ exists x, k = EncodeToString x /\ String.length x = 32%nat
  | SetNodeSecretEncIfUnchanged _ prev next => readable cr cs prev = None /\ is_Some (readable cr cs next)
  | CreateNode _ _ => fresh h /\ may_create auth h
  | SetNodeOwner id owner => made h id /\ spent_token auth h false owner
  | SetNodeEnrolledVia id via => made h id /\
      ((via = NodeEnrolledViaPlatformToken /\ exists owner, spent_token auth h true owner) \/
       (via = NodeEnrolledViaClusterProof /\ cluster_member auth))
  | SetNodeSecretEnc _ _ | ResetNodeLogin _ | RejectNodePublicKey _ | DeleteNode _ => False
  | _ => True
  end.
End policy.

(** ** Every answer follows the policy *)

Ltac fresh_tac := repeat (apply Forall_cons; split; [by intros|]); try done.
Ltac ev_in := first [eassumption|apply list_elem_of_here|apply list_elem_of_further; ev_in|apply elem_of_app; right; ev_in].

Section parts.
Context (cr : crypto) (s : Server) (peer : option string) (auth : NodeAuth).
Hypothesis gcm_opens : forall k n p, cr_Open cr k n (cr_Seal cr k n p) = Some p.
Hypothesis presented_length : na_NodePublicKey auth <> "" -> String.length (na_NodePublicKey auth) = 32%nat.
Local Notation cs := (sv_clusterSecret s).
Local Notation presented := (na_NodePublicKey auth).
Local Notation G := (allowed cr cs (sv_admission s) peer auth).
Local Notation tr h p Q := (traced (possible cr) G h p Q).

Lemma possible_random n t x : random n t = Some x -> String.length x = n.
Proof. unfold random. destruct t as [t|]; [|done]. destruct (Nat.eqb_spec (String.length t) n); [|done]. by intros [= <-]. Qed.

Lemma sealed_readable nonce secret ct :
  possible cr RandSecret (Some secret) -> possible cr RandNonce nonce ->
  Encrypt (cr_Seal cr) nonce (secret_key cr cs) secret = Some ct -> readable cr cs ct = Some secret.
Proof.
  intros (ch & st & Hs) (ch' & st' & Hn) He. cbn in Hs, Hn. apply possible_random in Hs.
  destruct nonce as [nonce|]; [|by unfold Encrypt in He; destruct (negb _)]. apply possible_random in Hn.
  pose proof (Decrypt_Encrypt (cr_Seal cr) (cr_Open cr) _ _ _ _ gcm_opens Hn He) as Hd.
  unfold readable. rewrite Hd, Hs. destruct (String.eqb_spec ct "") as [->|]; [|done].
  exfalso. revert Hd. unfold Decrypt. by destruct (negb _).
Qed.

Lemma mint_ok n h id :
  tr h (mint_loop cr n cs id) (fun h' r => forall sec, r = inl sec -> stored_secret cr cs h' id sec).
Proof.
  revert h. induction n as [|n IH]; intros h; [done|]. cbn [mint_loop]. apply traced_call; [done|].
  intros [enc|] Henc; [|done]. destruct (readable cr cs enc) as [pt|] eqn:Er.
  { intros sec [= <-]. left. exists enc. split; [ev_in|done]. }
  apply traced_call; [done|]. intros [secret|] Hs; [|done]. apply traced_call; [done|]. intros nonce Hn.
  destruct (Encrypt _ _ _ _) as [ct|] eqn:Ee; [|done].
  pose proof (sealed_readable nonce secret ct Hs Hn Ee) as Hr.
  apply traced_call; [by split; [|eexists]|]. intros [[]|] Hw; [|apply IH|done].
  intros sec [= <-]. right. exists enc, ct. split; [ev_in|done].
Qed.

Lemma stored_secret_app l h id sec : stored_secret cr cs h id sec -> stored_secret cr cs (l ++ h) id sec.
Proof. intros [(enc & H & Hr)|(prev & ct & H & Hr)]; [left; exists enc|right; exists prev, ct]; (split; [ev_in|done]). Qed.

Lemma ensure_ok h id tok :
  tr h (ensure cr cs id tok) (fun h' r => forall x, r = Some x -> exists sec, stored_secret cr cs h' id sec /\ x = EncodeToString sec).
Proof.
  unfold ensure. eapply traced_part; [apply mint_ok|]. intros l [sec|e] Hm; [|done].
  apply traced_call; [done|]. intros [uuids|] Hu; [|done]. apply traced_call; [done|]. intros [] Ho; [|done].
  intros x [= <-]. exists sec. split; [|done]. by apply (stored_secret_app [_; _]), Hm.
Qed.

Lemma HasSecret_ok h id :
  tr h (HasSecret cr cs id) (fun h' r => r = Some false -> no_secret cr cs h' id).
Proof.
  unfold HasSecret, LoadNodeSecret. eapply traced_part with (P := fun h' l => l = SecretNone -> no_secret cr cs h' id).
  - apply traced_call; [done|]. intros [enc|] Henc; [|done]. cbn.
    destruct (enc =? "")%string eqn:E; cbn.
    { intros _. exists enc. split; [ev_in|]. unfold readable. by rewrite E. }
    destruct (Decrypt _ _ _) as [pt|] eqn:Ed; cbn; [|done]. destruct (Nat.eqb (String.length pt) 32) eqn:El; [done|].
    intros _. exists enc. split; [ev_in|]. unfold readable. by rewrite E, Ed, El.
  - intros l [| |sec] H; cbn; [done|intros _; by apply H|done].
Qed.

Lemma VerifyChallenge_ok h id nonce resp :
  tr h (Handshake_VerifyChallenge cr cs id nonce resp) (fun h' r =>
    (r = Some true -> secret_answers cr cs h' id nonce resp) /\ exists a, h' = Called (GetNodeSecretEnc id) a :: h).
Proof.
  unfold Handshake_VerifyChallenge, LoadNodeSecret.
  eapply traced_part with (P := fun h' l => (forall sec, l = SecretOf sec -> exists enc, latest_secret id h' = Some (Some enc) /\
    readable cr cs enc = Some sec) /\ exists a, h' = Called (GetNodeSecretEnc id) a :: h).
  - apply traced_call; [done|]. intros [enc|] Henc; [|split; [done|by eexists]]. cbn.
    destruct (enc =? "")%string eqn:E; cbn; [split; [done|by eexists]|].
    destruct (Decrypt _ _ _) as [pt|] eqn:Ed; cbn; [|split; [done|by eexists]]. split; [|by eexists].
    destruct (Nat.eqb (String.length pt) 32) eqn:El; [|done]. intros sec [= <-]. exists enc.
    split; [by rewrite Z.eqb_refl|]. unfold readable. by rewrite E, Ed, El.
  - intros l [| |sec] [H He]; cbn; (split; [|done]); [done|done|]. intros [= Hr%String.eqb_eq].
    destruct (H sec eq_refl) as (enc & H1 & H2). by exists enc, sec.
Qed.

Lemma NodeKeys_ok h id :
  tr h (NodeKeys id) (fun h' r =>
    (exists a, h' = Called (GetNodePublicKeys id) a :: h) /\
    (forall key rejected, r = Some (key, rejected) -> read_keys h' id key rejected /\ key_now h' id key)).
Proof.
  unfold NodeKeys. apply traced_call; [done|]. intros [[k r]|] Ha; cbn; (split; [by eexists|]); [|done].
  destruct (decodeNodeKey k) as [kk|] eqn:Ek; [|done]. destruct (decodeNodeKey r) as [rr|] eqn:Er; [|done].
  intros key rejected [= <- <-]. split; [exists k, r; split; [ev_in|done]|]. exists k, r. cbn. by rewrite Z.eqb_refl.
Qed.

Lemma stillPaired_ok h id authKey nonce resp :
  tr h (stillPaired cr s id authKey nonce resp) (fun h' r => r = Some true ->
    (authKey <> "" -> key_now h' id authKey) /\ (nonce <> "" -> secret_answers cr cs h' id nonce resp)).
Proof.
  unfold stillPaired. set (part := if (nonce =? "")%string then _ else _).
  assert (Hp : forall h0, tr h0 part (fun h' r => (r = Some true -> nonce <> "" -> secret_answers cr cs h' id nonce resp) /\
    (h' = h0 \/ exists a, h' = Called (GetNodeSecretEnc id) a :: h0))).
  { intros h0. unfold part. destruct (String.eqb_spec nonce "") as [->|Hn]; [cbn; split; [by intros|by left]|].
    eapply traced_mono; [done| |apply VerifyChallenge_ok]. cbn. intros h' r [H He]. split; [auto|by right]. }
  destruct (String.eqb_spec authKey "") as [->|Hk].
  { eapply traced_mono; [done| |apply Hp]. cbn. intros h' r [H _] ->. split; [done|auto]. }
  eapply traced_part; [apply NodeKeys_ok|]. intros l [[now rej]|] [_ Hkeys]; [|done].
  destruct (String.eqb_spec now authKey) as [->|]; [|done]. cbn [negb].
  destruct (Hkeys _ _ eq_refl) as [_ Hnow]. eapply traced_mono; [done| |apply Hp]. cbn.
  intros h' r [H He] ->. split; [intros _|auto]. destruct Hnow as (k & r & Hl & Hd). exists k, r.
  by destruct He as [->|[a ->]].
Qed.

(** *** Facts that outlast further calls *)

Lemma answered_app l h nonce resp sig : answered h nonce resp sig -> answered (l ++ h) nonce resp sig.
Proof. intros (h1 & h2 & h3 & ->). exists (l ++ h1), h2, h3. by rewrite <- app_assoc. Qed.
Lemma holds_key_app l h : holds_key cr auth h -> holds_key cr auth (l ++ h).
Proof. intros (n & r & sig & H & Hv). exists n, r, sig. split; [by apply answered_app|done]. Qed.
Lemma read_keys_app l h id key rejected : read_keys h id key rejected -> read_keys (l ++ h) id key rejected.
Proof. intros (k & r & H & Hd). exists k, r. split; [ev_in|done]. Qed.
Lemma no_secret_app l h id : no_secret cr cs h id -> no_secret cr cs (l ++ h) id.
Proof. intros (enc & H & Hr). exists enc. split; [ev_in|done]. Qed.
Lemma is_row_app l h id o p : is_row auth h id o p -> is_row auth (l ++ h) id o p.
Proof. intros (ow & via & H1 & H2 & H3). exists ow, via. split; [ev_in|]. split; [ev_in|done]. Qed.
Local Hint Resolve answered_app holds_key_app read_keys_app no_secret_app is_row_app : platform.

Lemma success_fields v sec a o :
  ar_NodeSecret (success s v sec a o) = sec /\ ar_AssignedId (success s v sec a o) = a.
Proof. unfold success, applyUpdateWarning. by destruct (negb (uv_Warn v)). Qed.

Lemma sendFail_ok h m : tr h (sendFail m) (fun _ _ => True).
Proof. unfold sendFail, refuse. apply traced_call; [by intros [=]|done]. Qed.

Lemma recordRefusal_ok h fp reason : tr h (recordRefusal s peer auth fp reason) (fun _ _ => True).
Proof. unfold recordRefusal. destruct (negb (sv_joins s)); [done|]. by apply traced_call. Qed.

Lemma refused_ok h fp reason m :
  tr h (recordRefusal s peer auth fp reason ≫= fun _ => sendFail m) (fun _ _ => True).
Proof. eapply traced_part; [apply recordRefusal_ok|]. intros. apply sendFail_ok. Qed.

Lemma hand_over_ok h v id owned platform fp hasSecret rehand authKey nonce resp :
  is_row auth h id owned platform ->
  (forall l ar, (authKey <> "" -> key_now (l ++ h) id authKey) ->
    (nonce <> "" -> secret_answers cr cs (l ++ h) id nonce resp) ->
    (ar_NodeSecret ar <> "" -> hasSecret = false \/ rehand = true) ->
    known_reason cr cs peer auth (l ++ h) id owned platform ar) ->
  tr h (hand_over cr s peer auth v (mkNode id (na_NodeToken auth) owned platform) fp hasSecret rehand authKey nonce resp)
    (fun _ _ => True).
Proof.
  intros Hrow H. unfold hand_over. cbn [nd_ID nd_Token nd_Owned].
  eapply traced_part; [apply ensure_ok|]. intros l [secretHex|] Hs; [|apply sendFail_ok].
  set (hmacResp := if (nonce =? "")%string then "" else resp).
  eapply traced_part; [apply stillPaired_ok|]. intros l2 [[]|] Hp; [|apply refused_ok|apply sendFail_ok].
  destruct (Hp eq_refl) as [Hk Hn]. rewrite app_assoc in *.
  apply traced_call; [|intros []; cbn [negb]; [|done]; intros _; destruct (sv_joins s); [|done]; by apply traced_call].
  intros _. set (ar := success _ _ _ _ _).
  destruct (success_fields v (if negb hasSecret || rehand then secretHex else "") "" owned) as [Esec Eid].
  fold ar in Esec, Eid. eapply entitled_known; [by apply is_row_app| |exact Eid|].
  - apply H; [done| |].
    + intros Hne. specialize (Hn Hne). unfold hmacResp in Hn. by destruct (String.eqb_spec nonce "").
    + rewrite Esec. destruct hasSecret, rehand; cbn; auto.
  - rewrite Esec. destruct (Hs secretHex eq_refl) as (sec & Hst & ->).
    destruct (negb hasSecret || rehand); [intros _|done].
    exists sec. split; [|done]. rewrite <- app_assoc. by apply stored_secret_app.
Qed.

Lemma hex_empty k : EncodeToString k = "" -> k = "".
Proof. by destruct k. Qed.

Lemma storeKey_ok h id key rejected :
  presented <> "" -> presented <> rejected -> tr h (storeKey auth id key rejected) (fun _ _ => True).
Proof.
  intros Hne Hrej. unfold storeKey, SetNodeKey. apply traced_call.
  { split; [by intros ?%hex_inj|]. exists presented. auto. }
  intros [[]|] _; [done| |done]. eapply traced_part; [apply NodeKeys_ok|]. done.
Qed.

Lemma nonce_nonempty nonce : possible cr NewNonce (Some nonce) -> nonce <> "".
Proof.
  intros (ch & st & H). cbn in H. destruct (random 32 (ch_text ch)) as [x|] eqn:E; [|done].
  injection H as <-. apply possible_random in E. intros H. apply hex_empty in H as ->. done.
Qed.

Lemma sendFail_fresh h m : tr h (sendFail m) (fun h' _ => fresh h -> fresh h').
Proof. unfold sendFail, refuse. apply traced_call; [by intros [=]|]. intros b _ Hf. fresh_tac. Qed.

Lemma challenge_ok h :
  tr h challenge (fun h' r => (fresh h -> fresh h') /\
    forall nonce resp sig, r = Some (nonce, resp, sig) -> answered h' nonce resp sig /\ nonce <> "").
Proof.
  unfold challenge. apply traced_call; [done|]. intros [nonce|] Hn.
  2: { eapply traced_part; [apply sendFail_fresh|]. intros l r Hf. split; [intros H; apply Hf; fresh_tac|done]. }
  apply traced_call; [done|]. intros [] _; cbn [negb]; [|split; [intros H; fresh_tac|done]]. apply traced_call; [done|].
  intros [[a|resp sig|]|] _; [| | |split; [intros H; fresh_tac|done]].
  - eapply traced_part; [apply sendFail_fresh|]. intros l r Hf. split; [intros H; apply Hf; fresh_tac|done].
  - split; [intros H; fresh_tac|]. intros n r sg [= <- <- <-].
    split; [by exists [], [Called (SendChallenge nonce) true], h|by apply nonce_nonempty].
  - eapply traced_part; [apply sendFail_fresh|]. intros l r Hf. split; [intros H; apply Hf; fresh_tac|done].
Qed.

Lemma secret_login_ok h v id owned platform fp nonce resp sig :
  is_row auth h id owned platform -> read_keys h id "" "" -> answered h nonce resp sig -> nonce <> "" ->
  (presented <> "" -> holds_key cr auth h) ->
  tr h (secret_login cr s peer auth v (mkNode id (na_NodeToken auth) owned platform) fp true "" "" nonce resp) (fun _ _ => True).
Proof.
  intros Hrow Hk Ha Hn Hp. unfold secret_login. cbn [nd_ID].
  assert (Hend : forall l k, tr (l ++ h) (hand_over cr s peer auth v (mkNode id (na_NodeToken auth) owned platform)
    fp true false k nonce resp) (fun _ _ => True)).
  { intros l k. apply hand_over_ok; [by apply is_row_app|]. intros l2 ar _ Hs Hsec. rewrite app_assoc in *.
    eapply by_secret; eauto with platform.
    destruct (String.eqb_spec (ar_NodeSecret ar) "") as [|Hne]; [done|]. by destruct (Hsec Hne). }
  eapply traced_part; [apply VerifyChallenge_ok|]. intros l [[]|] _; [|apply refused_ok|apply refused_ok].
  destruct (String.eqb_spec presented "") as [E|Hne]; [apply Hend|].
  eapply traced_part; [by apply storeKey_ok|]. intros l2 [[]|] _; [|apply refused_ok|]; rewrite app_assoc; apply Hend.
Qed.

Lemma re_pair_ok h v id owned platform hasSecret key rejected :
  is_row auth h id owned platform -> read_keys h id key rejected -> (hasSecret = false -> no_secret cr cs h id) ->
  (presented <> "" -> presented <> rejected /\ holds_key cr auth h) ->
  tr h (re_pair cr s peer auth v (mkNode id (na_NodeToken auth) owned platform) (key_fingerprint cr presented) hasSecret key rejected)
    (fun _ _ => True).
Proof.
  intros Hrow Hk Hs Hp. unfold re_pair. cbn [nd_ID nd_Token nd_Owned nd_PlatformToken].
  destruct (negb (key =? "")%string && (presented =? "")%string) eqn:Enone; [apply refused_ok|].
  set (noLive := (key =? "")%string && _). set (proof := negb owned && _ && _ && _).
  set (adm := if proof then _ else _).
  assert (Hadm : tr h adm (fun h' r => r = Some true -> proof = true \/
    Called (ConsumeNodeJoinApproval (na_NodeToken auth) (peerIPString peer) (key_fingerprint cr presented)) (Some true) ∈ h')).
  { unfold adm. destruct proof; [by left|]. destruct (sv_joins s); [|done]. split; [done|].
    intros a _ ->. right. ev_in. }
  eapply traced_part; [exact Hadm|]. intros l [[]|] Ha; [|destruct (admission_reason _ _ _); apply refused_ok|apply sendFail_ok].
  assert (Hend : forall l2, tr (l2 ++ l ++ h) (hand_over cr s peer auth v (mkNode id (na_NodeToken auth) owned platform)
    (key_fingerprint cr presented) hasSecret true presented "" "") (fun _ _ => True)).
  { intros l2. rewrite app_assoc. apply hand_over_ok; [by apply is_row_app|]. intros l3 ar Hnow _ _.
    assert (Hprv : key_proved cr auth (l3 ++ (l2 ++ l) ++ h) id).
    { intros Hne. split; [rewrite app_assoc; by apply holds_key_app, Hp|by apply Hnow]. }
    destruct (Ha eq_refl) as [Hpr|Hev].
    - unfold proof, noLive in Hpr. rewrite !andb_true_iff, orb_true_iff, !negb_true_iff in Hpr.
      destruct Hpr as (((Ho & Hpl) & Hkey & Hl) & Hv). apply String.eqb_eq in Hkey as ->.
      eapply by_cluster_proof; eauto; [rewrite app_assoc; by apply read_keys_app|].
      destruct Hl as [Hr|Hh]; [left; by apply String.eqb_neq|right; rewrite app_assoc; by apply no_secret_app, Hs].
    - apply by_admission with (key := key) (rejected := rejected); [|rewrite app_assoc; by apply read_keys_app| |done].
      + rewrite <- app_assoc. ev_in.
      + intros Hne%String.eqb_neq E. by rewrite Hne, E in Enone. }
  destruct (String.eqb_spec presented "") as [E|Hne].
  { specialize (Hend []). by rewrite E in Hend. }
  eapply traced_part; [apply storeKey_ok; [done|by apply Hp]|].
  intros l2 [[]|] _; [apply Hend|apply refused_ok|apply sendFail_ok].
Qed.

Lemma facts_ok h tok :
  tr h (NodeLoginFacts tok) (fun h' r => (fresh h -> fresh h') /\ forall n, r = NodeFound n -> exists id owner via,
    n = mkNode id tok (match owner with Some o => negb (o =? "")%string | None => false end)
          (via =? NodeEnrolledViaPlatformToken)%string /\
    Called (GetNodeByToken tok) (Some (Some (id, owner))) ∈ h' /\ Called (GetNodeEnrolledVia id) (Some (Some via)) ∈ h').
Proof.
  unfold NodeLoginFacts. apply traced_call; [done|]. intros [[[id owner]|]|] _; [|split; [intros H; fresh_tac|done]..].
  apply traced_call; [done|]. intros [[via|]|] _; (split; [intros H; fresh_tac|]); [|done..].
  intros n [= <-]. exists id, owner, via. split; [done|]. split; ev_in.
Qed.

Lemma known_node_ok h v id owned platform :
  is_row auth h id owned platform ->
  tr h (known_node cr s peer auth v (mkNode id (na_NodeToken auth) owned platform)) (fun _ _ => True).
Proof.
  intros Hrow. unfold known_node. cbn [nd_ID]. eapply traced_part; [apply HasSecret_ok|].
  intros l [hasSecret|] Hs; [|apply sendFail_ok]. eapply traced_part; [apply NodeKeys_ok|].
  intros l2 [[key rejected]|] [_ Hkeys]; [|apply sendFail_ok]. destruct (Hkeys _ _ eq_refl) as [Hk _]. clear Hkeys.
  destruct (negb (presented =? "")%string && (presented =? rejected)%string) eqn:Erej.
  { unfold refuse. apply traced_call; [by intros [=]|done]. }
  set (secretLogin := (key =? "")%string && _ && _). 
  match goal with |- traced _ _ _ (mbind _ ?p) _ => set (chal := p) end.
  assert (Hrej : presented <> "" -> presented <> rejected).
  { intros Hne%String.eqb_neq E%String.eqb_eq. by rewrite Hne, E in Erej. }
  assert (Hch : tr (l2 ++ l ++ h) chal (fun h' r =>
    (forall n re sg, r = Some (Some (n, re, sg)) -> answered h' n re sg /\ n <> "") /\
    (r = Some None -> presented = "" /\ secretLogin = false))).
  { unfold chal. destruct (negb (presented =? "")%string || secretLogin) eqn:E.
    - eapply traced_part; [apply challenge_ok|]. intros l3 [[[n re] sg]|] [_ Hc]; cbn; (split; [|done]); [|done].
      intros n' re' sg' [= <- <- <-]. by apply Hc.
    - cbn. split; [done|]. intros _. apply orb_false_iff in E as [E1 E2]. split; [|done].
      by apply negb_false_iff, String.eqb_eq in E1. }
  eapply traced_part; [exact Hch|]. intros l3 [c|] [Hc Hnone]; [|done].
  destruct (default ("", "", "") c) as [[nonce resp] sig] eqn:Ec.
  destruct (negb (presented =? "")%string && negb (verify_signature _ _ _ _ _)) eqn:Esig; [apply refused_ok|].
  assert (Hhold : presented <> "" -> holds_key cr auth (l3 ++ l2 ++ l ++ h)).
  { intros Hne. destruct c as [[[n re] sg]|]; [|by destruct (Hnone eq_refl)]. cbn in Ec. injection Ec as -> -> ->.
    exists nonce, resp, sig. split; [by apply Hc|]. apply String.eqb_neq in Hne. rewrite Hne in Esig. cbn in Esig.
    by apply negb_false_iff in Esig. }
  rewrite !app_assoc in *. apply (is_row_app ((l3 ++ l2) ++ l)) in Hrow.
  apply (read_keys_app l3) in Hk. rewrite !app_assoc in Hk.
  destruct (negb (key =? "")%string && (presented =? key)%string) eqn:Ekey.
  { apply andb_true_iff in Ekey as [Ekey <-%String.eqb_eq]. apply hand_over_ok; [done|]. intros l4 ar Hnow _ Hsec.
    assert (Hne : presented <> "") by by apply negb_true_iff, String.eqb_neq in Ekey.
    eapply by_key; [done|by apply read_keys_app| |].
    - intros _. split; [by apply holds_key_app, Hhold|by apply Hnow].
    - intros H. destruct (Hsec H) as [->|Hp]; [right|left; by apply String.eqb_eq].
      apply no_secret_app. rewrite <- app_assoc. apply no_secret_app. by apply Hs. }
  destruct secretLogin eqn:Elog.
  { unfold secretLogin in Elog. rewrite !andb_true_iff, !String.eqb_eq in Elog. destruct Elog as [[-> ->] ->].
    destruct c as [[[n re] sg]|]; [|by destruct (Hnone eq_refl)]. cbn in Ec. injection Ec as -> -> ->.
    destruct (Hc _ _ _ eq_refl) as [Ha Hn]. by eapply secret_login_ok. }
  apply re_pair_ok; [done|done| |].
  - intros ->. rewrite <- app_assoc. apply no_secret_app. by apply Hs.
  - intros Hne. split; [by apply Hrej|by apply Hhold].
Qed.

(** *** New rows *)

Lemma spent_token_app l h platform owner : spent_token auth h platform owner -> spent_token auth (l ++ h) platform owner.
Proof. intros (H & [u Hu] & Hc). split; [done|]. split; [exists u; ev_in|ev_in]. Qed.

Lemma BYON_ok h tok addr owner name :
  fresh h -> spent_token auth h false owner -> tr h (CreateBYONNode tok addr owner name) (fun h' r => forall id, r = Some id ->
    Called (CreateNode tok addr) (Some id) ∈ h' /\ Called (SetNodeOwner id owner) true ∈ h').
Proof.
  intros Hf Hm. unfold CreateBYONNode. apply traced_call; [split; [done|left; by exists false, owner]|].
  intros [id|] _; [|done].
  apply traced_call; [split; [exists tok, addr; ev_in|by apply (spent_token_app [_])]|]. intros [] _; cbn [negb]; [|done].
  destruct (name =? "")%string.
  - intros i [= <-]. split; ev_in.
  - apply traced_call; [done|]. intros [] _; [|done]. intros i [= <-]. split; ev_in.
Qed.

Lemma marked_ok h via tok addr name :
  fresh h ->
  (via = NodeEnrolledViaPlatformToken /\ exists owner, spent_token auth h true owner) \/
  (via = NodeEnrolledViaClusterProof /\ cluster_member cr cs auth) -> tr h (create_marked via tok addr name) (fun h' r => forall id, r = Some id ->
    Called (CreateNode tok addr) (Some id) ∈ h' /\ Called (SetNodeEnrolledVia id via) true ∈ h').
Proof.
  intros Hf Hm. unfold create_marked. apply traced_call.
  { split; [done|]. destruct Hm as [(_ & owner & Hm)|[_ Hm]]; [left; by exists true, owner|by right]. }
  intros [id|] _; [|done]. apply traced_call.
  { split; [exists tok, addr; ev_in|]. destruct Hm as [(-> & owner & Hm)|Hm]; [left|by right].
    split; [done|]. exists owner. by apply (spent_token_app [_]). } intros [] _; cbn [negb]; [|done].
  destruct (name =? "")%string.
  - intros i [= <-]. split; ev_in.
  - apply traced_call; [done|]. intros [] _; [|done]. intros i [= <-]. split; ev_in.
Qed.

(** What an enrolment leaves in the history. *)
Definition enrolled (h : history) (r : string * Z * string * bool) : Prop :=
  let '(assigned, id, hex, owned) := r in
  (forall ar, new_reason cr cs auth h id ar) /\
  (exists addr, Called (CreateNode assigned addr) (Some id) ∈ h) /\
  (exists sec, stored_secret cr cs h id sec /\ hex = EncodeToString sec).

Lemma Enroll_ok h addr :
  fresh h -> na_EnrollToken auth <> "" ->
  tr h (Enroll cr cs (na_NodeToken auth) (na_EnrollToken auth) addr) (fun h' r => forall x, r = Some x -> enrolled h' x).
Proof.
  intros Hf Hne. unfold Enroll. apply traced_call; [done|]. intros [[[u platform]|]|] _; [|done..].
  set (tok := na_EnrollToken auth) in *.
  assert (Htail : forall h0, fresh h0 ->
    Called (ResolveNodeEnrollToken tok) (Some (Some (u, platform))) ∈ h0 ->
    (platform = false -> Called (NodeLimitReached u) false ∈ h0 /\ Called (OwnerSuspended u) false ∈ h0) ->
    tr h0 (consumed ← call (ConsumeNodeEnrollToken tok);
      match consumed with
      | None | Some None => Ret None
      | Some (Some consumedOwner) =>
          label ← EnrollTokenLabel tok;
          let name := if (label =? "")%string then na_NodeToken auth else label in
          assignedID ← call NewUUID;
          id ← (if platform then CreatePlatformTokenNode assignedID addr name
                else CreateBYONNode assignedID addr consumedOwner name);
          match id with
          | None => Ret None
          | Some id =>
              _ ← call (BindWarpKeyFromEnrollToken tok id);
              secretHex ← ensure cr cs id assignedID;
              match secretHex with
              | None => Ret None
              | Some secretHex => Ret (Some (assignedID, id, secretHex, negb platform))
              end
          end
      end) (fun h' r => forall x, r = Some x -> enrolled h' x)).
  { intros h0 Hf0 Hres Hlim. apply traced_call; [done|]. intros [[owner|]|] _; [|done..].
    unfold EnrollTokenLabel. apply traced_call; [done|]. intros lab _. cbn zeta.
    set (name := if (_ =? "")%string then _ else _). apply traced_call; [done|]. intros aid _.
    match goal with |- traced _ _ ?h1 (mbind _ ?p) _ =>
      assert (Hc : tr h1 p (fun h' r => forall id, r = Some id -> Called (CreateNode aid addr) (Some id) ∈ h' /\
        if platform then Called (SetNodeEnrolledVia id NodeEnrolledViaPlatformToken) true ∈ h'
        else Called (SetNodeOwner id owner) true ∈ h')) end.
    { assert (Hsp : spent_token auth (Called NewUUID aid :: Called (NodeEnrollTokenLabel tok) lab ::
        Called (ConsumeNodeEnrollToken tok) (Some (Some owner)) :: h0) platform owner).
      { split; [done|]. split; [exists u; ev_in|ev_in]. }
      destruct platform; [apply marked_ok; [fresh_tac|left; split; [done|by exists owner]]|apply BYON_ok; [fresh_tac|done]]. }
    eapply traced_part; [exact Hc|]. intros l [id|] Hid; [|done]. destruct (Hid id eq_refl) as [Hcr Hmk].
    apply traced_call; [done|]. intros b _. eapply traced_part; [apply ensure_ok|].
    intros l2 [hex|] Hs; [|done]. intros x [= <-]. destruct (Hs hex eq_refl) as (sec & Hst & ->).
    split; [|split; [exists addr; ev_in|by exists sec]]. intros ar. destruct platform.
    - eapply by_platform_token; [done|ev_in|ev_in|ev_in].
    - destruct (Hlim eq_refl). eapply by_tenant_token; [done|ev_in|ev_in|ev_in|ev_in|ev_in]. }
  destruct platform.
  - apply Htail; [fresh_tac|ev_in|done].
  - apply traced_call; [done|]. intros [] _; [done|]. apply traced_call; [done|]. intros [] _; [done|].
    apply Htail; [fresh_tac|ev_in|intros _; split; ev_in].
Qed.

Lemma enroll_new_ok h v address :
  fresh h -> (sv_admission s = true -> exists mode, Called GetJoinMode (Some mode) ∈ h /\ mode <> Some "disabled") ->
  tr h (enroll_new cr s auth v address) (fun _ _ => True).
Proof.
  intros Hf Hadm. unfold enroll_new.
  destruct (negb (na_SecretProof auth =? "")%string && _) eqn:Eproof; [apply sendFail_ok|].
  destruct (negb (negb (na_EnrollToken auth =? "")%string) && _) eqn:Ecl; [apply sendFail_ok|].
  match goal with |- traced _ _ _ (mbind _ ?p) _ =>
    assert (Hp : tr h p (fun h' r => (fresh h') /\ (r = Some true -> presented <> "" -> holds_key cr auth h'))) end.
  { destruct (String.eqb_spec presented "") as [E|Hne]; [by cbn|].
    eapply traced_part; [apply challenge_ok|]. intros l [[[n re] sg]|] [Hfr Hc]; (split; [by apply Hfr|]); [|done].
    intros [= Hv] _. exists n, re, sg. split; [by apply Hc|done]. }
  eapply traced_part; [exact Hp|]. intros l [[]|] [Hf1 Hhold]; [|apply sendFail_ok|done]. clear Hp.
  match goal with |- traced _ _ _ (mbind _ ?p) _ =>
    assert (He : tr (l ++ h) p (fun h' r => forall x, r = Some x -> enrolled h' x)) end.
  { destruct (String.eqb_spec (na_EnrollToken auth) "") as [E|Hne]; cbn [negb]; [|by apply Enroll_ok].
    cbn in Eproof, Ecl. rewrite andb_true_r in Eproof.
    apply negb_false_iff, String.eqb_eq in Eproof. apply negb_false_iff in Ecl.
    eapply traced_part with (P := fun h' r => forall a i x, r = Some (a, i, x) -> enrolled h' (a, i, x, false)).
    - unfold EnrollPlatform. apply traced_call; [done|]. intros aid _. eapply traced_part; [apply marked_ok; [fresh_tac|right; by split]|].
      intros l2 [id|] Hid; [|done]. destruct (Hid id eq_refl) as [Hcr Hmk].
      eapply traced_part; [apply ensure_ok|]. intros l3 [hex|] Hs; [|done]. intros a i x [= <- <- <-].
      split; [|split; [exists address; ev_in|by apply Hs]]. intros ar. apply by_new_cluster_proof; [done..|ev_in].
    - intros l2 [[[a i] x]|] H; [|done]. intros y [= <-]. by apply H. }
  eapply traced_part; [exact He|]. intros l2 [[[[aid id] hex] owned]|] Hen; [|apply sendFail_ok]. clear He.
  destruct (Hen _ eq_refl) as (Hreason & [addr Hcr] & sec & Hst & ->).
  match goal with |- traced _ _ ?h1 (mbind _ ?p) _ => assert (Hk : tr h1 p (fun _ _ => True)) end.
  { destruct (String.eqb_spec presented "") as [E|Hne]; [done|]. unfold SetNodeKey. apply traced_call; [|done].
    split; [by intros ?%hex_empty|]. exists presented. auto. }
  eapply traced_part; [exact Hk|]. intros l3 stored _. clear Hk.
  match goal with |- traced _ _ ?h1 (mbind _ ?p) _ => assert (Hj : tr h1 p (fun _ _ => True)) end.
  { destruct (sv_admission s); [|done]. unfold ConsumeJoinSlot. apply traced_call; [done|].
    intros [[mode|]|] _; [|done..]. by destruct (negb (mode =? "one-shot")%string). }
  eapply traced_part; [exact Hj|]. intros l4 slot _. clear Hj.
  match goal with |- traced _ _ ?h1 (mbind _ ?p) _ => assert (Hq : tr h1 p (fun _ _ => True)) end.
  { destruct stored; [|done]. eapply traced_mono; [done| |apply stillPaired_ok]. done. }
  eapply traced_part; [exact Hq|]. intros l5 [[]|] _; [|apply sendFail_ok..]. clear Hq.
  apply traced_call; [|by intros []]. intros _. destruct (success_fields v (EncodeToString sec) aid owned) as [E1 E2].
  apply entitled_new with (id := id) (address := addr) (sec := sec); rewrite ?E1, ?E2.
  - intros Ha. destruct (Hadm Ha) as (mode & Hm & Hd). exists mode. split; [ev_in|done].
  - intros Hne. do 4 apply holds_key_app. by apply Hhold.
  - destruct (Hreason (success s v (EncodeToString sec) aid owned)) as [u o ? ? ? ? ?|u o ? ? ?|].
    + eapply by_tenant_token; try done; ev_in.
    + eapply by_platform_token; try done; ev_in.
    + eapply by_new_cluster_proof; try done; ev_in.
  - ev_in.
  - by do 3 apply stored_secret_app.
  - done.
Qed.

End parts.

Lemma authenticate_ok cr s peer auth h :
  (forall k n p, cr_Open cr k n (cr_Seal cr k n p) = Some p) -> fresh h ->
  traced (possible cr) (allowed cr (sv_clusterSecret s) (sv_admission s) peer auth) h (authenticate cr s peer auth) (fun _ _ => True).
Proof.
  intros Hgcm Hf. unfold authenticate. destruct (uv_Refuse _); [apply sendFail_ok|].
  destruct (negb (na_NodePublicKey auth =? "")%string && _) eqn:Ev; [apply sendFail_ok|].
  assert (Hlen : na_NodePublicKey auth <> "" -> String.length (na_NodePublicKey auth) = 32%nat).
  { intros Hne%String.eqb_neq. rewrite Hne in Ev. cbn in Ev. apply negb_false_iff in Ev. unfold ValidPublicKey in Ev.
    by apply andb_true_iff in Ev as [?%Nat.eqb_eq _]. }
  eapply traced_part; [apply facts_ok|]. intros l [| |n] [Hfr Hn]; [apply sendFail_ok| |].
  - remember (sv_admission s) as b eqn:Ea in |- * at 2.
    destruct b; [|apply enroll_new_ok; [done|done|by apply Hfr|by rewrite <- Ea]].
    unfold CheckNewRegistration. apply traced_call; [done|]. intros [mode|] _; [|apply sendFail_ok].
    cbn [mbind prog_mbind prog_bind]. destruct (default "open" mode =? "disabled")%string eqn:Em; [apply sendFail_ok|].
    apply enroll_new_ok; [done|done|specialize (Hfr Hf); fresh_tac|]. intros _. exists mode. split; [ev_in|]. by intros ->.
  - destruct (Hn n eq_refl) as (id & owner & via & -> & H1 & H2). apply known_node_ok; [done|done|]. by exists owner, via.
Qed.

(** C4: Every call a login makes of the store and of the stream follows the
    policy, whatever the store, the stream, the random source and the other
    replicas answer, where AES-GCM opens what it sealed. A success is sent to
    those entitled to it alone. A known node holds the key its row names and
    names still when the pairing is read a last time, or answers the nonce
    under the secret of a row that never held a key, or has a cluster proof
    for a row of the platform's own without a live login, or an admission
    spent for its address and key. A secret that leaves Core is the one stored
    for the row, and goes to nobody who only answered with it. A row is made
    at most once, after an enroll token was spent or for a cluster proof
    without one. An owner is written to the row just made alone, the one the
    spent token named, and for a tenant's token alone; the mark of a platform
    row is written for a platform token or the cluster proof alone; and a node
    that enrolled with a token is answered with success only after its owner,
    or that mark, was written. No login clears a secret, a key or a row, and
    a secret is written over none that can be read. *)
Theorem login_policy cr s peer auth h (c : op) (k : ans c -> program (option session)) :
  (forall key n p, cr_Open cr key n (cr_Seal cr key n p) = Some p) ->
  run (possible cr) (authenticate cr s peer auth) h (Do c k) ->
  allowed cr (sv_clusterSecret s) (sv_admission s) peer auth (rev h) c.
Proof.
  intros Hgcm Hrun. pose proof (authenticate_ok cr s peer auth [] Hgcm (Forall_nil_2 _)) as Ht.
  apply (traced_run _ _ _ _ _ _ _ Hrun) in Ht. rewrite app_nil_r in Ht. by destruct Ht as [Hg _].
Qed.

(** ** Every login comes to an end *)

Section ends.
Context (cr : crypto) (s : Server) (peer : option string) (auth : NodeAuth).
Local Notation cs := (sv_clusterSecret s).

Ltac a_call := match goal with |- calls_within _ (mbind _ (call ?c)) => apply (calls_call (ans := ans) _ c) end.
Ltac one := a_call; intros [].
Ltac split_if := match goal with |- calls_within _ (if ?b then _ else _) => destruct b end.
Ltac few := eapply calls_mono; [|eassumption]; lia.

Lemma mint_calls n id : calls_within (4 * n) (mint_loop cr n cs id).
Proof.
  induction n as [|n IH]; [done|]. replace (4 * S n)%nat with (S (S (S (S (4 * n))))) by lia. cbn [mint_loop].
  one; [|done]. destruct (readable _ _ _); [done|]. one; [|done]. a_call. intros nonce.
  destruct (Encrypt _ _ _ _); [|done]. a_call. by intros [[]|].
Qed.

Lemma ensure_calls id tok : calls_within 14 (ensure cr cs id tok).
Proof.
  unfold ensure. apply (calls_seq 12 2); [apply (mint_calls 3)| |lia]. intros [sec|]; [|done].
  one; [|done]. a_call. by intros [].
Qed.

Lemma load_calls id : calls_within 1 (LoadNodeSecret cr cs id).
Proof.
  unfold LoadNodeSecret. one; [|done]. split_if; [done|]. by destruct (Decrypt _ _ _).
Qed.

Lemma verify_calls id n r : calls_within 1 (Handshake_VerifyChallenge cr cs id n r).
Proof. unfold Handshake_VerifyChallenge. apply (calls_seq 1 0); [apply load_calls|done|lia]. Qed.

Lemma keys_calls id : calls_within 1 (NodeKeys id).
Proof. unfold NodeKeys. by a_call. Qed.

Lemma still_calls id k n r : calls_within 2 (stillPaired cr s id k n r).
Proof.
  unfold stillPaired. set (part := if (n =? "")%string then _ else _).
  assert (Hp : calls_within 1 part) by (unfold part; split_if; [done|apply verify_calls]).
  split_if; [few|]. apply (calls_seq 1 1); [apply keys_calls| |lia].
  intros [[now r0]|]; [|done]. by split_if.
Qed.

Lemma fail_calls m : calls_within 1 (sendFail m).
Proof. unfold sendFail, refuse. by a_call. Qed.

Lemma refused_calls fp reason m : calls_within 2 (recordRefusal s peer auth fp reason ≫= fun _ => sendFail m).
Proof.
  apply (calls_seq 1 1); [|intros _; apply fail_calls|lia]. unfold recordRefusal.
  split_if; [done|by a_call].
Qed.
Local Hint Resolve fail_calls refused_calls : platform.
Ltac stop := eapply calls_mono; [|first [apply fail_calls|apply refused_calls]]; lia.

Lemma hand_over_calls v node fp hs rh k n r : calls_within 18 (hand_over cr s peer auth v node fp hs rh k n r).
Proof.
  unfold hand_over. apply (calls_seq 14 4); [apply ensure_calls| |lia]. intros [x|]; [|stop].
  apply (calls_seq 2 2); [apply still_calls| |lia]. intros [[]|]; [|stop..].
  one; cbn [negb]; [|done]. destruct (sv_joins s); [by a_call|done].
Qed.

Lemma storeKey_calls id k r : calls_within 2 (storeKey auth id k r).
Proof.
  unfold storeKey, SetNodeKey. a_call. intros [[]|]; [done| |done].
  apply (calls_seq 1 0); [apply keys_calls|done|lia].
Qed.

Lemma challenge_calls : calls_within 4 challenge.
Proof.
  unfold challenge. one; [|by apply (calls_seq 1 0); [apply fail_calls|done|lia]].
  one; cbn [negb]; [|done]. a_call. intros [[]|]; try done; by apply (calls_seq 1 0); [apply fail_calls|done|lia].
Qed.

Lemma secret_login_calls v node fp hs k r n resp : calls_within 21 (secret_login cr s peer auth v node fp hs k r n resp).
Proof.
  unfold secret_login. apply (calls_seq 1 20); [apply verify_calls| |lia]. intros [[]|]; [|stop..].
  assert (Hh : forall a, calls_within 18 (hand_over cr s peer auth v node fp hs false a n resp))
    by (intros a; apply hand_over_calls).
  split_if; [eapply calls_mono; [|apply Hh]; lia|].
  apply (calls_seq 2 18); [apply storeKey_calls| |lia]. intros [[]|]; [apply Hh|stop|apply Hh].
Qed.

Lemma re_pair_calls v node fp hs k r : calls_within 21 (re_pair cr s peer auth v node fp hs k r).
Proof.
  unfold re_pair. split_if; [stop|].
  match goal with |- calls_within _ (mbind _ ?p) => assert (Hp : calls_within 1 p) end.
  { split_if; [done|]. split_if; [by intros a|done]. }
  apply (calls_seq 1 20); [exact Hp| |lia]. intros [[]|]; [|destruct (admission_reason _ _ _); stop|stop].
  split_if; [eapply calls_mono; [|apply hand_over_calls]; lia|].
  apply (calls_seq 2 18); [apply storeKey_calls| |lia]. intros [[]|]; [apply hand_over_calls|stop|stop].
Qed.

Lemma known_calls v node : calls_within 27 (known_node cr s peer auth v node).
Proof.
  unfold known_node. apply (calls_seq 1 26).
  { unfold HasSecret. apply (calls_seq 1 0); [apply load_calls|done|lia]. }
  2: lia. intros [hs|]; [|stop]. apply (calls_seq 1 25); [apply keys_calls| |lia]. intros [[k r]|]; [|stop].
  split_if; [unfold refuse; by a_call|].
  match goal with |- calls_within _ (mbind _ ?p) => assert (Hp : calls_within 4 p) end.
  { split_if; [|done]. apply (calls_seq 4 0); [apply challenge_calls|done|lia]. }
  apply (calls_seq 4 21); [exact Hp| |lia]. intros [c|]; [|done]. destruct (default _ c) as [[n resp] sig].
  split_if; [stop|]. split_if; [eapply calls_mono; [|apply hand_over_calls]; lia|].
  split_if; [apply secret_login_calls|apply re_pair_calls].
Qed.

Lemma create_calls owned via tok addr owner name :
  calls_within 3 (if owned : bool then CreateBYONNode tok addr owner name else create_marked via tok addr name).
Proof.
  destruct owned; [unfold CreateBYONNode|unfold create_marked]; (one; [|done]); (one; cbn [negb]; [|done]);
    (split_if; [done|by a_call]).
Qed.

Lemma Enroll_calls addr : calls_within 24 (Enroll cr cs (na_NodeToken auth) (na_EnrollToken auth) addr).
Proof.
  unfold Enroll. a_call. intros [[[u platform]|]|]; [|done..].
  apply (calls_seq 1 22); [by destruct platform| |lia]. intros []; [done|].
  apply (calls_seq 1 21); [by destruct platform| |lia]. intros []; [done|].
  a_call. intros [[owner|]|]; [|done..]. 
  apply (calls_seq 1 19); [by unfold EnrollTokenLabel; a_call| |lia]. intros lab. cbn zeta. a_call. intros aid.
  apply (calls_seq 3 15); [| |lia].
  { destruct platform; [apply (create_calls false NodeEnrolledViaPlatformToken aid addr "")|apply (create_calls true "")]. }
  intros [id|]; [|done]. a_call. intros b. apply (calls_seq 14 0); [apply ensure_calls| |lia]. by intros [].
Qed.

Lemma enroll_new_calls v addr : calls_within 34 (enroll_new cr s auth v addr).
Proof.
  unfold enroll_new. split_if; [stop|]. split_if; [stop|].
  match goal with |- calls_within _ (mbind _ ?p) => assert (Hp : calls_within 4 p) end.
  { split_if; [done|]. apply (calls_seq 4 0); [apply challenge_calls| |lia].
    by intros [[[n r] sig]|]. }
  apply (calls_seq 4 30); [exact Hp| |lia]. intros [[]|]; [|stop|done]. clear Hp.
  match goal with |- calls_within _ (mbind _ ?p) => assert (Hp : calls_within 24 p) end.
  { split_if; [apply Enroll_calls|]. apply (calls_seq 18 0); [|done|lia]. unfold EnrollPlatform.
    a_call. intros aid. apply (calls_seq 3 14); [apply (create_calls false NodeEnrolledViaClusterProof aid addr "")| |lia].
    intros [id|]; [|done]. apply (calls_seq 14 0); [apply ensure_calls|done|lia]. }
  apply (calls_seq 24 6); [exact Hp| |lia]. intros [[[[aid id] hex] owned]|]; [|stop]. clear Hp.
  apply (calls_seq 1 5); [by split_if| |lia]. intros stored.
  apply (calls_seq 2 3); [| |lia].
  { split_if; [|done]. unfold ConsumeJoinSlot. a_call. intros [[mode|]|]; [|done..].
    by split_if. }
  intros slot. apply (calls_seq 2 1); [destruct stored; [apply still_calls|done]| |lia].
  intros [[]|]; [by a_call|stop|stop].
Qed.

Lemma authenticate_calls : calls_within 37 (authenticate cr s peer auth).
Proof.
  unfold authenticate. split_if; [stop|]. split_if; [stop|].
  apply (calls_seq 2 35).
  { unfold NodeLoginFacts. a_call. intros [[[id o]|]|]; [|done..]. by a_call. }
  2: lia. intros [| |node]; [stop| |eapply calls_mono; [|apply known_calls]; lia].
  split_if; [|eapply calls_mono; [|apply enroll_new_calls]; lia].
  apply (calls_seq 1 34); [by unfold CheckNewRegistration; a_call| |lia].
  intros [[[] reason]|]; [apply enroll_new_calls|stop|stop].
Qed.

(** A refusal was sent; the stream itself failed. *)
Definition told (h : history) : Prop := exists ar b, Called (SendAuth ar) b ∈ h /\ ar_Ok ar = false.
Definition broke (h : history) : Prop :=
  Called Recv None ∈ h \/ (exists n, Called (SendChallenge n) false ∈ h) \/ (exists ar, Called (SendAuth ar) false ∈ h).
Definition settled (h : history) (r : option session) : Prop :=
  match r with
  | Some _ => exists ar, Called (SendAuth ar) true ∈ h /\ ar_Ok ar = true
  | None => told h \/ broke h
  end.
Local Notation st h p Q := (traced (possible cr) (fun _ _ => True) h p Q).

Lemma sendFail_settles h m : st h (sendFail m) settled.
Proof. split; [done|]. intros b _. left. exists (failure m), b. split; [ev_in|done]. Qed.

Lemma then_settles {A} h (p : program A) f : (forall l a, st (l ++ h) (f a) settled) -> st h (p ≫= f) settled.
Proof. intros H. eapply traced_part; [apply traced_any|]. intros l a _. apply H. Qed.

Ltac fail_here := first [apply sendFail_settles|apply then_settles; intros; apply sendFail_settles].

Lemma success_ok v x a o : ar_Ok (success s v x a o) = true.
Proof. unfold success, applyUpdateWarning. by destruct (negb _). Qed.

Lemma hand_over_settles h v node fp hs rh k n r : st h (hand_over cr s peer auth v node fp hs rh k n r) settled.
Proof.
  unfold hand_over. apply then_settles. intros l [x|]; [|fail_here].
  apply then_settles. intros l2 [[]|]; [|fail_here..].
  apply traced_call; [done|]. intros [] _; cbn [negb].
  - eapply traced_part; [apply traced_any|]. intros l3 b _. eexists. split; [ev_in|apply success_ok].
  - right. right. right. eexists. ev_in.
Qed.

Lemma sendFail_told h m : st h (sendFail m) (fun h' _ => told h').
Proof. split; [done|]. intros b _. exists (failure m), b. split; [ev_in|done]. Qed.

Lemma challenge_settles h : st h challenge (fun h' r => r = None -> told h' \/ broke h').
Proof.
  unfold challenge. apply traced_call; [done|]. intros [n|] _.
  2: { eapply traced_part; [apply sendFail_told|]. intros l a Ht _. by left. }
  apply traced_call; [done|]. intros [] _; cbn [negb].
  2: { intros _. right. right. left. exists n. ev_in. }
  apply traced_call; [done|]. intros [[a|resp sig|]|] _.
  - eapply traced_part; [apply sendFail_told|]. intros l b Ht _. by left.
  - done.
  - eapply traced_part; [apply sendFail_told|]. intros l b Ht _. by left.
  - intros _. right. left. ev_in.
Qed.

Lemma secret_login_settles h v node fp hs k r n resp :
  st h (secret_login cr s peer auth v node fp hs k r n resp) settled.
Proof.
  unfold secret_login. apply then_settles. intros l [[]|]; [|fail_here..].
  destruct (_ =? "")%string; [apply hand_over_settles|]. apply then_settles.
  intros l2 [[]|]; [apply hand_over_settles|fail_here|apply hand_over_settles].
Qed.

Lemma re_pair_settles h v node fp hs k r : st h (re_pair cr s peer auth v node fp hs k r) settled.
Proof.
  unfold re_pair. match goal with |- traced _ _ _ (if ?b then _ else _) _ => destruct b end; [fail_here|].
  apply then_settles. intros l [[]|]; [|destruct (admission_reason _ _ _); fail_here|fail_here].
  destruct (_ =? "")%string; [apply hand_over_settles|]. apply then_settles.
  intros l2 [[]|]; [apply hand_over_settles|fail_here|fail_here].
Qed.

Lemma known_settles h v node : st h (known_node cr s peer auth v node) settled.
Proof.
  unfold known_node. apply then_settles. intros l [hs|]; [|fail_here].
  apply then_settles. intros l2 [[k r]|]; [|fail_here].
  match goal with |- traced _ _ _ (if ?b then _ else _) _ => destruct b end.
  { split; [done|]. intros b _. left. eexists _, b. split; [ev_in|done]. }
  match goal with |- traced _ _ ?h0 (mbind _ ?p) _ => assert (Hp : st h0 p (fun h' c => c = None -> told h' \/ broke h')) end.
  { match goal with |- traced _ _ _ (if ?b then _ else _) _ => destruct b end; [|done].
    eapply traced_part; [apply challenge_settles|]. intros l3 [c|] H; [done|]. intros _. by apply H. }
  eapply traced_part; [exact Hp|]. intros l3 [c|] H; [|by apply H]. clear Hp H.
  destruct (default _ c) as [[n resp] sig].
  repeat match goal with |- traced _ _ _ (if ?b then _ else _) _ => destruct b end;
    [fail_here|apply hand_over_settles|apply secret_login_settles|apply re_pair_settles].
Qed.

Lemma enroll_new_settles h v addr : st h (enroll_new cr s auth v addr) settled.
Proof.
  unfold enroll_new. match goal with |- traced _ _ _ (if ?b then _ else _) _ => destruct b end; [fail_here|].
  match goal with |- traced _ _ _ (if ?b then _ else _) _ => destruct b end; [fail_here|].
  match goal with |- traced _ _ _ (mbind _ ?p) _ => assert (Hp : st h p (fun h' c => c = None -> told h' \/ broke h')) end.
  { match goal with |- traced _ _ _ (if ?b then _ else _) _ => destruct b end; [done|].
    eapply traced_part; [apply challenge_settles|]. intros l [[[n r] sig]|] H; [done|]. intros _. by apply H. }
  eapply traced_part; [exact Hp|]. intros l [[]|] H; [|fail_here|by apply H]. clear Hp H.
  apply then_settles. intros l2 [[[[aid id] hex] owned]|]; [|fail_here].
  apply then_settles. intros l3 stored. apply then_settles. intros l4 slot. apply then_settles.
  intros l5 [[]|]; [|fail_here..]. apply traced_call; [done|]. intros [] _.
  - eexists. split; [ev_in|apply success_ok].
  - right. right. right. eexists. ev_in.
Qed.

Lemma authenticate_settles h : st h (authenticate cr s peer auth) settled.
Proof.
  unfold authenticate. do 2 (match goal with |- traced _ _ _ (if ?b then _ else _) _ => destruct b end; [fail_here|]).
  apply then_settles. intros l [| |node]; [fail_here| |apply known_settles].
  destruct (sv_admission s); [|apply enroll_new_settles]. apply then_settles.
  intros l2 [[[] reason]|]; [apply enroll_new_settles|fail_here|fail_here].
Qed.
End ends.

(** C31: Every login comes to an end. It makes at most 37 calls whatever they
    answer, the minting of a secret included, and at the end the node has been
    told: a stream that is let in was sent a success it could be sent, and one
    that is not was sent a refusal, unless the stream itself failed. *)
Theorem login_settles cr s peer auth h q :
  run (possible cr) (authenticate cr s peer auth) h q ->
  (length h <= 37)%nat /\ (forall r, q = Ret r -> settled (rev h) r).
Proof.
  intros Hr. split; [eapply calls_run; [apply authenticate_calls|exact Hr]|]. intros r ->.
  pose proof (authenticate_settles cr s peer auth []) as Ht.
  apply (traced_run _ _ _ _ _ _ _ Hr) in Ht. by rewrite app_nil_r in Ht.
Qed.

(** ** Running a program *)

(** The calls a list of choices makes a program do, from a state. *)
Fixpoint drive {A} (cr : crypto) (chs : list choice) (p : program A) (st : db) : history * program A * db :=
  match chs, p with
  | ch :: chs, Do c k =>
      let '(a, st) := perform cr c ch st in
      let '(h, q, st) := drive cr chs (k a) st in (Called c a :: h, q, st)
  | _, _ => ([], p, st)
  end.

Lemma drive_run {A} cr chs (p : program A) st :
  let '(h, q, _) := drive cr chs p st in run (possible cr) p h q.
Proof.
  revert p st. induction chs as [|ch chs IH]; intros p st; [constructor|]. destruct p as [a|c k]; [constructor|].
  cbn [drive]. destruct (perform cr c ch st) as [a st'] eqn:E. specialize (IH (k a) st').
  destruct (drive cr chs (k a) st') as [[h q] st'']. constructor; [|done]. exists ch, st. by rewrite E.
Qed.

(** Cryptography that satisfies the laws the theorems ask for. *)
Definition toy : crypto :=
  mkCrypto (fun key d => "hmac:" +:+ key +:+ d) (fun _ => "0123456789abcdef0123456789abcdef")
    (fun pub m sig => (sig =? "signed")%string) (fun k n p => p) (fun k n c => Some c).
Definition toy_server : Server := mkServer "core" "cluster" "redis:6379" "" false true (fun _ _ => mkVerdict false false "" "" None).
Definition toy_auth : NodeAuth :=
  mkAuth "host" "" "" (ClusterProof (cr_derive toy) "cluster" "host") "" "1.0.0" None None.
Definition empty_db : db := mkDb ∅ ∅ ∅ None 1.
Definition pick (t : string) : choice := mkChoice Replied None (Some t) true [].
Definition yes : choice := mkChoice Replied None None true [].

Lemma login_policy_witness :
  exists h ar, ar_NodeSecret ar <> "" /\ entitled toy "cluster" None toy_auth false (rev h) ar.
Proof.
  set (chs := [yes; pick "id-1"; yes; yes; yes; yes; pick "0123456789abcdef0123456789abcdef"; pick "nonce-of-12b"; yes; yes; yes]).
  pose proof (drive_run toy chs (authenticate toy toy_server None toy_auth) empty_db) as H.
  assert (E : exists k, (drive toy chs (authenticate toy toy_server None toy_auth) empty_db).1.2 =
    Do (SendAuth (success toy_server (mkVerdict false false "" "" None)
      (EncodeToString "0123456789abcdef0123456789abcdef") "id-1" false)) k) by (eexists; vm_compute; reflexivity).
  destruct (drive toy chs (authenticate toy toy_server None toy_auth) empty_db) as [[h q] st] eqn:Ed.
  destruct E as [k E]. cbn [fst snd] in E. subst q. eexists h, _.
  split; [|exact (login_policy toy toy_server None toy_auth h (SendAuth _) k (fun _ _ _ => eq_refl) H eq_refl)]. discriminate.
Defined.

Lemma login_settles_witness :
  exists h, (length h = 12)%nat /\ exists ss, settled (rev h) (Some ss).
Proof.
  set (chs := [yes; pick "id-1"; yes; yes; yes; yes; pick "0123456789abcdef0123456789abcdef"; pick "nonce-of-12b"; yes; yes; yes; yes]).
  pose proof (drive_run toy chs (authenticate toy toy_server None toy_auth) empty_db) as H.
  assert (E : (drive toy chs (authenticate toy toy_server None toy_auth) empty_db).1.2 =
    Ret (Some (mkSession (mkNode 1 "id-1" false false) "" "" ""))) by (vm_compute; reflexivity).
  assert (El : length (drive toy chs (authenticate toy toy_server None toy_auth) empty_db).1.1 = 12%nat) by (vm_compute; reflexivity).
  destruct (drive toy chs (authenticate toy toy_server None toy_auth) empty_db) as [[h q] st] eqn:Ed.
  cbn [fst snd] in E, El. subst q. exists h. split; [exact El|]. eexists.
  exact (proj2 (login_settles toy toy_server None toy_auth h _ H) _ eq_refl).
Defined.
