(* ===== verification/Revocation.v ===== *)
(** * What the replicas of Core keep true together (over [Pairing.wexec])

    Any number of streams and handlers run at once, each statement of the
    store taking effect at its own moment. A key an operator rejected is not
    the login key while it is the rejected one, and a stream that proved it is
    closed at its next check; a stored secret is replaced by an operator's act
    alone; an enroll token makes one row, an admission lets in one stream. The
    file ends with an interleaving that a reset does not survive. *)

From Stdlib Require Import Ascii String.
From S2P Require Import Prelude GoStrings GoNet NodeAuth RedisAcl Programs Pairing Login.
Open Scope string_scope.
Open Scope list_scope.
Open Scope Z_scope.

Notation length := List.length.

Section guards.
Context (cr : crypto) (cs : string).

(** What any program may call, after its calls so far. *)
Definition guard (h : history) (c : op) : Prop :=
  match c with
  | SetNodePublicKeyIfUnchanged _ _ pr k => k <> pr /\ exists x, k = EncodeToString x /\ String.length x = 32%nat
  | SetNodeSecretEncIfUnchanged _ prev next => readable cr cs prev = None /\ is_Some (readable cr cs next)
  | SetNodeSecretEnc _ enc => enc = ""
  | CreateNode _ _ => fresh h /\ exists auth, Called Recv (Some (MAuth auth)) ∈ h /\ may_create cr cs auth h
  | _ => True
  end.

Hypothesis gcm_opens : forall k n p, cr_Open cr k n (cr_Seal cr k n p) = Some p.
Local Notation tr h p := (traced (possible cr) guard h p (fun _ _ => True)).

(** Programs without the calls [guard] restricts. *)
Lemma traced_call_u {A} h c (k : ans c -> program A) :
  guard h c -> (forall a, tr (Called c a :: h) (k a)) -> tr h (call c ≫= k).
Proof. intros H1 H2. apply traced_call; [done|]. intros a _. apply H2. Qed.

Lemma revoke_guarded h id rotate : tr h (revokeNodeLogin id rotate).
Proof.
  unfold revokeNodeLogin. destruct rotate; [by split|]. apply traced_call_u; [done|]. intros [[]|]; [done| |done]. by split.
Qed.

Lemma reset_guarded f id : tr [] (ResetPairing f id).
Proof.
  unfold ResetPairing, resetNodePairing. apply traced_call_u; [done|]. intros [t|]; [|done]. destruct f; [done|].
  eapply traced_part; [apply revoke_guarded|]. intros l [] _; [|done]. by apply traced_call_u.
Qed.

Lemma roll_guarded f id : tr [] (RollSecret f id).
Proof.
  unfold RollSecret. apply traced_call_u; [done|]. intros [t|]; [|done]. destruct f; [done|].
  apply traced_call_u; [done|]. intros [ip|]; [|done]. destruct (ip =? "")%string; [done|].
  eapply traced_part; [apply revoke_guarded|]. intros l [] _; [|done]. cbn [negb].
  apply traced_call_u; [done|]. intros []. by apply traced_call_u.
Qed.

Lemma approve_guarded f t ip key : tr [] (ApproveJoinAttempt f t ip key).
Proof.
  unfold ApproveJoinAttempt. apply traced_call_u; [done|]. intros [[[id o]|]|]; [|done..]. destruct f; [done|].
  destruct (ip =? "")%string; [done|]. apply traced_call_u; [done|]. intros [[[ip' key']|]|]; [|done..].
  destruct (_ || _); [done|]. eapply traced_part; [apply revoke_guarded|]. intros l [] _; [|done]. cbn [negb].
  apply traced_call_u; [done|]. intros []. by apply traced_call_u.
Qed.

Lemma admit_guarded id t fp : tr [] (AdmitMyNode id t fp).
Proof.
  unfold AdmitMyNode. destruct (_ =? "")%string; [done|]. destruct (_ && _); [done|].
  eapply traced_part; [apply revoke_guarded|]. intros l [] _; [|done]. cbn [negb].
  apply traced_call_u; [done|]. intros []. by apply traced_call_u.
Qed.

Local Notation quiet_server := (mkServer "" cs "" "" false false (fun _ _ => mkVerdict false false "" "" None)).

Lemma mint_guarded n h id : tr h (mint_loop cr n cs id).
Proof.
  revert h. induction n as [|n IH]; intros h; [done|]. cbn [mint_loop]. apply traced_call_u; [done|].
  intros [enc|]; [|done]. destruct (readable cr cs enc) as [pt|] eqn:Er; [done|].
  apply traced_call; [done|]. intros [secret|] Hs; [|done]. apply traced_call; [done|]. intros nonce Hn.
  destruct (Encrypt _ _ _ _) as [ct|] eqn:Ee; [|done].
  pose proof (sealed_readable cr quiet_server gcm_opens nonce secret ct Hs Hn Ee) as Hr.
  apply traced_call_u; [by split; [|eexists]|]. by intros [[]|].
Qed.

Lemma ensure_guarded t : tr [] (EnsureForToken cr cs t).
Proof.
  unfold EnsureForToken, ensure. apply traced_call_u; [done|]. intros [[[id o]|]|]; [|done..].
  apply traced_bind. apply traced_bind.
  eapply traced_mono; [done| |apply mint_guarded]. intros h [sec|] _; [|done].
  apply traced_call_u; [done|]. intros [uuids|]; [|done]. by apply traced_call_u.
Qed.

Lemma live_guarded s ticks ss h : sv_clusterSecret s = cs -> tr h (live cr s ticks ss).
Proof.
  intros Ecs. revert h. induction ticks as [|n IH]; intros h; [done|]. cbn [live]. apply traced_call_u; [done|].
  intros []; [|done]. cbn [negb]. eapply traced_part with (P := fun _ _ => True); [|by intros l [] _].
  unfold recheck, NodeLoginFacts, stillPaired, Handshake_VerifyChallenge, LoadNodeSecret, NodeKeys.
  apply traced_bind. eapply traced_mono with (G := guard) (Q := fun _ _ => True); [done| |].
  2: { apply traced_call_u; [done|]. intros [[[id o]|]|]; [|done..]. by apply traced_call_u. }
  assert (Hpart : forall h0, tr h0 (if (ss_nonce ss =? "")%string then Ret (Some true)
    else Handshake_VerifyChallenge cr (sv_clusterSecret s) (nd_ID (ss_node ss)) (ss_nonce ss) (ss_resp ss))).
  { intros h0. destruct (_ =? "")%string; [done|]. unfold Handshake_VerifyChallenge, LoadNodeSecret.
    apply traced_bind. apply traced_call_u; [done|]. intros [enc|]; [|done]. destruct (enc =? "")%string; [done|].
    by destruct (Decrypt _ _ _). }
  intros h0 look _. destruct look; [|done|].
  all: eapply traced_part with (P := fun _ _ => True); [|done].
  all: destruct (ss_key ss =? "")%string; [apply Hpart|]; apply traced_bind; apply traced_call_u; [done|].
  all: intros [[k r]|]; [|done]; cbn; destruct (decodeNodeKey k), (decodeNodeKey r); try done.
  all: destruct (negb _); [done|apply Hpart].
Qed.

Lemma connect_guarded s peer ticks : sv_clusterSecret s = cs -> tr [] (NodeConnect cr s peer ticks).
Proof.
  intros Ecs. unfold NodeConnect. apply traced_call_u; [done|]. intros [[auth|resp sig|]|]; [|by apply traced_call_u..|done].
  apply traced_bind.
  assert (Hf : fresh [Called Recv (Some (MAuth auth))]) by (constructor; [by intros|constructor]).
  pose proof (traced_grows _ _ _ _ _ (authenticate_ok cr s peer auth _ gcm_opens Hf)) as Ha. rewrite Ecs in Ha.
  eapply traced_mono; [| |exact Ha].
  - intros h c [[l ->] H]. destruct c; try done. destruct H as [H1 H2]. split; [done|]. exists auth. split; [ev_in|done].
  - intros h [ss|] _; [|done].
    eapply traced_part with (P := fun _ _ => True); [by destruct (sv_joins s)|]. intros l b _.
    apply traced_call_u; [done|]. intros []. eapply traced_part; [by apply live_guarded|]. intros l2 u _.
    by apply traced_call_u.
Qed.

Lemma program_guarded r : tr [] (program_of cr cs r).
Proof.
  assert (H : forall (p : program bool), tr [] p -> tr [] (p ≫= fun _ => Ret tt)).
  { intros p Hp. eapply traced_part; [exact Hp|]. done. }
  destruct r; cbn [program_of]; [by apply connect_guarded|apply H..].
  - apply ensure_guarded.
  - apply reset_guarded.
  - apply roll_guarded.
  - apply approve_guarded.
  - apply admit_guarded.
  - by split.
Qed.
End guards.

(** ** One call, one row *)

Definition same_login (r r' : node_row) : Prop :=
  nr_secret r' = nr_secret r /\ nr_key r' = nr_key r /\ nr_rejected r' = nr_rejected r.

(** What a call makes of a row. *)
Definition row_step (c : op) (id : Z) (r r' : node_row) : Prop :=
  same_login r r' \/
  match c with
  | SetNodeSecretEnc i enc => i = id /\ r' = set_secret enc r
  | SetNodeSecretEncIfUnchanged i prev next => i = id /\ nr_secret r = prev /\ r' = set_secret next r
  | SetNodePublicKeyIfUnchanged i pk pr k => i = id /\ nr_key r = pk /\ nr_rejected r = pr /\ r' = set_keys k pr r
  | RejectNodePublicKey i => i = id /\ r' = reject_key r
  | ResetNodeLogin i => i = id /\ r' = set_secret "" (reject_key r)
  | _ => False
  end.

Lemma same_login_refl r : same_login r r.
Proof. done. Qed.

Lemma on_row_step o i test f s id r' :
  db_nodes (on_row o i test f s).2 !! id = Some r' ->
  exists r, db_nodes s !! id = Some r /\ (r' = r \/ (i = id /\ test r = true /\ r' = f r)).
Proof.
  unfold on_row. destruct (db_nodes s !! i) as [r|] eqn:E; cbn; [|by eauto].
  destruct (test r) eqn:Et; cbn; [|by eauto]. destruct (applied o); [|by eauto]. cbn.
  destruct (decide (i = id)) as [->|Hne].
  - rewrite lookup_insert_eq. intros [= <-]. exists r. auto.
  - rewrite lookup_insert_ne by done. eauto.
Qed.

Lemma update_row_step o i f s id r' :
  db_nodes (update_row o i f s).2 !! id = Some r' ->
  exists r, db_nodes s !! id = Some r /\ (r' = r \/ (i = id /\ r' = f r)).
Proof.
  unfold update_row. destruct (on_row o i (fun _ => true) f s) as [b s'] eqn:E. cbn. intros H.
  pose proof (on_row_step o i (fun _ => true) f s id r') as Hs. rewrite E in Hs. destruct (Hs H) as (r & Hr & Hc).
  exists r. split; [done|]. naive_solver.
Qed.

Lemma insert_step (i : Z) (r0 : node_row) o s id r' :
  db_nodes s !! i = Some r0 ->
  forall f, db_nodes (if applied o then with_nodes <[i := f r0]> s else s) !! id = Some r' ->
  exists r, db_nodes s !! id = Some r /\ (r' = r \/ (i = id /\ r' = f r)).
Proof.
  intros E f. destruct (applied o); cbn; [|by eauto]. destruct (decide (i = id)) as [->|Hne].
  - rewrite lookup_insert_eq. intros [= <-]. exists r0. auto.
  - rewrite lookup_insert_ne by done. eauto.
Qed.

Section rows.
Context (cr : crypto) (cs : string).

(** The calls that write node rows. *)
Definition writes_rows (c : op) : bool :=
  match c with
  | SetNodeSecretEnc _ _ | SetNodeSecretEncIfUnchanged _ _ _ | SetNodePublicKeyIfUnchanged _ _ _ _
  | RejectNodePublicKey _ | ResetNodeLogin _ | CreateNode _ _ | SetNodeOwner _ _ | SetNodeEnrolledVia _ _
  | SetNodeLastAuthPeerIP _ _ | DeleteNode _ => true
  | _ => false
  end.

Lemma perform_other c ch s :
  writes_rows c = false ->
  db_nodes (perform cr c ch s).2 = db_nodes s /\ db_next (perform cr c ch s).2 = db_next s.
Proof.
  destruct c; try done; intros _; cbn [perform snd];
    unfold consume_enroll, consume_approval, approve_shown, record_attempt, arm_row; by repeat case_match.
Qed.

Lemma row_kept c id (r : node_row) (m : gmap Z node_row) (P : Prop) :
  m !! id = Some r -> (exists r0, m !! id = Some r0 /\ row_step c id r0 r) \/ P.
Proof. intros H. left. exists r. split; [done|by left]. Qed.

Lemma perform_row c ch s id r' :
  db_nodes (perform cr c ch s).2 !! id = Some r' ->
  (exists r, db_nodes s !! id = Some r /\ row_step c id r r') \/
  (id = db_next s /\ exists t a, c = CreateNode t a /\ r' = mkRow t None "" "" "" "" "").
Proof.
  destruct (writes_rows c) eqn:Ew; [|rewrite (proj1 (perform_other c ch s Ew)); apply row_kept].
  unfold row_step. destruct c; try done; clear Ew; cbn [perform snd].
  all: try (intros H; left; apply update_row_step in H as (r & Hr & [->|[-> ->]]); exists r;
    (split; [exact Hr|]); first [by left|right; by split]).
  - intros H. left. apply on_row_step in H as (r & Hr & [->|(-> & Ht & ->)]); exists r; (split; [exact Hr|]); [by left|].
    right. by apply String.eqb_eq in Ht.
  - intros H. left. apply on_row_step in H as (r & Hr & [->|(-> & Ht & ->)]); exists r; (split; [exact Hr|]); [by left|].
    right. by apply andb_true_iff in Ht as [<-%String.eqb_eq <-%String.eqb_eq].
  - destruct (db_nodes s !! id0) as [r0|] eqn:E; cbn [snd]; [|apply (row_kept (RejectNodePublicKey id0))].
    intros H. left. destruct (insert_step id0 r0 (ch_out ch) s id r' E reject_key H) as (r & Hr & [->|[-> ->]]);
      exists r; (split; [exact Hr|]); [by left|by right].
  - unfold reset_login. destruct (db_nodes s !! id0) as [r0|] eqn:E; cbn [snd]; [|apply (row_kept (ResetNodeLogin id0))].
    intros H. left.
    assert (H' : db_nodes (if applied (ch_out ch) then with_nodes <[id0 := set_secret "" (reject_key r0)]> s else s) !! id = Some r').
    { by destruct (applied (ch_out ch)). }
    destruct (insert_step id0 r0 (ch_out ch) s id r' E (fun r => set_secret "" (reject_key r)) H') as (r & Hr & [->|[-> ->]]);
      exists r; (split; [exact Hr|]); [by left|by right].
  - destruct (applied (ch_out ch)); [|apply (row_kept (CreateNode token address))]. cbn.
    destruct (decide (db_next s = id)) as [<-|Hne].
    + rewrite lookup_insert_eq. intros [= <-]. right. eauto.
    + rewrite lookup_insert_ne by done. apply (row_kept (CreateNode token address)).
  - destruct (applied (ch_out ch)); cbn; [|apply (row_kept (DeleteNode id0))].
    intros H. apply lookup_delete_Some in H as [_ H]. by apply (row_kept (DeleteNode id0)).
Qed.

Lemma perform_next c ch s :
  db_next s <= db_next (perform cr c ch s).2 /\
  (forall id, is_Some (db_nodes (perform cr c ch s).2 !! id) -> is_Some (db_nodes s !! id) \/ id = db_next s /\ db_next s < db_next (perform cr c ch s).2).
Proof.
  assert (Hn : db_next s <= db_next (perform cr c ch s).2 /\
    (forall t a, c = CreateNode t a -> db_next s < db_next (perform cr c ch s).2 \/ db_nodes (perform cr c ch s).2 = db_nodes s)).
  { destruct (writes_rows c) eqn:Ew; [|rewrite (proj2 (perform_other c ch s Ew)); split; [lia|by intros t a ->]].
    destruct c; try done; cbn [perform snd]; unfold update_row, on_row, reset_login;
      repeat case_match; simplify_eq; cbn; (split; [lia|intros ? ? E; try done; first [left; lia|by right]]). }
  destruct Hn as [Hle Hc]. split; [done|]. intros id [r' H].
  destruct (perform_row _ _ _ _ _ H) as [(r & Hr & _)|(-> & t & a & -> & _)]; [left; by exists r|].
  destruct (Hc t a eq_refl) as [Hlt|E]; [by right|]. left. exists r'. by rewrite <- E.
Qed.
End rows.

(** ** Worlds *)

Section worlds.
Context (cr : crypto) (cs : string).
Hypothesis gcm_opens : forall k n p, cr_Open cr k n (cr_Seal cr k n p) = Some p.

Definition threads_guarded (w : world) : Prop :=
  forall i th, w_threads w !! i = Some th -> traced (possible cr) (guard cr cs) (th_hist th) (th_prog th) (fun _ _ => True).

(** A call of the world: who, what it answered, the state before. *)
Lemma wstep_cases w w' :
  threads_guarded w -> wstep cr cs w w' ->
  threads_guarded w' /\
  ((w_db w' = w_db w /\ w_log w' = w_log w) \/
   (exists i th c k ch, w_threads w !! i = Some th /\ th_prog th = Do c k /\ guard cr cs (th_hist th) c /\
      w_db w' = (perform cr c ch (w_db w)).2 /\ w_log w' = (i, Called c (perform cr c ch (w_db w)).1) :: w_log w /\
      w_threads w' = <[i := mkThread (k (perform cr c ch (w_db w)).1) (Called c (perform cr c ch (w_db w)).1 :: th_hist th)]> (w_threads w)) \/
   (exists c ch, env_op c = true /\ w_db w' = (perform cr c ch (w_db w)).2 /\ w_log w' = w_log w)).
Proof.
  intros Hg [l H]. destruct l as [i r|i ch|c ch]; cbn [wexec] in H.
  - destruct (w_threads w !! i) eqn:E; [done|]. injection H as <-. split; [|by left].
    intros j th Hj. cbn in Hj. destruct (decide (i = j)) as [->|Hne].
    + rewrite lookup_insert_eq in Hj. injection Hj as <-. by apply program_guarded.
    + rewrite lookup_insert_ne in Hj by done. by apply Hg in Hj.
  - destruct (w_threads w !! i) as [[[a|c k] h]|] eqn:E; [done| |done].
    destruct (perform cr c ch (w_db w)) as [a s] eqn:Ep. injection H as <-. pose proof (Hg _ _ E) as [H1 H2]. split.
    + intros j th Hj. cbn in Hj. destruct (decide (i = j)) as [->|Hne].
      * rewrite lookup_insert_eq in Hj. injection Hj as <-. cbn. apply H2. exists ch, (w_db w). by rewrite Ep.
      * rewrite lookup_insert_ne in Hj by done. by apply Hg in Hj.
    + right. left. exists i, (mkThread (Do c k) h), c, k, ch. rewrite Ep. done.
  - destruct (env_op c) eqn:E; [|done]. injection H as <-. split; [done|]. right. right. by exists c, ch.
Qed.

(** What holds at the start and survives every call a program may make holds
    in every reachable world. *)
Lemma reachable_guarded s w : reachable cr cs s w -> threads_guarded w.
Proof.
  intros H. eapply (steps_invariant (wstep cr cs) threads_guarded); [|exact H|by intros i th E].
  intros a b Hab Ha. by apply (wstep_cases a b Ha Hab).
Qed.

Lemma reachable_rule (I : world -> Prop) s w :
  I (mkWorld s ∅ []) ->
  (forall w w', threads_guarded w -> I w -> w_db w' = w_db w -> w_log w' = w_log w -> I w') ->
  (forall w w' i th c k ch, threads_guarded w -> I w -> w_threads w !! i = Some th -> th_prog th = Do c k ->
    guard cr cs (th_hist th) c -> w_db w' = (perform cr c ch (w_db w)).2 ->
    w_log w' = (i, Called c (perform cr c ch (w_db w)).1) :: w_log w -> I w') ->
  (forall w w' c ch, threads_guarded w -> I w -> env_op c = true -> w_db w' = (perform cr c ch (w_db w)).2 ->
    w_log w' = w_log w -> I w') ->
  reachable cr cs s w -> I w.
Proof.
  intros H0 H1 H2 H3 Hr.
  assert (H : threads_guarded w /\ I w); [|apply H].
  eapply (steps_invariant (wstep cr cs) (fun w => threads_guarded w /\ I w)); [|exact Hr|split; [by intros i th E|exact H0]].
  intros a b Hab [Hg Ha]. destruct (wstep_cases a b Hg Hab) as [Hg' [[E1 E2]|[(i & th & c & k & ch & Hi & Hp & Hgd & E1 & E2 & _)|(c & ch & He & E1 & E2)]]];
    (split; [exact Hg'|]); [exact (H1 a b Hg Ha E1 E2)|exact (H2 a b i th c k ch Hg Ha Hi Hp Hgd E1 E2)|exact (H3 a b c ch Hg Ha He E1 E2)].
Qed.

Lemma env_guarded h c : env_op c = true -> guard cr cs h c.
Proof. by destruct c. Qed.

(** *** Rejected keys *)

Definition key_ok (k : string) : Prop := k = "" \/ exists x, k = EncodeToString x /\ String.length x = 32%nat.
Definition row_ok (r : node_row) : Prop := key_ok (nr_key r) /\ (nr_key r = "" \/ nr_key r <> nr_rejected r).
Definition rows_ok (s : db) : Prop := forall id r, db_nodes s !! id = Some r -> row_ok r.

Lemma row_step_ok h c id r r' : guard cr cs h c -> row_step c id r r' -> row_ok r -> row_ok r'.
Proof.
  intros Hg [(_ & Ek & Er)|H] [Hk Hr]; [unfold row_ok; by rewrite Ek, Er|]. destruct c; try done.
  - by destruct H as [-> ->].
  - by destruct H as (-> & _ & ->).
  - destruct H as (-> & _ & _ & ->). destruct Hg as [Hne Hx]. split; [by right|by right].
  - destruct H as [-> ->]. split; by left.
  - destruct H as [-> ->]. split; by left.
Qed.

Lemma perform_rows_ok h c ch s : guard cr cs h c -> rows_ok s -> rows_ok (perform cr c ch s).2.
Proof.
  intros Hg H id r' Hr. destruct (perform_row cr c ch s id r' Hr) as [(r & E & Hst)|(_ & t & a & _ & ->)].
  - by eapply row_step_ok; [| |eapply H].
  - split; by left.
Qed.

Lemma reachable_rows s w : rows_ok s -> reachable cr cs s w -> rows_ok (w_db w).
Proof.
  intros H0. apply (reachable_rule (fun w => rows_ok (w_db w))); [done|..].
  - by intros w1 w2 _ H -> _.
  - intros w1 w2 i th c k ch _ H _ _ Hg -> _. by eapply perform_rows_ok.
  - intros w1 w2 c ch _ H He -> _. eapply (perform_rows_ok []); [by apply env_guarded|done].
Qed.

Lemma decode_hex x : String.length x = 32%nat -> decodeNodeKey (EncodeToString x) = Some x.
Proof.
  intros Hl. unfold decodeNodeKey. destruct (String.eqb_spec (EncodeToString x) "") as [E|_].
  - apply hex_empty in E as ->. done.
  - by rewrite hex_roundtrip, Hl.
Qed.

(** A check of a live stream against the rows as they are. *)
Lemma still_rejected sv id key n rs chs s r h b s' :
  rows_ok s -> db_nodes s !! id = Some r -> String.length key = 32%nat -> nr_rejected r = EncodeToString key ->
  Forall (fun ch => ch_out ch = Replied) chs ->
  drive cr chs (paired ← stillPaired cr sv id key n rs; Ret (match paired with Some b => b | None => true end)) s = (h, Ret b, s') ->
  b = false.
Proof.
  intros Hok Hr Hlen Hrej Hch Hd. destruct (Hok _ _ Hr) as [Hko Hne]. unfold stillPaired in Hd.
  assert (Hk : key <> "") by (intros ->; done). rewrite (proj2 (String.eqb_neq _ _) Hk) in Hd.
  destruct chs as [|ch chs]; [discriminate|]. apply Forall_cons in Hch as [Ho Hch].
  cbn [mbind prog_mbind prog_bind NodeKeys call drive perform] in Hd. rewrite Ho, Hr in Hd.
  cbn [replied fmap option_fmap option_map] in Hd. rewrite Hrej, (decode_hex key Hlen) in Hd.
  assert (Hnow : exists now, decodeNodeKey (nr_key r) = Some now /\ now <> key).
  { destruct Hko as [E|(x & E & Hx)]; rewrite E.
    - exists "". by split.
    - exists x. split; [by apply decode_hex|]. intros ->. destruct Hne as [E'|Hne]; [rewrite E in E'|].
      + by apply hex_empty in E' as ->.
      + apply Hne. by rewrite E, Hrej. }
  destruct Hnow as (now & En & Hno). rewrite En in Hd. rewrite (proj2 (String.eqb_neq _ _) Hno) in Hd.
  cbn in Hd. destruct chs; by injection Hd.
Qed.

Lemma recheck_rejected sv ss chs s r h b s' :
  rows_ok s -> db_nodes s !! nd_ID (ss_node ss) = Some r ->
  String.length (ss_key ss) = 32%nat -> nr_rejected r = EncodeToString (ss_key ss) ->
  Forall (fun ch => ch_out ch = Replied) chs -> drive cr chs (recheck cr sv ss) s = (h, Ret b, s') -> b = false.
Proof.
  intros Hok Hr Hlen Hrej Hch Hd. unfold recheck in Hd.
  destruct chs as [|c1 chs]; [discriminate|]. apply Forall_cons in Hch as [Ho1 Hch].
  cbn [mbind prog_mbind prog_bind NodeLoginFacts call drive perform] in Hd. unfold reply in Hd. rewrite Ho1 in Hd. cbn [replied] in Hd.
  destruct (token_row (nd_Token (ss_node ss)) s) as [[i row]|]; cbn [option_map] in Hd; [|cbn in Hd; destruct chs; by injection Hd].
  destruct chs as [|c2 chs]; [discriminate|]. apply Forall_cons in Hch as [Ho2 Hch].
  cbn [prog_bind drive perform] in Hd. unfold reply in Hd. rewrite Ho2 in Hd. cbn [replied] in Hd.
  destruct (nr_via <$> db_nodes s !! i) as [via|]; [|cbn in Hd; destruct chs; by injection Hd].
  cbn [prog_bind] in Hd.
  match type of Hd with context [drive cr chs ?p s] => destruct (drive cr chs p s) as [[h' q] s''] eqn:Ed end.
  injection Hd as _ -> _. by eapply still_rejected.
Qed.

(** *** Secrets *)

(** A call that shows the secret stored for a row, and one that takes it away. *)
Definition evidence (id : Z) (e : event ans) (sec : string) : Prop :=
  match e with
  | existT (GetNodeSecretEnc i) (Some enc) => i = id /\ readable cr cs enc = Some sec
  | existT (SetNodeSecretEncIfUnchanged i _ ct) (Some true) => i = id /\ readable cr cs ct = Some sec
  | _ => False
  end.
Definition revokes (id : Z) (e : event ans) : Prop :=
  match projT1 e with
  | ResetNodeLogin i => i = id
  | SetNodeSecretEnc i _ => i = id
  | _ => False
  end.
Definition unrevoked (id : Z) (l : list (nat * event ans)) : Prop := Forall (fun p => ~ revokes id p.2) l.

Definition bounded (s : db) : Prop := forall id, is_Some (db_nodes s !! id) -> id < db_next s.
Definition shows (s : db) (id : Z) (sec : string) : Prop :=
  id < db_next s /\ forall r, db_nodes s !! id = Some r -> readable cr cs (nr_secret r) = Some sec.

Lemma perform_bounded c ch s : bounded s -> bounded (perform cr c ch s).2.
Proof.
  intros H id Hid. destruct (perform_next cr c ch s) as [Hle Hn]. destruct (Hn id Hid) as [Ho|[-> Hlt]]; [|done].
  specialize (H id Ho). lia.
Qed.

Lemma perform_shows h c ch s id sec :
  guard cr cs h c -> ~ revokes id (Called c (perform cr c ch s).1) -> shows s id sec -> shows (perform cr c ch s).2 id sec.
Proof.
  intros Hg Hnr [Hlt Hs]. destruct (perform_next cr c ch s) as [Hle _]. split; [lia|]. intros r' Hr'.
  destruct (perform_row cr c ch s id r' Hr') as [(r & Hr & Hst)|(-> & _)]; [|lia]. specialize (Hs r Hr).
  destruct Hst as [(E & _)|Hst]; [by rewrite E|]. destruct c; try done.
  - destruct Hst as [-> _]. by destruct Hnr.
  - destruct Hst as (-> & E & _). destruct Hg as [Hp _]. by rewrite E, Hp in Hs.
  - by destruct Hst as (_ & _ & _ & ->).
  - by destruct Hst as [_ ->].
  - destruct Hst as [-> _]. by destruct Hnr.
Qed.

Lemma evidence_shows h c ch s id sec :
  guard cr cs h c -> bounded s -> evidence id (Called c (perform cr c ch s).1) sec ->
  shows (perform cr c ch s).2 id sec /\ (forall sec', shows s id sec' -> sec = sec').
Proof.
  intros Hg Hb He. destruct c; try done.
  - cbn in He |- *. destruct (replied (ch_out ch)); [|done].
    destruct (db_nodes s !! id0) as [r|] eqn:Er; [|done]. cbn in He. destruct He as [-> Hr]. split.
    + split; [apply Hb; by eexists|]. intros r' E. rewrite Er in E. by injection E as <-.
    + intros sec' [_ Hs]. specialize (Hs r Er). congruence.
  - cbn in He |- *. revert He. unfold on_row. destruct (db_nodes s !! id0) as [r|] eqn:Er; cbn; [|by unfold reply; destruct (replied (ch_out ch))].
    destruct (String.eqb_spec (nr_secret r) prev) as [Ep|_]; cbn; [|by unfold reply; destruct (replied (ch_out ch))].
    unfold reply. destruct (ch_out ch); cbn; try done. intros [-> Hr]. destruct Hg as [Hp _]. split.
    + split; [apply Hb; by eexists|]. cbn. intros r'. rewrite lookup_insert_eq. by intros [= <-].
    + intros sec' [_ Hs]. specialize (Hs r Er). rewrite Ep in Hs. congruence.
Qed.

Definition secrets_inv (w : world) : Prop :=
  bounded (w_db w) /\
  (forall id l j e l3 sec, w_log w = l ++ (j, e) :: l3 -> evidence id e sec -> unrevoked id l -> shows (w_db w) id sec) /\
  (forall id l1 i e1 l2 j e2 l3 s1 s2, w_log w = l1 ++ (i, e1) :: l2 ++ (j, e2) :: l3 ->
    evidence id e1 s1 -> evidence id e2 s2 -> unrevoked id l2 -> s1 = s2).

Lemma secrets_call w w' i th c k ch :
  secrets_inv w -> guard cr cs (th_hist th) c -> w_db w' = (perform cr c ch (w_db w)).2 ->
  w_log w' = (i, Called c (perform cr c ch (w_db w)).1) :: w_log w -> th_prog th = Do c k -> secrets_inv w'.
Proof.
  intros (Hb & Hs & Hp) Hg Ed El _. unfold secrets_inv. rewrite Ed, El. split; [by apply perform_bounded|]. split.
  - intros id l j e l3 sec E He Hun. destruct l as [|x l]; injection E as <- E.
    + subst e. by eapply evidence_shows.
    + apply Forall_cons in Hun as [Hx Hun]. eapply perform_shows; [done|done|]. by eapply Hs.
  - intros id l1 i1 e1 l2 j e2 l3 s1 s2 E He1 He2 Hun. destruct l1 as [|x l1]; [injection E as <- Ee E|injection E as <- E].
    + subst e1. eapply evidence_shows; [done|done|exact He1|]. by eapply Hs.
    + by eapply Hp.
Qed.

Lemma reachable_secrets s w : bounded s -> reachable cr cs s w -> secrets_inv w.
Proof.
  intros Hb. apply (reachable_rule secrets_inv).
  - split; [done|]. split; [by intros id []|by intros id []].
  - intros w1 w2 _ (H1 & H2 & H3) Ed El. unfold secrets_inv. by rewrite Ed, El.
  - intros w1 w2 i th c k ch _ HI _ Hp Hg Ed El. by eapply secrets_call.
  - intros w1 w2 c ch _ (H1 & H2 & H3) He Ed El. unfold secrets_inv. rewrite Ed, El. split; [by apply perform_bounded|].
    split; [|done]. intros id l j e l3 sec E Hev Hun. eapply (perform_shows []); [by apply env_guarded| |by eapply H2].
    destruct c; try discriminate; by intros [].
Qed.

(** *** Enroll tokens and rows *)

(** The token a call spent, and whether a call made a row. *)
Definition spent (e : event ans) : option string :=
  match e with
  | existT (ConsumeNodeEnrollToken p) (Some (Some _)) => Some (hashed cr p)
  | _ => None
  end.
Definition makes_row (e : event ans) : bool := match projT1 e with CreateNode _ _ => true | _ => false end.

Definition used (s : db) (hash : string) : Prop := exists e, db_enroll s !! hash = Some e /\ er_used e = true.

Lemma used_insert s h e hash : er_used e = true \/ db_enroll s !! h = None -> used s hash -> used (with_enroll <[h := e]> s) hash.
Proof.
    intros He (e' & H & Hu). unfold used. cbn. destruct (decide (h = hash)) as [->|Hne].
    - rewrite lookup_insert_eq. exists e. split; [done|]. destruct He as [He|He]; [done|congruence].
    - rewrite lookup_insert_ne by done. eauto.
Qed.

Lemma used_alter s h f hash : (forall e, er_used (f e) = er_used e) -> used s hash -> used (with_enroll (alter f h) s) hash.
Proof.
    intros Hf (e & H & Hu). unfold used. cbn. destruct (decide (h = hash)) as [->|Hne].
    - rewrite lookup_alter_eq, H. exists (f e). by rewrite Hf.
    - rewrite lookup_alter_ne by done. eauto.
Qed.

Lemma perform_used c ch s hash : used s hash -> used (perform cr c ch s).2 hash.
Proof.
    intros Hused. pose proof Hused as (e & He & Hu).
  destruct c; cbn [perform snd]; unfold update_row, on_row, reset_login, consume_approval, approve_shown, record_attempt, arm_row;
    try by (repeat case_match; simplify_eq; exists e).
    - unfold consume_enroll. repeat case_match; try done. by apply used_insert; [left|].
    - destruct (db_enroll s !! hash0) eqn:E; [done|]. by apply used_insert; [right|].
    - by apply used_alter.
    - by apply used_alter.
Qed.

Lemma spent_used c ch s hash :
  spent (Called c (perform cr c ch s).1) = Some hash -> ~ used s hash /\ used (perform cr c ch s).2 hash.
Proof.
  destruct c; try done. cbn. unfold consume_enroll, used.
  destruct (db_enroll s !! hashed cr plaintext) as [e|] eqn:E; cbn; [|by unfold reply; destruct (replied (ch_out ch))].
  destruct (er_used e) eqn:Eu; cbn; [by unfold reply; destruct (replied (ch_out ch))|].
  destruct (negb (er_expired e)); cbn; [|by unfold reply; destruct (replied (ch_out ch))].
  destruct (negb (er_platform e) || er_live e); cbn; [|by unfold reply; destruct (replied (ch_out ch))].
  unfold reply. destruct (ch_out ch); cbn; try done. intros [= <-]. split.
  - intros (e' & H & Hu). rewrite E in H. injection H as <-. congruence.
  - eexists. split; [cbn; apply lookup_insert_eq|done].
Qed.

Definition tokens_inv (w : world) : Prop :=
  (forall i e hash, (i, e) ∈ w_log w -> spent e = Some hash -> used (w_db w) hash) /\
  (forall l1 i e1 l2 j e2 l3 h1 h2, w_log w = l1 ++ (i, e1) :: l2 ++ (j, e2) :: l3 ->
    spent e1 = Some h1 -> spent e2 = Some h2 -> h1 <> h2).

Lemma reachable_tokens s w : reachable cr cs s w -> tokens_inv w.
Proof.
  apply (reachable_rule tokens_inv).
  - split; [by intros i e hash H%elem_of_nil|by intros []].
  - intros w1 w2 _ [H1 H2] Ed El. unfold tokens_inv. by rewrite Ed, El.
  - intros w1 w2 i th c k ch _ [H1 H2] _ _ _ Ed El. unfold tokens_inv. rewrite Ed, El. split.
    + intros j e hash Hin Hs. apply elem_of_cons in Hin as [[= -> ->]|Hin]; [by apply spent_used|].
      apply perform_used. by eapply H1.
    + intros l1 i1 e1 l2 j e2 l3 h1 h2 E Hs1 Hs2. destruct l1 as [|x l1]; [injection E as <- Ee E|injection E as Ee E; by eapply H2].
      subst e1. destruct (spent_used _ _ _ _ Hs1) as [Hn _]. intros <-. apply Hn. eapply (H1 j e2); [|done].
      rewrite E. ev_in.
  - intros w1 w2 c ch _ [H1 H2] _ Ed El. unfold tokens_inv. rewrite Ed, El. split; [|done].
    intros i e hash Hin Hs. apply perform_used. by eapply H1.
Qed.

(** The calls of one thread. *)
Definition calls_of (i : nat) (l : list (nat * event ans)) : history := snd <$> filter (fun p => p.1 = i) l.

(** A thread's history is its part of the log, each of its calls one it might
    make then; a thread that never started has no part. *)
Definition logged (w : world) : Prop :=
  (forall i th, w_threads w !! i = Some th -> th_hist th = calls_of i (w_log w)) /\
  (forall i, w_threads w !! i = None -> calls_of i (w_log w) = []) /\
  (forall l1 i e l2, w_log w = l1 ++ (i, e) :: l2 -> guard cr cs (calls_of i l2) (projT1 e)).

Lemma calls_of_here i e l : calls_of i ((i, e) :: l) = e :: calls_of i l.
Proof. unfold calls_of. by rewrite filter_cons_True. Qed.
Lemma calls_of_other i j e l : j <> i -> calls_of i ((j, e) :: l) = calls_of i l.
Proof. intros H. unfold calls_of. by rewrite filter_cons_False. Qed.
Lemma calls_of_in i e l : e ∈ calls_of i l <-> (i, e) ∈ l.
Proof.
  unfold calls_of. rewrite list_elem_of_fmap. split.
  - intros ([j x] & -> & H%list_elem_of_filter). cbn in H. by destruct H as [-> H].
  - intros H. exists (i, e). split; [done|]. by apply list_elem_of_filter.
Qed.

Lemma logged_step w w' : threads_guarded w -> logged w -> wstep cr cs w w' -> logged w'.
Proof.
  intros Hg (H1 & H2 & H3) [l H]. destruct l as [i r|i ch|c ch]; cbn [wexec] in H.
  - destruct (w_threads w !! i) eqn:E; [done|]. injection H as <-. split; [|split; [|done]]; intros j; cbn [w_threads w_log].
    + intros th. destruct (decide (i = j)) as [<-|Hne]; [|rewrite lookup_insert_ne by done; auto].
      rewrite lookup_insert_eq. intros [= <-]. by rewrite (H2 i E).
    + intros Hj. apply lookup_insert_None in Hj as [Hj _]. auto.
  - destruct (w_threads w !! i) as [[[a|c k] h]|] eqn:E; [done| |done].
    destruct (perform cr c ch (w_db w)) as [a s] eqn:Ep. injection H as <-. pose proof (H1 _ _ E) as Eh. cbn in Eh.
    split; [|split]; cbn [w_threads w_log].
    + intros j th. destruct (decide (i = j)) as [<-|Hne].
      * rewrite lookup_insert_eq, calls_of_here. intros [= <-]. by rewrite <- Eh.
      * rewrite lookup_insert_ne, calls_of_other by done. auto.
    + intros j Hj. apply lookup_insert_None in Hj as [Hj Hne]. rewrite calls_of_other by done. auto.
    + intros [|x l1] j e l2 El; [|injection El as _ El; by eapply H3]. injection El as <- <- <-.
      rewrite <- Eh. by destruct (Hg _ _ E).
  - destruct (env_op c) eqn:E; [|done]. by injection H as <-.
Qed.

Lemma reachable_logged s w : reachable cr cs s w -> logged w.
Proof.
  intros H. apply (steps_invariant (wstep cr cs) (fun w => threads_guarded w /\ logged w)) in H; [apply H| |].
  - intros a b Hab [Hg Hl]. split; [by apply (wstep_cases a b Hg Hab)|by eapply logged_step].
  - split; [by intros i th E|]. split; [by intros i th E|]. split; [done|by intros []].
Qed.

(** *** Admissions *)

(** A call that may have armed an admission, and one that let a stream in. *)
Definition arms (t : string) (e : event ans) : bool :=
  match e with
  | existT (ApproveNodeJoinAttempt t' _ _) a | existT (ApproveNodeJoinAttemptForKey t' _) a
  | existT (ArmNodeJoinApproval t' _) a =>
      (t' =? t)%string && match a with Some false => false | _ => true end
  | _ => false
  end.
Definition admits (t : string) (e : event ans) : bool :=
  match e with
  | existT (ConsumeNodeJoinApproval t' _ _) (Some true) => (t' =? t)%string
  | _ => false
  end.
Definition count (f : event ans -> bool) (l : list (nat * event ans)) : nat := length (List.filter (fun p => f p.2) l).
Definition armed (s : db) (t : string) : nat :=
  match db_joins s !! t with Some j => if jr_armed j then 1 else 0 | None => 0 end.


Definition one (b : bool) : nat := if b then 1 else 0.

Lemma armed_insert s t t' j :
  armed (with_joins <[t' := j]> s) t = if decide (t' = t) then one (jr_armed j) else armed s t.
Proof.
  unfold armed. cbn. destruct (decide (t' = t)) as [->|Hne]; [by rewrite lookup_insert_eq|by rewrite lookup_insert_ne].
Qed.

(** The calls that write the refused joins. *)
Definition writes_joins (c : op) : bool :=
  match c with
  | ResetNodeLogin _ | RecordNodeJoinAttempt _ | ConsumeNodeJoinApproval _ _ _ | ApproveNodeJoinAttempt _ _ _
  | ApproveNodeJoinAttemptForKey _ _ | ArmNodeJoinApproval _ _ | DeleteNodeJoinAttempt _ | ExpireApproval _ => true
  | _ => false
  end.

Lemma perform_joins c ch s : writes_joins c = false -> db_joins (perform cr c ch s).2 = db_joins s.
Proof.
  destruct c; try done; intros _; cbn [perform snd]; unfold update_row, on_row, consume_enroll;
    repeat case_match; simplify_eq; done.
Qed.

Lemma no_writes_no_arms c a t : writes_joins c = false -> admits t (Called c a) = false /\ arms t (Called c a) = false.
Proof. by destruct c. Qed.

Lemma armed_alter s t t' f :
  (forall j, jr_armed (f j) = false) -> (armed (with_joins (alter f t') s) t <= armed s t)%nat.
Proof.
  intros Hf. unfold armed. cbn. destruct (decide (t' = t)) as [->|Hne]; [|by rewrite lookup_alter_ne].
  rewrite lookup_alter_eq. destruct (db_joins s !! t) as [j|]; cbn; [rewrite Hf|]; lia.
Qed.

Lemma arm_row_armed o t' j s t :
  (armed (arm_row o t' j s).2 t <= armed s t + one ((t' =? t)%string && match (arm_row o t' j s).1 with Some false => false | _ => true end))%nat.
Proof.
  unfold arm_row. cbn [fst snd]. destruct (applied o); [|lia]. rewrite armed_insert.
  destruct (decide (t' = t)) as [->|Hne]; [|lia]. rewrite String.eqb_refl. unfold reply.
  destruct (replied o), (jr_armed j); cbn; lia.
Qed.

(** Only an arming call arms, and a spent admission is gone. *)
Lemma perform_armed c ch s t :
  (one (admits t (Called c (perform cr c ch s).1)) + armed (perform cr c ch s).2 t <=
   armed s t + one (arms t (Called c (perform cr c ch s).1)))%nat.
Proof.
  destruct (writes_joins c) eqn:Ew.
  2: { destruct (no_writes_no_arms c (perform cr c ch s).1 t Ew) as [-> ->].
       unfold armed. rewrite perform_joins by done. cbn. lia. }
  destruct c; try done; clear Ew.
  - cbn. unfold reset_login. destruct (db_nodes s !! id) as [r|]; cbn; [|lia]. destruct (applied _); [|cbn; lia].
    pose proof (armed_alter (with_nodes <[id := set_secret "" (reject_key r)]> s) t (nr_token r) disarm (fun _ => eq_refl)) as H.
    unfold armed in *. cbn in *. lia.
  - cbn. destruct (applied _); [|cbn; lia]. rewrite armed_insert. destruct (decide _) as [<-|]; [|cbn; lia].
    unfold armed. destruct (db_joins s !! ja_NodeToken a) as [j|]; cbn; [destruct (jr_armed j)|]; cbn; lia.
  - cbn. unfold consume_approval. destruct (db_joins s !! token) as [j|] eqn:E; [|unfold reply; destruct (replied _); cbn; lia].
    destruct (jr_armed j) eqn:Ea; cbn; [|unfold reply; destruct (replied _); cbn; lia].
    destruct (approval_matches j peerIP keyFingerprint); cbn; [|unfold reply; destruct (replied _); cbn; lia].
    unfold reply. destruct (ch_out ch); cbn [applied replied fst snd]; rewrite ?armed_insert; cbn [jr_armed one].
    + destruct (String.eqb_spec token t) as [->|Hne]; cbn; destruct (decide _); try done; unfold armed; rewrite ?E, ?Ea; cbn; lia.
    + destruct (decide _); cbn; lia.
    + lia.
  - cbn [perform]. unfold approve_shown. destruct (db_joins s !! token) as [j|]; [|cbn; lia].
    destruct (_ && _); [|cbn; lia]. apply arm_row_armed.
  - cbn [perform]. destruct (Nat.ltb _ _); [cbn; lia|]. apply arm_row_armed.
  - cbn [perform]. destruct (_ =? "")%string; [cbn; lia|]. apply arm_row_armed.
  - cbn. destruct (applied _); [|lia]. unfold armed. cbn. destruct (decide (token = t)) as [->|Hne].
    + rewrite lookup_delete_eq. lia.
    + rewrite lookup_delete_ne by done. lia.
  - cbn [perform fst snd admits arms Ev one]. rewrite Nat.add_0_r. by apply armed_alter.
Qed.

Lemma count_cons f i e l : count f ((i, e) :: l) = (one (f e) + count f l)%nat.
Proof. unfold count. cbn. by destruct (f e). Qed.

Lemma reachable_armed s w t :
  reachable cr cs s w -> (count (admits t) (w_log w) + armed (w_db w) t <= armed s t + count (arms t) (w_log w))%nat.
Proof.
  apply (reachable_rule (fun w => count (admits t) (w_log w) + armed (w_db w) t <= armed s t + count (arms t) (w_log w))%nat).
  - cbn. lia.
  - by intros w1 w2 _ H -> ->.
  - intros w1 w2 i th c k ch _ H _ _ _ -> ->. rewrite !count_cons. pose proof (perform_armed c ch (w_db w1) t). lia.
  - intros w1 w2 c ch _ H He -> ->. pose proof (perform_armed c ch (w_db w1) t) as Hp.
    assert (arms t (Called c (perform cr c ch (w_db w1)).1) = false) as E by (by destruct c). rewrite E in Hp. cbn in Hp. lia.
Qed.

(** *** Rows *)

Definition paid (w : world) (i : nat) (hash : string) : Prop := exists e, (i, e) ∈ w_log w /\ spent e = Some hash.
Definition cluster_proved (w : world) (i : nat) : Prop :=
  exists auth, (i, Called Recv (Some (MAuth auth))) ∈ w_log w /\ na_EnrollToken auth = "" /\
    VerifyClusterProof cr cs (na_NodeToken auth) (na_ClusterProof auth) = true.

Lemma row_paid s w l1 i e l2 :
  reachable cr cs s w -> w_log w = l1 ++ (i, e) :: l2 -> makes_row e = true ->
  (forall e', e' ∈ calls_of i l2 -> makes_row e' = false) /\ ((exists hash, paid w i hash) \/ cluster_proved w i).
Proof.
  intros Hr El He. destruct (reachable_logged s w Hr) as (_ & _ & Hl). specialize (Hl _ _ _ _ El).
  assert (Hin : forall x, x ∈ calls_of i l2 -> (i, x) ∈ w_log w).
  { intros x Hx%calls_of_in. rewrite El. apply elem_of_app. right. by apply list_elem_of_further. }
  destruct e as [c a]. destruct c; try done. destruct Hl as [Hf (auth & Ha & Hm)]. split.
  - intros [c' a'] Hin'. unfold fresh in Hf. rewrite Forall_forall in Hf. specialize (Hf _ Hin').
    destruct c'; try done. by destruct (Hf token0 address0 a').
  - destruct Hm as [(pf & owner & _ & _ & Ho)|[E Hv]]; [left|right; exists auth; auto].
    exists (hashed cr (na_EnrollToken auth)). eexists. split; [apply Hin, Ho|done].
Qed.

(** Spent tokens differ, whichever threads spent them. *)
Lemma paid_apart s w i j h1 h2 : reachable cr cs s w -> i <> j -> paid w i h1 -> paid w j h2 -> h1 <> h2.
Proof.
  intros Hr Hne (e1 & H1 & E1) (e2 & H2 & E2). destruct (reachable_tokens s w Hr) as [_ Ht].
  destruct (list_elem_of_split _ _ H1) as (a & b & E). rewrite E in H2. apply elem_of_app in H2 as [H2|H2].
  - destruct (list_elem_of_split _ _ H2) as (a1 & a2 & ->). rewrite <- app_assoc in E. cbn in E.
    apply not_eq_sym. by eapply Ht.
  - apply elem_of_cons in H2 as [[= -> _]|H2]; [done|]. destruct (list_elem_of_split _ _ H2) as (b1 & b2 & ->). by eapply Ht.
Qed.
End worlds.

(** ** The properties *)

(** Cryptography, rows and configurations for examples. *)
Fixpoint wrun (cr : crypto) (cs : string) (ls : list label) (w : world) : option world :=
  match ls with
  | [] => Some w
  | l :: ls => wexec cr cs l w ≫= wrun cr cs ls
  end.

Lemma wrun_steps cr cs ls w w' : wrun cr cs ls w = Some w' -> steps (wstep cr cs) w w'.
Proof.
  revert w. induction ls as [|l ls IH]; intros w; [intros [= <-]; apply steps_refl|]. cbn.
  destruct (wexec cr cs l w) as [w1|] eqn:E; [|done]. cbn. intros H.
  eapply steps_cons; [by exists l|by apply IH].
Qed.

(** C23: However many replicas log nodes in at once, a key an operator
    rejected (Reset pairing, Roll key, an approval) is not the login key of the row
    as long as it is the rejected one, and a stream that was let in by it is closed
    by its next check, from the state of the rows then. *)
Theorem rejected_key_stays_out cr cs s w id r :
  (forall k n p, cr_Open cr k n (cr_Seal cr k n p) = Some p) -> rows_ok s -> reachable cr cs s w ->
  db_nodes (w_db w) !! id = Some r ->
  (nr_key r = "" \/ nr_key r <> nr_rejected r) /\
  (forall sv ss chs b, nd_ID (ss_node ss) = id -> String.length (ss_key ss) = 32%nat ->
    nr_rejected r = EncodeToString (ss_key ss) -> Forall (fun ch => ch_out ch = Replied) chs ->
    (drive cr chs (recheck cr sv ss) (w_db w)).1.2 = Ret b -> b = false).
Proof.
  intros Hgcm Hs Hr Hrow. pose proof (reachable_rows cr cs Hgcm s w Hs Hr) as Hok. split; [by apply (Hok id r)|].
  intros sv ss chs b <- Hlen Hrej Hch Hd. destruct (drive cr chs (recheck cr sv ss) (w_db w)) as [[h q] s'] eqn:E.
  cbn in Hd. subst q. by eapply recheck_rejected.
Qed.

(** C22: A node's secret is replaced by an operator's act alone. Whatever the
    replicas, two moments at which Core saw the secret stored for a row, or
    stored one itself, show the same secret when no reset or clearing of that
    row was called between them; and the last such moment shows what the row holds
    as long as none was called after it. *)
Theorem one_secret_per_pairing cr cs s w id l1 i e1 l2 j e2 l3 s1 s2 :
  (forall k n p, cr_Open cr k n (cr_Seal cr k n p) = Some p) -> bounded s -> reachable cr cs s w ->
  w_log w = l1 ++ (i, e1) :: l2 ++ (j, e2) :: l3 -> evidence cr cs id e1 s1 -> evidence cr cs id e2 s2 ->
  unrevoked id l2 -> s1 = s2 /\
  (unrevoked id l1 -> forall r, db_nodes (w_db w) !! id = Some r -> readable cr cs (nr_secret r) = Some s1).
Proof.
  intros Hgcm Hb Hr El He1 He2 Hun. destruct (reachable_secrets cr cs Hgcm s w Hb Hr) as (_ & Hs & Hp).
  split; [by eapply Hp|]. intros Hun1. by eapply Hs.
Qed.

(** Every row of a node is paid for. Two rows that are ever made are made
    by different streams; each stream spent an enroll token before or presented a
    cluster proof that holds, and no two streams spent the same token. *)
Lemma rows_paid_for cr cs s w l1 i e1 l2 j e2 l3 :
  (forall k n p, cr_Open cr k n (cr_Seal cr k n p) = Some p) -> reachable cr cs s w ->
  w_log w = l1 ++ (i, e1) :: l2 ++ (j, e2) :: l3 -> makes_row e1 = true -> makes_row e2 = true ->
  i <> j /\
  ((exists hash, paid cr w i hash) \/ cluster_proved cr cs w i) /\
  ((exists hash, paid cr w j hash) \/ cluster_proved cr cs w j) /\
  (forall h1 h2, paid cr w i h1 -> paid cr w j h2 -> h1 <> h2).
Proof.
  intros Hgcm Hr El H1 H2. destruct (row_paid cr cs Hgcm s w l1 i e1 _ Hr El H1) as [Hf Hp1].
  assert (El2 : w_log w = (l1 ++ (i, e1) :: l2) ++ (j, e2) :: l3) by (rewrite El, <- app_assoc; done).
  destruct (row_paid cr cs Hgcm s w _ j e2 l3 Hr El2 H2) as [_ Hp2].
  assert (Hne : i <> j).
  { intros <-. specialize (Hf e2). rewrite H2 in Hf. enough (true = false) by done. apply Hf, calls_of_in. ev_in. }
  split; [done|]. split; [done|]. split; [done|]. intros h1 h2. by eapply paid_apart.
Qed.

(** An admission lets in one stream. However many replicas ask for it at
    once, the streams let in by an admission for a node are at most the times one
    was armed for it (Roll key, an approval, an owner's), plus the one that may
    have been armed before. *)
Lemma admissions_single_use cr cs s w token :
  (forall k n p, cr_Open cr k n (cr_Seal cr k n p) = Some p) -> reachable cr cs s w ->
  (count (admits token) (w_log w) <= armed s token + count (arms token) (w_log w))%nat.
Proof. intros Hgcm Hr. pose proof (reachable_armed cr cs Hgcm s w token Hr). lia. Qed.

(** ** Runs *)

Definition key32 : string := "0123456789abcdef0123456789abcdef".
Definition old_secret : string := "old secret, as long as 32 bytes.".
Definition new_secret : string := "new secret, as long as 32 bytes.".
Definition seal12 : string := "nonce-of-12b".
Definition sealed (sec : string) : string := default "" (Encrypt (cr_Seal toy) (Some seal12) (secret_key toy "cluster") sec).

(** A platform's own node as row 1, with its secret, key and last address; and
    an enroll token. *)
Definition row_of (sec key peer : string) : node_row := mkRow "n1" None NodeEnrolledViaClusterProof sec key "" peer.
Definition db_of (r : node_row) : db := mkDb {[1 := r]} ∅ {[hashed toy "enroll" := mkEnroll "" true false false false true]} None 2.
Definition start (r : node_row) : world := mkWorld (db_of r) ∅ [].
Definition says (m : msg) : choice := mkChoice Replied (Some m) None true [].
Definition calls (i : nat) (chs : list choice) : list label := LCall i <$> chs.

Lemma start_reaches r ls w : wrun toy "cluster" ls (start r) = Some w -> reachable toy "cluster" (db_of r) w.
Proof. apply wrun_steps. Qed.

Lemma db_of_row r id r' : db_nodes (db_of r) !! id = Some r' -> id = 1 /\ r' = r.
Proof. cbn [db_of db_nodes]. by intros [<- <-]%lookup_singleton_Some. Qed.

Definition is_ok {A} (o : option A) : bool := match o with Some _ => true | None => false end.

(** What a run leaves, computed. *)
Ltac run_to ls r w E :=
  let Hw := fresh in
  assert (Hw : is_ok (wrun toy "cluster" ls (start r)) = true) by (vm_compute; reflexivity);
  destruct (wrun toy "cluster" ls (start r)) as [w|] eqn:E; [clear Hw|discriminate Hw].

Lemma rejected_key_stays_out_witness :
  exists w r b, reachable toy "cluster" (db_of (row_of (sealed old_secret) (EncodeToString key32) "")) w /\
    db_nodes (w_db w) !! 1 = Some r /\ nr_rejected r = EncodeToString key32 /\
    (drive toy [yes; yes; yes; yes] (recheck toy toy_server (mkSession (mkNode 1 "n1" false false) key32 "" "")) (w_db w)).1.2 = Ret b /\
    b = false.
Proof.
  set (r0 := row_of (sealed old_secret) (EncodeToString key32) "").
  set (ls := LStart 0 (RReset false 1) :: calls 0 [yes; yes; yes]). run_to ls r0 w E. exists w.
  pose proof (start_reaches _ _ _ E) as Hr.
  assert (Ed : w_db <$> wrun toy "cluster" ls (start r0) = Some (mkDb {[1 := mkRow "n1" None NodeEnrolledViaClusterProof "" ""
    (EncodeToString key32) ""]} ∅ (db_enroll (db_of r0)) None 2)) by (vm_compute; reflexivity).
  rewrite E in Ed. injection Ed as Ed. rewrite Ed. eexists _, _. split; [exact Hr|]. split; [reflexivity|].
  split; [reflexivity|]. split; [vm_compute; reflexivity|].
  refine (proj2 (rejected_key_stays_out toy "cluster" _ w 1 _ (fun _ _ _ => eq_refl) _ Hr _) toy_server
    (mkSession (mkNode 1 "n1" false false) key32 "" "") [yes; yes; yes; yes] _ eq_refl eq_refl _ _ _).
  - intros id r [-> ->]%db_of_row. split; [right; by exists key32|right; discriminate].
  - rewrite Ed. reflexivity.
  - reflexivity.
  - repeat constructor.
  - rewrite Ed. vm_compute. reflexivity.
Defined.

(** Two replicas serve the same node at once. *)
Lemma one_secret_per_pairing_witness :
  exists w l3, reachable toy "cluster" (db_of (row_of "" "" "")) w /\
    w_log w = [] ++ (1%nat, Called (GetNodeSecretEnc 1) (Some (sealed new_secret))) ::
      [(1%nat, Called (GetNodeByToken "n1") (Some (Some (1, None))))] ++
      (0%nat, Called (SetNodeSecretEncIfUnchanged 1 "" (sealed new_secret)) (Some true)) :: l3 /\
    forall r, db_nodes (w_db w) !! 1 = Some r -> readable toy "cluster" (nr_secret r) = Some new_secret.
Proof.
  set (ls := LStart 0 (REnsure "n1") :: calls 0 [yes; yes; pick new_secret; pick seal12; yes] ++
    LStart 1 (REnsure "n1") :: calls 1 [yes; yes]).
  run_to ls (row_of "" "" "") w E. pose proof (start_reaches _ _ _ E) as Hr.
  assert (El : exists l3, w_log <$> wrun toy "cluster" ls (start (row_of "" "" "")) = Some ([] ++
    (1%nat, Called (GetNodeSecretEnc 1) (Some (sealed new_secret))) ::
    [(1%nat, Called (GetNodeByToken "n1") (Some (Some (1, None))))] ++
    (0%nat, Called (SetNodeSecretEncIfUnchanged 1 "" (sealed new_secret)) (Some true)) :: l3)) by (eexists; vm_compute; reflexivity).
  destruct El as [l3 El]. rewrite E in El. injection El as El. exists w, l3. split; [exact Hr|]. split; [exact El|].
  refine (proj2 (one_secret_per_pairing toy "cluster" _ w 1 [] _ _ [(_, _)] _ _ l3 _ new_secret (fun _ _ _ => eq_refl) _ Hr El
    _ _ _) _).
  - intros id [r [-> _]%db_of_row]. reflexivity.
  - split; reflexivity.
  - split; reflexivity.
  - repeat constructor; intros [].
  - constructor.
Defined.

(** A stream of this caller, and what it may answer. *)
Definition connects (i : nat) (a : NodeAuth) (chs : list choice) : list label :=
  LStart i (RConnect toy_server (Some "10.0.0.7:4711") 1) :: calls i (says (MAuth a) :: chs).
Definition enroll_auth : NodeAuth := mkAuth "host" "enroll" "" "" "" "1.0.0" None None.
Definition bare_auth : NodeAuth := mkAuth "n1" "" "" "" "" "1.0.0" None None.
Definition key_auth : NodeAuth := mkAuth "n1" "" "" "" key32 "1.0.0" None None.
Definition answer : choice :=
  says (MChallengeResponse (ChallengeResponse (cr_derive toy) old_secret (EncodeToString key32)) "signed").

(** One row for an enroll token, one for a cluster proof. *)
Lemma rows_paid_for_witness :
  exists w, reachable toy "cluster" (db_of (row_of "" "" "")) w /\ count makes_row (w_log w) = 2%nat /\
    ((exists hash, paid toy w 1 hash) \/ cluster_proved toy "cluster" w 1) /\
    ((exists hash, paid toy w 0 hash) \/ cluster_proved toy "cluster" w 0).
Proof.
  set (ls := connects 0 enroll_auth [yes; yes; yes; pick "name"; pick "id-1"; yes] ++ connects 1 toy_auth [yes; pick "id-2"; yes]).
  run_to ls (row_of "" "" "") w E. pose proof (start_reaches _ _ _ E) as Hr.
  assert (El : exists x y z l3, w_log <$> wrun toy "cluster" ls (start (row_of "" "" "")) = Some ([] ++
    (1%nat, Called (CreateNode "id-2" "") (Some 3)) :: [x; y; z] ++ (0%nat, Called (CreateNode "id-1" "") (Some 2)) :: l3))
    by (eexists _, _, _, _; vm_compute; reflexivity).
  assert (Ec : option_map (fun w => count makes_row (w_log w)) (wrun toy "cluster" ls (start (row_of "" "" ""))) = Some 2%nat)
    by (vm_compute; reflexivity).
  destruct El as (x & y & z & l3 & El). rewrite E in El, Ec. injection El as El. injection Ec as Ec. exists w.
  destruct (rows_paid_for toy "cluster" _ w [] _ _ [x; y; z] _ _ l3 (fun _ _ _ => eq_refl) Hr El eq_refl eq_refl) as (_ & H1 & H2 & _).
  split; [exact Hr|]. split; [exact Ec|]. split; [exact H1|exact H2].
Defined.

(** A roll of the node's login, and the stream that is let in for it. *)
Lemma admissions_single_use_witness :
  exists w, reachable toy "cluster" (db_of (row_of (sealed old_secret) "" "10.0.0.7")) w /\
    count (admits "n1") (w_log w) = 1%nat /\
    (count (admits "n1") (w_log w) <= armed (db_of (row_of (sealed old_secret) "" "10.0.0.7")) "n1" + count (arms "n1") (w_log w))%nat.
Proof.
  set (r0 := row_of (sealed old_secret) "" "10.0.0.7").
  set (ls := LStart 0 (RRoll false 1) :: calls 0 [yes; yes; yes; yes; yes; yes] ++ connects 1 bare_auth [yes; yes; yes; yes; yes]).
  run_to ls r0 w E. pose proof (start_reaches _ _ _ E) as Hr.
  assert (Ec : option_map (fun w => count (admits "n1") (w_log w)) (wrun toy "cluster" ls (start r0)) = Some 1%nat)
    by (vm_compute; reflexivity).
  rewrite E in Ec. injection Ec as Ec. exists w. split; [exact Hr|]. split; [exact Ec|].
  exact (admissions_single_use toy "cluster" _ w "n1" (fun _ _ _ => eq_refl) Hr).
Defined.

(** A reset does not survive a login in flight. A row that never held a
    key is reset after a caller's answer under the old secret was verified and
    before that caller's key is stored: the key is stored on the reset row, whose
    keys read as before. The stream itself is refused, but the caller's next
    stream logs in by the key and is handed the secret minted after the reset,
    with no admission and no cluster proof. *)
Lemma reset_undone_by_login_in_flight :
  exists w ar, reachable toy "cluster" (db_of (row_of (sealed old_secret) "" "")) w /\
    w_log w !! 0%nat = Some (2%nat, Called (SendAuth ar) true) /\
    ar_Ok ar = true /\ ar_NodeSecret ar = EncodeToString new_secret /\
    w_log w !! 18%nat = Some (1%nat, Called (ResetNodeLogin 1) true) /\
    (forall t, count (arms t) (w_log w) = 0%nat) /\
    Forall (fun p => match p.2 with existT Recv (Some (MAuth a)) => a = key_auth | _ => True end) (w_log w).
Proof.
  set (r0 := row_of (sealed old_secret) "" "").
  set (ls := connects 0 key_auth [yes; yes; yes; yes; pick key32; yes; answer; yes] ++
    (LStart 1 (RReset false 1) :: calls 1 [yes; yes; yes]) ++ calls 0 [yes] ++
    connects 2 key_auth [yes; yes; yes; yes; pick key32; yes; answer; yes; pick new_secret; pick seal12; yes; yes; yes; yes; yes]).
  run_to ls r0 w E. exists w. eexists. split; [by apply start_reaches in E|].
  assert (El : w_log <$> wrun toy "cluster" ls (start r0) = Some (w_log w)) by by rewrite E.
  revert El. generalize (w_log w). vm_compute. intros l [= <-]. repeat split; try reflexivity.
  repeat constructor.
Qed.
