(* ===== verification/Release.v ===== *)
(** * Release versions (src/pkg/release/release.go, Version)

    A CalVer version is parsed by hand from the pattern
    [^\d{4}\.\d{2}\.\d{2}(\.\d+)?$]; its order decides which node may take part
    in a move and which one is asked to update. [nodeAtLeast] is Core's question
    to a node's heartbeat (src/core/services/node_storage_access.go). *)

From Stdlib Require Import Ascii String.
From S2P Require Import Prelude GoStrings.
Open Scope string_scope.
Open Scope list_scope.
Open Scope Z_scope.

Notation length := List.length.

(** The zero Version has no raw text. *)
Record Version := mkVersion { v_parts : Z * Z * Z * Z; v_raw : string }.

Definition zeroVersion : Version := mkVersion (0, 0, 0, 0) "".

(** [\d{n}]: exactly [n] digits. *)
Definition digits_n (n : nat) (s : string) : bool := Nat.eqb (String.length s) n && all_chars is_digit s.

(** The groups of [versionRe], the last one empty without a counter. *)
Definition versionRe (s : string) : option (string * string * string * string) :=
  match Split "." s with
  | [y; m; d] => if digits_n 4 y && digits_n 2 m && digits_n 2 d then Some (y, m, d, "") else None
  | [y; m; d; n] =>
      if digits_n 4 y && digits_n 2 m && digits_n 2 d && negb (n =? "")%string && all_chars is_digit n
      then Some (y, m, d, n) else None
  | _ => None
  end.

(** [v, _ := strconv.Atoi(s)]: on an error of range Go's value is not used. *)
Definition AtoiOr0 (s : string) : Z := match Atoi s with Some n => n | None => 0 end.

Definition ParseVersion (s0 : string) : option Version :=
  let s := TrimSpace s0 in
  match versionRe s with
  | None => None
  | Some (y, m, d, n) =>
      let counter :=
        if (n =? "")%string then Some 0
        else match Atoi n with Some c => if c <? 1 then None else Some c | None => None end in
      match counter with
      | None => None
      | Some c =>
          let '(yy, mm, dd) := (AtoiOr0 y, AtoiOr0 m, AtoiOr0 d) in
          if (mm <? 1) || (12 <? mm) || (dd <? 1) || (31 <? dd) then None else Some (mkVersion (yy, mm, dd, c) s)
      end
  end.

Definition IsZero (v : Version) : bool := (v_raw v =? "")%string.

Definition parts_list (v : Version) : list Z := let '(a, b, c, d) := v_parts v in [a; b; c; d].

Fixpoint compare_parts (l k : list Z) : Z :=
  match l, k with
  | a :: l, b :: k => if a <? b then -1 else if b <? a then 1 else compare_parts l k
  | _, _ => 0
  end.

Definition Compare (v o : Version) : Z := compare_parts (parts_list v) (parts_list o).

(** What Core reads of a node's heartbeat. *)
Record heartbeat := mkHeartbeat { hb_ReleaseVersion : string; hb_PortRange : string }.

(** [nodeAtLeast], the heartbeat having been loaded. *)
Definition nodeAtLeast (hb : option heartbeat) (since : string) : bool :=
  match hb with
  | None => false
  | Some hb =>
      if (hb_ReleaseVersion hb =? "")%string then true
      else match ParseVersion (hb_ReleaseVersion hb), ParseVersion since with
           | Some have, Some want => 0 <=? Compare have want
           | _, _ => false
           end
  end.

(** ** The order *)

Lemma compare_parts_refl l : compare_parts l l = 0.
Proof. induction l as [|a l IH]; [done|]. cbn. by rewrite Z.ltb_irrefl. Qed.

Lemma compare_parts_antisym l k : length l = length k -> compare_parts k l = - compare_parts l k.
Proof.
  revert k. induction l as [|a l IH]; intros [|b k] E; try done. cbn in *. injection E as E.
  destruct (a <? b) eqn:E1, (b <? a) eqn:E2; to_prop; try lia. by apply IH.
Qed.

Lemma compare_parts_zero l k : length l = length k -> compare_parts l k = 0 -> l = k.
Proof.
  revert k. induction l as [|a l IH]; intros [|b k] E H; try done. cbn in *. injection E as E.
  destruct (a <? b) eqn:E1; [done|]. destruct (b <? a) eqn:E2; [done|]. to_prop. rewrite (IH k E H). f_equal. lia.
Qed.

Lemma compare_parts_trans l k m :
  length l = length k -> length k = length m -> 0 <= compare_parts l k -> 0 <= compare_parts k m -> 0 <= compare_parts l m.
Proof.
  revert k m. induction l as [|a l IH]; intros [|b k] [|c m] E1 E2; try done. cbn in *. injection E1 as E1. injection E2 as E2.
  destruct (a <? b) eqn:H1, (b <? c) eqn:H2, (a <? c) eqn:H3, (b <? a) eqn:H4, (c <? b) eqn:H5, (c <? a) eqn:H6;
    to_prop; try lia. by apply IH.
Qed.

Lemma parts_length v : length (parts_list v) = 4%nat.
Proof. unfold parts_list. by destruct (v_parts v) as [[[? ?] ?] ?]. Qed.

Lemma Compare_zero v o : Compare v o = 0 -> v_parts v = v_parts o.
Proof.
  unfold Compare. intros H. apply compare_parts_zero in H; [|by rewrite !parts_length].
  unfold parts_list in H. destruct (v_parts v) as [[[? ?] ?] ?], (v_parts o) as [[[? ?] ?] ?]. by simplify_eq.
Qed.

(** A node that is new enough for one release is new enough for every older one. *)
Lemma nodeAtLeast_mono hb since older :
  (forall w o, ParseVersion since = Some w -> ParseVersion older = Some o -> 0 <= Compare w o) ->
  is_Some (ParseVersion older) -> nodeAtLeast hb since = true -> nodeAtLeast hb older = true.
Proof.
  intros Hle [o Ho]. unfold nodeAtLeast. destruct hb as [hb|]; [|done]. destruct (_ =? "")%string; [done|].
  destruct (ParseVersion (hb_ReleaseVersion hb)) as [have|]; [|done]. rewrite Ho.
  destruct (ParseVersion since) as [want|] eqn:Ew; [|done]. intros H. to_prop. apply Z.leb_le.
  eapply compare_parts_trans; [| |exact H|by apply Hle]; by rewrite !parts_length.
Qed.
