(* ===== verification/Migration.v ===== *)
(** * Moving a server between nodes: Core's side (src/core/services/migration_orchestrator.go)

    [Migrate] is the step machine of one move: load and check, take the lock,
    stop the server, have the source stage an archive, have the target fetch
    it, point the server at the target, configure it there, clean up the
    source; every failure before the cutover ends in [rollbackPreCutover]. It
    is a program (Programs.v) over the calls [cop] to the database, to Redis,
    to the object storage and to the command streams of the nodes. A deferred
    call is made where the function returns. Times are nanoseconds. *)

From Stdlib Require Import Ascii String.
From S2P Require Import Prelude GoStrings GoNet Programs Release.
Open Scope string_scope.
Open Scope list_scope.
Open Scope Z_scope.

Notation length := List.length.

(** An error of the callee is its text. *)
Definition result (A : Type) : Type := A + string.

(** ** Data *)

Record MigrationRequest := mkReq {
  rq_ServerID : Z; rq_TargetNodeID : Z; rq_SourceNodeID : Z;
  rq_PreStatus : string; rq_Reason : string; rq_RequestedBy : string }.

(** The fields of models.Server a move reads. CPULimit is the float's bits. *)
Record server := mkServer {
  sv_ID : Z; sv_UUID : string; sv_NodeID : Z; sv_Status : string; sv_ServerType : string; sv_ProxyID : option Z;
  sv_HostPort : Z; sv_ContainerPort : Z; sv_DiskLimit : Z; sv_OwnerID : string; sv_ActiveSubServer : string;
  sv_GameImage : string; sv_Memory : Z; sv_RAMPaddingMB : option Z; sv_CPULimit : Z;
  sv_CPUPinningMode : string; sv_Cpuset : string; sv_Timezone : string; sv_ExtraJvmFlags : string }.

Record node := mkNode {
  nd_ID : Z; nd_Token : string; nd_Status : string; nd_OwnerID : option string; nd_Tags : string;
  nd_PrivateIPs : list string; nd_CpusetCpus : string; nd_RAMPaddingMB : option Z }.

Inductive NodeKind := NodeKindPlatform | NodeKindExternal | NodeKindBYON.

Definition IsExternal (n : node) : bool := existsb (fun t => (TrimSpace t =? "external")%string) (Split "," (nd_Tags n)).

Definition Kind (n : node) : NodeKind :=
  match nd_OwnerID n with
  | Some o => if negb (o =? "")%string then NodeKindBYON else if IsExternal n then NodeKindExternal else NodeKindPlatform
  | None => if IsExternal n then NodeKindExternal else NodeKindPlatform
  end.

(** The docker map of a reconfigure; the two ports are left out when 0. *)
Record dockerConfig := mkDocker {
  dc_image : string; dc_ram : Z; dc_ramPaddingMB : Z; dc_cpuLimit : Z; dc_cpusetCpus : string; dc_timezone : string;
  dc_extraJvmFlags : string; dc_hostPort : option Z; dc_containerPort : option Z }.

(** The commands of a move, as they are queued on a node's stream. *)
Inductive command :=
| Stop | Start
| MigrateOut (attempt : string) (issuedAt : Z)
| MigrateIn (attempt sourceNodeID token expectedSha256 : string) (expectedSize : Z) (sourcePrivateIPs : list string)
    (diskLimitMB : Z) (diskGrace : string)
| MigrateCleanup
| MigrateAbort
| MigrateDiscard (attempt : string) (issuedAt : Z)
| MigratePushR2 (attempt putURL : string) (partURLs : list string) (partSize : option Z)
| MigratePullR2 (attempt getURL expectedSha256 : string) (expectedSize diskLimitMB : Z) (diskGrace : string)
| Reconfigure (ownerId activeSubServer : string) (docker : dockerConfig).

(** What a node reports of its half, and of the archive it staged. *)
Record nodeStatus := mkStatus { ns_Phase : string; ns_Error : string; ns_Bytes : Z }.
Record nodeMeta := mkMeta { nm_SHA256 : string; nm_Size : Z; nm_SourceNodeID : string; nm_StagedAt : Z }.

(** ** Calls *)

Inductive cop : Type :=
| GetServerByID (id : Z) | GetNodeByID (id : Z) | LoadHeartbeat (token : string)
| RandRead6                                     (* six bytes of crypto/rand, as a number *)
| GetSetting (key : string)
| Now                                           (* time.Now() *)
| Clock (start interval : Z) (i : nat)          (* time.Now() after i ticks of a ticker started at [start] *)
| Tick                                          (* select: the ticker (true) or ctx.Done() (false) *)
| CtxErr                                        (* ctx.Err() != nil *)
| IsContextError                                (* of the error the SETNX of the lock gave *)
| SetNXLock (uuid requestedBy : string) | DelLock (uuid : string)
| SetNXQueued (id : Z) (reason : string) | DelQueued (id : Z) | PublishRequest (req : MigrationRequest)
| ExistsCancel (uuid : string) | DelCancel (uuid : string)
| DelProgress (sourceToken targetToken uuid : string)
| ExistsBusy (uuid : string) | ExistsLegacy (uuid : string) | playerCountFromStats (uuid : string)
| SetOrchestration (uuid phase err : string) (source target : Z) (reason : string) (startedAt : Z)
| UpdateServerStatus (id : Z) (status : string) | UpdateServerDesiredState (id : Z) (desired : string)
| UpdateServerNode (id node : Z)
| bumpBeamAccess (uuid : string)
| Publish (bg : bool) (token uuid : string) (cmd : command)   (* bg: on context.Background() *)
| GetNodeStatus (token progress : string) | GetNodeMeta (token progress : string)
| LoadNodeSecret (id : Z) | MintToken (secret uuid sourceNodeID : string)
| GetDiskGrace (token uuid : string)
| GetDefaultBackupStorage | OpenStorage (provider : string)
| ZAddSweep (key : string) (score : Z) | HSetUpload (key uploadID : string) | HDelUpload (key : string)
| UploadURL (key : string) (ttl : Z) | DownloadURL (key : string) (ttl : Z) | DeleteObject (key : string)
| CreateMultipart (key : string) | UploadPartURL (key uploadID : string) (part ttl : Z)
| AbortMultipart (key uploadID : string) | CompleteMultipart (key uploadID : string) (partSize : Z)
| GetUsedHostPortsOnNode (id : Z)
| MigrateServerRoutes (id node : Z)
| RotateVoiceKey (id : Z)
| AutoCpuset (token : string) (node id cpuLimit : Z) (allowed : string)
| ValidateCpuset (token cpuset allowed : string) | GetCpuSig (token : string)
| UpdateServerCPUPinning (id : Z) (mode cpuset : string)
| Unreachable.                                  (* a wait ran out of turns: not a call of the code (MoveEnds.v) *)

(** A read that failed is [None]; a write answers whether it reported success.
    A status or meta that is absent, unreadable or not JSON is [None]. The
    default backup storage is its provider, [Some None] a nil row. *)
Definition cans (c : cop) : Type :=
  match c with
  | GetServerByID _ => option server
  | GetNodeByID _ => option node
  | LoadHeartbeat _ => option heartbeat
  | GetSetting _ | GetDiskGrace _ _ | AutoCpuset _ _ _ _ _ | GetCpuSig _ => string
  | RandRead6 | Now | Clock _ _ _ | playerCountFromStats _ => Z
  | Tick | CtxErr | IsContextError | ExistsCancel _ | ExistsBusy _ | ExistsLegacy _ | UpdateServerNode _ _ | ValidateCpuset _ _ _ => bool
  | SetNXLock _ _ | SetNXQueued _ _ => option bool
  | PublishRequest _ | UpdateServerStatus _ _ | UpdateServerDesiredState _ _ | HDelUpload _ | DeleteObject _
  | AbortMultipart _ _ | RotateVoiceKey _ | UpdateServerCPUPinning _ _ _ => bool
  | DelLock _ | DelQueued _ | DelCancel _ | DelProgress _ _ _ | SetOrchestration _ _ _ _ _ _ _ | bumpBeamAccess _ | Unreachable => unit
  | Publish _ _ _ _ | OpenStorage _ | ZAddSweep _ _ | HSetUpload _ _ | CompleteMultipart _ _ _
  | MigrateServerRoutes _ _ => result unit
  | GetNodeStatus _ _ => option nodeStatus
  | GetNodeMeta _ _ => option nodeMeta
  | LoadNodeSecret _ | MintToken _ _ _ => option string
  | GetDefaultBackupStorage => result (option string)
  | UploadURL _ _ | DownloadURL _ _ | CreateMultipart _ | UploadPartURL _ _ _ _ => result string
  | GetUsedHostPortsOnNode _ => option (list Z)
  end.

Notation move A := (prog cans A).

(** ** Constants *)

Definition Second : Z := 1000000000.
Definition Minute : Z := 60 * Second.
Definition Hour : Z := 60 * Minute.

Definition migrationLockWait : Z := 90 * Second.
Definition migrationLockPoll : Z := 1 * Second.
Definition migrationStopTimeout : Z := 90 * Second.
Definition migrationStageTimeout : Z := 5 * Minute.
Definition migrationProgressMaxWait : Z := 6 * Hour.
Definition migrationTransferTimeout : Z := 30 * Minute.
Definition migrationR2PhaseTimeout : Z := 1 * Hour.
Definition migrationStartTimeout : Z := 90 * Second.
Definition migrationPollInterval : Z := 2 * Second.

Definition migrationAttemptSince : string := "2026.10.04.8".
Definition migrationTargetSince : string := "2026.10.05.2".
Definition DefaultJvmFlags : string := "-Dterminal.ansi=true -Djline.terminal=jline.UnsupportedTerminal".

(** A loop of [wait] at one turn per [interval] takes this many turns at most. *)
Definition turns (wait interval : Z) : nat := Z.to_nat (wait / interval + 2).

(** ** Progress keys (src/pkg/queue/migration_keys.go) *)

Definition MigrationProgressID (serverUUID attempt : string) : string :=
  if (attempt =? "")%string then serverUUID else serverUUID +:+ "@" +:+ attempt.

Fixpoint MigrationProgressServer (progressID : string) : string :=
  match progressID with
  | "" => ""
  | String c s => if Ascii.eqb c "@" then "" else String c (MigrationProgressServer s)
  end.

(** [hex.EncodeToString] of six bytes: twelve digits. *)
Fixpoint hex_encode (digits : nat) (b : Z) : string :=
  match digits with
  | O => ""
  | S n => String (hex_digit ((b / 16 ^ Z.of_nat n) mod 16)) (hex_encode n b)
  end.

Definition newMigrationAttempt : move string := b ← call RandRead6; Ret (hex_encode 12 b).

(** ** Settings *)

Definition GatewayRoutingEnabled : move bool :=
  mode ← call (GetSetting "routing_mode");
  let mode := if (mode =? "")%string then "ip_port" else mode in
  Ret ((mode =? "gateway")%string || (mode =? "both")%string).

Definition gatewayEnabled : move bool :=
  mode ← call (GetSetting "routing_mode");
  let mode := if (mode =? "")%string then "ip_port" else mode in
  Ret ((mode =? "gateway")%string || (mode =? "both")%string).

Definition presignTTL (isBYON : bool) : move Z :=
  let key := if isBYON then "r2.presign_ttl_byon_minutes" else "r2.presign_ttl_node_minutes" in
  let def := if isBYON then 360 else 60 in
  v ← call (GetSetting key);
  let mins := if (v =? "")%string then def else match Atoi v with Some n => if 0 <? n then n else def | None => def end in
  Ret (wrap64 (mins * Minute)).

Definition ParseGlobalRAMPaddingMB (raw : string) : Z :=
  match Atoi (TrimSpace raw) with
  | Some n => if (0 <=? n) && (n <=? 16384) then n else 512
  | None => 512
  end.

Definition EffectiveRAMPaddingMB (server node : option Z) : move Z :=
  match server, node with
  | Some p, _ => Ret p
  | None, Some p => Ret p
  | None, None => raw ← call (GetSetting "placement.ram_padding_mb"); Ret (ParseGlobalRAMPaddingMB raw)
  end.

Definition parseLooseRange (s : string) : option (Z * Z) :=
  match Cut "-" (TrimSpace s) with
  | None => None
  | Some (a, b) =>
      match Atoi (TrimSpace a), Atoi (TrimSpace b) with
      | Some mn, Some mx => if mx <? mn then None else Some (mn, mx)
      | _, _ => None
      end
  end.

Definition InPortRange (port : Z) (r : string) : bool :=
  match parseLooseRange r with Some (mn, mx) => (mn <=? port) && (port <=? mx) | None => false end.

(** ** Checks before anything is stopped *)

Definition movesAsRunning (status : string) : bool :=
  (status =? "online")%string || (status =? "starting")%string || (status =? "restarting")%string.

Definition DirectMoveProblem (srv : server) : move string :=
  gw ← GatewayRoutingEnabled;
  Ret (if gw : bool then ""
       else if (sv_ServerType srv =? "proxy")%string || (if sv_ProxyID srv then true else false)
       then "Proxies and the servers behind them cannot move between nodes without gateway routing yet."
       else "").

Definition keptHostPort (srv : server) (target : node) : move Z :=
  gw ← gatewayEnabled;
  if (gw : bool) || (sv_HostPort srv <=? 0) then Ret 0 else
  hb ← call (LoadHeartbeat (nd_Token target));
  match hb with
  | None => Ret 0
  | Some hb =>
      if negb (InPortRange (sv_HostPort srv) (hb_PortRange hb)) then Ret 0 else
      used ← call (GetUsedHostPortsOnNode (nd_ID target));
      match used with
      | None => Ret 0
      | Some used => Ret (if existsb (fun p => p =? sv_HostPort srv) used then 0 else sv_HostPort srv)
      end
  end.

Definition migrationSourceLANIPs (source target : node) : list string :=
  if (if nd_OwnerID source then true else false) || (if nd_OwnerID target then true else false)
     || IsExternal source || IsExternal target
  then nd_PrivateIPs source else [].

Definition movedDiskGrace (source target : node) (uuid : string) : move string :=
  match Kind source, Kind target with
  | NodeKindBYON, NodeKindBYON =>
      if bool_decide (nd_OwnerID target = nd_OwnerID source) then call (GetDiskGrace (nd_Token source) uuid) else Ret ""
  | NodeKindBYON, _ => Ret ""
  | _, _ => call (GetDiskGrace (nd_Token source) uuid)
  end.

(** ** Waiting *)

(** [pollDBStatus] from its [i]-th turn on. *)
Fixpoint pollDBStatus (fuel i : nat) (id start timeout : Z) (done : string -> bool) : move bool :=
  match fuel with
  | O => _ ← call Unreachable; Ret false
  | S fuel =>
      srv ← call (GetServerByID id);
      stop ← match srv with
             | Some s => if done (sv_Status s) then Ret (Some true)
                         else c ← call (ExistsCancel (sv_UUID s)); Ret (if c : bool then Some false else None)
             | None => Ret None
             end;
      match stop with
      | Some r => Ret r
      | None =>
          now ← call (Clock start migrationPollInterval i);
          if start + timeout <? now then Ret false else
          t ← call Tick;
          if t : bool then pollDBStatus fuel (S i) id start timeout done else Ret false
      end
  end.

Definition waitForDB (id timeout : Z) (done : string -> bool) : move bool :=
  start ← call Now; pollDBStatus (turns timeout migrationPollInterval) 0 id start timeout done.

Definition waitForStopped (id timeout : Z) : move bool :=
  waitForDB id timeout (fun s => (s =? "stopped")%string || (s =? "offline")%string).

Definition waitForOnline (id timeout : Z) : move bool := waitForDB id timeout (fun s => (s =? "online")%string).

Definition timeoutReason (lastPhase uuid : string) : move string :=
  if negb (lastPhase =? "")%string then Ret "timed out" else
  old ← call (ExistsLegacy uuid);
  Ret (if old : bool
       then "timed out: a node in this move is too old to report progress securely - update it and try again"
       else "timed out").

(** The wait for a node's phase from its [i]-th turn on: the deadline moves
    with the bytes reported, up to [migrationProgressMaxWait] from the start. *)
Fixpoint pollNodePhase (fuel i : nat) (token progress : string) (accept : string -> bool) (start timeout deadline : Z)
    (lastPhase : string) (lastBytes : Z) : move (string * string) :=
  match fuel with
  | O => _ ← call Unreachable; Ret (lastPhase, "timed out")
  | S fuel =>
      raw ← call (GetNodeStatus token progress);
      dl ← match raw with
           | Some st =>
               if ns_Bytes st =? lastBytes then Ret deadline
               else now ← call (Clock start migrationPollInterval i);
                    Ret (Z.max deadline (Z.min (now + timeout) (start + migrationProgressMaxWait)))
           | None => Ret deadline
           end;
      let '(phase, bytes) := match raw with Some st => (ns_Phase st, ns_Bytes st) | None => (lastPhase, lastBytes) end in
      let ended := match raw with
        | Some st => if accept (ns_Phase st) then Some (ns_Phase st, "")
                     else if (ns_Phase st =? "error")%string then Some (ns_Phase st, ns_Error st) else None
        | None => None
        end in
      match ended with
      | Some r => Ret r
      | None =>
          c ← call (ExistsCancel (MigrationProgressServer progress));
          if c : bool then Ret (phase, "cancelled by admin") else
          now ← call (Clock start migrationPollInterval i);
          if dl <? now then why ← timeoutReason phase (MigrationProgressServer progress); Ret (phase, why) else
          t ← call Tick;
          if t : bool then pollNodePhase fuel (S i) token progress accept start timeout dl phase bytes
          else Ret (phase, "context cancelled")
      end
  end.

Definition waitForNodePhaseAny (token progress : string) (accept : string -> bool) (timeout : Z) : move (string * string) :=
  start ← call Now;
  pollNodePhase (turns (Z.max timeout migrationProgressMaxWait) migrationPollInterval) 0 token progress accept start timeout
    (start + timeout) "" 0.

Definition waitForNodePhase (token progress wantPhase : string) (timeout : Z) : move (string * string) :=
  waitForNodePhaseAny token progress (fun p => (p =? wantPhase)%string) timeout.

(** ** The lock *)

Inductive lockResult := LockHeldByUs | LockHeldElsewhere | LockContext | LockError.

(** Turns of [holdMigrationLock]; what keeps the lock alive afterwards is the
    refresher, which ends before [DelLock]. *)
Fixpoint lock_loop (fuel i : nat) (uuid requestedBy : string) (start : Z) : move lockResult :=
  match fuel with
  | O => _ ← call Unreachable; Ret LockHeldElsewhere
  | S fuel =>
      got ← call (SetNXLock uuid requestedBy);
      match got with
      | None => ctx ← call IsContextError; Ret (if ctx : bool then LockContext else LockError)
      | Some true => Ret LockHeldByUs
      | Some false =>
          now ← call (Clock start migrationLockPoll i);
          if negb (now <? start + migrationLockWait) then Ret LockHeldElsewhere else
          t ← call Tick;
          if t : bool then lock_loop fuel (S i) uuid requestedBy start else Ret LockContext
      end
  end.

Definition holdMigrationLock (uuid requestedBy : string) : move lockResult :=
  start ← call Now; lock_loop (turns migrationLockWait migrationLockPoll) 0 uuid requestedBy start.

(** ** Steps *)

(** The move being made: what [Migrate]'s closures capture. *)
Record moving := mkMoving {
  mv_srv : server; mv_src : node; mv_tgt : node; mv_attempt : string; mv_reason : string; mv_startedAt : Z }.

Definition mv_uuid (m : moving) : string := sv_UUID (mv_srv m).
Definition mv_progress (m : moving) : string := MigrationProgressID (mv_uuid m) (mv_attempt m).

Definition writeStatus (m : moving) (phase err : string) : move unit :=
  call (SetOrchestration (mv_uuid m) phase err (nd_ID (mv_src m)) (nd_ID (mv_tgt m)) (mv_reason m) (mv_startedAt m)).

Definition rollbackPreCutover (m : moving) (wasRunning : bool) (preStatus reason : string) : move unit :=
  let srv := mv_srv m in
  _ ← call (Publish true (nd_Token (mv_src m)) (sv_UUID srv) MigrateAbort);
  _ ← (if negb (mv_attempt m =? "")%string
       then now ← call Now;
            r ← call (Publish true (nd_Token (mv_tgt m)) (sv_UUID srv) (MigrateDiscard (mv_attempt m) (now / Second))); Ret tt
       else Ret tt);
  _ ← (if wasRunning
       then _ ← call (UpdateServerDesiredState (sv_ID srv) "online");
            _ ← call (UpdateServerStatus (sv_ID srv) "starting");
            _ ← call (Publish true (nd_Token (mv_src m)) (sv_UUID srv) Start); Ret tt
       else _ ← call (UpdateServerStatus (sv_ID srv) preStatus); Ret tt);
  c ← call (ExistsCancel (sv_UUID srv));
  if c : bool then writeStatus m "cancelled" "migration cancelled by admin" else writeStatus m "failed" reason.

Definition stopServer (srv : server) (n : node) : move (result unit) :=
  _ ← call (UpdateServerDesiredState (sv_ID srv) "stopped");
  _ ← call (UpdateServerStatus (sv_ID srv) "stopping");
  call (Publish false (nd_Token n) (sv_UUID srv) Stop).

Definition readMeta (token progress : string) : move (option nodeMeta) :=
  raw ← call (GetNodeMeta token progress);
  Ret (match raw with Some m => if (nm_SHA256 m =? "")%string then None else Some m | None => None end).

(** ** Transfer through object storage *)

Definition backupPartSize : Z := 64 * 2 ^ 20.
Definition maxPartNumber : Z := 10000.
Definition migrationPutMaxSize : Z := 5 * 2 ^ 30.

(** How many parts [presignMigrationParts] signs for an archive of [size]. *)
Definition partsFor (size : Z) : Z := Z.quot (wrap64 (wrap64 (size + backupPartSize) - 1)) backupPartSize.

Inductive presigned := Signed (uploadID : string) (urls : list string) | NotSigned (err : string) | SignPanics.

Fixpoint sign_parts (n : nat) (p : Z) (key uploadID : string) (ttl : Z) (urls : list string) : move presigned :=
  match n with
  | O => Ret (Signed uploadID urls)
  | S n =>
      u ← call (UploadPartURL key uploadID p ttl);
      match u with
      | inr e => _ ← call (AbortMultipart key uploadID); Ret (NotSigned ("presign transfer part " +:+ Itoa p +:+ ": " +:+ e))
      | inl u => sign_parts n (p + 1) key uploadID ttl (urls ++ [u])
      end
  end.

(** [make([]string, 0, parts)] panics on a negative capacity. *)
Definition presignMigrationParts (key : string) (size ttl : Z) : move presigned :=
  if size <=? migrationPutMaxSize then Ret (Signed "" []) else
  let parts := partsFor size in
  if maxPartNumber <? parts
  then Ret (NotSigned ("staged archive of " +:+ Itoa size +:+ " bytes is larger than transfer storage can take in "
                       +:+ Itoa maxPartNumber +:+ " parts"))
  else
  up ← call (CreateMultipart key);
  match up with
  | inr e => Ret (NotSigned ("staged archive of " +:+ Itoa size
                             +:+ " bytes needs a multipart upload, which transfer storage refused: " +:+ e))
  | inl uploadID => if parts <? 0 then Ret SignPanics else sign_parts (Z.to_nat parts) 1 key uploadID ttl []
  end.

Inductive transferResult := Transferred | TransferFailed (err : string) | TransferPanics.

(** Both legs once the upload is signed; whether the upload was completed. *)
Definition r2_legs (m : moving) (key uploadID putURL : string) (partURLs : list string) (ttl : Z) (expectedSha256 : string)
    (expectedSize : Z) : move (transferResult * bool) :=
  sent ← call (Publish false (nd_Token (mv_src m)) (mv_uuid m)
    (MigratePushR2 (mv_attempt m) putURL partURLs (if partURLs then None else Some backupPartSize)));
  match sent with
  | inr e => Ret (TransferFailed ("queue migrate_push_r2: " +:+ e), false)
  | inl _ =>
  ph ← waitForNodePhase (nd_Token (mv_src m)) (mv_progress m) "pushed" migrationR2PhaseTimeout;
  if negb (ph.1 =? "pushed")%string
  then Ret (TransferFailed ("source R2 upload failed (phase=" +:+ ph.1 +:+ "): " +:+ ph.2), false) else
  comp ← (if (uploadID =? "")%string then Ret (inl false)
          else c ← call (CompleteMultipart key uploadID backupPartSize);
               match c with
               | inr e => Ret (inr ("complete transfer upload: " +:+ e))
               | inl _ => _ ← call (HDelUpload key); Ret (inl true)
               end : move (bool + string));
  match comp with
  | inr e => Ret (TransferFailed e, false)
  | inl completed =>
  now ← call Now;
  z ← call (ZAddSweep key ((now + ttl + Minute) / Second));
  match z with
  | inr e => Ret (TransferFailed ("record transfer object for cleanup: " +:+ e), completed)
  | inl _ =>
  get ← call (DownloadURL key ttl);
  match get with
  | inr e => Ret (TransferFailed ("presign get url: " +:+ e), completed)
  | inl getURL =>
  if (getURL =? "")%string then Ret (TransferFailed "presign get url: <nil>", completed) else
  grace ← movedDiskGrace (mv_src m) (mv_tgt m) (mv_uuid m);
  sent ← call (Publish false (nd_Token (mv_tgt m)) (mv_uuid m)
    (MigratePullR2 (mv_attempt m) getURL expectedSha256 expectedSize (sv_DiskLimit (mv_srv m)) grace));
  match sent with
  | inr e => Ret (TransferFailed ("queue migrate_pull_r2: " +:+ e), completed)
  | inl _ =>
  ph ← waitForNodePhase (nd_Token (mv_tgt m)) (mv_progress m) "transferred" migrationR2PhaseTimeout;
  if negb (ph.1 =? "transferred")%string
  then Ret (TransferFailed ("target R2 download failed (phase=" +:+ ph.1 +:+ "): " +:+ ph.2), completed)
  else Ret (Transferred, completed)
  end end end end end.

(** The upload: started, tracked, and aborted on return unless completed. *)
Definition r2_upload (m : moving) (key putURL : string) (ttl : Z) (expectedSha256 : string) (expectedSize : Z) : move transferResult :=
  s ← presignMigrationParts key expectedSize ttl;
  match s with
  | NotSigned e => Ret (TransferFailed e)
  | SignPanics => Ret TransferPanics
  | Signed uploadID partURLs =>
      if (uploadID =? "")%string
      then r ← r2_legs m key uploadID putURL partURLs ttl expectedSha256 expectedSize; Ret r.1
      else
      rec ← call (HSetUpload key uploadID);
      r ← match rec with
          | inr e => Ret (TransferFailed ("record transfer upload for cleanup: " +:+ e), false)
          | inl _ => r2_legs m key uploadID putURL partURLs ttl expectedSha256 expectedSize
          end;
      _ ← (if r.2 : bool then Ret tt
           else aborted ← call (AbortMultipart key uploadID);
                if aborted : bool then _ ← call (HDelUpload key); Ret tt else Ret tt);
      Ret r.1
  end.

Definition openTransferStorage (bs : option string) : move (result unit) :=
  match bs with
  | None => Ret (inr "cross-LAN BYON transfer requires an S3/R2 backup storage (none configured)")
  | Some provider =>
      if (provider =? "s3")%string || (provider =? "connection")%string
      then r ← call (OpenStorage provider);
           Ret (match r with inr e => inr ("open backup storage: " +:+ e) | inl u => inl u end)
      else Ret (inr ("cross-LAN BYON transfer requires an S3/R2 backup storage (the default storage is "
                     +:+ dq +:+ provider +:+ dq +:+ ")"))
  end.

Definition transferViaR2 (m : moving) (expectedSha256 : string) (expectedSize : Z) : move transferResult :=
  bs ← call GetDefaultBackupStorage;
  match bs with
  | inr e => Ret (TransferFailed ("resolve backup storage: " +:+ e))
  | inl bs =>
  prov ← openTransferStorage bs;
  match prov with
  | inr e => Ret (TransferFailed e)
  | inl _ =>
  let key := "migration-transfer/" +:+ mv_uuid m +:+ "-" +:+ mv_attempt m +:+ ".zip" in
  ttl ← presignTTL true;
  now ← call Now;
  z ← call (ZAddSweep key ((now + ttl + Minute) / Second));
  match z with
  | inr e => Ret (TransferFailed ("record transfer object for cleanup: " +:+ e))
  | inl _ =>
  put ← call (UploadURL key ttl);
  match put with
  | inr e => Ret (TransferFailed ("presign put url: " +:+ e))
  | inl putURL =>
      if (putURL =? "")%string then Ret (TransferFailed "presign put url: <nil>") else
      r ← r2_upload m key putURL ttl expectedSha256 expectedSize;
      _ ← call (DeleteObject key);
      Ret r
  end end end end.

(** ** After the cutover *)

Section orchestrator.
(** Whether Core wired its CPU-pinning service. *)
Context (cpuPinning : bool).

Definition reResolvePinningForTarget (srv : server) (source target : node) : move string :=
  if negb cpuPinning then Ret (nd_CpusetCpus target) else
  if (sv_CPUPinningMode srv =? "auto")%string then
    cs ← call (AutoCpuset (nd_Token target) (nd_ID target) (sv_ID srv) (sv_CPULimit srv) (nd_CpusetCpus target));
    _ ← call (UpdateServerCPUPinning (sv_ID srv) "auto" cs);
    Ret (if (cs =? "")%string then nd_CpusetCpus target else cs)
  else if (sv_CPUPinningMode srv =? "manual")%string then
    srcSig ← call (GetCpuSig (nd_Token source));
    tgtSig ← call (GetCpuSig (nd_Token target));
    keep ← (if negb (srcSig =? "")%string && (srcSig =? tgtSig)%string
            then call (ValidateCpuset (nd_Token target) (sv_Cpuset srv) (nd_CpusetCpus target)) else Ret false);
    if keep : bool then Ret (sv_Cpuset srv)
    else _ ← call (UpdateServerCPUPinning (sv_ID srv) "shared" ""); Ret (nd_CpusetCpus target)
  else Ret (nd_CpusetCpus target).

(** From [(h)] past the route on: voice key, pinning, config, start, cleanup. *)
Definition afterCutover (m : moving) (keptPort : Z) (wasRunning : bool) (preStatus : string) : move unit :=
  let '(srv, src, tgt) := (mv_srv m, mv_src m, mv_tgt m) in
  _ ← call (RotateVoiceKey (sv_ID srv));
  effCpuset ← reResolvePinningForTarget srv src tgt;
  padding ← EffectiveRAMPaddingMB (sv_RAMPaddingMB srv) (nd_RAMPaddingMB tgt);
  let docker := mkDocker (sv_GameImage srv) (sv_Memory srv) padding (sv_CPULimit srv) effCpuset (sv_Timezone srv)
    (TrimSpace (DefaultJvmFlags +:+ " " +:+ sv_ExtraJvmFlags srv))
    (if 0 <? keptPort then Some keptPort else None) (if 0 <? sv_ContainerPort srv then Some (sv_ContainerPort srv) else None) in
  conf ← call (Publish true (nd_Token tgt) (sv_UUID srv) (Reconfigure (sv_OwnerID srv) (sv_ActiveSubServer srv) docker));
  let final := if (preStatus =? "suspended")%string then "suspended" else "stopped" in
  _ ← match conf with
      | inr e =>
          _ ← call (UpdateServerStatus (sv_ID srv) final);
          _ ← call (UpdateServerDesiredState (sv_ID srv) "stopped");
          writeStatus m "failed_post_cutover" ("sending the config to the target failed: " +:+ e)
      | inl _ =>
          if wasRunning then
            _ ← call (UpdateServerStatus (sv_ID srv) "starting");
            _ ← call (UpdateServerDesiredState (sv_ID srv) "online");
            _ ← writeStatus m "finalizing" "";
            _ ← waitForOnline (sv_ID srv) migrationStartTimeout; Ret tt
          else
            _ ← call (UpdateServerStatus (sv_ID srv) final);
            _ ← call (UpdateServerDesiredState (sv_ID srv) "stopped"); Ret tt
      end;
  _ ← call (Publish true (nd_Token src) (sv_UUID srv) MigrateCleanup);
  match conf with inl _ => writeStatus m "done" "" | inr _ => Ret tt end.

(** [(h)] The cutover, undone when the route cannot follow. *)
Definition cutover (m : moving) (wasRunning : bool) (preStatus : string) : move unit :=
  let '(srv, src, tgt) := (mv_srv m, mv_src m, mv_tgt m) in
  keptPort ← keptHostPort srv tgt;
  flipped ← call (UpdateServerNode (sv_ID srv) (nd_ID tgt));
  if negb flipped then rollbackPreCutover m wasRunning preStatus "node reassign failed" else
  gw ← gatewayEnabled;
  routed ← (if gw : bool then call (MigrateServerRoutes (sv_ID srv) (nd_ID tgt)) else Ret (inl tt));
  match routed with
  | inr e =>
      back ← call (UpdateServerNode (sv_ID srv) (nd_ID src));
      if back : bool then
        _ ← call (MigrateServerRoutes (sv_ID srv) (nd_ID src));
        rollbackPreCutover m wasRunning preStatus ("route re-point failed: " +:+ e)
      else
        _ ← call (UpdateServerStatus (sv_ID srv) "stopped");
        _ ← call (UpdateServerDesiredState (sv_ID srv) "stopped");
        writeStatus m "failed_post_cutover" ("route re-point failed: " +:+ e)
  | inl _ => afterCutover m keptPort wasRunning preStatus
  end.

(** [(g)] The target fetches and verifies; whether the step panicked. *)
Definition transfer (m : moving) (wasRunning : bool) (preStatus : string) : move bool :=
  let '(srv, src, tgt) := (mv_srv m, mv_src m, mv_tgt m) in
  let fail reason := (_ ← rollbackPreCutover m wasRunning preStatus reason; Ret false) in
  meta ← readMeta (nd_Token src) (mv_progress m);
  match meta with
  | None => fail "meta read failed"
  | Some meta =>
  secret ← call (LoadNodeSecret (nd_ID src));
  match secret with
  | None => fail "source node secret unavailable"
  | Some secret =>
  token ← call (MintToken secret (sv_UUID srv) (nd_Token src));
  match token with
  | None => fail "token mint failed"
  | Some token =>
  grace ← movedDiskGrace src tgt (sv_UUID srv);
  sent ← call (Publish false (nd_Token tgt) (sv_UUID srv)
    (MigrateIn (mv_attempt m) (nd_Token src) token (nm_SHA256 meta) (nm_Size meta) (migrationSourceLANIPs src tgt)
       (sv_DiskLimit srv) grace));
  match sent with
  | inr _ => fail "migrate_in queue failed"
  | inl _ =>
  ph ← waitForNodePhaseAny (nd_Token tgt) (mv_progress m)
         (fun p => (p =? "transferred")%string || (p =? "need_remote")%string) migrationTransferTimeout;
  arrived ← (if (ph.1 =? "need_remote")%string then transferViaR2 m (nm_SHA256 meta) (nm_Size meta)
             else if (ph.1 =? "transferred")%string then Ret Transferred
             else Ret (TransferFailed ("transfer failed: " +:+ ph.2)));
  match arrived with
  | TransferPanics => Ret true
  | TransferFailed e => fail (if (ph.1 =? "need_remote")%string then "r2 transfer failed: " +:+ e else e)
  | Transferred =>
      c ← call (ExistsCancel (sv_UUID srv));
      if c : bool then fail "cancelled before cutover" else _ ← cutover m wasRunning preStatus; Ret false
  end end end end end.

(** [(f)] The source stages; every return after this bumps the file access again. *)
Definition stage (m : moving) (wasRunning : bool) (preStatus : string) : move bool :=
  let '(srv, src) := (mv_srv m, mv_src m) in
  let fail reason := (_ ← rollbackPreCutover m wasRunning preStatus reason; Ret false) in
  _ ← call (UpdateServerStatus (sv_ID srv) "migrating");
  _ ← call (bumpBeamAccess (sv_UUID srv));
  panics ← (
    _ ← writeStatus m "migrating" "";
    now ← call Now;
    sent ← call (Publish false (nd_Token src) (sv_UUID srv) (MigrateOut (mv_attempt m) (now / Second)));
    match sent with
    | inr _ => fail "migrate_out queue failed"
    | inl _ =>
        ph ← waitForNodePhase (nd_Token src) (mv_progress m) "staged" migrationStageTimeout;
        if negb (ph.1 =? "staged")%string then fail ("staging failed: " +:+ ph.2)
        else transfer m wasRunning preStatus
    end);
  _ ← call (bumpBeamAccess (sv_UUID srv));
  Ret panics.

(** Under the lock: [(c)] to [(e)], then the rest. *)
Definition locked (m : moving) (reqPreStatus : string) : move bool :=
  let '(srv, src, tgt) := (mv_srv m, mv_src m, mv_tgt m) in
  _ ← call (DelProgress (nd_Token src) (nd_Token tgt) (sv_UUID srv));
  busy ← call (ExistsBusy (sv_UUID srv));
  if (busy : bool) || (sv_Status srv =? "installing")%string
  then _ ← writeStatus m "failed" "the node is working on this server (install, update or restore); move it when that has finished"; Ret false
  else
  _ ← writeStatus m "starting" "";
  let preStatus := if (sv_Status srv =? "migrating")%string && negb (reqPreStatus =? "")%string then reqPreStatus else sv_Status srv in
  let wasRunning := movesAsRunning preStatus in
  players ← (if (mv_reason m =? "rebalance")%string && wasRunning then call (playerCountFromStats (sv_UUID srv)) else Ret 0);
  if 0 <? players then _ ← writeStatus m "aborted_players" (Itoa players +:+ " players online"); Ret false else
  if negb wasRunning then stage m wasRunning preStatus else
  _ ← writeStatus m "migrating" "";
  stopped ← stopServer srv src;
  match stopped with
  | inr _ => _ ← rollbackPreCutover m wasRunning preStatus "stop failed"; Ret false
  | inl _ =>
      down ← waitForStopped (sv_ID srv) migrationStopTimeout;
      if down : bool then stage m wasRunning preStatus
      else _ ← rollbackPreCutover m wasRunning preStatus "stop timed out"; Ret false
  end.

(** How [Migrate] ends: normally, leaving the marker to another Core, or by a panic. *)
Inductive ended := Ended | KeptMarker | Panicked.
#[global] Instance ended_eq_dec : EqDecision ended.
Proof. solve_decision. Defined.

(** [(a)] and [(b)]: load, check, lock. *)
Definition migrate (req : MigrationRequest) : move ended :=
  srv ← call (GetServerByID (rq_ServerID req));
  match srv with
  | None => Ret Ended
  | Some srv =>
  src ← call (GetNodeByID (sv_NodeID srv));
  match src with
  | None =>
      now ← call Now;
      _ ← call (SetOrchestration (sv_UUID srv) "failed" "source node not found" (sv_NodeID srv) (rq_TargetNodeID req) (rq_Reason req) now);
      Ret Ended
  | Some src =>
  tgt ← call (GetNodeByID (rq_TargetNodeID req));
  match tgt with
  | None =>
      now ← call Now;
      _ ← call (SetOrchestration (sv_UUID srv) "failed" "target node not found" (sv_NodeID srv) (rq_TargetNodeID req) (rq_Reason req) now);
      Ret Ended
  | Some tgt =>
  startedAt ← call Now;
  let m0 := mkMoving srv src tgt "" (rq_Reason req) startedAt in
  let refuse reason := (_ ← writeStatus m0 "failed" reason; Ret Ended) in
  if negb (rq_SourceNodeID req =? 0) && negb (sv_NodeID srv =? rq_SourceNodeID req)
  then refuse "server was moved since this request was queued" else
  if negb (nd_Status src =? "online")%string then refuse "source node not online" else
  hs ← call (LoadHeartbeat (nd_Token src));
  if negb (nodeAtLeast hs migrationAttemptSince)
  then refuse ("node " +:+ Itoa (nd_ID src) +:+ " must be updated before it can take part in a move") else
  ht ← call (LoadHeartbeat (nd_Token tgt));
  if negb (nodeAtLeast ht migrationAttemptSince)
  then refuse ("node " +:+ Itoa (nd_ID tgt) +:+ " must be updated before it can take part in a move") else
  ht ← call (LoadHeartbeat (nd_Token tgt));
  if negb (nodeAtLeast ht migrationTargetSince)
  then refuse ("node " +:+ Itoa (nd_ID tgt) +:+ " must be updated before it can take part in a move") else
  attempt ← newMigrationAttempt;
  problem ← DirectMoveProblem srv;
  if negb (problem =? "")%string then refuse problem else
  if nd_ID tgt =? nd_ID src then refuse "target node equals source node" else
  if negb (nd_Status tgt =? "online")%string then refuse "target node not online" else
  got ← holdMigrationLock (sv_UUID srv) (rq_RequestedBy req);
  match got with
  | LockHeldElsewhere => Ret KeptMarker
  | LockContext => Ret Ended
  | LockError => refuse "lock error"
  | LockHeldByUs =>
      panics ← locked (mkMoving srv src tgt attempt (rq_Reason req) startedAt) (rq_PreStatus req);
      _ ← call (DelCancel (sv_UUID srv));
      _ ← call (DelLock (sv_UUID srv));
      Ret (if panics : bool then Panicked else Ended)
  end end end end.

(** The status [Migrate] puts back over a "migrating" nobody ended. *)
Definition backStatus (pre : string) : string :=
  if (pre =? "")%string || (pre =? "migrating")%string then "stopped" else pre.

(** [Migrate]: its outermost deferred function runs on every return. *)
Definition Migrate (req : MigrationRequest) : move ended :=
  r ← migrate req;
  cancelled ← call CtxErr;
  if (cancelled : bool) || (match r with KeptMarker => true | _ => false end) then Ret r else
  _ ← call (DelQueued (rq_ServerID req));
  cur ← call (GetServerByID (rq_ServerID req));
  match cur with
  | Some cur =>
      if (sv_Status cur =? "migrating")%string
      then _ ← call (UpdateServerStatus (rq_ServerID req) (backStatus (rq_PreStatus req))); Ret r
      else Ret r
  | None => Ret r
  end.

(** The answer of [EnqueueMigration]. *)
Inductive enqueued := Enqueued | ErrMigrationQueued | ErrEnqueue.

Definition EnqueueMigration (serverID targetNodeID : Z) (reason requestedBy : string) : move enqueued :=
  srv ← call (GetServerByID serverID);
  match srv with
  | None => Ret ErrEnqueue
  | Some srv =>
      marked ← call (SetNXQueued serverID reason);
      match marked with
      | None => Ret ErrEnqueue
      | Some false => Ret ErrMigrationQueued
      | Some true =>
          ok ← call (PublishRequest (mkReq serverID targetNodeID (sv_NodeID srv) (sv_Status srv) reason requestedBy));
          if ok : bool then Ret Enqueued else _ ← call (DelQueued serverID); Ret ErrEnqueue
      end
  end.
End orchestrator.

Definition nextMigrationBackoff (current : Z) : Z :=
  if current <=? 0 then 1 * Second else if 30 * Second <? current * 2 then 30 * Second else current * 2.
