(* ===== verification/MigrationNode.v ===== *)
(** * Moving a server between nodes: the node's side (src/node/migration_commands.go)

    One handler per command of a move, over the calls [nop] to the node's
    storage paths, to Redis, to Docker and to the process's own maps
    ([migrateInFlight], [migrateAborts], [migrateOutLatest]). A handler's
    deferred calls are made where it returns. The reporter that repeats the
    phase with a growing byte count while a handler works is one [Report]: what
    it writes later differs in the bytes only, and it has ended before the
    handler's last phase is written. What an unpacking adds to [inflightWrites]
    and takes back is not a call here, and the two messages about free space
    leave the amounts out. The goroutine of a discard is the rest of its
    handler. *)

From Stdlib Require Import Ascii String.
From S2P Require Import Prelude GoStrings GoNet Programs Release Migration.
Open Scope string_scope.
Open Scope list_scope.
Open Scope Z_scope.

Notation length := List.length.

Inductive putResult := PutOK | PutOverSingle | PutFailed.

Inductive nop : Type :=
| NodeNow                                                       (* time.Now() *)
| NodeClock (start interval : Z) (i : nat)                      (* ... after i sleeps of [interval] since [start] *)
| GetServerPath (uuid : string) | SelectStoragePath (uuid : string) | StoragePaths | RemoveServerPath (uuid : string)
| StatDir (path uuid : string) | stagedSize (path uuid : string)
| DiskBudget (path : string)                                    (* restoreDiskBudget(path) - inflightWrites.Load() *)
| InflightAdd (n : Z)
| MkdirStaging (path : string) | WriteOrigin (path uuid : string) | ReadOrigin (path uuid : string) | RemoveOrigin (path uuid : string)
| CreatePart (path uuid : string) | RemovePart (part : string) | Archive (path uuid part : string) | RenamePart (part path uuid : string)
| StatArchive (path uuid : string) | RemoveArchive (path uuid : string) | TouchArchive (path uuid : string)
| AbortCount (uuid : string) | AbortAdd (uuid : string)
| NewRun | LatestStore (uuid : string) (run : Z) | LatestLoad (uuid : string) | LatestCompareAndDelete (uuid : string) (run : Z)
| SetMeta (progress : string) (meta : nodeMeta) | SetStatus (progress phase err : string) | Report (progress phase : string)
| Claim (uuid : string) | Release (uuid : string)               (* migrateInFlight *)
| GetEndpoint (source : string) | Probe (hostport token : string)
| MarkMovedIn (path uuid progress : string) | ReadMovedIn (path uuid : string) | RemoveMovedIn (path uuid : string)
| WriteDiscard (path uuid progress : string) | ReadDiscard (path uuid : string) | RemoveDiscard (path uuid : string)
| PullOnce (url token path uuid : string) (maxBytes : Z)        (* into <path>/<uuid>.migration-in.zip *)
| CtxCancelled | RemoveTmp (path uuid : string)
| RemoveAllDir (path uuid : string) | MkdirAllDir (path uuid : string)
| Extract (path uuid : string) (budget : Z)                     (* the .migration-in.zip into <path>/<uuid> *)
| RemoveAllFile (path uuid name : string)
| OwnContainer (uuid : string) | PowerDelete (uuid : string)
| RemoveQuota (uuid : string) | forgetDiskLimit (uuid : string)
| PutArchive (path uuid putURL : string) (partURLs : list string) (partSize : Z)
| GetServerDir (uuid : string) | applyMovedDiskLimit (dir uuid : string) (limitMB : Z) (grace : string)
| NodeUnreachable.                                              (* a wait ran out of turns: not a call of the code (MoveEnds.v) *)

Definition nans (c : nop) : Type :=
  match c with
  | NodeNow | NodeClock _ _ _ | stagedSize _ _ | DiskBudget _ | AbortCount _ | NewRun => Z
  | GetServerPath _ | GetEndpoint _ | GetServerDir _ => string
  | SelectStoragePath _ => result string
  | StoragePaths => list string
  | StatDir _ _ | MkdirStaging _ | WriteOrigin _ _ | RenamePart _ _ _ | StatArchive _ _ | SetMeta _ _ | Claim _ | Probe _ _
  | MarkMovedIn _ _ _ | WriteDiscard _ _ _ | CtxCancelled | OwnContainer _ => bool
  | ReadOrigin _ _ | CreatePart _ _ | ReadMovedIn _ _ | ReadDiscard _ _ => option string
  | LatestLoad _ => option Z
  | Archive _ _ _ => result (string * Z)
  | PullOnce _ _ _ _ _ => result string
  | RemoveAllDir _ _ | MkdirAllDir _ _ | Extract _ _ _ | RemoveAllFile _ _ _ => result unit
  | PutArchive _ _ _ _ _ => putResult
  | _ => unit
  end.

Notation handler A := (prog nans A).

Section handlers.
(** This node's identity in the stamps it writes. *)
Context (nodeID : string).

Definition setMigrationStatus (progress phase err : string) : handler unit := call (SetStatus progress phase err).

(** ** Shared storage *)

Fixpoint shared_owner (uuid : string) (paths : list string) : handler string :=
  match paths with
  | [] => Ret ""
  | p :: paths =>
      data ← call (ReadOrigin p uuid);
      match data with
      | None => shared_owner uuid paths
      | Some d =>
          let owner := TrimSpace d in
          if negb (owner =? "")%string && negb (owner =? nodeID)%string then Ret owner else shared_owner uuid paths
      end
  end.

Definition sharedStorageOwner (uuid : string) : handler string :=
  paths ← call StoragePaths; shared_owner uuid paths.

Definition refuseIfStorageShared (uuid progress : string) : handler bool :=
  owner ← sharedStorageOwner uuid;
  if (owner =? "")%string then Ret false else
  _ ← (setMigrationStatus progress "error" ("shared storage: this node and " +:+ owner
        +:+ " write to the same storage backend, so moving would delete the server"));
  Ret true.

(** ** Staging (source) *)

Definition migrateOutMaxAge : Z := 5 * Minute.

(** Times here are whole seconds, as the command carries them. *)
Definition staleMigrateOut (issuedAt now : Z) : bool := negb (issuedAt =? 0) && (migrateOutMaxAge <? now - issuedAt * Second).

Definition dropStaleMigrateOut (progress : string) (issuedAt now : Z) : handler bool :=
  if negb (staleMigrateOut issuedAt now) then Ret false
  else _ ← (setMigrationStatus progress "error" "the move was queued too long ago to stage; try it again"); Ret true.

(** From the part file on; it is gone once renamed. *)
Definition archive_part (uuid progress path part : string) (aborts run : Z) : handler unit :=
  _ ← call (Report progress "staging");
  r ← call (Archive path uuid part);
  match r with
  | inr e => (setMigrationStatus progress "error" ("archive failed: " +:+ e))
  | inl (sha, size) =>
      now_aborts ← call (AbortCount uuid);
      if negb (now_aborts =? aborts) then
        cur ← call (LatestLoad uuid);
        if bool_decide (cur = Some run) then _ ← call (RemoveOrigin path uuid); Ret tt else Ret tt
      else
      renamed ← call (RenamePart part path uuid);
      if negb renamed then (setMigrationStatus progress "error" "cannot put the archive in place") else
      now ← call NodeNow;
      ok ← call (SetMeta progress (mkMeta sha size nodeID (now / Second)));
      if negb ok then (setMigrationStatus progress "error" "failed to publish meta")
      else (setMigrationStatus progress "staged" "")
  end.

Definition stage_archive (uuid progress path : string) (aborts run : Z) : handler unit :=
  made ← call (MkdirStaging path);
  if negb made then (setMigrationStatus progress "error" "cannot create staging dir") else
  stamped ← call (WriteOrigin path uuid);
  if negb stamped then (setMigrationStatus progress "error" "cannot write origin stamp") else
  part ← call (CreatePart path uuid);
  match part with
  | None => (setMigrationStatus progress "error" "cannot create the archive")
  | Some part => _ ← archive_part uuid progress path part aborts run; _ ← call (RemovePart part); Ret tt
  end.

Definition handleMigrateOut (uuid progress : string) : handler unit :=
  aborts ← call (AbortCount uuid);
  run ← call NewRun;
  _ ← call (LatestStore uuid run);
  _ ← (path ← call (GetServerPath uuid);
       if (path =? "")%string then (setMigrationStatus progress "error" "storage path not found") else
       isdir ← call (StatDir path uuid);
       if negb isdir then (setMigrationStatus progress "error" "server directory missing") else
       _ ← call (Report progress "staging");
       need ← call (stagedSize path uuid);
       budget ← call (DiskBudget path);
       if budget <? need
       then (setMigrationStatus progress "error" "not enough free space on the source node to stage the move")
       else
       _ ← call (InflightAdd need);
       _ ← stage_archive uuid progress path aborts run;
       _ ← call (InflightAdd (- need)); Ret tt);
  _ ← call (LatestCompareAndDelete uuid run); Ret tt.

(** ** Receiving (target) *)

Definition refuseDiscardedAttempt (uuid progress : string) : handler bool :=
  path ← call (GetServerPath uuid);
  if (path =? "")%string then Ret false else
  got ← call (ReadDiscard path uuid);
  match got with
  | None => Ret false
  | Some got =>
      if negb (got =? progress)%string then _ ← call (RemoveDiscard path uuid); Ret false
      else _ ← (setMigrationStatus progress "error" "this move was cancelled"); Ret true
  end.

Definition pullCap (announced budget : Z) : Z :=
  let budget := if budget <? 1 then 1 else budget in
  if (0 <? announced) && (announced <? budget) then announced else budget.

(** Hex digests compare in lower case. *)
Fixpoint to_lower (s : string) : string :=
  match s with
  | "" => ""
  | String c s => String (if (65 <=? code c) && (code c <=? 90) then ascii_of_nat (nat_of_ascii c + 32) else c) (to_lower s)
  end.

(** [pull]: [n] more attempts, the whole download each time. *)
Fixpoint pull (n : nat) (url token want path uuid : string) (maxBytes : Z) : handler bool :=
  got ← call (PullOnce url token path uuid maxBytes);
  match got with
  | inl got => if (got =? want)%string then Ret true else match n with O => Ret false | S n => pull n url token want path uuid maxBytes end
  | inr _ =>
      gone ← call CtxCancelled;
      if gone : bool then Ret false else match n with O => Ret false | S n => pull n url token want path uuid maxBytes end
  end.

Definition Pull (url token expectedSha256 path uuid : string) (maxRetries : nat) (maxBytes : Z) : handler bool :=
  pull maxRetries url token (to_lower (TrimSpace expectedSha256)) path uuid maxBytes.

Definition resetMigrationTarget (path uuid : string) : handler (result unit) :=
  r ← call (RemoveAllDir path uuid);
  match r with inr e => Ret (inr e) | inl _ => call (MkdirAllDir path uuid) end.

Definition extractMovedServer (path uuid : string) : handler (result unit) :=
  budget ← call (DiskBudget path);
  r ← call (Extract path uuid budget);
  match r with
  | inr e => Ret (inr e)
  | inl _ =>
      r ← call (RemoveAllFile path uuid ".node_config.json");
      match r with
      | inr e => Ret (inr ("drop the archived .node_config.json: " +:+ e))
      | inl _ =>
          r ← call (RemoveAllFile path uuid ".dylaris.json");
          match r with inr e => Ret (inr ("drop the archived .dylaris.json: " +:+ e)) | inl _ => Ret (inl tt) end
      end
  end.

(** What is unpacked, or why not; the temporary archive goes either way. *)
Definition receive (uuid path : string) (expectedSize : Z) (pullFailed : string) (pulls : Z -> handler bool) : handler (result unit) :=
  budget ← call (DiskBudget path);
  if (0 <? expectedSize) && (Z.quot budget 2 <? expectedSize)
  then Ret (inr "not enough free space on the target node to receive and unpack the move") else
  budget ← call (DiskBudget path);
  let maxBytes := pullCap expectedSize budget in
  _ ← call (InflightAdd maxBytes);
  ok ← pulls maxBytes;
  _ ← call (InflightAdd (- maxBytes));
  r ← (if negb (ok : bool) then Ret (inr pullFailed) else
       r ← resetMigrationTarget path uuid;
       match r with
       | inr e => Ret (inr ("cannot clear the target directory: " +:+ e))
       | inl _ =>
           r ← extractMovedServer path uuid;
           match r with
           | inr e => _ ← call (RemoveAllDir path uuid); Ret (inr ("extract failed: " +:+ e))
           | inl _ => Ret (inl tt)
           end
       end : handler (result unit));
  _ ← call (RemoveTmp path uuid);
  Ret r.

Definition receiveMovedServer (uuid progress path : string) (expectedSize : Z) (pullFailed : string) (pulls : Z -> handler bool) : handler unit :=
  _ ← call (Report progress "transferring");
  r ← receive uuid path expectedSize pullFailed pulls;
  match r with
  | inl _ => (setMigrationStatus progress "transferred" "")
  | inr e => (setMigrationStatus progress "error" e)
  end.

(** [ip.IsLoopback] and its like, on the 16-byte value of [ParseIP]. *)
Definition IsLoopback (ip : Z) : bool := match To4 ip with Some v => v / 2 ^ 24 =? 127 | None => ip =? 1 end.
Definition IsLinkLocalUnicast (ip : Z) : bool := match To4 ip with Some v => v / 2 ^ 16 =? 169 * 256 + 254 | None => ip / 2 ^ 118 =? 1018 end.
Definition IsLinkLocalMulticast (ip : Z) : bool := match To4 ip with Some v => v / 2 ^ 8 =? (224 * 256 + 0) * 256 + 0 | None => (ip / 2 ^ 120 =? 255) && ((ip / 2 ^ 112) mod 16 =? 2) end.
Definition IsMulticast (ip : Z) : bool := match To4 ip with Some v => v / 2 ^ 28 =? 14 | None => ip / 2 ^ 120 =? 255 end.
Definition IsUnspecified (ip : Z) : bool := match To4 ip with Some v => v =? 0 | None => ip =? 0 end.

Definition pullableEndpoint (endpoint : string) : bool :=
  match SplitHostPort endpoint with
  | None => false
  | Some (host, port) =>
      match Atoi port with
      | None => false
      | Some n =>
          if (n <? 1) || (65535 <? n) || negb (Itoa n =? port)%string then false
          else match ParseIP host with
               | None => false
               | Some ip => negb (IsLoopback ip) && negb (IsLinkLocalUnicast ip) && negb (IsLinkLocalMulticast ip)
                            && negb (IsUnspecified ip) && negb (IsMulticast ip)
               end
      end
  end.

Definition isRFC1918 (ip : option Z) : bool :=
  match ip with
  | None => false
  | Some ip => if IsLoopback ip then false else match To4 ip with None => false | Some v => IsPrivate4 v end
  end.

Definition maxLANCandidates : nat := 8.

(** [net.JoinHostPort] of a host without colons is host:port. *)
Definition JoinHostPort (host port : string) : string :=
  if has_char ":" host || has_char "%" host then "[" +:+ host +:+ "]:" +:+ port else host +:+ ":" +:+ port.

Fixpoint lan_candidates (port : string) (ips out : list string) : list string :=
  match ips with
  | [] => out
  | ip :: ips =>
      if negb (isRFC1918 (ParseIP (TrimSpace ip))) then lan_candidates port ips out else
      let hp := JoinHostPort (TrimSpace ip) port in
      if existsb (String.eqb hp) out then lan_candidates port ips out else
      let out := out ++ [hp] in
      if Nat.eqb (length out) maxLANCandidates then out else lan_candidates port ips out
  end.

Definition lanCandidates (overlayEndpoint : string) (privateIPs : list string) : list string :=
  let port := match SplitHostPort overlayEndpoint with
              | Some (_, p) => if (p =? "")%string then "25522" else p
              | None => "25522"
              end in
  lan_candidates port privateIPs [].

Fixpoint chooseMigrationHost (candidates : list string) (token : string) : handler string :=
  match candidates with
  | [] => Ret ""
  | hp :: candidates =>
      ok ← call (Probe hp token);
      if ok : bool then Ret hp else chooseMigrationHost candidates token
  end.

(** A transfer claims the server for as long as it runs. *)
Definition claimed (uuid progress : string) (body : handler unit) : handler unit :=
  got ← call (Claim uuid);
  if negb got then setMigrationStatus progress "error" "an earlier transfer of this server is still running on the target" else
  _ ← body;
  _ ← call (Release uuid);
  Ret tt.

(** The last part of both transfers: a place of its own, marked, and the data. *)
Definition land (uuid progress : string) (expectedSize : Z) (pullFailed : string) (pulls : string -> Z -> handler bool) : handler unit :=
  refused ← refuseIfStorageShared uuid progress;
  if refused : bool then Ret tt else
  sel ← call (SelectStoragePath uuid);
  match sel with
  | inr e => setMigrationStatus progress "error" ("storage selection failed: " +:+ e)
  | inl path =>
      _ ← call (MarkMovedIn path uuid progress);
      receiveMovedServer uuid progress path expectedSize pullFailed (pulls path)
  end.

Definition handleMigrateIn (uuid progress sourceNodeID token expectedSha256 : string) (expectedSize : Z)
    (sourcePrivateIPs : list string) : handler unit :=
  if (sourceNodeID =? "")%string || (token =? "")%string || (expectedSha256 =? "")%string
  then setMigrationStatus progress "error" "missing migrate_in parameters" else
  claimed uuid progress (
    discarded ← refuseDiscardedAttempt uuid progress;
    if discarded : bool then Ret tt else
    endpoint ← call (GetEndpoint sourceNodeID);
    if (endpoint =? "")%string then setMigrationStatus progress "error" "source endpoint unavailable" else
    if negb (pullableEndpoint endpoint) then setMigrationStatus progress "error" "source endpoint is not a usable address" else
    chosen ← (if sourcePrivateIPs then Ret endpoint else chooseMigrationHost (lanCandidates endpoint sourcePrivateIPs) token);
    if (chosen =? "")%string then setMigrationStatus progress "need_remote" "" else
    land uuid progress expectedSize "pull from the source node failed"
      (fun path maxBytes => Pull ("http://" +:+ chosen +:+ "/migration") token expectedSha256 path uuid 3 maxBytes)).

Definition handleMigratePullR2 (uuid progress getURL expectedSha256 : string) (expectedSize : Z) : handler unit :=
  if (getURL =? "")%string || (expectedSha256 =? "")%string
  then setMigrationStatus progress "error" "missing pull_r2 parameters" else
  claimed uuid progress (
    discarded ← refuseDiscardedAttempt uuid progress;
    if discarded : bool then Ret tt else
    land uuid progress expectedSize "download from transfer storage failed"
      (fun path maxBytes => Pull getURL "" expectedSha256 path uuid 3 maxBytes)).

(** ** Undoing (target and source) *)

Definition handleMigrateAbort (uuid : string) : handler unit :=
  _ ← call (AbortAdd uuid);
  path ← call (GetServerPath uuid);
  if (path =? "")%string then Ret tt else
  _ ← call (RemoveArchive path uuid);
  _ ← call (RemoveOrigin path uuid);
  Ret tt.

Definition stagedArchiveMaxAge : Z := 7 * Hour.
Definition migrateDiscardWait : Z := stagedArchiveMaxAge.
Definition discardPoll : Z := 5 * Second.

(** The wait for a running pull: whether the server was claimed. *)
Fixpoint discard_claim (fuel i : nat) (uuid : string) (start wait : Z) : handler bool :=
  match fuel with
  | O => _ ← call NodeUnreachable; Ret false
  | S fuel =>
      got ← call (Claim uuid);
      if got : bool then Ret true else
      now ← call (NodeClock start discardPoll i);
      if start + wait <? now then Ret false else discard_claim fuel (S i) uuid start wait
  end.

Definition discardMovedCopy (uuid progress : string) (wait : Z) : handler unit :=
  start ← call NodeNow;
  got ← discard_claim (turns wait discardPoll) 0 uuid start wait;
  if negb (got : bool) then Ret tt else
  _ ← (own ← call (OwnContainer uuid);
       if own : bool then Ret tt else
       owner ← sharedStorageOwner uuid;
       if negb (owner =? "")%string then Ret tt else
       path ← call (GetServerPath uuid);
       if (path =? "")%string then Ret tt else
       got ← call (ReadMovedIn path uuid);
       if negb (bool_decide (got = Some progress)) then Ret tt else
       _ ← call (RemoveAllDir path uuid);
       _ ← call (RemoveMovedIn path uuid);
       _ ← call (RemoveServerPath uuid);
       _ ← call (RemoveQuota uuid);
       _ ← call (forgetDiskLimit uuid);
       Ret tt);
  _ ← call (Release uuid);
  Ret tt.

Definition handleMigrateDiscard (uuid progress : string) (wait : Z) : handler unit :=
  if (TrimSpace uuid =? "")%string || (progress =? "")%string then Ret tt else
  path ← call (GetServerPath uuid);
  _ ← (if (path =? "")%string then Ret tt else _ ← call (WriteDiscard path uuid progress); Ret tt);
  discardMovedCopy uuid progress wait.

Definition handleMigrateCleanup (uuid : string) : handler unit :=
  path ← call (GetServerPath uuid);
  if (path =? "")%string then setMigrationStatus uuid "error" "storage path not found" else
  got ← call (Claim uuid);
  if negb got then Ret tt else
  _ ← (_ ← call (PowerDelete uuid);
       r ← call (RemoveAllDir path uuid);
       match r with
       | inr e => setMigrationStatus uuid "error" ("cleanup failed: " +:+ e)
       | inl _ =>
           _ ← call (RemoveArchive path uuid);
           _ ← call (RemoveOrigin path uuid);
           _ ← call (RemoveServerPath uuid);
           _ ← call (RemoveQuota uuid);
           _ ← call (forgetDiskLimit uuid);
           Ret tt
       end);
  _ ← call (Release uuid);
  Ret tt.

(** ** Upload of the staged archive (source) *)

Definition handleMigratePushR2 (uuid progress putURL : string) (partURLs : list string) (partSize : Z) : handler unit :=
  if (putURL =? "")%string && (if partURLs then true else false)
  then setMigrationStatus progress "error" "missing push_r2 url" else
  path ← call (GetServerPath uuid);
  if (path =? "")%string then setMigrationStatus progress "error" "storage path not found" else
  there ← call (StatArchive path uuid);
  if negb there then setMigrationStatus progress "error" "staged archive missing" else
  _ ← call (TouchArchive path uuid);
  _ ← call (Report progress "pushing");
  r ← call (PutArchive path uuid putURL partURLs partSize);
  match r with
  | PutFailed => setMigrationStatus progress "error" "upload to transfer storage failed"
  | PutOverSingle =>
      setMigrationStatus progress "error"
        "the server's archive is larger than the 5 GiB one upload can carry, and this Core cannot upload in parts: update Core"
  | PutOK => _ ← call (TouchArchive path uuid); setMigrationStatus progress "pushed" ""
  end.

(** ** Dispatch (src/node/main.go) *)

Definition apply_limit (uuid : string) (limitMB : Z) (grace : string) : handler unit :=
  dir ← call (GetServerDir uuid); _ ← call (applyMovedDiskLimit dir uuid limitMB grace); Ret tt.

(** The commands a move sends; the others do not touch the server's directory. *)
Definition handle (uuid : string) (cmd : command) : handler unit :=
  match cmd with
  | MigrateOut attempt issuedAt =>
      let progress := MigrationProgressID uuid attempt in
      now ← call NodeNow;
      stale ← dropStaleMigrateOut progress issuedAt now;
      if stale : bool then Ret tt else handleMigrateOut uuid progress
  | MigrateIn attempt sourceNodeID token sha size ips limit grace =>
      _ ← handleMigrateIn uuid (MigrationProgressID uuid attempt) sourceNodeID token sha size ips;
      apply_limit uuid limit grace
  | MigrateCleanup => handleMigrateCleanup uuid
  | MigrateAbort => handleMigrateAbort uuid
  | MigrateDiscard attempt _ => handleMigrateDiscard uuid (MigrationProgressID uuid attempt) migrateDiscardWait
  | MigratePushR2 attempt putURL partURLs partSize =>
      handleMigratePushR2 uuid (MigrationProgressID uuid attempt) putURL partURLs (match partSize with Some n => n | None => 0 end)
  | MigratePullR2 attempt getURL sha size limit grace =>
      _ ← handleMigratePullR2 uuid (MigrationProgressID uuid attempt) getURL sha size;
      apply_limit uuid limit grace
  | Stop | Start | Reconfigure _ _ _ => Ret tt
  end.
End handlers.
