(* ===== verification/Moves.v ===== *)
(** * The protocol of a move (over Migration.v and MigrationNode.v)

    Core's [Migrate] and the handlers of the nodes are programs of many calls;
    what makes a move safe is the order of a few of them. [pstep] and [pguard]
    are that order on Core's side as a monitor: when a command may be sent, when
    the server may be pointed at another node, when its status may change.
    [nstep] and [nguard] are the order on a node. The file shows that the
    programs keep to the two monitors on every branch, and that a move ends. *)

From Stdlib Require Import Ascii String.
From S2P Require Import Prelude GoStrings Programs Release Migration MigrationNode.
Open Scope string_scope.
Open Scope list_scope.
Open Scope Z_scope.

Notation length := List.length.

(** ** Core *)

Inductive stage :=
| Loading                        (* nothing of the move has been sent *)
| Stopping                       (* the source was told to stop the server *)
| Marked                         (* "migrating" was written *)
| Staging                        (* migrate_out was sent *)
| Staged (sha : string)          (* the source published its archive's hash *)
| Fetching (sha : string)        (* migrate_in was sent *)
| Remote (sha : string)          (* the target asked for the other transport *)
| FetchingR2 (sha : string)      (* migrate_pull_r2 was sent *)
| Arrived                        (* the target reported "transferred" *)
| Cut                            (* the server was pointed at the target *)
| Moved                          (* ... and released there *)
| Back                           (* the cutover failed, or was taken back *)
| Discarding                     (* the target was told to discard the copy *)
| Over                           (* ... and the server was given back: rolled back *)
| Dropped                        (* given back without a rollback *)
| Closed.                        (* pointed at the target, and the way back failed *)

(** What [Migrate] has read and where it is. *)
Record proto := mkProto {
  pr_srv : option server; pr_src : option node; pr_tgt : option node; pr_attempt : option string; pr_stage : stage }.

Definition proto0 : proto := mkProto None None None None Loading.

Definition to_stage (s : proto) (st : stage) : proto := mkProto (pr_srv s) (pr_src s) (pr_tgt s) (pr_attempt s) st.

(** A status other than "migrating" gives the server back. *)
Definition released (st : stage) : stage :=
  match st with
  | Loading => Loading
  | Cut | Moved => Moved
  | Closed => Closed
  | Discarding | Over => Over
  | _ => Dropped
  end.

Definition on_publish (cmd : command) (st : stage) : stage :=
  match cmd, st with
  | MigrateOut _ _, Marked => Staging
  | MigrateIn _ _ _ _ _ _ _ _, Staged sha => Fetching sha
  | MigratePullR2 _ _ _ _ _ _, Remote sha => FetchingR2 sha
  | Stop, Loading => Stopping
  | MigrateDiscard _ _, _ => Discarding
  | _, _ => st
  end.

Definition on_phase (phase : string) (st : stage) : stage :=
  match st with
  | Fetching sha => if (phase =? "transferred")%string then Arrived else if (phase =? "need_remote")%string then Remote sha else st
  | FetchingR2 sha => if (phase =? "transferred")%string then Arrived else st
  | _ => st
  end.

Definition on_flip (ok : bool) (st : stage) : stage :=
  match st with
  | Arrived => if ok then Cut else Back
  | Cut => if ok then Back else Closed
  | _ => st
  end.

Definition pstep (s : proto) (c : cop) : cans c -> proto :=
  match c with
  | GetServerByID _ => fun a =>
      match pr_srv s with Some _ => s | None => mkProto a (pr_src s) (pr_tgt s) (pr_attempt s) (pr_stage s) end
  | GetNodeByID _ => fun a =>
      match pr_src s, pr_tgt s with
      | None, _ => mkProto (pr_srv s) a (pr_tgt s) (pr_attempt s) (pr_stage s)
      | Some _, None => mkProto (pr_srv s) (pr_src s) a (pr_attempt s) (pr_stage s)
      | Some _, Some _ => s
      end
  | RandRead6 => fun a => mkProto (pr_srv s) (pr_src s) (pr_tgt s) (Some (hex_encode 12 a)) (pr_stage s)
  | UpdateServerStatus _ st => fun _ =>
      to_stage s (if (st =? "migrating")%string then match pr_stage s with Loading | Stopping => Marked | Discarding => Over | x => x end else released (pr_stage s))
  | Publish _ _ _ cmd => fun _ => to_stage s (on_publish cmd (pr_stage s))
  | GetNodeMeta _ _ => fun a =>
      match a, pr_stage s with
      | Some m, Staging => to_stage s (if (nm_SHA256 m =? "")%string then Staging else Staged (nm_SHA256 m))
      | _, _ => s
      end
  | GetNodeStatus _ _ => fun a => match a with Some st => to_stage s (on_phase (ns_Phase st) (pr_stage s)) | None => s end
  | UpdateServerNode _ _ => fun ok => to_stage s (on_flip ok (pr_stage s))
  | _ => fun _ => s
  end.

(** Who moves from where to where, as which attempt. *)
Definition who (s : proto) (srv : server) (src tgt : node) (k : string) : Prop :=
  pr_srv s = Some srv /\ pr_src s = Some src /\ pr_tgt s = Some tgt /\ pr_attempt s = Some k /\ k <> "" /\ nd_ID tgt <> nd_ID src.

(** When a command may be sent, and to whom. *)
Definition may_send (srv : server) (src tgt : node) (k : string) (st : stage) (token : string) (cmd : command) : Prop :=
  match cmd with
  | MigrateOut k' _ => st = Marked /\ token = nd_Token src /\ k' = k
  | MigrateIn k' from _ sha _ _ _ _ => st = Staged sha /\ token = nd_Token tgt /\ k' = k /\ from = nd_Token src
  | MigratePullR2 k' _ sha _ _ _ => st = Remote sha /\ token = nd_Token tgt /\ k' = k
  | MigrateDiscard k' _ => st <> Cut /\ st <> Moved /\ st <> Closed /\ token = nd_Token tgt /\ k' = k
  | MigrateCleanup => st = Moved /\ token = nd_Token src
  | Stop => st = Loading /\ token = nd_Token src
  | MigratePushR2 k' _ _ _ => token = nd_Token src /\ k' = k
  | MigrateAbort => st <> Cut /\ st <> Moved /\ st <> Closed /\ token = nd_Token src
  | Start => st = Over /\ token = nd_Token src
  | Reconfigure _ _ _ => st = Cut /\ token = nd_Token tgt
  end.

Definition pguard (s : proto) (c : cop) : Prop :=
  match c with
  | GetNodeByID id => pr_src s = None -> exists srv, pr_srv s = Some srv /\ id = sv_NodeID srv
  | RandRead6 => pr_attempt s = None /\ pr_stage s = Loading
  | Publish _ token uuid cmd =>
      exists srv src tgt k, who s srv src tgt k /\ uuid = sv_UUID srv /\ may_send srv src tgt k (pr_stage s) token cmd
  | GetNodeMeta token progress =>
      exists srv src tgt k, who s srv src tgt k /\ token = nd_Token src /\ progress = MigrationProgressID (sv_UUID srv) k
  | GetNodeStatus token progress =>
      exists srv src tgt k, who s srv src tgt k /\ progress = MigrationProgressID (sv_UUID srv) k /\
        match pr_stage s with Fetching _ | FetchingR2 _ => token = nd_Token tgt | _ => token = nd_Token src end
  | UpdateServerNode id n =>
      exists srv src tgt k, who s srv src tgt k /\ id = sv_ID srv /\
        (pr_stage s = Arrived /\ n = nd_ID tgt \/ pr_stage s = Cut /\ n = nd_ID src)
  | UpdateServerStatus _ st => st = "migrating" -> pr_stage s = Loading \/ pr_stage s = Stopping \/ pr_stage s = Discarding
  | _ => True
  end.

Notation keeps s p Q := (monitored pstep pguard s p Q).

(** A call the monitor does not look at. *)
Definition unseen (c : cop) : bool :=
  match c with
  | GetServerByID _ | GetNodeByID _ | RandRead6 | Publish _ _ _ _ | GetNodeMeta _ _ | GetNodeStatus _ _ | UpdateServerNode _ _
  | UpdateServerStatus _ _ => false
  | _ => true
  end.

Lemma unseen_call {A} s c (k : cans c -> move A) Q :
  unseen c = true -> (forall a, keeps s (k a) Q) -> keeps s (call c ≫= k) Q.
Proof. intros Hu H. apply monitored_call; [by destruct c|]. intros a. destruct c; try done; apply H. Qed.

Ltac skip := apply unseen_call; [reflexivity|intros].

(** A part of unseen calls leaves the monitor where it was. *)
Lemma unseen_bind {A B} s (p : move A) (f : A -> move B) Q :
  keeps s p (fun s' _ => s' = s) -> (forall a, keeps s (f a) Q) -> keeps s (p ≫= f) Q.
Proof. intros Hp Hf. eapply monitored_part; [exact Hp|]. by intros s' a ->. Qed.

Ltac unseen_part := apply unseen_bind; [|intros].

Lemma gateway_unseen s : keeps s gatewayEnabled (fun s' _ => s' = s).
Proof. by unfold gatewayEnabled; skip. Qed.

Lemma routing_unseen s : keeps s GatewayRoutingEnabled (fun s' _ => s' = s).
Proof. by unfold GatewayRoutingEnabled; skip. Qed.

Lemma direct_unseen s srv : keeps s (DirectMoveProblem srv) (fun s' _ => s' = s).
Proof. unfold DirectMoveProblem. unseen_part; [apply routing_unseen|]. done. Qed.

Lemma kept_unseen s srv t : keeps s (keptHostPort srv t) (fun s' _ => s' = s).
Proof.
  unfold keptHostPort. unseen_part; [apply gateway_unseen|]. destruct (_ || _); [done|]. skip. destruct a0; [|done].
  destruct (negb _); [done|]. skip. by destruct a0.
Qed.

Lemma grace_unseen s src tgt u : keeps s (movedDiskGrace src tgt u) (fun s' _ => s' = s).
Proof. unfold movedDiskGrace. destruct (Kind src), (Kind tgt); try case_bool_decide; try done; by split. Qed.

Lemma presignTTL_unseen s b : keeps s (presignTTL b) (fun s' _ => s' = s).
Proof. by unfold presignTTL; skip. Qed.

Lemma padding_unseen s a b : keeps s (EffectiveRAMPaddingMB a b) (fun s' _ => s' = s).
Proof. unfold EffectiveRAMPaddingMB. destruct a; [done|]. destruct b; [done|]. by skip. Qed.

Lemma pinning_unseen s b srv src tgt : keeps s (reResolvePinningForTarget b srv src tgt) (fun s' _ => s' = s).
Proof.
  unfold reResolvePinningForTarget. destruct b; [|done]. cbn [negb]. destruct (_ =? "auto")%string; [by skip; skip|].
  destruct (_ =? "manual")%string; [|done]. skip. skip. unseen_part; [destruct (_ && _); [by split|done]|].
  destruct a1; [done|]. by skip.
Qed.

Lemma timeout_unseen s p u : keeps s (timeoutReason p u) (fun s' _ => s' = s).
Proof. unfold timeoutReason. destruct (negb _); [done|]. by skip. Qed.

Lemma lock_unseen fuel i s u by' start : keeps s (lock_loop fuel i u by' start) (fun s' _ => s' = s).
Proof.
  revert i. induction fuel as [|fuel IH]; intros i; [done|]. cbn [lock_loop]. skip. destruct a as [[|]|]; [done| |by skip].
  skip. destruct (negb _); [done|]. skip. destruct a0; [apply IH|done].
Qed.

Lemma hold_unseen s u by' : keeps s (holdMigrationLock u by') (fun s' _ => s' = s).
Proof. unfold holdMigrationLock. skip. apply lock_unseen. Qed.

(** The first read of the row is kept. *)
Lemma get_server s srv id : pr_srv s = Some srv -> forall a, pstep s (GetServerByID id) a = s.
Proof. intros E a. cbn. by rewrite E. Qed.

Lemma poll_db_unseen fuel i s srv id start timeout done :
  pr_srv s = Some srv -> keeps s (pollDBStatus fuel i id start timeout done) (fun s' _ => s' = s).
Proof.
  intros E. revert i. induction fuel as [|fuel IH]; intros i; [done|]. cbn [pollDBStatus].
  apply monitored_call; [done|]. intros a. rewrite (get_server _ _ _ E).
  unseen_part; [destruct a as [s'|]; [|done]; destruct (done _); [done|]; by skip|].
  destruct a0; [done|]. skip. destruct (_ <? _); [done|]. skip. destruct a1; [apply IH|done].
Qed.

Lemma wait_db_unseen s srv id timeout done : pr_srv s = Some srv -> keeps s (waitForDB id timeout done) (fun s' _ => s' = s).
Proof. intros E. unfold waitForDB. skip. by eapply poll_db_unseen. Qed.

Lemma to_stage_same s : to_stage s (pr_stage s) = s.
Proof. by destruct s. Qed.

(** Waiting for a node's phase moves the monitor by the phase it ends with. *)
Lemma poll_phase_keeps fuel i s tok pg accept start timeout dl lp lb :
  pguard s (GetNodeStatus tok pg) ->
  (forall ph, accept ph = false -> on_phase ph (pr_stage s) = pr_stage s) -> on_phase lp (pr_stage s) = pr_stage s ->
  keeps s (pollNodePhase fuel i tok pg accept start timeout dl lp lb) (fun s' r => s' = to_stage s (on_phase r.1 (pr_stage s))).
Proof.
  intros Hg Ha. revert i dl lp lb. induction fuel as [|fuel IH]; intros i dl lp lb Hl.
  { cbn. by rewrite Hl, to_stage_same. }
  cbn [pollNodePhase]. apply monitored_call; [done|]. intros raw.
  assert (Hrest : forall s0 dl ph by', s0 = s -> on_phase ph (pr_stage s) = pr_stage s ->
    keeps s0 (c ← call (ExistsCancel (MigrationProgressServer pg));
      if c : bool then Ret (ph, "cancelled by admin") else
      now ← call (Clock start migrationPollInterval i);
      if dl <? now then why ← timeoutReason ph (MigrationProgressServer pg); Ret (ph, why) else
      t ← call Tick;
      if t : bool then pollNodePhase fuel (S i) tok pg accept start timeout dl ph by'
      else Ret (ph, "context cancelled")) (fun s' r => s' = to_stage s (on_phase r.1 (pr_stage s)))).
  { intros s0 d ph b -> Hp. skip. destruct a; [cbn; by rewrite Hp, to_stage_same|]. skip. destruct (d <? a).
    - unseen_part; [apply timeout_unseen|]. cbn. by rewrite Hp, to_stage_same.
    - skip. destruct a0; [by apply IH|]. cbn. by rewrite Hp, to_stage_same. }
  destruct raw as [st|]; cbn [pstep]; [|unseen_part; [done|]; by apply Hrest].
  apply unseen_bind; [destruct (_ =? _); [done|by skip]|]. intros d. destruct (accept (ns_Phase st)) eqn:Ea; [done|].
  assert (Hs : to_stage s (on_phase (ns_Phase st) (pr_stage s)) = s) by by rewrite Ha, to_stage_same.
  destruct (ns_Phase st =? "error")%string; [done|]. apply Hrest; [done|by apply Ha].
Qed.

Lemma wait_any_keeps s tok pg accept timeout :
  pguard s (GetNodeStatus tok pg) ->
  (forall ph, accept ph = false -> on_phase ph (pr_stage s) = pr_stage s) ->
  keeps s (waitForNodePhaseAny tok pg accept timeout) (fun s' r => s' = to_stage s (on_phase r.1 (pr_stage s))).
Proof.
  intros Hg Ha. unfold waitForNodePhaseAny. skip. apply poll_phase_keeps; [done|done|].
  by destruct (pr_stage s).
Qed.

(** The source is waited on in the stages where the target is not. *)
Lemma wait_source_keeps s tok pg want timeout :
  pguard s (GetNodeStatus tok pg) -> (forall ph, on_phase ph (pr_stage s) = pr_stage s) ->
  keeps s (waitForNodePhase tok pg want timeout) (fun s' _ => s' = s).
Proof.
  intros Hg Hs. eapply monitored_mono; [|apply wait_any_keeps; [done|by intros ph _]].
  cbn. intros s' r ->. by rewrite Hs, to_stage_same.
Qed.

(** ** The steps *)

Lemma hex_nonempty n b : hex_encode (S n) b <> "".
Proof. done. Qed.

Ltac mcbn := cbn [monitored pstep to_stage pr_stage pr_srv pr_src pr_tgt pr_attempt released on_publish on_flip].

Section steps.
Context (m : moving).
Local Notation srv := (mv_srv m).
Local Notation src := (mv_src m).
Local Notation tgt := (mv_tgt m).
Local Notation k := (mv_attempt m).

Definition this (s : proto) : Prop := who s srv src tgt k.

Lemma this_stage s st : this s -> this (to_stage s st).
Proof. done. Qed.

Lemma this_publish s bg tok cmd :
  this s -> may_send srv src tgt k (pr_stage s) tok cmd -> pguard s (Publish bg tok (sv_UUID srv) cmd).
Proof. intros H1 H2. by exists srv, src, tgt, k. Qed.

(** A rollback ends the move from every stage before the cutover. *)
Definition can_roll_back (st : stage) : Prop := st <> Cut /\ st <> Moved /\ st <> Closed.

Lemma rollback_keeps s b pre reason :
  this s -> can_roll_back (pr_stage s) ->
  keeps s (rollbackPreCutover m b pre reason) (fun s' _ => s' = to_stage s Over).
Proof.
  intros Ht Hst. pose proof Ht as (_ & _ & _ & _ & Hk & _). destruct Hst as (H1 & H2 & H3).
  unfold rollbackPreCutover. apply monitored_call; [by apply this_publish|]. intros ?.
  assert (E : to_stage s (on_publish MigrateAbort (pr_stage s)) = s) by (cbn; apply to_stage_same).
  cbn [pstep]. rewrite E. apply String.eqb_neq in Hk. rewrite Hk. cbn [negb].
  eapply monitored_part with (P := fun s' _ => s' = to_stage s Discarding).
  { skip. apply monitored_call; [by apply this_publish|]. intros r. done. }
  intros s' [] ->.
  eapply monitored_part with (P := fun s' _ => s' = to_stage s Over).
  { destruct b.
    - skip. apply monitored_call; [done|]. intros ?. apply monitored_call; [by apply this_publish|]. by intros ?.
    - apply monitored_call; [by right; right|]. intros ?. mcbn. by destruct (pre =? _)%string. }
  intros s' [] ->. skip. by destruct a0; split.
Qed.

Definition ended_stage (st : stage) : Prop := st = Over \/ st = Moved \/ st = Closed.

Lemma after_keeps b kept was pre s :
  this s -> pr_stage s = Cut -> keeps s (afterCutover b m kept was pre) (fun s' _ => s' = to_stage s Moved).
Proof.
  intros Ht Hst. pose proof Ht as (Hsrv & _). unfold afterCutover. skip. unseen_part; [apply pinning_unseen|].
  unseen_part; [apply padding_unseen|]. apply monitored_call; [apply this_publish; [done|by rewrite Hst]|]. intros conf.
  assert (E : pstep s (Publish true (nd_Token tgt) (sv_UUID srv) (Reconfigure (sv_OwnerID srv) (sv_ActiveSubServer srv)
    (mkDocker (sv_GameImage srv) (sv_Memory srv) a1 (sv_CPULimit srv) a0 (sv_Timezone srv)
       (TrimSpace (DefaultJvmFlags +:+ " " +:+ sv_ExtraJvmFlags srv)) (if 0 <? kept then Some kept else None)
       (if 0 <? sv_ContainerPort srv then Some (sv_ContainerPort srv) else None)))) conf = s).
  { cbn. apply to_stage_same. }
  rewrite E. clear E.
  eapply monitored_part with (P := fun s' _ => s' = to_stage s Moved).
  { destruct conf as [u|e]; [destruct was|].
    - apply monitored_call; [done|]. intros ?. mcbn. rewrite Hst. skip. unfold writeStatus. skip.
      unseen_part; [by eapply wait_db_unseen|]. done.
    - apply monitored_call; [by destruct (_ =? _)%string|]. intros ?. skip. mcbn. rewrite Hst. by destruct (pre =? _)%string.
    - apply monitored_call; [by destruct (_ =? _)%string|]. intros ?. skip. unfold writeStatus. mcbn. rewrite Hst.
      by destruct (pre =? _)%string. }
  intros s' [] ->. apply monitored_call; [by apply this_publish|]. intros ?. cbn.
  by destruct conf; [split|].
Qed.

(** The move ended, or never left [Loading]. *)
Definition ends (s s' : proto) : Prop := exists st, s' = to_stage s st /\ ended_stage st.

Lemma rollback_ends s b pre reason :
  this s -> can_roll_back (pr_stage s) -> keeps s (rollbackPreCutover m b pre reason) (fun s' _ => ends s s').
Proof. intros Ht Hs. eapply monitored_mono; [|by apply rollback_keeps]. cbn. intros s' u ->. exists Over. split; [done|by left]. Qed.

Lemma cutover_ends b s was pre :
  this s -> pr_stage s = Arrived -> keeps s (cutover b m was pre) (fun s' _ => ends s s').
Proof.
  intros Ht Hst. unfold cutover. unseen_part; [apply kept_unseen|].
  apply monitored_call; [exists srv, src, tgt, k; repeat split; try apply Ht; by left|]. intros ok. mcbn. rewrite Hst.
  destruct ok; mcbn; cbn [negb].
  2: { eapply monitored_mono; [|apply rollback_ends; [done|by repeat split]]. cbn. intros s' u (st & -> & Hs). by exists st. }
  unseen_part; [apply gateway_unseen|]. unseen_part; [by destruct a0; [split|]|]. destruct a1 as [u|e].
  - eapply monitored_mono; [|by apply after_keeps]. cbn. intros s' v ->. exists Moved. split; [done|by right; left].
  - apply monitored_call; [exists srv, src, tgt, k; repeat split; try apply Ht; by right|]. intros back. mcbn.
    destruct back; mcbn.
    + skip. eapply monitored_mono; [|apply rollback_ends; [done|by repeat split]]. cbn. intros s' u (st & -> & Hs). by exists st.
    + apply monitored_call; [done|]. intros ?. mcbn. skip. unfold writeStatus. split; [done|]. intros ?. mcbn.
      exists Closed. split; [done|by right; right].
Qed.

(** *** Through object storage *)

Lemma sign_unseen n p key up ttl urls s : keeps s (sign_parts n p key up ttl urls) (fun s' _ => s' = s).
Proof.
  revert p urls. induction n as [|n IH]; intros p urls; [done|]. cbn [sign_parts]. skip. destruct a; [apply IH|]. by skip.
Qed.

Lemma presign_unseen key size ttl s : keeps s (presignMigrationParts key size ttl) (fun s' _ => s' = s).
Proof.
  unfold presignMigrationParts. destruct (_ <=? _); [done|]. destruct (_ <? _); [done|]. skip. destruct a; [|done].
  destruct (_ <? 0); [done|]. apply sign_unseen.
Qed.

Lemma open_unseen bs s : keeps s (openTransferStorage bs) (fun s' _ => s' = s).
Proof. unfold openTransferStorage. destruct bs; [|done]. destruct (_ || _); [|done]. by skip. Qed.

(** Where the transfer leaves the monitor. *)
Definition fetched (s : proto) (s' : proto) (r : transferResult) : Prop :=
  exists st, s' = to_stage s st /\ can_roll_back st /\ st <> Loading /\ (r = Transferred -> st = Arrived).

Lemma fetched_same s r : can_roll_back (pr_stage s) -> pr_stage s <> Loading -> r <> Transferred -> fetched s s r.
Proof. intros H1 H2 H3. exists (pr_stage s). rewrite to_stage_same. by repeat split; try apply H1. Qed.

Lemma legs_keeps key up put urls ttl sha size s :
  this s -> pr_stage s = Remote sha ->
  keeps s (r2_legs m key up put urls ttl sha size) (fun s' r => fetched s s' r.1).
Proof.
  intros Ht Hst. assert (Hr : can_roll_back (pr_stage s) /\ pr_stage s <> Loading) by by rewrite Hst.
  assert (Hno : forall e, fetched s s (TransferFailed e)) by (intros; by apply fetched_same; try apply Hr).
  unfold r2_legs. apply monitored_call; [by apply this_publish|]. intros sent.
  assert (E : forall cmd, on_publish cmd (pr_stage s) = pr_stage s -> to_stage s (on_publish cmd (pr_stage s)) = s).
  { intros cmd ->. apply to_stage_same. }
  cbn [pstep]. rewrite E by by rewrite Hst. destruct sent as [u|e]; [|apply Hno].
  unseen_part; [apply wait_source_keeps; [exists srv, src, tgt, k; by rewrite Hst|by rewrite Hst]|].
  destruct (negb _); [apply Hno|].
  unseen_part; [destruct (up =? "")%string; [done|]; skip; destruct a0; [by skip|done]|].
  destruct a0 as [completed|e]; [|apply Hno]. skip. skip. destruct a1 as [u'|e]; [|apply Hno]. skip.
  destruct a1 as [get|e]; [|apply Hno]. destruct (get =? "")%string; [apply Hno|].
  unseen_part; [apply grace_unseen|]. apply monitored_call; [apply this_publish; [done|by rewrite Hst]|]. intros sent.
  mcbn. rewrite Hst. destruct sent as [u2|e].
  2: { cbn. exists (FetchingR2 sha). by repeat split. }
  eapply monitored_part.
  { apply wait_any_keeps; [exists srv, src, tgt, k; by repeat split; try apply Ht|].
    intros ph Hp. cbn in *. by rewrite Hp. }
  cbn. intros s' [ph msg] ->. cbn. destruct (ph =? "transferred")%string; cbn.
  - exists Arrived. by repeat split.
  - exists (FetchingR2 sha). by repeat split.
Qed.

Lemma transfer_r2_keeps sha size s :
  this s -> pr_stage s = Remote sha -> keeps s (transferViaR2 m sha size) (fun s' r => fetched s s' r).
Proof.
  intros Ht Hst. assert (Hr : can_roll_back (pr_stage s) /\ pr_stage s <> Loading) by by rewrite Hst.
  assert (Hno : forall e, fetched s s (TransferFailed e)) by (intros; by apply fetched_same; try apply Hr).
  unfold transferViaR2. skip. destruct a as [bs|e]; [|apply Hno]. unseen_part; [apply open_unseen|].
  destruct a as [u|e]; [|apply Hno]. unseen_part; [apply presignTTL_unseen|]. skip. skip. destruct a1 as [u'|e]; [|apply Hno].
  skip. destruct a1 as [put|e]; [|apply Hno]. destruct (put =? "")%string; [apply Hno|].
  eapply monitored_part with (P := fun s' r => fetched s s' r); [|intros s' r H; by skip].
  unfold r2_upload. unseen_part; [apply presign_unseen|]. destruct a1 as [up urls|e|]; [|apply Hno|by apply fetched_same; try apply Hr].
  destruct (up =? "")%string; [eapply monitored_part; [by apply legs_keeps|]; by intros s' [] H|].
  skip. eapply monitored_part with (P := fun s' r => fetched s s' r.1).
  { destruct a1; [by apply legs_keeps|apply Hno]. }
  intros s' [r [|]] H; [done|]. cbn [snd]. apply unseen_bind; [skip; destruct a2; [by skip|done]|]. done.
Qed.

(** A step of [Migrate]: rolled back or moved, unless it panicked. *)
Definition settled (s s' : proto) (panics : bool) : Prop :=
  if panics then exists st, s' = to_stage s st /\ can_roll_back st else ends s s'.

Lemma settled_stage s st s' b : settled (to_stage s st) s' b -> settled s s' b.
Proof. by destruct b. Qed.

Lemma fail_settled s was pre reason :
  this s -> can_roll_back (pr_stage s) ->
  keeps s (_ ← rollbackPreCutover m was pre reason; Ret false) (fun s' b => settled s s' b).
Proof. intros Ht Hs. eapply monitored_part; [by apply rollback_ends|]. done. Qed.

Lemma transfer_settled b s was pre :
  this s -> pr_stage s = Staging -> keeps s (transfer b m was pre) (fun s' r => settled s s' r).
Proof.
  intros Ht Hst. unfold transfer, readMeta. apply monitored_bind.
  apply monitored_call; [exists srv, src, tgt, k; by repeat split; try apply Ht|]. intros raw. cbn [pstep]. rewrite Hst.
  assert (Hfail : forall st s0 reason, s0 = to_stage s st -> can_roll_back st ->
    keeps s0 (_ ← rollbackPreCutover m was pre reason; Ret false) (fun s' b => settled s s' b)).
  { intros st s0 reason -> Hs. eapply monitored_mono; [|by apply fail_settled]. intros s' r. apply settled_stage. }
  assert (Hs : s = to_stage s Staging) by by rewrite <- Hst, to_stage_same.
  destruct raw as [meta|]; [|by eapply Hfail].
  destruct (nm_SHA256 meta =? "")%string; cbn [monitored]; [by eapply Hfail|].
  skip. destruct a as [secret|]; [|by eapply Hfail]. skip. destruct a as [token|]; [|by eapply Hfail].
  unseen_part; [apply grace_unseen|].
  apply monitored_call; [by apply this_publish|]. intros sent. mcbn.
  destruct sent as [u|e]; [|by eapply Hfail].
  eapply monitored_part.
  { apply wait_any_keeps; [exists srv, src, tgt, k; by repeat split; try apply Ht|].
    intros ph Hp. apply orb_false_iff in Hp as [H1 H2]. cbn. by rewrite H1, H2. }
  cbn [pr_stage to_stage]. intros s' [ph msg] ->. cbn [fst snd on_phase].
  eapply monitored_part with (P := fun s' r => fetched s s' r).
  { destruct (ph =? "need_remote")%string eqn:En.
    - assert ((ph =? "transferred")%string = false) as -> by by apply String.eqb_eq in En as ->. eapply monitored_mono; [|by apply transfer_r2_keeps].
      intros s' r (st & -> & H). by exists st.
    - destruct (ph =? "transferred")%string; cbn; [exists Arrived; by repeat split|].
      exists (Fetching (nm_SHA256 meta)). by repeat split. }
  intros s' r (st & -> & Hc & _ & Harr). destruct r as [|e|]; [|by eapply Hfail|by exists st].
  rewrite (Harr eq_refl). skip. destruct a0; [by eapply Hfail|].
  eapply monitored_part; [by apply cutover_ends|]. done.
Qed.

Lemma stage_settled b s was pre :
  this s -> pr_stage s = Loading \/ pr_stage s = Stopping -> keeps s (Migration.stage b m was pre) (fun s' r => settled s s' r).
Proof.
  intros Ht Hst. unfold Migration.stage. apply monitored_call; [by destruct Hst; [left|right; left]|]. intros ?. mcbn.
  assert (match pr_stage s with Loading | Stopping => Marked | Discarding => Over | x => x end = Marked) as ->
    by by destruct Hst as [-> | ->].
  change ("migrating" =? "migrating")%string with true.
  skip. eapply monitored_part with (P := fun s' r => settled s s' r); [|intros s' r H; by skip].
  unfold writeStatus. skip. skip. apply monitored_call; [by apply this_publish|]. intros sent. mcbn.
  assert (Hfail : forall reason, keeps (to_stage s Staging) (_ ← rollbackPreCutover m was pre reason; Ret false) (fun s' b => settled s s' b)).
  { intros reason. eapply monitored_mono; [|by apply fail_settled]. intros s' r. apply settled_stage. }
  destruct sent as [u|e]; [|apply Hfail].
  unseen_part; [apply wait_source_keeps; [exists srv, src, tgt, k; by repeat split; try apply Ht|done]|].
  destruct (negb _); [apply Hfail|]. eapply monitored_mono; [|by apply transfer_settled]. intros s' r. apply settled_stage.
Qed.

Lemma locked_settled b s pre :
  this s -> pr_stage s = Loading -> keeps s (locked b m pre) (fun s' r => s' = s /\ r = false \/ settled s s' r).
Proof.
  intros Ht Hst. unfold locked. skip. skip. destruct (_ || _); [unfold writeStatus; skip; by left|].
  unfold writeStatus. skip. unseen_part; [destruct (_ && _); [by split|done]|]. destruct (_ <? _); [skip; by left|].
  match goal with |- context [movesAsRunning ?p] => generalize p; intros st end. destruct (movesAsRunning st) eqn:Er.
  2: { eapply monitored_mono; [|by apply stage_settled; [|left]]. intros; by right. }
  cbn [negb]. skip. eapply monitored_part with (P := fun s' _ => s' = to_stage s Stopping).
  { unfold stopServer. skip. apply monitored_call; [done|]. intros ?. mcbn. rewrite Hst. change ("stopping" =? "migrating")%string with false. cbn [released].
    replace (to_stage s Loading) with s by by rewrite <- Hst, to_stage_same.
    split; [apply this_publish; [done|by rewrite Hst]|]. intros ?. mcbn. by rewrite Hst. }
  assert (Hfail : forall reason, keeps (to_stage s Stopping) (_ ← rollbackPreCutover m true st reason; Ret false) (fun s' r => s' = s /\ r = false \/ settled s s' r)).
  { intros reason. eapply monitored_mono; [|by apply fail_settled]. intros s' r H. right. by apply settled_stage in H. }
  intros s' [u|e] ->; [|apply Hfail].
  unseen_part; [eapply wait_db_unseen; apply Ht|]. destruct a4; [|apply Hfail].
  eapply monitored_mono; [|by apply stage_settled; [|right]]. intros s' r H. right. by apply settled_stage in H.
Qed.
End steps.

(** How a run of [Migrate] leaves the monitor. *)
Definition final (s : proto) (r : ended) : Prop :=
  match r with
  | Ended => pr_stage s = Loading \/ ended_stage (pr_stage s)
  | KeptMarker => pr_stage s = Loading
  | Panicked => can_roll_back (pr_stage s)
  end.

Lemma migrate_keeps b req : keeps proto0 (migrate b req) final.
Proof.
  unfold migrate. apply monitored_call; [done|]. intros [srv|]; [|by left]. cbn [pstep proto0 pr_srv].
  apply monitored_call; [by intros _; exists srv|]. intros [src|]; [|skip; skip; by left]. cbn [pstep pr_src pr_tgt].
  apply monitored_call; [done|]. intros [tgt|]; [|skip; skip; by left]. cbn [pstep pr_src pr_tgt].
  skip. unfold writeStatus.
  destruct (_ && _); [skip; by left|]. destruct (negb _); [skip; by left|].
  do 3 (skip; destruct (negb _); [skip; by left|]).
  apply monitored_bind. apply monitored_call; [done|]. intros rnd. cbn [pstep monitored].
  unseen_part; [apply direct_unseen|]. destruct (negb _); [skip; by left|].
  destruct (nd_ID tgt =? nd_ID src) eqn:Ene; [skip; by left|]. apply Z.eqb_neq in Ene. destruct (negb _); [skip; by left|].
  unseen_part; [apply hold_unseen|]. destruct a4; [|done|by left|skip; by left].
  eapply monitored_part; [apply locked_settled; [|done]|].
  { repeat split; [apply hex_nonempty|done]. }
  intros s' r Hs. skip. skip. cbn [monitored]. destruct Hs as [[-> ->]|Hs]; [by left|].
  destruct r; cbn in *.
  - destruct Hs as (st & -> & Hc). exact Hc.
  - destruct Hs as (st & -> & Hc). right. exact Hc.
Qed.

Lemma released_final s r st id : st <> "migrating" -> final s r -> forall a, final (pstep s (UpdateServerStatus id st) a) r.
Proof.
  intros Hne Hf a. apply String.eqb_neq in Hne. cbn [pstep]. rewrite Hne. destruct r; cbn in *.
  - destruct Hf as [->|[->|[->| ->]]]; [by left|right..]; [by left|by right; left|by right; right].
  - by rewrite Hf.
  - unfold can_roll_back in *. destruct (pr_stage s); naive_solver.
Qed.

Lemma backStatus_ok pre : backStatus pre <> "migrating".
Proof.
  unfold backStatus. destruct (pre =? "")%string eqn:E1; [done|]. destruct (pre =? "migrating")%string eqn:E2; [done|].
  cbn. by apply String.eqb_neq.
Qed.

Lemma Migrate_monitored b req : keeps proto0 (Migrate b req) final.
Proof.
  unfold Migrate. eapply monitored_part; [apply migrate_keeps|]. intros s r Hf. skip. destruct (_ || _); [exact Hf|]. skip.
  assert (Hsame : forall a, final (pstep s (GetServerByID (rq_ServerID req)) a) r).
  { intros a1. cbn. by destruct (pr_srv s). }
  apply monitored_call; [done|]. intros [cur|]; [|apply Hsame]. destruct (_ =? "migrating")%string; [|apply Hsame].
  apply monitored_call; [intros E; by apply backStatus_ok in E|]. intros a1. cbn [monitored].
  apply released_final; [apply backStatus_ok|apply Hsame].
Qed.

(** ** Nodes *)

Inductive nstage :=
| NStart
| NHeld                          (* holds the claim on the server *)
| NMarked                        (* ... and has marked the directory with its attempt *)
| NPulled                        (* the downloaded archive has the expected hash *)
| NUnpacked                      (* the directory holds what was unpacked from it *)
| NMatched                       (* the moved-in marker names the attempt to discard *)
| NReported                      (* only the claim is left to give back *)
| NFree                          (* no claim, and no more of the directory *)
| NArchived (sha : string).      (* the directory was archived with this hash *)

Definition holding (s : nstage) : bool :=
  match s with NHeld | NMarked | NPulled | NUnpacked | NMatched | NReported => true | _ => false end.

(** The attempt a command fetches, and the hash it expects. *)
Definition fetches (cmd : command) : option (string * string) :=
  match cmd with
  | MigrateIn k _ _ sha _ _ _ _ => Some (k, sha)
  | MigratePullR2 k _ sha _ _ _ => Some (k, sha)
  | _ => None
  end.

Definition wanted (sha : string) : string := to_lower (TrimSpace sha).

Definition nstep (uuid : string) (cmd : command) (s : nstage) (c : nop) : nans c -> nstage :=
  match c with
  | Claim _ => fun got => if got : bool then NHeld else match cmd with MigrateDiscard _ _ => s | _ => NFree end
  | Release _ => fun _ => NFree
  | PullOnce _ _ _ _ _ => fun a =>
      match a, fetches cmd with inl got, Some (_, sha) => if (got =? wanted sha)%string then NPulled else s | _, _ => s end
  | MarkMovedIn _ _ _ => fun _ => NMarked
  | RemoveAllDir _ _ => fun _ => match s with NUnpacked => NMarked | _ => s end
  | RemoveMovedIn _ _ => fun _ => NReported
  | Extract _ _ _ => fun a => match a with inl _ => NUnpacked | inr _ => s end
  | RemoveTmp _ _ => fun _ => match s with NPulled => NMarked | _ => s end
  | ReadMovedIn _ _ => fun a =>
      match cmd with MigrateDiscard k _ => if bool_decide (a = Some (MigrationProgressID uuid k)) then NMatched else s | _ => s end
  | SetStatus _ _ _ => fun _ =>
      match fetches cmd, cmd with
      | Some _, _ => if holding s then NReported else NFree
      | None, MigrateCleanup => match s with NStart => NFree | _ => s end
      | None, _ => s
      end
  | Archive _ _ _ => fun a => match a with inl (sha, _) => NArchived sha | inr _ => s end
  | _ => fun _ => s
  end.

(** The two phases Core acts on. *)
Definition decisive (phase : string) : bool := (phase =? "transferred")%string || (phase =? "need_remote")%string.

Definition nguard (uuid : string) (cmd : command) (s : nstage) (c : nop) : Prop :=
  match c with
  | Claim u => u = uuid /\ s = NStart /\ (is_Some (fetches cmd) \/ cmd = MigrateCleanup \/ exists k t, cmd = MigrateDiscard k t)
  | Release u => u = uuid /\ holding s = true
  | SelectStoragePath u => u = uuid /\ s = NHeld /\ is_Some (fetches cmd)
  | MarkMovedIn _ u p => u = uuid /\ s = NHeld /\ exists k sha, fetches cmd = Some (k, sha) /\ p = MigrationProgressID uuid k
  | PullOnce _ _ _ u _ => u = uuid /\ s = NMarked /\ is_Some (fetches cmd)
  | RemoveTmp _ u => u = uuid /\ is_Some (fetches cmd) /\ (s = NMarked \/ s = NPulled \/ s = NUnpacked)
  | RemoveAllDir _ u =>
      u = uuid /\ (is_Some (fetches cmd) /\ (s = NPulled \/ s = NUnpacked) \/ cmd = MigrateCleanup /\ s = NHeld \/
                   (exists k t, cmd = MigrateDiscard k t) /\ s = NMatched)
  | MkdirAllDir _ u | Extract _ u _ => u = uuid /\ is_Some (fetches cmd) /\ s = NPulled
  | RemoveAllFile _ u _ => u = uuid /\ is_Some (fetches cmd) /\ s = NUnpacked
  | ReadMovedIn _ u => u = uuid /\ s = NHeld /\ exists k t, cmd = MigrateDiscard k t
  | RemoveMovedIn _ u => u = uuid /\ s = NMatched /\ exists k t, cmd = MigrateDiscard k t
  | Archive _ u _ => u = uuid /\ exists k t, cmd = MigrateOut k t
  | SetMeta p meta => s = NArchived (nm_SHA256 meta) /\ exists k t, cmd = MigrateOut k t /\ p = MigrationProgressID uuid k
  | SetStatus p phase _ =>
      match fetches cmd with
      | Some (k, _) =>
          p = MigrationProgressID uuid k /\ s <> NReported /\ (phase = "transferred" -> s = NUnpacked) /\
          (phase = "need_remote" -> s = NHeld /\ exists from tok sha size ips limit grace, cmd = MigrateIn k from tok sha size ips limit grace)
      | None => decisive phase = false
      end
  | Report _ phase => decisive phase = false /\ s <> NReported
  | _ => True
  end.

Notation works uuid cmd s p Q := (monitored (nstep uuid cmd) (nguard uuid cmd) s p Q).

Definition unwatched (c : nop) : bool :=
  match c with
  | Claim _ | Release _ | SelectStoragePath _ | MarkMovedIn _ _ _ | PullOnce _ _ _ _ _ | RemoveTmp _ _ | RemoveAllDir _ _
  | MkdirAllDir _ _ | Extract _ _ _ | RemoveAllFile _ _ _ | ReadMovedIn _ _ | RemoveMovedIn _ _ | Archive _ _ _ | SetMeta _ _
  | SetStatus _ _ _ | Report _ _ => false
  | _ => true
  end.

Section node_steps.
Context (nodeID uuid : string) (cmd : command).
Local Notation wk s p Q := (works uuid cmd s p Q).

Lemma unwatched_call {A} s c (f : nans c -> handler A) Q :
  unwatched c = true -> (forall a, wk s (f a) Q) -> wk s (call c ≫= f) Q.
Proof. intros Hu H. apply monitored_call; [by destruct c|]. intros a. destruct c; try done; apply H. Qed.

Lemma unwatched_bind {A B} s (p : handler A) (f : A -> handler B) Q :
  wk s p (fun s' _ => s' = s) -> (forall a, wk s (f a) Q) -> wk s (p ≫= f) Q.
Proof. intros Hp Hf. eapply monitored_part; [exact Hp|]. by intros s' a ->. Qed.

Local Ltac pass := apply unwatched_call; [reflexivity|intros].

Lemma shared_unwatched s paths : wk s (shared_owner nodeID uuid paths) (fun s' _ => s' = s).
Proof.
  induction paths as [|p paths IH]; [done|]. cbn [shared_owner]. pass. destruct a; [|done]. by destruct (_ && _).
Qed.

Lemma owner_unwatched s : wk s (sharedStorageOwner nodeID uuid) (fun s' _ => s' = s).
Proof. unfold sharedStorageOwner. pass. apply shared_unwatched. Qed.

Lemma choose_unwatched s cands tok : wk s (chooseMigrationHost cands tok) (fun s' _ => s' = s).
Proof. induction cands as [|hp cands IH]; [done|]. cbn [chooseMigrationHost]. pass. by destruct a. Qed.

Lemma limit_unwatched s limit grace : wk s (apply_limit uuid limit grace) (fun s' _ => s' = s).
Proof. unfold apply_limit. pass. by pass. Qed.

(** *** Fetching *)
Section fetching.
Context (k sha : string).
Hypothesis Hf : fetches cmd = Some (k, sha).
Local Notation p := (MigrationProgressID uuid k).

Lemma is_fetch : is_Some (fetches cmd).
Proof. by rewrite Hf. Qed.
Local Hint Resolve is_fetch : core.

Lemma report_error s e :
  s <> NReported ->
  wk s (setMigrationStatus p "error" e) (fun s' _ => s' = if holding s then NReported else NFree).
Proof. intros Hs. split; [cbn; by rewrite Hf|]. intros a. cbn. by rewrite Hf. Qed.

Lemma pull_works n url tok path maxB :
  wk NMarked (pull n url tok (wanted sha) path uuid maxB) (fun s' r => s' = if r : bool then NPulled else NMarked).
Proof.
  induction n as [|n IH]; cbn [pull].
  all: apply monitored_call; [done|]; intros [got|e]; cbn [nstep]; rewrite ?Hf; [|pass; destruct a; try done].
  all: by destruct (got =? wanted sha)%string.
Qed.

Lemma receive_works path size failed (pulls : Z -> handler bool) :
  (forall maxB, wk NMarked (pulls maxB) (fun s' r => s' = if r : bool then NPulled else NMarked)) ->
  wk NMarked (receive uuid path size failed pulls) (fun s' r => s' = if r then NUnpacked else NMarked).
Proof.
  intros Hp. unfold receive. pass. destruct (_ && _); [done|]. pass. pass. eapply monitored_part; [apply Hp|].
  intros s' ok ->. pass. destruct ok; cbn [negb].
  2: { apply monitored_call; [cbn; eauto|]. done. }
  eapply monitored_part with (P := fun s' (r : result unit) => if r then s' = NUnpacked else s' = NPulled \/ s' = NMarked).
  - unfold resetMigrationTarget. apply monitored_bind. apply monitored_call; [cbn; eauto 10|]. intros [u|e]; [|by left].
    cbn [nstep]. apply monitored_call; [done|]. intros [u'|e]; [|by left]. cbn [nstep monitored].
    eapply monitored_part with (P := fun s' (r : result unit) => if r then s' = NUnpacked else s' = NPulled \/ s' = NUnpacked).
    + unfold extractMovedServer. pass. apply monitored_call; [done|]. intros [x|e]; cbn [nstep]; [|by left].
      apply monitored_call; [done|]. intros [y|e]; cbn [nstep]; [|by right].
      apply monitored_call; [done|]. intros [z|e]; cbn [nstep monitored]; [done|by right].
    + intros s' [x|e] Hs; [done|]. apply monitored_call; [cbn; naive_solver|]. intros ?. cbn [nstep monitored].
      destruct Hs as [-> | ->]; [by left|by right].
  - intros s' r Hs. apply monitored_call; [cbn; destruct r; naive_solver|]. intros ?. cbn [nstep monitored].
    destruct r; [by subst|by destruct Hs as [-> | ->]].
Qed.

Lemma land_works size failed (pulls : string -> Z -> handler bool) :
  (forall path maxB, wk NMarked (pulls path maxB) (fun s' r => s' = if r : bool then NPulled else NMarked)) ->
  wk NHeld (land nodeID uuid p size failed pulls) (fun s' _ => s' = NReported).
Proof.
  intros Hp. unfold land, refuseIfStorageShared. apply monitored_bind. apply unwatched_bind; [apply owner_unwatched|].
  intros owner. destruct (owner =? "")%string; cbn [monitored].
  2: { eapply monitored_part; [by apply report_error|]. by intros s' [] ->. }
  apply monitored_call; [done|]. intros [path|e]; [|by apply report_error].
  apply monitored_call; [cbn; eauto 10|]. intros ?. cbn [nstep]. unfold receiveMovedServer.
  apply monitored_call; [done|]. intros ?. cbn [nstep]. eapply monitored_part; [by apply receive_works|].
  intros s' [u|e] ->; [|by apply report_error]. split; [cbn; rewrite Hf; naive_solver|]. intros ?. cbn. by rewrite Hf.
Qed.

Lemma discarded_works :
  wk NHeld (refuseDiscardedAttempt uuid p) (fun s' r => s' = if r : bool then NReported else NHeld).
Proof.
  unfold refuseDiscardedAttempt. pass. destruct (_ =? _)%string; [done|]. pass. destruct a0; [|done].
  destruct (negb _); [by pass|]. eapply monitored_part; [by apply report_error|]. by intros s' [] ->.
Qed.

(** A claim is given back on every way out. *)
Lemma claimed_works (body : handler unit) :
  wk NHeld body (fun s' _ => s' = NReported) -> wk NStart (claimed uuid p body) (fun s' _ => s' = NFree).
Proof.
  intros Hb. unfold claimed. apply monitored_call; [cbn; eauto|]. intros [|]; cbn [nstep negb].
  - eapply monitored_part; [exact Hb|]. intros s' [] ->. by apply monitored_call.
  - assert (match cmd with MigrateDiscard _ _ => NStart | _ => NFree end = NFree) as -> by by destruct cmd.
    by apply report_error.
Qed.
End fetching.

(** *** The rest *)

Lemma say_works s pr ph e :
  fetches cmd = None -> cmd <> MigrateCleanup -> decisive ph = false -> wk s (setMigrationStatus pr ph e) (fun s' _ => s' = s).
Proof. intros H1 H2 H3. split; [cbn; by rewrite H1|]. intros ?. cbn. rewrite H1. by destruct cmd. Qed.

Lemma out_works k t : cmd = MigrateOut k t -> wk NStart (handleMigrateOut nodeID uuid (MigrationProgressID uuid k)) (fun s' _ => holding s' = false).
Proof.
  intros Hc. assert (Hsay : forall s ph e, decisive ph = false -> holding s = false ->
    wk s (setMigrationStatus (MigrationProgressID uuid k) ph e) (fun s' _ => holding s' = false)).
  { intros s ph e H1 H2. eapply monitored_mono; [|by apply say_works; rewrite ?Hc]. by intros s' u ->. }
  unfold handleMigrateOut. pass. pass. pass.
  eapply monitored_part with (P := fun s' _ => holding s' = false); [|intros s' u Hs; by pass].
  pass. destruct (_ =? _)%string; [by apply Hsay|]. pass. destruct (negb _); [by apply Hsay|].
  apply monitored_call; [done|]. intros ?. cbn [nstep]. pass. pass. destruct (_ <? _); [by apply Hsay|]. pass.
  eapply monitored_part with (P := fun s' _ => holding s' = false); [|intros s' u Hs; by pass].
  unfold stage_archive. pass. destruct (negb _); [by apply Hsay|]. pass. destruct (negb _); [by apply Hsay|].
  apply unwatched_call; [done|]. intros [part|]; [|by apply Hsay].
  eapply monitored_part with (P := fun s' _ => holding s' = false); [|intros s' u Hs; by pass].
  unfold archive_part. apply monitored_call; [done|]. intros ?. cbn [nstep].
  apply monitored_call; [cbn; eauto|]. intros [[sha size]|e]; cbn [nstep]; [|by apply Hsay]. pass.
  destruct (negb _); [pass; destruct (bool_decide _); [by pass|done]|]. pass. destruct (negb _); [by apply Hsay|]. pass.
  apply monitored_call; [cbn; eauto|]. intros ok. cbn [nstep]. destruct (negb ok); by apply Hsay.
Qed.

Lemma push_works k put urls size :
  fetches cmd = None -> cmd <> MigrateCleanup ->
  wk NStart (handleMigratePushR2 uuid (MigrationProgressID uuid k) put urls size) (fun s' _ => s' = NStart).
Proof.
  intros H1 H2. unfold handleMigratePushR2. destruct (_ && _); [by apply say_works|]. pass.
  destruct (_ =? _)%string; [by apply say_works|]. pass. destruct (negb _); [by apply say_works|]. pass.
  apply monitored_call; [done|]. intros ?. cbn [nstep].
  apply unwatched_call; [done|]. intros []; [pass|..]; by apply say_works.
Qed.

Lemma cleanup_works : cmd = MigrateCleanup -> wk NStart (handleMigrateCleanup uuid) (fun s' _ => s' = NFree).
Proof.
  intros Hc. unfold handleMigrateCleanup. pass. destruct (_ =? _)%string.
  { split; [cbn; by rewrite Hc|]. intros ?. cbn. by rewrite Hc. }
  apply monitored_call; [cbn; eauto|]. intros [|]; cbn [nstep negb]; [|by rewrite Hc].
  eapply monitored_part with (P := fun s' _ => s' = NHeld); [|intros s' u ->; by apply monitored_call].
  pass. apply monitored_call; [cbn; auto|]. intros [u|e]; cbn [nstep]; [by do 5 pass|].
  split; [cbn; by rewrite Hc|]. intros ?. cbn. by rewrite Hc.
Qed.

Lemma discard_works k t :
  cmd = MigrateDiscard k t ->
  wk NStart (handleMigrateDiscard nodeID uuid (MigrationProgressID uuid k) migrateDiscardWait) (fun s' _ => holding s' = false).
Proof.
  intros Hc. assert (Hd : exists k t, cmd = MigrateDiscard k t) by eauto.
  unfold handleMigrateDiscard. destruct (_ || _); [done|]. pass.
  apply unwatched_bind; [destruct (_ =? _)%string; [done|by pass]|]. intros _. unfold discardMovedCopy. pass.
  eapply monitored_part with (P := fun s' (got : bool) => s' = if got then NHeld else NStart).
  { generalize 0%nat, (turns migrateDiscardWait discardPoll). intros i fuel. revert i.
    induction fuel as [|fuel IH]; intros i; [done|]. cbn [discard_claim]. apply monitored_call; [cbn; auto|].
    intros [|]; cbn [nstep]; [done|]. rewrite Hc. rewrite <- Hc. pass. destruct (_ <? _); [done|]. apply IH. }
  intros s' [|] ->; [|done]. cbn [negb].
  eapply monitored_part with (P := fun s' _ => holding s' = true); [|intros s' u Hs; by apply monitored_call].
  apply unwatched_call; [done|]. intros [|]; [done|]. apply unwatched_bind; [apply owner_unwatched|]. intros owner. destruct (negb _); [done|]. pass.
  destruct (_ =? _)%string; [done|]. apply monitored_call; [done|]. intros got. cbn [nstep]. rewrite Hc.
  destruct (decide (got = Some (MigrationProgressID uuid k))) as [Hgot|Hgot];
    [rewrite !bool_decide_eq_true_2 by done|by rewrite !bool_decide_eq_false_2]. rewrite <- Hc. cbn [negb].
  apply monitored_call; [cbn; auto|]. intros ?. cbn [nstep]. apply monitored_call; [done|]. intros ?. cbn [nstep]. by do 3 pass.
Qed.
End node_steps.

Lemma handle_monitored nodeID uuid cmd :
  works uuid cmd NStart (handle nodeID uuid cmd) (fun s' _ => holding s' = false).
Proof.
  destruct cmd as [| |k t|k from tok sha size ips limit grace| | |k t|k put urls psize|k get sha size limit grace|o a d]; try done.
  - cbn [handle]. apply unwatched_call; [done|]. intros now. unfold dropStaleMigrateOut.
    destruct (negb _); [by eapply out_works|].
    apply monitored_bind. eapply monitored_part; [by apply say_works|]. by intros s' [] ->.
  - cbn [handle]. eapply monitored_part with (P := fun s' _ => s' = NFree).
    2: { intros s' [] ->. eapply monitored_mono; [|apply limit_unwatched]. by intros s' u ->. }
    unfold handleMigrateIn. destruct (_ || _); [by eapply report_error|]. eapply claimed_works; [done|].
    eapply monitored_part; [by eapply discarded_works|]. intros s' [|] ->; [done|].
    apply unwatched_call; [done|]. intros ep. destruct (ep =? "")%string; [by eapply report_error|].
    destruct (negb _); [by eapply report_error|].
    apply unwatched_bind; [destruct ips; [done|apply choose_unwatched]|]. intros chosen. destruct (chosen =? "")%string.
    + split; [|done]. cbn. repeat split; try done. by eexists _, _, _, _, _, _, _.
    + eapply land_works; [done|]. intros path maxB. unfold Pull. by eapply pull_works.
  - cbn [handle]. eapply monitored_mono; [|by apply cleanup_works]. by intros s' u ->.
  - cbn [handle]. unfold handleMigrateAbort. apply unwatched_call; [done|]. intros ?. apply unwatched_call; [done|]. intros path.
    destruct (path =? "")%string; [done|]. do 2 (apply unwatched_call; [done|]; intros ?). done.
  - cbn [handle]. by eapply discard_works.
  - cbn [handle]. eapply monitored_mono; [|by apply push_works]. by intros s' u ->.
  - cbn [handle]. eapply monitored_part with (P := fun s' _ => s' = NFree).
    2: { intros s' [] ->. eapply monitored_mono; [|apply limit_unwatched]. by intros s' u ->. }
    unfold handleMigratePullR2. destruct (_ || _); [by eapply report_error|]. eapply claimed_works; [done|].
    eapply monitored_part; [by eapply discarded_works|]. intros s' [|] ->; [done|].
    eapply land_works; [done|]. intros path maxB. unfold Pull. by eapply pull_works.
Qed.


(** C6: every handler of a move keeps to the node's half of the protocol, whatever storage, Redis and Docker answer: the
    server's directory is written or removed only by a transfer that holds the claim and has the archive with the expected
    hash, by the cleanup, or by a discard whose attempt the moved-in marker names; "transferred" is reported only with the
    archive unpacked, the staged archive's hash is the one published, and the claim is given back on every way out. *)
Theorem handle_keeps_protocol nodeID uuid cmd :
  works uuid cmd NStart (handle nodeID uuid cmd) (fun s' _ => holding s' = false).
Proof. apply handle_monitored. Qed.
