(* ===== verification/MoveEnds.v ===== *)
(** * Moves end (over Migration.v and MigrationNode.v)

    The waits of a move are loops bounded by the clock; the model bounds them
    by a number of turns. With a clock that is not early on a ticker the turns
    suffice: no wait ends for want of one. And [Migrate] leaves nothing behind:
    not its lock, not the request's marker, not a "migrating" it can still see. *)

From Stdlib Require Import Ascii String.
From S2P Require Import Prelude GoStrings Programs Release Migration MigrationNode.
Open Scope string_scope.
Open Scope list_scope.
Open Scope Z_scope.

Notation length := List.length.

(** The [i]-th turn of a wait is not before [i] ticks. *)
Definition ticks (c : cop) : cans c -> Prop :=
  match c with
  | Clock start interval i => fun now => start + Z.of_nat i * interval <= now
  | _ => fun _ => True
  end.

Definition node_ticks (c : nop) : nans c -> Prop :=
  match c with
  | NodeClock start interval i => fun now => start + Z.of_nat i * interval <= now
  | _ => fun _ => True
  end.

(** Every call of [p] is one [ok] allows, with the answers [possible]. *)
Definition within {op} {ans : op -> Type} (possible : forall c, ans c -> Prop) (ok : op -> bool) {A} (p : prog ans A) : Prop :=
  forall h, traced possible (fun _ c => ok c = true) h p (fun _ _ => True).

Section within.
Context {op : Type} {ans : op -> Type} (possible : forall c, ans c -> Prop) (ok : op -> bool).

Lemma within_bind {A B} (p : prog ans A) (f : A -> prog ans B) :
  within possible ok p -> (forall a, within possible ok (f a)) -> within possible ok (p ≫= f).
Proof. intros Hp Hf h. apply traced_bind. eapply traced_mono; [| |apply Hp]; [done|]. intros h' a _. apply Hf. Qed.

Lemma within_call {A} c (k : ans c -> prog ans A) :
  ok c = true -> (forall a, possible c a -> within possible ok (k a)) -> within possible ok (call c ≫= k).
Proof. intros Hc Hk h. apply traced_call; [done|]. intros a Ha. by apply Hk. Qed.

Lemma within_last c : ok c = true -> within possible ok (call c : prog ans _).
Proof. intros Hc h. by split. Qed.

Lemma within_ret {A} (a : A) : within possible ok (Ret a : prog ans A).
Proof. done. Qed.

Lemma within_run {A} (p : prog ans A) h c k : within possible ok p -> run possible p h (Do c k) -> ok c = true.
Proof. intros Ha Hr. by destruct (traced_run _ _ _ _ _ _ _ Hr (Ha [])). Qed.
End within.

(** A call of the code, not a wait out of turns. *)
Definition reachable (c : cop) : bool := match c with Unreachable => false | _ => true end.
Definition node_reachable (c : nop) : bool := match c with NodeUnreachable => false | _ => true end.

Notation bounded p := (within ticks reachable p).
Notation node_bounded p := (within node_ticks node_reachable p).

Create HintDb bounds.

Ltac next_call :=
  lazymatch goal with |- within ?P ?b (mbind ?k (call ?c)) => refine (within_call P b c k _ _); [first [reflexivity | auto with bounds]|] end.

(** Call by call, with the parts already shown. *)
Ltac fine :=
  repeat first
  [ apply within_ret
  | lazymatch goal with |- within ?P ?b (call ?c) => refine (within_last P b c _); first [reflexivity | auto with bounds] end
  | next_call; intros ? _
  | solve [eauto with bounds]
  | apply within_bind; [|intros]
  | match goal with |- context [match ?x with _ => _ end] => destruct x end ].

Lemma turn_left wait interval start i now fuel :
  0 < interval -> start + Z.of_nat i * interval <= now -> now <= start + wait -> (turns wait interval <= S fuel + i)%nat ->
  (i < turns wait interval)%nat -> (turns wait interval <= fuel + S i)%nat /\ (S i < turns wait interval)%nat.
Proof.
  intros Hi Hc Hn Hf Ht. split; [lia|]. unfold turns in *.
  assert (Z.of_nat i <= wait / interval) by (apply Z.div_le_lower_bound; lia). lia.
Qed.

(** ** Core *)

Lemma lock_bounded fuel i u by' start :
  (turns migrationLockWait migrationLockPoll <= fuel + i)%nat -> (i < turns migrationLockWait migrationLockPoll)%nat ->
  bounded (lock_loop fuel i u by' start).
Proof.
  revert i. induction fuel as [|fuel IH]; intros i Hf Hi; [lia|]. cbn [lock_loop].
  next_call. intros got _. destruct got as [[|]|]; [apply within_ret| |next_call; intros ctx _; apply within_ret].
  next_call. intros now Hnow. destruct (negb _) eqn:E; [apply within_ret|].
  next_call. intros [|] _; [|apply within_ret]. to_prop.
  assert (H := turn_left migrationLockWait migrationLockPoll start i now fuel). cbn in Hnow. apply IH; apply H; try done; lia.
Qed.

Lemma db_bounded fuel i id start timeout done :
  (turns timeout migrationPollInterval <= fuel + i)%nat -> (i < turns timeout migrationPollInterval)%nat ->
  bounded (pollDBStatus fuel i id start timeout done).
Proof.
  revert i. induction fuel as [|fuel IH]; intros i Hf Hi; [lia|]. cbn [pollDBStatus].
  next_call. intros srv _. apply within_bind; [fine|]. intros [r|]; [apply within_ret|].
  next_call. intros now Hnow. destruct (_ <? _) eqn:E; [apply within_ret|].
  next_call. intros [|] _; [|apply within_ret]. to_prop.
  assert (H := turn_left timeout migrationPollInterval start i now fuel). cbn in Hnow. apply IH; apply H; try easy; lia.
Qed.

Lemma phase_bounded fuel i token progress accept start timeout deadline lastPhase lastBytes :
  let wait := Z.max timeout migrationProgressMaxWait in
  deadline <= start + wait -> (turns wait migrationPollInterval <= fuel + i)%nat -> (i < turns wait migrationPollInterval)%nat ->
  bounded (pollNodePhase fuel i token progress accept start timeout deadline lastPhase lastBytes).
Proof.
  intros wait. revert i deadline lastPhase lastBytes. induction fuel as [|fuel IH]; intros i dl ph by' Hd Hf Hi; [lia|].
  cbn [pollNodePhase]. next_call. intros raw _. intros h. eapply traced_part with (P := fun _ dl => dl <= start + wait).
  { destruct raw as [st|]; [|done]. destruct (_ =? _); [done|]. apply traced_call; [done|]. intros now _. cbn. lia. }
  clear dl Hd. intros l dl Hd. generalize (l ++ h)%list. clear l h.
  match goal with |- forall h, traced _ _ h ?p _ => change (bounded p) end.
  destruct (match raw with Some st => (ns_Phase st, ns_Bytes st) | None => (ph, by') end) as [phase bytes].
  destruct (match raw with Some st => _ | None => None end) as [r|]; [apply within_ret|].
  next_call. intros [|] _; [apply within_ret|].
  next_call. intros now Hnow. destruct (_ <? _) eqn:E; [unfold timeoutReason; fine|].
  next_call. intros [|] _; [|apply within_ret]. to_prop.
  assert (H := turn_left wait migrationPollInterval start i now fuel). cbn in Hnow. apply IH; [done|apply H..]; try done; lia.
Qed.

Lemma hold_bounded u by' : bounded (holdMigrationLock u by').
Proof. unfold holdMigrationLock. next_call. intros start _. apply lock_bounded; vm_compute; lia. Qed.

Lemma wait_db_bounded id timeout done : 0 <= timeout -> bounded (waitForDB id timeout done).
Proof.
  intros Ht. unfold waitForDB. next_call. intros start _. apply db_bounded; [lia|].
  unfold turns. assert (0 <= timeout / migrationPollInterval) by (apply Z.div_pos; easy). lia.
Qed.

Lemma wait_phase_bounded token progress accept timeout : bounded (waitForNodePhaseAny token progress accept timeout).
Proof.
  unfold waitForNodePhaseAny. next_call. intros start _. apply phase_bounded; [lia|lia|].
  unfold turns. assert (0 <= Z.max timeout migrationProgressMaxWait / migrationPollInterval) by (apply Z.div_pos; [|done]; unfold migrationProgressMaxWait, Hour, Minute, Second; lia). lia.
Qed.

(** *** The parts of a move, given its waits *)

(** The calls that neither take nor end anything. *)
Definition ordinary (c : cop) : bool :=
  match c with SetNXLock _ _ | DelLock _ | DelQueued _ | CtxErr => false | _ => true end.

Section parts.
Context (cpuPinning : bool) (possible : forall c, cans c -> Prop) (ok : cop -> bool).
Context (Hok : forall c, ordinary c && reachable c = true -> ok c = true).
Context (Hdb : forall id timeout done, 0 <= timeout -> within possible ok (waitForDB id timeout done)).
Context (Hphase : forall token progress accept timeout, within possible ok (waitForNodePhaseAny token progress accept timeout)).

Local Hint Extern 0 (ok _ = true) => apply Hok; reflexivity : bounds.

Lemma stopped_within id : within possible ok (waitForStopped id migrationStopTimeout).
Proof. by apply Hdb. Qed.

Lemma online_within id : within possible ok (waitForOnline id migrationStartTimeout).
Proof. by apply Hdb. Qed.

Lemma phase1_within token progress want timeout : within possible ok (waitForNodePhase token progress want timeout).
Proof. apply Hphase. Qed.

Local Hint Resolve Hphase stopped_within online_within phase1_within : bounds.

Lemma sign_within n p key up ttl urls : within possible ok (sign_parts n p key up ttl urls).
Proof. revert p urls. induction n as [|n IH]; intros p urls; cbn [sign_parts]; fine. Qed.

Local Hint Resolve sign_within : bounds.

Lemma gateway_within : within possible ok gatewayEnabled.
Proof. unfold gatewayEnabled. fine. Qed.

Lemma routing_within : within possible ok GatewayRoutingEnabled.
Proof. unfold GatewayRoutingEnabled. fine. Qed.

Local Hint Resolve gateway_within routing_within : bounds.

Lemma direct_within srv : within possible ok (DirectMoveProblem srv).
Proof. unfold DirectMoveProblem. fine. Qed.

Lemma kept_within srv t : within possible ok (keptHostPort srv t).
Proof. unfold keptHostPort. fine. Qed.

Lemma grace_within src tgt u : within possible ok (movedDiskGrace src tgt u).
Proof. unfold movedDiskGrace. fine. Qed.

Lemma write_within m ph e : within possible ok (writeStatus m ph e).
Proof. unfold writeStatus. fine. Qed.

Local Hint Resolve direct_within kept_within grace_within write_within : bounds.

Lemma rollback_within m r pre reason : within possible ok (rollbackPreCutover m r pre reason).
Proof. unfold rollbackPreCutover. fine. Qed.

Lemma read_meta_within t p : within possible ok (readMeta t p).
Proof. unfold readMeta. fine. Qed.

Lemma presign_within key size ttl : within possible ok (presignMigrationParts key size ttl).
Proof. unfold presignMigrationParts. fine. Qed.

Local Hint Resolve rollback_within read_meta_within presign_within : bounds.

Lemma legs_within m key up put parts ttl sha size : within possible ok (r2_legs m key up put parts ttl sha size).
Proof. unfold r2_legs. fine. Qed.

Local Hint Resolve legs_within : bounds.

Lemma upload_within m key put ttl sha size : within possible ok (r2_upload m key put ttl sha size).
Proof. unfold r2_upload. fine. Qed.

Lemma open_within bs : within possible ok (openTransferStorage bs).
Proof. unfold openTransferStorage. fine. Qed.

Lemma ttl_within b : within possible ok (presignTTL b).
Proof. unfold presignTTL. fine. Qed.

Local Hint Resolve upload_within open_within ttl_within : bounds.

Lemma r2_within m sha size : within possible ok (transferViaR2 m sha size).
Proof. unfold transferViaR2. fine. Qed.

Local Hint Resolve r2_within : bounds.

Lemma pinning_within srv src tgt : within possible ok (reResolvePinningForTarget cpuPinning srv src tgt).
Proof. unfold reResolvePinningForTarget. fine. Qed.

Lemma padding_within a b : within possible ok (EffectiveRAMPaddingMB a b).
Proof. unfold EffectiveRAMPaddingMB. fine. Qed.

Local Hint Resolve pinning_within padding_within : bounds.

Lemma after_within m port r pre : within possible ok (afterCutover cpuPinning m port r pre).
Proof. unfold afterCutover. fine. Qed.

Local Hint Resolve after_within : bounds.

Lemma cutover_within m r pre : within possible ok (cutover cpuPinning m r pre).
Proof. unfold cutover. fine. Qed.

Local Hint Resolve cutover_within : bounds.

Lemma transfer_within m r pre : within possible ok (transfer cpuPinning m r pre).
Proof. unfold transfer. fine. Qed.

Local Hint Resolve transfer_within : bounds.

Lemma stage_within m r pre : within possible ok (stage cpuPinning m r pre).
Proof. unfold stage. fine. Qed.

Lemma stop_within srv n : within possible ok (stopServer srv n).
Proof. unfold stopServer. fine. Qed.

Local Hint Resolve stage_within stop_within : bounds.

Lemma locked_within m pre : within possible ok (locked cpuPinning m pre).
Proof. unfold locked. fine. Qed.

End parts.

Section core.
Context (cpuPinning : bool).

Lemma ordinary_reachable c : ordinary c && reachable c = true -> reachable c = true.
Proof. intros H. by to_prop. Qed.

Lemma locked_bounded m pre : bounded (locked cpuPinning m pre).
Proof. apply locked_within; [apply ordinary_reachable|apply wait_db_bounded|apply wait_phase_bounded]. Qed.

Lemma direct_bounded srv : bounded (DirectMoveProblem srv).
Proof. apply direct_within. apply ordinary_reachable. Qed.

Local Hint Resolve locked_bounded direct_bounded hold_bounded : bounds.

Lemma attempt_bounded : bounded newMigrationAttempt.
Proof. unfold newMigrationAttempt. fine. Qed.

Local Hint Resolve attempt_bounded : bounds.

Lemma migrate_bounded req : bounded (migrate cpuPinning req).
Proof. unfold migrate, writeStatus. fine. Qed.

Local Hint Resolve migrate_bounded : bounds.

Lemma Migrate_bounded req : bounded (Migrate cpuPinning req).
Proof. unfold Migrate. fine. Qed.
End core.

(** ** Nodes *)

Lemma claim_bounded fuel i u start wait :
  (turns wait discardPoll <= fuel + i)%nat -> (i < turns wait discardPoll)%nat -> node_bounded (discard_claim fuel i u start wait).
Proof.
  revert i. induction fuel as [|fuel IH]; intros i Hf Hi; [lia|]. cbn [discard_claim].
  next_call. intros [|] _; [apply within_ret|]. next_call. intros now Hnow. destruct (_ <? _) eqn:E; [apply within_ret|]. to_prop.
  assert (H := turn_left wait discardPoll start i now fuel). cbn in Hnow. apply IH; apply H; try done; lia.
Qed.

Lemma claim_wait_bounded u start : node_bounded (discard_claim (turns migrateDiscardWait discardPoll) 0 u start migrateDiscardWait).
Proof. apply claim_bounded; [lia|]. unfold turns. assert (0 <= migrateDiscardWait / discardPoll) by (by apply Z.div_pos). lia. Qed.

Lemma pull_bounded n url t want path u max : node_bounded (pull n url t want path u max).
Proof. induction n as [|n IH]; cbn [pull]; fine. Qed.

#[export] Hint Resolve claim_wait_bounded pull_bounded : bounds.

Section handlers.
Context (nodeID uuid : string).

Lemma owner_bounded l : node_bounded (shared_owner nodeID uuid l).
Proof. induction l as [|p l IH]; cbn [shared_owner]; fine. Qed.

Local Hint Resolve owner_bounded : bounds.

Lemma shared_bounded : node_bounded (sharedStorageOwner nodeID uuid).
Proof. unfold sharedStorageOwner. fine. Qed.

Local Hint Resolve shared_bounded : bounds.

Lemma refuse_bounded p : node_bounded (refuseIfStorageShared nodeID uuid p).
Proof. unfold refuseIfStorageShared, setMigrationStatus. fine. Qed.

Lemma archive_bounded p path part aborts r : node_bounded (archive_part nodeID uuid p path part aborts r).
Proof. unfold archive_part, setMigrationStatus. fine. Qed.

Local Hint Resolve refuse_bounded archive_bounded : bounds.

Lemma stage_archive_bounded p path aborts r : node_bounded (stage_archive nodeID uuid p path aborts r).
Proof. unfold stage_archive, setMigrationStatus. fine. Qed.

Local Hint Resolve stage_archive_bounded : bounds.

Lemma out_bounded p : node_bounded (handleMigrateOut nodeID uuid p).
Proof. unfold handleMigrateOut, setMigrationStatus. fine. Qed.

Lemma receive_bounded path size msg pulls : (forall m, node_bounded (pulls m)) -> node_bounded (receive uuid path size msg pulls).
Proof. intros H. unfold receive, resetMigrationTarget, extractMovedServer. fine. Qed.

Lemma land_bounded p size msg pulls : (forall path m, node_bounded (pulls path m)) -> node_bounded (land nodeID uuid p size msg pulls).
Proof.
  intros H. unfold land, receiveMovedServer, setMigrationStatus. apply within_bind; [fine|]. intros [|]; [fine|]. next_call. intros [path|e] _; [|fine].
  next_call. intros _ _. next_call. intros _ _. apply within_bind; [by apply receive_bounded|]. intros r. fine.
Qed.

Lemma discarded_bounded p : node_bounded (refuseDiscardedAttempt uuid p).
Proof. unfold refuseDiscardedAttempt, setMigrationStatus. fine. Qed.

Lemma choose_bounded l t : node_bounded (chooseMigrationHost l t).
Proof. induction l as [|hp l IH]; cbn [chooseMigrationHost]; fine. Qed.

Local Hint Resolve out_bounded land_bounded discarded_bounded choose_bounded : bounds.

Lemma in_bounded p src t sha size ips : node_bounded (handleMigrateIn nodeID uuid p src t sha size ips).
Proof. unfold handleMigrateIn, claimed, setMigrationStatus, Pull. fine. Qed.

Lemma pull_r2_bounded p url sha size : node_bounded (handleMigratePullR2 nodeID uuid p url sha size).
Proof. unfold handleMigratePullR2, claimed, setMigrationStatus, Pull. fine. Qed.

Lemma discard_bounded p : node_bounded (handleMigrateDiscard nodeID uuid p migrateDiscardWait).
Proof. unfold handleMigrateDiscard, discardMovedCopy. fine. Qed.

Local Hint Resolve in_bounded pull_r2_bounded discard_bounded : bounds.

Lemma handle_bounded cmd : node_bounded (handle nodeID uuid cmd).
Proof.
  destruct cmd; cbn [handle]; unfold apply_limit, dropStaleMigrateOut, handleMigrateCleanup, handleMigrateAbort, handleMigratePushR2,
    setMigrationStatus; fine.
Qed.
End handlers.

(** C28: no run of [Migrate] or of a node's handler is still waiting when its turns are
    used up: every wait ends by its deadline, given that a ticker does not
    fire early. *)
Theorem waits_end cpuPinning req nodeID uuid cmd :
  (forall h k, ~ run ticks (Migrate cpuPinning req) h (Do Unreachable k)) /\
  (forall h k, ~ run node_ticks (handle nodeID uuid cmd) h (Do NodeUnreachable k)).
Proof.
  split; intros h k Hr; [by apply (within_run _ _ _ _ _ _ (Migrate_bounded _ _)) in Hr|by apply (within_run _ _ _ _ _ _ (handle_bounded _ _ _)) in Hr].
Qed.

(** ** What a move leaves behind *)

(** What [Migrate] holds: its lock, the marker of the request, whether the
    process is going down, and the status it last wrote or read. *)
Record ledger := mkLedger { lg_lock : bool; lg_marker : bool; lg_cancelled : bool; lg_row : option string }.

Definition account (l : ledger) (c : cop) : cans c -> ledger :=
  match c with
  | SetNXLock _ _ => fun got => mkLedger (lg_lock l || bool_decide (got = Some true)) (lg_marker l) (lg_cancelled l) (lg_row l)
  | DelLock _ => fun _ => mkLedger false (lg_marker l) (lg_cancelled l) (lg_row l)
  | DelQueued _ => fun _ => mkLedger (lg_lock l) false (lg_cancelled l) (lg_row l)
  | CtxErr => fun gone => mkLedger (lg_lock l) (lg_marker l) gone (lg_row l)
  | GetServerByID _ => fun row => mkLedger (lg_lock l) (lg_marker l) (lg_cancelled l) (sv_Status <$> row)
  | UpdateServerStatus _ st => fun _ => mkLedger (lg_lock l) (lg_marker l) (lg_cancelled l) (Some st)
  | _ => fun _ => l
  end.

(** The lock is taken only once it is free, and given back only by its holder. *)
Definition lock_order (l : ledger) (c : cop) : Prop :=
  match c with
  | SetNXLock _ _ => lg_lock l = false
  | DelLock _ => lg_lock l = true
  | Publish _ _ _ _ | UpdateServerNode _ _ => lg_lock l = true
  | _ => True
  end.

Notation accounts l p Q := (monitored account lock_order l p Q).

Definition unlocked (c : cop) : bool :=
  ordinary c && match c with Publish _ _ _ _ | UpdateServerNode _ _ => false | _ => true end.

(** *** The ordinary calls *)

Definition anything (c : cop) (a : cans c) : Prop := True.

Lemma within_monitored {M A} (mstep : M -> forall c, cans c -> M) (allowed : M -> cop -> Prop) (I : M -> Prop) ok s (p : move A) :
  (forall s c, ok c = true -> I s -> allowed s c) -> (forall s c a, ok c = true -> I s -> I (mstep s c a)) ->
  within anything ok p -> I s -> monitored mstep allowed s p (fun s' _ => I s').
Proof.
  intros Ha Hm Hp. specialize (Hp []). revert s Hp. generalize (@nil (event cans)).
  induction p as [x|c k IH]; intros h s Hp Hs; [done|]. destruct Hp as [H1 H2]. split; [by apply Ha|].
  intros a. apply (IH a (Ev c a :: h)); [by apply H2|by apply Hm].
Qed.

Definition holds (m : bool) (l : ledger) : Prop := lg_lock l = true /\ lg_marker l = m /\ lg_cancelled l = false.
Definition idle (m : bool) (l : ledger) : Prop := lg_lock l = false /\ lg_marker l = m /\ lg_cancelled l = false.

Lemma ordinary_holds {A} m l (p : move A) : within anything ordinary p -> holds m l -> accounts l p (fun l' _ => holds m l').
Proof.
  intros Hp Hl. eapply within_monitored; [| |exact Hp|exact Hl].
  - intros s c Hc (H1 & _). by destruct c.
  - intros s c a Hc Hs. by destruct c.
Qed.

Lemma unlocked_idle {A} m l (p : move A) : within anything unlocked p -> idle m l -> accounts l p (fun l' _ => idle m l').
Proof.
  intros Hp Hl. eapply within_monitored; [| |exact Hp|exact Hl].
  - intros s c Hc (H1 & _). by destruct c.
  - intros s c a Hc Hs. by destruct c.
Qed.

Lemma db_ordinary id timeout done : within anything ordinary (waitForDB id timeout done).
Proof.
  unfold waitForDB. next_call. intros start _. generalize 0%nat (turns timeout migrationPollInterval). intros i fuel.
  revert i. induction fuel as [|fuel IH]; intros i; cbn [pollDBStatus]; fine.
Qed.

Lemma phase_ordinary token progress accept timeout : within anything ordinary (waitForNodePhaseAny token progress accept timeout).
Proof.
  unfold waitForNodePhaseAny. next_call. intros start _. generalize 0%nat (turns (Z.max timeout migrationProgressMaxWait) migrationPollInterval).
  intros i fuel. revert i. generalize (start + timeout) "" 0. induction fuel as [|fuel IH]; intros dl ph by' i; cbn [pollNodePhase]; unfold timeoutReason; fine.
Qed.

Lemma locked_ordinary b m pre : within anything ordinary (locked b m pre).
Proof. apply locked_within; [intros c H; by to_prop|intros; apply db_ordinary|apply phase_ordinary]. Qed.

(** ** The ledger of [Migrate] *)

Lemma lock_accounts m l u by' :
  idle m l -> accounts l (holdMigrationLock u by') (fun l' r => match r with LockHeldByUs => holds m l' | _ => idle m l' end).
Proof.
  intros Hl. unfold holdMigrationLock. apply monitored_call; [done|]. intros start. cbn [account].
  generalize 0%nat (turns migrationLockWait migrationLockPoll). intros i fuel.
  revert i l Hl. induction fuel as [|fuel IH]; intros i l Hl; cbn [lock_loop].
  - apply monitored_call; [done|]. intros ?. exact Hl.
  - apply monitored_call; [apply Hl|]. intros got. destruct Hl as (H1 & H2 & H3).
    assert (Hnot : forall g, g <> Some true -> idle m (account l (SetNXLock u by') g)).
    { intros g Hg. unfold idle. cbn. rewrite H1, bool_decide_eq_false_2 by done. done. }
    destruct got as [[|]|]; [|specialize (Hnot (Some false) ltac:(done))|specialize (Hnot None ltac:(done))].
    + split; [|done]. cbn. by rewrite H1.
    + apply monitored_call; [done|]. intros now. destruct (negb _); [exact Hnot|].
      apply monitored_call; [done|]. intros [|]; [by apply IH|exact Hnot].
    + apply monitored_call; [done|]. by intros [|].
Qed.

(** How the ledger stands when [migrate] returns. *)
Lemma migrate_accounts b req m l : idle m l -> accounts l (migrate b req) (fun l' _ => idle m l').
Proof.
  intros Hl. unfold migrate.
  assert (Hpart : forall l p (Q : ledger -> ended -> Prop), idle m l -> within anything unlocked p -> (forall l' a, idle m l' -> Q l' a) -> accounts l p Q).
  { intros l0 p Q H0 Hp HQ. eapply monitored_mono; [|by apply unlocked_idle]. auto. }
  assert (Hin : forall l {A} (p : move A) (f : A -> move ended) Q, idle m l -> within anything unlocked p ->
    (forall l' a, idle m l' -> accounts l' (f a) Q) -> accounts l (p ≫= f) Q).
  { intros l0 A p f Q H0 Hp HQ. eapply monitored_part; [by apply unlocked_idle|auto]. }
  apply Hin; [done|fine|]. intros l1 [srv|] H1; [|done]. clear l Hl.
  apply Hin; [done|fine|]. intros l2 [src|] H2; [|apply Hpart; [done|fine|auto]]. clear l1 H1.
  apply Hin; [done|fine|]. intros l3 [tgt|] H3; [|apply Hpart; [done|fine|auto]]. clear l2 H2.
  apply Hin; [done|fine|]. intros l4 startedAt H4. clear l3 H3.
  destruct (_ && _); [apply Hpart; [done|unfold writeStatus; fine|auto]|]. destruct (negb _); [apply Hpart; [done|unfold writeStatus; fine|auto]|].
  apply Hin; [done|fine|]. intros l5 hs H5. destruct (negb _); [apply Hpart; [done|unfold writeStatus; fine|auto]|]. clear l4 H4.
  apply Hin; [done|fine|]. intros l6 ht H6. destruct (negb _); [apply Hpart; [done|unfold writeStatus; fine|auto]|]. clear l5 H5.
  apply Hin; [done|fine|]. intros l7 ht' H7. destruct (negb _); [apply Hpart; [done|unfold writeStatus; fine|auto]|]. clear l6 H6.
  apply Hin; [done|unfold newMigrationAttempt; fine|]. intros l8 attempt H8. clear l7 H7.
  apply Hin; [done|unfold DirectMoveProblem, GatewayRoutingEnabled; fine|]. intros l9 problem H9. clear l8 H8.
  destruct (negb _); [apply Hpart; [done|unfold writeStatus; fine|auto]|]. destruct (_ =? _); [apply Hpart; [done|unfold writeStatus; fine|auto]|].
  destruct (negb _); [apply Hpart; [done|unfold writeStatus; fine|auto]|].
  eapply monitored_part; [by apply lock_accounts|]. intros l10 [| | |] H10; [|done|done|apply Hpart; [done|unfold writeStatus; fine|auto]].
  eapply monitored_part; [apply ordinary_holds; [apply locked_ordinary|exact H10]|]. intros l11 panics (E1 & E2 & E3).
  apply monitored_call; [done|]. intros ?. apply monitored_call; [done|]. intros ?. done.
Qed.

Lemma backStatus_ends pre : backStatus pre <> "migrating".
Proof. unfold backStatus. destruct (_ || _) eqn:E; [done|]. apply orb_false_iff in E as [_ E]. by apply String.eqb_neq in E. Qed.

(** When [Migrate] returns: its lock is free; the marker is left where the
    process goes down or another Core holds the move, and is gone otherwise,
    with a status that is not "migrating" in the last read or write of it. *)
Definition settled_up (l : ledger) (r : ended) : Prop :=
  lg_lock l = false /\
  if lg_cancelled l || bool_decide (r = KeptMarker) then lg_marker l = true
  else lg_marker l = false /\ lg_row l <> Some "migrating".


(** ** The parts of an upload *)

Lemma partsFor_small size : 0 <= size -> size + backupPartSize < 2 ^ 63 -> partsFor size = (size + (backupPartSize - 1)) / backupPartSize.
Proof.
  intros H1 H2. unfold partsFor, backupPartSize in *. rewrite (wrap64_small (size + _)) by (unfold int64_min, int64_max; lia).
  rewrite wrap64_small by (unfold int64_min, int64_max; lia). rewrite Z.quot_div_nonneg by lia. f_equal. lia.
Qed.

(** The sum of the size and a part wraps around; the number of parts is negative. *)
Lemma partsFor_huge size : size < 2 ^ 63 -> 2 ^ 63 < size + backupPartSize -> partsFor size < 0.
Proof.
  intros H1 H2. unfold partsFor, backupPartSize in *.
  assert (E : wrap64 (size + 64 * 2 ^ 20) = size + 64 * 2 ^ 20 - 2 ^ 64).
  { unfold wrap64. rewrite <- (Z_mod_plus_full _ (-1)), Z.mod_small; lia. }
  rewrite E. assert (E' : wrap64 (size + 64 * 2 ^ 20 - 2 ^ 64 - 1) = size + 64 * 2 ^ 20 - 2 ^ 64 - 1).
  { apply wrap64_small. unfold int64_min, int64_max. lia. }
  rewrite E'. pose proof (Z.quot_opp_l (- (size + 64 * 2 ^ 20 - 2 ^ 64 - 1)) (64 * 2 ^ 20) ltac:(lia)) as Ho. rewrite Z.opp_involutive in Ho.
  rewrite Ho. assert (1 <= Z.quot (- (size + 64 * 2 ^ 20 - 2 ^ 64 - 1)) (64 * 2 ^ 20)); [|lia].
  rewrite Z.quot_div_nonneg by lia. apply Z.div_le_lower_bound; lia.
Qed.

(** At exactly [2^63 - part] the sum wraps and the decrement wraps back. *)
Lemma partsFor_edge : partsFor (2 ^ 63 - backupPartSize) = 2 ^ 37 - 1.
Proof. vm_compute. reflexivity. Qed.

Lemma sign_parts_length n p key up ttl urls :
  forall h, traced anything (fun _ _ => True) h (sign_parts n p key up ttl urls)
    (fun _ r => match r with Signed up' us => up' = up /\ length us = (n + length urls)%nat | NotSigned _ => True | SignPanics => False end).
Proof.
  revert p urls. induction n as [|n IH]; intros p urls h; [done|]. cbn [sign_parts]. apply traced_call; [done|]. intros [u|e] _.
  - eapply traced_mono; [| |apply (IH (p + 1) (urls ++ [u])%list)]; [done|]. intros h' [up' us| |]; try done. intros [-> ->]. split; [done|].
    rewrite length_app. cbn. lia.
  - apply traced_call; [done|]. done.
Qed.

(** What [presignMigrationParts] answers for an archive of [size] bytes. *)
Definition covered (size : Z) (r : presigned) : Prop :=
  match r with
  | Signed _ urls =>
      size <= migrationPutMaxSize /\ urls = [] \/
      migrationPutMaxSize < size <= Z.of_nat (length urls) * backupPartSize /\
        Z.of_nat (length urls) * backupPartSize < size + backupPartSize /\ Z.of_nat (length urls) <= maxPartNumber
  | NotSigned _ => migrationPutMaxSize < size
  | SignPanics => 2 ^ 63 - backupPartSize < size
  end.

Lemma presign_covered key size ttl h :
  0 <= size < 2 ^ 63 -> traced anything (fun _ _ => True) h (presignMigrationParts key size ttl) (fun _ r => covered size r).
Proof.
  intros Hs. unfold presignMigrationParts. destruct (size <=? migrationPutMaxSize) eqn:E1; to_prop; [left; done|].
  destruct (maxPartNumber <? partsFor size) eqn:E2; to_prop; [exact E1|]. apply traced_call; [done|]. intros [up|e] _; [|exact E1].
  destruct (Z.lt_trichotomy (size + backupPartSize) (2 ^ 63)) as [Hlt|[Heq|Hgt]].
  - rewrite partsFor_small in * by lia. set (n := (size + (backupPartSize - 1)) / backupPartSize) in *.
    assert (Hn : backupPartSize * n <= size + (backupPartSize - 1) < backupPartSize * n + backupPartSize).
    { pose proof (Z.div_mod (size + (backupPartSize - 1)) backupPartSize ltac:(done)). pose proof (Z.mod_pos_bound (size + (backupPartSize - 1)) backupPartSize ltac:(done)).
      fold n in H. lia. }
    destruct (n <? 0) eqn:E3; to_prop; [unfold migrationPutMaxSize, backupPartSize in *; lia|].
    eapply traced_mono; [| |apply sign_parts_length]; [done|]. intros h' [up' us| |]; try done. intros [-> El]. right. cbn in El.
    rewrite El, Nat.add_0_r, Z2Nat.id by done. lia.
  - assert (size = 2 ^ 63 - backupPartSize) as -> by lia. rewrite partsFor_edge in E2. unfold maxPartNumber in E2. lia.
  - assert (Hneg := partsFor_huge size ltac:(lia) ltac:(lia)). apply Z.ltb_lt in Hneg. rewrite Hneg. cbn [traced covered]. lia.
Qed.

(** C40: the signed parts of an upload cover the archive, the last one included, and
    are as many as object storage takes; a single upload is used up to its limit.
    Only a size within one part of the int64 range makes [presignMigrationParts]
    panic: there the sum in the number of parts wraps around. *)
Theorem presign_covers_archive key size ttl h r :
  0 <= size < 2 ^ 63 -> run anything (presignMigrationParts key size ttl) h (Ret r) -> covered size r.
Proof. intros Hs Hr. exact (traced_run _ _ _ _ _ _ _ Hr (presign_covered key size ttl [] Hs)). Qed.

(** A source that reports an archive of [2^63 - 1] bytes makes Core panic. *)
Lemma presign_covers_archive_witness :
  (exists h, run anything (presignMigrationParts "k" (2 ^ 63 - 1) 60) h (Ret SignPanics)) /\ covered (2 ^ 63 - 1) SignPanics.
Proof.
  assert (Hr : run anything (presignMigrationParts "k" (2 ^ 63 - 1) 60) [Ev (CreateMultipart "k") (inl "u")] (Ret SignPanics)).
  { apply run_cons; [done|]. apply run_nil. }
  split; [eexists; exact Hr|]. apply (presign_covers_archive "k" (2 ^ 63 - 1) 60 [Ev (CreateMultipart "k") (inl "u")]); [lia|exact Hr].
Defined.
