(* ===== verification/MoveWorld.v ===== *)
(** * A server, its nodes and Core (over Migration.v and MigrationNode.v)

    The world of one server: the row Core keeps of it, the command streams of
    the nodes, what the nodes report in Redis, and the nodes' disks. [wexec]
    runs Core's [Migrate] and the handlers of the nodes one call at a time in
    any order; [outcome] says how each call went, and [oracle] answers what the
    world does not hold. A node has one storage path here. [tame] is what the
    moves rely on: without one of its clauses data can be lost (MoveLoss.v). *)

From Stdlib Require Import Ascii String.
From S2P Require Import Prelude GoStrings Programs Release Migration MigrationNode Moves.
Open Scope string_scope.
Open Scope list_scope.
Open Scope Z_scope.

Notation length := List.length.

(** What a directory or an archive holds: the server's data, as one value. *)
Notation content := string.

Definition fset {A B} `{EqDecision A} (f : A -> B) (a : A) (b : B) : A -> B := fun x => if decide (x = a) then b else f x.

Lemma fset_eq {A B} `{EqDecision A} (f : A -> B) a b : fset f a b a = b.
Proof. unfold fset. by rewrite decide_True. Qed.

Lemma fset_ne {A B} `{EqDecision A} (f : A -> B) a b x : x <> a -> fset f a b x = f x.
Proof. intros H. unfold fset. by rewrite decide_False. Qed.

(** ** State *)

(** The files of the server on one disk. *)
Record disk := mkDisk {
  dk_dir : option content;             (* <path>/<uuid> *)
  dk_marker : option string;           (* <uuid>.moved-in *)
  dk_tmp : option content;             (* <uuid>.migration-in.zip *)
  dk_archive : option content;         (* .dylaris-migration/<uuid>.zip *)
  dk_origin : option string;           (* .dylaris-migration/<uuid>.origin *)
  dk_discard : option string;          (* <uuid>.discarded *)
  dk_part : string -> option content   (* .dylaris-migration/<uuid>.*.part *) }.

Record mstate := mkState {
  ms_home : Z; ms_status : string;     (* the row: node_id and status *)
  ms_cur : content;                    (* the server's data as last written where it lives *)
  ms_lock : bool; ms_cancel : bool;
  ms_queue : string -> list command;   (* per node token, oldest first *)
  ms_phase : string -> string -> option nodeStatus; ms_meta : string -> string -> option nodeMeta;
  ms_disk : string -> disk;
  ms_inflight : string -> bool; ms_aborts : string -> Z; ms_latest : string -> option Z; ms_runs : Z;
  ms_used : list string                (* attempts drawn so far *) }.

Record thread := mkThread { t_tok : string; t_cmd : command; t_stage : nstage; t_prog : handler unit }.

Record world := mkWorld { w_st : mstate; w_cores : list (proto * move ended); w_threads : list thread }.

(** *** Updates *)

Definition set_row (home : Z) (status : string) (s : mstate) : mstate :=
  mkState home status (ms_cur s) (ms_lock s) (ms_cancel s) (ms_queue s) (ms_phase s) (ms_meta s) (ms_disk s) (ms_inflight s)
    (ms_aborts s) (ms_latest s) (ms_runs s) (ms_used s).
Definition set_flags (lock cancel : bool) (s : mstate) : mstate :=
  mkState (ms_home s) (ms_status s) (ms_cur s) lock cancel (ms_queue s) (ms_phase s) (ms_meta s) (ms_disk s) (ms_inflight s)
    (ms_aborts s) (ms_latest s) (ms_runs s) (ms_used s).
Definition set_queue (t : string) (q : list command) (s : mstate) : mstate :=
  mkState (ms_home s) (ms_status s) (ms_cur s) (ms_lock s) (ms_cancel s) (fset (ms_queue s) t q) (ms_phase s) (ms_meta s)
    (ms_disk s) (ms_inflight s) (ms_aborts s) (ms_latest s) (ms_runs s) (ms_used s).
Definition set_phase (t p : string) (v : option nodeStatus) (s : mstate) : mstate :=
  mkState (ms_home s) (ms_status s) (ms_cur s) (ms_lock s) (ms_cancel s) (ms_queue s)
    (fset (ms_phase s) t (fset (ms_phase s t) p v)) (ms_meta s) (ms_disk s) (ms_inflight s) (ms_aborts s) (ms_latest s)
    (ms_runs s) (ms_used s).
Definition set_meta (t p : string) (v : option nodeMeta) (s : mstate) : mstate :=
  mkState (ms_home s) (ms_status s) (ms_cur s) (ms_lock s) (ms_cancel s) (ms_queue s) (ms_phase s)
    (fset (ms_meta s) t (fset (ms_meta s t) p v)) (ms_disk s) (ms_inflight s) (ms_aborts s) (ms_latest s) (ms_runs s) (ms_used s).
Definition set_disk (d : string) (v : disk) (s : mstate) : mstate :=
  mkState (ms_home s) (ms_status s) (ms_cur s) (ms_lock s) (ms_cancel s) (ms_queue s) (ms_phase s) (ms_meta s)
    (fset (ms_disk s) d v) (ms_inflight s) (ms_aborts s) (ms_latest s) (ms_runs s) (ms_used s).
Definition set_inflight (t : string) (b : bool) (s : mstate) : mstate :=
  mkState (ms_home s) (ms_status s) (ms_cur s) (ms_lock s) (ms_cancel s) (ms_queue s) (ms_phase s) (ms_meta s) (ms_disk s)
    (fset (ms_inflight s) t b) (ms_aborts s) (ms_latest s) (ms_runs s) (ms_used s).
Definition set_runs (aborts : string -> Z) (latest : string -> option Z) (runs : Z) (s : mstate) : mstate :=
  mkState (ms_home s) (ms_status s) (ms_cur s) (ms_lock s) (ms_cancel s) (ms_queue s) (ms_phase s) (ms_meta s) (ms_disk s)
    (ms_inflight s) aborts latest runs (ms_used s).
Definition set_used (used : list string) (s : mstate) : mstate :=
  mkState (ms_home s) (ms_status s) (ms_cur s) (ms_lock s) (ms_cancel s) (ms_queue s) (ms_phase s) (ms_meta s) (ms_disk s)
    (ms_inflight s) (ms_aborts s) (ms_latest s) (ms_runs s) used.
Definition set_cur (c : content) (s : mstate) : mstate :=
  mkState (ms_home s) (ms_status s) c (ms_lock s) (ms_cancel s) (ms_queue s) (ms_phase s) (ms_meta s) (ms_disk s)
    (ms_inflight s) (ms_aborts s) (ms_latest s) (ms_runs s) (ms_used s).

Definition with_dir (v : option content) (d : disk) : disk :=
  mkDisk v (dk_marker d) (dk_tmp d) (dk_archive d) (dk_origin d) (dk_discard d) (dk_part d).
Definition with_marker (v : option string) (d : disk) : disk :=
  mkDisk (dk_dir d) v (dk_tmp d) (dk_archive d) (dk_origin d) (dk_discard d) (dk_part d).
Definition with_tmp (v : option content) (d : disk) : disk :=
  mkDisk (dk_dir d) (dk_marker d) v (dk_archive d) (dk_origin d) (dk_discard d) (dk_part d).
Definition with_archive (v : option content) (d : disk) : disk :=
  mkDisk (dk_dir d) (dk_marker d) (dk_tmp d) v (dk_origin d) (dk_discard d) (dk_part d).
Definition with_origin (v : option string) (d : disk) : disk :=
  mkDisk (dk_dir d) (dk_marker d) (dk_tmp d) (dk_archive d) v (dk_discard d) (dk_part d).
Definition with_discard (v : option string) (d : disk) : disk :=
  mkDisk (dk_dir d) (dk_marker d) (dk_tmp d) (dk_archive d) (dk_origin d) v (dk_part d).
Definition with_part (f : string -> option content) (d : disk) : disk :=
  mkDisk (dk_dir d) (dk_marker d) (dk_tmp d) (dk_archive d) (dk_origin d) (dk_discard d) f.

(** ** Calls *)

Definition place_server (s : mstate) (sv : server) : server :=
  mkServer (sv_ID sv) (sv_UUID sv) (ms_home s) (ms_status s) (sv_ServerType sv) (sv_ProxyID sv) (sv_HostPort sv)
    (sv_ContainerPort sv) (sv_DiskLimit sv) (sv_OwnerID sv) (sv_ActiveSubServer sv) (sv_GameImage sv) (sv_Memory sv)
    (sv_RAMPaddingMB sv) (sv_CPULimit sv) (sv_CPUPinningMode sv) (sv_Cpuset sv) (sv_Timezone sv) (sv_ExtraJvmFlags sv).

Definition identify (id : Z) (token : string) (n : node) : node :=
  mkNode id token (nd_Status n) (nd_OwnerID n) (nd_Tags n) (nd_PrivateIPs n) (nd_CpusetCpus n) (nd_RAMPaddingMB n).

Section world.
(** The server, the token of a node, the disk behind a node's storage path, and SHA-256 in hex. *)
Context (sv : server) (tok : Z -> string) (disk_of : string -> string) (sha : content -> string) (cpuPinning : bool).
Local Notation uuid := (sv_UUID sv).

Definition reply (o : outcome) : result unit := if replied o then inl tt else inr "i/o error".

Definition core_call (c : cop) (o : outcome) (oracle : forall c, cans c) (s : mstate) : cans c * mstate :=
  match c return cans c -> cans c * mstate with
  | GetServerByID _ => fun _ => (if replied o then Some (place_server s sv) else None, s)
  | GetNodeByID id => fun a => (identify id (tok id) <$> a, s)
  | RandRead6 => fun b => (b, set_used (hex_encode 12 b :: ms_used s) s)
  | SetNXLock _ _ => fun _ =>
      if applied o then (if replied o then Some (negb (ms_lock s)) else None, set_flags true (ms_cancel s) s) else (None, s)
  | DelLock _ => fun _ => (tt, if applied o then set_flags false (ms_cancel s) s else s)
  | ExistsCancel _ => fun _ => (replied o && ms_cancel s, s)
  | DelCancel _ => fun _ => (tt, if applied o then set_flags (ms_lock s) false s else s)
  | DelProgress t1 t2 u => fun _ =>
      (tt, if applied o then set_meta t2 u None (set_phase t2 u None (set_meta t1 u None (set_phase t1 u None s))) else s)
  | UpdateServerStatus _ st => fun _ => (replied o, if applied o then set_row (ms_home s) st s else s)
  | UpdateServerNode _ n => fun _ => (replied o, if applied o then set_row n (ms_status s) s else s)
  | Publish _ t _ cmd => fun _ => (reply o, if applied o then set_queue t (ms_queue s t ++ [cmd]) s else s)
  | GetNodeStatus t p => fun _ => (if replied o then ms_phase s t p else None, s)
  | GetNodeMeta t p => fun _ => (if replied o then ms_meta s t p else None, s)
  | _ => fun a => (a, s)
  end (oracle c).

(** The node whose staged archive a fetch downloads. *)
Definition source_of (cmd : command) : option string :=
  match cmd with MigrateIn _ from _ _ _ _ _ _ => Some from | _ => None end.

(** A call of the handler of [cmd] on node [t]. [x] are bytes the world does
    not determine: a download with its reply lost is whatever arrived. *)
Definition node_call (t : string) (cmd : command) (c : nop) (o : outcome) (oracle : forall c, nans c) (x : content) (s : mstate) :
    nans c * mstate :=
  let d := ms_disk s (disk_of t) in
  let put d := set_disk (disk_of t) d s in
  match c return nans c -> nans c * mstate with
  | GetServerPath _ => fun _ => ("/storage", s)
  | StoragePaths => fun _ => (["/storage"], s)
  | SelectStoragePath _ => fun _ =>
      if applied o then (inl "/storage", put (with_dir (Some (default "" (dk_dir d))) d)) else (inr "mkdir", s)
  | StatDir _ _ => fun _ => (if dk_dir d then true else false, s)
  | WriteOrigin _ _ => fun _ => (replied o, if applied o then put (with_origin (Some t) d) else s)
  | ReadOrigin _ _ => fun _ => (if replied o then dk_origin d else None, s)
  | RemoveOrigin _ _ => fun _ => (tt, if applied o then put (with_origin None d) else s)
  | Archive _ _ part => fun _ =>
      match dk_dir d with
      | Some c => if replied o then (inl (sha c, Z.of_nat (String.length c)), put (with_part (fset (dk_part d) part (Some c)) d)) else (inr "archive", s)
      | None => (inr "archive", s)
      end
  | RemovePart part => fun _ => (tt, if applied o then put (with_part (fset (dk_part d) part None) d) else s)
  | RenamePart part _ _ => fun _ => (replied o, if applied o then put (with_archive (dk_part d part) d) else s)
  | StatArchive _ _ => fun _ => (if dk_archive d then true else false, s)
  | RemoveArchive _ _ => fun _ => (tt, if applied o then put (with_archive None d) else s)
  | AbortCount _ => fun _ => (ms_aborts s t, s)
  | AbortAdd _ => fun _ => (tt, set_runs (fset (ms_aborts s) t (ms_aborts s t + 1)) (ms_latest s) (ms_runs s) s)
  | NewRun => fun _ => (ms_runs s, set_runs (ms_aborts s) (ms_latest s) (ms_runs s + 1) s)
  | LatestStore _ r => fun _ => (tt, set_runs (ms_aborts s) (fset (ms_latest s) t (Some r)) (ms_runs s) s)
  | LatestLoad _ => fun _ => (ms_latest s t, s)
  | LatestCompareAndDelete _ r => fun _ =>
      (tt, if bool_decide (ms_latest s t = Some r) then set_runs (ms_aborts s) (fset (ms_latest s) t None) (ms_runs s) s else s)
  | SetMeta p m => fun _ => (replied o, if applied o then set_meta t p (Some m) s else s)
  | SetStatus p ph e => fun _ => (tt, if applied o then set_phase t p (Some (mkStatus ph e 0)) s else s)
  | Report p ph => fun _ => (tt, if applied o then set_phase t p (Some (mkStatus ph "" 0)) s else s)
  | Claim _ => fun _ => if ms_inflight s t then (false, s) else (true, set_inflight t true s)
  | Release _ => fun _ => (tt, set_inflight t false s)
  | MarkMovedIn _ _ p => fun _ => (replied o, if applied o then put (with_marker (Some p) d) else s)
  | ReadMovedIn _ _ => fun _ => (if replied o then dk_marker d else None, s)
  | RemoveMovedIn _ _ => fun _ => (tt, if applied o then put (with_marker None d) else s)
  | WriteDiscard _ _ p => fun _ => (replied o, if applied o then put (with_discard (Some p) d) else s)
  | ReadDiscard _ _ => fun _ => (if replied o then dk_discard d else None, s)
  | RemoveDiscard _ _ => fun _ => (tt, if applied o then put (with_discard None d) else s)
  | PullOnce _ _ _ _ _ => fun _ =>
      let served := match source_of cmd with Some from => dk_archive (ms_disk s (disk_of from)) | None => None end in
      match o, served with
      | Replied, Some c => (inl (sha c), put (with_tmp (Some c) d))
      | ReplyLost, _ => (inl (sha x), put (with_tmp (Some x) d))
      | _, _ => (inr "pull", s)
      end
  | RemoveTmp _ _ => fun _ => (tt, if applied o then put (with_tmp None d) else s)
  | RemoveAllDir _ _ => fun _ =>
      match o with
      | Replied => (inl tt, put (with_dir None d))
      | ReplyLost => (inr "unlink", put (with_dir (Some x) d))
      | Failed => (inr "unlink", s)
      end
  | MkdirAllDir _ _ => fun _ => (reply o, if applied o then put (with_dir (Some (default "" (dk_dir d))) d) else s)
  | Extract _ _ _ => fun _ =>
      match o, dk_tmp d with
      | Replied, Some c => (inl tt, put (with_dir (Some c) d))
      | Failed, _ => (inr "zip", s)
      | _, _ => (inr "zip", put (with_dir (Some x) d))
      end
  | RemoveAllFile _ _ _ => fun _ => (reply o, s)
  | _ => fun a => (a, s)
  end (oracle c).

(** ** Steps *)

Inductive label :=
| LStart (req : MigrationRequest)                                          (* the leader takes a request *)
| LCore (i : nat) (o : outcome) (oracle : forall c, cans c)                (* a call of a running [Migrate] *)
| LEnd (i : nat) | LDie (i : nat)                                          (* it returned; its Core went away *)
| LDeliver (t : string)                                                    (* a node takes its next command *)
| LNode (i : nat) (o : outcome) (oracle : forall c, nans c) (x : content)  (* a call of a handler *)
| LWrite (c : content)                                                     (* the server, or its owner, writes data *)
| LSetStatus (st : string)                                                 (* another part of Core writes the status *)
| LExpire (t p : string)                                                   (* a progress key expires *)
| LCancel | LLockExpires
| LRedeliver (i : nat).                                                    (* a node restarts before it acknowledged *)

Definition on_core (w : world) (i : nat) (f : proto -> move ended -> option world) : option world :=
  match w_cores w !! i with Some (s, p) => f s p | None => None end.

Definition wexec (l : label) (w : world) : option world :=
  let st := w_st w in
  match l with
  | LStart req => Some (mkWorld st (w_cores w ++ [(proto0, Migrate cpuPinning req)]) (w_threads w))
  | LCore i o oracle =>
      on_core w i (fun s p =>
        match p with
        | Ret _ => None
        | Do c k => let '(a, st') := core_call c o oracle st in
                    Some (mkWorld st' (<[i := (pstep s c a, k a)]> (w_cores w)) (w_threads w))
        end)
  | LEnd i => on_core w i (fun s p => match p with Ret _ => Some (mkWorld st (delete i (w_cores w)) (w_threads w)) | Do _ _ => None end)
  | LDie i => on_core w i (fun s p => Some (mkWorld st (delete i (w_cores w)) (w_threads w)))
  | LDeliver t =>
      match ms_queue st t with
      | cmd :: q => Some (mkWorld (set_queue t q st) (w_cores w) (w_threads w ++ [mkThread t cmd NStart (handle t uuid cmd)]))
      | [] => None
      end
  | LNode i o oracle x =>
      match w_threads w !! i with
      | Some (mkThread t cmd s (Do c k)) =>
          let '(a, st') := node_call t cmd c o oracle x st in
          Some (mkWorld st' (w_cores w) (<[i := mkThread t cmd (nstep uuid cmd s c a) (k a)]> (w_threads w)))
      | _ => None
      end
  | LWrite c =>
      let h := disk_of (tok (ms_home st)) in
      Some (mkWorld (set_disk h (with_dir (Some c) (ms_disk st h)) (set_cur c st)) (w_cores w) (w_threads w))
  | LSetStatus s => Some (mkWorld (set_row (ms_home st) s st) (w_cores w) (w_threads w))
  | LExpire t p => Some (mkWorld (set_meta t p None (set_phase t p None st)) (w_cores w) (w_threads w))
  | LCancel => Some (mkWorld (set_flags (ms_lock st) true st) (w_cores w) (w_threads w))
  | LLockExpires => Some (mkWorld (set_flags false (ms_cancel st) st) (w_cores w) (w_threads w))
  | LRedeliver i =>
      match w_threads w !! i with
      | Some th => Some (mkWorld (set_inflight (t_tok th) false (set_queue (t_tok th) (t_cmd th :: ms_queue st (t_tok th)) st))
                           (w_cores w) (<[i := mkThread (t_tok th) (t_cmd th) NFree (Ret tt)]> (w_threads w)))
      | None => None
      end
  end.

(** A command that writes or deletes the directory whatever it finds there. *)
Definition dangerous (cmd : command) : bool := match fetches cmd, cmd with Some _, _ => true | None, MigrateCleanup => true | _, _ => false end.

(** ** What the moves rely on

    [occurs] are the contents that come up at all; SHA-256 is assumed to tell
    only those apart. *)
Context (occurs : content -> bool).

Definition tame (w : world) (l : label) : bool :=
  let st := w_st w in
  match l with
  | LStart _ => match w_cores w with [] => true | _ => false end
  | LCore i o oracle =>
      match w_cores w !! i with
      | Some (_, Do c _) =>
          match c with
          | UpdateServerNode _ _ => match o with ReplyLost => false | _ => true end
          | UpdateServerStatus _ s => negb (s =? "migrating")%string || applied o
          | RandRead6 => bool_decide (hex_encode 12 (oracle RandRead6) ∉ ms_used st)
          | _ => true
          end
      | _ => true
      end
  | LDeliver t => forallb (fun th => negb ((t_tok th =? t)%string && dangerous (t_cmd th) && match t_stage th with NStart => true | _ => false end)) (w_threads w)
  | LNode i o _ x =>
      occurs x &&
      match w_threads w !! i with
      | Some (mkThread _ _ _ (Do (MarkMovedIn _ _ _) _)) => applied o
      | _ => true
      end
  | LWrite c => occurs c && negb (ms_status st =? "migrating")%string
  | LSetStatus s => negb (ms_status st =? "migrating")%string && negb (s =? "migrating")%string
  | LLockExpires => match w_cores w with [] => true | _ => false end
  | LRedeliver _ => false
  | LEnd _ | LDie _ | LExpire _ _ | LCancel => true
  end.

Definition wstep (w w' : world) : Prop := exists l, tame w l = true /\ wexec l w = Some w'.

(** The server's data is where Core says the server lives. *)
Definition intact (w : world) : Prop := dk_dir (ms_disk (w_st w) (disk_of (tok (ms_home (w_st w))))) = Some (ms_cur (w_st w)).

Definition blank : disk := mkDisk None None None None None None (fun _ => None).

(** A server at rest on a node. *)
Definition at_rest (home : Z) (status : string) (c : content) : world :=
  mkWorld (mkState home status c false false (fun _ => []) (fun _ _ => None) (fun _ _ => None)
             (fset (fun _ => blank) (disk_of (tok home)) (with_dir (Some c) blank)) (fun _ => false) (fun _ => 0) (fun _ => None) 0 [])
    [] [].
End world.
