(* ===== verification/MoveSafety.v ===== *)
(** * No move loses data (over MoveWorld.v)

    In every world reached by [tame] steps the server's data is on the node the
    row names. The invariant follows the protocol of Moves.v: what is at the
    node the server lives on, what a transfer has made of the target's
    directory, and which commands are on their way. *)

From Stdlib Require Import Ascii String.
From S2P Require Import Prelude GoStrings Programs Release Migration MigrationNode Moves MoveWorld.
Open Scope string_scope.
Open Scope list_scope.
Open Scope Z_scope.

Notation length := List.length.

Lemma str_app_inj (a b c : string) : a +:+ b = a +:+ c -> b = c.
Proof. induction a as [|x a IH]; [done|]. intros E. apply IH. by injection E. Qed.

Lemma str_app_nil (a b : string) : a = a +:+ b -> b = "".
Proof. induction a as [|x a IH]; intros E; [done|]. apply IH. by injection E. Qed.

Lemma progress_inj u k k' : MigrationProgressID u k = MigrationProgressID u k' -> k = k'.
Proof.
  unfold MigrationProgressID. destruct (k =? "")%string eqn:E1, (k' =? "")%string eqn:E2; intros H; to_prop; subst; [done|..].
  - by apply str_app_nil in H.
  - symmetry in H. by apply str_app_nil in H.
  - apply str_app_inj in H. by injection H.
Qed.

Lemma nstep_not_start uuid cmd s c a : s <> NStart -> nstep uuid cmd s c a <> NStart.
Proof. intros Hs. destruct c; cbn; repeat case_match; done. Qed.

#[export] Instance stage_eq_dec : EqDecision stage.
Proof. solve_decision. Defined.

#[export] Instance nstage_eq_dec : EqDecision nstage.
Proof. solve_decision. Defined.

Section safety.
Context (sv : server) (tok : Z -> string) (disk_of : string -> string) (sha : content -> string) (cpuPinning : bool).
Local Notation uuid := (sv_UUID sv).
Local Notation prg k := (MigrationProgressID uuid k).
Local Notation ncall := (node_call disk_of sha).

(** Node tokens are distinct, so are their disks; digests are lower-case hex, and no two contents that come up collide. *)
Context (occurs : content -> bool) (tok_inj : forall i j, tok i = tok j -> i = j)
  (disk_inj : forall t t', disk_of t = disk_of t' -> t = t')
  (sha_inj : forall c c', occurs c = true -> occurs c' = true -> sha c = sha c' -> c = c')
  (empty_occurs : occurs "" = true)
  (sha_hex : forall c, wanted (sha c) = sha c).

Definition dsk (s : mstate) (n : string) : disk := ms_disk s (disk_of n).

(** ** One call of a handler *)

(** What a call on node [t] leaves alone. *)
Definition elsewhere (t : string) (s s' : mstate) : Prop :=
  forall n, n <> t -> dsk s' n = dsk s n /\ ms_inflight s' n = ms_inflight s n /\ ms_phase s' n = ms_phase s n /\ ms_meta s' n = ms_meta s n.
Definition same_row (s s' : mstate) : Prop :=
  ms_home s' = ms_home s /\ ms_status s' = ms_status s /\ ms_cur s' = ms_cur s /\ ms_queue s' = ms_queue s /\ ms_used s' = ms_used s.
Definition same_data (d d' : disk) : Prop := dk_dir d' = dk_dir d /\ dk_marker d' = dk_marker d /\ dk_tmp d' = dk_tmp d.

Lemma dsk_set s t n d : dsk (set_disk (disk_of t) d s) n = if decide (n = t) then d else dsk s n.
Proof.
  unfold dsk, set_disk, fset. cbn. destruct (decide (n = t)) as [->|Hne]; [by rewrite decide_True|].
  rewrite decide_False; [done|]. intros E. by apply disk_inj in E.
Qed.

Lemma node_row t cmd c o orc x s a s' : ncall t cmd c o orc x s = (a, s') -> same_row s s'.
Proof. intros E. destruct c; cbn in E; repeat case_match; simplify_eq; done. Qed.

Lemma node_elsewhere t cmd c o orc x s a s' : ncall t cmd c o orc x s = (a, s') -> elsewhere t s s'.
Proof.
  intros E n Hn. destruct c; cbn in E; repeat case_match; simplify_eq; try done;
    rewrite ?dsk_set, ?decide_False by done; try done;
    cbn; rewrite ?fset_ne by done; done.
Qed.

(** A call that neither writes data of the server nor gives a claim back. *)
Definition gentle (c : nop) : bool :=
  match c with
  | SelectStoragePath _ | MarkMovedIn _ _ _ | PullOnce _ _ _ _ _ | RemoveTmp _ _ | RemoveAllDir _ _ | MkdirAllDir _ _
  | Extract _ _ _ | RemoveMovedIn _ _ | Release _ => false
  | _ => true
  end.

Lemma gentle_data t cmd c o orc x s a s' :
  ncall t cmd c o orc x s = (a, s') -> gentle c = true ->
  same_data (dsk s t) (dsk s' t) /\ (ms_inflight s t = true -> ms_inflight s' t = true).
Proof.
  intros E Hg. destruct c; try done; cbn in E; repeat case_match; simplify_eq;
    rewrite ?dsk_set, ?decide_True by done; try done; (split; [try done|]); cbn; rewrite ?fset_eq; try done.
Qed.

Lemma idle_gentle cmd s c : nguard uuid cmd s c -> holding s = false -> gentle c = true.
Proof. intros Hg Hs. destruct c; try done; cbn in Hg; naive_solver. Qed.

Lemma reported_gentle cmd s c : nguard uuid cmd s c -> s = NReported -> gentle c = true \/ c = Release uuid.
Proof. intros Hg ->. destruct c; cbn in *; naive_solver. Qed.

(** A phase Core acts on is written by the fetch of its attempt alone. *)
Lemma node_phase t cmd s c o orc x st a st' k :
  ncall t cmd c o orc x st = (a, st') -> nguard uuid cmd s c ->
  ms_phase st' t (prg k) = ms_phase st t (prg k) \/
  (exists v, ms_phase st' t (prg k) = Some v /\ decisive (ns_Phase v) = false) \/
  (exists h ph e, c = SetStatus (prg k) ph e /\ fetches cmd = Some (k, h) /\ ms_phase st' t (prg k) = Some (mkStatus ph e 0)).
Proof.
  intros E Hg. destruct c; cbn in E; repeat case_match; simplify_eq; try by left.
  - cbn. rewrite fset_eq. unfold fset. destruct (decide (prg k = progress)) as [<-|Hne]; [|by left].
    cbn in Hg. destruct (fetches cmd) as [[k' h]|] eqn:Ef.
    + destruct Hg as (Hp & _). apply progress_inj in Hp as <-. right. right. by exists h, phase, err.
    + right. left. by eexists.
  - cbn. rewrite fset_eq. unfold fset. destruct (decide (prg k = progress)) as [<-|Hne]; [|by left].
    right. left. eexists. split; [done|]. apply Hg.
Qed.

Lemma node_meta t cmd s c o orc x st a st' k :
  ncall t cmd c o orc x st = (a, st') -> nguard uuid cmd s c ->
  ms_meta st' t (prg k) = ms_meta st t (prg k) \/
  (exists m tm, s = NArchived (nm_SHA256 m) /\ cmd = MigrateOut k tm /\ ms_meta st' t (prg k) = Some m).
Proof.
  intros E Hg. destruct c; cbn in E; repeat case_match; simplify_eq; try by left.
  cbn. rewrite fset_eq. unfold fset. destruct (decide (prg k = progress)) as [<-|Hne]; [|by left].
  right. destruct Hg as (-> & k' & tm & -> & Hp). apply progress_inj in Hp as <-. by exists meta, tm.
Qed.

(** *** The contents *)

Definition kept (d : disk) : Prop :=
  forall c, dk_dir d = Some c \/ dk_tmp d = Some c \/ dk_archive d = Some c \/ (exists p, dk_part d p = Some c) -> occurs c = true.

Definition stocked (s : mstate) : Prop := occurs (ms_cur s) = true /\ forall d, kept (ms_disk s d).

Lemma stocked_put s d v : stocked s -> kept v -> stocked (set_disk d v s).
Proof. intros [H1 H2] Hv. split; [done|]. intros d'. cbn. unfold fset. by case_decide. Qed.

Lemma kept_dir d v : kept d -> (forall c, v = Some c -> occurs c = true) -> kept (with_dir v d).
Proof. intros H Hv c [Hc|Hc]; [by apply Hv|]. apply H. by right. Qed.

Lemma kept_tmp d v : kept d -> (forall c, v = Some c -> occurs c = true) -> kept (with_tmp v d).
Proof. intros H Hv c [Hc|[Hc|Hc]]; [|by apply Hv|]; apply H; cbn in Hc; auto. Qed.

Lemma kept_archive d v : kept d -> (forall c, v = Some c -> occurs c = true) -> kept (with_archive v d).
Proof. intros H Hv c [Hc|[Hc|[Hc|Hc]]]; [| |by apply Hv|]; apply H; cbn in Hc; auto. Qed.

Lemma kept_part d p v : kept d -> (forall c, v = Some c -> occurs c = true) -> kept (with_part (fset (dk_part d) p v) d).
Proof.
  intros H Hv c [Hc|[Hc|[Hc|[q Hc]]]]; [apply H; cbn in Hc; auto..|]. cbn in Hc. unfold fset in Hc. case_decide; [by apply Hv|].
  apply H. eauto.
Qed.

Lemma node_stocked t cmd c o orc x s a s' : ncall t cmd c o orc x s = (a, s') -> occurs x = true -> stocked s -> stocked s'.
Proof.
  intros E Hx Hs. pose proof Hs as [_ Hk]. pose proof (Hk (disk_of t)) as Hd.
  destruct c; cbn in E; repeat case_match; simplify_eq; try done; apply stocked_put; try done; try exact Hd;
    match goal with
    | |- kept (with_dir _ _) => apply kept_dir
    | |- kept (with_tmp _ _) => apply kept_tmp
    | |- kept (with_archive _ _) => apply kept_archive
    | |- kept (with_part _ _) => apply kept_part
    end; try done; intros y Hy; simplify_eq; try done.
  all: try (eapply Hk; eauto; done).
  all: destruct (dk_dir (ms_disk s (disk_of t))) as [y|] eqn:Ey; cbn; [eapply Hd; eauto|done].
Qed.

(** ** Threads *)

Definition spent (s : nstage) : Prop := s = NFree \/ s = NReported.

(** What a handler knows of the disk by its stage. *)
Definition known (d : disk) (cmd : command) (s : nstage) : Prop :=
  match s with
  | NMarked => exists k h, fetches cmd = Some (k, h) /\ dk_marker d = Some (prg k)
  | NPulled => exists k h c, fetches cmd = Some (k, h) /\ dk_marker d = Some (prg k) /\ dk_tmp d = Some c /\ sha c = wanted h
  | NUnpacked => exists k h c, fetches cmd = Some (k, h) /\ dk_marker d = Some (prg k) /\ dk_dir d = Some c /\ sha c = wanted h
  | NMatched => exists k t, cmd = MigrateDiscard k t /\ dk_marker d = Some (prg k)
  | NArchived _ => exists k t, cmd = MigrateOut k t
  | _ => True
  end.

Definition thread_ok (st : mstate) (th : thread) : Prop :=
  works uuid (t_cmd th) (t_stage th) (t_prog th) (fun s _ => holding s = false) /\
  (holding (t_stage th) = true -> ms_inflight st (t_tok th) = true) /\
  known (dsk st (t_tok th)) (t_cmd th) (t_stage th).

Lemma known_same d d' cmd s : same_data d d' -> known d cmd s -> known d' cmd s.
Proof. intros (E1 & E2 & E3). unfold known. rewrite E1, E2, E3. done. Qed.

Lemma known_idle d d' cmd s : holding s = false -> known d cmd s -> known d' cmd s.
Proof. by destruct s. Qed.

(** The stages that know nothing of the disk. *)
Definition ignorant (s : nstage) : bool := match s with NStart | NHeld | NReported | NFree => true | _ => false end.

Lemma known_ignorant d cmd s : ignorant s = true -> known d cmd s.
Proof. by destruct s. Qed.

(** *** The handler that makes the call *)

Lemma own_known t cmd s c o orc x st a st' :
  ncall t cmd c o orc x st = (a, st') -> nguard uuid cmd s c ->
  match c with MarkMovedIn _ _ _ => applied o = true | _ => True end ->
  known (dsk st t) cmd s -> known (dsk st' t) cmd (nstep uuid cmd s c a).
Proof.
  intros E Hg Ho Hk. destruct (gentle c) eqn:Eg.
  - destruct (gentle_data _ _ _ _ _ _ _ _ _ E Eg) as [Hd _]. apply (known_same _ _ cmd s Hd) in Hk.
    destruct c; try done; cbn [nstep].
    + (* Archive *) destruct a as [[h z]|e]; [|done]. destruct Hg as (_ & k & tm & ->). by exists k, tm.
    + (* SetStatus *) destruct (fetches cmd); [by destruct (holding s)|]. destruct cmd; try done. by destruct s.
    + (* Claim *) destruct a; [done|]. by destruct cmd.
    + (* ReadMovedIn *) destruct Hg as (_ & -> & k & tm & ->). case_bool_decide as Ha; [|done]. exists k, tm. split; [done|].
      destruct Hd as (_ & -> & _). cbn in E. destruct (replied o); simplify_eq; done.
  - destruct c; try done; clear Eg; cbn in E, Hg.
    + (* SelectStoragePath *) by destruct Hg as (_ & -> & _).
    + (* MarkMovedIn *) rewrite Ho in E. simplify_eq. destruct Hg as (_ & -> & k & h & Hf & ->). exists k, h.
      by rewrite dsk_set, decide_True.
    + (* PullOnce *) destruct Hg as (_ & -> & _). destruct Hk as (k & h & Hf & Hm). cbn [nstep]. rewrite Hf.
      assert (H : (exists e, a = inr e /\ st' = st) \/ (exists y, a = inl (sha y) /\ st' = set_disk (disk_of t) (with_tmp (Some y) (dsk st t)) st)).
      { repeat case_match; simplify_eq; eauto. }
      destruct H as [(e & -> & ->)|(y & -> & ->)]; [by exists k, h|]. rewrite dsk_set, decide_True by done.
      destruct (sha y =? wanted h)%string eqn:Ey; [|by exists k, h]. to_prop. by exists k, h, y.
    + (* RemoveTmp *) destruct Hg as (_ & _ & Hs). destruct (applied o); simplify_eq; rewrite ?dsk_set, ?decide_True by done.
      all: destruct Hs as [-> |[-> | ->]]; try done.
      all: destruct Hk as (k & h & y & Hf & Hm & _); by exists k, h.
    + (* RemoveAllDir *) assert (Hd : dk_marker (dsk st' t) = dk_marker (dsk st t) /\ dk_tmp (dsk st' t) = dk_tmp (dsk st t)).
      { repeat case_match; simplify_eq; by rewrite ?dsk_set, ?decide_True. }
      destruct Hd as [Hm Ht]. destruct Hg as (_ & [[_ [-> | ->]]|[[_ ->]|[_ ->]]]); cbn in *; rewrite ?Hm, ?Ht; try done.
      destruct Hk as (k & h & y & Hf & Hmk & _). by exists k, h.
    + (* MkdirAllDir *) destruct Hg as (_ & _ & ->). cbn in *.
      destruct (applied o); simplify_eq; rewrite ?dsk_set, ?decide_True by done; done.
    + (* Extract *) destruct Hg as (_ & _ & ->). destruct Hk as (k & h & y & Hf & Hm & Ht & Hy). change (ms_disk st (disk_of t)) with (dsk st t) in E. rewrite Ht in E.
      destruct o; simplify_eq; cbn [nstep known]; exists k, h, y; rewrite ?dsk_set, ?decide_True by done; done.
Qed.

Lemma inflight_kept t cmd c o orc x st a st' :
  ncall t cmd c o orc x st = (a, st') ->
  match c with Claim _ | Release _ => True | _ => ms_inflight st' t = ms_inflight st t end.
Proof. intros E. destruct c; try done; cbn in E; repeat case_match; simplify_eq; done. Qed.

Lemma holding_kept cmd s c a :
  nguard uuid cmd s c -> holding (nstep uuid cmd s c a) = true -> match c with Claim _ => True | _ => holding s = true end.
Proof.
  intros Hg. destruct c; try done; cbn [nstep nguard] in *; intros Hh.
  - destruct a as [[h z]|e]; done.
  - destruct (fetches cmd); [by destruct (holding s)|]. destruct cmd; try done. by destruct s.
  - by destruct Hg as (_ & -> & _).
  - by destruct Hg as (_ & -> & _).
  - by destruct Hg as (_ & -> & _).
  - by destruct Hg as (_ & -> & _).
  - by destruct s.
  - by destruct s.
  - by destruct Hg as (_ & _ & ->).
Qed.

(** A claim is held already, or was free and is taken by this call. *)
Lemma own_holding t cmd s c o orc x st a st' :
  ncall t cmd c o orc x st = (a, st') -> nguard uuid cmd s c -> holding (nstep uuid cmd s c a) = true ->
  holding s = true /\ ms_inflight st' t = ms_inflight st t \/ ms_inflight st t = false /\ ms_inflight st' t = true.
Proof.
  intros E Hg Hh. pose proof (inflight_kept _ _ _ _ _ _ _ _ _ E) as Hi. pose proof (holding_kept _ _ _ _ Hg Hh) as Hs.
  destruct c; try by left.
  - cbn in E. destruct (ms_inflight st t) eqn:Ei; simplify_eq.
    + cbn in Hg, Hh. destruct Hg as (_ & -> & _). by destruct cmd.
    + right. split; [done|]. cbn. by rewrite fset_eq.
Qed.

(** ** The invariant's parts *)

Definition at_thread (w : world) (i : nat) (th : thread) : Prop := w_threads w !! i = Some th.

Definition threads_ok (w : world) : Prop := forall i th, at_thread w i th -> thread_ok (w_st w) th.

(** At most one handler of a node holds the claim. *)
Definition claims_ok (w : world) : Prop :=
  forall i j ti tj, at_thread w i ti -> at_thread w j tj -> t_tok ti = t_tok tj ->
    holding (t_stage ti) = true -> holding (t_stage tj) = true -> i = j.

(** A discard of this command would not match the marker. *)
Definition unmatched (d : disk) (cmd : command) : Prop := forall k t, cmd = MigrateDiscard k t -> dk_marker d <> Some (prg k).

Definition quiet (d : disk) (th : thread) : Prop :=
  (dangerous (t_cmd th) = true -> spent (t_stage th)) /\ unmatched d (t_cmd th).

(** Nothing on its way to node [n] or running there touches its directory. *)
Definition safe (w : world) (n : string) : Prop :=
  (forall cmd, cmd ∈ ms_queue (w_st w) n -> dangerous cmd = false /\ unmatched (dsk (w_st w) n) cmd) /\
  (forall i th, at_thread w i th -> t_tok th = n -> quiet (dsk (w_st w) n) th).

Definition guarded (w : world) (n : string) : Prop := safe w n /\ dk_dir (dsk (w_st w) n) = Some (ms_cur (w_st w)).

Definition indecisive (v : option nodeStatus) : Prop := forall st, v = Some st -> decisive (ns_Phase st) = false.
Definition phase_is (v : option nodeStatus) (p : string) : Prop := exists st, v = Some st /\ ns_Phase st = p.

(** Commands of attempt [k] that fetch or discard its copy. *)
Definition handles (cmd : command) (k : string) : Prop := (exists h, fetches cmd = Some (k, h)) \/ exists t, cmd = MigrateDiscard k t.

Definition nofetch (w : world) (k : string) : Prop :=
  (forall n cmd, cmd ∈ ms_queue (w_st w) n -> ~ handles cmd k) /\ (forall i th, at_thread w i th -> ~ handles (t_cmd th) k) /\
  (forall n, indecisive (ms_phase (w_st w) n (prg k))).

Definition nodiscard (w : world) (k : string) : Prop :=
  (forall n t, MigrateDiscard k t ∉ ms_queue (w_st w) n) /\ (forall i th t, at_thread w i th -> t_cmd th <> MigrateDiscard k t).

(** Nothing of attempt [k] was sent. *)
Definition unsent (w : world) (k : string) : Prop :=
  nofetch w k /\ (forall n t, MigrateOut k t ∉ ms_queue (w_st w) n) /\
  (forall i th t, at_thread w i th -> t_cmd th <> MigrateOut k t) /\ (forall n, ms_meta (w_st w) n (prg k) = None).

Definition fresh_ok (w : world) : Prop := forall k, k ∉ ms_used (w_st w) -> unsent w k.

(** What the source publishes for attempt [k] is the hash of the data. *)
Definition sources_ok (w : world) (n k : string) : Prop :=
  (forall m, ms_meta (w_st w) n (prg k) = Some m -> nm_SHA256 m = sha (ms_cur (w_st w))) /\
  (forall i th t h, at_thread w i th -> t_tok th = n -> t_cmd th = MigrateOut k t -> t_stage th = NArchived h -> h = sha (ms_cur (w_st w))).

(** A fetch of attempt [k] still to end on node [n]. *)
Definition unspent (w : world) (n k : string) (i : nat) : Prop :=
  exists th h, at_thread w i th /\ t_tok th = n /\ fetches (t_cmd th) = Some (k, h) /\ ~ spent (t_stage th).

Definition undecided (w : world) (n k : string) (remote : bool) : Prop :=
  ~ phase_is (ms_phase (w_st w) n (prg k)) "transferred" /\ (remote = false -> ~ phase_is (ms_phase (w_st w) n (prg k)) "need_remote").

(** The fetch is still queued, with nothing dangerous behind it. *)
Definition queued (w : world) (n k : string) (remote : bool) : Prop :=
  (exists pre cmd h post, ms_queue (w_st w) n = pre ++ cmd :: post /\ fetches cmd = Some (k, h) /\
     (forall c h, c ∈ pre -> fetches c <> Some (k, h)) /\ (forall c, c ∈ post -> dangerous c = false)) /\
  (forall i, ~ unspent w n k i) /\ undecided w n k remote.

(** The fetch was taken, after everything dangerous before it. *)
Definition taken (w : world) (n k : string) (remote : bool) : Prop :=
  (forall c, c ∈ ms_queue (w_st w) n -> dangerous c = false) /\
  (forall i th, at_thread w i th -> t_tok th = n -> dangerous (t_cmd th) = true -> (forall h, fetches (t_cmd th) <> Some (k, h)) ->
     t_stage th <> NStart) /\
  (forall i j, unspent w n k i -> unspent w n k j -> i = j) /\
  (forall i, unspent w n k i -> undecided w n k remote).

(** The fetch never reached the stream. *)
Definition absent (w : world) (n k : string) (remote : bool) : Prop :=
  (forall c h, c ∈ ms_queue (w_st w) n -> fetches c <> Some (k, h)) /\ (forall i, ~ unspent w n k i) /\ undecided w n k remote.

Definition fetch_ok (w : world) (n k : string) (remote : bool) : Prop :=
  (forall m c h, c ∈ ms_queue (w_st w) m -> fetches c = Some (k, h) -> m = n /\ h = sha (ms_cur (w_st w))) /\
  (forall i th h, at_thread w i th -> fetches (t_cmd th) = Some (k, h) -> t_tok th = n /\ h = sha (ms_cur (w_st w))) /\
  nodiscard w k /\
  (queued w n k remote \/ taken w n k remote \/ absent w n k remote) /\
  (phase_is (ms_phase (w_st w) n (prg k)) "transferred" -> guarded w n).

(** The fetch ended without the data, and nothing else is on its way. *)
Definition turned_away (w : world) (n k : string) : Prop :=
  (forall c, c ∈ ms_queue (w_st w) n -> dangerous c = false) /\ (forall i, ~ unspent w n k i) /\
  ~ phase_is (ms_phase (w_st w) n (prg k)) "transferred".

(** ** Harmless calls *)

Lemma not_dangerous cmd : dangerous cmd = false -> fetches cmd = None /\ cmd <> MigrateCleanup.
Proof. unfold dangerous. by destruct cmd. Qed.

Lemma harmless_call cmd s c :
  nguard uuid cmd s c -> dangerous cmd = false -> gentle c = false -> c = Release uuid \/ s = NMatched.
Proof.
  intros Hg Hd Hc. apply not_dangerous in Hd as [Hf Hn]. destruct c; try done; cbn in Hg; rewrite ?Hf in Hg.
  - by destruct Hg as (_ & _ & [? ?]).
  - left. by destruct Hg as [-> _].
  - by destruct Hg as (_ & _ & k & h & ? & _).
  - right. apply Hg.
  - by destruct Hg as (_ & _ & [? ?]).
  - by destruct Hg as (_ & [? ?] & _).
  - destruct Hg as (_ & [[[? ?] _]|[[? _]|[_ ?]]]); [done|done|by right].
  - by destruct Hg as (_ & [? ?] & _).
  - by destruct Hg as (_ & [? ?] & _).
Qed.

Lemma spent_call cmd s c : nguard uuid cmd s c -> spent s -> gentle c = true \/ c = Release uuid.
Proof.
  intros Hg Hs. destruct c; try (by left); cbn in Hg.
  - destruct Hg as (_ & -> & _). by destruct Hs.
  - right. by destruct Hg as [-> _].
  - destruct Hg as (_ & -> & _). by destruct Hs.
  - destruct Hg as (_ & -> & _). by destruct Hs.
  - destruct Hg as (_ & -> & _). by destruct Hs.
  - destruct Hg as (_ & _ & [-> |[-> | ->]]); by destruct Hs.
  - destruct Hg as (_ & [[_ [-> | ->]]|[[_ ->]|[_ ->]]]); by destruct Hs.
  - destruct Hg as (_ & _ & ->); by destruct Hs.
  - destruct Hg as (_ & _ & ->); by destruct Hs.
Qed.

Lemma spent_step cmd s c a : nguard uuid cmd s c -> dangerous cmd = true -> spent s -> spent (nstep uuid cmd s c a).
Proof.
  intros Hg Hd Hs. destruct (spent_call _ _ _ Hg Hs) as [Hc| ->]; [|by left].
  destruct c; try done; cbn [nstep].
  - destruct Hg as (_ & k & tm & ->). done.
  - destruct (fetches cmd); [destruct (holding s); [by right|by left]|]. destruct cmd; try done. destruct Hs as [-> | ->]; [by left|by right].
  - destruct Hg as (_ & -> & _). by destruct Hs.
  - by destruct cmd.
Qed.

Lemma report_step cmd s c p ph e kh :
  c = SetStatus p ph e -> fetches cmd = Some kh ->
  gentle c = true /\ forall a, nstep uuid cmd s c a = if holding s then NReported else NFree.
Proof. intros -> Hf. split; [done|]. intros a. cbn. by rewrite Hf. Qed.

(** ** A step of a handler *)
Section node_step.
Context (w : world) (i : nat) (t : string) (cmd : command) (s : nstage) (c : nop) (k : nans c -> handler unit)
  (o : outcome) (orc : forall c, nans c) (x : content) (a : nans c) (st' : mstate).
Context (Hi : at_thread w i (mkThread t cmd s (Do c k)))
  (E : ncall t cmd c o orc x (w_st w) = (a, st'))
  (Ho : match c with MarkMovedIn _ _ _ => applied o = true | _ => True end)
  (Hthr : threads_ok w) (Hcl : claims_ok w) (Hstk : stocked (w_st w)).
Local Notation me := (mkThread t cmd (nstep uuid cmd s c a) (k a)).
Local Notation w' := (mkWorld st' (w_cores w) (<[i := me]> (w_threads w))).

Lemma my_guard : nguard uuid cmd s c.
Proof. destruct (Hthr _ _ Hi) as [[H _] _]. exact H. Qed.

Lemma my_known : known (dsk (w_st w) t) cmd s.
Proof. by destruct (Hthr _ _ Hi) as (_ & _ & H). Qed.

Lemma my_claim : holding s = true -> ms_inflight (w_st w) t = true.
Proof. by destruct (Hthr _ _ Hi) as (_ & H & _). Qed.

Lemma at_new : at_thread w' i me.
Proof. unfold at_thread. cbn. rewrite list_lookup_insert_eq; [done|]. by apply lookup_lt_Some in Hi. Qed.

Lemma at_old j th : at_thread w' j th -> j = i /\ th = me \/ j <> i /\ at_thread w j th.
Proof.
  unfold at_thread. cbn. destruct (decide (i = j)) as [<-|Hne].
  - rewrite list_lookup_insert_eq by (by apply lookup_lt_Some in Hi). intros [= <-]. by left.
  - rewrite list_lookup_insert_ne by done. by right.
Qed.

(** Another handler of this node that holds the claim sees gentle calls only. *)
Lemma others_gentle j th : j <> i -> at_thread w j th -> t_tok th = t -> holding (t_stage th) = true -> gentle c = true.
Proof.
  intros Hne Hj Ht Hh. destruct (holding s) eqn:Hs; [|by eapply idle_gentle; [apply my_guard|]].
  exfalso. apply Hne. by eapply (Hcl j i th).
Qed.

Lemma ns_threads : threads_ok w'.
Proof.
  intros j th Hj. apply at_old in Hj as [[-> ->]|[Hne Hj]].
  - destruct (Hthr _ _ Hi) as ([Hg Hw] & _ & _). split; [apply Hw|]. cbn. split.
    + intros Hh. destruct (own_holding _ _ _ _ _ _ _ _ _ _ E Hg Hh) as [[Hs ->]|[_ ->]]; [by apply my_claim|done].
    + by eapply own_known; [exact E|..|apply my_known].
  - destruct (Hthr _ _ Hj) as (Hw & Hin & Hk). split; [done|]. cbn.
    destruct (decide (t_tok th = t)) as [Et|Hnt].
    + destruct (holding (t_stage th)) eqn:Hh; [|split; [done|by eapply known_idle]].
      assert (Hg : gentle c = true) by by eapply others_gentle.
      destruct (gentle_data _ _ _ _ _ _ _ _ _ E Hg) as [Hd Hf]. rewrite Et in *. split; [auto|by eapply known_same].
    + destruct (node_elsewhere _ _ _ _ _ _ _ _ _ E _ Hnt) as (-> & -> & _ & _). done.
Qed.

Lemma ns_claims : claims_ok w'.
Proof.
  assert (Hnew : forall j th, j <> i -> at_thread w j th -> t_tok th = t -> holding (t_stage th) = true ->
    holding (nstep uuid cmd s c a) = true -> False).
  { intros j th Hne Hj Et Hh Hm. destruct (own_holding _ _ _ _ _ _ _ _ _ _ E my_guard Hm) as [[Hs _]|[Hf _]].
    - apply Hne. by eapply (Hcl j i th).
    - destruct (Hthr _ _ Hj) as (_ & Hin & _). rewrite Et, Hf in Hin. by specialize (Hin Hh). }
  intros j1 j2 t1 t2 H1 H2 Et Hh1 Hh2.
  apply at_old in H1 as [[-> ->]|[Hn1 H1]], H2 as [[-> ->]|[Hn2 H2]]; cbn in *; [done|..|by eapply Hcl].
  - exfalso. by eapply (Hnew j2 t2).
  - exfalso. by eapply (Hnew j1 t1).
Qed.

(** *** A node that is left alone *)

(** A quiet handler leaves the data alone and stays quiet. *)
Lemma quiet_step : quiet (dsk (w_st w) t) (mkThread t cmd s (Do c k)) ->
  same_data (dsk (w_st w) t) (dsk st' t) /\ (dangerous cmd = true -> spent (nstep uuid cmd s c a)).
Proof.
  intros [Hq Hu]. cbn in *. pose proof my_guard as Hg.
  assert (Hgentle : gentle c = true \/ c = Release uuid).
  { destruct (dangerous cmd) eqn:Hd; [by eapply spent_call; [|apply Hq]|].
    destruct (gentle c) eqn:Hc; [by left|]. destruct (harmless_call _ _ _ Hg Hd Hc) as [->|Hs]; [by right|].
    pose proof my_known as Hk. rewrite Hs in Hk. destruct Hk as (k' & tm & -> & Hm). by destruct (Hu k' tm eq_refl). }
  split; [|intros Hd; by apply spent_step; auto].
  destruct Hgentle as [Hgentle| ->]; [by destruct (gentle_data _ _ _ _ _ _ _ _ _ E Hgentle)|]. cbn in E. by simplify_eq.
Qed.

Lemma ns_row : same_row (w_st w) st'.
Proof. by eapply node_row. Qed.

Lemma ns_guarded n : guarded w n -> guarded w' n.
Proof.
  intros [[Hq Ht] Hd]. destruct ns_row as (_ & _ & Ec & Eq & _).
  assert (Hdata : same_data (dsk (w_st w) n) (dsk st' n) /\ (t = n -> dangerous cmd = true -> spent (nstep uuid cmd s c a))).
  { destruct (decide (n = t)) as [->|Hn].
    - destruct (quiet_step (Ht _ _ Hi eq_refl)) as [H1 H2]. auto.
    - destruct (node_elsewhere _ _ _ _ _ _ _ _ _ E _ Hn) as [-> _]. done. }
  destruct Hdata as [(Hdir & Hmk & _) Hsp]. unfold guarded, safe, unmatched. cbn. rewrite Hdir, Hmk, Ec, Eq.
  split; [split; [exact Hq|]|exact Hd].
  intros j th Hj Htn. unfold quiet, unmatched. rewrite Hmk. apply at_old in Hj as [[-> ->]|[_ Hj]]; [|by apply (Ht j th)].
  cbn in *. split; [by apply Hsp|]. by apply (Ht _ _ Hi Htn).
Qed.

Lemma cmds_same (P : command -> Prop) :
  (forall j th, at_thread w j th -> P (t_cmd th)) -> forall j th, at_thread w' j th -> P (t_cmd th).
Proof. intros H j th Hj. apply at_old in Hj as [[-> ->]|[_ Hj]]; [exact (H _ _ Hi)|by eapply H]. Qed.

Lemma ns_phase n k' :
  (forall h, fetches cmd = Some (k', h) -> n <> t) ->
  ms_phase st' n (prg k') = ms_phase (w_st w) n (prg k') \/ indecisive (ms_phase st' n (prg k')).
Proof.
  intros Hk. destruct (decide (n = t)) as [->|Hn].
  - destruct (node_phase _ _ _ _ _ _ _ _ _ _ k' E my_guard) as [H|[(v & Hv & Hd)|(h & ph & e & _ & Hf & _)]];
      [by left|right; intros st; rewrite Hv; by intros [= <-]|]. by destruct (Hk h).
  - left. by destruct (node_elsewhere _ _ _ _ _ _ _ _ _ E _ Hn) as (_ & _ & -> & _).
Qed.

Lemma ns_nofetch k' : nofetch w k' -> nofetch w' k'.
Proof.
  intros (H1 & H2 & H3). destruct ns_row as (_ & _ & _ & Eq & _). split; [cbn; by rewrite Eq|]. split.
  - by apply (cmds_same (fun c => ~ handles c k')).
  - intros n. destruct (ns_phase n k') as [E'|H]; [|by cbn; rewrite E'; apply H3|done].
    intros h Hf. destruct (H2 _ _ Hi). left. by exists h.
Qed.

Lemma ns_unsent k' : unsent w k' -> unsent w' k'.
Proof.
  intros (H1 & H2 & H3 & H4). destruct ns_row as (_ & _ & _ & Eq & _). split; [by apply ns_nofetch|]. split; [cbn; by rewrite Eq|]. split.
  - intros j th tm. by apply (cmds_same (fun c => c <> MigrateOut k' tm)); intros; eapply H3.
  - intros n. cbn. destruct (decide (n = t)) as [->|Hn].
    + destruct (node_meta _ _ _ _ _ _ _ _ _ _ k' E my_guard) as [->|(m & tm & _ & Hc & _)]; [apply H4|].
      by destruct (H3 _ _ tm Hi).
    + destruct (node_elsewhere _ _ _ _ _ _ _ _ _ E _ Hn) as (_ & _ & _ & ->). apply H4.
Qed.

Lemma ns_fresh : fresh_ok w -> fresh_ok w'.
Proof. intros H k' Hk. destruct ns_row as (_ & _ & _ & _ & Eu). cbn in Hk. rewrite Eu in Hk. by apply ns_unsent, H. Qed.

Lemma ns_nodiscard k' : nodiscard w k' -> nodiscard w' k'.
Proof.
  intros [H1 H2]. destruct ns_row as (_ & _ & _ & Eq & _). split; [cbn; by rewrite Eq|].
  intros j th tm. by apply (cmds_same (fun c => c <> MigrateDiscard k' tm)); intros; eapply H2.
Qed.

Lemma ns_sources n k' :
  dk_dir (dsk (w_st w) n) = Some (ms_cur (w_st w)) -> sources_ok w n k' -> sources_ok w' n k'.
Proof.
  intros Hd [H1 H2]. destruct ns_row as (_ & _ & Ec & _). split; cbn; rewrite Ec.
  - intros m Hm. destruct (decide (n = t)) as [->|Hn].
    + destruct (node_meta _ _ _ _ _ _ _ _ _ _ k' E my_guard) as [E'|(m' & tm & -> & -> & E')].
      * rewrite E' in Hm. by apply H1.
      * rewrite E' in Hm. injection Hm as <-. by apply (H2 _ _ tm _ Hi).
    + destruct (node_elsewhere _ _ _ _ _ _ _ _ _ E _ Hn) as (_ & _ & _ & E'). rewrite E' in Hm. by apply H1.
  - intros j th tm h Hj Ht Hc Hs. apply at_old in Hj as [[-> ->]|[_ Hj]]; [|by apply (H2 j th tm)]. pose proof my_guard as Hg. cbn in *. subst n cmd.
    destruct (decide (nstep uuid (MigrateOut k' tm) s c a = s)) as [Es|Hne].
    { rewrite Es in Hs. by apply (H2 _ _ tm h Hi). }
    destruct c; cbn in Hs, Hne, Hg; try done; try (by destruct s).
    all: try (by destruct Hg as (_ & _ & [?|[?|(? & ? & ?)]])).
    + change (ms_disk (w_st w) (disk_of t)) with (dsk (w_st w) t) in E. cbn in E. unfold dsk in Hd. rewrite Hd in E.
      by destruct (replied o); simplify_eq.
    + by destruct Hg as (_ & _ & [? ?]).
    + by destruct Hg as (_ & [? ?] & _).
Qed.

(** *** A fetch on its way *)

Lemma unspent_back n k' j : unspent w' n k' j -> unspent w n k' j.
Proof.
  intros (th & h & Hj & Ht & Hf & Hs). apply at_old in Hj as [[-> ->]|[_ Hj]]; [|by exists th, h].
  exists (mkThread t cmd s (Do c k)), h. cbn in *. split; [exact Hi|]. split; [done|]. split; [done|]. intros Hsp. apply Hs.
  apply spent_step; [apply my_guard|unfold dangerous; by rewrite Hf|done].
Qed.

(** The phase of an attempt is decided by the last act of its fetch. *)
Lemma ns_decides n k' :
  ms_phase st' n (prg k') = ms_phase (w_st w) n (prg k') \/ indecisive (ms_phase st' n (prg k')) \/
  (n = t /\ unspent w n k' i /\ (forall r, ~ unspent w' n k' i \/ undecided w' n k' r) /\
   (phase_is (ms_phase st' n (prg k')) "transferred" -> s = NUnpacked /\ gentle c = true /\ nstep uuid cmd s c a = NReported)).
Proof.
  destruct (decide (n = t)) as [->|Hn].
  2: { left. by destruct (node_elsewhere _ _ _ _ _ _ _ _ _ E _ Hn) as (_ & _ & -> & _). }
  destruct (node_phase _ _ _ _ _ _ _ _ _ _ k' E my_guard) as [H|[(v & Hv & Hd)|(h & ph & e & Hc & Hf & Hp)]]; [by left|..].
  { right; left. intros st. rewrite Hv. by intros [= <-]. }
  pose proof my_guard as Hg. rewrite Hc in Hg. cbn in Hg. rewrite Hf in Hg.
  destruct (report_step cmd s c _ _ _ _ Hc Hf) as [Hgen Hstep]. destruct Hg as (_ & Hnr & Htr & Hnr').
  destruct (decisive ph) eqn:Hd.
  2: { right; left. intros st. rewrite Hp. by intros [= <-]. }
  assert (Hsh : s = NUnpacked \/ s = NHeld).
  { unfold decisive in Hd. apply orb_true_iff in Hd as [Hd|Hd]; to_prop; [left; auto|right; by apply Hnr']. }
  right; right. split; [done|]. split.
  { exists (mkThread t cmd s (Do c k)), h. repeat split; [exact Hi|done|]. cbn.
    intros [?|?]; by destruct Hsh; subst. }
  split.
  - intros r. left. intros (th & h' & Hj & _ & _ & Hs). apply at_old in Hj as [[_ ->]|[Hne _]]; [|done]. apply Hs. cbn. rewrite Hstep.
    destruct Hsh as [-> | ->]; by right.
  - intros (v & Hv & Hph). rewrite Hp in Hv. injection Hv as <-. cbn in Hph. specialize (Htr Hph). split; [done|]. split; [done|].
    by rewrite Hstep, Htr.
Qed.

Lemma spent_dec (st : nstage) : spent st \/ ~ spent st.
Proof. unfold spent. destruct st; (by left; (left + right)) || (right; by intros [?|?]). Qed.

(** The target's directory once its fetch reports it. *)
Lemma ns_arrives n k' r :
  n = t -> s = NUnpacked -> gentle c = true -> nstep uuid cmd s c a = NReported -> unspent w n k' i ->
  fetch_ok w n k' r -> guarded w' n.
Proof.
  intros -> Hs Hgen Hme Hun (_ & Hhash & [Hnd1 Hnd2] & Hcase & _). destruct ns_row as (_ & _ & Ec & Eq & _).
  destruct (gentle_data _ _ _ _ _ _ _ _ _ E Hgen) as [(Hdir & Hmk & _) _].
  pose proof my_known as Hk. rewrite Hs in Hk. destruct Hk as (k2 & h & y & Hf & Hm & Hy & Hsha).
  assert (Ek : k2 = k').
  { destruct Hun as (th & h' & Hj & _ & Hf' & _). assert (th = mkThread t cmd s (Do c k)) as -> by (unfold at_thread in *; congruence).
    cbn in Hf'. congruence. }
  subst k2. destruct (Hhash _ _ h Hi Hf) as [_ ->]. rewrite sha_hex in Hsha.
  apply sha_inj in Hsha as ->; [|eapply Hstk; by left|apply Hstk].
  destruct Hcase as [(_ & Hno & _)|[(Hq & Hst & Huniq & _)|(_ & Hno & _)]]; [by destruct (Hno i)| |by destruct (Hno i)].
  assert (Hum : forall cmd', (forall tm, cmd' <> MigrateDiscard k' tm) -> unmatched (dsk st' t) cmd').
  { intros cmd' Hc k3 tm ->. rewrite Hmk, Hm. intros E3. injection E3 as E3. apply progress_inj in E3 as <-. by apply (Hc tm). }
  split; [split|]; cbn; [rewrite Eq|..|by rewrite Hdir, Ec].
  - intros cmd' Hin. split; [by apply Hq|]. apply Hum. intros tm ->. by apply (Hnd1 t tm).
  - intros j th Hj Ht. split.
    + intros Hd. apply at_old in Hj as [[-> ->]|[Hne Hj]]; [cbn; rewrite Hme; by right|].
      destruct (spent_dec (t_stage th)) as [|Hns]; [done|]. exfalso.
      assert (Hnh : holding (t_stage th) = false).
      { destruct (holding (t_stage th)) eqn:Hh; [|done]. exfalso. apply Hne. eapply (Hcl j i); [exact Hj|exact Hi|done|done|].
        cbn. by rewrite Hs. }
      destruct (fetches (t_cmd th)) as [[k3 h3]|] eqn:Ef; [destruct (decide (k3 = k')) as [->|Hk3]|].
      * apply Hne. apply Huniq; [|done]. exists th, h3. by repeat split.
      * destruct (Hthr _ _ Hj) as (_ & _ & Hkn).
        assert (t_stage th <> NStart) by (apply (Hst j); [done..|intros h4; rewrite Ef; congruence]).
        destruct (t_stage th); try done; [by apply Hns; left|]. destruct Hkn as (k4 & tm & E4). by rewrite E4 in Hd.
      * destruct (Hthr _ _ Hj) as (_ & _ & Hkn).
        assert (t_stage th <> NStart) by (apply (Hst j); [done..|intros h4; by rewrite Ef]).
        destruct (t_stage th); try done; [by apply Hns; left|]. destruct Hkn as (k4 & tm & E4). by rewrite E4 in Hd.
    + apply Hum. intros tm Hc. apply at_old in Hj as [[-> ->]|[_ Hj]]; [by apply (Hnd2 _ _ tm Hi)|by apply (Hnd2 _ _ tm Hj)].
Qed.

Lemma indecisive_undecided w0 n k' r : indecisive (ms_phase (w_st w0) n (prg k')) -> undecided w0 n k' r.
Proof. intros H. split; [|intros _]; intros (st & Hst & Hp); apply H in Hst; by rewrite Hp in Hst. Qed.

Lemma ns_fetch_ok n k' r : fetch_ok w n k' r -> fetch_ok w' n k' r.
Proof.
  intros Hok. pose proof Hok as (H1 & H2 & H3 & H4 & H5). destruct ns_row as (_ & _ & Ec & Eq & _).
  split; [cbn; rewrite Eq, Ec; exact H1|]. split; [|split; [by apply ns_nodiscard|split]].
  - intros j th h Hj Hf. cbn. rewrite Ec. apply at_old in Hj as [[-> ->]|[_ Hj]]; [by apply (H2 _ _ h Hi)|by apply (H2 j)].
  - assert (Hidle : (forall i, ~ unspent w n k' i) -> undecided w n k' r -> (forall i, ~ unspent w' n k' i) /\ undecided w' n k' r).
    { intros Hno Hund. split; [intros j Hj; by apply unspent_back, Hno in Hj|].
      destruct (ns_decides n k') as [E'|[H|(_ & Hun & _)]]; [|by apply indecisive_undecided|by apply Hno in Hun].
      unfold undecided. cbn. by rewrite E'. }
    destruct H4 as [(Hq & Hno & Hund)|[(Ha & Hb & Hu & Hund)|(Hq & Hno & Hund)]]; [left|right; left|right; right].
    1, 3: split; [cbn; by rewrite Eq|by apply Hidle].
    + split; [cbn; by rewrite Eq|]. split; [|split].
      * intros j th Hj Ht Hd Hf. apply at_old in Hj as [[-> ->]|[_ Hj]]; [|by apply (Hb j)]. cbn in *.
        apply nstep_not_start. by apply (Hb _ _ Hi).
      * intros j1 j2 Hj1 Hj2. apply Hu; by apply unspent_back.
      * intros j Hj. destruct (ns_decides n k') as [E'|[H|(_ & Hun & Hdec & _)]].
        -- unfold undecided. cbn. rewrite E'. by apply (Hund j), unspent_back.
        -- by apply indecisive_undecided.
        -- assert (j = i) as -> by (apply Hu; [by apply unspent_back|done]). by destruct (Hdec r).
  - intros Hp. destruct (ns_decides n k') as [E'|[H|(-> & Hun & _ & Hdec)]].
    + apply ns_guarded, H5. cbn in Hp. by rewrite E' in Hp.
    + destruct Hp as (st & Hst & Hp). apply H in Hst. by rewrite Hp in Hst.
    + destruct (Hdec Hp) as (Hs & Hg & Hr). by eapply ns_arrives.
Qed.

Lemma ns_turned_away n k' : turned_away w n k' -> turned_away w' n k'.
Proof.
  intros (H1 & H2 & H3). destruct ns_row as (_ & _ & _ & Eq & _). split; [cbn; by rewrite Eq|].
  split; [intros j Hj; by apply unspent_back, H2 in Hj|].
  destruct (ns_decides n k') as [E'|[H|(_ & Hun & _)]]; [cbn; by rewrite E'| |by apply H2 in Hun].
  intros (st & Hst & Hp). apply H in Hst. by rewrite Hp in Hst.
Qed.
End node_step.

(** ** A node takes a command *)
Section delivery.
Context (w : world) (t : string) (cmd : command) (q : list command).
Context (Hq : ms_queue (w_st w) t = cmd :: q)
  (Hord : forall i th, at_thread w i th -> t_tok th = t -> dangerous (t_cmd th) = true -> t_stage th <> NStart).
Local Notation new := (mkThread t cmd NStart (handle t uuid cmd)).
Local Notation w' := (mkWorld (set_queue t q (w_st w)) (w_cores w) (w_threads w ++ [new])).

Lemma dl_queue n c : c ∈ ms_queue (w_st w') n -> c ∈ ms_queue (w_st w) n.
Proof. cbn. unfold fset. destruct (decide (n = t)) as [->|_]; [rewrite Hq; by right|done]. Qed.

Lemma dl_at i th : at_thread w' i th -> at_thread w i th \/ i = length (w_threads w) /\ th = new.
Proof.
  unfold at_thread. cbn. intros H. apply lookup_app_Some in H as [H|[Hle H]]; [by left|]. right.
  apply list_lookup_singleton_Some in H as [H <-]. split; [lia|done].
Qed.

Lemma dl_cmd (P : command -> Prop) :
  (forall i th, at_thread w i th -> P (t_cmd th)) -> (forall c, c ∈ ms_queue (w_st w) t -> P c) ->
  forall i th, at_thread w' i th -> P (t_cmd th).
Proof. intros H1 H2 i th Hi. apply dl_at in Hi as [Hi|[_ ->]]; [by eapply H1|]. apply H2. rewrite Hq. by left. Qed.

Lemma dl_threads : threads_ok w -> threads_ok w'.
Proof.
  intros H i th Hi. apply dl_at in Hi as [Hi|[_ ->]]; [exact (H _ _ Hi)|].
  split; [apply handle_monitored|done].
Qed.

Lemma dl_claims : claims_ok w -> claims_ok w'.
Proof.
  intros H i j ti tj Hi Hj Et Hhi Hhj. apply dl_at in Hi as [Hi|[_ ->]]; [|done]. apply dl_at in Hj as [Hj|[_ ->]]; [|done].
  by eapply H.
Qed.

Lemma dl_guarded n : guarded w n -> guarded w' n.
Proof.
  intros [[H1 H2] H3]. split; [split|done].
  - intros c Hc. by apply H1, dl_queue.
  - intros i th Hi Ht. apply dl_at in Hi as [Hi|[_ ->]]; [by apply (H2 i)|]. cbn in Ht. subst t.
    destruct (H1 cmd) as [Hd Hu]; [rewrite Hq; by left|]. split; [cbn; by rewrite Hd|done].
Qed.

Lemma dl_nofetch k : nofetch w k -> nofetch w' k.
Proof.
  intros (H1 & H2 & H3). split; [intros n c Hc; by apply (H1 n), dl_queue|]. split; [|done].
  apply (dl_cmd (fun c => ~ handles c k)); [done|]. apply H1.
Qed.

Lemma dl_unsent k : unsent w k -> unsent w' k.
Proof.
  intros (H1 & H2 & H3 & H4). split; [by apply dl_nofetch|]. split; [intros n tm Hc; by apply (H2 n tm), dl_queue|]. split; [|done].
  intros i th tm. apply (dl_cmd (fun c => c <> MigrateOut k tm)); [intros; by eapply H3|]. intros c Hc ->. by apply (H2 t tm).
Qed.

Lemma dl_fresh : fresh_ok w -> fresh_ok w'.
Proof. intros H k Hk. by apply dl_unsent, H. Qed.

Lemma dl_nodiscard k : nodiscard w k -> nodiscard w' k.
Proof.
  intros [H1 H2]. split; [intros n tm Hc; by apply (H1 n tm), dl_queue|].
  intros i th tm. apply (dl_cmd (fun c => c <> MigrateDiscard k tm)); [intros; by eapply H2|]. intros c Hc ->. by apply (H1 t tm).
Qed.

Lemma dl_sources n k : sources_ok w n k -> sources_ok w' n k.
Proof.
  intros [H1 H2]. split; [done|]. intros i th tm h Hi Ht Hc Hs. apply dl_at in Hi as [Hi|[_ ->]]; [by apply (H2 i th tm)|done].
Qed.

Lemma dl_unspent n k i : unspent w' n k i -> unspent w n k i \/ i = length (w_threads w) /\ n = t /\ exists h, fetches cmd = Some (k, h).
Proof.
  intros (th & h & Hi & Ht & Hf & Hs). apply dl_at in Hi as [Hi|[-> ->]]; [left; by exists th, h|].
  right. cbn in *. eauto.
Qed.

Lemma dl_fetch_ok n k r : fetch_ok w n k r -> fetch_ok w' n k r.
Proof.
  intros (H1 & H2 & H3 & H4 & H5). split; [intros m c h Hc; by apply H1, dl_queue|].
  split; [intros i th h Hi; apply dl_at in Hi as [Hi|[_ ->]]; [by apply (H2 i)|cbn; apply H1; rewrite Hq; by left]|].
  split; [by apply dl_nodiscard|]. split; [|intros Hp; by apply dl_guarded, H5].
  destruct (decide (n = t)) as [->|Hn].
  - destruct H4 as [((pre & c & h & post & E & Hf & Hpre & Hpost) & Hno & Hu)|[(Ha & Hb & Hc & Hd)|(Ha & Hno & Hu)]].
    + rewrite Hq in E. destruct pre as [|c' pre]; injection E as Ec Eq; [right; left|left].
      * split; [cbn; rewrite fset_eq, Eq; done|]. split; [|split; [|done]].
        -- intros i th Hi Ht Hd Hnf. apply dl_at in Hi as [Hi|[_ ->]]; [by eapply Hord|]. destruct (Hnf h). cbn. by rewrite Ec.
        -- intros i j Hi Hj. apply dl_unspent in Hi as [Hi|[-> _]]; [by apply Hno in Hi|].
           by apply dl_unspent in Hj as [Hj|[-> _]]; [apply Hno in Hj|].
      * split; [|split; [|done]].
        -- exists pre, c, h, post. cbn. rewrite fset_eq. split; [done|]. split; [done|]. split; [|done].
           intros c0 h0 Hc0. apply Hpre. by right.
        -- intros i Hi. apply dl_unspent in Hi as [Hi|(_ & _ & h' & Hf')]; [by apply Hno in Hi|].
           rewrite Ec in Hf'. eapply Hpre; [by left|exact Hf'].
    + right; left. assert (Hcmd : dangerous cmd = false) by (apply Ha; rewrite Hq; by left).
      assert (Hnf : forall h, fetches cmd <> Some (k, h)) by (intros h; by destruct (not_dangerous _ Hcmd) as [-> _]).
      split; [cbn; rewrite fset_eq; intros c Hc0; apply Ha; rewrite Hq; by right|]. split; [|split].
      * intros i th Hi Ht Hdg Hf. apply dl_at in Hi as [Hi|[_ ->]]; [by eapply Hb|]. cbn in Hdg. by rewrite Hcmd in Hdg.
      * intros i j Hi Hj. apply dl_unspent in Hi as [Hi|(_ & _ & h & ?)]; [|by destruct (Hnf h)].
        apply dl_unspent in Hj as [Hj|(_ & _ & h & ?)]; [by apply Hc|by destruct (Hnf h)].
      * intros i Hi. apply dl_unspent in Hi as [Hi|(_ & _ & h & ?)]; [by apply (Hd i)|by destruct (Hnf h)].
    + right; right. split; [intros c h Hc; by apply Ha, dl_queue|]. split; [|done].
      intros i Hi. apply dl_unspent in Hi as [Hi|(_ & _ & h & Hf)]; [by apply Hno in Hi|].
      eapply Ha; [rewrite Hq; by left|exact Hf].
  - assert (Hun : forall i, unspent w' n k i -> unspent w n k i) by (intros i Hi; apply dl_unspent in Hi as [Hi|(_ & -> & _)]; done).
    assert (Eq : ms_queue (w_st w') n = ms_queue (w_st w) n) by (cbn; by rewrite fset_ne).
    destruct H4 as [(Ha & Hno & Hu)|[(Ha & Hb & Hc & Hd)|(Ha & Hno & Hu)]]; [left|right; left|right; right].
    1, 3: split; [by rewrite Eq|split; [intros i Hi; by apply Hun, Hno in Hi|done]].
    split; [by rewrite Eq|]. split; [|split; [intros i j Hi Hj; auto|intros i Hi; by apply (Hd i), Hun]].
    intros i th Hi Ht Hdg Hf. apply dl_at in Hi as [Hi|[_ ->]]; [by eapply Hb|done].
Qed.

Lemma dl_turned_away n k : turned_away w n k -> turned_away w' n k.
Proof.
  intros (H1 & H2 & H3). split; [intros c Hc; by apply H1, dl_queue|]. split; [|done].
  intros i Hi. apply dl_unspent in Hi as [Hi|(_ & -> & h & Hf)]; [by apply H2 in Hi|].
  destruct (not_dangerous cmd) as [Hn _]; [apply H1; rewrite Hq; by left|]. by rewrite Hn in Hf.
Qed.
End delivery.

(** ** Steps that carry every part over *)

Record carries (w w' : world) : Prop := mkCarries {
  ca_cur : ms_cur (w_st w') = ms_cur (w_st w);
  ca_threads : threads_ok w';
  ca_claims : claims_ok w';
  ca_stocked : stocked (w_st w');
  ca_fresh : fresh_ok w';
  ca_guarded n : guarded w n -> guarded w' n;
  ca_unsent k : unsent w k -> unsent w' k;
  ca_nofetch k : nofetch w k -> nofetch w' k;
  ca_sources n k : dk_dir (dsk (w_st w) n) = Some (ms_cur (w_st w)) -> sources_ok w n k -> sources_ok w' n k;
  ca_fetch n k r : fetch_ok w n k r -> fetch_ok w' n k r;
  ca_turned n k : turned_away w n k -> turned_away w' n k }.

(** Progress keys may go; the row, the flags and the list of attempts may change. *)
Record calm (s s' : mstate) : Prop := mkCalm {
  cm_cur : ms_cur s' = ms_cur s;
  cm_queue : ms_queue s' = ms_queue s;
  cm_disk : ms_disk s' = ms_disk s;
  cm_inflight : ms_inflight s' = ms_inflight s;
  cm_used k : k ∈ ms_used s -> k ∈ ms_used s';
  cm_phase n p : ms_phase s' n p = ms_phase s n p \/ ms_phase s' n p = None;
  cm_meta n p : ms_meta s' n p = ms_meta s n p \/ ms_meta s' n p = None }.

Lemma calm_refl s : calm s s.
Proof. split; auto. Qed.

Section calm_step.
Context (w : world) (st' : mstate) (cores : list (proto * move ended)) (Hc : calm (w_st w) st').
Local Notation w' := (mkWorld st' cores (w_threads w)).

Lemma calm_dsk n : dsk st' n = dsk (w_st w) n.
Proof. unfold dsk. by rewrite (cm_disk _ _ Hc). Qed.

Lemma calm_phase n p ph : phase_is (ms_phase st' n p) ph -> phase_is (ms_phase (w_st w) n p) ph.
Proof. intros (v & E & Hv). destruct (cm_phase _ _ Hc n p) as [E'|E']; rewrite E' in E; [by exists v|done]. Qed.

Lemma calm_indecisive n p : indecisive (ms_phase (w_st w) n p) -> indecisive (ms_phase st' n p).
Proof. intros H v E. destruct (cm_phase _ _ Hc n p) as [E'|E']; rewrite E' in E; [by apply H|done]. Qed.

Lemma calm_undecided n k r : undecided w n k r -> undecided w' n k r.
Proof. intros [H1 H2]. split; [by intros ?%calm_phase|intros Hr ?%calm_phase; by apply H2]. Qed.

Lemma calm_guarded n : guarded w n -> guarded w' n.
Proof. unfold guarded, safe. cbn. by rewrite calm_dsk, (cm_cur _ _ Hc), (cm_queue _ _ Hc). Qed.

Lemma calm_nofetch k : nofetch w k -> nofetch w' k.
Proof.
  intros (H1 & H2 & H3). split; [cbn; by rewrite (cm_queue _ _ Hc)|]. split; [done|]. intros n. by apply calm_indecisive.
Qed.

Lemma calm_unsent k : unsent w k -> unsent w' k.
Proof.
  intros (H1 & H2 & H3 & H4). split; [by apply calm_nofetch|]. split; [cbn; by rewrite (cm_queue _ _ Hc)|]. split; [done|].
  intros n. cbn. destruct (cm_meta _ _ Hc n (prg k)) as [->| ->]; [apply H4|done].
Qed.

Lemma calm_fetch n k r : fetch_ok w n k r -> fetch_ok w' n k r.
Proof.
  intros (H1 & H2 & H3 & H4 & H5). unfold fetch_ok, nodiscard, queued, taken, absent. cbn. rewrite (cm_cur _ _ Hc), (cm_queue _ _ Hc).
  split; [done|]. split; [done|]. split; [exact H3|]. split; [|intros Hp; by apply calm_guarded, H5, calm_phase].
  destruct H4 as [(Ha & Hb & Hu)|[(Ha & Hb & Hd & Hu)|(Ha & Hb & Hu)]]; [left|right; left|right; right].
  1, 3: split; [done|]; split; [done|]; by apply calm_undecided.
  split; [done|]. split; [done|]. split; [done|]. intros i Hi. apply calm_undecided. by apply (Hu i).
Qed.

Lemma calm_carries : threads_ok w -> claims_ok w -> fresh_ok w -> stocked (w_st w) -> carries w w'.
Proof.
  intros Ht Hcl Hf Hsk. split; try done.
  - exact (cm_cur _ _ Hc).
  - intros i th Hi. destruct (Ht i th Hi) as (H1 & H2 & H3). split; [done|]. cbn. by rewrite calm_dsk, (cm_inflight _ _ Hc).
  - unfold stocked. cbn. by rewrite (cm_cur _ _ Hc), (cm_disk _ _ Hc).
  - intros k Hk. apply calm_unsent, Hf. intros H. by apply Hk, (cm_used _ _ Hc).
  - apply calm_guarded.
  - apply calm_unsent.
  - apply calm_nofetch.
  - intros n k _ [H1 H2]. split; cbn; rewrite (cm_cur _ _ Hc); [|done].
    intros m Hm. destruct (cm_meta _ _ Hc n (prg k)) as [E|E]; rewrite E in Hm; [by apply H1|done].
  - apply calm_fetch.
  - intros n k (H1 & H2 & H3). split; [cbn; by rewrite (cm_queue _ _ Hc)|]. split; [done|]. by intros ?%calm_phase.
Qed.
End calm_step.

(** ** A command is sent *)

Definition plain (cmd : command) : Prop := dangerous cmd = false /\ forall k tm, cmd <> MigrateDiscard k tm.

Lemma plain_unhandled cmd k : plain cmd -> ~ handles cmd k.
Proof. intros [Hd Hn] [[h Hf]|[tm Hc]]; [by destruct (not_dangerous _ Hd) as [E _]; rewrite E in Hf|by apply (Hn k tm)]. Qed.

Section sending.
Context (w : world) (t : string) (cmd : command) (cores : list (proto * move ended)).
Local Notation w' := (mkWorld (set_queue t (ms_queue (w_st w) t ++ [cmd]) (w_st w)) cores (w_threads w)).

Lemma sent_queue n c : c ∈ ms_queue (w_st w') n -> c ∈ ms_queue (w_st w) n \/ n = t /\ c = cmd.
Proof.
  cbn. unfold fset. destruct (decide (n = t)) as [->|_]; [|by left]. intros [H|H]%elem_of_app; [by left|]. right.
  by apply list_elem_of_singleton in H.
Qed.

Lemma sent_guarded n : n <> t \/ dangerous cmd = false /\ unmatched (dsk (w_st w) t) cmd -> guarded w n -> guarded w' n.
Proof.
  intros Ht [[H1 H2] H3]. split; [split|done]; [|done]. intros c Hc. apply sent_queue in Hc as [Hc|[-> ->]]; [by apply H1|].
  by destruct Ht as [Ht|Ht].
Qed.

Lemma sent_nofetch k : ~ handles cmd k -> nofetch w k -> nofetch w' k.
Proof. intros Hh (H1 & H2 & H3). split; [|done]. intros n c Hc. apply sent_queue in Hc as [Hc|[_ ->]]; [by apply (H1 n)|done]. Qed.

Lemma sent_unsent k : ~ handles cmd k -> (forall tm, cmd <> MigrateOut k tm) -> unsent w k -> unsent w' k.
Proof.
  intros Hh Ho (H1 & H2 & H3 & H4). split; [by apply sent_nofetch|]. split; [|done].
  intros n tm Hc. apply sent_queue in Hc as [Hc|[_ Hc]]; [by apply (H2 n tm)|]. by apply (Ho tm).
Qed.

Lemma sent_fetch n k r : plain cmd -> fetch_ok w n k r -> fetch_ok w' n k r.
Proof.
  intros Hp (H1 & H2 & [H3 H3'] & H4 & H5). pose proof (plain_unhandled cmd k Hp) as Hh. destruct Hp as [Hd Hnd].
  assert (Hnf : forall h, fetches cmd <> Some (k, h)) by (intros h Hf; apply Hh; left; by exists h).
  assert (Hq : forall c h, c ∈ ms_queue (w_st w') n -> fetches c = Some (k, h) -> c ∈ ms_queue (w_st w) n).
  { intros c h Hc Hf. apply sent_queue in Hc as [Hc|[_ ->]]; [done|]. by destruct (Hnf h). }
  split; [intros m c h Hc Hf; apply sent_queue in Hc as [Hc|[_ ->]]; [by apply H1 with c|by destruct (Hnf h)]|].
  split; [done|]. split; [split; [|done]|split].
  - intros m tm Hc. apply sent_queue in Hc as [Hc|[_ Hc]]; [by apply (H3 m tm)|]. by apply (Hnd k tm).
  - destruct H4 as [((pre & c & h & post & E & Hf & Hpre & Hpost) & Hno & Hu)|[(Ha & Hb & Hc & Hu)|(Ha & Hno & Hu)]].
    + left. split; [|done]. cbn. unfold fset. destruct (decide (n = t)) as [->|Hn]; [|by exists pre, c, h, post].
      exists pre, c, h, (post ++ [cmd]). rewrite E, <- app_assoc. split; [done|]. split; [done|]. split; [done|].
      intros c' [Hc'|Hc']%elem_of_app; [by apply Hpost|]. by apply list_elem_of_singleton in Hc' as ->.
    + right; left. split; [|done]. intros c' Hc'. apply sent_queue in Hc' as [Hc'|[-> ->]]; [by apply Ha|done].
    + right; right. split; [|done]. intros c h Hc' Hf. by eapply Ha; [eapply Hq|].
  - intros Hp. apply sent_guarded; [|by apply H5]. right. split; [done|]. intros k' tm Hc. by destruct (Hnd k' tm).
Qed.

Lemma sent_turned n k : plain cmd -> turned_away w n k -> turned_away w' n k.
Proof. intros [Hd _] (H1 & H2 & H3). split; [|done]. intros c Hc. by apply sent_queue in Hc as [Hc|[_ ->]]; [apply H1|]. Qed.

(** The fetch itself is sent. *)
Lemma fetch_sent k h r :
  fetches cmd = Some (k, h) -> h = sha (ms_cur (w_st w)) -> (forall i, ~ unspent w t k i) -> undecided w t k r ->
  (forall m c h', c ∈ ms_queue (w_st w) m -> fetches c <> Some (k, h')) ->
  (forall i th h', at_thread w i th -> fetches (t_cmd th) = Some (k, h') -> t_tok th = t /\ h' = sha (ms_cur (w_st w))) ->
  nodiscard w k -> fetch_ok w' t k r.
Proof.
  intros Hf Hh Hno Hu Hq Ht [Hd1 Hd2].
  split; [intros m c h' Hc Hf'; apply sent_queue in Hc as [Hc|[-> ->]]; [by destruct (Hq _ _ h' Hc)|by simplify_eq]|].
  split; [done|]. split; [split; [|done]|split; [left; split; [|done]|by intros Hp; destruct Hu]].
  - intros n tm Hc. apply sent_queue in Hc as [Hc|[-> Hc]]; [by apply (Hd1 n tm)|]. by rewrite <- Hc in Hf.
  - exists (ms_queue (w_st w) t), cmd, h, []. cbn. rewrite fset_eq. split; [done|]. split; [done|]. split; [|intros c Hc; by inversion Hc].
    intros c h' Hc. by apply (Hq t).
Qed.
End sending.

(** ** Core *)

(** What [Migrate] has read is what the world holds. *)
Record ids_ok (s : mstate) (p : proto) : Prop := mkIds {
  id_srv srv : pr_srv p = Some srv -> sv_UUID srv = uuid;
  id_src n : pr_src p = Some n -> nd_Token n = tok (nd_ID n) /\ exists srv, pr_srv p = Some srv /\ nd_ID n = sv_NodeID srv;
  id_tgt n : pr_tgt p = Some n -> nd_Token n = tok (nd_ID n);
  id_attempt k : pr_attempt p = Some k -> k ∈ ms_used s }.

(** The stages in which the server still lives on its source. *)
Definition at_source (st : stage) : bool := match st with Cut | Moved | Closed => false | _ => true end.

(** The stages in which the row says "migrating". *)
Definition held (st : stage) : bool := match st with Loading | Stopping | Moved | Back | Discarding | Over | Dropped | Closed => false | _ => true end.

Record row_ok (s : mstate) (p : proto) : Prop := mkRow {
  rw_home srv : pr_srv p = Some srv -> at_source (pr_stage p) = true -> ms_home s = sv_NodeID srv;
  rw_status : held (pr_stage p) = true -> ms_status s = "migrating" }.

(** How far the transfer has come. *)
Definition stage_ok (w : world) (p : proto) : Prop :=
  let cur := sha (ms_cur (w_st w)) in
  match pr_stage p with
  | Loading | Stopping | Marked => forall k, pr_attempt p = Some k -> unsent w k
  | Staging => exists srv src tgt k, who p srv src tgt k /\ nofetch w k /\ sources_ok w (nd_Token src) k
  | Staged h => exists srv src tgt k, who p srv src tgt k /\ nofetch w k /\ h = cur
  | Fetching h => exists srv src tgt k, who p srv src tgt k /\ fetch_ok w (nd_Token tgt) k false /\ h = cur
  | Remote h => exists srv src tgt k, who p srv src tgt k /\ fetch_ok w (nd_Token tgt) k true /\ turned_away w (nd_Token tgt) k /\ h = cur
  | FetchingR2 _ => exists srv src tgt k, who p srv src tgt k /\ fetch_ok w (nd_Token tgt) k true
  | Arrived => exists srv src tgt k, who p srv src tgt k /\ guarded w (nd_Token tgt)
  | Cut => exists srv src tgt k, who p srv src tgt k /\ ms_home (w_st w) = nd_ID tgt /\ guarded w (nd_Token src)
  | Moved => exists srv src tgt k, who p srv src tgt k /\ ms_home (w_st w) = nd_ID tgt
  | Back | Discarding | Over | Dropped | Closed => True
  end.

Definition core_ok (w : world) (p : proto) : Prop := ids_ok (w_st w) p /\ row_ok (w_st w) p /\ stage_ok w p.

Lemma who_src w p srv src tgt k :
  ids_ok (w_st w) p -> who p srv src tgt k ->
  nd_Token src = tok (nd_ID src) /\ nd_Token tgt = tok (nd_ID tgt) /\ nd_ID src = sv_NodeID srv /\ nd_Token tgt <> nd_Token src /\
  sv_UUID srv = uuid /\ k ∈ ms_used (w_st w).
Proof.
  intros Hi (E1 & E2 & E3 & E4 & _ & Hne). destruct (id_src _ _ Hi _ E2) as (Hs & srv' & E1' & Hid). rewrite E1 in E1'. simplify_eq.
  pose proof (id_tgt _ _ Hi _ E3) as Ht. repeat split; try done; [|by apply (id_srv _ _ Hi)|by apply (id_attempt _ _ Hi)].
  rewrite Hs, Ht. by intros ?%tok_inj.
Qed.

Lemma core_carries w w' p :
  carries w w' -> guarded w (tok (ms_home (w_st w))) ->
  ms_home (w_st w') = ms_home (w_st w) -> (ms_status (w_st w) = "migrating" -> ms_status (w_st w') = "migrating") ->
  (forall k, k ∈ ms_used (w_st w) -> k ∈ ms_used (w_st w')) ->
  core_ok w p -> core_ok w' p.
Proof.
  intros Hc [_ Hg] Eh Es Hu (Hi & [Hr1 Hr2] & Hs). split; [|split; [split; rewrite ?Eh; auto|]].
  { destruct Hi as [H1 H2 H3 H4]. split; try done. intros k Hk. by apply Hu, H4. }
  unfold stage_ok in *. rewrite (ca_cur _ _ Hc). destruct (pr_stage p) eqn:Est; try done.
  1, 2, 3: intros k Hk; by apply (ca_unsent _ _ Hc), Hs.
  - destruct Hs as (srv & src & tgt & k & Hw & Hn & Hso). exists srv, src, tgt, k. split; [done|].
    split; [by apply (ca_nofetch _ _ Hc)|]. apply (ca_sources _ _ Hc); [|done].
    destruct (who_src w p srv src tgt k Hi Hw) as (-> & _ & -> & _). rewrite <- (Hr1 srv); [done|apply Hw|done].
  - destruct Hs as (srv & src & tgt & k & Hw & Hn & Hh). exists srv, src, tgt, k. split; [done|]. split; [by apply (ca_nofetch _ _ Hc)|done].
  - destruct Hs as (srv & src & tgt & k & Hw & Hn & Hh). exists srv, src, tgt, k. split; [done|]. split; [by apply (ca_fetch _ _ Hc)|done].
  - destruct Hs as (srv & src & tgt & k & Hw & Hn & Ht & Hh). exists srv, src, tgt, k. split; [done|].
    split; [by apply (ca_fetch _ _ Hc)|]. split; [by apply (ca_turned _ _ Hc)|done].
  - destruct Hs as (srv & src & tgt & k & Hw & Hn). exists srv, src, tgt, k. split; [done|]. by apply (ca_fetch _ _ Hc).
  - destruct Hs as (srv & src & tgt & k & Hw & Hn). exists srv, src, tgt, k. split; [done|]. by apply (ca_guarded _ _ Hc).
  - destruct Hs as (srv & src & tgt & k & Hw & Hh & Hn). exists srv, src, tgt, k. split; [done|]. rewrite Eh. split; [done|].
    by apply (ca_guarded _ _ Hc).
  - destruct Hs as (srv & src & tgt & k & Hw & Hh). exists srv, src, tgt, k. by rewrite Eh.
Qed.

(** ** The invariant *)

Definition base (w : world) : Prop :=
  threads_ok w /\ claims_ok w /\ fresh_ok w /\ stocked (w_st w) /\ guarded w (tok (ms_home (w_st w))).

Definition cores_ok (w : world) : Prop :=
  match w_cores w with
  | [] => True
  | [(p, m)] => keeps p m final /\ core_ok w p
  | _ => False
  end.

Definition Inv (w : world) : Prop := base w /\ cores_ok w.

Lemma Inv_carries w w' :
  carries w w' -> ms_home (w_st w') = ms_home (w_st w) -> (ms_status (w_st w) = "migrating" -> ms_status (w_st w') = "migrating") ->
  (forall k, k ∈ ms_used (w_st w) -> k ∈ ms_used (w_st w')) -> w_cores w' = w_cores w -> Inv w -> Inv w'.
Proof.
  intros Hc Eh Es Hu Ew [(Ht & Hcl & Hf & Hsk & Hg) Hco]. split.
  - split; [apply (ca_threads _ _ Hc)|]. split; [apply (ca_claims _ _ Hc)|]. split; [apply (ca_fresh _ _ Hc)|]. split; [apply (ca_stocked _ _ Hc)|].
    rewrite Eh. by apply (ca_guarded _ _ Hc).
  - unfold cores_ok in *. rewrite Ew. destruct (w_cores w) as [|[p m] [|]]; try done. destruct Hco as [Hk Hco]. split; [done|].
    by eapply core_carries.
Qed.

Lemma at_rest_Inv home status c : occurs c = true -> Inv (at_rest tok disk_of home status c).
Proof.
  intros Hoc. split; [|done]. split; [by intros i th Hi|]. split; [by intros i j ti tj Hi|]. split; [|split].
  - intros k _. split; [|split; [|split]]; try done; [|by intros n tm ?%not_elem_of_nil].
    split; [by intros n cmd ?%not_elem_of_nil|]. split; done.
  - assert (kept blank) by (intros y Hy; naive_solver). apply (stocked_put (mkState _ _ _ _ _ _ _ _ (fun _ => blank) _ _ _ _ _)); [done|].
    apply kept_dir; [done|]. intros y Hy. by simplify_eq.
  - split; [split; [by intros cmd ?%not_elem_of_nil|done]|]. unfold dsk. cbn. by rewrite fset_eq.
Qed.

Lemma node_Inv w i t cmd s c k o orc x a st' :
  at_thread w i (mkThread t cmd s (Do c k)) -> ncall t cmd c o orc x (w_st w) = (a, st') ->
  match c with MarkMovedIn _ _ _ => applied o = true | _ => True end -> occurs x = true ->
  Inv w -> Inv (mkWorld st' (w_cores w) (<[i := mkThread t cmd (nstep uuid cmd s c a) (k a)]> (w_threads w))).
Proof.
  intros Hi E Ho Hx HI. destruct (node_row _ _ _ _ _ _ _ _ _ E) as (E1 & E2 & E3 & E4 & E5).
  pose proof HI as [(Ht & Hcl & Hf & Hsk & Hg) _]. apply Inv_carries with w; cbn; try done; [|by rewrite E2|by rewrite E5]. split; cbn; try done.
  - by eapply ns_threads.
  - by eapply ns_claims.
  - by eapply node_stocked.
  - by eapply ns_fresh.
  - intros n. by eapply ns_guarded.
  - intros k'. by eapply ns_unsent.
  - intros k'. by eapply ns_nofetch.
  - intros n k'. by eapply ns_sources.
  - intros n k' r. by eapply ns_fetch_ok.
  - intros n k'. by eapply ns_turned_away.
Qed.

Lemma deliver_Inv w t cmd q :
  ms_queue (w_st w) t = cmd :: q ->
  (forall i th, at_thread w i th -> t_tok th = t -> dangerous (t_cmd th) = true -> t_stage th <> NStart) ->
  Inv w -> Inv (mkWorld (set_queue t q (w_st w)) (w_cores w) (w_threads w ++ [mkThread t cmd NStart (handle t uuid cmd)])).
Proof.
  intros Hq Ho HI. pose proof HI as [(Ht & Hcl & Hf & Hsk & Hg) _]. apply Inv_carries with w; cbn; try done. split; cbn; try done.
  - by eapply dl_threads.
  - by eapply dl_claims.
  - by eapply dl_fresh.
  - intros n. by eapply dl_guarded.
  - intros k'. by eapply dl_unsent.
  - intros k'. by eapply dl_nofetch.
  - intros n k' _. by eapply dl_sources.
  - intros n k' r. by eapply dl_fetch_ok.
  - intros n k'. by eapply dl_turned_away.
Qed.

Lemma calm_Inv w st' :
  calm (w_st w) st' -> ms_home st' = ms_home (w_st w) -> (ms_status (w_st w) = "migrating" -> ms_status st' = "migrating") -> Inv w ->
  Inv (mkWorld st' (w_cores w) (w_threads w)).
Proof.
  intros Hc Eh Es HI. pose proof HI as [(Ht & Hcl & Hf & Hsk & Hg) _]. apply Inv_carries with w; try done; [by apply calm_carries|].
  apply (cm_used _ _ Hc).
Qed.

(** ** One call of [Migrate] *)
Local Notation ccall := (core_call sv tok).

Lemma core_calm c o orc s a s' :
  ccall c o orc s = (a, s') -> match c with Publish _ _ _ _ => False | _ => True end -> calm s s'.
Proof.
  intros E Hp. destruct c; try done; cbn in E; repeat case_match; simplify_eq; try apply calm_refl; split; cbn; auto.
  - intros k Hk. by right.
  - intros n p. unfold fset. repeat case_decide; subst; auto.
  - intros n p. unfold fset. repeat case_decide; subst; auto.
Qed.

(** A call that leaves the row alone and that the monitor does not look at. *)
Lemma unseen_same c o orc s p a s' :
  ccall c o orc s = (a, s') -> unseen c = true -> pstep p c a = p /\ ms_home s' = ms_home s /\ ms_status s' = ms_status s.
Proof. intros E Hu. destruct c; try done; cbn in E; repeat case_match; simplify_eq; done. Qed.

Lemma to_same p st : pr_stage p = st -> to_stage p st = p.
Proof. by destruct p; intros <-. Qed.

Section core_reads.
Context (w : world) (p : proto) (Hok : core_ok w p).

Lemma read_server b : core_ok w (pstep p (GetServerByID b) None) /\ core_ok w (pstep p (GetServerByID b) (Some (place_server (w_st w) sv))).
Proof.
  cbn. destruct (pr_srv p) as [srv|] eqn:E; [done|]. destruct Hok as (Hi & Hr & Hs).
  assert (Hsrc : pr_src p = None).
  { destruct (pr_src p) as [n|] eqn:Es; [|done]. destruct (id_src _ _ Hi n Es) as (_ & srv & ? & _). congruence. }
  assert (Hst : forall x, stage_ok w (mkProto x (pr_src p) (pr_tgt p) (pr_attempt p) (pr_stage p))).
  { intros x. unfold stage_ok in *. cbn. destruct (pr_stage p); try done.
    all: destruct Hs as (srv' & src & tgt & k & (E' & _) & _); congruence. }
  destruct Hi as [H1 H2 H3 H4], Hr as [Hr1 Hr2]. split; (split; [|split; [|apply Hst]]).
  all: split; cbn; try done; try (intros n Hn; congruence).
  - intros srv Hsrv. by simplify_eq.
  - intros srv Hsrv _. by simplify_eq.
Qed.

Lemma read_node id a :
  (pr_src p = None -> exists srv, pr_srv p = Some srv /\ id = sv_NodeID srv) ->
  core_ok w (pstep p (GetNodeByID id) (identify id (tok id) <$> a)).
Proof.
  intros Hg. cbn. destruct Hok as (Hi & [Hr1 Hr2] & Hs). destruct Hi as [H1 H2 H3 H4]. destruct (pr_src p) as [src|] eqn:Es.
  - destruct (pr_tgt p) as [tgt|] eqn:Et; [exact Hok|]. split; [|split; [by split|]].
    + split; cbn; try done. intros n Hn. destruct a; [|done]. by injection Hn as <-.
    + unfold stage_ok in *. cbn. destruct (pr_stage p); try done.
      all: destruct Hs as (srv' & src' & tgt & k & (_ & _ & E' & _) & _); congruence.
  - destruct (Hg eq_refl) as (srv & E & ->). split; [|split; [by split|]].
    + split; cbn; try done. intros n Hn. destruct a; [|done]. injection Hn as <-. split; [done|]. by exists srv.
    + unfold stage_ok in *. cbn. destruct (pr_stage p); try done.
      all: destruct Hs as (srv' & src' & tgt & k & (_ & E' & _) & _); congruence.
Qed.

Lemma who_same srv src tgt k srv' src' tgt' k' : who p srv src tgt k -> who p srv' src' tgt' k' -> src' = src /\ tgt' = tgt /\ k' = k.
Proof. unfold who. intros H1 H2. destruct_and!. by simplify_eq. Qed.

Lemma read_meta t q :
  pguard p (GetNodeMeta t q) ->
  core_ok w (pstep p (GetNodeMeta t q) None) /\ core_ok w (pstep p (GetNodeMeta t q) (ms_meta (w_st w) t q)).
Proof.
  intros (srv & src & tgt & k & Hw & -> & ->). split; [done|]. cbn. destruct (ms_meta _ _ _) as [m|] eqn:Em; [|done].
  destruct (pr_stage p) eqn:Es; try done. destruct (_ =? "")%string; [by rewrite to_same|].
  destruct Hok as (Hi & [Hr1 Hr2] & Hs). unfold stage_ok in Hs. rewrite Es in Hs, Hr1, Hr2.
  destruct (who_src w p srv src tgt k Hi Hw) as (_ & _ & _ & _ & Hu & _). rewrite Hu in Em.
  destruct Hs as (srv' & src' & tgt' & k' & Hw' & Hn & Hso & _). destruct (who_same _ _ _ _ _ _ _ _ Hw Hw') as (-> & -> & ->).
  split; [by destruct Hi; split|]. split; [by split|]. exists srv, src, tgt, k. split; [done|]. split; [done|]. by apply Hso.
Qed.

(** The target asked for the other transport: its fetch has ended. *)
Lemma remote_turned n k :
  phase_is (ms_phase (w_st w) n (prg k)) "need_remote" -> fetch_ok w n k false -> fetch_ok w n k true /\ turned_away w n k.
Proof.
  intros Hnr (H1 & H2 & H3 & H4 & H5).
  destruct H4 as [(_ & _ & _ & Hu)|[(Ha & Hb & Hc & Hd)|(_ & _ & _ & Hu)]]; [by destruct (Hu eq_refl)| |by destruct (Hu eq_refl)].
  assert (Hno : forall i, ~ unspent w n k i) by (intros i Hx; destruct (Hd i Hx) as [_ Hx']; by apply Hx').
  split; [|split; [done|split; [done|]]].
  - split; [done|]. split; [done|]. split; [done|]. split; [|done]. right. left. split; [done|]. split; [done|]. split; [done|].
    intros i Hx. by apply Hno in Hx.
  - destruct Hnr as (v & E & Hv). intros (v' & E' & Hv'). congruence.
Qed.

Lemma read_status t q :
  pguard p (GetNodeStatus t q) ->
  core_ok w (pstep p (GetNodeStatus t q) None) /\ core_ok w (pstep p (GetNodeStatus t q) (ms_phase (w_st w) t q)).
Proof.
  intros (srv & src & tgt & k & Hw & -> & Ht). split; [done|]. cbn. destruct (ms_phase _ _ _) as [v|] eqn:Ev; [|done].
  destruct (decide (on_phase (ns_Phase v) (pr_stage p) = pr_stage p)) as [->|Hne]; [by rewrite to_same|].
  destruct Hok as (Hi & [Hr1 Hr2] & Hs). destruct (who_src w p srv src tgt k Hi Hw) as (_ & _ & _ & _ & Hu & _). rewrite Hu in Ev.
  split; [by destruct Hi; split|]. unfold stage_ok in Hs. destruct (pr_stage p) eqn:Es; try done; subst t; cbn in Hne |- *.
  - destruct Hs as (srv' & src' & tgt' & k' & Hw' & Hf & ->). destruct (who_same _ _ _ _ _ _ _ _ Hw Hw') as (-> & -> & ->).
    destruct (ns_Phase v =? "transferred")%string eqn:Etr; to_prop; [|destruct (ns_Phase v =? "need_remote")%string eqn:Enr; to_prop; [|done]].
    + split; [by split|]. exists srv, src, tgt, k. split; [done|]. apply Hf. by exists v.
    + split; [by split|]. exists srv, src, tgt, k. split; [done|]. destruct (remote_turned (nd_Token tgt) k); [by exists v|done|done].
  - destruct Hs as (srv' & src' & tgt' & k' & Hw' & Hf). destruct (who_same _ _ _ _ _ _ _ _ Hw Hw') as (-> & -> & ->).
    destruct (ns_Phase v =? "transferred")%string eqn:Etr; to_prop; [|done].
    split; [by split|]. exists srv, src, tgt, k. split; [done|]. apply Hf. by exists v.
Qed.
End core_reads.

Lemma ids_mono s s' p st : (forall k, k ∈ ms_used s -> k ∈ ms_used s') -> ids_ok s p -> ids_ok s' (to_stage p st).
Proof. intros Hu [H1 H2 H3 H4]. split; try done. intros k Hk. by apply Hu, H4. Qed.

Lemma draw_attempt w cores p a :
  let st' := set_used (hex_encode 12 a :: ms_used (w_st w)) (w_st w) in
  base w -> core_ok w p -> pguard p RandRead6 -> hex_encode 12 a ∉ ms_used (w_st w) ->
  core_ok (mkWorld st' cores (w_threads w)) (pstep p RandRead6 a).
Proof.
  intros st' (Ht & Hcl & Hf & Hsk & _) (Hi & [Hr1 Hr2] & Hs) [E1 E2] Hn. assert (Hc : calm (w_st w) st') by (split; cbn; auto; intros k Hk; by right).
  apply (calm_carries w st' cores) in Hc; [|done..]. split; [|split; [by split|]].
  - destruct Hi as [H1 H2 H3 H4]. split; cbn; try done. intros k Hk. simplify_eq. by left.
  - unfold stage_ok. cbn. rewrite E2. intros k Hk. simplify_eq. apply (ca_unsent _ _ Hc). by apply Hf.
Qed.

Lemma write_status w cores p id st (ap : bool) a :
  let st' := if ap then set_row (ms_home (w_st w)) st (w_st w) else w_st w in
  base w -> core_ok w p -> pguard p (UpdateServerStatus id st) -> (st = "migrating" -> ap = true) ->
  core_ok (mkWorld st' cores (w_threads w)) (pstep p (UpdateServerStatus id st) a).
Proof.
  intros st' (Ht & Hcl & Hf & Hsk & Hg) Hok Hgd Hap.
  assert (Hc : calm (w_st w) st') by (unfold st'; destruct ap; [split; cbn; auto|apply calm_refl]).
  assert (Eh : ms_home st' = ms_home (w_st w)) by (unfold st'; by destruct ap).
  pose proof Hok as (Hi & [Hr1 Hr2] & Hs). pose proof (cm_used _ _ Hc) as Hu.
  apply (calm_carries w st' cores) in Hc; [|done..]. cbn. split; [by eapply ids_mono|]. unfold stage_ok in *. cbn in *.
  destruct (st =? "migrating")%string eqn:Est; to_prop.
  - clear Hok; destruct (Hgd Est) as [E|[E|E]]; rewrite E in Hr1, Hr2, Hs |- *; (split; [split; cbn; rewrite ?Eh|]); try done.
    1, 3: intros _; unfold st'; by rewrite Hap.
    all: intros k Hk; by apply (ca_unsent _ _ Hc), Hs.
  - destruct (pr_stage p) eqn:E; cbn in *; (split; [split; cbn; rewrite ?Eh; done|]); try done.
    + intros k Hk. by apply (ca_unsent _ _ Hc), Hs.
    + destruct Hs as (srv & src & tgt & k & Hw & Hh & _). exists srv, src, tgt, k. by rewrite Eh.
    + destruct Hs as (srv & src & tgt & k & Hw & Hh). exists srv, src, tgt, k. by rewrite Eh.
Qed.

(** Core points the server at a node: the cutover, or the way back. *)
Lemma write_node w cores p id n (ap : bool) :
  let st' := if ap then set_row n (ms_status (w_st w)) (w_st w) else w_st w in
  let w' := mkWorld st' cores (w_threads w) in
  base w -> core_ok w p -> pguard p (UpdateServerNode id n) ->
  core_ok w' (pstep p (UpdateServerNode id n) ap) /\ guarded w' (tok (ms_home st')).
Proof.
  intros st' w' (Ht & Hcl & Hf & Hsk & Hg) (Hi & [Hr1 Hr2] & Hs) (srv & src & tgt & k & Hw & _ & Hcase).
  assert (Hc : calm (w_st w) st') by (unfold st'; destruct ap; [split; cbn; auto|apply calm_refl]).
  pose proof (cm_used _ _ Hc) as Hu. apply (calm_carries w st' cores) in Hc; [|done..].
  assert (Hgd : forall m, guarded w m -> guarded w' m) by exact (ca_guarded _ _ Hc).
  destruct (who_src w p srv src tgt k Hi Hw) as (Es & Et & Eid & _). pose proof Hw as (Hsrv & _).
  assert (Eh : at_source (pr_stage p) = true -> tok (ms_home (w_st w)) = nd_Token src).
  { intros Ha. by rewrite Es, (Hr1 _ Hsrv Ha), Eid. }
  unfold core_ok, stage_ok in *. cbn [pstep pr_stage to_stage]. destruct Hcase as [[E ->]|[E ->]]; rewrite E in Hr1, Hr2, Hs, Eh |- *; cbn in Hr1, Hr2, Hs, Eh |- *.
  - destruct Hs as (srv' & src' & tgt' & k' & Hw' & Hgt). destruct (who_same _ _ _ _ _ _ _ _ _ Hw Hw') as (-> & -> & ->).
    unfold w', st' in *. destruct ap; (split; [split; [by eapply ids_mono|split; [split; cbn; try done; auto|]]|]); try done.
    + exists srv, src, tgt, k. split; [done|]. split; [done|]. apply Hgd. by rewrite <- Eh.
    + cbn. rewrite <- Et. by apply Hgd.
  - destruct Hs as (srv' & src' & tgt' & k' & Hw' & Hh & Hgs). destruct (who_same _ _ _ _ _ _ _ _ _ Hw Hw') as (-> & -> & ->).
    unfold w', st' in *. destruct ap; (split; [split; [by eapply ids_mono|split; [split; cbn; try done; auto|done]]|]); try done.
    + intros srv0 Hs0 _. cbn in Hs0. by simplify_eq.
    + cbn. rewrite <- Es. by apply Hgd.
Qed.

(** ** Core sends a command *)
Section publishing.
Context (w : world) (cores : list (proto * move ended)) (p : proto) (ap : bool) (t : string) (cmd : command).
Context (srv : server) (src tgt : node) (k : string).
Context (Hb : base w) (Hok : core_ok w p) (Hw : who p srv src tgt k) (Hm : may_send srv src tgt k (pr_stage p) t cmd).
Local Notation st' := (if ap then set_queue t (ms_queue (w_st w) t ++ [cmd]) (w_st w) else w_st w).
Local Notation w' := (mkWorld st' cores (w_threads w)).

Lemma pub_row : ms_home st' = ms_home (w_st w) /\ ms_status st' = ms_status (w_st w) /\ ms_used st' = ms_used (w_st w).
Proof. by destruct ap. Qed.

Lemma pub_other k' : k' <> k -> ~ handles cmd k' /\ forall tm, cmd <> MigrateOut k' tm.
Proof.
  intros Hne. split.
  - intros [[h Hf]|[tm ->]]; [|naive_solver]. destruct cmd; try done; cbn in Hf, Hm; injection Hf as -> ->; naive_solver.
  - intros tm ->. cbn in Hm. naive_solver.
Qed.

Lemma pub_fresh : fresh_ok w'.
Proof.
  destruct Hb as (_ & _ & Hf & _ & _). intros k' Hk. destruct pub_row as (_ & _ & Eu). cbn in Hk. rewrite Eu in Hk.
  destruct (who_src w p srv src tgt k (proj1 Hok) Hw) as (_ & _ & _ & _ & _ & Hused). destruct (pub_other k'); [by intros ->|].
  destruct ap; [|by apply (Hf k')]. apply sent_unsent; [done|done|]. by apply Hf.
Qed.

(** A command that may touch a directory does not go where the server lives. *)
Lemma pub_away : plain cmd \/ t <> tok (ms_home (w_st w)).
Proof.
  destruct Hok as (Hi & [Hr1 _] & Hs). destruct (who_src w p srv src tgt k Hi Hw) as (Es & Et & Eid & Hne & _).
  pose proof Hw as (Hsrv & _). specialize (Hr1 srv Hsrv).
  assert (Hback : at_source (pr_stage p) = true -> tok (ms_home (w_st w)) = nd_Token src) by (intros Ha; by rewrite Es, (Hr1 Ha), Eid).
  destruct cmd; cbn in Hm; try (left; by split); right.
  - destruct Hm as (E & -> & _). by rewrite Hback; [|rewrite E].
  - destruct Hm as (E & ->). unfold stage_ok in Hs. rewrite E in Hs. destruct Hs as (srv' & src' & tgt' & k' & Hw' & ->).
    destruct (who_same _ _ _ _ _ _ _ _ _ Hw Hw') as (-> & -> & ->). rewrite <- Et. done.
  - destruct Hm as (E1 & E2 & E3 & -> & _). rewrite Hback; [done|]. by destruct (pr_stage p).
  - destruct Hm as (E & -> & _). by rewrite Hback; [|rewrite E].
Qed.

Lemma pub_base : base w'.
Proof.
  destruct Hb as (Ht & Hcl & Hf & Hsk & Hg). split; [|split; [|split; [apply pub_fresh|split]]].
  - by destruct ap.
  - exact Hcl.
  - by destruct ap.
  - destruct pub_row as (Eh & _). cbn. rewrite Eh. destruct ap; [|exact Hg]. apply sent_guarded; [|done].
    destruct pub_away as [[Hd Hn]|Hn]; [right|by left]. split; [done|]. intros k' tm Hc. by destruct (Hn k' tm).
Qed.

(** The command moves the monitor on, or it is harmless and the stage stays. *)
Lemma pub_carries : plain cmd -> (forall k tm, cmd <> MigrateOut k tm) -> carries w w'.
Proof.
  intros Hp Ho. destruct pub_base as (Ht & Hcl & Hf & Hsk & _). split; try done; try by destruct ap.
  - intros n Hg. destruct ap; [|done]. apply sent_guarded; [|done]. right. split; [apply Hp|].
    intros k' tm Hc. by destruct (proj2 Hp k' tm).
  - intros k' Hu. destruct ap; [|done]. apply sent_unsent; [by apply plain_unhandled|apply Ho|done].
  - intros k' Hu. destruct ap; [|done]. apply sent_nofetch; [by apply plain_unhandled|done].
  - intros n k' r Hx. destruct ap; [|done]. by apply sent_fetch.
  - intros n k' Hx. destruct ap; [|done]. by apply sent_turned.
Qed.

Lemma pub_ids st : ids_ok st' (to_stage p st).
Proof. destruct Hok as (Hi & _ & _). eapply ids_mono; [|exact Hi]. destruct pub_row as (_ & _ & ->). done. Qed.

Lemma pub_rows st :
  (at_source st = true -> at_source (pr_stage p) = true) -> (held st = true -> held (pr_stage p) = true) -> row_ok st' (to_stage p st).
Proof.
  destruct Hok as (_ & [H1 H2] & _), pub_row as (Eh & Es & _). intros Ha Hh.
  split; cbn; [intros srv0; rewrite Eh; auto|rewrite Es; auto].
Qed.

Lemma pub_out tm : cmd = MigrateOut k tm -> pr_stage p = Marked -> t = nd_Token src -> stage_ok w' (to_stage p Staging).
Proof.
  intros Ec E Et. destruct Hok as (_ & _ & Hs). unfold stage_ok in Hs. rewrite E in Hs. destruct (Hs k) as (H1 & H2 & H3 & H4); [apply Hw|].
  exists srv, src, tgt, k. split; [done|]. split; [|split].
  - destruct ap; [|done]. apply sent_nofetch; [|done]. rewrite Ec. by intros [[h ?]|[? ?]].
  - intros m Hmm. destruct ap; cbn in Hmm; by rewrite H4 in Hmm.
  - intros i th tm' h Hi _ Hc. destruct (H3 i th tm' Hi). done.
Qed.

(** A fetch that was not sent leaves the attempt as it was. *)
Lemma pub_in h : fetches cmd = Some (k, h) -> pr_stage p = Staged h -> t = nd_Token tgt -> stage_ok w' (to_stage p (Fetching h)).
Proof.
  intros Ef E Et. destruct Hok as (_ & _ & Hs). unfold stage_ok in *. rewrite E in Hs.
  destruct Hs as (srv' & src' & tgt' & k' & Hw' & (H1 & H2 & H3) & Hh). destruct (who_same _ _ _ _ _ _ _ _ _ Hw Hw') as (-> & -> & ->).
  exists srv, src, tgt, k. split; [done|]. rewrite <- Et.
  assert (Hth : forall i th h', at_thread w i th -> fetches (t_cmd th) <> Some (k, h')) by (intros i th h' Hi Hf; eapply H2; [exact Hi|left; by exists h']).
  assert (Hq : forall m c h', c ∈ ms_queue (w_st w) m -> fetches c <> Some (k, h')) by (intros m c h' Hc Hf; eapply H1; [exact Hc|left; by exists h']).
  assert (Hun : forall i, ~ unspent w t k i) by (intros i (th & h' & Hi & _ & Hf & _); by apply (Hth i th h')).
  assert (Hd : nodiscard w k).
  { split; [intros m tm Hc; eapply H1; [exact Hc|right; by exists tm]|intros i th tm Hi Hc; eapply H2; [exact Hi|right; by exists tm]]. }
  destruct ap; split; try done.
  - eapply fetch_sent; try done; [by apply indecisive_undecided|]. intros i th h' Hi Hf. by destruct (Hth i th h').
  - split; [intros m c h' Hc Hf; by destruct (Hq m c h')|]. split; [intros i th h' Hi Hf; by destruct (Hth i th h')|]. split; [done|].
    split; [right; right; split; [intros c h'; apply Hq|split; [done|by apply indecisive_undecided]]|].
    intros (v & Ev & Hv). specialize (H3 t v Ev). by rewrite Hv in H3.
Qed.

Lemma pub_r2 h : fetches cmd = Some (k, h) -> pr_stage p = Remote h -> t = nd_Token tgt -> stage_ok w' (to_stage p (FetchingR2 h)).
Proof.
  intros Ef E Et. destruct Hok as (_ & _ & Hs). unfold stage_ok in *. rewrite E in Hs.
  destruct Hs as (srv' & src' & tgt' & k' & Hw' & Hf & (Hq & Hun & Htr) & Hh). destruct (who_same _ _ _ _ _ _ _ _ _ Hw Hw') as (-> & -> & ->).
  exists srv, src, tgt, k. split; [done|]. rewrite <- Et in *. destruct ap; [|exact Hf]. destruct Hf as (Hf1 & Hf2 & Hf3 & Hf4 & Hf5).
  eapply fetch_sent; try done.
  intros m c h' Hc Hfc. destruct (Hf1 m c h' Hc Hfc) as [-> _]. destruct (not_dangerous c (Hq c Hc)) as [En _]. congruence.
Qed.
End publishing.

Lemma pub_core w cores p (ap : bool) bg t u cmd a :
  let st' := if ap then set_queue t (ms_queue (w_st w) t ++ [cmd]) (w_st w) else w_st w in
  let w' := mkWorld st' cores (w_threads w) in
  base w -> core_ok w p -> pguard p (Publish bg t u cmd) -> base w' /\ core_ok w' (pstep p (Publish bg t u cmd) a).
Proof.
  intros st' w' Hb Hok (srv & src & tgt & k & Hw & _ & Hm). split; [by eapply pub_base|]. cbn [pstep].
  assert (Hkept : plain cmd -> (forall k tm, cmd <> MigrateOut k tm) -> core_ok w' p).
  { intros Hp Ho. destruct (pub_row w ap t cmd) as (E1 & E2 & E3).
    apply (core_carries w); try done; [by eapply pub_carries|apply Hb|by unfold w', st'; cbn; rewrite E2|].
    unfold w', st'. cbn. by rewrite E3. }
  assert (Hplain : plain cmd -> (forall k tm, cmd <> MigrateOut k tm) -> on_publish cmd (pr_stage p) = pr_stage p ->
    core_ok w' (to_stage p (on_publish cmd (pr_stage p)))).
  { intros Hp Ho ->. rewrite to_same by done. by apply Hkept. }
  assert (cmd = Stop \/ cmd <> Stop) as [->|Hns] by (destruct cmd; by (left + right)).
  { destruct Hm as [E _]. destruct Hkept as (Hi & [Hr1 Hr2] & Hs); [by split|done|]. rewrite E. cbn [on_publish].
    split; [by destruct Hi; split|]. unfold stage_ok in *. rewrite E in Hr1, Hs. by split; [split|]. }
  destruct cmd; try (apply Hplain; by destruct (pr_stage p)); try done; clear Hplain Hkept; cbn in Hm; (split; [by apply pub_ids|]).
  - destruct Hm as (E & Et & ->). rewrite E. split; [by apply pub_rows; rewrite ?E|]. by eapply pub_out.
  - destruct Hm as (E & Et & -> & _). rewrite E. split; [by apply pub_rows; rewrite ?E|]. by eapply pub_in.
  - destruct Hm as (E & _). rewrite E. split; [by apply pub_rows; rewrite ?E|]. destruct Hok as (_ & _ & Hs). unfold stage_ok in *. rewrite E in Hs.
    destruct Hs as (srv' & src' & tgt' & k' & Hw' & Hh). exists srv', src', tgt', k'. split; [done|]. unfold w', st'. by destruct ap.
  - destruct Hm as (E1 & E2 & E3 & _). cbn [on_publish]. split; [apply pub_rows; try done; by destruct (pr_stage p)|].
    by destruct (pr_stage p).
  - destruct Hm as (E & Et & ->). rewrite E. split; [by apply pub_rows; rewrite ?E|]. by eapply pub_r2.
Qed.

(** What [tame] asks of a call of Core. *)
Definition tame_call (c : cop) (o : outcome) (orc : forall c, cans c) (s : mstate) : Prop :=
  match c with
  | UpdateServerNode _ _ => o <> ReplyLost
  | UpdateServerStatus _ st => st = "migrating" -> applied o = true
  | RandRead6 => hex_encode 12 (orc RandRead6) ∉ ms_used s
  | _ => True
  end.

Lemma core_step w cores p c o orc a st' :
  core_call sv tok c o orc (w_st w) = (a, st') -> tame_call c o orc (w_st w) -> pguard p c -> base w -> core_ok w p ->
  base (mkWorld st' cores (w_threads w)) /\ core_ok (mkWorld st' cores (w_threads w)) (pstep p c a).
Proof.
  intros E Ht Hg Hb Hok.
  assert (Hcalm : match c with Publish _ _ _ _ => False | _ => True end -> carries w (mkWorld st' cores (w_threads w))).
  { intros Hp. apply calm_carries; [by eapply core_calm|apply Hb..]. }
  assert (Hbase : match c with Publish _ _ _ _ => False | _ => True end -> ms_home st' = ms_home (w_st w) -> base (mkWorld st' cores (w_threads w))).
  { intros Hp Eh. destruct (Hcalm Hp) as [_ H1 H2 H3 H3' H4 _ _ _ _ _]. split; [done|]. split; [done|]. split; [done|]. split; [done|]. cbn. rewrite Eh. apply H4, Hb. }
  destruct (unseen c) eqn:Hu.
  { destruct (unseen_same _ _ _ _ p _ _ E Hu) as (-> & Eh & Es). assert (Hnp : match c with Publish _ _ _ _ => False | _ => True end) by (by destruct c).
    split; [by apply Hbase|]. apply (core_carries w); try done; [by apply Hcalm|apply Hb|by cbn; rewrite Es|]. apply (cm_used _ _ (core_calm _ _ _ _ _ _ E Hnp)). }
  destruct c; try done; cbn [core_call] in E; injection E as <- <-; cbn in Ht.
  - split; [by apply Hbase|]. destruct (read_server w p Hok 0) as [H1 H2]. destruct (replied o); [exact H2|exact H1].
  - split; [by apply Hbase|]. exact (read_node w p Hok id _ Hg).
  - split; [by apply Hbase|]. by apply draw_attempt.
  - split; [apply Hbase; [done|by destruct (applied o)]|]. by apply write_status.
  - assert (Eo : replied o = applied o) by (by destruct o). rewrite Eo.
    destruct (write_node w cores p _ _ (applied o) Hb Hok Hg) as [H1 H2]. split; [|exact H1].
    destruct (Hcalm I) as [_ H3 H4 H5 H6 _ _ _ _ _ _]. by split.
  - by apply pub_core.
  - split; [by apply Hbase|]. destruct (read_status w p Hok _ _ Hg) as [H1 H2]. destruct (replied o); [exact H2|exact H1].
  - split; [by apply Hbase|]. destruct (read_meta w p Hok _ _ Hg) as [H1 H2]. destruct (replied o); [exact H2|exact H1].
Qed.

(** ** The other steps *)

Lemma core_Inv w i p c m o orc a st' :
  w_cores w !! i = Some (p, Do c m) -> core_call sv tok c o orc (w_st w) = (a, st') -> tame_call c o orc (w_st w) ->
  Inv w -> Inv (mkWorld st' (<[i := (pstep p c a, m a)]> (w_cores w)) (w_threads w)).
Proof.
  intros Hi E Ht [Hb Hco]. unfold cores_ok in Hco. destruct (w_cores w) as [|[p0 m0] [|]]; try done.
  destruct i as [|i]; [|done]. cbn in Hi. injection Hi as -> ->. destruct Hco as [[Hg Hk] Hok].
  destruct (core_step w [(pstep p c a, m a)] p c o orc a st' E Ht Hg Hb Hok) as [H1 H2]. split; [exact H1|]. split; [apply Hk|exact H2].
Qed.

Lemma start_Inv w req : w_cores w = [] -> Inv w -> Inv (mkWorld (w_st w) (w_cores w ++ [(proto0, Migrate cpuPinning req)]) (w_threads w)).
Proof.
  intros E [Hb _]. split; [exact Hb|]. unfold cores_ok. cbn [w_cores]. rewrite E. cbn [app]. split; [apply Migrate_monitored|].
  split; [by split|]. split; [by split|]. done.
Qed.

Lemma gone_Inv w i : Inv w -> Inv (mkWorld (w_st w) (delete i (w_cores w)) (w_threads w)).
Proof.
  intros [Hb Hco]. split; [exact Hb|]. unfold cores_ok in *. cbn. destruct (w_cores w) as [|[p m] [|]]; try done. by destruct i.
Qed.

(** The server runs and writes: nothing that touches its directory is on its way. *)
Lemma write_Inv w c :
  let h := disk_of (tok (ms_home (w_st w))) in
  ms_status (w_st w) <> "migrating" -> occurs c = true -> Inv w ->
  Inv (mkWorld (set_disk h (with_dir (Some c) (ms_disk (w_st w) h)) (set_cur c (w_st w))) (w_cores w) (w_threads w)).
Proof.
  intros h Hst Hoc [(Ht & Hcl & Hf & Hsk & [Hg1 Hg2] & Hdir) Hco]. set (n := tok (ms_home (w_st w))) in *. set (st1 := set_disk _ _ _).
  assert (Ed : forall m, dsk st1 m = if decide (m = n) then with_dir (Some c) (dsk (w_st w) n) else dsk (w_st w) m) by (intros m; exact (dsk_set (set_cur c (w_st w)) n m _)).
  assert (Em : forall m, dk_marker (dsk st1 m) = dk_marker (dsk (w_st w) m)) by (intros m; rewrite Ed; by case_decide; subst).
  split; [split; [|split; [exact Hcl|split; [exact Hf|split]]]|].
  - intros i th Hi. destruct (Ht i th Hi) as (H1 & H2 & H3). split; [done|]. split; [done|]. cbn [w_st]. rewrite Ed.
    case_decide as En; [|done]. rewrite En in H3. destruct (t_stage th) eqn:Es; try done. destruct H3 as (k & hh & y & Hfe & _).
    destruct (Hg2 i th Hi En) as [Hsp _]. rewrite Es in Hsp. destruct Hsp as [?|?]; [|done|done]. unfold dangerous. by rewrite Hfe.
  - destruct Hsk as [_ Hk]. apply stocked_put; [by split|]. apply kept_dir; [apply Hk|]. intros y Hy. by simplify_eq.
  - change (tok _) with n. unfold guarded, safe, quiet, unmatched. cbn [w_st]. rewrite Em. split; [split; [exact Hg1|exact Hg2]|].
    by rewrite Ed, decide_True.
  - unfold cores_ok in *. cbn. destruct (w_cores w) as [|[p m] [|]]; try done. destruct Hco as [Hk (Hi & [Hr1 Hr2] & Hs)].
    split; [done|]. split; [by destruct Hi; split|]. split; [by split|]. unfold stage_ok in *.
    destruct (pr_stage p); try done; by destruct Hst, Hr2.
Qed.

Lemma wstep_Inv w w' : wstep sv tok disk_of sha cpuPinning occurs w w' -> Inv w -> Inv w'.
Proof.
  intros (l & Ht & E) HI. destruct l as [req|i o orc|i|i|t|i o orc x|c|s|t q| | |i]; cbn in Ht, E; unfold on_core in E.
  - simplify_eq. apply start_Inv; [by destruct (w_cores w)|done].
  - destruct (w_cores w !! i) as [[p [|c k]]|] eqn:Ei; try done. destruct (core_call _ _ _ _ _ _) as [a st'] eqn:Ec. simplify_eq.
    eapply core_Inv; try done. destruct c; cbn; try done; to_prop; try done. by destruct o.
  - destruct (w_cores w !! i) as [[p [|c k]]|] eqn:Ei; simplify_eq. by apply gone_Inv.
  - destruct (w_cores w !! i) as [[p m]|] eqn:Ei; simplify_eq. by apply gone_Inv.
  - destruct (ms_queue (w_st w) t) as [|cmd q] eqn:Eq; simplify_eq. apply deliver_Inv; try done.
    intros i th Hi Hth Hd Hs. rewrite forallb_forall in Ht. specialize (Ht th). rewrite Hth, Hd, Hs, String.eqb_refl in Ht. cbn in Ht.
    discriminate Ht. apply list_elem_of_In. by eapply list_elem_of_lookup_2.
  - destruct (w_threads w !! i) as [[t cmd s [|c k]]|] eqn:Ei; try done. destruct (node_call _ _ _ _ _ _ _ _ _) as [a st'] eqn:Ec. simplify_eq.
    to_prop. eapply node_Inv; try done. by destruct c.
  - simplify_eq. to_prop. by apply write_Inv.
  - simplify_eq. to_prop. apply calm_Inv; cbn; try done. by split; cbn; auto.
  - simplify_eq. apply calm_Inv; cbn; try done. split; cbn; auto; intros n p; unfold fset; repeat case_decide; subst; auto.
  - simplify_eq. apply calm_Inv; cbn; try done. by split; cbn; auto.
  - simplify_eq. apply calm_Inv; cbn; try done. by split; cbn; auto.
  - done.
Qed.

Lemma reached_Inv home status c w :
  occurs c = true -> steps (wstep sv tok disk_of sha cpuPinning occurs) (at_rest tok disk_of home status c) w -> Inv w.
Proof. intros Hc H. eapply (steps_invariant _ Inv); [|exact H|by apply at_rest_Inv]. intros. by eapply wstep_Inv. Qed.
End safety.
