(* ===== verification/MoveRuns.v ===== *)
(** * What a move needs, and what it gives (over MoveSafety.v)

    The theorem of MoveSafety.v, at one server on two nodes whose whole move is
    run here call by call; and the runs that end with the data elsewhere once a
    clause of [tame] is dropped, or two nodes share a disk. [next] is a schedule in which every
    call succeeds: handlers first, then waiting commands, then Core. *)

From Stdlib Require Import Ascii String.
From stdpp Require Import pretty.
From S2P Require Import Prelude GoStrings Programs Release Migration MigrationNode Moves MoveWorld MoveSafety.
Open Scope string_scope.
Open Scope list_scope.
Open Scope Z_scope.

Notation length := List.length.

(** ** A world to run *)

Definition moved_server : server :=
  mkServer 7 "3f1c" 1 "stopped" "velocity" None 0 0 10240 "u1" "main" "img" 2048 None 0 "shared" "" "UTC" "".

Definition two_nodes (z : Z) : string := pretty z.
Definition own_disk (t : string) : string := t.
Definition one_disk (t : string) : string := "nfs".

Definition digest (c : content) : string :=
  if (c =? "")%string then "e3b0c442" else if (c =? "world")%string then "9e1fcb04" else if (c =? "newer")%string then "70a1d3ee" else "00".
Definition seen (c : content) : bool := (c =? "")%string || (c =? "world")%string || (c =? "newer")%string.

(** Every call succeeds; the clock stands still but for the ticks of a wait. *)
Definition core_oracle (draw : Z) (c : cop) : cans c :=
  match c with
  | GetServerByID _ => None
  | GetNodeByID _ => Some (mkNode 0 "" "online" None "" [] "" None)
  | LoadHeartbeat _ => Some (mkHeartbeat "2026.11.01.1" "")
  | GetSetting _ | GetDiskGrace _ _ | AutoCpuset _ _ _ _ _ | GetCpuSig _ => ""
  | RandRead6 => draw | Now => 0 | Clock start interval i => start + Z.of_nat i * interval
  | playerCountFromStats _ => 0
  | Tick => true
  | CtxErr | IsContextError | ExistsCancel _ | ExistsBusy _ | ExistsLegacy _ => false
  | UpdateServerNode _ _ | ValidateCpuset _ _ _ => true
  | SetNXLock _ _ | SetNXQueued _ _ => Some true
  | PublishRequest _ | UpdateServerStatus _ _ | UpdateServerDesiredState _ _ | HDelUpload _ | DeleteObject _
  | AbortMultipart _ _ | RotateVoiceKey _ | UpdateServerCPUPinning _ _ _ => true
  | DelLock _ | DelQueued _ | DelCancel _ | DelProgress _ _ _ | SetOrchestration _ _ _ _ _ _ _ | bumpBeamAccess _ | Unreachable => tt
  | Publish _ _ _ _ | OpenStorage _ | ZAddSweep _ _ | HSetUpload _ _ | CompleteMultipart _ _ _
  | MigrateServerRoutes _ _ => inl tt
  | GetNodeStatus _ _ => None
  | GetNodeMeta _ _ => None
  | LoadNodeSecret _ | MintToken _ _ _ => Some "t"
  | GetDefaultBackupStorage => inl (Some "s3")
  | UploadURL _ _ | DownloadURL _ _ | CreateMultipart _ | UploadPartURL _ _ _ _ => inl "url"
  | GetUsedHostPortsOnNode _ => Some []
  end.

Definition node_oracle (c : nop) : nans c :=
  match c with
  | NodeNow => 0 | NodeClock start interval i => start + Z.of_nat i * interval
  | stagedSize _ _ => 1 | DiskBudget _ => 1000 | AbortCount _ | NewRun => 0
  | GetServerPath _ | GetServerDir _ => "/storage" | GetEndpoint _ => "10.0.0.1:25522"
  | SelectStoragePath _ => inl "/storage"
  | StoragePaths => ["/storage"]
  | StatDir _ _ | MkdirStaging _ | WriteOrigin _ _ | RenamePart _ _ _ | StatArchive _ _ | SetMeta _ _ | Claim _ | Probe _ _
  | MarkMovedIn _ _ _ | WriteDiscard _ _ _ => true
  | CtxCancelled | OwnContainer _ => false
  | ReadOrigin _ _ | ReadMovedIn _ _ | ReadDiscard _ _ => None
  | CreatePart _ _ => Some "part"
  | LatestLoad _ => None
  | Archive _ _ _ => inr ""
  | PullOnce _ _ _ _ _ => inr ""
  | RemoveAllDir _ _ | MkdirAllDir _ _ | Extract _ _ _ | RemoveAllFile _ _ _ => inl tt
  | PutArchive _ _ _ _ _ => PutOK
  | _ => tt
  end.

(** ** A schedule *)

Definition at_work (th : thread) : bool := match t_prog th with Do _ _ => true | Ret _ => false end.

Fixpoint first_at_work (held : nat -> bool) (i : nat) (l : list thread) : option nat :=
  match l with
  | [] => None
  | th :: l => if at_work th && negb (held i) then Some i else first_at_work held (S i) l
  end.

(** What the schedule leaves alone: a handler by its number, and a node that
    takes no command. [turn] is the Core it drives, [draw] the next attempt. *)
Record pause := mkPause { held : nat -> bool; deaf : string -> bool; turn : nat; draw : Z }.
Definition freely (draw : Z) : pause := mkPause (fun _ => false) (fun _ => false) 0 draw.
Definition handler_held (i : nat) (draw : Z) : pause := mkPause (Nat.eqb i) (fun _ => false) 0 draw.
Definition node_deaf (t : string) (draw : Z) : pause := mkPause (fun _ => false) (String.eqb t) 0 draw.
Definition second_core (draw : Z) : pause := mkPause (fun _ => false) (fun _ => false) 1 draw.

Definition waiting (p : pause) (w : world) (t : string) : bool := negb (deaf p t) && match ms_queue (w_st w) t with [] => false | _ => true end.

Definition next (p : pause) (w : world) : option label :=
  match first_at_work (held p) 0 (w_threads w) with
  | Some i => Some (LNode i Replied node_oracle "")
  | None =>
      if waiting p w "1" then Some (LDeliver "1") else
      if waiting p w "2" then Some (LDeliver "2") else
      match w_cores w !! turn p with
      | Some (_, Do _ _) => Some (LCore (turn p) Replied (core_oracle (draw p)))
      | Some (_, Ret _) => Some (LEnd (turn p))
      | None => None
      end
  end.

Section schedule.
Context (disk_of : string -> string).
Local Notation exec := (wexec moved_server two_nodes disk_of digest false).
Local Notation step := (wstep moved_server two_nodes disk_of digest false seen).

(** A step that [tame] allows, and one whatever it says. *)
Definition act (l : label) (w : world) : option world := if tame seen w l then exec l w else None.
Definition force (l : label) (w : world) : option world := if tame seen w l then None else exec l w.

(** The schedule, until [stop]. *)
Fixpoint until (p : pause) (stop : world -> bool) (fuel : nat) (w : world) : option world :=
  if stop w then Some w else
  match fuel, next p w with
  | S fuel, Some l => w ← act l w; until p stop fuel w
  | _, _ => None
  end.

Definition resting (p : pause) (w : world) : bool := match next p w with None => true | Some _ => false end.
Definition rest (p : pause) (w : world) : option world := until p (resting p) 400 w.

Lemma act_step l w w' : act l w = Some w' -> step w w'.
Proof. unfold act. destruct (tame seen w l) eqn:Et; [|done]. intros E. by exists l. Qed.

Lemma until_steps p stop fuel w w' : until p stop fuel w = Some w' -> steps step w w'.
Proof.
  revert w. induction fuel as [|fuel IH]; intros w H; cbn in H; destruct (stop w); simplify_eq; try constructor.
  destruct (next p w) as [l|]; [|done]. destruct (act l w) as [w1|] eqn:E; [|done].
  apply steps_cons with w1; [by eapply act_step|by apply IH].
Qed.

(** A first step, then the schedule to its end. *)
Definition play (l : label) (p : pause) (w : world) : option world := w1 ← act l w; rest p w1.

Lemma play_steps l p w w' : play l p w = Some w' -> steps step w w'.
Proof.
  unfold play. destruct (act l w) as [w1|] eqn:E1; [|done]. intros E. apply steps_cons with w1; [by eapply act_step|].
  exact (until_steps _ _ _ _ _ E).
Qed.
End schedule.

(** The call a Core or a handler makes next. *)
Definition core_calls (i : nat) (f : cop -> bool) (w : world) : bool :=
  match w_cores w !! i with Some (_, Do c _) => f c | _ => false end.
Definition node_calls (i : nat) (f : nop -> bool) (w : world) : bool :=
  match w_threads w !! i with Some (mkThread _ _ _ (Do c _)) => f c | _ => false end.

(** ** The move that works *)

Definition request (source target : Z) : MigrationRequest := mkReq 7 target source "stopped" "manual" "admin".

Definition settled : world := at_rest two_nodes own_disk 1 "stopped" "world".

(** ** Moves that lose data *)

(** What a loss needs: one step [tame] forbids, or nodes that share a disk. *)
Inductive hazard :=
| FlipReplyLost        (* UpdateServerNode was applied but reported a failure *)
| Redelivered          (* a node restarts after "transferred", before it acknowledged migrate_in *)
| CleanupOvertaken     (* migrate_cleanup starts after the migrate_in of the move back *)
| MarkerUnwritten      (* markMovedIn fails, and the discard of an earlier attempt is still at work *)
| StatusUnwritten      (* the write of "migrating" fails *)
| StatusOverwritten    (* another part of Core writes the status of a moving server *)
| TwoLeaders           (* two Cores run the same request, one waiting for the lock *)
| SharedDisk.          (* both nodes store on the same disk *)

Definition is_flip (c : cop) : bool := match c with UpdateServerNode _ _ => true | _ => false end.
Definition is_marking (c : cop) : bool := match c with UpdateServerStatus _ st => (st =? "migrating")%string | _ => false end.
Definition is_lock (c : cop) : bool := match c with SetNXLock _ _ => true | _ => false end.
Definition is_cleanup (c : cop) : bool := match c with Publish _ _ _ MigrateCleanup => true | _ => false end.
Definition is_release (c : nop) : bool := match c with Release _ => true | _ => false end.
Definition is_mark (c : nop) : bool := match c with MarkMovedIn _ _ _ => true | _ => false end.

Definition queues (t : string) (w : world) : bool := match ms_queue (w_st w) t with [] => false | _ => true end.
Definition queues_cleanup (w : world) : bool := match ms_queue (w_st w) "1" with [MigrateCleanup] => true | _ => false end.
Definition handler_ended (i : nat) (w : world) : bool := match w_threads w !! i with Some th => negb (at_work th) | None => false end.

(** The runs. All but the one forced step is what [tame] allows. *)
Definition losing (h : hazard) : option world :=
  let start source target w := act own_disk (LStart (request source target)) w in
  let upto p stop w := until own_disk p stop 400%nat w in
  let finish p w := rest own_disk p w in
  match h with
  | FlipReplyLost =>
      w ← start 1 2 settled; w ← upto (freely 10) (core_calls 0 is_flip) w;
      w ← force own_disk (LCore 0 ReplyLost (core_oracle 0)) w; finish (freely 10) w
  | Redelivered =>
      w ← start 1 2 settled; w ← upto (freely 10) (node_calls 1 is_release) w;
      w ← finish (mkPause (Nat.eqb 1) (String.eqb "1") 0 10) w;
      w ← act own_disk (LWrite "newer") w; w ← force own_disk (LRedeliver 1) w; finish (node_deaf "1" 10) w
  | CleanupOvertaken =>
      w ← start 1 2 settled; w ← upto (freely 10) queues_cleanup w;
      w ← act own_disk (LDeliver "1") w; w ← finish (handler_held 3 10) w;
      w ← start 2 1 w; w ← upto (handler_held 3 11) (queues "1") w;
      w ← force own_disk (LDeliver "1") w; w ← finish (mkPause (Nat.eqb 3) (String.eqb "1") 0 11) w; finish (freely 11) w
  | MarkerUnwritten =>
      w ← start 1 2 settled; w ← upto (freely 10) (handler_ended 1) w;
      w ← act own_disk LCancel w; w ← finish (handler_held 3 10) w;
      w ← start 1 2 w; w ← upto (handler_held 3 11) (node_calls 5 is_mark) w;
      w ← force own_disk (LNode 5 Failed node_oracle "") w; w ← finish (handler_held 3 11) w; finish (freely 11) w
  | StatusUnwritten =>
      w ← start 1 2 settled; w ← upto (freely 10) (core_calls 0 is_marking) w;
      w ← force own_disk (LCore 0 Failed (core_oracle 0)) w; w ← upto (freely 10) (core_calls 0 is_flip) w;
      w ← act own_disk (LWrite "newer") w; finish (freely 10) w
  | StatusOverwritten =>
      w ← start 1 2 settled; w ← upto (freely 10) (core_calls 0 is_flip) w;
      w ← force own_disk (LSetStatus "stopped") w; w ← act own_disk (LWrite "newer") w; finish (freely 10) w
  | TwoLeaders =>
      w ← start 1 2 settled; w ← upto (freely 10) (core_calls 0 is_lock) w;
      w ← force own_disk (LStart (request 1 2)) w; w ← upto (second_core 11) (core_calls 1 is_cleanup) w;
      w ← act own_disk (LCore 1 Failed (core_oracle 0)) w; w ← finish (second_core 11) w;
      w ← act own_disk (LWrite "newer") w; finish (freely 10) w
  | SharedDisk =>
      w ← act one_disk (LStart (request 1 2)) (at_rest two_nodes one_disk 1 "stopped" "world");
      w ← until one_disk (node_deaf "2" 10) (queues "2") 400%nat w;
      w ← act one_disk LCancel w; w ← rest one_disk (node_deaf "2" 10) w; rest one_disk (freely 10) w
  end.

Definition disks (h : hazard) : string -> string := match h with SharedDisk => one_disk | _ => own_disk end.

(** ** The theorem and its limits *)

(** C1: No move loses the server's data. Assume that node tokens differ, that
    every node has a disk of its own, and that SHA-256, printed in lower case,
    tells apart the contents that come up, the empty directory among them.
    Start from a server at rest and let Core, the nodes and their calls run in
    any order, with calls that fail or lose their reply, Cores that die, late
    and repeated reports, lost commands and cancelled moves, but so that
    ([tame]): one Core at a time runs the move, and its lock does not run out
    meanwhile; the update that moves the server's row does not lose its reply,
    and the status "migrating" is written when Core asks for it and by nobody
    else, while it stands nobody changes it and the server does not write; an
    attempt's number is drawn once; a node starts a command that writes or
    removes the directory before it takes the next one, takes none twice, and its marker of a copy
    that came in is written. Then in every world reached the directory on the
    node that the server's row names holds the server's current data. *)
Theorem no_move_loses_data sv tok disk_of sha cpuPinning occurs :
  (forall i j, tok i = tok j -> i = j) ->
  (forall t t', disk_of t = disk_of t' -> t = t') ->
  (forall c c', occurs c = true -> occurs c' = true -> sha c = sha c' -> c = c') ->
  (forall c, wanted (sha c) = sha c) ->
  occurs "" = true ->
  forall home status c w, occurs c = true ->
    steps (wstep sv tok disk_of sha cpuPinning occurs) (at_rest tok disk_of home status c) w ->
    intact tok disk_of w.
Proof.
  intros Ht Hd Hs Hx He home status c w Hc H. apply reached_Inv in H; [|done..].
  destruct H as [(_ & _ & _ & _ & _ & H) _]. exact H.
Qed.

Lemma digest_exact c c' : seen c = true -> seen c' = true -> digest c = digest c' -> c = c'.
Proof.
  unfold seen, digest. repeat match goal with |- context [(?a =? ?b)%string] => destruct (String.eqb_spec a b) end; subst; done.
Qed.

Lemma digest_wanted c : wanted (digest c) = digest c.
Proof. unfold digest. repeat case_match; vm_compute; reflexivity. Qed.

(** The move of a stopped server runs to its end, and its data is at the target. *)
Lemma no_move_loses_data_witness :
  exists w, play own_disk (LStart (request 1 2)) (freely 10) settled = Some w /\ ms_home (w_st w) = 2 /\ w_cores w = [] /\ intact two_nodes own_disk w.
Proof.
  assert (Hv : (w ← play own_disk (LStart (request 1 2)) (freely 10) settled; Some (ms_home (w_st w), length (w_cores w))) = Some (2, 0%nat)) by (vm_compute; reflexivity).
  destruct (play _ _ _ _) as [w|] eqn:E; [|discriminate Hv]. exists w. injection Hv as Hh Hl. split; [reflexivity|]. split; [exact Hh|]. split; [destruct (w_cores w); [done|discriminate Hl]|].
  apply (no_move_loses_data moved_server two_nodes own_disk digest false seen) with 1 "stopped" "world".
  - intros i j. apply pretty_Z_inj.
  - intros t t' H. exact H.
  - apply digest_exact.
  - apply digest_wanted.
  - reflexivity.
  - reflexivity.
  - exact (play_steps _ _ _ _ _ E).
Defined.

(** What each condition is for. With it broken, a run ends with the row naming a
    node that does not hold the server's current data: mostly the data is lost,
    after a lost reply of the update of the row it is left on the source. The
    run with two Cores has a failed publish as well. *)
Lemma every_hazard_matters h : exists w, losing h = Some w /\ ~ intact two_nodes (disks h) w.
Proof.
  assert (H : match losing h with
              | Some w => bool_decide (dk_dir (ms_disk (w_st w) (disks h (two_nodes (ms_home (w_st w))))) = Some (ms_cur (w_st w))) = false
              | None => False
              end) by (destruct h; vm_compute; reflexivity).
  destruct (losing h) as [w|]; [|done]. exists w. split; [reflexivity|]. by apply bool_decide_eq_false in H.
Qed.
