(* ===== verification/Billing.v ===== *)
(** * Accounts: payment state, holds, entitlements and allowances

    The billing row of a tenant (core/store/billing.go, core/store/plans.go)
    with every statement that writes it, and the rules that read it: the
    payment status under an operator's hold, the cutoff
    (core/store/warp.go), what a tenant may use and how much
    (core/services/entitlement.go, limits.go, limit_setting.go, node_slots.go,
    billing_overlimit.go) and the windows and allowances of stored backups
    (retention.go, billing_lifecycle.go, backup_allowance.go).

    Instants are nanoseconds since 1970. The columns of the table are grouped
    by what writes them; [updated_at], which nothing reads, is left out. A
    statement is a function of the row it finds, so the statements of all
    replicas are one sequence of these functions. *)

From Stdlib Require Import Ascii String.
From S2P Require Import Prelude GoStrings Schedule.
Open Scope string_scope.
Open Scope list_scope.
Open Scope Z_scope.

(** ** Retention specs (retention.go) *)

Definition parseRetentionSpec (spec : string) : option (Z * ascii) :=
  let spec := TrimSpace (ToLower spec) in
  let len := String.length spec in
  if (len <? 2)%nat then None
  else match String.get (len - 1) spec with
       | None => None
       | Some unit =>
           if negb (Ascii.eqb unit "d") && negb (Ascii.eqb unit "w") && negb (Ascii.eqb unit "m") then None
           else match Atoi (String.substring 0 (len - 1) spec) with
                | Some n => if n <? 0 then None else Some (n, unit)
                | None => None
                end
       end.

Definition day_ns : Z := day_secs * nanos.

(** The arithmetic of [uint64]. *)
Definition wrapu64 (z : Z) : Z := z mod 2 ^ 64.

(** [dateToAbsDays] of package time: the days since a first of March some 292
    billion years back, in [uint64]. *)
Definition absoluteYears : Z := 292277022400.
Definition dateToAbsDays (year month day : Z) : Z :=
  let janFeb := if month <? 3 then 1 else 0 in
  let amonth := month + 12 * janFeb in
  let y := wrapu64 (year - janFeb + absoluteYears) in
  let ayday := Z.shiftr (979 * amonth - 2919) 5 in
  let century := y / 100 in
  let cyear := y mod 100 in
  let cday := 1461 * cyear / 4 in
  let centurydays := wrapu64 (146097 * century) / 4 in
  wrapu64 (centurydays + wrapu64 (cday + ayday + day - 1)).

(** The seconds from there to 1970, and from the year 1 to 1970. *)
Definition absoluteToUnix : Z := - (absoluteYears / 400 * 146097 + 719468) * day_secs.
Definition unixToInternal : Z := 719162 * day_secs.

(** [t.AddDate(0, months, days)] of an instant in UTC: the date is put back
    together by [time.Date], which carries months into years and days past the
    end of their month into the next, in 64 bits throughout; the seconds of a
    [time.Time] count from the year 1. *)
Definition AddDate (t months days : Z) : Z :=
  let '(y, m, d) := civil (t / day_ns) in
  let m0 := wrap64 (wrap64 (m + months) - 1) in
  let day := wrap64 (d + days) in
  let unix := wrap64 (dateToAbsDays (y + m0 / 12) (m0 mod 12 + 1) day * day_secs + t mod day_ns / nanos + absoluteToUnix) in
  (wrap64 (unix + unixToInternal) - unixToInternal) * nanos + t mod nanos.

(** [None] is [ok = false]. The product of the weeks is an [int]. *)
Definition AddRetention (t : Z) (spec : string) : option Z :=
  match parseRetentionSpec spec with
  | None => None
  | Some (n, unit) =>
      if Ascii.eqb unit "d" then Some (AddDate t 0 n)
      else if Ascii.eqb unit "w" then Some (AddDate t 0 (wrap64 (n * 7)))
      else Some (AddDate t n 0)
  end.

Definition ValidRetentionSpec (spec : string) : bool :=
  match parseRetentionSpec spec with Some _ => true | None => false end.

Definition DefaultGracePeriod : string := "3d".
Definition DefaultR2Retention : string := "1w".

(** [setting] is what [GetSetting] answers for the key, a failed read being
    the empty string. *)
Definition effectiveSpec (override setting def : string) : string :=
  if ValidRetentionSpec override then override
  else if ValidRetentionSpec setting then setting else def.

(** ** Limits (limits.go, limit_setting.go) *)

Definition LimitUnlimited : string := "unlimited".

Definition ParseLimitSetting (raw : string) (def : option Z) : option Z :=
  if (raw =? "")%string then def
  else if (raw =? LimitUnlimited)%string then None
  else match Atoi raw with
       | Some n => if n <? 0 then def else Some n
       | None => def
       end.

Definition FormatLimitSetting (v : option Z) : string :=
  match v with None => LimitUnlimited | Some n => Itoa n end.

Definition Exceeds (cap : option Z) (used : Z) : bool :=
  match cap with Some c => c <? used | None => false end.
Definition AtOrOver (cap : option Z) (used : Z) : bool :=
  match cap with Some c => c <=? used | None => false end.
Definition LimitOr (cap : option Z) (def : Z) : Z :=
  match cap with Some c => c | None => def end.

(** [exp != nil && exp.After(now)] *)
Definition live (exp : option Z) (now : Z) : bool :=
  match exp with Some e => now <? e | None => false end.

Definition GrantedSlots : Z := 1.

Definition grantedCap (purchased grantExpires : option Z) (now : Z) : option Z :=
  match purchased with
  | Some _ => purchased
  | None => if live grantExpires now then Some GrantedSlots else None
  end.

(** ** The billing row *)

Record lifecycle := mkLife {
  lc_status : string; lc_grace_until : option Z; lc_suspended_at : option Z;
  lc_admin_hold : bool; lc_held_status : option string
}.
Record overrides := mkOver {
  ov_grace_period : option string; ov_r2_retention : option string; ov_node_retention : option string;
  ov_r2_quota_gb : option Z
}.
Record purchase := mkPurchase { pu_max_nodes : option Z; pu_max_links : option Z }.
Record ceilings := mkCeil {
  ce_admin_max_nodes : option string; ce_admin_max_links : option string;
  ce_traffic_edge_gb : option Z; ce_traffic_relay_gb : option Z; ce_traffic_combined_gb : option Z
}.
Record grants := mkGrants {
  gr_kind : string; gr_expires_at : option Z;
  gr_byon_expires_at : option Z; gr_route_expires_at : option Z;
  gr_granted_at : option Z; gr_granted_by : option string
}.
Record consent := mkConsent { co_traffic : bool; co_backup : bool; co_data : option bool }.

Record billing_row := mkRow {
  br_life : lifecycle; br_overlimit_since : option Z; br_links_off_at : option Z;
  br_over : overrides; br_bought : purchase; br_ceil : ceilings; br_grants : grants; br_consent : consent
}.

(** The defaults of the columns. *)
Definition new_row : billing_row :=
  mkRow (mkLife "active" None None false None) None None (mkOver None None None None)
    (mkPurchase None None) (mkCeil None None None None None) (mkGrants "" None None None None None)
    (mkConsent false false None).

Definition with_life f r := mkRow (f (br_life r)) (br_overlimit_since r) (br_links_off_at r) (br_over r) (br_bought r) (br_ceil r) (br_grants r) (br_consent r).
Definition with_since v r := mkRow (br_life r) v (br_links_off_at r) (br_over r) (br_bought r) (br_ceil r) (br_grants r) (br_consent r).
Definition with_off v r := mkRow (br_life r) (br_overlimit_since r) v (br_over r) (br_bought r) (br_ceil r) (br_grants r) (br_consent r).
Definition with_over v r := mkRow (br_life r) (br_overlimit_since r) (br_links_off_at r) v (br_bought r) (br_ceil r) (br_grants r) (br_consent r).
Definition with_bought f r := mkRow (br_life r) (br_overlimit_since r) (br_links_off_at r) (br_over r) (f (br_bought r)) (br_ceil r) (br_grants r) (br_consent r).
Definition with_ceil v r := mkRow (br_life r) (br_overlimit_since r) (br_links_off_at r) (br_over r) (br_bought r) v (br_grants r) (br_consent r).
Definition with_grants f r := mkRow (br_life r) (br_overlimit_since r) (br_links_off_at r) (br_over r) (br_bought r) (br_ceil r) (f (br_grants r)) (br_consent r).
Definition with_consent f r := mkRow (br_life r) (br_overlimit_since r) (br_links_off_at r) (br_over r) (br_bought r) (br_ceil r) (br_grants r) (f (br_consent r)).

(** *** What a read gives *)

Record UserBilling := mkUB {
  UserID : string; Status : string; GraceUntil : option Z; SuspendedAt : option Z;
  GracePeriod : string; R2Retention : string; NodeRetention : string; R2QuotaGB : option Z;
  MaxNodes : option Z; MaxLinks : option Z; AdminMaxNodes : string; AdminMaxLinks : string;
  TrafficEdgeGB : option Z; TrafficRelayGB : option Z; TrafficCombinedGB : option Z;
  ManualEntitlement : string; ManualEntitlementExpiresAt : option Z;
  ManualByonExpiresAt : option Z; ManualRouteExpiresAt : option Z;
  OverLimitSince : option Z; TrafficBillingEnabled : bool; BackupBillingEnabled : bool;
  AdminHold : bool; HeldStatus : string; NodeLinksOff : bool
}.

(** [COALESCE(col, '')], and the [String] of a [NullString]. *)
Definition text (c : option string) : string := default "" c.
(** [IS NOT NULL] *)
Definition set {A} (c : option A) : bool := match c with Some _ => true | None => false end.

Definition scanUserBilling (u : string) (r : billing_row) : UserBilling :=
  let '(mkRow l since off ov pu ce gr co) := r in
  mkUB u (lc_status l) (lc_grace_until l) (lc_suspended_at l)
    (text (ov_grace_period ov)) (text (ov_r2_retention ov)) (text (ov_node_retention ov)) (ov_r2_quota_gb ov)
    (pu_max_nodes pu) (pu_max_links pu) (text (ce_admin_max_nodes ce)) (text (ce_admin_max_links ce))
    (ce_traffic_edge_gb ce) (ce_traffic_relay_gb ce) (ce_traffic_combined_gb ce)
    (gr_kind gr) (gr_expires_at gr) (gr_byon_expires_at gr) (gr_route_expires_at gr)
    since (co_traffic co) (co_backup co) (lc_admin_hold l) (text (lc_held_status l)) (set off).

(** A tenant without a row reads as active with no overrides, as a new row does. *)
Definition readBilling (u : string) (r : option billing_row) : UserBilling :=
  scanUserBilling u (default new_row r).

Definition PaymentStatus (b : UserBilling) : string :=
  if AdminHold b && negb (HeldStatus b =? "")%string then HeldStatus b else Status b.

(** *** Statements

    Each is the effect of one SQL statement on the tenant's row, [None] being
    no row. *)
Module Stmt.

(** [INSERT ... ON CONFLICT DO UPDATE] of columns the statement sets either way. *)
Definition upsert (f : billing_row -> billing_row) (r : option billing_row) : option billing_row :=
  Some (f (default new_row r)).

(** [$1 IS NULL OR x = ANY($1)] *)
Definition any_of (from : option (list string)) (x : string) : bool :=
  match from with None => true | Some l => existsb (String.eqb x) l end.

(** The row after it, and whether a row was written. *)
Definition SetUserBillingStatusIf (status : string) (graceUntil suspendedAt : option Z) (from : option (list string))
    (r : option billing_row) : option billing_row * bool :=
  match r with
  | None => (Some (with_life (fun _ => mkLife status graceUntil suspendedAt false None) new_row), true)
  | Some row =>
      let l := br_life row in
      if any_of from (if lc_admin_hold l then default (lc_status l) (lc_held_status l) else lc_status l)
      then (Some (with_life (fun _ =>
              if lc_admin_hold l
              then mkLife (lc_status l) (lc_grace_until l) (lc_suspended_at l) (lc_admin_hold l) (Some status)
              else mkLife status graceUntil suspendedAt (lc_admin_hold l) (lc_held_status l)) row), true)
      else (Some row, false)
  end.

Definition SetUserBillingStatus (status : string) (graceUntil suspendedAt : option Z)
    (r : option billing_row) : option billing_row :=
  (SetUserBillingStatusIf status graceUntil suspendedAt None r).1.

Definition PlaceAdminHold (at_ : Z) (r : option billing_row) : option billing_row :=
  match r with
  | None => Some (with_life (fun _ => mkLife "suspended" None (Some at_) true (Some "active")) new_row)
  | Some row =>
      Some (with_life (fun l =>
        mkLife "suspended" (lc_grace_until l)
          (if (lc_status l =? "suspended")%string && set (lc_suspended_at l) then lc_suspended_at l else Some at_)
          true
          (if lc_admin_hold l then lc_held_status l else Some (lc_status l))) row)
  end.

(** The row after it, and the status returned to. *)
Definition LiftAdminHold (r : option billing_row) : option billing_row * string :=
  match r with
  | Some row =>
      let l := br_life row in
      if lc_admin_hold l
      then (Some (with_life (fun _ =>
              mkLife (default (lc_status l) (lc_held_status l)) (lc_grace_until l) (lc_suspended_at l) false None) row),
            text (lc_held_status l))
      else (r, "")
  | None => (r, "")
  end.

Definition SetUserOverLimitSince (v : option Z) : option billing_row -> option billing_row := upsert (with_since v).

Definition MarkNodeLinksOff (now : Z) (r : option billing_row) : option billing_row * bool :=
  match r with
  | Some row => if set (br_links_off_at row) then (r, false) else (Some (with_off (Some now) row), true)
  | None => (r, false)
  end.

Definition ClearNodeLinksOff (r : option billing_row) : option billing_row := with_off None <$> r.

(** [NULLIF(s, '')] *)
Definition nullif (s : string) : option string := if (s =? "")%string then None else Some s.

Definition SetUserBillingOverrides (gracePeriod r2Retention nodeRetention : string) (r2QuotaGB : option Z) :
    option billing_row -> option billing_row :=
  upsert (with_over (mkOver (nullif gracePeriod) (nullif r2Retention) (nullif nodeRetention) r2QuotaGB)).

Definition SetUserLimitOverrides (adminNodes adminLinks : string) (edge relay combined : option Z) :
    option billing_row -> option billing_row :=
  upsert (with_ceil (mkCeil (Some adminNodes) (Some adminLinks) edge relay combined)).

(** The two columns are 32 bits wide; a number past that fails the statement. *)
Definition SetUserPurchasedEntitlement (maxNodes : option Z) (setNodes : bool) (maxLinks : option Z) (setLinks : bool)
    (r : option billing_row) : option billing_row :=
  match r with
  | None => Some (with_bought (fun _ => mkPurchase maxNodes maxLinks) new_row)
  | Some row =>
      Some (with_bought (fun p =>
        mkPurchase (if setNodes then maxNodes else pu_max_nodes p) (if setLinks then maxLinks else pu_max_links p)) row)
  end.

Definition SetUserBillingConsent (traffic backup : option bool) (r : option billing_row) : option billing_row :=
  if negb (set traffic) && negb (set backup) then r
  else upsert (with_consent (fun c =>
         mkConsent (default (co_traffic c) traffic) (default (co_backup c) backup) (co_data c))) r.

Definition SetUserDataBillingEnabled (v : bool) : option billing_row -> option billing_row :=
  upsert (with_consent (fun c => mkConsent (co_traffic c) (co_backup c) (Some v))).

(** For an install without a store: the caps an operator once wrote as a purchase
    move to the operator's columns. It runs over every row; this is its effect
    on one. *)
Definition MoveOperatorLimitsToAdminLayer (r : option billing_row) : option billing_row :=
  match r with
  | Some row =>
      let p := br_bought row in
      let moved (admin : option string) (cap : option Z) :=
        match cap with Some n => if (default "" admin =? "")%string then Some (Itoa n) else admin | None => admin end in
      if bool_decide (is_Some (pu_max_nodes p) \/ is_Some (pu_max_links p)) then
        let c := br_ceil row in
        Some (with_ceil (mkCeil (moved (ce_admin_max_nodes c) (pu_max_nodes p)) (moved (ce_admin_max_links c) (pu_max_links p))
                (ce_traffic_edge_gb c) (ce_traffic_relay_gb c) (ce_traffic_combined_gb c)) (with_bought (fun _ => mkPurchase None None) row))
      else r
  | None => None
  end.

(** The whole grant at once: the columns of the shape before the kinds were
    split. *)
Definition SetUserManualEntitlement (now : Z) (kind : string) (expiresAt : option Z) (grantedBy : string) :
    option billing_row -> option billing_row :=
  let expiresAt := if (kind =? "")%string then None else expiresAt in
  upsert (with_grants (fun g =>
    mkGrants kind expiresAt (gr_byon_expires_at g) (gr_route_expires_at g)
      (if (kind =? "")%string then None else Some now) (nullif grantedBy))).

(** What the single string says for two kinds held or not. *)
Definition kind_of (byon route : bool) : string :=
  if byon then (if route then "both" else "byon") else if route then "route_only" else "".

(** One kind. [None] is the error of a kind it does not know. *)
Definition SetUserManualEntitlementKind (now : Z) (kind : string) (expiresAt : option Z) (grantedBy : string)
    (r : option billing_row) : option (option billing_row) :=
  let at_ := if set expiresAt then Some now else None in
  let keep {A} (new old : option A) := match new with Some _ => new | None => old end in
  if (kind =? "byon")%string then
    Some (upsert (with_grants (fun g =>
      mkGrants (kind_of (set expiresAt) (set (gr_route_expires_at g))) (gr_expires_at g) expiresAt (gr_route_expires_at g)
        (keep at_ (gr_granted_at g)) (keep (nullif grantedBy) (gr_granted_by g)))) r)
  else if (kind =? "route_only")%string then
    Some (upsert (with_grants (fun g =>
      mkGrants (kind_of (set (gr_byon_expires_at g)) (set expiresAt)) (gr_expires_at g) (gr_byon_expires_at g) expiresAt
        (keep at_ (gr_granted_at g)) (keep (nullif grantedBy) (gr_granted_by g)))) r)
  else None.
End Stmt.

(** ** Cut off (core/store/warp.go, core/handlers/guard/billing_suspended.go) *)

Definition Hour : Z := 3600 * nanos.
Definition OverLimitGrace : Z := 72 * Hour.

(** [t != nil && !now.Before(t.Add(d))] *)
Definition elapsed (t : option Z) (d now : Z) : bool :=
  match t with Some t => t + d <=? now | None => false end.

Definition OwnerCutOff (b : option UserBilling) (suspendGrace overLimitGrace now : Z) : bool :=
  match b with
  | None => false
  | Some b =>
      (AdminHold b && (Status b =? "suspended")%string)
      || ((Status b =? "suspended")%string && elapsed (SuspendedAt b) suspendGrace now)
      || elapsed (OverLimitSince b) overLimitGrace now
  end.

(** The messages of a refusal; [None] is the empty string, which lets the
    request through. [b] is the read of the owner's row, [None] when it
    failed. *)
Inductive refusal := SuspendedMessage | overLimitMessage.

Definition OwnerRefusal (operatorOverride : bool) (ownerID : string) (b : option UserBilling) (grace now : Z) :
    option refusal :=
  if (ownerID =? "")%string then None
  else if operatorOverride then None
  else match b with
       | None => None
       | Some ub =>
           if (Status ub =? "suspended")%string then Some SuspendedMessage
           else if OwnerCutOff b grace OverLimitGrace now then Some overLimitMessage
           else None
       end.

(** ** What a tenant may use (entitlement.go) *)

Definition EntitlementByon : string := "byon".
Definition EntitlementRouteOnly : string := "route_only".
Definition EntitlementBoth : string := "both".

Inductive entitlement_source :=
  SourceNone | SourcePlan | SourceGrant | SourceBoth | SourceUnlimited | SourceSuspended.

Record Entitlement := mkEnt {
  Byon : bool; RouteOnly : bool; Source : entitlement_source; PlanKind : string; GrantKind : string;
  GrantExpiresAt : option Z; GrantByonExpiresAt : option Z; GrantRouteExpiresAt : option Z
}.

Definition kindGrants (kind : string) : bool * bool :=
  let k := TrimSpace (ToLower kind) in
  if (k =? EntitlementBoth)%string then (true, true)
  else if (k =? EntitlementByon)%string then (true, false)
  else if (k =? EntitlementRouteOnly)%string then (false, true)
  else (false, false).

Definition purchasedKind (byon routeOnly : bool) : string :=
  if byon && routeOnly then EntitlementBoth
  else if byon then EntitlementByon
  else if routeOnly then EntitlementRouteOnly
  else "".

(** The manual grant: which kinds, the date reported, and the dates of the kinds. *)
Definition manual_grant (b : UserBilling) (now : Z) : bool * bool * option Z * option Z * option Z :=
  let gb := live (ManualByonExpiresAt b) now in
  let gr := live (ManualRouteExpiresAt b) now in
  let exp := if gb then ManualByonExpiresAt b else None in
  let exp := if gr then match exp, ManualRouteExpiresAt b with
                        | Some e, Some r => if e <? r then Some r else Some e
                        | None, r => r
                        | e, None => e
                        end else exp in
  let eb := if gb then ManualByonExpiresAt b else None in
  let er := if gr then ManualRouteExpiresAt b else None in
  if negb gb && negb gr && negb (TrimSpace (ManualEntitlement b) =? "")%string
     && negb (set (ManualByonExpiresAt b)) && negb (set (ManualRouteExpiresAt b))
     && live (ManualEntitlementExpiresAt b) now
  then let '(gb, gr) := kindGrants (ManualEntitlement b) in (gb, gr, ManualEntitlementExpiresAt b, eb, er)
  else (gb, gr, exp, eb, er).

Definition positive (v : option Z) : bool := match v with Some n => 0 <? n | None => false end.

(** [billing] is the answer of the read, [None] an error. [None] is the error. *)
Definition EffectiveEntitlement (billing : option UserBilling) (now : Z) (storeEnabled isAdmin : bool) :
    option Entitlement :=
  if isAdmin then Some (mkEnt true true SourceUnlimited "" "" None None None)
  else match billing with
  | None => None
  | Some b =>
      if (Status b =? "suspended")%string then Some (mkEnt false false SourceSuspended "" "" None None None)
      else
        let '(grantByon, grantRoute, exp, eb, er) := manual_grant b now in
        let boughtByon := positive (MaxNodes b) in
        let boughtRoute := positive (MaxLinks b) in
        let planByon := negb storeEnabled || boughtByon in
        let planRoute := negb storeEnabled || boughtRoute in
        let planKind := if storeEnabled && (boughtByon || boughtRoute) then purchasedKind boughtByon boughtRoute else "" in
        let hasGrant := grantByon || grantRoute in
        let hasPlan := planByon || planRoute in
        let source :=
          if negb storeEnabled && negb hasGrant then SourceUnlimited
          else if hasGrant && hasPlan && storeEnabled then SourceBoth
          else if hasGrant && negb storeEnabled then SourceBoth
          else if hasGrant then SourceGrant
          else if hasPlan then SourcePlan
          else SourceNone in
        Some (mkEnt (grantByon || planByon) (grantRoute || planRoute) source planKind
                (purchasedKind grantByon grantRoute) exp eb er)
  end.

Record Limits := mkLimits {
  LMaxNodes : option Z; LMaxLinks : option Z; LR2QuotaGB : option Z;
  LTrafficEdgeGB : option Z; LTrafficRelayGB : option Z; LTrafficCombinedGB : option Z
}.

Definition EffectiveLimits (billing : option UserBilling) (now : Z) : option Limits :=
  match billing with
  | None => None
  | Some b =>
      Some (mkLimits
        (ParseLimitSetting (AdminMaxNodes b) (grantedCap (MaxNodes b) (ManualByonExpiresAt b) now))
        (ParseLimitSetting (AdminMaxLinks b) (grantedCap (MaxLinks b) (ManualRouteExpiresAt b) now))
        (R2QuotaGB b) (TrafficEdgeGB b) (TrafficRelayGB b) (TrafficCombinedGB b))
  end.

(** ** What a tenant holds (node_slots.go, billing_overlimit.go) *)

Record NodeSlots := mkSlots { Nodes : Z; Tokens : Z; Keys : Z }.

Definition Used (s : NodeSlots) : Z := Nodes s + (if Tokens s <? Keys s then Keys s else Tokens s).
Definition UsedWithEnrollToken (s : NodeSlots) : Z := Used (mkSlots (Nodes s) (Tokens s + 1) (Keys s)).
Definition UsedWithWarpKey (s : NodeSlots) : Z := Used (mkSlots (Nodes s) (Tokens s) (Keys s + 1)).

(** The three counters, each [None] when its read failed. *)
Definition CountNodeSlots (nodes tokens keys : option Z) : option NodeSlots :=
  n ← nodes; t ← tokens; k ← keys; Some (mkSlots n t k).
Definition NodeSlotsUsed (nodes tokens keys : option Z) : option Z := Used <$> CountNodeSlots nodes tokens keys.

Record tenantUsage := mkUsage {
  u_nodes : Z; u_nodeLimit : option Z; u_links : Z; u_linkLimit : option Z;
  u_routes : Z; u_routeLimit : option Z; u_entitledByon : bool; u_entitledRoute : bool
}.

Definition entitledToAnything (u : tenantUsage) : bool := u_entitledByon u || u_entitledRoute u.

Definition over (u : tenantUsage) : bool :=
  ((0 <? u_nodes u) && negb (u_entitledByon u))
  || ((0 <? u_links u) && negb (u_entitledRoute u))
  || ((0 <? u_routes u) && negb (entitledToAnything u))
  || Exceeds (u_nodeLimit u) (u_nodes u) || Exceeds (u_linkLimit u) (u_links u) || Exceeds (u_routeLimit u) (u_routes u).

(** What the sweep compares: what the tenant holds, against their caps and
    what they may use. *)
Definition usage_of (lim : Limits) (ent : Entitlement) (nodes kits routes : Z) (routeLimit : option Z) : tenantUsage :=
  mkUsage nodes (LMaxNodes lim) kits (LMaxLinks lim) routes routeLimit (Byon ent) (RouteOnly ent).

(** *** Addresses on our domains (route_namespace.go)

    Domain names are ASCII. [parsed] is the JSON list of the setting, [None]
    when it does not parse. *)
Definition HosterBaseDomains (raw : string) (parsed : option (list string)) : list string :=
  if (TrimSpace raw =? "")%string then []
  else match parsed with
       | None => []
       | Some l => List.filter (fun d => negb (d =? "")%string) (map (fun p => ToLower (TrimSpace p)) l)
       end.

Definition HasSuffix (s suffix : string) : bool := HasPrefix (rev_str s) (rev_str suffix).
(** [strings.TrimSuffix] of one byte. *)
Definition TrimDot (s : string) : string :=
  match rev (list_ascii_of_string s) with
  | c :: l => if Ascii.eqb c "." then string_of_list_ascii (rev l) else s
  | [] => s
  end.

Definition DomainIsOurs (domain : string) (bases : list string) : bool :=
  let domain := ToLower (TrimSpace (TrimDot domain)) in
  if (domain =? "")%string then false
  else existsb (fun base => (domain =? base)%string || HasSuffix domain ("." +:+ base)) bases.

(** The gates of the two mint endpoints (node_enroll.go, warp.go) after the
    product's switch: the entitlement, then the cap over what the tenant would
    hold. [true] lets the mint through. A failed read refuses. *)
Definition mint_gate (storeEnabled isAdmin : bool) (now : Z) (b : option UserBilling) (slots : option NodeSlots)
    (with_half : NodeSlots -> Z) : bool :=
  match EffectiveEntitlement b now storeEnabled isAdmin with
  | Some e =>
      Byon e && match EffectiveLimits b now with
                | None => false
                | Some lim => match LMaxNodes lim, slots with
                              | None, _ => true
                              | Some _, None => false
                              | Some _, Some s => negb (Exceeds (LMaxNodes lim) (with_half s))
                              end
                end
  | None => false
  end.

(** The gate of a link kit. *)
Definition kit_gate (storeEnabled isAdmin : bool) (now : Z) (b : option UserBilling) (kits : option Z) : bool :=
  match EffectiveEntitlement b now storeEnabled isAdmin with
  | Some e =>
      RouteOnly e && match EffectiveLimits b now with
                     | None => false
                     | Some lim => match LMaxLinks lim, kits with
                                   | None, _ => true
                                   | Some _, None => false
                                   | Some _, Some k => negb (AtOrOver (LMaxLinks lim) k)
                                   end
                     end
  | None => false
  end.

(** The check of a node that redeems its token (core/main.go): only while the
    product is switched on, live nodes only, and open when a read fails. *)
Definition NodeLimitReached (byonEnabled : bool) (now : Z) (b : option UserBilling) (nodes : option Z) : bool :=
  if negb byonEnabled then false
  else match EffectiveLimits b now with
  | None => false
  | Some lim => match LMaxNodes lim, nodes with
                | Some _, Some n => AtOrOver (LMaxNodes lim) n
                | _, _ => false
                end
  end.

(** ** The allowance of stored backups (billing_lifecycle.go, backup_allowance.go) *)

Definition DefaultR2IncludedGB : Z := 50.
Definition DefaultR2BookableGB : Z := 500.

Definition settingInt (v : string) (fallback : Z) : Z :=
  if (v =? "")%string then fallback
  else match Atoi v with Some n => if n <? 0 then fallback else n | None => fallback end.

Definition backupUnits (b : option UserBilling) (now : Z) : Z :=
  match b with
  | None => 0
  | Some b => match grantedCap (MaxNodes b) (ManualByonExpiresAt b) now with
              | Some c => if 0 <? c then c else 0
              | None => 0
              end
  end.

(** The settings the allowance reads: included and bookable per unit, and the
    operator's default. *)
Record allowance_settings := mkAllow { as_included : string; as_bookable : string; as_default : string }.

Definition R2IncludedGB (st : allowance_settings) (b : option UserBilling) (now : Z) : Z :=
  wrap64 (settingInt (as_included st) DefaultR2IncludedGB * backupUnits b now).
Definition R2BookablePerUnit (st : allowance_settings) : Z := settingInt (as_bookable st) DefaultR2BookableGB.
Definition R2BookableGB (st : allowance_settings) (b : option UserBilling) (now : Z) : Z :=
  wrap64 (R2BookablePerUnit st * backupUnits b now).

Definition entitledR2QuotaGB (st : allowance_settings) (b : option UserBilling) (now : Z) : option Z :=
  if backupUnits b now =? 0 then None
  else Some (match b with
             | Some ub => if BackupBillingEnabled ub
                          then wrap64 (R2IncludedGB st b now + R2BookableGB st b now)
                          else R2IncludedGB st b now
             | None => R2IncludedGB st b now
             end).

(** [ownerAdmin] is what the read of the owner says of them, [false] when it
    failed; [b] is the read of their row, [None] when it failed. *)
Definition BackupAllowanceGB (st : allowance_settings) (ownerID : string) (ownerAdmin : bool) (b : option UserBilling)
    (storeEnabled : bool) (now : Z) : option Z :=
  if negb (ownerID =? "")%string && ownerAdmin then None
  else
    let quota := b ≫= R2QuotaGB in
    if set quota then quota
    else
      let entitled := if storeEnabled then entitledR2QuotaGB st b now else None in
      if set entitled then entitled else ParseLimitSetting (as_default st) None.

(** Whether one more byte may be stored, with what is used and allowed.
    [destOwned] says the run goes to a storage with an owner, [used] is
    [None] when the sum could not be read. *)
Definition BackupAllowanceExceeded (destOwned : bool) (quota used : option Z) : bool * Z * Z :=
  if destOwned then (false, 0, 0)
  else match quota with
  | None => (false, 0, 0)
  | Some q =>
      let quotaBytes := wrap64 (wrap64 (wrap64 (q * 1024) * 1024) * 1024) in
      match used with
      | None => (false, 0, quotaBytes)
      | Some u => (quotaBytes <=? u, u, quotaBytes)
      end
  end.

Definition billedBackupAllowance (st : allowance_settings) (b : option UserBilling) (now : Z) : Z * Z :=
  match b ≫= R2QuotaGB with
  | Some q => (q, 0)
  | None => (R2IncludedGB st b now, R2BookableGB st b now)
  end.

(** ** Payments under a hold

    What the row stands for: where the payments put the account, and whether
    an operator holds it. A hold shows as a suspension and changes nothing
    underneath. *)

(** Every statement of Core's that writes a row, and what it reports. Two more
    methods of the store, [SetUserTrafficBilling] and [SetUserBillingAdminHold],
    are called by nothing but tests. *)
Inductive write :=
  | WStatus (status : string) (graceUntil suspendedAt : option Z) (from : option (list string))
  | WHold (at_ : Z)
  | WLift
  | WOverLimit (v : option Z)
  | WMarkOff (now : Z)
  | WClearOff
  | WOverrides (gracePeriod r2Retention nodeRetention : string) (r2QuotaGB : option Z)
  | WLimits (adminNodes adminLinks : string) (edge relay combined : option Z)
  | WPurchase (maxNodes : option Z) (setNodes : bool) (maxLinks : option Z) (setLinks : bool)
  | WMoveLimits
  | WConsent (traffic backup : option bool)
  | WData (v : bool)
  | WGrant (now : Z) (kind : string) (expiresAt : option Z) (grantedBy : string)
  | WGrantKind (now : Z) (kind : string) (expiresAt : option Z) (grantedBy : string).

Inductive report := Done | Wrote (b : bool) | Prior (status : string).

Definition exec_write (w : write) (r : option billing_row) : option billing_row * report :=
  match w with
  | WStatus status g at_ from => let '(r', b) := Stmt.SetUserBillingStatusIf status g at_ from r in (r', Wrote b)
  | WHold at_ => (Stmt.PlaceAdminHold at_ r, Done)
  | WLift => let '(r', p) := Stmt.LiftAdminHold r in (r', Prior p)
  | WOverLimit v => (Stmt.SetUserOverLimitSince v r, Done)
  | WMarkOff now => let '(r', b) := Stmt.MarkNodeLinksOff now r in (r', Wrote b)
  | WClearOff => (Stmt.ClearNodeLinksOff r, Done)
  | WOverrides g r2 n q => (Stmt.SetUserBillingOverrides g r2 n q r, Done)
  | WLimits n l e y c => (Stmt.SetUserLimitOverrides n l e y c r, Done)
  | WPurchase n sn l sl => (Stmt.SetUserPurchasedEntitlement n sn l sl r, Done)
  | WMoveLimits => (Stmt.MoveOperatorLimitsToAdminLayer r, Done)
  | WConsent t b => (Stmt.SetUserBillingConsent t b r, Done)
  | WData v => (Stmt.SetUserDataBillingEnabled v r, Done)
  | WGrant now k e by_ => (Stmt.SetUserManualEntitlement now k e by_ r, Done)
  | WGrantKind now k e by_ => (default r (Stmt.SetUserManualEntitlementKind now k e by_ r), Done)
  end.

Record account := mkAccount { a_pay : string; a_held : bool }.

(** What a statement means for the account: a payment state moves on if it is
    allowed from where the payments are, and a lift reports where they are. *)
Definition account_step (w : write) (a : account) : account * report :=
  match w with
  | WStatus status _ _ from => if Stmt.any_of from (a_pay a) then (mkAccount status (a_held a), Wrote true) else (a, Wrote false)
  | WHold _ => (mkAccount (a_pay a) true, Done)
  | WLift => (mkAccount (a_pay a) false, Prior (if a_held a then a_pay a else ""))
  | _ => (a, Done)
  end.

(** A sequence of statements, with the reports of those that touch the account. *)
Fixpoint run_writes {A} (step : write -> A -> A * report) (ws : list write) (a : A) : A * list report :=
  match ws with
  | [] => (a, [])
  | w :: ws =>
      let '(a, x) := step w a in
      let '(a, xs) := run_writes step ws a in
      (a, match w with WStatus _ _ _ _ | WLift => x :: xs | _ => xs end)
  end.

Definition statuses : list string := ["active"; "past_due"; "suspended"].

(** The row shows the account. *)
Record shows (r : billing_row) (a : account) : Prop := {
  shows_payment : PaymentStatus (scanUserBilling "" r) = a_pay a;
  shows_hold : AdminHold (scanUserBilling "" r) = a_held a;
  shows_status : Status (scanUserBilling "" r) = if a_held a then "suspended" else a_pay a;
  shows_under : lc_held_status (br_life r) = if a_held a then Some (a_pay a) else None;
  shows_known : a_pay a ∈ statuses
}.

(** The statuses the platform writes. *)
Definition known_status (w : write) : Prop :=
  match w with WStatus status _ _ _ => status ∈ statuses | _ => True end.

Lemma known_nonempty x : x ∈ statuses -> (x =? "")%string = false.
Proof. unfold statuses. intros H. repeat (apply elem_of_cons in H as [->|H]; [done|]). by apply elem_of_nil in H. Qed.

Lemma shows_intro l a r since off ov pu ce gr co :
  r = mkRow l since off ov pu ce gr co -> a_pay a ∈ statuses ->
  lc_admin_hold l = a_held a -> lc_status l = (if a_held a then "suspended" else a_pay a) ->
  lc_held_status l = (if a_held a then Some (a_pay a) else None) -> shows r a.
Proof.
  intros -> Hk Hh Hs Hu. destruct a as [pay held]. cbn in *. split; cbn; try done.
  unfold PaymentStatus. cbn. rewrite Hh, Hs, Hu. destruct held; cbn; [|done]. by rewrite known_nonempty.
Qed.

Lemma shows_elim r a : shows r a ->
  lc_admin_hold (br_life r) = a_held a /\ lc_status (br_life r) = (if a_held a then "suspended" else a_pay a) /\
  lc_held_status (br_life r) = (if a_held a then Some (a_pay a) else None) /\ a_pay a ∈ statuses.
Proof. intros [H1 H2 H3 H4 H5]. destruct r as [l ? ? ? ? ? ? ?]. by cbn in *. Qed.

(** Every statement on a row that exists. *)
Lemma write_shows w r a : shows r a -> known_status w ->
  exists r', (exec_write w (Some r)).1 = Some r' /\ shows r' (account_step w a).1 /\
    match w with WStatus _ _ _ _ | WLift => (exec_write w (Some r)).2 = (account_step w a).2 | _ => True end.
Proof.
  intros Hs Hk. destruct (shows_elim _ _ Hs) as (Hh & Hst & Hu & Hp). destruct a as [pay held].
  destruct r as [[st gu sa hold hs] since off ov pu ce gr co]. cbn in Hh, Hst, Hu, Hp. subst hold st hs.
  destruct w; cbn in Hk; cbn -[statuses].
  4-14: unfold Stmt.SetUserBillingConsent, Stmt.SetUserManualEntitlementKind; repeat case_match; simplify_eq/=;
    (eexists; split; [done|]; split; [|done]); by eapply shows_intro.
  - assert (E : (if held then default (if held then "suspended" else pay) (if held then Some pay else None) else (if held then "suspended" else pay)) = pay) by by destruct held.
    rewrite E. destruct (Stmt.any_of from pay); cbn -[statuses]; (eexists; split; [done|]; split; [|done]);
      (eapply shows_intro; [done|..]; cbn -[statuses]; try done; by destruct held).
  - eexists; split; [done|]; split; [|done]. eapply shows_intro; [done|..]; cbn -[statuses]; try done. by destruct held.
  - destruct held; cbn -[statuses]; (eexists; split; [done|]; split; [|done]); (eapply shows_intro; [done|..]; by cbn -[statuses]).
Qed.

(** A hold and its lifting are no payment. *)
Definition pays (w : write) : bool := match w with WHold _ | WLift => false | _ => true end.

Lemma run_writes_cons {A} (step : write -> A -> A * report) w ws a :
  (run_writes step (w :: ws) a).1 = (run_writes step ws (step w a).1).1.
Proof. cbn. destruct (step w a) as [y ?]. cbn. by destruct (run_writes step ws y). Qed.

Lemma payments_without_holds ws a a' : a_pay a = a_pay a' ->
  a_pay (run_writes account_step ws a).1 = a_pay (run_writes account_step (List.filter pays ws) a').1.
Proof.
  revert a a'. induction ws as [|w ws IH]; intros a a' E; [done|].
  rewrite run_writes_cons. cbn [List.filter]. destruct (pays w) eqn:Ep.
  - rewrite run_writes_cons. apply IH. destruct w; try done. cbn. rewrite E. by destruct (Stmt.any_of from (a_pay a')).
  - apply IH. by destruct w.
Qed.

(** C17: The billing row implements payments under a hold. Through any sequence of
    the statements of all replicas, on a row that shows an account, the row
    goes on showing it: its payment status is where the payments put the
    account, under a hold it reads suspended and nothing else. Statements that
    move a payment only from certain states, and the lifting of a hold, report
    what the account says. The payment state at the end is the one the same
    payments would have left without any hold. *)
Theorem payments_survive_holds (r : billing_row) (a : account) (ws : list write) :
  shows r a -> Forall known_status ws ->
  (exists r', (run_writes exec_write ws (Some r)).1 = Some r' /\ shows r' (run_writes account_step ws a).1) /\
  (run_writes exec_write ws (Some r)).2 = (run_writes account_step ws a).2 /\
  a_pay (run_writes account_step ws a).1 = a_pay (run_writes account_step (List.filter pays ws) a).1.
Proof.
  intros Hs Hk. split_and!; [| |by apply payments_without_holds].
  all: revert r a Hs; induction Hk as [|w ws Hw Hk IH]; intros r a Hs; [by eauto|]; cbn.
  all: destruct (write_shows w r a Hs Hw) as (r' & Er & Hs' & Ho), (exec_write w (Some r)) as [x rep], (account_step w a) as [a' rep'].
  all: cbn in Er, Hs', Ho; subst x; specialize (IH r' a' Hs').
  all: destruct (run_writes exec_write ws (Some r')), (run_writes account_step ws a'); cbn in *.
  1: done.
  destruct w; congruence.
Qed.

(** A tenant held while paying, who stops paying under the hold and comes
    back: the hold shows as a suspension, and lifting it finds the lapse. *)
Lemma payments_survive_holds_witness :
  let ws := [WHold 10; WStatus "past_due" (Some 50) None (Some ["active"; "past_due"]); WOverLimit (Some 5); WLift] in
  shows new_row (mkAccount "active" false) /\
  (run_writes exec_write ws (Some new_row)).2 = [Wrote true; Prior "past_due"].
Proof.
  intros ws. assert (H : shows new_row (mkAccount "active" false)) by (eapply shows_intro; [done|..]; try done; set_solver).
  split; [exact H|].
  destruct (payments_survive_holds new_row (mkAccount "active" false) ws H) as (_ & E & _).
  { repeat constructor; set_solver. }
  rewrite E. vm_compute. reflexivity.
Defined.

(** ** The doors and the sweep

    What a tenant holds while their account stays as it is: identities minted
    through the gates, machines set up, and things taken back. *)

Record holdings := mkHold { h_nodes : Z; h_tokens : Z; h_keys : Z; h_kits : Z }.
Definition h_slots (h : holdings) : NodeSlots := mkSlots (h_nodes h) (h_tokens h) (h_keys h).

Section holdings.
Context (storeEnabled isAdmin : bool) (now : Z) (b : UserBilling).
Local Notation mint half n t k := (mint_gate storeEnabled isAdmin now (Some b) (Some (mkSlots n t k)) half).

(** A token is redeemed only while the tenant has fewer unused keys than tokens,
    as when every machine joins the overlay with its key before it redeems and no
    further key is minted in between. *)
Inductive hstep : holdings -> holdings -> Prop :=
  | mint_token n t k l : mint UsedWithEnrollToken n t k = true -> hstep (mkHold n t k l) (mkHold n (t + 1) k l)
  | mint_key n t k l : mint UsedWithWarpKey n t k = true -> hstep (mkHold n t k l) (mkHold n t (k + 1) l)
  | mint_kit n t k l : kit_gate storeEnabled isAdmin now (Some b) (Some l) = true -> hstep (mkHold n t k l) (mkHold n t k (l + 1))
  | key_used n t k l : 0 < k -> hstep (mkHold n t k l) (mkHold n t (k - 1) l)
  | token_dropped n t k l : 0 < t -> hstep (mkHold n t k l) (mkHold n (t - 1) k l)
  | node_removed n t k l : 0 < n -> hstep (mkHold n t k l) (mkHold (n - 1) t k l)
  | kit_revoked n t k l : 0 < l -> hstep (mkHold n t k l) (mkHold n t k (l - 1))
  | token_redeemed n t k l : 0 < t -> k < t -> NodeLimitReached true now (Some b) (Some n) = false ->
      hstep (mkHold n t k l) (mkHold (n + 1) (t - 1) k l).

(** The sweep's verdict on the tenant. *)
Definition swept (routes : Z) (routeLimit : option Z) (h : holdings) : option bool :=
  lim ← EffectiveLimits (Some b) now;
  ent ← EffectiveEntitlement (Some b) now storeEnabled isAdmin;
  Some (over (usage_of lim ent (Used (h_slots h)) (h_kits h) routes routeLimit)).

(** Room in the caps and the right to what is held. *)
Definition within (lim : Limits) (ent : Entitlement) (h : holdings) : Prop :=
  0 <= h_nodes h /\ 0 <= h_tokens h /\ 0 <= h_keys h /\ 0 <= h_kits h /\
  (0 < Used (h_slots h) -> Byon ent = true) /\ (0 < h_kits h -> RouteOnly ent = true) /\
  (forall c, LMaxNodes lim = Some c -> Used (h_slots h) <= c) /\ (forall c, LMaxLinks lim = Some c -> h_kits h <= c).

Lemma Used_max n t k : Used (mkSlots n t k) = n + Z.max t k.
Proof. unfold Used. cbn. destruct (Z.ltb_spec t k); lia. Qed.

Lemma gate_opens lim ent half n t k :
  EffectiveLimits (Some b) now = Some lim -> EffectiveEntitlement (Some b) now storeEnabled isAdmin = Some ent ->
  mint half n t k = true -> Byon ent = true /\ forall c, LMaxNodes lim = Some c -> half (mkSlots n t k) <= c.
Proof.
  intros El Ee. unfold mint_gate. rewrite Ee, El. destruct (Byon ent); [|done]. intros H. split; [done|].
  intros c Ec. rewrite Ec in H. unfold Exceeds in H. cbn in H. apply negb_true_iff, Z.ltb_ge in H. lia.
Qed.

Lemma step_within lim ent h h' :
  EffectiveLimits (Some b) now = Some lim -> EffectiveEntitlement (Some b) now storeEnabled isAdmin = Some ent ->
  within lim ent h -> hstep h h' -> within lim ent h'.
Proof.
  intros El Ee (H1 & H2 & H3 & H4 & Hb & Hr & Hn & Hl) Hst. unfold within, h_slots in *.
  destruct Hst as [n t k l Hg|n t k l Hg|n t k l Hg|n t k l Hg|n t k l Hg|n t k l Hg|n t k l Hg|n t k l Hg Hk Hnl];
    cbn [h_nodes h_tokens h_keys h_kits] in *; try rewrite !Used_max in *.
  1,2: destruct (gate_opens _ _ _ _ _ _ El Ee Hg) as [Hb' Hc]; unfold UsedWithEnrollToken, UsedWithWarpKey in Hc; cbn in Hc;
    rewrite Used_max in Hc; split_and!; try done; lia.
  1: { unfold kit_gate in Hg. rewrite Ee, El in Hg. destruct (RouteOnly ent); [|done]. split_and!; try done; try lia.
       intros c Ec. rewrite Ec in Hg. unfold AtOrOver in Hg. cbn in Hg. apply negb_true_iff, Z.leb_gt in Hg. lia. }
  all: split_and!; try done; try lia; try (intros; apply Hb; lia); try (intros; apply Hr; lia);
    try (intros c Ec; specialize (Hn c Ec); lia); try (intros c Ec; specialize (Hl c Ec); lia).
Qed.

Lemma swept_within lim ent routes routeLimit h :
  EffectiveLimits (Some b) now = Some lim -> EffectiveEntitlement (Some b) now storeEnabled isAdmin = Some ent ->
  over (usage_of lim ent 0 0 routes routeLimit) = false -> within lim ent h -> swept routes routeLimit h = Some false.
Proof.
  intros El Ee H0 (H1 & H2 & H3 & H4 & Hb & Hr & Hn & Hl). unfold swept. rewrite El, Ee. cbn. f_equal.
  unfold over, usage_of, entitledToAnything in *. cbn [u_nodes u_links u_routes u_entitledByon u_entitledRoute u_nodeLimit u_linkLimit u_routeLimit] in *.
  rewrite !orb_false_iff in H0. destruct H0 as (((((_ & _) & E3) & _) & _) & E6). rewrite E3, E6, !orb_false_r.
  assert (HU : 0 <= Used (h_slots h)) by (unfold h_slots; rewrite Used_max; lia).
  rewrite !orb_false_iff. split_and!.
  - apply andb_false_iff. destruct (Z.ltb_spec 0 (Used (h_slots h))) as [Hlt|]; [right; by rewrite (Hb Hlt)|by left].
  - apply andb_false_iff. destruct (Z.ltb_spec 0 (h_kits h)) as [Hlt|]; [right; by rewrite (Hr Hlt)|by left].
  - unfold Exceeds. destruct (LMaxNodes lim) as [c|] eqn:Ec; [|done]. apply Z.ltb_ge. by apply Hn.
  - unfold Exceeds. destruct (LMaxLinks lim) as [c|] eqn:Ec; [|done]. apply Z.ltb_ge. by apply Hl.
Qed.

(** A token redeemed at the cap, with as many unused keys as tokens. *)
Lemma redeemed_over routes routeLimit lim n t k l :
  EffectiveLimits (Some b) now = Some lim -> is_Some (EffectiveEntitlement (Some b) now storeEnabled isAdmin) ->
  0 <= n -> 0 < t <= k -> LMaxNodes lim = Some (Used (mkSlots n t k)) ->
  NodeLimitReached true now (Some b) (Some n) = false /\ swept routes routeLimit (mkHold (n + 1) (t - 1) k l) = Some true.
Proof.
  intros El [ent Ee] Hn Ht Hc. rewrite Used_max in Hc. split.
  - unfold NodeLimitReached. rewrite El. cbn. rewrite Hc. apply Z.leb_gt. lia.
  - unfold swept. rewrite El, Ee. cbn -[over usage_of Used]. f_equal. unfold over, usage_of, h_slots. cbn [u_nodes u_nodeLimit u_links u_linkLimit u_routes u_routeLimit].
    rewrite Hc. cbn [h_nodes h_tokens h_keys]. rewrite Used_max. unfold Exceeds at 1.
    assert ((n + Z.max t k <? n + 1 + Z.max (t - 1) k) = true) as -> by (apply Z.ltb_lt; lia). by rewrite !orb_true_r.
Qed.

(** C29: The sweep does not punish what the doors handed out, as long as no token is
    redeemed while the tenant has as many unused keys as tokens. A tenant who
    holds nothing, and whose addresses are within their pool, may mint, set up,
    drop and revoke in any order the gates allow, and redeem a token while they
    have fewer unused keys than tokens: the sweep never finds them over, as long
    as the account does not change. The condition is needed: a token that is
    redeemed at the cap while there are as many unused keys leaves the tenant
    over, and the door that lets it in asks for neither. A machine that joins
    the overlay before it redeems does not secure it, if another key is minted
    in between. *)
Theorem doors_agree_with_sweep (routes : Z) (routeLimit : option Z) :
  (forall h, swept routes routeLimit (mkHold 0 0 0 0) = Some false -> steps hstep (mkHold 0 0 0 0) h ->
    swept routes routeLimit h = Some false) /\
  (forall lim n t k l, EffectiveLimits (Some b) now = Some lim -> is_Some (EffectiveEntitlement (Some b) now storeEnabled isAdmin) ->
    0 <= n -> 0 < t <= k -> LMaxNodes lim = Some (Used (mkSlots n t k)) ->
    NodeLimitReached true now (Some b) (Some n) = false /\ swept routes routeLimit (mkHold (n + 1) (t - 1) k l) = Some true).
Proof.
  split; [|by apply redeemed_over]. intros h H0 Hst. unfold swept in H0.
  destruct (EffectiveLimits (Some b) now) as [lim|] eqn:El; [|done].
  destruct (EffectiveEntitlement (Some b) now storeEnabled isAdmin) as [ent|] eqn:Ee; [|done].
  cbn in H0. injection H0 as H0. apply (swept_within lim ent); [done..|].
  eapply (steps_invariant hstep (within lim ent)); [|exact Hst|].
  - intros x y Hxy Hx. by eapply step_within.
  - unfold over, usage_of, h_slots in H0. rewrite Used_max in H0. cbn in H0. rewrite !orb_false_iff in H0.
    destruct H0 as (((((_ & _) & _) & E4) & E5) & _).
    unfold within, h_slots. rewrite Used_max. split_and!; cbn; try (intros; lia).
    + intros c Ec. unfold Exceeds in E4. rewrite Ec in E4. apply Z.ltb_ge in E4. lia.
    + intros c Ec. unfold Exceeds in E5. rewrite Ec in E5. apply Z.ltb_ge in E5. lia.
Qed.
End holdings.

(** Two machines on a purchase of two, set up in order, and a link kit. *)
Lemma doors_agree_with_sweep_witness :
  let b := readBilling "u" (Stmt.SetUserPurchasedEntitlement (Some 2) true (Some 1) true None) in
  steps (hstep true false 0 b) (mkHold 0 0 0 0) (mkHold 1 1 1 1) /\
  swept true false 0 b 0 None (mkHold 1 1 1 1) = Some false.
Proof.
  intros b.
  assert (H : steps (hstep true false 0 b) (mkHold 0 0 0 0) (mkHold 1 1 1 1)).
  { eapply steps_cons; [apply (mint_key _ _ _ _ 0 0 0 0); reflexivity|].
    eapply steps_cons; [apply (mint_token _ _ _ _ 0 0 1 0); reflexivity|].
    eapply steps_cons; [apply (key_used _ _ _ _ 0 1 1 0); lia|].
    eapply steps_cons; [apply (token_redeemed _ _ _ _ 0 1 0 0); [lia|lia|reflexivity]|].
    eapply steps_cons; [apply (mint_kit _ _ _ _ 1 0 0 0); reflexivity|].
    eapply steps_cons; [apply (mint_token _ _ _ _ 1 0 0 1); reflexivity|].
    eapply steps_cons; [apply (mint_key _ _ _ _ 1 1 0 1); reflexivity|apply steps_refl]. }
  split; [exact H|]. apply (doors_agree_with_sweep true false 0 b 0 None); [reflexivity|exact H].
Defined.

(** A machine that redeems its token while its key is unused leaves its owner
    over a cap the doors kept to. *)
Lemma redeemed_before_key_is_over :
  let b := readBilling "u" (Stmt.SetUserPurchasedEntitlement (Some 1) true None false None) in
  steps (hstep true false 0 b) (mkHold 0 0 0 0) (mkHold 0 1 1 0) /\ NodeLimitReached true 0 (Some b) (Some 0) = false /\
  swept true false 0 b 0 None (mkHold 0 1 1 0) = Some false /\ swept true false 0 b 0 None (mkHold 1 0 1 0) = Some true.
Proof.
  intros b. split; [|done].
  eapply steps_cons; [apply (mint_key _ _ _ _ 0 0 0 0); reflexivity|].
  eapply steps_cons; [apply (mint_token _ _ _ _ 0 0 1 0); reflexivity|apply steps_refl].
Qed.

(** ** Widths *)

(** Whether a sum of [GB] stays an [int64] in bytes. *)
Definition fits_bytes (gb : Z) : Prop := 0 <= gb < 2 ^ 33.

Lemma quota_bytes gb : fits_bytes gb -> wrap64 (wrap64 (wrap64 (gb * 1024) * 1024) * 1024) = gb * 2 ^ 30.
Proof. 
  unfold fits_bytes. intros H. rewrite (wrap64_small (gb * 1024)) by (unfold int64_min, int64_max; lia).
  rewrite (wrap64_small (gb * 1024 * 1024)) by (unfold int64_min, int64_max; lia).
  rewrite wrap64_small by (unfold int64_min, int64_max; lia). lia.
Qed.

(** The quota holds up to 2^33 - 1 GB: a backup on our storage is refused
    exactly from the byte at which it is used up, and the number of bytes
    reported is the quota. At 2^33 GB, which every field takes, the product
    wraps around to the least [int64] and every backup is refused. *)
Lemma allowance_bytes (q used : Z) :
  0 <= used ->
  (fits_bytes q -> BackupAllowanceExceeded false (Some q) (Some used) = (q * 2 ^ 30 <=? used, used, q * 2 ^ 30)) /\
  BackupAllowanceExceeded false (Some (2 ^ 33)) (Some used) = (true, used, - 2 ^ 63) /\
  ParseLimitSetting (FormatLimitSetting (Some (2 ^ 33))) None = Some (2 ^ 33).
Proof.
  intros Hu. split_and!; [|unfold BackupAllowanceExceeded|vm_compute; reflexivity].
  - intros Hq. unfold BackupAllowanceExceeded. by rewrite quota_bytes.
  - assert (E : wrap64 (wrap64 (wrap64 (2 ^ 33 * 1024) * 1024) * 1024) = - 2 ^ 63) by (vm_compute; reflexivity).
    rewrite E. f_equal. f_equal. apply Z.leb_le. lia.
Qed.
(** *** Calendar windows *)

(** Days before the first of March of a year. *)
Definition years_days (y : Z) : Z := 365 * y + y / 4 - y / 100 + y / 400.

Lemma years_days_step y : 365 <= years_days (y + 1) - years_days y <= 366.
Proof. unfold years_days. Z.to_euclidean_division_equations. lia. Qed.

Lemma days_of_years y m d :
  days_of y m d = years_days (if m <=? 2 then y - 1 else y) + (153 * (if 2 <? m then m - 3 else m + 9) + 2) / 5 + d - 719469.
Proof.
  unfold days_of, years_days. set (y' := if m <=? 2 then y - 1 else y).
  assert (E : y' / 400 * 146097 + (y' mod 400 * 365 + y' mod 400 / 4 - y' mod 400 / 100) = 365 * y' + y' / 4 - y' / 100 + y' / 400).
  { clearbody y'. Z.to_euclidean_division_equations. lia. }
  lia.
Qed.

(** The day [d] of the [k]-th month since January of the year 0. *)
Definition nth_month (k d : Z) : Z := days_of (k / 12) (k mod 12 + 1) d.

Ltac closed_months :=
  repeat match goal with
  | |- context [if ?c then _ else _] => let v := eval vm_compute in c in change c with v; cbv iota
  end;
  repeat match goal with
  | |- context [?a / 5] => let v := eval vm_compute in (a / 5) in change (a / 5) with v
  end.

Lemma nth_month_step k d : 28 <= nth_month (k + 1) d - nth_month k d <= 31.
Proof.
  unfold nth_month. rewrite !days_of_years.
  pose proof (Z.div_mod k 12 ltac:(lia)) as Ek. pose proof (Z.mod_pos_bound k 12 ltac:(lia)) as Hk.
  set (y := k / 12) in *. set (m := k mod 12) in *. clearbody y m. subst k.
  pose proof (years_days_step (y - 1)) as Hy. replace (y - 1 + 1) with y in Hy by lia.
  destruct (Z.eq_dec m 11) as [->|Hne].
  - replace ((12 * y + 11 + 1) / 12) with (y + 1) by (apply Z.div_unique with 0; lia).
    replace ((12 * y + 11 + 1) mod 12) with 0 by (apply Z.mod_unique with (y + 1); lia). closed_months.
    replace (y + 1 - 1) with y by lia. lia.
  - replace ((12 * y + m + 1) / 12) with y by (apply Z.div_unique with (m + 1); lia).
    replace ((12 * y + m + 1) mod 12) with (m + 1) by (apply Z.mod_unique with y; lia).
    assert (Hm : m = 0 \/ m = 1 \/ m = 2 \/ m = 3 \/ m = 4 \/ m = 5 \/ m = 6 \/ m = 7 \/ m = 8 \/ m = 9 \/ m = 10) by lia.
    destruct Hm as [->|[->|[->|[->|[->|[->|[->|[->|[->|[->| ->]]]]]]]]]]; closed_months; lia.
Qed.

Lemma nth_month_range k d n : 0 <= n -> 28 * n <= nth_month (k + n) d - nth_month k d <= 31 * n.
Proof.
  intros Hn. pattern n. apply natlike_ind; [| |exact Hn].
  - replace (k + 0) with k by lia. lia.
  - intros m Hm IH. pose proof (nth_month_step (k + m) d) as Hs. replace (k + Z.succ m) with (k + m + 1) by lia. lia.
Qed.

Lemma nth_month_of y m d n : 1 <= m <= 12 ->
  nth_month (12 * y + (m - 1 + n)) d = days_of (y + (m - 1 + n) / 12) ((m - 1 + n) mod 12 + 1) d.
Proof.
  intros Hm. unfold nth_month. replace (12 * y + (m - 1 + n)) with (m - 1 + n + y * 12) by lia.
  rewrite Z_div_plus_full, Z_mod_plus_full by lia. f_equal. lia.
Qed.

(** A date Postgres can hold, about three hundred thousand years around 1970;
    a retention that the calendar of package time can add to it. *)
Definition in_calendar (t : Z) : Prop := Z.abs t <= 2 ^ 73.
Definition max_retention : Z := 2 ^ 40.

Lemma wrapu64_small z : 0 <= z < 2 ^ 64 -> wrapu64 z = z.
Proof. apply Z.mod_small. Qed.

Lemma years_days_shift y : years_days (y + absoluteYears) = years_days y + absoluteYears / 400 * 146097.
Proof.
  unfold years_days. change absoluteYears with (73069255600 * 4) at 2. rewrite Z_div_plus_full by lia.
  change absoluteYears with (2922770224 * 100) at 2. rewrite Z_div_plus_full by lia.
  change absoluteYears with (730692556 * 400) at 2. rewrite Z_div_plus_full by lia. unfold absoluteYears. change (292277022400 / 400) with 730692556. lia.
Qed.

(** Without a wrap the days are those of the calendar. *)
Lemma dateToAbsDays_days y m d :
  1 <= m <= 12 -> Z.abs y <= 2 ^ 38 -> - 2 ^ 20 <= d <= 2 ^ 44 ->
  dateToAbsDays y m d = days_of y m d + absoluteYears / 400 * 146097 + 719468.
Proof.
  intros Hm Hy Hd. unfold dateToAbsDays. rewrite days_of_years. set (jf := if m <? 3 then 1 else 0).
  assert (Ey : (if m <=? 2 then y - 1 else y) = y - jf) by (unfold jf; destruct (Z.leb_spec m 2), (Z.ltb_spec m 3); lia).
  assert (Ea : Z.shiftr (979 * (m + 12 * jf) - 2919) 5 = (153 * (if 2 <? m then m - 3 else m + 9) + 2) / 5).
  { unfold jf. assert (m = 1 \/ m = 2 \/ m = 3 \/ m = 4 \/ m = 5 \/ m = 6 \/ m = 7 \/ m = 8 \/ m = 9 \/ m = 10 \/ m = 11 \/ m = 12) as Hc by lia.
    destruct Hc as [->|[->|[->|[->|[->|[->|[->|[->|[->|[->|[->| ->]]]]]]]]]]]; reflexivity. }
  assert (Hjf : 0 <= jf <= 1) by (unfold jf; destruct (_ <? _); lia). cbn zeta. rewrite Ea, Ey.
  set (e := (153 * _ + 2) / 5). assert (He : 0 <= e <= 400).
  { unfold e. destruct (Z.ltb_spec 2 m); (split; [apply Z.div_pos; lia|apply Z.div_le_upper_bound; lia]). }
  clearbody jf e. set (Y := y - jf + absoluteYears). assert (HY : 0 <= Y < 2 ^ 40) by (unfold Y, absoluteYears; lia).
  assert (E : 146097 * (Y / 100) / 4 + 1461 * (Y mod 100) / 4 = years_days Y).
  { unfold years_days. clear -HY. Z.to_euclidean_division_equations. lia. }
  rewrite (wrapu64_small Y) by lia. rewrite (wrapu64_small (146097 * _)) by (split; [|apply Z.lt_le_trans with (146097 * 2 ^ 40)]; Z.to_euclidean_division_equations; lia).
  assert (Ew : forall a b, wrapu64 (a + wrapu64 b) = wrapu64 (a + b)) by (intros a b; apply Zplus_mod_idemp_r). rewrite Ew.
  replace (146097 * (Y / 100) / 4 + (1461 * (Y mod 100) / 4 + e + d - 1)) with (years_days Y + e + d - 1) by lia.
  unfold Y at 1. rewrite years_days_shift. rewrite wrapu64_small; [lia|].
  pose proof (years_days_shift (y - jf)) as Hs. fold Y in Hs. rewrite <- Hs. unfold years_days. change (2 ^ 40) with 1099511627776 in HY.
  assert (292277022400 - 274877906944 - 1 <= Y) by (unfold Y, absoluteYears; lia). Z.to_euclidean_division_equations. lia.
Qed.

Lemma civil_bounds n : Z.abs n <= 2 ^ 27 -> let '(y, m, d) := civil n in Z.abs y <= 2 ^ 30 /\ 1 <= m <= 12 /\ Z.abs d <= 2 ^ 19.
Proof.
  intros Hn. pose proof (month_range n) as Hm. unfold civil in *. cbn zeta in *.
  set (z := n + 719468) in *. pose proof (Z.mod_pos_bound z 146097 ltac:(lia)) as Hdoe. set (doe := z mod 146097) in *.
  assert (Hera : Z.abs (z / 146097) <= 1000) by (unfold z; clear -Hn; Z.to_euclidean_division_equations; lia).
  set (yoe := (doe - doe / 1460 + doe / 36524 - doe / 146096) / 365) in *.
  assert (Hyoe : -1 <= yoe <= 401) by (unfold yoe; clear -Hdoe; Z.to_euclidean_division_equations; lia).
  set (doy := doe - (365 * yoe + yoe / 4 - yoe / 100)) in *.
  assert (Hdoy : -150000 <= doy <= 150000) by (unfold doy; clear -Hdoe Hyoe; Z.to_euclidean_division_equations; lia).
  clearbody doy yoe doe. clear Hn. set (era := z / 146097) in *. clearbody era. split_and!; [|apply Hm|apply Hm|].
  - destruct (_ <=? 2); lia.
  - clear -Hdoy. Z.to_euclidean_division_equations. lia.
Qed.

(** Within these bounds nothing wraps. *)
Lemma AddDate_exact t months days y m d :
  in_calendar t -> 0 <= months <= max_retention -> -2 <= days <= 7 * max_retention -> civil (t / day_ns) = (y, m, d) ->
  AddDate t months days = nth_month (12 * y + (m - 1) + months) (d + days) * day_ns + t mod day_ns.
Proof.
  unfold in_calendar, max_retention. intros Ht Hm Hd Ec.
  assert (Hq : Z.abs (t / day_ns) <= 2 ^ 27) by (change day_ns with 86400000000000; clear -Ht; Z.to_euclidean_division_equations; lia).
  pose proof (civil_bounds _ Hq) as Hb. pose proof (days_of_civil (t / day_ns) days) as Hday. unfold AddDate. rewrite Ec in *.
  destruct Hb as (By & Bm & Bd). pose proof (nth_month_range (12 * y + (m - 1)) (d + days) months ltac:(lia)) as Hr.
  pose proof (nth_month_of y m (d + days) 0 Bm) as H0. rewrite Z.add_0_r, Z.div_small, Z.mod_small in H0 by lia.
  replace (y + 0) with y in H0 by lia. replace (m - 1 + 1) with m in H0 by lia. rewrite H0, Hday in Hr. clear H0 Hday Ec.
  rewrite (wrap64_small (m + months)) by (unfold int64_min, int64_max; lia). rewrite (wrap64_small (m + months - 1)) by (unfold int64_min, int64_max; lia).
  rewrite (wrap64_small (d + days)) by (unfold int64_min, int64_max; lia). replace (m + months - 1) with (m - 1 + months) by lia.
  rewrite dateToAbsDays_days by (pose proof (Z.mod_pos_bound (m - 1 + months) 12 ltac:(lia)); repeat split; try lia; Z.to_euclidean_division_equations; lia).
  rewrite <- nth_month_of by done. rewrite Z.add_assoc. set (N := nth_month _ _) in *. clearbody N.
  assert (Et : 0 <= t mod day_ns / nanos < day_secs /\ t mod day_ns = t mod day_ns / nanos * nanos + t mod nanos).
  { change day_ns with (86400 * nanos). unfold day_secs, nanos. clear. Z.to_euclidean_division_equations. lia. }
  destruct Et as [Hs Et]. rewrite Et at 2. clear Et. set (sec := t mod day_ns / nanos) in *. clearbody sec.
  replace ((N + absoluteYears / 400 * 146097 + 719468) * day_secs + sec + absoluteToUnix) with (N * day_secs + sec) by (unfold absoluteToUnix; lia).
  unfold unixToInternal, day_secs in *. assert (Z.abs N <= 2 ^ 46) by lia.
  rewrite (wrap64_small (N * 86400 + sec)) by (unfold int64_min, int64_max; lia).
  rewrite wrap64_small by (unfold int64_min, int64_max; lia). change day_ns with (86400 * nanos). lia.
Qed.

(** The date [n] months later, the day and the time of the day kept. *)
Definition months_later (t n : Z) : Z :=
  let '(y, m, d) := civil (t / day_ns) in nth_month (12 * y + (m - 1) + n) d * day_ns + t mod day_ns.

Lemma AddDate_days t n : in_calendar t -> -2 <= n <= 7 * max_retention -> AddDate t 0 n = t + n * day_ns.
Proof.
  intros Ht Hn. destruct (civil (t / day_ns)) as [[y m] d] eqn:Ec. rewrite (AddDate_exact t 0 n y m d) by (done || lia).
  pose proof (month_range (t / day_ns)) as Hm. pose proof (days_of_civil (t / day_ns) n) as Hd. rewrite Ec in Hm, Hd.
  replace (12 * y + (m - 1) + 0) with (12 * y + (m - 1 + 0)) by lia. rewrite nth_month_of by done.
  rewrite Z.add_0_r, Z.div_small, Z.mod_small by lia. replace (y + 0) with y by lia. replace (m - 1 + 1) with m by lia. rewrite Hd.
  pose proof (Z.div_mod t day_ns ltac:(by vm_compute)). lia.
Qed.

Lemma AddDate_months t n : in_calendar t -> 0 <= n <= max_retention -> AddDate t n 0 = months_later t n.
Proof.
  intros Ht Hn. unfold months_later. destruct (civil (t / day_ns)) as [[y m] d] eqn:Ec.
  rewrite (AddDate_exact t n 0 y m d) by (done || unfold max_retention; lia). by rewrite Z.add_0_r.
Qed.

Lemma months_later_range t n : 0 <= n -> t + 28 * n * day_ns <= months_later t n <= t + 31 * n * day_ns.
Proof.
  intros Hn. unfold months_later. pose proof (month_range (t / day_ns)) as Hm. pose proof (days_of_civil (t / day_ns) 0) as Hd.
  destruct (civil (t / day_ns)) as [[y m] d]. rewrite !Z.add_0_r in Hd. pose proof (nth_month_range (12 * y + (m - 1)) d n Hn) as Hr.
  pose proof (nth_month_of y m d 0 ltac:(lia)) as H0. rewrite Z.add_0_r, Z.div_small, Z.mod_small in H0 by lia.
  replace (y + 0) with y in H0 by lia. replace (m - 1 + 1) with m in H0 by lia. rewrite H0, Hd in Hr.
  pose proof (Z.div_mod t day_ns ltac:(by vm_compute)) as Et. assert (0 < day_ns) by by vm_compute. nia.
Qed.

Lemma parsed_spec spec n unit : parseRetentionSpec spec = Some (n, unit) ->
  0 <= n <= int64_max /\ (unit = "d" \/ unit = "w" \/ unit = "m")%char.
Proof.
  unfold parseRetentionSpec. set (sp := TrimSpace _). clearbody sp.
  destruct (_ <? 2)%nat; [done|]. destruct (String.get _ sp) as [u|]; [|done].
  destruct (negb (Ascii.eqb u "d") && negb (Ascii.eqb u "w") && negb (Ascii.eqb u "m")) eqn:Eu; [done|].
  destruct (Atoi _) as [z|] eqn:Ez; [|done]. destruct (Z.ltb_spec z 0); [done|]. intros [= <- <-].
  pose proof (Atoi_range _ _ Ez). split; [lia|].
  destruct (Ascii.eqb_spec u "d"), (Ascii.eqb_spec u "w"), (Ascii.eqb_spec u "m"); auto; done.
Qed.

(** *** What a retention means *)

(** A spec as one reads it: a number and a unit, in any case and with spaces
    around. *)
Definition reads_as (spec : string) (n : Z) (unit : ascii) : Prop :=
  exists digits, TrimSpace (ToLower spec) = digits +:+ String unit "" /\ Atoi digits = Some n /\ 0 <= n /\
    (unit = "d" \/ unit = "w" \/ unit = "m")%char.

(** When [n] days, weeks or months after an instant are over. *)
Definition retention_end (t n : Z) (unit : ascii) : Z :=
  if Ascii.eqb unit "d" then t + n * day_ns else if Ascii.eqb unit "w" then t + 7 * n * day_ns else months_later t n.

Lemma split_last sp u : String.get (String.length sp - 1) sp = Some u -> sp = String.substring 0 (String.length sp - 1) sp +:+ String u "".
Proof.
  induction sp as [|c sp IH]; [done|]. cbn [String.length]. rewrite Nat.sub_succ, Nat.sub_0_r. destruct sp as [|c' sp]; cbn [String.length].
  - by intros [= ->].
  - intros H. cbn [String.length] in IH. rewrite Nat.sub_succ, Nat.sub_0_r in IH. specialize (IH H). rewrite IH at 1. reflexivity.
Qed.

Lemma parsed_reads spec n unit : parseRetentionSpec spec = Some (n, unit) -> reads_as spec n unit.
Proof.
  intros H. destruct (parsed_spec _ _ _ H) as [Hn Hu]. revert H. unfold parseRetentionSpec, reads_as. set (sp := TrimSpace _). clearbody sp.
  destruct (_ <? 2)%nat; [done|]. destruct (String.get _ sp) as [u|] eqn:Eg; [|done].
  destruct (negb (Ascii.eqb u "d") && negb (Ascii.eqb u "w") && negb (Ascii.eqb u "m")); [done|].
  destruct (Atoi _) as [z|] eqn:Ez; [|done]. destruct (Z.ltb_spec z 0); [done|]. intros [= <- <-].
  exists (String.substring 0 (String.length sp - 1) sp). split_and!; [by apply split_last|done|lia|done].
Qed.

(** The deadline of a retention is the end of what the spec reads as, for every
    number the calendar can hold. *)
Lemma AddRetention_reads t spec deadline :
  AddRetention t spec = Some deadline ->
  exists n unit, reads_as spec n unit /\ (in_calendar t -> n <= max_retention -> deadline = retention_end t n unit).
Proof.
  unfold AddRetention. destruct (parseRetentionSpec spec) as [[n unit]|] eqn:Ep; [|done].
  destruct (parsed_spec _ _ _ Ep) as [Hn Hu]. intros Hd. exists n, unit. split; [by apply parsed_reads|]. intros Ht Hm.
  unfold retention_end. revert Hd. destruct Hu as [->|[->| ->]]; cbn [Ascii.eqb Bool.eqb]; intros [= <-].
  - rewrite AddDate_days; [done..|unfold max_retention in *; lia].
  - rewrite wrap64_small by (unfold int64_min, int64_max, max_retention in *; lia). rewrite AddDate_days; [lia|done|unfold max_retention in *; lia].
  - rewrite AddDate_months; [done..|lia].
Qed.

(** The window of a retention or a grace period. A spec of [n] days ends [n]
    days later, one of [n] weeks [7 n] days later and one of [n] months between
    [28 n] and [31 n] days later, for every [n] the calendar can hold: no
    deadline lies before the date it is counted from. The number of weeks is
    not bounded by the check of a spec: the days of one that is accepted wrap
    around to minus two, and its window ends before it began. *)
Lemma retention_window (t : Z) (spec : string) (n : Z) (unit : ascii) :
  parseRetentionSpec spec = Some (n, unit) -> n <= max_retention -> in_calendar t ->
  (exists deadline, AddRetention t spec = Some deadline /\
    ((unit = "d"%char /\ deadline = t + n * day_ns) \/
     (unit = "w"%char /\ deadline = t + 7 * n * day_ns) \/
     (unit = "m"%char /\ t + 28 * n * day_ns <= deadline <= t + 31 * n * day_ns))) /\
  (ValidRetentionSpec "2635249153387078802w" = true /\ AddRetention t "2635249153387078802w" = Some (t - 2 * day_ns)).
Proof.
  intros Hp Hle Ht. destruct (parsed_spec _ _ _ Hp) as [Hn Hu]. unfold max_retention in Hle. split; [|split; [by vm_compute|]].
  - unfold AddRetention. rewrite Hp. destruct Hu as [->|[->| ->]]; cbn [Ascii.eqb Bool.eqb].
    + eexists. split; [done|]. left. split; [done|]. apply AddDate_days; [done|unfold max_retention; lia].
    + eexists. split; [done|]. right; left. split; [done|].
      rewrite wrap64_small by (unfold int64_min, int64_max; lia). rewrite AddDate_days; [lia|done|unfold max_retention; lia].
    + eexists. split; [done|]. right; right. split; [done|]. rewrite AddDate_months by (done || unfold max_retention; lia).
      apply months_later_range. lia.
  - replace (t - 2 * day_ns) with (t + -2 * day_ns) by lia. rewrite <- AddDate_days by (done || unfold max_retention; lia). reflexivity.
Qed.
