(* ===== verification/Lifecycle.v ===== *)
(** * The billing lifecycle (core/services/billing_lifecycle.go, billing_overlimit.go)

    The hourly pass of the leader and the operations the store webhook and the
    operators call, as programs ([Programs]) over the calls they make: the
    database, Redis, the Hub, the nodes, object storage and mail. Nothing is
    assumed of the answers here. With them, the storage a run resolves to
    (backup_storage_resolve.go), the purge of archives (backup_purge.go), the
    teardown of a link kit (link_revoke.go) and the handlers that drive an
    account (core/handlers/billing).

    A failed read is [None], a failed write [false]. The text of a mail is
    left out but for what is computed for it; log lines and the timeouts of a
    context, which make a call fail, are left out. *)

From Stdlib Require Import Ascii String.
From S2P Require Import Prelude GoStrings Schedule Programs Billing.
Open Scope string_scope.
Open Scope list_scope.
Open Scope Z_scope.

(** ** Rows of the other tables *)

(** A row of [servers]. *)
Record server_row := mkServerRow { sr_ID : Z; sr_UUID : string; sr_Status : string; sr_DesiredState : string; sr_NodeID : Z }.
(** [models.Server], the fields the lifecycle reads. *)
Record Server := mkServer { ID : Z; UUID : string; ServerStatus : string; DesiredState : string; NodeID : Z }.
(** [models.Node] *)
Record Node := mkNode { n_ID : Z; n_Token : string; n_LinkToken : string; n_OwnerID : option string }.
Record User := mkUser { us_Username : string; us_Email : string; us_IsAdmin : bool }.
Record WarpAPIKey := mkKey { k_ID : Z; k_NodeID : string }.
Record BackupStorage := mkStorage { bs_ID : Z; bs_Name : string; bs_OwnerID : option string }.
Record BackupRunRef := mkRef { RunID : Z; StorageKey : string; StorageID : option Z; RefOwnerID : string; UploadID : string }.
Record Template := mkTemplate { t_ID : Z; t_Visibility : string; t_BackupStorageID : option Z }.
Record GatewayRoute := mkRoute { rt_OwnerID : string; rt_Domain : string; rt_LinkToken : string }.

Inductive mail :=
  | DunningMail (username : string) (graceUntil : Z) (url retention : string)
  | SuspendedMail (username backups url : string)
  | OverLimitMail (username described : string) (deadline : Z) (url : string).

(** ** Calls *)

Inductive op :=
  | Now
  (* user_billing *)
  | GetUserBilling (u : string)
  | ListUserBillingByStatus (status : string)
  | ListUserBilling
  | SetUserBillingStatusIf (u status : string) (graceUntil suspendedAt : option Z) (from : option (list string))
  | PlaceAdminHold (u : string) (at_ : Z)
  | LiftAdminHold (u : string)
  | SetUserOverLimitSince (u : string) (v : option Z)
  | MarkNodeLinksOff (u : string)
  | ClearNodeLinksOff (u : string)
  | SetUserBillingOverrides (u gracePeriod r2Retention nodeRetention : string) (r2QuotaGB : option Z)
  | SetUserPurchasedEntitlement (u : string) (maxNodes : option Z) (setNodes : bool) (maxLinks : option Z) (setLinks : bool)
  | SetUserBillingConsent (u : string) (traffic backup : option bool)
  | SetUserDataBillingEnabled (u : string) (v : bool)
  | SetUserManualEntitlement (u kind : string) (expiresAt : option Z) (grantedBy : string)
  | SetUserManualEntitlementKind (u kind : string) (expiresAt : option Z) (grantedBy : string)
  (* other tables *)
  | GetSetting (key : string)
  | GetUserByID (u : string)
  | QueryServersByOwner (u : string)
  | GetNodeByID (id : Z)
  | ListNodesByOwner (u : string)
  | UpdateServerDesiredState (id : Z) (state : string)
  | UpdateServerStatus (id : Z) (status : string)
  | ListWarpAPIKeysByOwner (u : string)
  | ListAllWarpAPIKeysByOwner (u : string)
  | RevokeWarpAPIKeyByNodeID (nodeID : string)
  | CountNodesByOwner (u : string)
  | CountPendingNodeEnrollTokens (u : string)
  | CountNodeWarpKeysByOwner (u : string)
  | CountLinkKitsByOwner (u : string)
  | GetGatewayRouteLimit (scope : string)
  | SetGatewayRouteLimit (scope : string) (n : Z)
  | DeleteGatewayRouteLimit (scope : string)
  | ListCoreLinkRoutes
  | ListBackupRunsByOwner (u : string)
  | DeleteBackupRun (id : Z)
  | GetBackupStorage (id : Z)
  | GetDefaultBackupStorage
  | GetUserDefaultBackupStorage (u : string)
  | GetUserStoragePrefs (u : string)
  | ListTemplateIDsByOwner (u : string)
  | GetTemplate (id : Z)
  | DeleteTemplate (id : Z)
  (* object storage *)
  | OpenStorage (bs : BackupStorage)
  | AbortMultipart (bs : BackupStorage) (key uploadID : string)
  | ProviderDelete (bs : BackupStorage) (key : string)
  | templateFiles (t : Template)
  (* Redis, the Hub and the nodes *)
  | GetRoutesFromRedis
  | RedisDel (keys : list string)
  | RedisSet (key value : string)
  | BumpAccessEpoch (uuid : string)
  | PublishDesiredState (uuid state : string)
  | SendCommand (token action uuid : string)
  | SetNodeLinkEnabled (token : string) (enabled : bool)
  | DeleteCoreOwnedRoute (domain : string)
  | DisconnectKeyPeers (keyID : Z)
  | GoDropPeersAfter (userID nodeID : string) (keyID : Z)
  | Wait (ns : Z)
  (* mail and the election *)
  | LoadMailer
  | SendMail (to : string) (m : mail)
  | IsLeader.

Definition ans (c : op) : Type :=
  match c with
  | Now => Z
  | GetUserBilling _ => option UserBilling
  | ListUserBillingByStatus _ | ListUserBilling => option (list UserBilling)
  | SetUserBillingStatusIf _ _ _ _ _ => option bool
  | LiftAdminHold _ => option string
  | MarkNodeLinksOff _ => option bool
  | GetSetting _ => string
  | GetUserByID _ => option User
  | QueryServersByOwner _ => option (list server_row)
  | GetNodeByID _ => option Node
  | ListNodesByOwner _ => option (list Node)
  | ListWarpAPIKeysByOwner _ | ListAllWarpAPIKeysByOwner _ => option (list WarpAPIKey)
  | CountNodesByOwner _ | CountPendingNodeEnrollTokens _ | CountNodeWarpKeysByOwner _ | CountLinkKitsByOwner _ => option Z
  (* no row or an error; a row whose limit may be NULL *)
  | GetGatewayRouteLimit _ => option (option Z)
  | ListCoreLinkRoutes => option (list GatewayRoute)
  | ListBackupRunsByOwner _ => option (list BackupRunRef)
  | GetBackupStorage _ | GetDefaultBackupStorage | GetUserDefaultBackupStorage _ => option (option BackupStorage)
  | GetUserStoragePrefs _ => option (option Z)
  | ListTemplateIDsByOwner _ => option (list Z)
  | GetTemplate _ => option (option Template)
  | GetRoutesFromRedis => list GatewayRoute
  | PublishDesiredState _ _ | GoDropPeersAfter _ _ _ | Wait _ | SendMail _ _ => unit
  | DisconnectKeyPeers _ => Z
  | _ => bool
  end.

Notation program := (prog ans).
Local Notation call c := (@Programs.call op ans c).
Local Notation Ret := (@Programs.Ret op ans _).

(** [for _, x := range l { ... }] *)
Fixpoint each {A} (l : list A) (f : A -> program unit) : program unit :=
  match l with
  | [] => Ret tt
  | x :: l => _ ← f x; each l f
  end.

(** A loop that returns out of the function when its body says [false]. *)
Fixpoint each_ok {A} (l : list A) (f : A -> program bool) : program bool :=
  match l with
  | [] => Ret true
  | x :: l => ok ← f x; if ok : bool then each_ok l f else Ret false
  end.

Definition skip : program unit := Ret tt.

Lemma each_only {A} (P : op -> Prop) (l : list A) f : (forall x, only P (f x)) -> only P (each l f).
Proof. intros H. induction l as [|x l IH]; [done|]. cbn [each]. by apply only_bind. Qed.

Lemma each_ok_only {A} (P : op -> Prop) (l : list A) f : (forall x, only P (f x)) -> only P (each_ok l f).
Proof. intros H. induction l as [|x l IH]; [done|]. cbn [each_ok]. apply only_bind; [done|]. by intros []. Qed.

(** Walks a program whose calls all satisfy a predicate that [tac] decides;
    [tac] may also know parts of the program. *)
Ltac only_tac tac :=
  repeat first
    [ exact I
    | solve [tac]
    | assumption
    | match goal with |- forall _, _ => intros ? end
    | apply each_only
    | apply each_ok_only
    | apply only_bind; [|intros ?]
    | split; [tac|intros ?; exact I]
    | match goal with |- only _ (match ?x with _ => _ end) => destruct x end
    | match goal with |- only _ (if ?x then _ else _) => destruct x end ].

(** ** Storage of a run (backup_storage_resolve.go) *)

Inductive storage_error := ErrNoBackupStorage | ErrForeignBackupStorage | ErrStoreFailed.

(** The platform's own storage, the last step of every chain. *)
Definition platform_default : program (BackupStorage + storage_error) :=
  r ← call GetDefaultBackupStorage;
  Ret (match r with
       | None => inr ErrStoreFailed
       | Some None => inr ErrNoBackupStorage
       | Some (Some bs) => inl bs
       end).

Definition ResolveJobStorage (storageID : option Z) (ownerID : string) : program (BackupStorage + storage_error) :=
  pref ← (match storageID with
          | Some _ => Ret (Some storageID)
          | None => if (ownerID =? "")%string then Ret (Some None) else call (GetUserStoragePrefs ownerID)
          end);
  match pref with
  | None => Ret (inr ErrStoreFailed)
  | Some (Some id) =>
      r ← call (GetBackupStorage id);
      Ret (match r with
           | None => inr ErrStoreFailed
           | Some None => inr ErrNoBackupStorage
           | Some (Some bs) =>
               match bs_OwnerID bs with
               | Some o => if (o =? ownerID)%string then inl bs else inr ErrForeignBackupStorage
               | None => inl bs
               end
           end)
  | Some None =>
      if (ownerID =? "")%string then platform_default
      else
        r ← call (GetUserDefaultBackupStorage ownerID);
        match r with
        | None => Ret (inr ErrStoreFailed)
        | Some (Some bs) => Ret (inl bs)
        | Some None => platform_default
        end
  end.

Definition ResolveNewRunStorage (storageID : option Z) (ownerID : string) (ownAllowed : bool) :
    program (BackupStorage + storage_error) :=
  if ownAllowed then ResolveJobStorage storageID ownerID
  else
    match storageID with
    | None => ResolveJobStorage None ""
    | Some _ =>
        r ← ResolveJobStorage storageID ownerID;
        match r with
        | inr e => Ret (inr e)
        | inl bs => if set (bs_OwnerID bs) then ResolveJobStorage None "" else Ret (inl bs)
        end
    end.

(** [run] is the storage the run recorded. *)
Definition ResolveRunStorage (run jobStorageID : option Z) (ownerID : string) : program (BackupStorage + storage_error) :=
  if set run then ResolveJobStorage run ownerID
  else if set jobStorageID then ResolveJobStorage jobStorageID ownerID
  else platform_default.

Definition archiveIsOursToDelete (bs : BackupStorage) : bool := negb (set (bs_OwnerID bs)).

(** One archive of [PurgeBackupArchives] (backup_purge.go): [true] when it was
    deleted. *)
Definition purge_one (ref : BackupRunRef) : program bool :=
  let owner := if set (StorageID ref) then RefOwnerID ref else "" in
  r ← ResolveJobStorage (StorageID ref) owner;
  match r with
  | inr _ => Ret false
  | inl bs =>
      if negb (archiveIsOursToDelete bs) then Ret false
      else
        opened ← call (OpenStorage bs);
        if negb opened then Ret false
        else
          _ ← (if (UploadID ref =? "")%string then Ret true else call (AbortMultipart bs (StorageKey ref) (UploadID ref)));
          call (ProviderDelete bs (StorageKey ref))
  end.

(** How many were deleted and how many left behind. *)
Fixpoint PurgeBackupArchives (refs : list BackupRunRef) (deleted kept : Z) : program (Z * Z) :=
  match refs with
  | [] => Ret (deleted, kept)
  | ref :: refs =>
      if (StorageKey ref =? "")%string then PurgeBackupArchives refs deleted kept
      else
        ok ← purge_one ref;
        if ok : bool then PurgeBackupArchives refs (deleted + 1) kept else PurgeBackupArchives refs deleted (kept + 1)
  end.

(** ** The service *)

(** [BillingLifecycleService]: what is wired, and what is configured.
    [LinkToken] is the Hub's digest of a node token or a link id;
    [unmarshalDomains] is [json.Unmarshal] of the list of hoster domains. *)
Record service := mkService {
  storeEnabled : bool; has_gateway : bool; has_redis : bool; has_warpPeers : bool; has_templateFiles : bool;
  has_leader : bool; suspendGrace : Z; frontendURL : string; LinkToken : string -> string;
  unmarshalDomains : string -> option (list string)
}.

Section lifecycle_service.
Context (s : service).

Definition BillingGracePeriodKey : string := "billing.grace_period".
Definition BillingR2RetentionKey : string := "billing.r2_retention".
Definition BillingPaymentURLKey : string := "billing.payment_url".
Definition HosterDomainsSettingKey : string := "gateway_hoster_domains".

(** [ListServersByOwner] selects four columns; the others of the struct stay
    at their zero values. *)
Definition scan_server (r : server_row) : Server := mkServer (sr_ID r) (sr_UUID r) (sr_Status r) "" (sr_NodeID r).
Definition ListServersByOwner (u : string) : program (option (list Server)) :=
  rows ← call (QueryServersByOwner u);
  Ret (option_map (List.map scan_server) rows).

(** The setting is asked only when the override does not parse. *)
Definition effectiveSpec (override settingKey def : string) : program string :=
  if ValidRetentionSpec override then Ret override
  else
    v ← call (GetSetting settingKey);
    Ret (Billing.effectiveSpec override v def).

(** *** Mail *)

(** [strings.TrimRight(url, "/")] *)
Fixpoint trim_slashes (l : list ascii) : list ascii :=
  match l with
  | c :: l => if Ascii.eqb c "/" then trim_slashes l else c :: l
  | [] => []
  end.
Definition TrimRightSlash (url : string) : string :=
  string_of_list_ascii (rev (trim_slashes (rev (list_ascii_of_string url)))).

Definition paymentURL : program string :=
  v ← call (GetSetting BillingPaymentURLKey);
  Ret (if (v =? "")%string then (TrimRightSlash (frontendURL s) +:+ "/account/store")%string else v).

(** The words of a spec, "1 week" or "3 days". *)
Definition spec_words (spec : string) : string :=
  let '(n, word) := match parseRetentionSpec spec with
                    | Some (n, unit) => (n, if Ascii.eqb unit "d" then "day" else if Ascii.eqb unit "w" then "week" else "month")
                    | None => (0, "")
                    end in
  (Itoa n +:+ " " +:+ word +:+ (if (n =? 1)%Z then "" else "s"))%string.

Definition backupRetentionText (u : string) : program string :=
  b ← call (GetUserBilling u);
  spec ← effectiveSpec (match b with Some b => R2Retention b | None => "" end) BillingR2RetentionKey DefaultR2Retention;
  Ret (spec_words spec).

(** The user to write to, and a transport. *)
Definition addressee (u : string) : program (option User) :=
  r ← call (GetUserByID u);
  match r with
  | None => Ret None
  | Some usr =>
      if (us_Email usr =? "")%string then Ret None
      else
        loaded ← call LoadMailer;
        Ret (if loaded : bool then Some usr else None)
  end.

Definition sendDunningEmail (u : string) (graceUntil : Z) : program unit :=
  a ← addressee u;
  match a with
  | None => skip
  | Some usr =>
      url ← paymentURL;
      kept ← backupRetentionText u;
      call (SendMail (us_Email usr) (DunningMail (us_Username usr) graceUntil url kept))
  end.

Definition sendSuspendedEmail (u : string) (held : bool) : program unit :=
  a ← addressee u;
  match a with
  | None => skip
  | Some usr =>
      backups ← (if held then Ret "The backups we store for you are kept."
                 else
                   kept ← backupRetentionText u;
                   Ret ("The backups we store for you stay viewable for " +:+ kept +:+ " and are then deleted.")%string);
      url ← paymentURL;
      call (SendMail (us_Email usr) (SuspendedMail (us_Username usr) backups url))
  end.

(** *** Transitions *)

Definition enterPastDue (u : string) (from : option (list string)) : program bool :=
  r ← call (GetUserBilling u);
  match r with
  | None => Ret false
  | Some b =>
      if (PaymentStatus b =? "past_due")%string && (set (GraceUntil b) || AdminHold b) then Ret true
      else
        grace ← effectiveSpec (GracePeriod b) BillingGracePeriodKey DefaultGracePeriod;
        now ← call Now;
        until ← (match AddRetention now grace with
                 | Some t => Ret t
                 | None =>
                     now' ← call Now;
                     Ret (default now' (AddRetention now' DefaultGracePeriod))
                 end);
        w ← call (SetUserBillingStatusIf u "past_due" (Some until) None from);
        match w with
        | None => Ret false
        | Some wrote =>
            _ ← (if wrote && negb (AdminHold b) then sendDunningEmail u until else skip);
            Ret true
        end
  end.

Definition EnterPastDue (u : string) : program bool := enterPastDue u None.
Definition EnterPastDueUnlessSuspended (u : string) : program bool := enterPastDue u (Some ["active"; "past_due"]).

Definition suspend (u : string) (from : option (list string)) : program bool :=
  r ← call (GetUserBilling u);
  if match r with
     | Some b => (PaymentStatus b =? "suspended")%string && (set (SuspendedAt b) || AdminHold b)
     | None => false
     end
  then Ret true
  else
    now ← call Now;
    w ← call (SetUserBillingStatusIf u "suspended" None (Some now) from);
    match w with
    | None => Ret false
    | Some wrote =>
        if negb wrote || match r with Some b => AdminHold b | None => false end then Ret true
        else
          _ ← sendSuspendedEmail u false;
          Ret true
    end.

Definition Suspend (u : string) : program bool := suspend u None.

(** *** Node links *)

(** The tokens of a node's links: the derived one, and a self-enrolled one. *)
Definition node_tokens (n : Node) : list string :=
  let derived := LinkToken s (n_Token n) in
  if negb (n_LinkToken n =? "")%string && negb (n_LinkToken n =? derived)%string then [derived; n_LinkToken n] else [derived].

Definition setTenantNodeLinks (u : string) (enabled : bool) : program unit :=
  if negb (has_gateway s) then skip
  else
    r ← call (GetUserBilling u);
    match r with
    | None => skip
    | Some b =>
        if negb (Bool.eqb (NodeLinksOff b) enabled) then skip
        else
          cutOff ← (if (Status b =? "suspended")%string then Ret true
                    else now ← call Now; Ret (OwnerCutOff r (suspendGrace s) OverLimitGrace now));
          if Bool.eqb cutOff enabled then skip
          else
            nodes ← call (ListNodesByOwner u);
            match nodes with
            | None => skip
            | Some nodes =>
                told ← each_ok nodes (fun n => each_ok (node_tokens n) (fun token => call (SetNodeLinkEnabled token enabled)));
                if told : bool
                then if enabled then _ ← call (ClearNodeLinksOff u); skip else _ ← call (MarkNodeLinksOff u); skip
                else skip
            end
    end.

Definition restoreNodeLinks : program unit :=
  r ← call ListUserBilling;
  match r with
  | None => skip
  | Some all =>
      now ← call Now;
      each all (fun b =>
        if NodeLinksOff b && negb (Status b =? "suspended")%string && negb (OwnerCutOff (Some b) (suspendGrace s) OverLimitGrace now)
        then setTenantNodeLinks (UserID b) true else skip)
  end.

(** *** The cutoff *)

Definition running (status : string) : bool := existsb (String.eqb status) ["online"; "starting"; "restarting"].

Definition stop_server (srv : Server) : program unit :=
  _ ← (if has_redis s && negb (UUID srv =? "")%string then call (BumpAccessEpoch (UUID srv)) else Ret true);
  if negb (DesiredState srv =? "online")%string && negb (ServerStatus srv =? "online")%string then skip
  else
    node ← call (GetNodeByID (NodeID srv));
    match node with
    | None => skip
    | Some node =>
        ok ← call (UpdateServerDesiredState (ID srv) "stopped");
        if negb ok then skip
        else
          _ ← (if has_redis s then call (PublishDesiredState (UUID srv) "stopped") else skip);
          if negb (running (ServerStatus srv)) then skip
          else
            _ ← call (UpdateServerStatus (ID srv) "stopping");
            _ ← call (SendCommand (n_Token node) "stop" (UUID srv));
            skip
    end.

Definition stopTenantServers (u : string) : program unit :=
  r ← ListServersByOwner u;
  match r with
  | None => skip
  | Some servers => each servers stop_server
  end.

(** The link kits ([link-]) or the node keys ([node-]) of the tenant. *)
Definition keys_with (prefix : string) (keys : list WarpAPIKey) : list WarpAPIKey :=
  List.filter (fun k => HasPrefix (k_NodeID k) prefix) keys.

Definition linkKitsForUser (u : string) : program (list string) :=
  r ← call (ListWarpAPIKeysByOwner u);
  Ret (match r with None => [] | Some keys => map k_NodeID (keys_with "link-" keys) end).

Definition suspendTenantLinks (u : string) : program unit :=
  if negb (has_gateway s) || negb (has_redis s) then skip
  else
    ids ← linkKitsForUser u;
    each ids (fun id =>
      let t := LinkToken s id in
      _ ← call (RedisDel ["link:" +:+ t; "online_link:" +:+ t]); skip).

Definition reactivateTenantLinks (u : string) : program unit :=
  if negb (has_gateway s) || negb (has_redis s) then skip
  else
    ids ← linkKitsForUser u;
    each ids (fun id => _ ← call (RedisSet ("link:" +:+ LinkToken s id) "valid"); skip).

(** Servers are asked for their node only until one is found. *)
Fixpoint any_byon_up (servers : list Server) : program bool :=
  match servers with
  | [] => Ret false
  | srv :: rest =>
      if negb (existsb (String.eqb (ServerStatus srv)) ["online"; "starting"; "stopping"; "restarting"]) then any_byon_up rest
      else
        n ← call (GetNodeByID (NodeID srv));
        if match n with Some n => negb (text (n_OwnerID n) =? "")%string | None => false end
        then Ret true else any_byon_up rest
  end.

Definition byonServersStillUp (u : string) : program bool :=
  r ← ListServersByOwner u;
  match r with
  | None => Ret false
  | Some servers => any_byon_up servers
  end.

Definition suspendTenantWarpPeers (u : string) : program unit :=
  if negb (has_warpPeers s) then skip
  else
    r ← call (ListAllWarpAPIKeysByOwner u);
    match r with
    | None => skip
    | Some keys => each keys (fun k => _ ← call (DisconnectKeyPeers (k_ID k)); skip)
    end.

Definition maxStopDrain : Z := 2 * Hour.

Definition dropWarpPeersOnceStopped (u : string) (cutoff now : Z) : program unit :=
  up ← (if now <? cutoff + maxStopDrain then byonServersStillUp u else Ret false);
  if up : bool then skip
  else
    _ ← suspendTenantWarpPeers u;
    setTenantNodeLinks u false.

Definition enforce_one (now : Z) (b : UserBilling) : program unit :=
  if negb (AdminHold b) && negb (elapsed (SuspendedAt b) (suspendGrace s) now) then skip
  else
    let cutoff := match SuspendedAt b with
                  | Some at_ => if AdminHold b then at_ else at_ + suspendGrace s
                  | None => now
                  end in
    _ ← stopTenantServers (UserID b);
    _ ← suspendTenantLinks (UserID b);
    dropWarpPeersOnceStopped (UserID b) cutoff now.

Definition enforceSuspensions : program unit :=
  r ← call (ListUserBillingByStatus "suspended");
  match r with
  | None => skip
  | Some suspended => now ← call Now; each suspended (enforce_one now)
  end.

(** *** Over the limit (billing_overlimit.go) *)

(** The first of the operator's ceiling and the purchase that has a row. *)
Fixpoint route_limit (scopes : list string) : program (option Z) :=
  match scopes with
  | [] => Ret None
  | scope :: rest =>
      l ← call (GetGatewayRouteLimit scope);
      match l with
      | Some n => Ret n
      | None => route_limit rest
      end
  end.

Definition count_routes (u : string) : program Z :=
  if negb (has_redis s) then Ret 0
  else
    raw ← call (GetSetting HosterDomainsSettingKey);
    routes ← call GetRoutesFromRedis;
    let bases := HosterBaseDomains raw (unmarshalDomains s raw) in
    Ret (Z.of_nat (List.length (List.filter (fun rt => (rt_OwnerID rt =? u)%string && DomainIsOurs (rt_Domain rt) bases) routes))).

(** The first error of the reads ends it. *)
Definition tenantUsageFor (u : string) : program (option tenantUsage) :=
  b ← call (GetUserBilling u);
  now ← (if set b then call Now else Ret 0);
  match EffectiveLimits b now with
  | None => Ret None
  | Some lim =>
      usr ← call (GetUserByID u);
      now ← call Now;
      let subjectIsAdmin := match usr with Some usr => us_IsAdmin usr | None => false end in
      b ← (if subjectIsAdmin then Ret None else call (GetUserBilling u));
      match EffectiveEntitlement b now (storeEnabled s) subjectIsAdmin with
      | None => Ret None
      | Some ent =>
          nodes ← call (CountNodesByOwner u);
          if negb (set nodes) then Ret None else
          tokens ← call (CountPendingNodeEnrollTokens u);
          if negb (set tokens) then Ret None else
          keys ← call (CountNodeWarpKeysByOwner u);
          kits ← (if set keys then call (CountLinkKitsByOwner u) else Ret None);
          match NodeSlotsUsed nodes tokens keys, kits with
          | Some used, Some kits =>
              routeLimit ← route_limit ["admin:" +:+ u; "user:" +:+ u];
              routes ← count_routes u;
              Ret (Some (usage_of lim ent used kits routes routeLimit))
          | _, _ => Ret None
          end
      end
  end.

(** [describe]: the parts joined with commas and a last "and". *)
Fixpoint join_parts (parts : list string) : string :=
  match parts with
  | [] => ""
  | [p] => p
  | [p; q] => (p +:+ " and " +:+ q)%string
  | p :: rest => (p +:+ ", " +:+ join_parts rest)%string
  end.

Definition allowed (limit : option Z) : string := ("(allowed " +:+ Itoa (LimitOr limit 0) +:+ ")")%string.

Definition describe (u : tenantUsage) : string :=
  if negb (entitledToAnything u) && ((0 <? u_nodes u) || (0 <? u_links u) || (0 <? u_routes u))
  then (Itoa (u_nodes u) +:+ " nodes, " +:+ Itoa (u_links u) +:+ " route-only locations and " +:+ Itoa (u_routes u)
        +:+ " protected addresses with no active plan")%string
  else
    let part (b : bool) (t : string) := if b then [t] else [] in
    join_parts (
      part ((0 <? u_nodes u) && negb (u_entitledByon u)) (Itoa (u_nodes u) +:+ " nodes with no active bring-your-own-node plan")
      ++ part ((0 <? u_links u) && negb (u_entitledRoute u)) (Itoa (u_links u) +:+ " route-only locations with no active route-only plan")
      ++ part (u_entitledByon u && Exceeds (u_nodeLimit u) (u_nodes u)) (Itoa (u_nodes u) +:+ " nodes " +:+ allowed (u_nodeLimit u))
      ++ part (u_entitledRoute u && Exceeds (u_linkLimit u) (u_links u)) (Itoa (u_links u) +:+ " route-only locations " +:+ allowed (u_linkLimit u))
      ++ part (Exceeds (u_routeLimit u) (u_routes u)) (Itoa (u_routes u) +:+ " protected addresses " +:+ allowed (u_routeLimit u))).

Definition sendOverLimitEmail (u : string) (usage : tenantUsage) (deadline : Z) : program unit :=
  a ← addressee u;
  match a with
  | None => skip
  | Some usr => call (SendMail (us_Email usr) (OverLimitMail (us_Username usr) (describe usage) deadline (frontendURL s)))
  end.

Definition limit_one (now : Z) (b : UserBilling) : program unit :=
  if (Status b =? "suspended")%string then skip
  else
    r ← tenantUsageFor (UserID b);
    match r with
    | None => skip
    | Some u =>
        if negb (over u) then
          (if set (OverLimitSince b) then _ ← call (SetUserOverLimitSince (UserID b) None); skip else skip)
        else match OverLimitSince b with
        | None =>
            ok ← call (SetUserOverLimitSince (UserID b) (Some now));
            if ok : bool then sendOverLimitEmail (UserID b) u (now + OverLimitGrace) else skip
        | Some since =>
            if now <? since + OverLimitGrace then skip
            else
              _ ← stopTenantServers (UserID b);
              _ ← suspendTenantLinks (UserID b);
              dropWarpPeersOnceStopped (UserID b) (since + OverLimitGrace) now
        end
    end.

Definition enforceEntitlementLimits : program unit :=
  r ← call ListUserBilling;
  match r with
  | None => skip
  | Some rows => now ← call Now; each rows (limit_one now)
  end.

(** *** Retention *)

Definition delete_run (ref : BackupRunRef) : program unit :=
  r ← ResolveJobStorage (StorageID ref) "";
  match r with
  | inr _ => skip
  | inl storage =>
      if set (bs_OwnerID storage) then skip
      else
        opened ← call (OpenStorage storage);
        if negb opened then skip
        else
          gone ← call (ProviderDelete storage (StorageKey ref));
          if negb gone then skip
          else _ ← call (DeleteBackupRun (RunID ref)); skip
  end.

Definition deleteTenantBackups (u : string) : program unit :=
  r ← call (ListBackupRunsByOwner u);
  match r with
  | None => skip
  | Some refs => each refs delete_run
  end.

Definition delete_template (id : Z) : program unit :=
  r ← call (GetTemplate id);
  match r with
  | Some (Some t) =>
      if set (t_BackupStorageID t) || negb (t_Visibility t =? "personal")%string then skip
      else
        gone ← call (templateFiles t);
        if negb gone then skip else _ ← call (DeleteTemplate id); skip
  | _ => skip
  end.

Definition deleteTenantTemplates (u : string) : program unit :=
  if negb (has_templateFiles s) then skip
  else
    r ← call (ListTemplateIDsByOwner u);
    match r with
    | None => skip
    | Some ids => each ids delete_template
    end.

Definition retain_one (now : Z) (b : UserBilling) : program unit :=
  match SuspendedAt b with
  | None => skip
  | Some at_ =>
      if AdminHold b then skip
      else
        spec ← effectiveSpec (R2Retention b) BillingR2RetentionKey DefaultR2Retention;
        match AddRetention at_ spec with
        | None => skip
        | Some deadline =>
            if now <? deadline then skip
            else
              _ ← deleteTenantBackups (UserID b);
              deleteTenantTemplates (UserID b)
        end
  end.

Definition cleanupExpiredR2 : program unit :=
  r ← call (ListUserBillingByStatus "suspended");
  match r with
  | None => skip
  | Some suspended => now ← call Now; each suspended (retain_one now)
  end.

(** *** The pass *)

Definition promote_one (now : Z) (b : UserBilling) : program unit :=
  match GraceUntil b with
  | None => skip
  | Some until => if now <? until then skip else _ ← suspend (UserID b) (Some ["past_due"]); skip
  end.

Definition runOnce : program unit :=
  r ← call (ListUserBillingByStatus "past_due");
  match r with
  | None => skip
  | Some pastDue =>
      now ← call Now;
      _ ← each pastDue (promote_one now);
      _ ← enforceSuspensions;
      _ ← enforceEntitlementLimits;
      _ ← restoreNodeLinks;
      cleanupExpiredR2
  end.

Definition interval : Z := Hour.

(** [Start]: a pass at once and one per tick, for [ticks] ticks until the
    context is done. *)
Fixpoint Start (ticks : nat) : program unit :=
  lead ← (if has_leader s then call IsLeader else Ret true);
  _ ← (if lead : bool then runOnce else skip);
  match ticks with
  | O => skip
  | S ticks => _ ← call (Wait interval); Start ticks
  end.

(** *** Reactivation and the operator's hold *)

Definition Reactivate (u : string) : program bool :=
  w ← call (SetUserBillingStatusIf u "active" None None None);
  match w with
  | None => Ret false
  | Some _ =>
      r ← call (GetUserBilling u);
      match r with
      | None => Ret true
      | Some b =>
          if AdminHold b then Ret true
          else
            late ← (match OverLimitSince b with
                    | None => Ret false
                    | Some since => now ← call Now; Ret (since + OverLimitGrace <=? now)
                    end);
            if late : bool then Ret true
            else
              _ ← reactivateTenantLinks u;
              _ ← setTenantNodeLinks u true;
              Ret true
      end
  end.

Definition HoldLifted (u prior : string) : program bool :=
  if (prior =? "active")%string then Reactivate u
  else if (prior =? "past_due")%string then
    ok ← EnterPastDue u;
    if ok : bool then _ ← setTenantNodeLinks u true; Ret true else Ret false
  else Ret true.

(** The goroutine that drops a revoked key's peers once the stop was read. *)
Definition forceSuspendStopDrain : Z := 120 * nanos.
Definition dropPeersAfter (keyID wait : Z) : program unit :=
  _ ← (if 0 <? wait then call (Wait wait) else skip);
  _ ← call (DisconnectKeyPeers keyID);
  skip.

Definition revokeTenantNodeKeys (u : string) : program unit :=
  r ← call (ListWarpAPIKeysByOwner u);
  match r with
  | None => skip
  | Some keys =>
      each (keys_with "node-" keys) (fun k =>
        ok ← call (RevokeWarpAPIKeyByNodeID (k_NodeID k));
        if negb ok || negb (has_warpPeers s) then skip else call (GoDropPeersAfter u (k_NodeID k) (k_ID k)))
  end.

(** Routes removed of one link kit (link_revoke.go); [None] is the error. *)
Definition RevokeLinkKitTeardown (linkID ownerID : string) : program (option Z) :=
  ok ← call (RevokeWarpAPIKeyByNodeID linkID);
  if negb ok then Ret None
  else
    let t := LinkToken s linkID in
    _ ← call (RedisDel ["link:" +:+ t; "online_link:" +:+ t; "dylaris:link:" +:+ linkID +:+ ":stats"]);
    r ← call ListCoreLinkRoutes;
    match r with
    | None => Ret (Some 0)
    | Some rows =>
        (fix go (rows : list GatewayRoute) (removed : Z) : program (option Z) :=
           match rows with
           | [] => Ret (Some removed)
           | rt :: rows =>
               if (rt_OwnerID rt =? ownerID)%string && (rt_LinkToken rt =? t)%string then
                 ok ← call (DeleteCoreOwnedRoute (rt_Domain rt));
                 go rows (if ok : bool then removed + 1 else removed)
               else go rows removed
           end) rows 0
    end.

Definition SuspendNow (u : string) : program bool :=
  now ← call Now;
  ok ← call (PlaceAdminHold u now);
  if negb ok then Ret false
  else
    _ ← sendSuspendedEmail u true;
    _ ← stopTenantServers u;
    _ ← revokeTenantNodeKeys u;
    _ ← setTenantNodeLinks u false;
    if negb (has_gateway s) || negb (has_redis s) then Ret true
    else
      ids ← linkKitsForUser u;
      _ ← each ids (fun id => _ ← RevokeLinkKitTeardown id u; skip);
      Ret true.

(** ** The handlers that drive an account (core/handlers/billing)

    After the checks of the caller: the store's key, or the capability and
    [GuardAccountTerms]. The answer is the HTTP status. *)

Definition StatusOK : Z := 200.
Definition StatusBadRequest : Z := 400.
Definition StatusNotFound : Z := 404.
Definition StatusInternalServerError : Z := 500.

(** [SetBillingStatus], the operator's (billing.go). *)
Definition SetBillingStatus (u status : string) : program Z :=
  if negb (existsb (String.eqb status) ["active"; "past_due"; "suspended"]) then Ret StatusBadRequest
  else
    prior ← (if (status =? "suspended")%string then Ret (Some "") else call (LiftAdminHold u));
    match prior with
    | None => Ret StatusInternalServerError
    | Some prior =>
        ok ← (if negb (prior =? "")%string then HoldLifted u prior
              else if (status =? "past_due")%string then EnterPastDue u
              else if (status =? "active")%string then Reactivate u
              else SuspendNow u);
        Ret (if ok : bool then StatusOK else StatusInternalServerError)
    end.

(** A JSON field: absent, malformed, null or a number. *)
Inductive json_field := Absent | Malformed | Null | Number (n : Z).

(** Value and whether it is to be set; [None] is an error. *)
Definition parseEntitlement (raw : json_field) : option (option Z * bool) :=
  match raw with
  | Absent => Some (None, false)
  | Malformed => None
  | Null => Some (None, true)
  | Number n => if n <=? 0 then Some (None, true) else Some (Some n, true)
  end.

Definition parseRoutePool (raw : json_field) : option (option Z * bool) :=
  match raw with
  | Absent => Some (None, false)
  | Malformed => None
  | Null => Some (None, true)
  | Number n => Some (Some (if n <? 0 then 0 else n), true)
  end.

Definition bought (v : option Z) (is_set : bool) : bool := is_set && positive v.

Definition retireGrantsCoveredByPurchase (u : string) (nodes : option Z) (setNodes : bool) (links : option Z) (setLinks : bool) :
    program unit :=
  each [(EntitlementByon, bought nodes setNodes); (EntitlementRouteOnly, bought links setLinks)] (fun c =>
    if c.2 then _ ← call (SetUserManualEntitlementKind u c.1 None ""); skip else skip).

(** The body of [Provision]. *)
Record provision := mkProvision {
  pr_UUID : string; pr_Action : string; pr_MaxNodes : json_field; pr_MaxLinks : json_field; pr_MaxRoutes : json_field;
  pr_Traffic : option bool; pr_Backup : option bool; pr_Data : option bool
}.

(** [storeclient.UserRouteScope] *)
Definition UserRouteScope (u : string) : string := ("user:" +:+ u)%string.

(** The address pool of an activation, its last step. *)
Definition provision_routes (u : string) (raw : json_field) : program Z :=
  match parseRoutePool raw with
  | None => Ret StatusBadRequest
  | Some (_, false) => Ret StatusOK
  | Some (routes, true) =>
      ok ← (match routes with
            | None => call (DeleteGatewayRouteLimit (UserRouteScope u))
            | Some n => call (SetGatewayRouteLimit (UserRouteScope u) n)
            end);
      Ret (if ok : bool then StatusOK else StatusInternalServerError)
  end.

(** The consent flags of an activation: [false] when one could not be written. *)
Definition provision_consent (req : provision) : program bool :=
  ok ← (if set (pr_Traffic req) || set (pr_Backup req)
        then call (SetUserBillingConsent (pr_UUID req) (pr_Traffic req) (pr_Backup req)) else Ret true);
  if negb ok then Ret false
  else match pr_Data req with
       | Some v => call (SetUserDataBillingEnabled (pr_UUID req) v)
       | None => Ret true
       end.

Definition provision_activate (req : provision) : program Z :=
  let u := pr_UUID req in
  ok ← Reactivate u;
  if negb ok then Ret StatusInternalServerError
  else match parseEntitlement (pr_MaxNodes req), parseEntitlement (pr_MaxLinks req) with
  | Some (nodes, setNodes), Some (links, setLinks) =>
      ok ← (if setNodes || setLinks then
              ok ← call (SetUserPurchasedEntitlement u nodes setNodes links setLinks);
              if negb ok then Ret false
              else _ ← retireGrantsCoveredByPurchase u nodes setNodes links setLinks; Ret true
            else Ret true);
      if negb ok then Ret StatusInternalServerError
      else
        ok ← provision_consent req;
        if negb ok then Ret StatusInternalServerError
        else provision_routes u (pr_MaxRoutes req)
  | _, _ => Ret StatusBadRequest
  end.

(** [Provision], the store's (store.go). *)
Definition Provision (req : provision) : program Z :=
  if (pr_UUID req =? "")%string then Ret StatusBadRequest
  else
    usr ← call (GetUserByID (pr_UUID req));
    if negb (set usr) then Ret StatusNotFound
    else if (pr_Action req =? "activate")%string then provision_activate req
    else if (pr_Action req =? "past_due")%string then
      ok ← EnterPastDueUnlessSuspended (pr_UUID req);
      Ret (if ok : bool then StatusOK else StatusInternalServerError)
    else if (pr_Action req =? "suspend")%string then
      ok ← Suspend (pr_UUID req);
      Ret (if ok : bool then StatusOK else StatusInternalServerError)
    else Ret StatusBadRequest.

Definition maxGrantDays : Z := 730.
Definition grantKinds (kind : string) : list string :=
  if (kind =? EntitlementBoth)%string then [EntitlementByon; EntitlementRouteOnly] else [kind].

(** [Grant] and [Revoke] of an entitlement (entitlement.go). *)
Definition Grant (u actor kind : string) (days : Z) : program Z :=
  let kind := TrimSpace (ToLower kind) in
  if negb (existsb (String.eqb kind) [EntitlementByon; EntitlementRouteOnly; EntitlementBoth]) then Ret StatusBadRequest
  else if (days <? 1) || (maxGrantDays <? days) then Ret StatusBadRequest
  else
    usr ← call (GetUserByID u);
    if negb (set usr) then Ret StatusNotFound
    else
      now ← call Now;
      ok ← each_ok (grantKinds kind) (fun k => call (SetUserManualEntitlementKind u k (Some (now + days * 24 * Hour)) actor));
      Ret (if ok : bool then StatusOK else StatusInternalServerError).

Definition Revoke (u kind : string) : program Z :=
  let kind := TrimSpace (ToLower kind) in
  if (kind =? "")%string then
    ok ← call (SetUserManualEntitlement u "" None "");
    Ret (if ok : bool then StatusOK else StatusInternalServerError)
  else if existsb (String.eqb kind) [EntitlementByon; EntitlementRouteOnly] then
    ok ← call (SetUserManualEntitlementKind u kind None "");
    Ret (if ok : bool then StatusOK else StatusInternalServerError)
  else Ret StatusBadRequest.

(** [SetBillingOverrides] (billing.go). *)
Definition SetBillingOverrides (u gracePeriod r2Retention nodeRetention : string) (r2QuotaGB : option Z) : program Z :=
  if existsb (fun spec => negb (spec =? "")%string && negb (ValidRetentionSpec spec)) [gracePeriod; r2Retention; nodeRetention]
  then Ret StatusBadRequest
  else if match r2QuotaGB with Some q => q <? 0 | None => false end then Ret StatusBadRequest
  else
    ok ← call (SetUserBillingOverrides u gracePeriod r2Retention nodeRetention r2QuotaGB);
    Ret (if ok : bool then StatusOK else StatusInternalServerError).
End lifecycle_service.

(** ** Parts by the calls they make

    [asks] are queries and mail, [acts] also what reaches servers, tunnels and
    peers: neither writes a billing row, a link of the Hub or an archive. *)

Definition asks (c : op) : bool :=
  match c with
  | Now | GetUserBilling _ | ListUserBillingByStatus _ | ListUserBilling | GetSetting _ | GetUserByID _ | QueryServersByOwner _
  | GetNodeByID _ | ListNodesByOwner _ | ListWarpAPIKeysByOwner _ | ListAllWarpAPIKeysByOwner _ | CountNodesByOwner _
  | CountPendingNodeEnrollTokens _ | CountNodeWarpKeysByOwner _ | CountLinkKitsByOwner _ | GetGatewayRouteLimit _
  | ListBackupRunsByOwner _ | GetBackupStorage _ | GetDefaultBackupStorage | GetUserDefaultBackupStorage _ | GetUserStoragePrefs _
  | ListTemplateIDsByOwner _ | GetTemplate _ | OpenStorage _ | GetRoutesFromRedis | BumpAccessEpoch _ | PublishDesiredState _ _
  | LoadMailer | SendMail _ _ | IsLeader => true
  | _ => false
  end.

Definition acts (c : op) : bool :=
  asks c || match c with
            | UpdateServerDesiredState _ _ | UpdateServerStatus _ _ | SendCommand _ _ _ | RedisDel _ | RedisSet _ _
            | DisconnectKeyPeers _ => true
            | _ => false
            end.

Create HintDb parts.
Ltac parts_tac := only_tac ltac:(first [reflexivity|solve [auto 1 with parts nocore]]).
Notation asking := (only (fun c => asks c = true)).
Notation acting := (only (fun c => acts c = true)).

Lemma effectiveSpec_asks o k d : asking (effectiveSpec o k d).
Proof. unfold effectiveSpec. parts_tac. Qed.
Lemma addressee_asks u : asking (addressee u).
Proof. unfold addressee. parts_tac. Qed.
Lemma any_byon_up_asks l : asking (any_byon_up l).
Proof. induction l as [|srv l IH]; [done|]. cbn [any_byon_up]. parts_tac. Qed.
Lemma route_limit_asks l : asking (route_limit l).
Proof. induction l as [|x l IH]; [done|]. cbn [route_limit]. parts_tac. Qed.
Lemma linkKits_asks u : asking (linkKitsForUser u).
Proof. unfold linkKitsForUser. parts_tac. Qed.
Lemma ResolveJobStorage_asks id o : asking (ResolveJobStorage id o).
Proof. unfold ResolveJobStorage, platform_default. parts_tac. Qed.
#[export] Hint Resolve effectiveSpec_asks addressee_asks any_byon_up_asks route_limit_asks linkKits_asks ResolveJobStorage_asks : parts.

Section parts.
Context (s : service).
Lemma sendSuspendedEmail_asks u held : asking (sendSuspendedEmail s u held).
Proof. unfold sendSuspendedEmail, backupRetentionText, paymentURL. parts_tac. Qed.
Lemma sendDunningEmail_asks u t : asking (sendDunningEmail s u t).
Proof. unfold sendDunningEmail, backupRetentionText, paymentURL. parts_tac. Qed.
Lemma sendOverLimitEmail_asks u us d : asking (sendOverLimitEmail s u us d).
Proof. unfold sendOverLimitEmail. parts_tac. Qed.
Lemma byonServersStillUp_asks u : asking (byonServersStillUp u).
Proof. unfold byonServersStillUp, ListServersByOwner. parts_tac. Qed.
Lemma tenantUsageFor_asks u : asking (tenantUsageFor s u).
Proof. unfold tenantUsageFor, count_routes. parts_tac. Qed.

Lemma asks_acts {A} (p : program A) : asking p -> acting p.
Proof. apply only_mono. intros c Hc. unfold acts. by rewrite Hc. Qed.
Lemma stopTenantServers_acts u : acting (stopTenantServers s u).
Proof. unfold stopTenantServers, ListServersByOwner, stop_server. parts_tac. Qed.
Lemma suspendTenantLinks_acts u : acting (suspendTenantLinks s u).
Proof. unfold suspendTenantLinks, linkKitsForUser. parts_tac. Qed.
Lemma reactivateTenantLinks_acts u : acting (reactivateTenantLinks s u).
Proof. unfold reactivateTenantLinks, linkKitsForUser. parts_tac. Qed.
Lemma suspendTenantWarpPeers_acts u : acting (suspendTenantWarpPeers s u).
Proof. unfold suspendTenantWarpPeers. parts_tac. Qed.
End parts.
#[export] Hint Resolve sendSuspendedEmail_asks sendDunningEmail_asks sendOverLimitEmail_asks byonServersStillUp_asks tenantUsageFor_asks
  stopTenantServers_acts suspendTenantLinks_acts reactivateTenantLinks_acts suspendTenantWarpPeers_acts : parts.
