(* ===== verification/LifecyclePolicy.v ===== *)
(** * What the hourly pass may do (over [Lifecycle.runOnce])

    Whatever the database, Redis, the Hub, the nodes and object storage
    answer, the pass deletes only what retention allows and cuts off only
    tenants it has read to be cut off, each act justified by answers of the
    same pass. The storage of a backup is the platform's or its owner's. The
    answers are arbitrary but for the WHERE clauses of the three queries named
    in [possible]. *)

From Stdlib Require Import Ascii String.
From S2P Require Import Prelude GoStrings Schedule Programs Billing Lifecycle.
Open Scope string_scope.
Open Scope list_scope.
Open Scope Z_scope.

Notation history := (list (event ans)).
Definition seen (h : history) (c : op) (a : ans c) : Prop := Ev c a ∈ h.

(** What the WHERE clause of a query leaves possible. *)
Definition possible (c : op) : ans c -> Prop :=
  match c with
  | ListUserBillingByStatus status => fun a => forall l, a = Some l -> Forall (fun b => Status b = status) l
  | GetDefaultBackupStorage => fun a => forall bs, a = Some (Some bs) -> bs_OwnerID bs = None
  | GetUserDefaultBackupStorage u => fun a => forall bs, a = Some (Some bs) -> bs_OwnerID bs = Some u
  | _ => fun _ => True
  end.

Section policy.
Context (s : service).

(** ** What justifies an act *)

(** What a retention reads as, counted from an instant, is over; a number of
    days, weeks or months the calendar cannot hold is not spoken of. *)
Definition run_out (at_ : Z) (spec : string) (now : Z) : Prop :=
  exists n unit, reads_as spec n unit /\ (in_calendar at_ -> n <= max_retention -> retention_end at_ n unit <= now).

(** The pass listed the tenant as suspended for payment, with no hold, and
    their retention has run out. *)
Definition expired (h : history) (u : string) : Prop :=
  exists l b now at_ setting,
    seen h (ListUserBillingByStatus "suspended") (Some l) /\ b ∈ l /\ UserID b = u /\ Status b = "suspended" /\
    AdminHold b = false /\ SuspendedAt b = Some at_ /\
    (ValidRetentionSpec (R2Retention b) = false -> seen h (GetSetting BillingR2RetentionKey) setting) /\
    run_out at_ (Billing.effectiveSpec (R2Retention b) setting DefaultR2Retention) now /\ seen h Now now.

(** An archive of the tenant, with the storage of ours it was written to. *)
Definition archive_of (h : history) (u : string) (ref : BackupRunRef) (bs : BackupStorage) : Prop :=
  (exists refs, seen h (ListBackupRunsByOwner u) (Some refs) /\ ref ∈ refs) /\ bs_OwnerID bs = None /\
  match StorageID ref with
  | Some id => seen h (GetBackupStorage id) (Some (Some bs))
  | None => seen h GetDefaultBackupStorage (Some (Some bs))
  end.

(** A personal template of the tenant on our storage. *)
Definition template_of (h : history) (u : string) (id : Z) (t : Template) : Prop :=
  (exists ids, seen h (ListTemplateIDsByOwner u) (Some ids) /\ id ∈ ids) /\
  seen h (GetTemplate id) (Some (Some t)) /\ t_BackupStorageID t = None /\ t_Visibility t = "personal".

Definition deletes (h : history) (c : op) : Prop :=
  match c with
  | ProviderDelete bs key => exists u ref, expired h u /\ archive_of h u ref bs /\ StorageKey ref = key
  | DeleteBackupRun id =>
      exists u ref bs, expired h u /\ archive_of h u ref bs /\ RunID ref = id /\ seen h (ProviderDelete bs (StorageKey ref)) true
  | templateFiles t => exists u id, expired h u /\ template_of h u id t
  | DeleteTemplate id => exists u t, expired h u /\ template_of h u id t /\ seen h (templateFiles t) true
  | AbortMultipart _ _ _ => False
  | _ => True
  end.

(** The pass listed the tenant as cut off: suspended past the grace or held,
    or over the limit past its grace. *)
Definition cut_off (h : history) (u : string) : Prop :=
  (exists l b now, seen h (ListUserBillingByStatus "suspended") (Some l) /\ b ∈ l /\ UserID b = u /\ Status b = "suspended" /\
     seen h Now now /\ (AdminHold b = true \/ elapsed (SuspendedAt b) (suspendGrace s) now = true)) \/
  (exists l b now, seen h ListUserBilling (Some l) /\ b ∈ l /\ UserID b = u /\ Status b <> "suspended" /\
     seen h Now now /\ elapsed (OverLimitSince b) OverLimitGrace now = true).

(** A server of a tenant who is cut off. *)
Definition server_of (h : history) (r : server_row) : Prop :=
  exists u rows, cut_off h u /\ seen h (QueryServersByOwner u) (Some rows) /\ r ∈ rows.

(** A read of the tenant's own row that says to have the links [enabled]. *)
Definition links_due (h : history) (u : string) (enabled : bool) : Prop :=
  exists b, seen h (GetUserBilling u) (Some b) /\ NodeLinksOff b = enabled /\
    if enabled then Status b <> "suspended" /\ exists now, seen h Now now /\ OwnerCutOff (Some b) (suspendGrace s) OverLimitGrace now = false
    else Status b = "suspended" \/ exists now, seen h Now now /\ OwnerCutOff (Some b) (suspendGrace s) OverLimitGrace now = true.

Definition links_told (h : history) (u : string) (enabled : bool) : Prop :=
  exists nodes, seen h (ListNodesByOwner u) (Some nodes) /\
    forall n t, n ∈ nodes -> t ∈ node_tokens s n -> seen h (SetNodeLinkEnabled t enabled) true.

(** What the pass counted of a tenant, by the answers it was given: the rows of
    theirs, the limits and the plan in their billing row, the ceiling of their
    addresses and the addresses of theirs on our domains. *)
Definition measured (h : history) (u : string) (us : tenantUsage) : Prop :=
  exists b now lim ent nodes tokens keys kits used routeLimit routes,
    seen h (GetUserBilling u) b /\ seen h Now now /\ EffectiveLimits b now = Some lim /\
    (exists usr b' now', let admin := match usr with Some usr => us_IsAdmin usr | None => false end in
       seen h (GetUserByID u) usr /\ seen h Now now' /\ (admin = false -> seen h (GetUserBilling u) b') /\
       EffectiveEntitlement b' now' (storeEnabled s) admin = Some ent) /\
    seen h (CountNodesByOwner u) (Some nodes) /\ seen h (CountPendingNodeEnrollTokens u) (Some tokens) /\
    seen h (CountNodeWarpKeysByOwner u) (Some keys) /\ seen h (CountLinkKitsByOwner u) (Some kits) /\
    NodeSlotsUsed (Some nodes) (Some tokens) (Some keys) = Some used /\
    (seen h (GetGatewayRouteLimit ("admin:" +:+ u)) (Some routeLimit) \/
     seen h (GetGatewayRouteLimit ("admin:" +:+ u)) None /\
     (seen h (GetGatewayRouteLimit ("user:" +:+ u)) (Some routeLimit) \/
      seen h (GetGatewayRouteLimit ("user:" +:+ u)) None /\ routeLimit = None)) /\
    (if has_redis s
     then exists raw all, seen h (GetSetting HosterDomainsSettingKey) raw /\ seen h GetRoutesFromRedis all /\
       routes = Z.of_nat (List.length (List.filter (fun rt => (rt_OwnerID rt =? u)%string &&
         DomainIsOurs (rt_Domain rt) (HosterBaseDomains raw (unmarshalDomains s raw))) all))
     else routes = 0) /\
    us = usage_of lim ent used kits routes routeLimit.

(** The clock of a tenant over the limit starts at the time the pass read, when
    it had not run and they were counted over, and is put back when they were
    counted and are not. *)
Definition clock_due (h : history) (u : string) (v : option Z) : Prop :=
  exists l b us now, seen h ListUserBilling (Some l) /\ b ∈ l /\ UserID b = u /\ Status b <> "suspended" /\ seen h Now now /\
    measured h u us /\
    match v with
    | Some t => t = now /\ OverLimitSince b = None /\ over us = true
    | None => is_Some (OverLimitSince b) /\ over us = false
    end.

Definition cuts (h : history) (c : op) : Prop :=
  match c with
  | SetUserOverLimitSince u v => clock_due h u v
  | UpdateServerDesiredState id state => state = "stopped" /\ exists r, server_of h r /\ sr_ID r = id
  | UpdateServerStatus id status =>
      status = "stopping" /\ exists r, server_of h r /\ sr_ID r = id /\ seen h (UpdateServerDesiredState id "stopped") true
  | SendCommand token action uuid =>
      action = "stop" /\ exists r n, server_of h r /\ sr_UUID r = uuid /\ running (sr_Status r) = true /\
        seen h (GetNodeByID (sr_NodeID r)) (Some n) /\ n_Token n = token /\
        seen h (UpdateServerDesiredState (sr_ID r) "stopped") true
  | RedisDel keys =>
      exists u ks k, cut_off h u /\ seen h (ListWarpAPIKeysByOwner u) (Some ks) /\ k ∈ ks /\ HasPrefix (k_NodeID k) "link-" = true /\
        keys = ["link:" +:+ LinkToken s (k_NodeID k); "online_link:" +:+ LinkToken s (k_NodeID k)]
  | DisconnectKeyPeers id => exists u ks k, cut_off h u /\ seen h (ListAllWarpAPIKeysByOwner u) (Some ks) /\ k ∈ ks /\ k_ID k = id
  | SetNodeLinkEnabled token enabled =>
      exists u nodes n, links_due h u enabled /\ seen h (ListNodesByOwner u) (Some nodes) /\ n ∈ nodes /\ token ∈ node_tokens s n
  | MarkNodeLinksOff u => links_due h u false /\ links_told h u false
  | ClearNodeLinksOff u => links_due h u true /\ links_told h u true
  | SetUserBillingStatusIf u status graceUntil at_ from =>
      status = "suspended" /\ graceUntil = None /\ from = Some ["past_due"] /\
      (exists now, at_ = Some now /\ seen h Now now) /\
      exists l b until now, seen h (ListUserBillingByStatus "past_due") (Some l) /\ b ∈ l /\ UserID b = u /\
        GraceUntil b = Some until /\ seen h Now now /\ until <= now
  | PlaceAdminHold _ _ | LiftAdminHold _ | SetUserBillingOverrides _ _ _ _ _ | SetUserPurchasedEntitlement _ _ _ _ _
  | SetUserBillingConsent _ _ _ | SetUserDataBillingEnabled _ _ | SetUserManualEntitlement _ _ _ _
  | SetUserManualEntitlementKind _ _ _ _ | RevokeWarpAPIKeyByNodeID _ | SetGatewayRouteLimit _ _ | DeleteGatewayRouteLimit _
  | DeleteCoreOwnedRoute _ | GoDropPeersAfter _ _ _ | RedisSet _ _ => False
  | _ => True
  end.

Definition allowed (h : history) (c : op) : Prop := deletes h c /\ cuts h c.

(** ** The parts of the pass *)

Local Notation tr h p Q := (traced possible allowed h p Q).
Local Notation any := (fun _ _ => True).

Lemma seen_app h l c a : seen h c a -> seen (l ++ h) c a.
Proof. unfold seen. intros H. apply elem_of_app. by right. Qed.

Lemma expired_app h l u : expired h u -> expired (l ++ h) u.
Proof.
  intros (x & b & now & at_ & v & H). exists x, b, now, at_, v. naive_solver eauto using seen_app.
Qed.

Lemma cut_off_app h l u : cut_off h u -> cut_off (l ++ h) u.
Proof.
  intros [(x & b & now & H)|(x & b & now & H)]; [left|right]; exists x, b, now; naive_solver eauto using seen_app.
Qed.

Lemma each_traced {A} h (l : list A) f :
  (forall k x, x ∈ l -> tr (k ++ h) (f x) any) -> tr h (each l f) any.
Proof.
  revert h. induction l as [|x l IH]; intros h H; [done|]. cbn [each].
  eapply traced_part; [apply (H [] x); set_solver|]. intros k [] _. apply IH. intros k' y Hy.
  rewrite app_assoc. apply H. set_solver.
Qed.

Lemma call_traced {A} h c (k : ans c -> program A) Q :
  allowed h c -> (forall a, possible c a -> tr (Ev c a :: h) (k a) Q) -> tr h (call c ≫= k) Q.
Proof. apply traced_call. Qed.

Lemma asks_allowed h c : asks c = true -> allowed h c.
Proof. by destruct c. Qed.

(** A call no clause speaks of. *)
Lemma free_call {A} h c (k : ans c -> program A) Q :
  asks c = true -> (forall a, possible c a -> tr (Ev c a :: h) (k a) Q) -> tr h (call c ≫= k) Q.
Proof. intros Hc. apply call_traced. by apply asks_allowed. Qed.
End policy.

Lemma asking_traced {A} s h (p : program A) : asking p -> traced possible (allowed s) h p (fun _ _ => True).
Proof. apply only_traced. intros h' c Hc. by apply asks_allowed. Qed.

Section parts.
Context (s : service).
Local Notation tr h p Q := (traced possible (allowed s) h p Q).
Local Notation any := (fun _ _ => True).

Ltac ev_in := first [eassumption|apply list_elem_of_here|apply list_elem_of_further; ev_in|apply elem_of_app; right; ev_in].
Ltac saw := unfold seen in *; ev_in.
Ltac ask c := apply (free_call s _ c); [reflexivity|].

Lemma quiet {A B} h (p : program A) (f : A -> program B) :
  asking p -> (forall l a, tr (l ++ h) (f a) any) -> tr h (p ≫= f) any.
Proof. intros Hp Hf. eapply traced_part; [by apply asking_traced|]. intros l a _. apply Hf. Qed.

Lemma promote_one_traced h l b now :
  seen h (ListUserBillingByStatus "past_due") (Some l) -> b ∈ l -> seen h Now now -> tr h (promote_one s now b) any.
Proof.
  intros Hl Hb Hn. unfold promote_one. destruct (GraceUntil b) as [until|] eqn:Eg; [|done].
  destruct (Z.ltb_spec now until); [done|]. eapply traced_part with (P := any); [|done]. unfold suspend.
  ask (GetUserBilling (UserID b)). intros r _. destruct (match r with Some b => _ | None => false end); [done|].
  ask Now. intros n _. apply (call_traced s).
  - split; [done|]. cbn. split_and!; try done; [exists n; split; [done|saw]|]. exists l, b, until, now. split_and!; try done; saw.
  - intros [wrote|] _; [|done]. destruct (negb wrote || _); [done|]. apply quiet; [auto with parts|done].
Qed.

Lemma stop_server_traced h u rows r :
  cut_off s h u -> seen h (QueryServersByOwner u) (Some rows) -> r ∈ rows -> tr h (stop_server s (scan_server r)) any.
Proof.
  intros Hc Hq Hr. unfold stop_server. apply quiet; [parts_tac|]. intros l0 _.
  assert (Hso : forall l, server_of s (l ++ h) r) by (intros l; exists u, rows; split_and!; [by apply cut_off_app|by apply seen_app|done]).
  destruct (_ && _); [done|]. ask (GetNodeByID (NodeID (scan_server r))). intros [n|] _; [|done].
  apply (call_traced s). { split; [done|]. split; [done|]. exists r. split; [apply (Hso (_ :: l0))|done]. }
  intros ok _. destruct ok; [|done]. cbn [negb]. apply quiet; [parts_tac|]. intros l1 _.
  destruct (running (ServerStatus (scan_server r))) eqn:Er; [|done]. cbn [negb].
  assert (Hso' : forall l, server_of s (l ++ l1 ++ Ev (UpdateServerDesiredState (ID (scan_server r)) "stopped") true ::
      Ev (GetNodeByID (NodeID (scan_server r))) (Some n) :: l0 ++ h) r).
  { intros l. replace (l ++ l1 ++ _) with ((l ++ l1 ++ [Ev (UpdateServerDesiredState (ID (scan_server r)) "stopped") true;
      Ev (GetNodeByID (NodeID (scan_server r))) (Some n)] ++ l0) ++ h) by (by rewrite <- !app_assoc). apply Hso. }
  apply (call_traced s). { split; [done|]. split; [done|]. exists r. split_and!; [apply (Hso' [])|done|saw]. }
  intros ok _. apply (call_traced s).
  { split; [done|]. split; [done|]. exists r, n. split_and!; try done; [apply (Hso' [_])|saw|saw]. }
  done.
Qed.

Lemma stopTenantServers_traced h u : cut_off s h u -> tr h (stopTenantServers s u) any.
Proof.
  intros Hc. unfold stopTenantServers, ListServersByOwner. apply traced_bind. ask (QueryServersByOwner u). intros [rows|] _; [|done].
  cbn. apply each_traced. intros k srv Hs. apply list_elem_of_fmap in Hs as (r & -> & Hr).
  eapply stop_server_traced; [|apply seen_app; saw|exact Hr]. apply cut_off_app. by apply (cut_off_app _ _ [_]).
Qed.

Lemma suspendTenantLinks_traced h u : cut_off s h u -> tr h (suspendTenantLinks s u) any.
Proof.
  intros Hc. unfold suspendTenantLinks, linkKitsForUser. destruct (_ || _); [done|]. apply traced_bind.
  ask (ListWarpAPIKeysByOwner u). intros r _. cbn. apply each_traced. intros k id Hid. destruct r as [ks|]; [|by apply elem_of_nil in Hid].
  apply list_elem_of_fmap in Hid as (key & -> & Hk). apply list_elem_of_In, filter_In in Hk as [Hk Hp]. apply list_elem_of_In in Hk.
  apply (call_traced s); [|done]. split; [done|]. exists u, ks, key. split_and!; try done; [|apply seen_app; saw].
  apply cut_off_app. by apply (cut_off_app _ _ [_]).
Qed.

Lemma suspendTenantWarpPeers_traced h u : cut_off s h u -> tr h (suspendTenantWarpPeers s u) any.
Proof.
  intros Hc. unfold suspendTenantWarpPeers. destruct (negb _); [done|]. ask (ListAllWarpAPIKeysByOwner u).
  intros [ks|] _; [|done]. apply each_traced. intros k key Hk. apply (call_traced s); [|done]. split; [done|].
  exists u, ks, key. split_and!; try done; [|apply seen_app; saw]. apply cut_off_app. by apply (cut_off_app _ _ [_]).
Qed.

(** A loop that went to its end did all of its items. *)
Lemma each_ok_traced {A} (P : history -> A -> Prop) h (l : list A) f :
  (forall h k x, P h x -> P (k ++ h) x) ->
  (forall k x, x ∈ l -> tr (k ++ h) (f x) (fun h' ok => ok = true -> P h' x)) ->
  tr h (each_ok l f) (fun h' ok => ok = true -> forall x, x ∈ l -> P h' x).
Proof.
  intros Hm. revert h. induction l as [|x l IH]; intros h H; [by intros _ x Hx%elem_of_nil|]. cbn [each_ok].
  eapply traced_part; [apply (H [] x); set_solver|]. intros k ok Hok. destruct ok; [|done].
  pose proof (traced_grows _ _ _ _ _ (IH (k ++ h) (fun k' y Hy => ltac:(rewrite app_assoc; apply H; set_solver)))) as Hg.
  eapply traced_mono; [| |exact Hg]; [by intros ? ? [_ ?]|]. intros h' ok' [[k' ->] Hall] Eok y Hy.
  apply elem_of_cons in Hy as [->|Hy]; [apply Hm; by apply Hok|by apply Hall].
Qed.

Lemma setTenantNodeLinks_traced h u enabled : tr h (setTenantNodeLinks s u enabled) any.
Proof.
  unfold setTenantNodeLinks. destruct (negb (has_gateway s)); [done|]. ask (GetUserBilling u). intros [b|] _; [|done].
  destruct (Bool.eqb (NodeLinksOff b) enabled) eqn:Eo; [|done]. cbn [negb]. apply eqb_prop in Eo.
  eapply traced_part with (P := fun h' cut => seen h' (GetUserBilling u) (Some b) /\
    if (Status b =? "suspended")%string then cut = true else exists now, seen h' Now now /\ cut = OwnerCutOff (Some b) (suspendGrace s) OverLimitGrace now).
  { destruct (Status b =? "suspended")%string; [split; [saw|done]|]. ask Now. intros now _. cbn. split; [saw|]. exists now. split; [saw|done]. }
  intros l cut [Hs Hcut]. destruct (Bool.eqb cut enabled) eqn:Ec; [done|]. apply eqb_false_iff in Ec.
  assert (Hdue : forall k, links_due s (k ++ l ++ Ev (GetUserBilling u) (Some b) :: h) u enabled).
  { intros k. exists b. split_and!; [by apply seen_app|done|].
    destruct (Status b =? "suspended")%string eqn:Es; to_prop.
    - subst cut. destruct enabled; [done|]. by left.
    - destruct Hcut as (now & Hn & ->). destruct enabled, (OwnerCutOff _ _ _ now) eqn:E; try done.
      + split; [done|]. exists now. split; [by apply seen_app|done].
      + right. exists now. split; [by apply seen_app|done]. }
  ask (ListNodesByOwner u). intros [nodes|] _; [|done].
  set (h0 := Ev (ListNodesByOwner u) (Some nodes) :: l ++ Ev (GetUserBilling u) (Some b) :: h) in *.
  assert (Hn : forall k, seen (k ++ h0) (ListNodesByOwner u) (Some nodes)) by (intros k; apply seen_app; unfold h0; saw).
  assert (Hd : forall k, links_due s (k ++ h0) u enabled).
  { intros k. unfold h0. replace (k ++ Ev (ListNodesByOwner u) (Some nodes) :: _) with ((k ++ [Ev (ListNodesByOwner u) (Some nodes)]) ++ l ++ Ev (GetUserBilling u) (Some b) :: h) by (by rewrite <- app_assoc). apply Hdue. }
  clearbody h0. eapply traced_part.
  - apply (each_ok_traced (fun h' n => forall t, t ∈ node_tokens s n -> seen h' (SetNodeLinkEnabled t enabled) true)).
    { intros h1 k n H t Ht. apply seen_app. by apply H. }
    intros k n Hnn. apply (each_ok_traced (fun h' t => seen h' (SetNodeLinkEnabled t enabled) true)).
    { intros h1 k1 t. apply seen_app. }
    intros k1 t Ht. split; [|intros a _ ->; saw]. split; [done|]. exists u, nodes, n.
    rewrite app_assoc. split_and!; [apply Hd|apply Hn|done|done].
  - intros k ok Hok. destruct ok; [|done].
    assert (Ht : links_told s (k ++ h0) u enabled) by (exists nodes; split; [apply Hn|]; intros n t H1 H2; by apply (Hok eq_refl n H1)).
    destruct enabled; (apply (call_traced s); [split; [done|split; [apply Hd|exact Ht]]|done]).
Qed.

Lemma drop_traced h u cutoff now : cut_off s h u -> tr h (dropWarpPeersOnceStopped s u cutoff now) any.
Proof.
  intros Hc. unfold dropWarpPeersOnceStopped. apply quiet.
  { destruct (_ <? _); [auto with parts|done]. }
  intros l up. destruct up; [done|].
  eapply traced_part; [apply suspendTenantWarpPeers_traced; by apply cut_off_app|]. intros k [] _. apply setTenantNodeLinks_traced.
Qed.

(** The three steps of a cutoff. *)
Lemma cutoff_traced h u cutoff now : cut_off s h u ->
  tr h (_ ← stopTenantServers s u; _ ← suspendTenantLinks s u; dropWarpPeersOnceStopped s u cutoff now) any.
Proof.
  intros Hc. eapply traced_part; [by apply stopTenantServers_traced|]. intros l [] _.
  eapply traced_part; [apply suspendTenantLinks_traced; by apply cut_off_app|]. intros k [] _.
  apply drop_traced. by do 2 apply cut_off_app.
Qed.

Lemma enforceSuspensions_traced h : tr h (enforceSuspensions s) any.
Proof.
  unfold enforceSuspensions. ask (ListUserBillingByStatus "suspended"). intros [l|] Hp; [|done]. cbn in Hp.
  specialize (Hp l eq_refl). rewrite Forall_forall in Hp. ask Now. intros now _.
  apply each_traced. intros k b Hb. unfold enforce_one.
  destruct (negb (AdminHold b) && negb (elapsed (SuspendedAt b) (suspendGrace s) now)) eqn:E; [done|].
  apply cutoff_traced. left. exists l, b, now. split_and!; try done; [apply seen_app; saw|by apply Hp|apply seen_app; saw|].
  destruct (AdminHold b); [by left|]. right. cbn in E. by apply negb_false_iff in E.
Qed.

Lemma route_limit_traced h u : tr h (route_limit ["admin:" +:+ u; "user:" +:+ u]) (fun h' n =>
  seen h' (GetGatewayRouteLimit ("admin:" +:+ u)) (Some n) \/
  seen h' (GetGatewayRouteLimit ("admin:" +:+ u)) None /\
    (seen h' (GetGatewayRouteLimit ("user:" +:+ u)) (Some n) \/ seen h' (GetGatewayRouteLimit ("user:" +:+ u)) None /\ n = None)).
Proof.
  cbn [route_limit]. ask (GetGatewayRouteLimit ("admin:" +:+ u)). intros [n|] _; [left; saw|].
  ask (GetGatewayRouteLimit ("user:" +:+ u)). intros [n|] _; right; (split; [saw|]); [left; saw|right; split; [saw|done]].
Qed.

Lemma count_routes_traced h u : tr h (count_routes s u) (fun h' routes =>
  if has_redis s
  then exists raw all, seen h' (GetSetting HosterDomainsSettingKey) raw /\ seen h' GetRoutesFromRedis all /\
    routes = Z.of_nat (List.length (List.filter (fun rt => (rt_OwnerID rt =? u)%string &&
      DomainIsOurs (rt_Domain rt) (HosterBaseDomains raw (unmarshalDomains s raw))) all))
  else routes = 0).
Proof.
  unfold count_routes. destruct (has_redis s); cbn [negb]; [|done].
  ask (GetSetting HosterDomainsSettingKey). intros raw _. ask GetRoutesFromRedis. intros all _.
  exists raw, all. split_and!; [saw|saw|done].
Qed.

Lemma usage_traced h u : tr h (tenantUsageFor s u) (fun h' r => forall us, r = Some us -> measured s h' u us).
Proof.
  unfold tenantUsageFor. ask (GetUserBilling u). intros [b|] _; cbn [set]; [|done].
  ask Now. intros now _. destruct (EffectiveLimits (Some b) now) as [lim|] eqn:El; [|done].
  ask (GetUserByID u). intros usr _. ask Now. intros now' _. set (admin := match usr with Some usr => us_IsAdmin usr | None => false end).
  match goal with |- traced _ _ ?h0 (mbind _ ?p) _ =>
    assert (Hb : tr h0 p (fun h' b' => admin = false -> seen h' (GetUserBilling u) b')) end.
  { destruct admin; [done|]. split; [by apply asks_allowed|]. intros b' _ _. saw. }
  eapply traced_part; [exact Hb|]. clear Hb. intros l b' Hb'.
  destruct (EffectiveEntitlement b' now' (storeEnabled s) admin) as [ent|] eqn:Ee; [|done].
  ask (CountNodesByOwner u). intros [nodes|] _; cbn [set negb]; [|done].
  ask (CountPendingNodeEnrollTokens u). intros [tokens|] _; cbn [set negb]; [|done].
  ask (CountNodeWarpKeysByOwner u). intros [keys|] _; cbn [set]; [|by cbn].
  ask (CountLinkKitsByOwner u). intros [kits|] _; [|by destruct (NodeSlotsUsed _ _ _)].
  destruct (NodeSlotsUsed (Some nodes) (Some tokens) (Some keys)) as [used|] eqn:Eu; [|done].
  eapply traced_part; [apply route_limit_traced|]. intros l1 rl Hrl. eapply traced_part; [apply count_routes_traced|]. intros l2 routes Hrt us [= <-].
  exists (Some b), now, lim, ent, nodes, tokens, keys, kits, used, rl, routes. split_and!; try done; [saw|saw| |saw|saw|saw|saw|].
  - exists usr, b', now'. split_and!; [saw|saw| |done]. intros E. specialize (Hb' E). saw.
  - destruct Hrl as [H|[H1 [H2|[H2 H3]]]]; [left; saw|right; split; [saw|left; saw]|right; split; [saw|right; split; [saw|done]]].
Qed.

Lemma enforceEntitlementLimits_traced h : tr h (enforceEntitlementLimits s) any.
Proof.
  unfold enforceEntitlementLimits. ask ListUserBilling. intros [l|] _; [|done]. ask Now. intros now _.
  apply each_traced. intros k b Hb. unfold limit_one. destruct (Status b =? "suspended")%string eqn:Es; [done|].
  eapply traced_part; [apply usage_traced|]. intros k1 [us|] Hus; [|done]. specialize (Hus us eq_refl). destruct (over us) eqn:Eov; cbn [negb].
  2: { destruct (OverLimitSince b) as [since|] eqn:Eo; cbn [set]; [|done]. apply (call_traced s); [|done]. split; [done|].
    exists l, b, us, now. to_prop. rewrite Eo. split_and!; try done; [do 2 apply seen_app; saw|do 2 apply seen_app; saw]. }
  destruct (OverLimitSince b) as [since|] eqn:Eo.
  - destruct (Z.ltb_spec now (since + OverLimitGrace)); [done|]. apply cutoff_traced. right. exists l, b, now.
    to_prop. split_and!; try done; [do 2 apply seen_app; saw|do 2 apply seen_app; saw|]. rewrite Eo. cbn. apply Z.leb_le. lia.
  - apply (call_traced s).
    { split; [done|]. exists l, b, us, now. to_prop. split_and!; try done; [do 2 apply seen_app; saw|do 2 apply seen_app; saw]. }
    intros [] _; [|done]. apply asking_traced; auto with parts.
Qed.

Lemma restoreNodeLinks_traced h : tr h (restoreNodeLinks s) any.
Proof.
  unfold restoreNodeLinks. ask ListUserBilling. intros [l|] _; [|done]. ask Now. intros now _.
  apply each_traced. intros k b Hb. destruct (_ && _); [apply setTenantNodeLinks_traced|done].
Qed.

(** The storage of an archive, resolved without an owner. *)
Lemma resolve_traced h ref : tr h (ResolveJobStorage (StorageID ref) "")
  (fun h' r => match r with
               | inl bs => match StorageID ref with
                           | Some id => seen h' (GetBackupStorage id) (Some (Some bs)) /\ (bs_OwnerID bs = None \/ bs_OwnerID bs = Some "")
                           | None => seen h' GetDefaultBackupStorage (Some (Some bs))
                           end
               | inr _ => True
               end).
Proof.
  unfold ResolveJobStorage, platform_default. destruct (StorageID ref) as [id|]; cbn.
  - split; [by apply asks_allowed|]. intros [[bs|]|] _; cbn; try done. destruct (bs_OwnerID bs) as [o|] eqn:E.
    + destruct (o =? "")%string eqn:Eo; [|done]. to_prop. subst o. split; [saw|]. by right.
    + split; [saw|by left].
  - split; [by apply asks_allowed|]. intros [[bs|]|] _; cbn; try done. saw.
Qed.

Lemma delete_run_traced h u refs ref :
  expired h u -> seen h (ListBackupRunsByOwner u) (Some refs) -> ref ∈ refs -> tr h (delete_run ref) any.
Proof.
  intros He Hl Hr. unfold delete_run. eapply traced_part; [apply resolve_traced|]. intros l [bs|e] Hb; [|done].
  destruct (bs_OwnerID bs) as [o|] eqn:Eo; [done|]. cbn [set].
  assert (Ha : forall k, archive_of (k ++ l ++ h) u ref bs).
  { intros k. split_and!; [exists refs; split; [by do 2 apply seen_app|done]|done|].
    destruct (StorageID ref); [destruct Hb as [Hb _]|]; by apply seen_app. }
  ask (OpenStorage bs). intros [] _; [|done]. cbn [negb]. apply (call_traced s).
  { split; [|done]. exists u, ref. split_and!; [apply (expired_app _ [_]); by apply expired_app|apply (Ha [_])|done]. }
  intros gone _. destruct gone; [|done]. cbn [negb]. apply (call_traced s); [|done].
  split; [|done]. exists u, ref, bs. split_and!; [|apply (Ha [_; _])|done|saw].
  apply (expired_app _ [_; _]). by apply expired_app.
Qed.

Lemma deleteTenantBackups_traced h u : expired h u -> tr h (deleteTenantBackups u) any.
Proof.
  intros He. unfold deleteTenantBackups. ask (ListBackupRunsByOwner u). intros [refs|] _; [|done].
  apply each_traced. intros k ref Hr. eapply delete_run_traced; [|apply seen_app; saw|exact Hr].
  apply expired_app. by apply (expired_app _ [_]).
Qed.

Lemma deleteTenantTemplates_traced h u : expired h u -> tr h (deleteTenantTemplates s u) any.
Proof.
  intros He. unfold deleteTenantTemplates. destruct (negb _); [done|]. ask (ListTemplateIDsByOwner u). intros [ids|] _; [|done].
  apply each_traced. intros k id Hid. unfold delete_template. ask (GetTemplate id). intros [[t|]|] _; try done.
  destruct (set (t_BackupStorageID t) || negb (t_Visibility t =? "personal")%string) eqn:E; [done|].
  apply orb_false_iff in E as [E1 E2]. apply negb_false_iff in E2. to_prop.
  assert (Ht : forall j, template_of (j ++ Ev (GetTemplate id) (Some (Some t)) :: k ++ Ev (ListTemplateIDsByOwner u) (Some ids) :: h) u id t).
  { intros j. split_and!; [exists ids; split; [|done]| |by destruct (t_BackupStorageID t)|done]; apply seen_app; saw. }
  assert (He' : forall j, expired (j ++ Ev (GetTemplate id) (Some (Some t)) :: k ++ Ev (ListTemplateIDsByOwner u) (Some ids) :: h) u).
  { intros j. apply expired_app, (expired_app _ [_]), expired_app. by apply (expired_app _ [_]). }
  apply (call_traced s). { split; [|done]. exists u, id. split; [apply (He' [])|apply (Ht [])]. }
  intros gone _. destruct gone; [|done]. cbn [negb]. apply (call_traced s); [|done].
  split; [|done]. exists u, t. split_and!; [apply (He' [_])|apply (Ht [_])|saw].
Qed.

Lemma cleanupExpiredR2_traced h : tr h (cleanupExpiredR2 s) any.
Proof.
  unfold cleanupExpiredR2. ask (ListUserBillingByStatus "suspended"). intros [l|] Hp; [|done]. cbn in Hp.
  specialize (Hp l eq_refl). rewrite Forall_forall in Hp. ask Now. intros now _.
  apply each_traced. intros k b Hb. unfold retain_one. destruct (SuspendedAt b) as [at_|] eqn:Ea; [|done].
  destruct (AdminHold b) eqn:Eh; [done|].
  eapply traced_part with (P := fun h' spec => exists v, spec = Billing.effectiveSpec (R2Retention b) v DefaultR2Retention /\
    (ValidRetentionSpec (R2Retention b) = false -> seen h' (GetSetting BillingR2RetentionKey) v)).
  { unfold effectiveSpec. destruct (ValidRetentionSpec (R2Retention b)) eqn:Ev0.
    - exists "". split; [|done]. unfold Billing.effectiveSpec. by rewrite Ev0.
    - ask (GetSetting BillingR2RetentionKey). intros v _. exists v. split; [done|]. intros _. saw. }
  intros k1 spec (v & -> & Hv). destruct (AddRetention at_ _) as [deadline|] eqn:Ed; [|done].
  destruct (Z.ltb_spec now deadline); [done|].
  match goal with |- traced _ _ ?hh _ _ => assert (He : expired hh (UserID b)) end.
  { exists l, b, now, at_, v. split_and!; try done; [do 2 apply seen_app; saw|by apply Hp| |do 2 apply seen_app; saw].
    destruct (AddRetention_reads _ _ _ Ed) as (n & unit & Hr & Hd). exists n, unit. split; [done|]. intros H1 H2. rewrite <- Hd by done. lia. }
  eapply traced_part; [by apply deleteTenantBackups_traced|]. intros k2 [] _. apply deleteTenantTemplates_traced. by apply expired_app.
Qed.

Lemma runOnce_traced : tr [] (runOnce s) any.
Proof.
  unfold runOnce. ask (ListUserBillingByStatus "past_due"). intros [l|] _; [|done]. ask Now. intros now _.
  eapply traced_part.
  { apply each_traced. intros k b Hb. eapply promote_one_traced; [|exact Hb|]; apply seen_app; saw. }
  intros k0 [] _. eapply traced_part; [apply enforceSuspensions_traced|]. intros k1 [] _.
  eapply traced_part; [apply enforceEntitlementLimits_traced|]. intros k2 [] _.
  eapply traced_part; [apply restoreNodeLinks_traced|]. intros k3 [] _. apply cleanupExpiredR2_traced.
Qed.
End parts.

(** ** The pass *)

(** C15: The pass deletes expired backups only. Whatever is answered: an archive is
    deleted only from a storage of ours, at the key the run recorded, for a
    tenant this pass listed as suspended with no operator's hold, when the days,
    weeks or calendar months that their override names, or else the setting of the
    platform or its default, are over, counted from their suspension; its row
    goes only after the storage confirmed the object gone. The same holds of
    their personal templates. This is so for numbers up to 2^40: the check of a
    spec accepts larger ones, with which the deadline can wrap around to before
    the suspension. *)
Theorem pass_deletes_only_expired (s : service) : traced possible deletes [] (runOnce s) (fun _ _ => True).
Proof. eapply traced_mono; [| |apply runOnce_traced]; [|done]. by intros h c [H _]. Qed.

(** C16: The pass cuts off only the cut off, and in order. Whatever is answered, a
    server is stopped, a link kit's tunnel dropped and a warp peer removed only
    for a tenant this pass listed as held, suspended past the grace or over the
    limit past its grace; a stop is sent to the server's own node, to a
    container that may run, after the desired state was written, so that the
    node's reconciler does not bring it back. The Hub is told about a node's
    links only after a read of the tenant's own row that calls for it, and the
    row is marked only when every link of every node was told. Tenants are
    promoted to suspended only from past due and with their grace over. The
    clock of a tenant who is not suspended starts at the time the pass read,
    when the row it listed has none and what it counted of theirs is over what
    their row allows, and is cleared only when the row has one and what it
    counted is not over. Of a tenant's billing row the pass writes nothing
    else. *)
Theorem pass_cuts_off_the_cut_off (s : service) : traced possible (cuts s) [] (runOnce s) (fun _ _ => True).
Proof. eapply traced_mono; [| |apply runOnce_traced]; [|done]. by intros h c [_ H]. Qed.

(** ** The storage of a backup *)

(** Whose storage a resolution may answer with. *)
Definition usable (ownerID : string) (bs : BackupStorage) : Prop := bs_OwnerID bs = None \/ bs_OwnerID bs = Some ownerID.
Definition answers (P : BackupStorage -> Prop) (r : BackupStorage + storage_error) : Prop :=
  match r with inl bs => P bs | inr _ => True end.

Section storages.
Context (G : history -> op -> Prop).
(** The calls of a resolution. *)
Definition reads_storage (c : op) : bool :=
  match c with GetUserStoragePrefs _ | GetBackupStorage _ | GetDefaultBackupStorage | GetUserDefaultBackupStorage _ => true | _ => false end.
Hypothesis reads : forall h c, reads_storage c = true -> G h c.
Local Notation tr h p Q := (traced possible G h p Q).

Lemma platform_default_platform h : tr h platform_default (fun _ => answers (fun bs => bs_OwnerID bs = None)).
Proof. unfold platform_default. apply traced_call; [by apply reads|]. intros [[bs|]|] H; cbn in *; try done. by apply H. Qed.

Lemma ResolveJobStorage_usable h id o : tr h (ResolveJobStorage id o) (fun _ => answers (usable o)).
Proof.
  assert (Hd : forall h, tr h platform_default (fun _ => answers (usable o))).
  { intros h0. eapply traced_mono; [| |apply platform_default_platform]; [done|]. intros _ [bs|e]; [|done]. by left. }
  unfold ResolveJobStorage. eapply traced_part with (P := fun _ _ => True).
  { destruct id; [done|]. destruct (o =? "")%string; [done|]. split; [by apply reads|done]. }
  intros l [[i|]|] _; [| |done].
  - apply traced_call; [by apply reads|]. intros [[bs|]|] _; cbn; try done. destruct (bs_OwnerID bs) as [x|] eqn:E; [|by left].
    destruct (x =? o)%string eqn:Ex; [|done]. to_prop. subst x. by right.
  - destruct (o =? "")%string; [apply Hd|]. apply traced_call; [by apply reads|].
    intros [[bs|]|] H; [|apply Hd|done]. cbn in *. right. by apply H.
Qed.

Lemma ResolveNewRunStorage_usable h id o own :
  tr h (ResolveNewRunStorage id o own) (fun _ => answers (fun bs => usable o bs /\ (own = false -> bs_OwnerID bs = None))).
Proof.
  assert (Hp : forall h, tr h (ResolveJobStorage None "") (fun _ => answers (fun bs => usable o bs /\ (own = false -> bs_OwnerID bs = None)))).
  { intros h0. change (ResolveJobStorage None "") with platform_default. eapply traced_mono; [| |apply platform_default_platform]; [done|]. intros _ [bs|e] H; [|done]. split; [by left|done]. }
  unfold ResolveNewRunStorage. destruct own.
  - eapply traced_mono; [| |apply ResolveJobStorage_usable]; [done|]. by intros _ [bs|e] H.
  - destruct id as [i|]; [|apply Hp]. eapply traced_part; [apply ResolveJobStorage_usable|]. intros l [bs|e] H; [|done].
    destruct (bs_OwnerID bs) as [x|] eqn:E; cbn [set]; [apply Hp|]. cbn. split; [by left|done].
Qed.

Lemma ResolveRunStorage_usable h run job o : tr h (ResolveRunStorage run job o) (fun _ => answers (usable o)).
Proof.
  unfold ResolveRunStorage. destruct (set run); [apply ResolveJobStorage_usable|]. destruct (set job); [apply ResolveJobStorage_usable|].
  eapply traced_mono; [| |apply platform_default_platform]; [done|]. intros _ [bs|e]; [|done]. by left.
Qed.
End storages.

(** What a purge may touch. *)
Definition purges (h : history) (c : op) : Prop :=
  match c with
  | ProviderDelete bs _ | AbortMultipart bs _ _ | OpenStorage bs => bs_OwnerID bs = None
  | _ => reads_storage c = true
  end.

Lemma purges_reads h c : reads_storage c = true -> purges h c.
Proof. by destruct c. Qed.

Lemma purge_traced h refs d k : traced possible purges h (PurgeBackupArchives refs d k) (fun _ r => r.1 + r.2 <= d + k + Z.of_nat (List.length refs)).
Proof.
  revert h d k. induction refs as [|ref refs IH]; intros h d k; [cbn; lia|]. cbn [PurgeBackupArchives List.length].
  destruct (_ =? "")%string; [eapply traced_mono; [| |apply IH]; [done|]; cbn; lia|].
  eapply traced_part with (P := fun _ _ => True).
  2: { intros l ok _. destruct ok; (eapply traced_mono; [| |apply IH]; [done|]; cbn; lia). }
  unfold purge_one. eapply traced_part; [apply ResolveJobStorage_usable, purges_reads|]. intros l [bs|e] _; [|done].
  unfold archiveIsOursToDelete. destruct (bs_OwnerID bs) as [o|] eqn:E; [done|]. cbn [set negb].
  apply traced_call; [done|]. intros opened _. destruct opened; [|done]. cbn [negb].
  eapply traced_part with (P := fun _ _ => True); [destruct (_ =? "")%string; [done|]; by split|]. intros l1 _ _. by split.
Qed.

(** C30: Backups stay with their owner. Whatever is answered, the storage a job, a
    run about to be written or a recorded run resolves to is the platform's or
    the owner's own, never another tenant's; with own storage switched off a
    new run goes to the platform's; and a purge opens, aborts on and deletes
    from the platform's storages alone. *)
Theorem backups_stay_with_their_owner (id job run : option Z) (o : string) (own : bool) (refs : list BackupRunRef) :
  traced possible (fun _ _ => True) [] (ResolveJobStorage id o) (fun _ => answers (usable o)) /\
  traced possible (fun _ _ => True) [] (ResolveRunStorage run job o) (fun _ => answers (usable o)) /\
  traced possible (fun _ _ => True) [] (ResolveNewRunStorage id o own)
    (fun _ => answers (fun bs => usable o bs /\ (own = false -> bs_OwnerID bs = None))) /\
  traced possible purges [] (PurgeBackupArchives refs 0 0) (fun _ r => r.1 + r.2 <= Z.of_nat (List.length refs)).
Proof.
  split_and!; [by apply ResolveJobStorage_usable|by apply ResolveRunStorage_usable|by apply ResolveNewRunStorage_usable|].
  eapply traced_mono; [| |apply purge_traced]; [done|]. cbn. lia.
Qed.
