(* ===== verification/AccountWorld.v ===== *)
(** * Accounts in a world of replicas (over Billing.v and Lifecycle.v)

    The database, the Hub, the object storage and the nodes as far as the
    lifecycle acts on them, and the programs of Lifecycle.v running against
    it: one at a time or many at once, call by call, each call answered,
    answered in vain or failed. First that every row stays well-typed under
    all of them; then what a pass on its own achieves; last, the runs in which
    a tenant is treated wrongly. *)

From Stdlib Require Import Ascii String.
From S2P Require Import Prelude GoStrings Schedule Programs Billing Lifecycle.
Open Scope string_scope.
Open Scope list_scope.
Open Scope Z_scope.

(** ** State *)

(** What does not change: the nodes of a tenant, the storages, the settings
    and the users. *)
Record env := mkEnv {
  e_nodes : string -> list Node; e_node : Z -> option Node; e_storages : Z -> option BackupStorage; e_default : option BackupStorage;
  e_settings : string -> string; e_user : string -> option User
}.

(** Rows of [user_billing], the links switched off in the Hub, the rows of
    archives with their owner, the objects in a storage, the servers with
    their owner and the commands sent, newest first. *)
Record state := mkState {
  st_rows : gmap string billing_row;
  st_off : gset string;
  st_runs : gmap Z (string * BackupRunRef);
  st_objs : gset (Z * string);
  st_servers : gmap Z (string * server_row);
  st_sent : list (string * string * string)
}.

Definition on_rows f st := mkState (f (st_rows st)) (st_off st) (st_runs st) (st_objs st) (st_servers st) (st_sent st).
Definition on_off f st := mkState (st_rows st) (f (st_off st)) (st_runs st) (st_objs st) (st_servers st) (st_sent st).
Definition on_runs f st := mkState (st_rows st) (st_off st) (f (st_runs st)) (st_objs st) (st_servers st) (st_sent st).
Definition on_objs f st := mkState (st_rows st) (st_off st) (st_runs st) (f (st_objs st)) (st_servers st) (st_sent st).
Definition on_servers f st := mkState (st_rows st) (st_off st) (st_runs st) (st_objs st) (f (st_servers st)) (st_sent st).
Definition on_sent f st := mkState (st_rows st) (st_off st) (st_runs st) (st_objs st) (st_servers st) (f (st_sent st)).

(** One statement on the row of a tenant. *)
Definition write_row (u : string) (w : write) (st : state) : state * report :=
  let '(r, rep) := exec_write w (st_rows st !! u) in (on_rows (partial_alter (fun _ => r) u) st, rep).

(** The statement behind a call, at the database's time. *)
Definition write_of (now : Z) (c : op) : option (string * write) :=
  match c with
  | SetUserBillingStatusIf u status g at_ from => Some (u, WStatus status g at_ from)
  | PlaceAdminHold u at_ => Some (u, WHold at_)
  | LiftAdminHold u => Some (u, WLift)
  | SetUserOverLimitSince u v => Some (u, WOverLimit v)
  | MarkNodeLinksOff u => Some (u, WMarkOff now)
  | ClearNodeLinksOff u => Some (u, WClearOff)
  | SetUserBillingOverrides u g r n q => Some (u, WOverrides g r n q)
  | SetUserPurchasedEntitlement u n sn l sl => Some (u, WPurchase n sn l sl)
  | SetUserBillingConsent u t b => Some (u, WConsent t b)
  | SetUserDataBillingEnabled u v => Some (u, WData v)
  | SetUserManualEntitlement u k e by_ => Some (u, WGrant now k e by_)
  | SetUserManualEntitlementKind u k e by_ => Some (u, WGrantKind now k e by_)
  | _ => None
  end.


(** *** Queries *)

Definition reads (st : state) : list UserBilling := map (fun x => scanUserBilling x.1 x.2) (map_to_list (st_rows st)).
Definition servers_of (u : string) (st : state) : list server_row :=
  map (fun x => x.2.2) (List.filter (fun x => (x.2.1 =? u)%string) (map_to_list (st_servers st))).
Definition runs_of (u : string) (st : state) : list BackupRunRef :=
  map (fun x => x.2.2) (List.filter (fun x => (x.2.1 =? u)%string) (map_to_list (st_runs st))).

Definition when_applied (o : outcome) (st st' : state) : state := if applied o then st' else st.
Definition answered {A} (o : outcome) (a : A) : option A := if replied o then Some a else None.
Definition wrote (rep : report) : bool := match rep with Wrote b => b | _ => false end.
Definition prior (rep : report) : string := match rep with Prior p => p | _ => "" end.

Definition set_desired (state : string) (x : string * server_row) : string * server_row :=
  (x.1, mkServerRow (sr_ID x.2) (sr_UUID x.2) (sr_Status x.2) state (sr_NodeID x.2)).
Definition set_status (status : string) (x : string * server_row) : string * server_row :=
  (x.1, mkServerRow (sr_ID x.2) (sr_UUID x.2) status (sr_DesiredState x.2) (sr_NodeID x.2)).

(** ** Calls

    [o] is what becomes of the call, [now] the time, [ord] the order in which
    the database lists rows, and [orc] answers what the world does not hold.
    A failed statement reports nothing; one whose reply is lost has run. *)
Section world.
Context (e : env).

Definition exec (o : outcome) (now : Z) (ord : list UserBilling -> list UserBilling) (orc : forall c, ans c) (c : op) (st : state) :
    ans c * state :=
  let told {A} (u : string) (w : write) (say : report -> A) : A * state :=
    let '(st', rep) := write_row u w st in (say rep, when_applied o st st') in
  let plain (u : string) (w : write) : bool * state := told u w (fun _ => replied o) in
  match c return ans c * state with
  | Now => (now, st)
  | GetUserBilling u => (answered o (readBilling u (st_rows st !! u)), st)
  | ListUserBillingByStatus status => (answered o (ord (List.filter (fun b => (Status b =? status)%string) (reads st))), st)
  | ListUserBilling => (answered o (ord (reads st)), st)
  | SetUserBillingStatusIf u status g at_ from => told u (WStatus status g at_ from) (fun rep => answered o (wrote rep))
  | PlaceAdminHold u at_ => plain u (WHold at_)
  | LiftAdminHold u => told u WLift (fun rep => answered o (prior rep))
  | SetUserOverLimitSince u v => plain u (WOverLimit v)
  | MarkNodeLinksOff u => told u (WMarkOff now) (fun rep => answered o (wrote rep))
  | ClearNodeLinksOff u => plain u WClearOff
  | SetUserBillingOverrides u g r n q => plain u (WOverrides g r n q)
  | SetUserPurchasedEntitlement u n sn l sl => plain u (WPurchase n sn l sl)
  | SetUserBillingConsent u t b => plain u (WConsent t b)
  | SetUserDataBillingEnabled u v => plain u (WData v)
  | SetUserManualEntitlement u k x by_ => plain u (WGrant now k x by_)
  | SetUserManualEntitlementKind u k x by_ => plain u (WGrantKind now k x by_)
  | GetSetting key => (if replied o then e_settings e key else "", st)
  | GetUserByID u => (if replied o then e_user e u else None, st)
  | QueryServersByOwner u => (answered o (servers_of u st), st)
  | GetNodeByID id => (if replied o then e_node e id else None, st)
  | ListNodesByOwner u => (answered o (e_nodes e u), st)
  | UpdateServerDesiredState id state => (replied o, when_applied o st (on_servers (alter (set_desired state) id) st))
  | UpdateServerStatus id status => (replied o, when_applied o st (on_servers (alter (set_status status) id) st))
  | SendCommand token action uuid => (replied o, when_applied o st (on_sent (cons (token, action, uuid)) st))
  | SetNodeLinkEnabled token enabled =>
      (replied o, when_applied o st (on_off (fun off => if enabled then off ∖ {[token]} else {[token]} ∪ off) st))
  | ListBackupRunsByOwner u => (answered o (runs_of u st), st)
  | DeleteBackupRun id => (replied o, when_applied o st (on_runs (delete id) st))
  | GetBackupStorage id => (answered o (e_storages e id), st)
  | GetDefaultBackupStorage => (answered o (e_default e), st)
  | OpenStorage _ => (replied o, st)
  | ProviderDelete bs key => (replied o, when_applied o st (on_objs (fun objs => objs ∖ {[(bs_ID bs, key)]}) st))
  | c => (orc c, st)
  end.

(** The statement on rows is the only effect a call has on them. *)
Lemma exec_rows o now ord orc c st :
  let st' := (exec o now ord orc c st).2 in
  st_rows st' = st_rows st \/
  exists u w, write_of now c = Some (u, w) /\ st_rows st' = partial_alter (fun _ => (exec_write w (st_rows st !! u)).1) u (st_rows st).
Proof.
  assert (Hw : forall u w, st_rows (when_applied o st (write_row u w st).1) = st_rows st \/
    st_rows (when_applied o st (write_row u w st).1) = partial_alter (fun _ => (exec_write w (st_rows st !! u)).1) u (st_rows st)).
  { intros u w. unfold write_row, when_applied. destruct (exec_write w _) as [r rep]. destruct (applied o); [by right|by left]. }
  destruct c; cbn [exec write_of]; try (by left; try destruct o).
  all: match goal with |- context [write_row ?u ?w ?x] => destruct (Hw u w) as [H|H]; destruct (write_row u w x) as [st' rep]; cbn in *;
    [by left|right; exists u, w; split; [done|exact H]] end.
Qed.

(** ** Many replicas at once *)

Context (s : service).

(** What starts a program. *)
Inductive request :=
  | Pass
  | Operator (u status : string)
  | Store (req : provision)
  | GrantAccess (u actor kind : string) (days : Z)
  | RevokeAccess (u kind : string)
  | Overrides (u gracePeriod r2Retention nodeRetention : string) (r2QuotaGB : option Z)
  | DropPeers (keyID wait : Z).

Definition finish {A} (p : program A) : program unit := _ ← p; skip.

Definition program_of (r : request) : program unit :=
  match r with
  | Pass => runOnce s
  | Operator u status => finish (SetBillingStatus s u status)
  | Store req => finish (Provision s req)
  | GrantAccess u actor kind days => finish (Grant u actor kind days)
  | RevokeAccess u kind => finish (Revoke u kind)
  | Overrides u g r n q => finish (SetBillingOverrides u g r n q)
  | DropPeers keyID wait => dropPeersAfter keyID wait
  end.

Record world := mkWorld { w_st : state; w_progs : list (program unit) }.

(** A request starts, a call of some program takes effect, or something that
    is no billing row changes. *)
Inductive wstep : world -> world -> Prop :=
  | starts w r : wstep w (mkWorld (w_st w) (w_progs w ++ [program_of r]))
  | calls w i c k o now ord orc : w_progs w !! i = Some (Do c k) -> (forall l, ord l ≡ₚ l) ->
      wstep w (mkWorld (exec o now ord orc c (w_st w)).2 (<[i := k (exec o now ord orc c (w_st w)).1]> (w_progs w)))
  | drifts w st : st_rows st = st_rows (w_st w) -> wstep w (mkWorld st (w_progs w)).
End world.

(** ** Rows are well-typed *)

Definition spec_ok (c : option string) : Prop := match c with Some spec => ValidRetentionSpec spec = true | None => True end.
Definition at_least (n : Z) (c : option Z) : Prop := match c with Some x => n <= x | None => True end.

Record life_ok (l : lifecycle) : Prop := {
  ok_status : lc_status l ∈ statuses;
  ok_hold : if lc_admin_hold l
            then lc_status l = "suspended" /\ exists p, lc_held_status l = Some p /\ p ∈ statuses
            else lc_held_status l = None;
  ok_suspended : lc_status l = "suspended" -> is_Some (lc_suspended_at l)
}.
Definition over_ok (ov : overrides) : Prop :=
  spec_ok (ov_grace_period ov) /\ spec_ok (ov_r2_retention ov) /\ spec_ok (ov_node_retention ov) /\ at_least 0 (ov_r2_quota_gb ov).
Definition bought_ok (p : purchase) : Prop := at_least 1 (pu_max_nodes p) /\ at_least 1 (pu_max_links p).
Definition kind_ok (g : grants) : Prop := gr_kind g ∈ [""; "byon"; "route_only"; "both"].

Definition row_ok (r : billing_row) : Prop :=
  life_ok (br_life r) /\ over_ok (br_over r) /\ bought_ok (br_bought r) /\ kind_ok (br_grants r).

(** The values a program writes. *)
Definition typed_write (w : write) : Prop :=
  match w with
  | WStatus status _ at_ _ => status ∈ statuses /\ (status = "suspended" -> is_Some at_)
  | WOverrides g r n q => spec_ok (Stmt.nullif g) /\ spec_ok (Stmt.nullif r) /\ spec_ok (Stmt.nullif n) /\ at_least 0 q
  | WPurchase n _ l _ => at_least 1 n /\ at_least 1 l
  | WGrant _ kind _ _ => kind = ""
  | _ => True
  end.
Definition typed_call (c : op) : Prop :=
  match write_of 0 c with Some (_, w) => typed_write w | None => True end.

Lemma typed_write_of now c u w : write_of now c = Some (u, w) -> typed_call c -> typed_write w.
Proof. unfold typed_call. destruct c; cbn; try done; by intros [= <- <-]. Qed.

Lemma new_row_ok : row_ok new_row.
Proof. split_and!; cbn; try done; [split; cbn; try done|]; set_solver. Qed.

Lemma kind_of_known a b : Stmt.kind_of a b ∈ [""; "byon"; "route_only"; "both"].
Proof. destruct a, b; cbn; set_solver. Qed.

(** A statement with typed values keeps a row well-typed. *)
Lemma write_row_ok w r r' : (forall x, r = Some x -> row_ok x) -> typed_write w -> (exec_write w r).1 = Some r' -> row_ok r'.
Proof.
  intros Hr Hw. assert (Hd : row_ok (default new_row r)) by (destruct r; [by apply Hr|apply new_row_ok]).
  destruct w; cbn -[statuses].
  - unfold Stmt.SetUserBillingStatusIf. destruct Hw as [Hs Ha]. destruct r as [[[st gu sa hold hs] since off ov pu ce gr co]|]; cbn -[statuses] in *.
    + destruct (Stmt.any_of _ _); cbn; intros [= <-]; [|by apply Hr]. destruct Hd as ([H1 H2 H3] & Hd). split; [|exact Hd].
      cbn -[statuses] in *. destruct hold; split; cbn -[statuses]; try done. split; [apply H2|by eauto].
    + intros [= <-]. destruct Hd as (_ & Hd). split; [|exact Hd]. by split.
  - unfold Stmt.PlaceAdminHold. destruct r as [[[st gu sa hold hs] since off ov pu ce gr co]|]; cbn -[statuses] in *; intros [= <-].
    + destruct Hd as ([H1 H2 H3] & Hd). split; [|exact Hd]. cbn -[statuses] in *. split; cbn -[statuses]; [set_solver| |].
      * split; [done|]. destruct hold; [apply H2|by eauto].
      * intros _. destruct (_ && _) eqn:E; [|by eauto]. destruct sa; [by eauto|]. cbn in E. by rewrite andb_false_r in E.
    + destruct Hd as (_ & Hd). split; [|exact Hd]. split; cbn -[statuses]; [set_solver| |by eauto]. split; [done|]. exists "active". set_solver.
  - unfold Stmt.LiftAdminHold. destruct r as [[[st gu sa hold hs] since off ov pu ce gr co]|]; cbn -[statuses] in *; [|done].
    destruct hold; cbn -[statuses]; intros [= <-]; [|by apply Hr]. destruct Hd as ([H1 H2 H3] & Hd). split; [|exact Hd].
    cbn -[statuses] in *. destruct H2 as [-> (p & -> & Hp)]. split; cbn -[statuses]; try done. intros _. by apply H3.
  - by intros [= <-].
  - unfold Stmt.MarkNodeLinksOff. destruct r as [row|]; [|done]. destruct (set _); intros [= <-]; [by apply Hr|exact Hd].
  - unfold Stmt.ClearNodeLinksOff. destruct r as [row|]; [|done]. by intros [= <-].
  - intros [= <-]. destruct Hd as (H1 & _ & H3). by split.
  - by intros [= <-].
  - unfold Stmt.SetUserPurchasedEntitlement. destruct Hw as [Hn Hl], Hd as (H1 & H2 & [H3 H4] & H5).
    destruct r as [row|]; intros [= <-]; (split_and!; [done|done| |done]); split; cbn; try done; [by destruct setNodes|by destruct setLinks].
  - unfold Stmt.MoveOperatorLimitsToAdminLayer. destruct r as [row|]; [|done]. case_bool_decide; intros [= <-]; [|by apply Hr].
    destruct Hd as (H1 & H2 & _ & H4). by split_and!.
  - unfold Stmt.SetUserBillingConsent. destruct (_ && _); [intros ->; by apply Hr|]. by intros [= <-].
  - by intros [= <-].
  - intros [= <-]. destruct Hd as (H1 & H2 & H3 & _). split_and!; try done. unfold kind_ok. cbn in *. subst kind. set_solver.
  - unfold Stmt.SetUserManualEntitlementKind. destruct Hd as (H1 & H2 & H3 & H4).
    destruct (_ =? "byon")%string; [|destruct (_ =? "route_only")%string]; cbn; [intros [= <-]..|intros ->; by apply Hr].
    all: split_and!; try done; apply kind_of_known.
Qed.

(** *** The programs write typed values *)

Lemma acts_typed {A} (p : program A) : acting p -> only typed_call p.
Proof. apply only_mono. by intros []. Qed.

Create HintDb typed.
Ltac typed_tac := only_tac ltac:(first [exact I|solve [auto 1 with typed nocore]|split; [set_solver|by eauto]
  |apply acts_typed; first [solve [auto 1 with parts nocore]|apply asks_acts; solve [auto 1 with parts nocore]]]).
Notation typed := (only typed_call).

Section typed_programs.
Context (s : service).

Lemma suspend_typed u from : typed (suspend s u from).
Proof. unfold suspend. typed_tac. Qed.
#[local] Hint Resolve suspend_typed : typed.

Lemma enterPastDue_typed u from : typed (enterPastDue s u from).
Proof. unfold enterPastDue. typed_tac. Qed.
#[local] Hint Resolve enterPastDue_typed : typed.

Lemma setTenantNodeLinks_typed u b : typed (setTenantNodeLinks s u b).
Proof. unfold setTenantNodeLinks. typed_tac. Qed.
#[local] Hint Resolve setTenantNodeLinks_typed : typed.

Lemma dropWarpPeersOnceStopped_typed u c n : typed (dropWarpPeersOnceStopped s u c n).
Proof. unfold dropWarpPeersOnceStopped. typed_tac. Qed.
#[local] Hint Resolve dropWarpPeersOnceStopped_typed : typed.

Lemma limit_one_typed now b : typed (limit_one s now b).
Proof. unfold limit_one. typed_tac. Qed.
#[local] Hint Resolve limit_one_typed : typed.

Lemma retain_one_typed now b : typed (retain_one s now b).
Proof. unfold retain_one, deleteTenantBackups, deleteTenantTemplates, delete_run, delete_template. typed_tac. Qed.
#[local] Hint Resolve retain_one_typed : typed.

Lemma runOnce_typed : typed (runOnce s).
Proof.
  unfold runOnce, enforceSuspensions, enforce_one, enforceEntitlementLimits, restoreNodeLinks, cleanupExpiredR2, promote_one.
  typed_tac.
Qed.
#[local] Hint Resolve runOnce_typed : typed.

Lemma Reactivate_typed u : typed (Reactivate s u).
Proof. unfold Reactivate. typed_tac. Qed.
#[local] Hint Resolve Reactivate_typed : typed.

Lemma teardown_typed id o : typed (RevokeLinkKitTeardown s id o).
Proof.
  unfold RevokeLinkKitTeardown. typed_tac. generalize 0. match goal with l : list GatewayRoute |- _ => induction l as [|rt l IH] end;
    intros n; [done|]. destruct (_ && _); [|apply IH]. apply only_bind; [typed_tac|]. intros ok. apply IH.
Qed.
#[local] Hint Resolve teardown_typed : typed.

Lemma SuspendNow_typed u : typed (SuspendNow s u).
Proof.
  unfold SuspendNow, revokeTenantNodeKeys.
  typed_tac.
Qed.
#[local] Hint Resolve SuspendNow_typed : typed.

Lemma Operator_typed u status : typed (SetBillingStatus s u status).
Proof.
  unfold SetBillingStatus, HoldLifted, EnterPastDue.
  typed_tac.
Qed.
#[local] Hint Resolve Operator_typed : typed.

Lemma parseEntitlement_typed raw v b : parseEntitlement raw = Some (v, b) -> at_least 1 v.
Proof. destruct raw as [| | |n]; cbn; try by intros [= <- <-]. destruct (Z.leb_spec n 0); intros [= <- <-]; cbn; lia || done. Qed.

Lemma activate_typed req : typed (provision_activate s req).
Proof.
  unfold provision_activate. apply only_bind; [apply Reactivate_typed|]. intros [|]; [cbn [negb]|done].
  destruct (parseEntitlement (pr_MaxNodes req)) as [[nodes sn]|] eqn:En; [|done].
  destruct (parseEntitlement (pr_MaxLinks req)) as [[links sl]|] eqn:El; [|done].
  apply parseEntitlement_typed in En, El. unfold provision_consent, provision_routes, retireGrantsCoveredByPurchase.
  only_tac ltac:(first [exact I|by split]).
Qed.
#[local] Hint Resolve activate_typed : typed.

Lemma Provision_typed req : typed (Provision s req).
Proof. unfold Provision, EnterPastDueUnlessSuspended, Suspend. typed_tac. Qed.
#[local] Hint Resolve Provision_typed : typed.

Lemma Grant_typed u a k d : typed (Grant u a k d).
Proof. unfold Grant. typed_tac. Qed.
#[local] Hint Resolve Grant_typed : typed.

Lemma Revoke_typed u k : typed (Revoke u k).
Proof. unfold Revoke. only_tac ltac:(first [exact I|done]). Qed.
#[local] Hint Resolve Revoke_typed : typed.

Lemma nullif_ok spec : negb (spec =? "")%string && negb (ValidRetentionSpec spec) = false -> spec_ok (Stmt.nullif spec).
Proof. unfold Stmt.nullif. destruct (spec =? "")%string; [done|]. cbn. by intros H%negb_false_iff. Qed.

Lemma Overrides_typed u g r n q : typed (SetBillingOverrides u g r n q).
Proof.
  unfold SetBillingOverrides. destruct (existsb _ _) eqn:Ex; [done|]. destruct (match q with Some q => q <? 0 | None => false end) eqn:Eq; [done|].
  cbn in Ex. rewrite !orb_false_iff in Ex. destruct Ex as (E1 & E2 & E3 & _).
  apply only_bind; [split; [|done]|typed_tac]. cbn. split_and!; [by apply nullif_ok..|].
  destruct q as [q|]; [|done]. apply Z.ltb_ge in Eq. done.
Qed.
#[local] Hint Resolve Overrides_typed : typed.

Lemma program_typed r : typed (program_of s r).
Proof.
  assert (Hf : forall A (p : program A), typed p -> typed (finish p)) by (intros A p Hp; by apply only_bind).
  destruct r; cbn [program_of]; [apply runOnce_typed|apply Hf..|].
  - apply Operator_typed.
  - apply Provision_typed.
  - apply Grant_typed.
  - apply Revoke_typed.
  - apply Overrides_typed.
  - unfold dropPeersAfter. typed_tac.
Qed.
End typed_programs.

(** C18: Rows stay well-typed. However many passes, store webhooks and operators
    run at once, each statement taking effect, failing or losing its reply at
    its own moment: every row's status is one of the three, a hold reads
    suspended and remembers one of the three underneath, no hold remembers
    nothing, a suspension has its date, the overrides are valid retention
    specs and a quota that is not negative, a purchase is positive or not set,
    and the kind of a grant is known. *)
Theorem accounts_typed (e : env) (s : service) (w w' : world) :
  map_Forall (fun _ => row_ok) (st_rows (w_st w)) -> w_progs w = [] -> steps (wstep e s) w w' ->
  map_Forall (fun _ => row_ok) (st_rows (w_st w')).
Proof.
  intros Hr Hp Hst.
  assert (HI : map_Forall (fun _ => row_ok) (st_rows (w_st w')) /\ Forall typed (w_progs w')); [|apply HI].
  eapply (steps_invariant _ (fun w => map_Forall (fun _ => row_ok) (st_rows (w_st w)) /\ Forall typed (w_progs w))); [|exact Hst|by rewrite Hp].
  clear. intros w w' Hstep [Hr Hp]. destruct Hstep as [w r|w i c k o now ord orc Hi Ho|w st Hs]; cbn.
  - split; [done|]. apply Forall_app_2; [done|]. constructor; [apply program_typed|done].
  - pose proof (Forall_lookup_1 _ _ _ _ Hp Hi) as [Hc Hk]. split; [|by apply Forall_insert].
    destruct (exec_rows e o now ord orc c (w_st w)) as [->|(u & wr & Ew & ->)]; [done|].
    intros v r'. destruct (decide (v = u)) as [->|Hne]; [|rewrite lookup_partial_alter_ne by done; apply Hr].
    rewrite lookup_partial_alter_eq. eapply write_row_ok; [|by eapply typed_write_of]. intros x Hx. by apply (Hr u).
  - by rewrite Hs.
Qed.

(** ** Scripts

    A run as a script: which request starts, and which program makes its next
    call, with what becomes of it. *)
Inductive move :=
  | Begin (r : request)
  | Call (i : nat) (o : outcome) (now : Z)
  | Calls (i n : nat) (now : Z).

Section scripts.
Context (e : env) (s : service).

(** What the world does not hold is answered with nothing. *)
Definition nothing (c : op) : ans c :=
  match c with
  | Now => 0 | GetUserBilling _ => None | ListUserBillingByStatus _ => None | ListUserBilling => None
  | SetUserBillingStatusIf _ _ _ _ _ => None | PlaceAdminHold _ _ => true | LiftAdminHold _ => None
  | SetUserOverLimitSince _ _ => true | MarkNodeLinksOff _ => None | ClearNodeLinksOff _ => true
  | SetUserBillingOverrides _ _ _ _ _ => true | SetUserPurchasedEntitlement _ _ _ _ _ => true
  | SetUserBillingConsent _ _ _ => true | SetUserDataBillingEnabled _ _ => true | SetUserManualEntitlement _ _ _ _ => true
  | SetUserManualEntitlementKind _ _ _ _ => true | GetSetting _ => "" | GetUserByID _ => None | QueryServersByOwner _ => None
  | GetNodeByID _ => None | ListNodesByOwner _ => None | UpdateServerDesiredState _ _ => true | UpdateServerStatus _ _ => true
  | ListWarpAPIKeysByOwner _ => Some [] | ListAllWarpAPIKeysByOwner _ => Some [] | RevokeWarpAPIKeyByNodeID _ => true
  | CountNodesByOwner _ => Some 0 | CountPendingNodeEnrollTokens _ => Some 0 | CountNodeWarpKeysByOwner _ => Some 0
  | CountLinkKitsByOwner _ => Some 0 | GetGatewayRouteLimit _ => None | SetGatewayRouteLimit _ _ => true
  | DeleteGatewayRouteLimit _ => true | ListCoreLinkRoutes => Some [] | ListBackupRunsByOwner _ => None | DeleteBackupRun _ => true
  | GetBackupStorage _ => None | GetDefaultBackupStorage => None | GetUserDefaultBackupStorage _ => Some None
  | GetUserStoragePrefs _ => Some None | ListTemplateIDsByOwner _ => Some [] | GetTemplate _ => None | DeleteTemplate _ => true
  | OpenStorage _ => true | AbortMultipart _ _ _ => true | ProviderDelete _ _ => true | templateFiles _ => true
  | GetRoutesFromRedis => [] | RedisDel _ => true | RedisSet _ _ => true | BumpAccessEpoch _ => true
  | PublishDesiredState _ _ => tt | SendCommand _ _ _ => true | SetNodeLinkEnabled _ _ => true | DeleteCoreOwnedRoute _ => true
  | DisconnectKeyPeers _ => 0 | GoDropPeersAfter _ _ _ => tt | Wait _ => tt | LoadMailer => false | SendMail _ _ => tt | IsLeader => true
  end.

Definition next (o : outcome) (now : Z) (i : nat) (w : world) : option world :=
  match w_progs w !! i with
  | Some (Do c k) =>
      let '(a, st) := exec e o now id nothing c (w_st w) in Some (mkWorld st (<[i := k a]> (w_progs w)))
  | _ => None
  end.

(** Up to [n] calls of one program, all answered. *)
Fixpoint nexts (n : nat) (now : Z) (i : nat) (w : world) : world :=
  match n with
  | O => w
  | S n => match next Replied now i w with Some w => nexts n now i w | None => w end
  end.

Fixpoint play (l : list move) (w : world) : option world :=
  match l with
  | [] => Some w
  | Begin r :: l => play l (mkWorld (w_st w) (w_progs w ++ [program_of s r]))
  | Call i o now :: l => match next o now i w with Some w => play l w | None => None end
  | Calls i n now :: l => play l (nexts n now i w)
  end.

Lemma next_steps o now i w w' : next o now i w = Some w' -> wstep e s w w'.
Proof.
  unfold next. destruct (w_progs w !! i) as [[|c k]|] eqn:Ei; try done. intros H.
  pose proof (calls e s w i c k o now id nothing Ei ltac:(done)) as Hc.
  destruct (exec e o now id nothing c (w_st w)) as [a st]. cbn in Hc. by injection H as <-.
Qed.

Lemma nexts_steps n now i w : steps (wstep e s) w (nexts n now i w).
Proof.
  revert w. induction n as [|n IH]; intros w; [apply steps_refl|]. cbn. destruct (next Replied now i w) as [w'|] eqn:E; [|apply steps_refl].
  eapply steps_cons; [by eapply next_steps|apply IH].
Qed.

Lemma played_steps l w w' : play l w = Some w' -> steps (wstep e s) w w'.
Proof.
  revert w. induction l as [|m l IH]; intros w H; [injection H as <-; apply steps_refl|]. destruct m as [r|i o now|i n now]; cbn in H.
  - eapply steps_cons; [apply starts|by apply IH].
  - destruct (next o now i w) as [w1|] eqn:E; [|done]. eapply steps_cons; [by eapply next_steps|by apply IH].
  - eapply steps_trans; [apply nexts_steps|by apply IH].
Qed.
End scripts.
