(* ===== verification/AccountRuns.v ===== *)
(** * Runs in which a tenant is treated wrongly (over AccountWorld.v)

    Each is a run of the programs as they are, in which everything is answered
    but for the one call the run names, if any. Found while proving what holds:
    each is a place where the code does not do what its comments promise. *)

From Stdlib Require Import Ascii String.
From S2P Require Import Prelude GoStrings Schedule Programs Billing Lifecycle AccountWorld.
Open Scope string_scope.
Open Scope list_scope.
Open Scope Z_scope.

(** ** A platform with one tenant *)

Definition days (n : Z) : Z := n * day_ns.

Definition ours_1 : BackupStorage := mkStorage 1 "platform" None.
Definition machine (id : Z) (token : string) : Node := mkNode id token "" (Some "tenant").

(** The tenant has two machines; backups go to the platform's storage. *)
Definition platform : env :=
  mkEnv (fun u => if (u =? "tenant")%string then [machine 1 "a"; machine 2 "b"] else [])
    (fun id => if id =? 1 then Some (machine 1 "a") else if id =? 2 then Some (machine 2 "b") else None)
    (fun id => if id =? 1 then Some ours_1 else None) (Some ours_1)
    (fun _ => "") (fun u => if (u =? "tenant")%string then Some (mkUser "tenant" "" false) else None).

Definition hosted : service :=
  mkService true true true true false false (2 * day_ns) "https://panel.example" (fun t => "link-" +:+ t) (fun _ => None).

(** One server on the first machine and one archive. *)
Definition holding (rows : gmap string billing_row) (status : string) : world :=
  mkWorld (mkState rows ∅ {[5 := ("tenant", mkRef 5 "tenant/5.tar" (Some 1) "" "")]} {[(1, "tenant/5.tar")]}
            {[7 := ("tenant", mkServerRow 7 "uuid-7" status "online" 1)]} []) [].

Definition lapsed : billing_row := with_life (fun _ => mkLife "suspended" None (Some 0) false None) new_row.
Definition behind : billing_row := with_life (fun _ => mkLife "past_due" (Some (days 3)) None false None) new_row.

Definition provisioned (action : string) : request :=
  Store (mkProvision "tenant" action Absent Absent Absent None None None).

(** ** What goes wrong *)

Inductive mistreatment :=
  | RevokedGrantStays    (* a grant revoked without a kind goes on granting *)
  | StartingServerRuns   (* a server starting at the cutoff is left to run *)
  | LinkLeftOff          (* a push fails halfway, the tenant pays: a link stays off for good *)
  | OldGraceReused       (* a dunning under a hold gets the grace of an earlier one *)
  | RetentionFromHold    (* after a hold, retention counts from the hold *)
  | NewGraceCutShort     (* a payment and a new dunning during the pass: suspended at once *)
  | PayingServerStopped  (* a payment during the pass: the servers are stopped *)
  | PayingArchiveDeleted (* a payment during the pass: the archives are deleted *)
  | ClockRestarted.      (* a suspension sent again, its read failing: the clock starts again *)

Definition before (m : mistreatment) : world :=
  match m with
  | RevokedGrantStays | RetentionFromHold | OldGraceReused => holding ∅ "online"
  | NewGraceCutShort => holding {["tenant" := behind]} "online"
  | StartingServerRuns => holding {["tenant" := lapsed]} "starting"
  | _ => holding {["tenant" := lapsed]} "online"
  end.

(** Enough calls for any of the programs to end. *)
Notation all := 400%nat.

Definition script (m : mistreatment) : list move :=
  match m with
  | RevokedGrantStays =>
      [Begin (GrantAccess "tenant" "op" "both" 14); Calls 0 all 0; Begin (RevokeAccess "tenant" ""); Calls 1 all (days 1)]
  | StartingServerRuns => [Begin Pass; Calls 0 all (days 3)]
  | LinkLeftOff =>
      [Begin Pass; Calls 0 16 (days 3); Call 0 Failed (days 3); Calls 0 all (days 3);
       Begin (provisioned "activate"); Calls 1 all (days 3); Begin Pass; Calls 2 all (days 4)]
  | OldGraceReused =>
      [Begin (provisioned "past_due"); Calls 0 all 0; Begin (Operator "tenant" "suspended"); Calls 1 all (days 1);
       Begin (provisioned "activate"); Calls 2 all (days 2); Begin (provisioned "past_due"); Calls 3 all (days 10);
       Begin (Operator "tenant" "active"); Calls 4 all (days 10); Begin Pass; Calls 5 all (days 10)]
  | RetentionFromHold =>
      [Begin (Operator "tenant" "suspended"); Calls 0 all 0; Begin (provisioned "suspend"); Calls 1 all (days 10);
       Begin (Operator "tenant" "active"); Calls 2 all (days 11); Begin Pass; Calls 3 all (days 11)]
  | NewGraceCutShort =>
      [Begin Pass; Calls 0 2 (days 4); Begin (provisioned "activate"); Calls 1 all (days 4);
       Begin (provisioned "past_due"); Calls 2 all (days 4); Calls 0 all (days 4)]
  | PayingServerStopped =>
      [Begin Pass; Calls 0 4 (days 3); Begin (provisioned "activate"); Calls 1 all (days 3); Calls 0 all (days 3)]
  | PayingArchiveDeleted =>
      [Begin Pass; Calls 0 24 (days 10); Begin (provisioned "activate"); Calls 1 all (days 10); Calls 0 all (days 10)]
  | ClockRestarted =>
      [Begin (provisioned "suspend"); Call 0 Replied (days 1); Call 0 Failed (days 1); Calls 0 all (days 1)]
  end.

Definition tenant (st : state) : UserBilling := readBilling "tenant" (st_rows st !! "tenant").
Definition desired (st : state) : string := match st_servers st !! 7 with Some x => sr_DesiredState x.2 | None => "" end.
Definition archive_gone (st : state) : bool := bool_decide (st_runs st !! 5 = None) && bool_decide ((1, "tenant/5.tar") ∉ st_objs st).

(** What is wrong at the end. *)
Definition wronged (m : mistreatment) (st : state) : bool :=
  match m with
  | RevokedGrantStays => match EffectiveEntitlement (Some (tenant st)) (days 2) true false with
                         | Some ent => Byon ent && RouteOnly ent | None => false end
  | StartingServerRuns => (desired st =? "online")%string && bool_decide (st_sent st = [])
  | LinkLeftOff => bool_decide ("link-a" ∈ st_off st) && (Status (tenant st) =? "active")%string && negb (NodeLinksOff (tenant st))
  | OldGraceReused | NewGraceCutShort => (Status (tenant st) =? "suspended")%string
  | RetentionFromHold => archive_gone st
  | PayingServerStopped => (Status (tenant st) =? "active")%string && (desired st =? "stopped")%string
  | PayingArchiveDeleted => (Status (tenant st) =? "active")%string && archive_gone st
  | ClockRestarted => bool_decide (SuspendedAt (tenant st) = Some (days 1))
  end.

(** Each mistreatment happens in a run of the programs. A grant an operator
    revoked, naming no kind, still gives the tenant both products a day later.
    A server that is starting when its owner is cut off keeps its desired
    state and gets no stop. A tenant whose second link could not be switched
    off pays, and their first link stays off through the following pass. A
    tenant dunned on day 10, under a hold, is suspended on day 10 by the grace
    of a dunning they had paid. Archives of a tenant who lapsed on day 10 of
    an operator's hold are deleted on day 11, a week counted from the hold. A
    tenant who pays and falls behind again during a pass is suspended with a
    grace of three days ahead. One who pays during a pass has their servers
    stopped, or their archives deleted, by what the pass had listed before. A
    suspension the store sends twice starts its clock again when the read of
    the row fails. *)
Lemma every_mistreatment_happens (m : mistreatment) :
  exists w, play platform hosted (script m) (before m) = Some w /\ steps (wstep platform hosted) (before m) w /\ wronged m (w_st w) = true.
Proof.
  assert (H : match play platform hosted (script m) (before m) with Some w => wronged m (w_st w) | None => false end = true)
    by (destruct m; vm_compute; reflexivity).
  destruct (play platform hosted (script m) (before m)) as [w|] eqn:E; [|done].
  exists w. split_and!; [done|by eapply played_steps|exact H].
Qed.

(** A grant is made and revoked: the row it leaves is well-typed. *)
Lemma accounts_typed_witness :
  match play platform hosted (script RevokedGrantStays) (before RevokedGrantStays) with
  | Some w => map_Forall (fun _ => row_ok) (st_rows (w_st w)) | None => False end.
Proof.
  assert (H : match play platform hosted (script RevokedGrantStays) (before RevokedGrantStays) with Some _ => true | None => false end = true)
    by (vm_compute; reflexivity).
  destruct (play platform hosted (script RevokedGrantStays) (before RevokedGrantStays)) as [w|] eqn:E; [|discriminate].
  apply (accounts_typed platform hosted (before RevokedGrantStays) w); [apply map_Forall_empty|reflexivity|].
  by eapply played_steps.
Defined.
