(* ===== verification/AccountPass.v ===== *)
(** * What a pass achieves on its own (over AccountWorld.v)

    The hourly pass when every call is answered and nothing else writes: the
    node links are where the standing of their owners puts them, and the
    archives of tenants whose retention has run out are gone, row and object,
    and no others. The clock is read as often as the code reads it, each time
    at some instant between [t0] and [t1]; lists come in any order. *)

From Stdlib Require Import Ascii String.
From S2P Require Import Prelude GoStrings Schedule Programs Billing Lifecycle AccountWorld AccountRuns.
Open Scope string_scope.
Open Scope list_scope.
Open Scope Z_scope.

(** ** Answered runs *)
Section pass.
Context (e : env) (s : service) (t0 t1 : Z).

Definition good (c : op) (st : state) (a : ans c) (st' : state) : Prop :=
  exists now ord orc, t0 <= now <= t1 /\ (forall l, ord l ≡ₚ l) /\ (a, st') = exec e Replied now ord orc c st.

(** Every answered run of the program ends as [Q] says. *)
Fixpoint wp {A} (p : program A) (st : state) (Q : A -> state -> Prop) : Prop :=
  match p with
  | Ret a => Q a st
  | Do c k => forall a st', good c st a st' -> wp (k a) st' Q
  end.

Lemma wp_bind {A B} (p : program A) (f : A -> program B) st Q :
  wp p st (fun a st' => wp (f a) st' Q) -> wp (p ≫= f) st Q.
Proof. revert st. induction p as [a|c k IH]; intros st H; [done|]. intros a st' Hg. apply IH, H, Hg. Qed.

Lemma wp_mono {A} (p : program A) st (Q Q' : A -> state -> Prop) : (forall a st', Q a st' -> Q' a st') -> wp p st Q -> wp p st Q'.
Proof. intros HQ. revert st. induction p as [a|c k IH]; intros st H; [by apply HQ|]. intros a st' Hg. apply IH, H, Hg. Qed.


Lemma wp_part {A B} (p : program A) (f : A -> program B) st P Q :
  wp p st P -> (forall a st', P a st' -> wp (f a) st' Q) -> wp (p ≫= f) st Q.
Proof. intros Hp Hf. apply wp_bind. eapply wp_mono; [exact Hf|exact Hp]. Qed.

(** A loop: what every round keeps, what a round achieves for its item, and
    that no later round takes it away. *)
Lemma wp_each {A} (I : state -> Prop) (P : A -> state -> Prop) (l : list A) f st :
  I st ->
  (forall x st, x ∈ l -> I st -> wp (f x) st (fun _ st' => I st' /\ P x st' /\ forall y, P y st -> P y st')) ->
  wp (each l f) st (fun _ st' => I st' /\ (forall x, x ∈ l -> P x st') /\ forall y, P y st -> P y st').
Proof.
  revert st. induction l as [|x l IH]; intros st HI Hf; [split_and!; try done; by intros x Hx%elem_of_nil|]. cbn [each].
  eapply wp_part; [apply (Hf x st); [set_solver|done]|]. intros [] st1 (HI1 & Hx & Hk1).
  eapply wp_mono; [|apply (IH st1 HI1)]; [|intros y st2 Hy; apply Hf; set_solver].
  intros [] st' (HI' & Hl & Hk'). split_and!; [done| |by eauto]. intros y Hy. apply elem_of_cons in Hy as [->|Hy]; [by apply Hk'|by apply Hl].
Qed.

(** *** Calls that leave rows, links and archives alone *)

Definition same (st st' : state) : Prop :=
  st_rows st' = st_rows st /\ st_off st' = st_off st /\ st_runs st' = st_runs st /\ st_objs st' = st_objs st.

Definition untracked (c : op) : Prop :=
  match write_of 0 c, c with
  | None, (SetNodeLinkEnabled _ _ | DeleteBackupRun _ | ProviderDelete _ _) => False
  | None, _ => True
  | Some _, _ => False
  end.

Lemma same_trans st st1 st2 : same st st1 -> same st1 st2 -> same st st2.
Proof. unfold same. intros (-> & -> & -> & ->) (? & ? & ? & ?). by split_and!; congruence. Qed.

Lemma untracked_same c st a st' : untracked c -> good c st a st' -> same st st'.
Proof. intros Hc (now & ord & orc & _ & _ & E). destruct c; try done; by injection E as _ ->. Qed.

Lemma wp_quiet {A B} (p : program A) (f : A -> program B) st Q :
  only untracked p -> (forall a st', same st st' -> wp (f a) st' Q) -> wp (p ≫= f) st Q.
Proof.
  revert st. induction p as [a|c k IH]; intros st Hp Hf; [by apply Hf|]. destruct Hp as [Hc Hk]. intros a st1 Hg.
  apply IH; [apply Hk|]. intros x st2 Hs. apply Hf. eapply same_trans; [by eapply untracked_same|exact Hs].
Qed.

Lemma wp_skips {A} (p : program A) st (Q : A -> state -> Prop) :
  only untracked p -> (forall a st', same st st' -> Q a st') -> wp p st Q.
Proof.
  revert st. induction p as [a|c k IH]; intros st Hp HQ; [by apply HQ|]. destruct Hp as [Hc Hk]. intros a st1 Hg.
  apply IH; [apply Hk|]. intros x st2 Hs. apply HQ. eapply same_trans; [by eapply untracked_same|exact Hs].
Qed.


Lemma acts_untracked {A} (p : program A) : acting p -> only untracked p.
Proof. apply only_mono. by intros []. Qed.
Lemma asks_untracked {A} (p : program A) : asking p -> only untracked p.
Proof. intros H. by apply acts_untracked, asks_acts. Qed.
#[local] Hint Resolve acts_untracked asks_untracked : parts.

(** ** Standing and links *)

Definition read (st : state) (u : string) : UserBilling := readBilling u (st_rows st !! u).
Definition marked (st : state) (u : string) : bool := NodeLinksOff (read st u).
(** What the standing of a tenant is read from. *)
Definition stand (st : state) (u : string) : lifecycle * option Z * overrides :=
  let r := default new_row (st_rows st !! u) in (br_life r, br_overlimit_since r, br_over r).
(** Whether the links of the tenant are to be off at [t]. *)
Definition cut (st : state) (u : string) (t : Z) : bool :=
  (Status (read st u) =? "suspended")%string || OwnerCutOff (Some (read st u)) (suspendGrace s) OverLimitGrace t.

Definition owns (u t : string) : Prop := exists n, n ∈ e_nodes e u /\ t ∈ node_tokens s n.
(** The Hub and the marks agree. *)
Definition sync (st : state) : Prop := forall u t, owns u t -> (t ∈ st_off st <-> marked st u = true).

Lemma read_stand st u :
  read st u = scanUserBilling u (default new_row (st_rows st !! u)).
Proof. done. Qed.

Lemma cut_stand st st' u t : stand st' u = stand st u -> cut st' u t = cut st u t.
Proof.
  unfold cut, stand. rewrite !read_stand. destruct (default new_row (st_rows st' !! u)), (default new_row (st_rows st !! u)).
  by intros [= -> -> ->].
Qed.

Lemma elapsed_mono t d a b : a <= b -> elapsed t d a = true -> elapsed t d b = true.
Proof. destruct t as [t|]; [|done]. cbn. rewrite !Z.leb_le. lia. Qed.

Lemma cut_mono st u a b : a <= b -> cut st u a = true -> cut st u b = true.
Proof.
  intros Hab. unfold cut, OwnerCutOff. rewrite !orb_true_iff, !andb_true_iff. intros [H|[[H|[H1 H2]]|H]]; [by left|right..].
  - by left; left.
  - left; right. split; [done|]. by eapply elapsed_mono.
  - right. by eapply elapsed_mono.
Qed.

Definition toggle (enabled : bool) (l : list string) (off : gset string) : gset string :=
  if enabled then off ∖ list_to_set l else list_to_set l ∪ off.

Lemma toggle_app b l l' off : toggle b l' (toggle b l off) = toggle b (l ++ l') off.
Proof. unfold toggle. destruct b; set_solver. Qed.

Lemma told_wp nodes enabled st (Q : bool -> state -> Prop) :
  Q true (on_off (toggle enabled (concat (map (node_tokens s) nodes))) st) ->
  wp (each_ok nodes (fun n => each_ok (node_tokens s n) (fun token => call (SetNodeLinkEnabled token enabled)))) st Q.
Proof.
  assert (Hin : forall l st (Q : bool -> state -> Prop), Q true (on_off (toggle enabled l) st) ->
    wp (each_ok l (fun token => call (SetNodeLinkEnabled token enabled))) st Q).
  { intros l. induction l as [|t l IH]; intros st0 Q0 HQ.
    - assert (E : st0 = on_off (toggle enabled []) st0) by (destruct st0; unfold on_off, toggle; cbn; f_equal; destruct enabled; set_solver).
      cbn. rewrite E. exact HQ.
    - cbn [each_ok]. intros a st1 (now & ord & orc & _ & _ & [= -> ->]). cbn. apply IH.
      assert (E : on_off (toggle enabled l) (on_off (fun off => if enabled then off ∖ {[t]} else {[t]} ∪ off) st0) = on_off (toggle enabled (t :: l)) st0).
      { destruct st0. unfold on_off, toggle. cbn. f_equal. destruct enabled; set_solver. }
      cbn in E. rewrite E. exact HQ. }
  revert st Q. induction nodes as [|n nodes IH]; intros st Q HQ.
  - assert (E : st = on_off (toggle enabled []) st) by (destruct st; unfold on_off, toggle; cbn; f_equal; destruct enabled; set_solver).
    cbn. rewrite E. exact HQ.
  - cbn [each_ok]. apply wp_bind. apply Hin. apply IH.
    assert (E : on_off (toggle enabled (concat (map (node_tokens s) nodes))) (on_off (toggle enabled (node_tokens s n)) st)
      = on_off (toggle enabled (concat (map (node_tokens s) (n :: nodes)))) st).
    { destruct st. unfold on_off. cbn. f_equal. by rewrite toggle_app. }
    rewrite E. exact HQ.
Qed.

(** What [setTenantNodeLinks] does to the world. *)
Record relinked (u : string) (enabled : bool) (st st' : state) : Prop := {
  re_sync : sync st';
  re_archives : st_runs st' = st_runs st /\ st_objs st' = st_objs st;
  re_stand : forall v, stand st' v = stand st v;
  re_others : forall v, v <> u -> marked st' v = marked st v;
  re_own : if enabled then (marked st' u = true -> marked st u = true /\ cut st u t1 = true) /\ (cut st u t0 = true -> marked st' u = marked st u)
           else (marked st u = true -> marked st' u = true) /\ (cut st u t0 = true -> marked st' u = true)
}.

Hypothesis ordered : t0 <= t1.
Hypothesis gateway : has_gateway s = true.
Hypothesis disjoint : forall u v t, owns u t -> owns v t -> u = v.

Lemma relinked_refl u (enabled : bool) st : sync st ->
  (if enabled then marked st u = true -> cut st u t1 = true else cut st u t0 = true -> marked st u = true) -> relinked u enabled st st.
Proof. intros Hs Hm. split; try done. destruct enabled; [split; [by eauto|done]|done]. Qed.

Lemma owns_tokens u t : owns u t <-> t ∈ concat (map (node_tokens s) (e_nodes e u)).
Proof.
  unfold owns. rewrite list_elem_of_In, in_concat. split.
  - intros (n & Hn & Ht). exists (node_tokens s n). split; [|by apply list_elem_of_In]. apply list_elem_of_In, list_elem_of_fmap. by exists n.
  - intros (l & Hl & Ht). apply list_elem_of_In, list_elem_of_fmap in Hl as (n & -> & Hn). exists n. split; [done|by apply list_elem_of_In].
Qed.

Lemma no_row_not_cut st u t : st_rows st !! u = None -> cut st u t = false /\ marked st u = false.
Proof. intros E. unfold cut, marked, read. by rewrite E. Qed.

(** The world with the links and the mark of one tenant moved. *)
Lemma relinked_move u enabled st r now v :
  sync st -> st_rows st !! u = Some r -> marked st u = enabled -> set v = negb enabled ->
  t0 <= now <= t1 -> cut st u now = negb enabled ->
  relinked u enabled st (on_rows (partial_alter (fun _ => Some (with_off v r)) u)
    (on_off (toggle enabled (concat (map (node_tokens s) (e_nodes e u)))) st)).
Proof.
  intros Hs Er Hm Hv Hn Hc. set (st' := on_rows _ _).
  assert (Hu : st_rows st' !! u = Some (with_off v r)) by (cbn; by rewrite lookup_partial_alter_eq).
  assert (Hne : forall w, w <> u -> st_rows st' !! w = st_rows st !! w) by (intros w Hw; cbn; by rewrite lookup_partial_alter_ne).
  assert (Hmu : marked st' u = negb enabled) by (unfold marked, read; rewrite Hu; cbn; by destruct r).
  assert (Hmo : forall w, w <> u -> marked st' w = marked st w) by (intros w Hw; unfold marked, read; by rewrite Hne).
  split; [|done| |done|].
  - intros w t Hw. destruct (decide (w = u)) as [->|Hwu].
    + rewrite Hmu. apply owns_tokens in Hw. cbn. unfold toggle. destruct enabled; cbn; set_solver.
    + rewrite Hmo by done. rewrite <- (Hs w t Hw). assert (Ht : t ∉ concat (map (node_tokens s) (e_nodes e u))).
      { rewrite <- owns_tokens. intros Hut. by apply Hwu, (disjoint w u t). }
      cbn. unfold toggle. destruct enabled; set_solver.
  - intros w. unfold stand. destruct (decide (w = u)) as [->|Hw]; [|by rewrite Hne]. rewrite Hu, Er. by destruct r.
  - rewrite Hmu. destruct enabled; cbn in *; [|done]. split; [done|]. intros Hct.
    rewrite (cut_mono st u t0 now) in Hc by (done || lia). done.
Qed.

(** *** Calls, answered *)
Lemma wp_read {A} u (k : option UserBilling -> program A) st Q :
  wp (k (Some (read st u))) st Q -> wp (Programs.call (GetUserBilling u) ≫= k) st Q.
Proof. by intros H a st' (now & ord & orc & _ & _ & [= -> ->]). Qed.
Lemma wp_now {A} (k : Z -> program A) st Q :
  (forall now, t0 <= now <= t1 -> wp (k now) st Q) -> wp (Programs.call Now ≫= k) st Q.
Proof. intros H a st' (now & ord & orc & Hn & _ & [= -> ->]). by apply H. Qed.

Lemma links_wp u enabled st : sync st -> wp (setTenantNodeLinks s u enabled) st (fun _ => relinked u enabled st).
Proof.
  intros Hs. unfold setTenantNodeLinks. rewrite gateway. cbn [negb]. apply wp_read. fold (marked st u).
  destruct (Bool.eqb (marked st u) enabled) eqn:Em; cbn [negb].
  2: { apply eqb_false_iff in Em. apply relinked_refl; [done|]. by destruct enabled, (marked st u). }
  apply eqb_prop in Em.
  eapply wp_part with (P := fun c st' => st' = st /\ exists now, t0 <= now <= t1 /\ c = cut st u now).
  { unfold cut. destruct (Status (read st u) =? "suspended")%string; cbn [orb].
    - split; [done|]. exists t0. by split; [lia|].
    - apply wp_now. intros now Hn. split; [done|]. by exists now. }
  intros c st' (-> & now & Hn & ->). destruct (Bool.eqb (cut st u now) enabled) eqn:Ec.
  { apply eqb_prop in Ec. apply relinked_refl; [done|]. destruct enabled; intros H.
    - apply (cut_mono st u now t1); [lia|done].
    - rewrite (cut_mono st u t0 now) in Ec by (done || lia). done. }
  assert (Ec' : cut st u now = negb enabled) by (by destruct (cut st u now), enabled). clear Ec.
  destruct (st_rows st !! u) as [r|] eqn:Er.
  2: { destruct (no_row_not_cut st u now Er) as [H1 H2]. rewrite H1 in Ec'. rewrite H2 in Em. by destruct enabled. }
  intros a st1 (n1 & ord & orc & _ & _ & [= -> ->]). cbn [answered replied]. apply wp_bind, told_wp. cbn [answered].
  assert (Em' : set (br_links_off_at r) = enabled) by (unfold marked, read in Em; rewrite Er in Em; by destruct r).
  destruct enabled; intros b st' (n2 & ord' & orc' & Hn2 & _ & E); cbn in E; unfold write_row in E; cbn in E; rewrite Er in E; cbn in E.
  - injection E as -> ->. by apply (relinked_move u true st r now None).
  - rewrite Em' in E. injection E as -> ->. by apply (relinked_move u false st r now (Some n2)).
Qed.

(** ** The phases of a pass *)

Definition susp (st : state) (u : string) : bool := (Status (read st u) =? "suspended")%string.

Lemma susp_stand st st' u : stand st' u = stand st u -> susp st' u = susp st u.
Proof.
  unfold susp, stand. rewrite !read_stand. destruct (default new_row (st_rows st' !! u)), (default new_row (st_rows st !! u)).
  by intros [= -> -> ->].
Qed.

Lemma susp_cut st u t : susp st u = true -> cut st u t = true.
Proof. unfold susp, cut. by intros ->. Qed.

(** What every phase up to the cleanup keeps: links and marks agree, archives
    are untouched, and a suspended tenant stays as it was, its links off once
    they are. *)
Record kept (st st' : state) : Prop := {
  kp_sync : sync st';
  kp_archives : st_runs st' = st_runs st /\ st_objs st' = st_objs st;
  kp_stand : forall u, susp st u = true -> stand st' u = stand st u;
  kp_marks : forall u, susp st u = true -> marked st u = true -> marked st' u = true
}.

Lemma kept_refl st : sync st -> kept st st.
Proof. by split. Qed.

Lemma kept_trans a b c : kept a b -> kept b c -> kept a c.
Proof.
  intros [_ [H1 H2] H3 H4] [K0 [K1 K2] K3 K4]. split; [done|split; congruence| |].
  - intros u Hu. rewrite <- (H3 u Hu). apply K3. rewrite <- Hu. by apply susp_stand, H3.
  - intros u Hu Hm. apply K4; [rewrite <- Hu; by apply susp_stand, H3|by apply H4].
Qed.

Lemma same_read st st' u : same st st' -> read st' u = read st u.
Proof. intros (Hr & _). unfold read. by rewrite Hr. Qed.
Lemma same_stand st st' u : same st st' -> stand st' u = stand st u.
Proof. intros (Hr & _). unfold stand. by rewrite Hr. Qed.
Lemma same_marked st st' u : same st st' -> marked st' u = marked st u.
Proof. intros Hs. unfold marked. by rewrite (same_read st st'). Qed.
Lemma same_sync st st' : same st st' -> sync st -> sync st'.
Proof. intros Hs H u t Hu. destruct Hs as (Hr & Ho & _). unfold marked, read. rewrite Hr, Ho. by apply H. Qed.

Lemma kept_same st st' : same st st' -> sync st -> kept st st'.
Proof.
  intros Hs H. split; [by eapply same_sync|by destruct Hs as (_ & _ & ? & ?)|intros; by apply same_stand|].
  intros u _. by rewrite (same_marked st st').
Qed.

Lemma kept_relinked u enabled st st' : relinked u enabled st st' -> kept st st'.
Proof.
  intros [H1 H2 H3 H4 H5]. split; [done|done|by intros v _; apply H3|]. intros v Hv Hm. destruct (decide (v = u)) as [->|Hne].
  - destruct enabled, H5 as [H5 H6]; [|by apply H5]. rewrite H6; [done|by apply susp_cut].
  - by rewrite H4.
Qed.

Lemma kept_quiet st0 st st' : kept st0 st -> same st st' -> kept st0 st'.
Proof. intros Hk Hs. eapply kept_trans; [exact Hk|]. apply kept_same; [done|]. apply Hk. Qed.
Lemma kept_links st0 st st' u enabled : kept st0 st -> relinked u enabled st st' -> kept st0 st'.
Proof. intros Hk Hr. eapply kept_trans; [exact Hk|]. by eapply kept_relinked. Qed.

(** A statement on the row of a tenant that is not suspended, the mark apart. *)
Lemma kept_write st0 st u r' : kept st0 st -> susp st0 u = false -> NodeLinksOff (readBilling u r') = marked st u ->
  kept st0 (on_rows (partial_alter (fun _ => r') u) st).
Proof.
  intros [Hs Ha Hst Hmk] Hu Hm.
  assert (Hm' : forall v, marked (on_rows (partial_alter (fun _ => r') u) st) v = marked st v).
  { intros v. unfold marked at 1, read. cbn. destruct (decide (v = u)) as [->|Hne]; [by rewrite lookup_partial_alter_eq|].
    by rewrite lookup_partial_alter_ne. }
  split; [|done| |intros v; rewrite Hm'; apply Hmk].
  - intros v t Hv. rewrite Hm'. by apply Hs.
  - intros v Hv. rewrite <- (Hst v Hv). unfold stand. cbn. rewrite lookup_partial_alter_ne; [done|]. intros ->. by rewrite Hv in Hu.
Qed.

(** Rows, as they are listed. *)
Lemma reads_spec st b : b ∈ reads st <-> exists u, is_Some (st_rows st !! u) /\ b = read st u.
Proof.
  unfold reads. rewrite list_elem_of_fmap. split.
  - intros ([u r] & -> & Hin). apply elem_of_map_to_list in Hin. exists u. unfold read. rewrite Hin. split; [by eexists|done].
  - intros (u & [r Hr] & ->). exists (u, r). split; [unfold read; by rewrite Hr|by apply elem_of_map_to_list].
Qed.

Lemma read_user st u : UserID (read st u) = u.
Proof. unfold read, readBilling. by destruct (default new_row (st_rows st !! u)). Qed.

Lemma susp_row st u : susp st u = true -> is_Some (st_rows st !! u).
Proof. unfold susp, read. destruct (st_rows st !! u); [by eexists|done]. Qed.
Lemma marked_row st u : marked st u = true -> is_Some (st_rows st !! u).
Proof. unfold marked, read. destruct (st_rows st !! u); [by eexists|done]. Qed.

(** A loop over the rows of one status, and over all rows. *)
Lemma wp_listed {A} status (k : option (list UserBilling) -> program A) st Q :
  (forall l, (forall b, b ∈ l <-> exists u, is_Some (st_rows st !! u) /\ b = read st u /\ Status b = status) -> wp (k (Some l)) st Q) ->
  wp (Programs.call (ListUserBillingByStatus status) ≫= k) st Q.
Proof.
  intros H a st' (now & ord & orc & _ & Ho & [= -> ->]). apply H. intros b. rewrite (Ho _), list_elem_of_In, filter_In, <- list_elem_of_In.
  rewrite reads_spec, String.eqb_eq. naive_solver.
Qed.
Lemma wp_listed_all {A} (k : option (list UserBilling) -> program A) st Q :
  (forall l, (forall b, b ∈ l <-> exists u, is_Some (st_rows st !! u) /\ b = read st u) -> wp (k (Some l)) st Q) ->
  wp (Programs.call ListUserBilling ≫= k) st Q.
Proof. intros H a st' (now & ord & orc & _ & Ho & [= -> ->]). apply H. intros b. rewrite (Ho _). apply reads_spec. Qed.

(** *** Past due to suspended *)

Lemma status_off u status g at_ from r :
  NodeLinksOff (readBilling u (Stmt.SetUserBillingStatusIf status g at_ from r).1) = NodeLinksOff (readBilling u r).
Proof. destruct r as [[]|]; [|done]. cbn. by destruct (Stmt.any_of _ _). Qed.

Lemma wp_status {A} u status g at_ from (k : option bool -> program A) st Q :
  (forall r' w, Stmt.SetUserBillingStatusIf status g at_ from (st_rows st !! u) = (r', w) ->
    wp (k (Some w)) (on_rows (partial_alter (fun _ => r') u) st) Q) ->
  wp (Programs.call (SetUserBillingStatusIf u status g at_ from) ≫= k) st Q.
Proof.
  intros H a st1 (n1 & ord & orc & _ & _ & E). cbn [exec] in E. unfold write_row in E. cbn [exec_write] in E.
  destruct (Stmt.SetUserBillingStatusIf _ _ _ _ _) as [r' w]. injection E as -> ->. by apply H.
Qed.

Lemma suspend_wp st0 st u from : kept st0 st -> susp st0 u = false -> wp (suspend s u from) st (fun _ => kept st0).
Proof.
  intros Hk Hu. unfold suspend. apply wp_read. case_match; [done|]. apply wp_now. intros now _.
  apply wp_status. intros r' w Ew.
  assert (Hk1 : kept st0 (on_rows (partial_alter (fun _ => r') u) st)).
  { apply kept_write; [done|done|]. pose proof (status_off u "suspended" None (Some now) from (st_rows st !! u)) as Hm.
    by rewrite Ew in Hm. }
  case_match; [done|]. apply wp_quiet; [auto with parts|]. intros [] st2 H2. by eapply kept_quiet.
Qed.

Lemma promote_wp st now l :
  sync st -> (forall b, b ∈ l -> susp st (UserID b) = false) -> wp (each l (promote_one s now)) st (fun _ => kept st).
Proof.
  intros Hs Hl. eapply wp_mono; [|apply (wp_each (kept st) (fun _ _ => True))]; [by intros _ st' [? _]|by apply kept_refl|].
  intros b st1 Hb Hk. unfold promote_one.
  assert (Hskip : forall st', kept st st' -> wp skip st' (fun _ st'' => kept st st'' /\ True /\ forall y : UserBilling, True -> True)) by done.
  destruct (GraceUntil b) as [until|]; [|by apply Hskip]. destruct (now <? until); [by apply Hskip|].
  eapply wp_part; [apply (suspend_wp st); [done|by apply Hl]|]. intros a st2 H2. by apply Hskip.
Qed.

(** *** Suspensions *)

(** The tenant's links must be off by [t0]: its cutoff is past, and so is the
    time its servers have to stop. *)
Definition overdue (b : UserBilling) : Prop :=
  Status b = "suspended" /\ exists at_, SuspendedAt b = Some at_ /\
    (if AdminHold b then at_ else at_ + suspendGrace s) + maxStopDrain <= t0.

Lemma wp_drop st0 st u cutoff now :
  kept st0 st -> t0 <= now ->
  wp (dropWarpPeersOnceStopped s u cutoff now) st (fun _ st' => kept st0 st' /\
    (forall v, marked st v = true -> marked st' v = true) /\
    (forall v, stand st' v = stand st v) /\
    (susp st u = true -> cutoff + maxStopDrain <= t0 -> marked st' u = true)).
Proof.
  intros Hk Hn. unfold dropWarpPeersOnceStopped.
  eapply wp_part with (P := fun up st' => same st st' /\ (cutoff + maxStopDrain <= t0 -> up = false)).
  { case_match eqn:E; [|by split]. apply Z.ltb_lt in E. apply wp_skips; [auto with parts|]. intros a st' Hs. split; [done|]. lia. }
  intros up st1 [H1 Hup]. destruct up.
  - split_and!; [by eapply kept_quiet|intros v; by rewrite (same_marked st st1)|intros v; by apply same_stand|].
    intros _ Hd. by specialize (Hup Hd).
  - apply wp_quiet; [auto with parts|]. intros _ st2 H2. pose proof (same_trans _ _ _ H1 H2) as H12.
    assert (Hk2 : kept st0 st2) by by eapply kept_quiet.
    eapply wp_mono; [|apply links_wp, Hk2]. intros [] st3 Hr. split_and!; [by eapply kept_links| | |].
    + intros v Hv. rewrite <- (same_marked st st2) in Hv by done. destruct Hr as [_ _ _ Ho [Hm _]]. destruct (decide (v = u)) as [->|Hne]; [by apply Hm|].
      by rewrite Ho.
    + intros v. rewrite (re_stand _ _ _ _ Hr). by apply same_stand.
    + intros Hu _. apply Hr, susp_cut. rewrite <- Hu. by apply susp_stand, same_stand.
Qed.

Lemma enforce_one_wp st st1 b now :
  kept st st1 -> susp st (UserID b) = true -> Status b = "suspended" -> t0 <= now ->
  wp (enforce_one s now b) st1 (fun _ st' => kept st st' /\ (overdue b -> marked st' (UserID b) = true) /\
    forall v, marked st1 v = true -> marked st' v = true).
Proof.
  intros Hk Hu Hb Hn. unfold enforce_one.
  destruct (negb (AdminHold b) && negb (elapsed (SuspendedAt b) (suspendGrace s) now)) eqn:E.
  { split_and!; [done| |done]. intros (_ & at_ & Hat & Hd). rewrite Hat in E. cbn in E. exfalso.
    apply andb_true_iff in E as [E1 E2]. apply negb_true_iff in E1. apply negb_true_iff, Z.leb_gt in E2. rewrite E1 in Hd.
    assert (0 < maxStopDrain) by done. lia. }
  apply wp_quiet; [auto with parts|]. intros [] st2 H2. apply wp_quiet; [auto with parts|]. intros [] st3 H3.
  pose proof (same_trans _ _ _ H2 H3) as H23. assert (Hk3 : kept st st3) by by eapply kept_quiet.
  eapply wp_mono; [|by apply (wp_drop st)]. intros [] st4 (Hk4 & Hm & _ & Ho). split_and!; [done| |].
  - intros (_ & at_ & Hat & Hd). apply Ho; [|by rewrite Hat]. rewrite <- Hu. apply susp_stand. by apply Hk3.
  - intros v Hv. apply Hm. by rewrite (same_marked st1 st3).
Qed.

Lemma enforce_wp st : sync st ->
  wp (enforceSuspensions s) st (fun _ st' => kept st st' /\ forall u, overdue (read st u) -> marked st' u = true).
Proof.
  intros Hs. apply wp_listed. intros l Hl. apply wp_now. intros now Hn.
  eapply wp_mono; [|apply (wp_each (kept st) (fun b st' => overdue b -> marked st' (UserID b) = true)); [by apply kept_refl|]].
  - intros [] st' (Hk & Hd & _). split; [done|]. intros u Hu. rewrite <- (read_user st u). apply Hd; [|done]. apply Hl.
    destruct Hu as [Hu _]. exists u. split_and!; [|done|done]. apply susp_row. unfold susp. by rewrite Hu.
  - intros b st1 Hb Hk. apply Hl in Hb as (u & Hu & -> & Hsu).
    eapply wp_mono; [|apply (enforce_one_wp st); [done| |done|lia]].
    + intros [] st2 (Hk2 & Ho & Hm). split_and!; [done|done|]. intros y Hy Hy'. by apply Hm, Hy.
    + rewrite read_user. unfold susp. by rewrite Hsu.
Qed.

(** *** Over the limit *)

Lemma wp_since {A} u v (k : bool -> program A) st0 st (Q : A -> state -> Prop) :
  kept st0 st -> susp st0 u = false -> (forall st', kept st0 st' -> wp (k true) st' Q) ->
  wp (Programs.call (SetUserOverLimitSince u v) ≫= k) st Q.
Proof.
  intros Hk Hu H a st1 (n1 & ord & orc & _ & _ & [= -> ->]). apply H. apply kept_write; [done|done|].
  unfold marked, read, readBilling. by destruct (default new_row (st_rows st !! u)) eqn:E; cbn; rewrite E.
Qed.

Lemma limit_one_wp st st1 now b :
  kept st st1 -> (Status b <> "suspended" -> susp st (UserID b) = false) -> t0 <= now -> wp (limit_one s now b) st1 (fun _ => kept st).
Proof.
  intros Hk Hu Hn. unfold limit_one. destruct (String.eqb_spec (Status b) "suspended") as [|Hne]; [done|]. specialize (Hu Hne).
  apply wp_quiet; [auto with parts|]. intros r st2 H2. assert (Hk2 : kept st st2) by by eapply kept_quiet. destruct r as [us|]; [|done].
  destruct (over us); cbn [negb].
  - destruct (OverLimitSince b) as [since|].
    + destruct (now <? _); [done|]. apply wp_quiet; [auto with parts|]. intros [] st3 H3. apply wp_quiet; [auto with parts|]. intros [] st4 H4.
      eapply wp_mono; [|apply (wp_drop st); [|done]]; [by intros [] st5 [? _]|]. eapply kept_quiet; [exact Hk2|]. by eapply same_trans.
    + apply (wp_since _ _ _ st); [done|done|]. intros st3 Hk3. apply wp_skips; [auto with parts|]. intros _ st4. by apply kept_quiet.
  - destruct (set (OverLimitSince b)); [|done]. by apply (wp_since _ _ _ st).
Qed.

Lemma limits_wp st : sync st -> wp (enforceEntitlementLimits s) st (fun _ => kept st).
Proof.
  intros Hs. apply wp_listed_all. intros l Hl. apply wp_now. intros now Hn.
  eapply wp_mono; [|apply (wp_each (kept st) (fun _ _ => True)); [by apply kept_refl|]]; [by intros [] st' [? _]|].
  intros b st1 Hb Hk. apply Hl in Hb as (u & _ & ->). eapply wp_mono; [|apply (limit_one_wp st); [done| |lia]]; [done|].
  rewrite read_user. unfold susp. by intros ?%String.eqb_neq.
Qed.

(** *** Links back on *)

Lemma restore_wp st : sync st ->
  wp (restoreNodeLinks s) st (fun _ st' => kept st st' /\ forall u, marked st' u = true -> cut st' u t1 = true).
Proof.
  intros Hs. apply wp_listed_all. intros l Hl. apply wp_now. intros now Hn.
  set (I st' := kept st st' /\ (forall v, stand st' v = stand st v) /\ forall v, marked st' v = true -> marked st v = true).
  eapply wp_mono; [|apply (wp_each I (fun b st' => marked st' (UserID b) = true -> cut st (UserID b) t1 = true))].
  - intros [] st' ((Hk & Hst & Hm) & Hd & _). split; [done|]. intros u Hu. rewrite (cut_stand st st') by done.
    rewrite <- (read_user st u). apply Hd; [|by rewrite read_user]. apply Hl. exists u. split; [|done]. by apply marked_row, Hm.
  - split; [by apply kept_refl|done].
  - intros b st1 Hb (Hk & Hst & Hm). apply Hl in Hb as (u & Hu & ->). rewrite read_user. fold (marked st u).
    destruct (marked st u && _ && _) eqn:E.
    + eapply wp_mono; [|apply links_wp, Hk]. intros [] st2 Hr. assert (Hback : forall v, marked st2 v = true -> marked st1 v = true).
      { intros v Hv. destruct (decide (v = u)) as [->|Hne]; [by apply Hr|]. by rewrite <- (re_others _ _ _ _ Hr v). }
      split; [split_and!; [by eapply kept_links|intros v; by rewrite (re_stand _ _ _ _ Hr)|by eauto]|split; [|by eauto]].
      intros Hu2. apply Hr in Hu2 as [_ Hc]. by rewrite (cut_stand st st1) in Hc.
    + split; [done|]. split; [|done]. intros Hu1. rewrite (Hm u Hu1) in E. cbn [andb] in E. apply (cut_mono st u now); [lia|].
      unfold cut. by destruct (Status (read st u) =? "suspended")%string, (OwnerCutOff _ _ _ _).
Qed.

(** *** Archives *)

(** The archive lies in a storage of the platform. *)
Definition placed (ref : BackupRunRef) (bs : BackupStorage) : Prop :=
  bs_OwnerID bs = None /\ match StorageID ref with Some id => e_storages e id = Some bs | None => e_default e = Some bs end.

(** The retention of a suspended tenant has run out by [t]. *)
Definition spent (st : state) (u : string) (t : Z) : Prop :=
  let b := read st u in
  Status b = "suspended" /\ AdminHold b = false /\ exists at_ deadline, SuspendedAt b = Some at_ /\
    AddRetention at_ (Billing.effectiveSpec (R2Retention b) (e_settings e BillingR2RetentionKey) DefaultR2Retention) = Some deadline /\
    deadline <= t.

(** Runs are found under their ids. *)
Definition keyed (st : state) : Prop := forall id u ref, st_runs st !! id = Some (u, ref) -> RunID ref = id.

(** The archive of a run of such a tenant. *)
Definition spent_object (st : state) (t : Z) (obj : Z * string) : Prop :=
  exists id u ref bs, st_runs st !! id = Some (u, ref) /\ placed ref bs /\ spent st u t /\ obj = (bs_ID bs, StorageKey ref).

(** What the cleanup keeps: rows and links, the runs of tenants whose
    retention lasts, that no object outlives its run, and every object but
    those of the runs of tenants whose retention has run out. *)
Record cleaned (st st' : state) : Prop := {
  cl_rows : st_rows st' = st_rows st /\ st_off st' = st_off st;
  cl_runs : forall id, st_runs st' !! id = None \/ st_runs st' !! id = st_runs st !! id;
  cl_kept : forall id u ref, st_runs st !! id = Some (u, ref) -> ~ spent st u t1 -> st_runs st' !! id = Some (u, ref);
  cl_objects : forall id u ref bs, st_runs st !! id = Some (u, ref) -> placed ref bs -> st_runs st' !! id = None ->
    (bs_ID bs, StorageKey ref) ∉ st_objs st';
  cl_only : forall obj, obj ∈ st_objs st -> obj ∈ st_objs st' \/ spent_object st t1 obj
}.

Lemma cleaned_refl st : cleaned st st.
Proof. split; [done|by right|done| |by left]. intros id u ref bs H1 _ H2. congruence. Qed.

Lemma cleaned_same st st1 st2 : cleaned st st1 -> same st1 st2 -> cleaned st st2.
Proof.
  intros [[H1 H2] H3 H4 H5 H6] (R1 & R2 & R3 & R4). split; [by split; congruence| | | |by rewrite R4]; rewrite R3; [done..|].
  rewrite R4. exact H5.
Qed.

(** The object goes, then the run. *)
Lemma cleaned_delete st st1 id u ref bs :
  cleaned st st1 -> st_runs st !! id = Some (u, ref) -> spent st u t1 -> placed ref bs -> (forall bs', placed ref bs' -> bs' = bs) ->
  cleaned st (on_runs (delete id) (on_objs (fun objs => objs ∖ {[(bs_ID bs, StorageKey ref)]}) st1)).
Proof.
  intros [H1 H2 H3 H4 H5] Hid Hsp Hpl Hbs. split; cbn; [done| | | |].
  - intros i. destruct (decide (i = id)) as [->|Hne]; [by left; rewrite lookup_delete_eq|]. by rewrite lookup_delete_ne.
  - intros i v r Hi Hns. rewrite lookup_delete_ne; [by apply H3|]. intros ->. by simplify_eq.
  - intros i v r bs' Hi Hp. destruct (decide (i = id)) as [->|Hne].
    + simplify_eq. rewrite (Hbs bs' Hp). set_solver.
    + rewrite lookup_delete_ne by done. intros Hn. specialize (H4 i v r bs' Hi Hp Hn). set_solver.
  - intros obj Hobj. destruct (decide (obj = (bs_ID bs, StorageKey ref))) as [->|Hne]; [right; by exists id, u, ref, bs|].
    destruct (H5 obj Hobj) as [H|H]; [left|by right]. set_solver.
Qed.

Lemma resolve_wp st ref : wp (ResolveJobStorage (StorageID ref) "") st (fun r st' => st' = st /\ (forall bs, placed ref bs -> r = inl bs) /\
  forall bs, r = inl bs -> set (bs_OwnerID bs) = false -> placed ref bs).
Proof.
  unfold ResolveJobStorage, placed. destruct (StorageID ref) as [id|]; cbn.
  - intros a st' (n & ord & orc & _ & _ & [= -> ->]). split; [done|]. split; [intros bs [Ho ->]; cbn; by rewrite Ho|].
    intros bs. destruct (e_storages e id) as [bs'|]; cbn; [|done]. intros Hr Hset.
    assert (bs' = bs) as -> by (revert Hr; repeat case_match; try done; by intros [= ->]). by destruct (bs_OwnerID bs).
  - intros a st' (n & ord & orc & _ & _ & [= -> ->]). split; [done|]. split; [by intros bs [Ho ->]|].
    intros bs. destruct (e_default e) as [bs'|]; cbn; [|done]. intros [= ->] Hset. by destruct (bs_OwnerID bs).
Qed.

Lemma delete_run_wp st st1 id u ref : keyed st -> cleaned st st1 -> st_runs st !! id = Some (u, ref) -> spent st u t1 ->
  wp (delete_run ref) st1 (fun _ st' => cleaned st st' /\ (forall bs, placed ref bs -> st_runs st' !! id = None) /\
    forall i, st_runs st1 !! i = None -> st_runs st' !! i = None).
Proof.
  intros Hkey Hc Hid Hsp. unfold delete_run. eapply wp_part; [apply resolve_wp|]. intros r st' (-> & Hr & Hpl). destruct r as [bs|]; cbn.
  2: { split_and!; [done| |done]. intros bs Hp. by specialize (Hr bs Hp). }
  destruct (set (bs_OwnerID bs)) eqn:Eo.
  { split_and!; [done| |done]. intros bs' Hp. pose proof (Hr bs' Hp) as [= ->]. destruct Hp as [Hp _]. by rewrite Hp in Eo. }
  intros a st2 (n2 & ord2 & orc2 & _ & _ & [= -> ->]). cbn. intros b st2 (n3 & ord3 & orc3 & _ & _ & [= -> ->]). cbn.
  intros c st2 (n4 & ord4 & orc4 & _ & _ & [= -> ->]). cbn. rewrite (Hkey id u ref Hid). split_and!.
  - apply (cleaned_delete st st1 id u ref bs); [done|done|done|by apply Hpl|]. intros bs' Hp. by pose proof (Hr bs' Hp) as [= ->].
  - intros _ _. by rewrite lookup_delete_eq.
  - intros i Hi. by rewrite lookup_delete_None; right.
Qed.

(** The runs of a tenant that lie with the platform are gone. *)
Definition emptied (st : state) (u : string) (st' : state) : Prop :=
  forall id ref bs, st_runs st !! id = Some (u, ref) -> placed ref bs -> st_runs st' !! id = None.
(** Runs only go. *)
Definition fewer (st st' : state) : Prop := forall id, st_runs st !! id = None -> st_runs st' !! id = None.

Lemma runs_of_spec u st ref : ref ∈ runs_of u st <-> exists id, st_runs st !! id = Some (u, ref).
Proof.
  unfold runs_of. rewrite list_elem_of_fmap. split.
  - intros ([id [v r]] & -> & Hin). rewrite list_elem_of_In, filter_In, <- list_elem_of_In in Hin. destruct Hin as [Hin Hv].
    apply String.eqb_eq in Hv. cbn in Hv. subst v. exists id. by apply elem_of_map_to_list in Hin.
  - intros [id Hid]. exists (id, (u, ref)). split; [done|]. rewrite list_elem_of_In, filter_In, <- list_elem_of_In. cbn.
    rewrite String.eqb_refl. split; [|done]. by apply elem_of_map_to_list.
Qed.

Lemma backups_wp st st1 u : keyed st -> cleaned st st1 -> spent st u t1 ->
  wp (deleteTenantBackups u) st1 (fun _ st' => cleaned st st' /\ emptied st u st' /\ fewer st1 st').
Proof.
  intros Hkey Hc Hsp a st2 (n2 & ord2 & orc2 & _ & _ & [= -> ->]). cbn [answered replied].
  change (wp (each (runs_of u st1) delete_run) st1 (fun _ st' => cleaned st st' /\ emptied st u st' /\ fewer st1 st')).
  set (I st' := cleaned st st' /\ fewer st1 st').
  eapply wp_mono; [|apply (wp_each I (fun ref st' => forall id bs, st_runs st !! id = Some (u, ref) -> placed ref bs -> st_runs st' !! id = None))].
  - intros [] st' ((Hc' & Hf) & Hd & _). split_and!; [done| |done]. intros id ref bs Hid Hp.
    destruct (cl_runs _ _ Hc id) as [Hn|He]; [by apply Hf|]. eapply Hd; [|done|exact Hp]. apply runs_of_spec. exists id. by rewrite He.
  - split; [done|by intros id].
  - intros ref st2 Hin [Hc2 Hf2]. apply runs_of_spec in Hin as [id Hid].
    assert (Hid0 : st_runs st !! id = Some (u, ref)) by (destruct (cl_runs _ _ Hc id); congruence).
    eapply wp_mono; [|by apply (delete_run_wp st st2 id u)]. intros [] st3 (Hc3 & Hp3 & Hf3). split_and!.
    + split; [done|]. intros i Hi. by apply Hf3, Hf2.
    + intros i bs Hi. rewrite <- (Hkey i u ref Hi), (Hkey id u ref Hid0). apply Hp3.
    + intros r Hr i bs Hi Hp. by eapply Hf3, Hr.
Qed.

Lemma templates_untracked u : only untracked (deleteTenantTemplates s u).
Proof. unfold deleteTenantTemplates, delete_template. only_tac ltac:(exact I). Qed.

Lemma spec_wp st override key def :
  wp (effectiveSpec override key def) st (fun v st' => st' = st /\ v = Billing.effectiveSpec override (e_settings e key) def).
Proof.
  unfold effectiveSpec, Billing.effectiveSpec at 2. destruct (ValidRetentionSpec override) eqn:E; [done|].
  intros a st' (n & ord & orc & _ & _ & [= -> ->]). split; [done|]. unfold Billing.effectiveSpec. by rewrite E.
Qed.

Lemma retain_one_wp st st1 u now : keyed st -> cleaned st st1 -> Status (read st u) = "suspended" -> t0 <= now <= t1 ->
  wp (retain_one s now (read st u)) st1 (fun _ st' => cleaned st st' /\ (spent st u t0 -> emptied st u st') /\ fewer st1 st').
Proof.
  intros Hkey Hc Hu Hn. unfold retain_one.
  destruct (SuspendedAt (read st u)) as [at_|] eqn:Ea; [|split_and!; [done| |by intros ?]; intros (_ & _ & ? & ? & ? & _); congruence].
  destruct (AdminHold (read st u)) eqn:Eh; [split_and!; [done| |by intros ?]; intros (_ & ? & _); congruence|].
  eapply wp_part; [apply spec_wp|]. intros spec st' [-> ->].
  destruct (AddRetention at_ _) as [deadline|] eqn:Ed.
  2: { split_and!; [done| |by intros ?]. intros (_ & _ & at' & d & Ha & Hd & _). rewrite Ea in Ha. injection Ha as ->. congruence. }
  destruct (Z.ltb_spec now deadline) as [Hlt|Hle].
  { split_and!; [done| |by intros ?]. intros (_ & _ & at' & d & Ha & Hd & Hle). rewrite Ea in Ha. injection Ha as ->.
    rewrite Ed in Hd. injection Hd as ->. lia. }
  assert (Hsp : spent st u t1) by (split_and!; [done|done|]; exists at_, deadline; split_and!; [done|done|lia]).
  eapply wp_part; [rewrite read_user; by apply (backups_wp st)|]. intros [] st2 (Hc2 & He2 & Hf2).
  apply wp_skips; [apply templates_untracked|]. intros [] st3 Hs3. split_and!; [by eapply cleaned_same| |].
  - intros _ id ref bs Hid Hp. destruct Hs3 as (_ & _ & -> & _). by eapply He2.
  - intros id Hid. destruct Hs3 as (_ & _ & -> & _). by apply Hf2.
Qed.

Lemma cleanup_wp st : keyed st -> wp (cleanupExpiredR2 s) st (fun _ st' => cleaned st st' /\ forall u, spent st u t0 -> emptied st u st').
Proof.
  intros Hkey. apply wp_listed. intros l Hl. apply wp_now. intros now Hn.
  eapply wp_mono; [|apply (wp_each (cleaned st) (fun b st' => spent st (UserID b) t0 -> emptied st (UserID b) st')); [apply cleaned_refl|]].
  - intros [] st' (Hc & Hd & _). split; [done|]. intros u Hu. rewrite <- (read_user st u). apply Hd; [|by rewrite read_user]. apply Hl.
    exists u. destruct Hu as [Hu _]. split_and!; [|done|done]. apply susp_row. unfold susp. by rewrite Hu.
  - intros b st1 Hb Hc. apply Hl in Hb as (u & _ & -> & Hsu). eapply wp_mono; [|by apply retain_one_wp]. intros [] st2 (Hc2 & He & Hf).
    rewrite read_user. split_and!; [done|done|]. intros y Hy Hsp id ref bs Hid Hp. by eapply Hf, Hy.
Qed.

(** *** The whole pass *)

Record settled (st st' : state) : Prop := {
  se_sync : sync st';
  se_on : forall u, marked st' u = true -> cut st' u t1 = true;
  se_off : forall u, overdue (read st u) -> marked st' u = true;
  se_gone : forall id u ref bs, st_runs st !! id = Some (u, ref) -> placed ref bs -> spent st u t0 ->
    st_runs st' !! id = None /\ (bs_ID bs, StorageKey ref) ∉ st_objs st';
  se_kept : forall id u ref, st_runs st !! id = Some (u, ref) -> ~ spent st' u t1 -> st_runs st' !! id = Some (u, ref);
  se_objects : forall obj, obj ∈ st_objs st -> obj ∈ st_objs st' \/
    exists id u ref bs, st_runs st !! id = Some (u, ref) /\ placed ref bs /\ spent st' u t1 /\ obj = (bs_ID bs, StorageKey ref)
}.

Lemma read_fields st st' u : stand st' u = stand st u ->
  Status (read st' u) = Status (read st u) /\ AdminHold (read st' u) = AdminHold (read st u) /\
  SuspendedAt (read st' u) = SuspendedAt (read st u) /\ R2Retention (read st' u) = R2Retention (read st u).
Proof.
  unfold stand. rewrite !read_stand. destruct (default new_row (st_rows st' !! u)), (default new_row (st_rows st !! u)).
  by intros [= -> -> ->].
Qed.

Lemma overdue_stand st st' u : stand st' u = stand st u -> overdue (read st u) -> overdue (read st' u).
Proof. intros H. unfold overdue. by destruct (read_fields _ _ _ H) as (-> & -> & -> & _). Qed.
Lemma spent_stand st st' u t : stand st' u = stand st u -> spent st u t -> spent st' u t.
Proof. intros H. unfold spent. by destruct (read_fields _ _ _ H) as (-> & -> & -> & ->). Qed.

Lemma pass_wp st : sync st -> keyed st -> wp (runOnce s) st (fun _ => settled st).
Proof.
  intros Hs Hkey. unfold runOnce. apply wp_listed. intros l Hl. apply wp_now. intros now Hn.
  eapply wp_part; [apply promote_wp; [done|]|].
  { intros b Hb. apply Hl in Hb as (u & _ & -> & Hu). rewrite read_user. unfold susp. by rewrite Hu. }
  intros [] st1 H1. eapply wp_part; [apply enforce_wp, H1|]. intros [] st2 [H2 Hoff].
  eapply wp_part; [apply limits_wp, H2|]. intros [] st3 H3. eapply wp_part; [apply restore_wp, H3|]. intros [] st4 [H4 Hon].
  pose proof (kept_trans _ _ _ H3 H4) as H34. pose proof (kept_trans _ _ _ (kept_trans _ _ _ H1 H2) H34) as Hk.
  destruct (kp_archives _ _ Hk) as [Hr Ho]. eapply wp_mono; [|apply cleanup_wp; unfold keyed; by rewrite Hr].
  intros [] st5 [Hc Hgone]. destruct (cl_rows _ _ Hc) as [Er Eo].
  assert (Hrd : forall u, read st5 u = read st4 u) by (intros u; unfold read; by rewrite Er). split.
  - intros u t Hu. unfold marked. rewrite Hrd, Eo. by apply (kp_sync _ _ Hk).
  - intros u. unfold marked, cut. rewrite !Hrd. apply Hon.
  - intros u Hu. unfold marked. rewrite Hrd. destruct Hu as [Hst Hu].
    assert (Hsu : susp st u = true) by (unfold susp; by rewrite Hst).
    assert (Hs1 : stand st1 u = stand st u) by by apply H1.
    assert (Hs2 : susp st2 u = true).
    { rewrite <- Hsu, <- (susp_stand st st1 u Hs1). apply susp_stand, H2. by rewrite (susp_stand st st1 u Hs1). }
    apply H34; [done|]. apply Hoff. by apply (overdue_stand st).
  - intros id u ref bs Hid Hp Hsp. assert (Hg : st_runs st5 !! id = None).
    { apply (Hgone u) with (ref := ref) (bs := bs); [|by rewrite Hr|done]. apply (spent_stand st); [|done]. apply Hk. unfold susp.
      destruct Hsp as [-> _]. done. }
    split; [done|]. apply (cl_objects _ _ Hc id u); [by rewrite Hr|done|done].
  - intros id u ref Hid Hns. apply (cl_kept _ _ Hc); [by rewrite Hr|]. intros Hsp. apply Hns. unfold spent. by rewrite Hrd.
  - intros obj Hobj. destruct (cl_only _ _ Hc obj) as [H|(id & u & ref & bs & Hid & Hp & Hsp & ->)]; [by rewrite Ho|by left|right].
    exists id, u, ref, bs. rewrite Hr in Hid. split_and!; try done. unfold spent. by rewrite Hrd.
Qed.

(** *** To the end *)

(** The times, orders and outside answers of the calls of a run. *)
Record choice := mkChoice { ch_now : Z; ch_ord : list UserBilling -> list UserBilling; ch_orc : forall c, ans c }.

Definition fair (ch : nat -> choice) : Prop := forall n, t0 <= ch_now (ch n) <= t1 /\ forall l, ch_ord (ch n) l ≡ₚ l.

(** The program to its end, every call answered. *)
Fixpoint complete {A} (ch : nat -> choice) (p : program A) (st : state) : A * state :=
  match p with
  | Ret a => (a, st)
  | Do c k =>
      let '(a, st') := exec e Replied (ch_now (ch 0%nat)) (ch_ord (ch 0%nat)) (ch_orc (ch 0%nat)) c st in
      complete (fun n => ch (S n)) (k a) st'
  end.

Lemma wp_complete {A} (p : program A) ch st Q : fair ch -> wp p st Q -> Q (complete ch p st).1 (complete ch p st).2.
Proof.
  revert ch st. induction p as [a|c k IH]; intros ch st Hf H; [done|]. cbn.
  destruct (exec _ _ _ _ _ _ _) as [a st'] eqn:E. apply IH; [by intros n; apply (Hf (S n))|]. apply H.
  exists (ch_now (ch 0%nat)), (ch_ord (ch 0%nat)), (ch_orc (ch 0%nat)). destruct (Hf 0%nat) as [H1 H2]. split; [exact H1|]. split; [exact H2|]. by rewrite E.
Qed.
End pass.

(** C14: An hourly pass that is answered and undisturbed settles every account,
    with the gateway connected, no link token of two tenants and every run under
    its own id, from a state in which the Hub has the links of a tenant off
    exactly when their row is marked. The links of a tenant who is not cut off
    are on afterwards; the links of a suspended tenant whose cutoff was, when the
    pass began, as long past as servers get to stop are off. The archives a suspended
    tenant keeps with the platform are gone, row and object, once their
    retention has run out. The runs of every other tenant are there as before,
    and an object is gone only if it is the archive of a run of a tenant whose
    retention has run out. Times are between [t0] and [t1], rows are listed in
    any order. *)
Theorem pass_settles e s t0 t1 ch st :
  t0 <= t1 -> has_gateway s = true -> (forall u v t, owns e s u t -> owns e s v t -> u = v) ->
  sync e s st -> keyed st -> fair t0 t1 ch ->
  let st' := (complete e ch (runOnce s) st).2 in
  (forall u t, owns e s u t -> cut s st' u t1 = false -> t ∉ st_off st') /\
  (forall u t, owns e s u t -> overdue s t0 (read st u) -> t ∈ st_off st') /\
  (forall id u ref bs, st_runs st !! id = Some (u, ref) -> placed e ref bs -> spent e st u t0 ->
    st_runs st' !! id = None /\ (bs_ID bs, StorageKey ref) ∉ st_objs st') /\
  (forall id u ref, st_runs st !! id = Some (u, ref) -> ~ spent e st' u t1 -> st_runs st' !! id = Some (u, ref)) /\
  (forall obj, obj ∈ st_objs st -> obj ∈ st_objs st' \/
    exists id u ref bs, st_runs st !! id = Some (u, ref) /\ placed e ref bs /\ spent e st' u t1 /\ obj = (bs_ID bs, StorageKey ref)).
Proof.
  intros Ht Hg Hd Hs Hk Hf st'.
  assert (H : settled e s t0 t1 st st').
  { apply (wp_complete e t0 t1 (runOnce s) ch st (fun _ => settled e s t0 t1 st)); [done|]. by apply pass_wp. }
  destruct H as [H1 H2 H3 H4 H5 H6]. split_and!; [| |done|done|done].
  - intros u t Hu Hc Ht'. apply (H1 u t Hu) in Ht'. by rewrite (H2 u Ht') in Hc.
  - intros u t Hu Ho. apply (H1 u t Hu). by apply H3.
Qed.

(** A tenant suspended ten days ago, their links still on. *)
Definition ten_days : nat -> choice := fun _ => mkChoice (days 10) id nothing.

Lemma platform_disjoint u v t : owns platform hosted u t -> owns platform hosted v t -> u = v.
Proof. intros [n [Hn _]] [m [Hm _]]. cbn in Hn, Hm. destruct (String.eqb_spec u "tenant"), (String.eqb_spec v "tenant"); set_solver. Qed.
Lemma platform_sync : sync platform hosted (w_st (holding {["tenant" := lapsed]} "online")).
Proof. intros u t [n [Hn _]]. cbn in Hn. destruct (String.eqb_spec u "tenant") as [->|]; [|set_solver]. cbn. set_solver. Qed.
Lemma platform_keyed : keyed (w_st (holding {["tenant" := lapsed]} "online")).
Proof. intros i u ref Hi. cbn in Hi. by apply lookup_singleton_Some in Hi as [<- [= <- <-]]. Qed.
Lemma machine_owned : owns platform hosted "tenant" "link-a".
Proof. exists (machine 1 "a"). split; cbn; set_solver. Qed.

Lemma pass_settles_witness :
  let st := w_st (holding {["tenant" := lapsed]} "online") in
  let st' := (complete platform ten_days (runOnce hosted) st).2 in
  "link-a" ∉ st_off st /\ "link-a" ∈ st_off st' /\ st_runs st !! 5 <> None /\ st_runs st' !! 5 = None.
Proof.
  pose proof (pass_settles platform hosted (days 10) (days 10) ten_days _ ltac:(done) eq_refl platform_disjoint platform_sync platform_keyed
    ltac:(done)) as (_ & Hoff & Hgone & _ & _).
  split; [apply not_elem_of_empty|]. split; [|split; [by vm_compute|]].
  - apply (Hoff "tenant" _ machine_owned). split; [reflexivity|]. exists 0. by split.
  - apply (Hgone 5 "tenant" (mkRef 5 "tenant/5.tar" (Some 1) "" "") ours_1); [reflexivity|by split|]. split; [reflexivity|]. split; [reflexivity|].
    exists 0, (days 7). by split_and!.
Defined.
