(* ===== verification/Sessions.v ===== *)
(** * Panel sessions and accounts (core/handlers/auth, core/handlers/reauth)

    Signing in, the session a browser or the desktop app carries, the second
    factor, password reset, address verification and registration, as programs
    ([Programs]) over the calls they make to Postgres, Redis, the mailer and
    the random source. Nothing is assumed of the answers here.

    A failed read or write is [None] or [false]. Instants are nanoseconds, the
    dates inside a token seconds. Headers, names,
    addresses and settings are ASCII. bcrypt, the
    signing of a JWT, SHA-256, TOTP codes and the parser of URLs are the
    functions of a [lib]. Log lines, texts and cookie attributes are left out.

    Two endpoints are not among the entries of [handle]: the setup wizard, which
    creates the first administrator and hands out its session (setup.go), and
    the operator's rename of a user (core/handlers/users/username_history.go),
    which writes a name under a capability and asks for no password. *)

From Stdlib Require Import Ascii String.
From S2P Require Import Prelude GoStrings Programs.
Open Scope string_scope.
Open Scope list_scope.
Open Scope Z_scope.

(** ** Data *)

(** [models.User], the columns signing in reads. The backup codes are the
    bcrypt hashes of the JSON array; [None] is JSON of another shape. *)
Record User := mkUser {
  ID : string; Username : string; Password : string; Email : string; MinecraftUsername : string; IsAdmin : bool;
  Is2FAEnabled : bool; TOTPSecret : string; TOTPBackupCodes : option (list string); SessionEpoch : Z; PendingEmail : string;
  EmailVerifiedAt : option Z; EmailVerificationSentAt : option Z; DeletionStatus : string; LastUsernameChange : option Z
}.

(** The claims of a token; the dates of [jwt.RegisteredClaims] in seconds. *)
Record Claims := mkClaims {
  cl_Username : string; cl_IsAdmin : bool; cl_Purpose : string; cl_ServerID : Z; cl_TabID : Z; cl_ReadOnly : bool;
  cl_PwdFp : string; cl_LoginAt : Z; cl_ID : string; cl_Issuer : string;
  cl_ExpiresAt : option Z; cl_IssuedAt : option Z; cl_NotBefore : option Z
}.

(** What [url.Parse] gives of an origin. *)
Record URL := mkURL { Scheme : string; Host : string; Hostname : string }.

(** Libraries: [bcrypt.CompareHashAndPassword], the first eight bytes of
    SHA-256 and the first sixteen in hex, a token signed with the key of this
    Core, the claims of a token whose HS256 signature that key verifies, a
    TOTP code for a secret and a time step, [url.Parse], and [json.Unmarshal]
    of a list of strings. *)
Record lib := mkLib {
  bcrypt : string -> string -> bool; sha8 : string -> string; sha16 : string -> string;
  SignedString : Claims -> option string; signed : string -> option Claims;
  totp : string -> string -> Z -> bool; Parse : string -> option URL; Unmarshal : string -> option (list string)
}.

(** [Deps]: what this Core is connected to. *)
Record deps := mkDeps { has_store : bool; has_redis : bool; StoreEnabled : bool; FrontendURL : string }.

(** An HTTP request, as far as signing in looks at it. *)
Record Request := mkRequest {
  Method : string; Path : string; Authorization : string; Origin : string; RHost : string; TLS : bool; ForwardedProto : string;
  Cookies : list (string * string); QueryTicket : string; QueryToken : string
}.

(** What an answer hands to its caller. *)
Inductive given :=
  | Session (tok : string)      (* the session cookie, or the same token in the body *)
  | SetupToken (tok : string)
  | Ticket (t : string)
  | Codes (plain : list string)
  | CookieCleared.
Record reply := mkReply { status : Z; gives : list given }.
Definition refuse (s : Z) : reply := mkReply s [].
Definition ok : reply := mkReply 200 [].

(** ** Calls *)

Inductive lookup := Found (u : User) | NoRows | ReadErr (msg : string).
Inductive renamed := Renamed | NameTaken | RenameErr.
Inductive mail :=
  | VerifyMail (token : string) | ConfirmChangeMail (token : string) | ResetMail (token : string)
  | AddressChangedMail (newEmail : string) | PasswordChangedMail.

(** A question with the bcrypt hash of its answer. *)
Notation qas := (list (string * string)).

Inductive op :=
  | Now | RandHex (n : Z) | RandToken (n : Z) | Hash (password : string)
  (* users *)
  | GetUserByUsername (name : string) | GetUserByID (id : string) | GetUserByEmail (email : string)
  | GetUserByEmailVerificationToken (token : string) | GetUserByPasswordResetToken (token : string)
  | UsernameTaken (name exclude : string) | CreateUser (u : User) | DeleteUser (id : string)
  | UpdateLastLoginAt (id : string) | CancelUserDeletion (id : string)
  | UpdateUserPassword (id hashed : string) | SetUserMinecraftUsername (id mc : string) | RenameUser (id name : string)
  | SetUserEmail (id email : string) | SetEmailVerificationToken (id token : string) | MarkEmailVerified (id : string)
  | SetPendingEmail (id email token : string) | ConfirmPendingEmail (id : string)
  | SetUserTOTP (id secret : string) (codes : list string) (enabled : bool)
  | ConsumeTOTPBackupCode (id : string) (read remaining : list string)
  | SetUserTOTPBackupCodes (id : string) (codes : list string)
  | DisableUserTOTP (id : string) | BumpSessionEpoch (id : string)
  | SetPasswordResetToken (id token : string) (expiresAt issueWhenExpiryAtOrBefore : Z)
  | ResetPasswordWithToken (id token hashed : string)
  | GetUserSecurityQuestionsRaw (id : string) | SetUserSecurityQuestions (id : string) (items : qas)
  (* settings and rights *)
  | GetSetting (key : string) | GetSettingChecked (key : string) | GetUserAccountPolicy
  | StrictPanelCaps (id : string) | MayManageAccount (actor target : string)
  (* the sign-out list *)
  | RevokeSession (id : string) (until : Z) | IsSessionRevoked (id : string)
  | ExistsRevoked (id : string) | SetRevoked (id : string) (ttl : Z)
  (* Redis: tickets, spent steps and the count of code attempts *)
  | TicketGet (t : string) | TicketSet (t value : string) (ttl : Z) | TicketDel (t : string) | TicketExpire (t : string) (ttl : Z)
  | ClaimStep (id : string) (step ttl : Z)
  | CountIncr (id : string) | CountTTL (id : string) | CountExpire (id : string) (ttl : Z) | CountDel (id : string)
  (* the rest *)
  | RevokeAllAPIKeys (id : string) | RevokeAllSSHKeys (id : string) | StampForUser (id : string)
  | Audit (event actor target : string) | Publish (topic id : string)
  | SendMail (to : string) (m : mail) | GoMail (to : string) (m : mail).

Definition ans (c : op) : Type :=
  match c with
  | Now => Z
  | RandHex _ => string
  | RandToken _ | Hash _ => option string
  | GetUserByUsername _ | GetUserByID _ | GetUserByEmail _ | GetUserByEmailVerificationToken _ | GetUserByPasswordResetToken _ => lookup
  | CreateUser _ => option string
  | RenameUser _ _ => renamed
  (* the old address and the new one, or nothing was pending *)
  | ConfirmPendingEmail _ => option (option (string * string))
  | ConsumeTOTPBackupCode _ _ _ | SetPasswordResetToken _ _ _ _ | ResetPasswordWithToken _ _ _ => option bool
  | BumpSessionEpoch _ => option Z
  | GetUserSecurityQuestionsRaw _ => option qas
  | GetSetting _ => string
  (* a missing row is the empty string *)
  | GetSettingChecked _ => option string
  | GetUserAccountPolicy => bool * Z
  | StrictPanelCaps _ => option (list string)
  | IsSessionRevoked _ | ExistsRevoked _ | ClaimStep _ _ _ => option bool
  | TicketGet _ => option string
  | CountIncr _ | CountTTL _ => option Z
  | TicketDel _ | TicketExpire _ _ | CountExpire _ _ | CountDel _ | RevokeAllAPIKeys _ | RevokeAllSSHKeys _ | StampForUser _
  | Audit _ _ _ | Publish _ _ | GoMail _ _ => unit
  | _ => bool
  end.

Notation program := (prog ans).
Definition skip : program unit := Ret tt.
Definition when (b : bool) (p : program unit) : program unit := if b then p else skip.

(** An early return. *)
Definition or_reply {A} (p : program (A + reply)) (k : A -> program reply) : program reply :=
  r ← p; match r with inl a => k a | inr e => Ret e end.

(** ** Strings *)

(** [strings.EqualFold] on ASCII. *)
Definition EqualFold (a b : string) : bool := (ToLower a =? ToLower b)%string.

Fixpoint Contains (s sub : string) : bool :=
  HasPrefix s sub || match s with EmptyString => false | String _ s => Contains s sub end.

Definition TrimPrefix (s p : string) : string := if HasPrefix s p then drop_str (String.length p) s else s.

Definition alnum (c : ascii) : bool :=
  is_digit c || ((65 <=? code c) && (code c <=? 90)) || ((97 <=? code c) && (code c <=? 122)).
Definition blank (c : ascii) : bool := (code c =? 32) || ((9 <=? code c) && (code c <=? 13)).
Definition one_of (l : string) (c : ascii) : bool := existsb (Ascii.eqb c) (list_ascii_of_string l).
Definition length_between (lo hi : nat) (s : string) : bool := (lo <=? String.length s)%nat && (String.length s <=? hi)%nat.

(** [validate.IsUsername]: [^[a-zA-Z0-9][a-zA-Z0-9_.\-]{2,31}$] *)
Definition IsUsername (s : string) : bool :=
  match s with
  | EmptyString => false
  | String c rest => alnum c && all_chars (fun c => alnum c || one_of "_.-" c) rest && length_between 2 31 rest
  end.

(** [validate.IsMinecraftUsername]: [^[a-zA-Z0-9_]{3,16}$] *)
Definition IsMinecraftUsername (s : string) : bool := all_chars (fun c => alnum c || one_of "_" c) s && length_between 3 16 s.

(** [emailRegex] and [validate.IsEmail]: [^[^\s@]+@[^\s@]+\.[^\s@]+$], where
    [\s] does not hold the vertical tab. *)
Definition addr_char (c : ascii) : bool := negb (blank c && negb (code c =? 11)) && negb (Ascii.eqb c "@").
Definition IsEmail (s : string) : bool :=
  match Cut "@" s with
  | None => false
  | Some (local, domain) =>
      negb (local =? "")%string && all_chars addr_char local && all_chars addr_char domain &&
      match list_ascii_of_string domain with
      | [] => false
      | _ :: rest => existsb (Ascii.eqb ".") (List.removelast rest)
      end
  end.

(** [fmt.Sscanf(v, "%d", &n)] without its error: blanks, a sign, digits. *)
Fixpoint skip_blanks (s : string) : string :=
  match s with String c r => if blank c && negb (code c =? 10) then skip_blanks r else s | EmptyString => s end.
Fixpoint digits_prefix (s : string) : string :=
  match s with String c r => if is_digit c then String c (digits_prefix r) else "" | EmptyString => "" end.
Definition Sscanf_d (v : string) : option Z :=
  let v := skip_blanks v in
  match v with
  | String c r => if one_of "+-" c then Atoi (String c (digits_prefix r)) else Atoi (digits_prefix v)
  | EmptyString => None
  end.

(** ** The policy (core/services/auth_policy.go) *)

Record AuthPolicy := mkPolicy {
  RegistrationEnabled : bool; EmailVerifyRequired : bool; PasswordMinLength : Z; Require2FAForAdmins : bool; Require2FAForAllUsers : bool;
  PasswordResetLinkTTLMinutes : Z; SecurityQuestionsEnabled : bool; SecurityQuestionsRequiredAtSignup : bool;
  SecurityQuestionsRequiredAtReset : bool; SecurityQuestionsCount : Z; InactiveDeleteEnabled : bool; InactiveDaysBeforeDelete : Z;
  HistoryGraceExtraDays : Z; DeleteEmailWarningDays : Z; DeletionMode : string
}.

Definition flag (key : string) : program bool :=
  v ← call (GetSetting key); Ret (v =? "true")%string.
Definition number (key : string) (lo hi dflt : Z) : program Z :=
  v ← call (GetSetting key);
  Ret (match Sscanf_d v with Some n => if (lo <=? n) && (n <=? hi) then n else dflt | None => dflt end).

(** Every flag is false by default, so that an empty value reads as false. *)
Definition LoadAuthPolicy : program AuthPolicy :=
  registration ← flag "auth.registration_enabled";
  verify ← flag "auth.email_verify_required";
  minLength ← number "auth.password_min_length" 4 128 12;
  admins ← flag "auth.require_2fa_for_admins";
  everyone ← flag "auth.require_2fa_for_all_users";
  ttl ← number "auth.password_reset_link_ttl_minutes" 5 (24 * 60) 60;
  questions ← flag "auth.security_questions_enabled";
  atSignup ← flag "auth.security_questions_required_at_signup";
  atReset ← flag "auth.security_questions_required_at_reset";
  count ← number "auth.security_questions_count" 1 10 3;
  inactive ← flag "auth.inactive_delete_enabled";
  days ← number "auth.inactive_days_before_delete" 7 3650 90;
  grace ← number "auth.history_grace_extra_days" 0 3650 90;
  warning ← number "auth.delete_email_warning_days" 0 30 7;
  mode ← call (GetSetting "auth.deletion_mode");
  Ret (mkPolicy registration verify minLength admins everyone ttl questions atSignup atReset count inactive days grace warning
    (if (mode =? "hard_delete")%string then mode else "anonymize")).

(** ** Origins (session_cookie.go) *)

Section origins.
Context (L : lib).

Definition requestIsHTTPS (r : Request) : bool := TLS r || EqualFold (ForwardedProto r) "https".
Definition sessionCookieNameFor (r : Request) : string := if requestIsHTTPS r then "__Host-dylaris_session" else "dylaris_session".

Definition sessionTokenFromCookie (r : Request) : string :=
  match List.find (fun kv => (kv.1 =? sessionCookieNameFor r)%string) (Cookies r) with
  | Some kv => TrimSpace kv.2
  | None => ""
  end.

Definition isWailsWebviewOrigin (origin : string) : bool :=
  match Parse L origin with
  | None => false
  | Some u => EqualFold (Scheme u) "wails" || EqualFold (Hostname u) "wails.localhost"
  end.

Definition sameOrigin (origin configured : string) : bool :=
  match Parse L origin, Parse L (TrimSpace configured) with
  | Some a, Some b =>
      negb (Host a =? "")%string && negb (Host b =? "")%string && EqualFold (Scheme a) (Scheme b) && EqualFold (Host a) (Host b)
  | _, _ => false
  end.

Definition originMatchesHost (origin : string) (r : Request) : bool :=
  match Parse L origin with
  | Some a => negb (Host a =? "")%string && EqualFold (Scheme a) (if requestIsHTTPS r then "https" else "http") && EqualFold (Host a) (RHost r)
  | None => false
  end.

Definition safe_method (m : string) : bool := bool_decide (m ∈ ["GET"; "HEAD"; "OPTIONS"]).

Definition requireSameOriginForCookieAuth (r : Request) (frontendURL : string) : bool :=
  safe_method (Method r) ||
  let origin := TrimSpace (Origin r) in
  negb (origin =? "")%string && (sameOrigin origin frontendURL || originMatchesHost origin r || isWailsWebviewOrigin origin).
End origins.

(** ** Session lifetime (session_lifetime.go) *)

Definition sec : Z := 10 ^ 9.
Definition minutes (n : Z) : Z := n * 60 * sec.
Definition hours (n : Z) : Z := n * 3600 * sec.
Definition sessionTTL : Z := hours (30 * 24).
Definition sessionMaxAge : Z := hours (90 * 24).
Definition sessionSlideAfter : Z := hours 1.
Definition legacySessionTTL : Z := hours 24.
Definition sseTicketTTL : Z := minutes 5.

(** [t.Unix()], and [jwt.NewNumericDate], which cuts to the second. *)
Definition Unix (t : Z) : Z := t / sec.

Definition sessionExpiry (now loginAt : Z) : Z :=
  let exp := now + sessionTTL in let limit := loginAt + sessionMaxAge in if limit <? exp then limit else exp.

(** The date a token was typed a password for, when it says so itself. *)
Definition login_date (c : Claims) : option Z :=
  if 0 <? cl_LoginAt c then Some (cl_LoginAt c * sec)
  else match cl_ExpiresAt c with Some e => Some (e * sec - legacySessionTTL) | None => None end.

Definition loginTime (c : Claims) : program Z :=
  match login_date c with Some t => Ret t | None => call Now end.

Section sessions.
Context (L : lib) (d : deps).

Definition passwordFingerprint (hash : string) : string := if (hash =? "")%string then "" else sha8 L hash.

Definition sessionKey (u : User) : string :=
  if SessionEpoch u =? 0 then Password u else Password u +:+ "#" +:+ Itoa (SessionEpoch u).

Definition newSessionClaims (username : string) (isAdmin : bool) (pwdHash : string) : program Claims :=
  now ← call Now;
  id ← call (RandHex 16);
  Ret (mkClaims username isAdmin "" 0 0 false (passwordFingerprint pwdHash) (Unix now) id ""
    (Some (Unix (sessionExpiry now now))) (Some (Unix now)) None).

Definition withSessionID (c : Claims) (token : string) : Claims :=
  if (cl_ID c =? "")%string
  then mkClaims (cl_Username c) (cl_IsAdmin c) (cl_Purpose c) (cl_ServerID c) (cl_TabID c) (cl_ReadOnly c) (cl_PwdFp c) (cl_LoginAt c)
         ("legacy-" +:+ sha16 L token) (cl_Issuer c) (cl_ExpiresAt c) (cl_IssuedAt c) (cl_NotBefore c)
  else c.

(** The same session with other dates. *)
Definition dated (c : Claims) (id : string) (loginAt : Z) (exp : option Z) (iat : option Z) : Claims :=
  mkClaims (cl_Username c) (cl_IsAdmin c) (cl_Purpose c) (cl_ServerID c) (cl_TabID c) (cl_ReadOnly c) (cl_PwdFp c) loginAt
    id (cl_Issuer c) exp iat (cl_NotBefore c).

Definition IssueToken (username : string) (isAdmin : bool) (pwdHash : string) : program (option string) :=
  c ← newSessionClaims username isAdmin pwdHash; Ret (SignedString L c).

Definition copyOfSession (c : option Claims) (username : string) (isAdmin : bool) (pwdHash : string) : program (option string) :=
  next ← newSessionClaims username isAdmin pwdHash;
  match c with
  | Some c =>
      if (cl_ID c =? "")%string then Ret (SignedString L next)
      else loginAt ← loginTime c;
           now ← call Now;
           Ret (SignedString L (dated next (cl_ID c) (Unix loginAt) (Some (Unix (sessionExpiry now loginAt))) (cl_IssuedAt next)))
  | None => Ret (SignedString L next)
  end.

(** The token the sliding session is replaced by, if any. *)
Definition slideSession (c : Claims) : program (option string) :=
  now ← call Now;
  if match cl_IssuedAt c with Some iat => now - iat * sec <? sessionSlideAfter | None => false end then Ret None else
  loginAt ← loginTime c;
  let exp := sessionExpiry now loginAt in
  if match cl_ExpiresAt c with Some e => exp <=? e * sec | None => false end then Ret None else
  Ret (SignedString L (dated c (cl_ID c) (Unix loginAt) (Some (Unix exp)) (Some (Unix now)))).

(** Whether the session was put on the list, or needed no entry. *)
Definition revokeSession (c : Claims) : program bool :=
  if (cl_ID c =? "")%string then Ret true else
  loginAt ← loginTime c;
  let until := loginAt + sessionMaxAge in
  now ← call Now;
  if until - now <=? 0 then Ret true else
  stored ← (if has_store d then call (RevokeSession (cl_ID c) until) else Ret true : program bool);
  if negb stored then Ret false else
  if has_redis d then call (SetRevoked (cl_ID c) (until - now)) else Ret true.

Definition sessionRevoked (id : string) : program bool :=
  if (id =? "")%string then Ret false else
  n ← (if has_redis d then call (ExistsRevoked id) else Ret None : program (option bool));
  match n with
  | Some true => Ret true
  | _ => if negb (has_store d) then Ret false else
         b ← call (IsSessionRevoked id);
         Ret (match b with Some b => b | None => false end)
  end.

(** ** The middleware (auth.go) *)

(** [jwt.ParseWithClaims]: signed with the key, not expired, not before its
    time. *)
Definition ParseWithClaims (token : string) (now : Z) : option Claims :=
  match signed L token with
  | None => None
  | Some c =>
      if match cl_ExpiresAt c with Some e => now <? e * sec | None => true end &&
         match cl_NotBefore c with Some n => n * sec <=? now | None => true end
      then Some c else None
  end.

(** [^/api/(system/events|servers/[0-9]+/(console|stats)/stream)$] *)
Definition sseTicketPaths (path : string) : bool :=
  match Split "/" path with
  | [""; "api"; "system"; "events"] => true
  | [""; "api"; "servers"; n; what; "stream"] =>
      negb (n =? "")%string && all_chars is_digit n && ((what =? "console")%string || (what =? "stats")%string)
  | _ => false
  end.

Definition sseTicketSep : ascii := ascii_of_nat 31.

Definition parseSSETicket (val : string) : string * string * string * bool :=
  match Cut sseTicketSep val with
  | None => (val, "", "", true)
  | Some (username, rest) =>
      match Cut sseTicketSep rest with
      | None => (username, rest, "", false)
      | Some (fp, sid) => (username, fp, sid, false)
      end
  end.

Definition setupTokenAllowedPaths : list (string * string) :=
  [("/api/auth/2fa/setup", "POST"); ("/api/auth/2fa/verify", "POST"); ("/api/auth/profile", "GET")].

(** The context of an admitted request: who, by which row, with which token. *)
Record identity := mkIdentity {
  i_username : string; i_isAdmin : bool; i_userID : option string; i_purpose : string; i_claims : option Claims; i_loadedAt : option Z
}.

Inductive verdict :=
  | Admit (i : identity) (slid : option string)
  | Refuse (status : Z) (cleared : bool).

(** [demo.IsAccountChecked]; [None] is an error. *)
Definition IsAccountChecked (userID : string) : program (option bool) :=
  if negb (StoreEnabled d) || (userID =? "")%string then Ret (Some false) else
  v ← call (GetSettingChecked "demo_account_uuid");
  Ret (match v with None => None | Some v => Some (negb (v =? "")%string && (v =? userID)%string) end).

(** A stream opened with the ticket in its URL. *)
Definition by_ticket (ticket stored : string) : program verdict :=
  let '(username, fp, sid, legacy) := parseSSETicket stored in
  revoked ← sessionRevoked sid;
  if revoked : bool then _ ← call (TicketDel ticket); Ret (Refuse 401 false) else
  _ ← when (negb legacy) (call (TicketExpire ticket sseTicketTTL));
  if negb (has_store d) then Ret (Admit (mkIdentity username false None "" None None) None) else
  u ← call (GetUserByUsername username);
  match u with
  | NoRows => _ ← call (TicketDel ticket); Ret (Refuse 401 false)
  | ReadErr _ => Ret (Refuse 503 false)
  | Found u =>
      if negb (fp =? "")%string && negb (fp =? passwordFingerprint (sessionKey u))%string
      then _ ← call (TicketDel ticket); Ret (Refuse 401 false)
      else Ret (Admit (mkIdentity username (IsAdmin u) (Some (ID u)) "" None None) None)
  end.

Definition setup_allows (r : Request) : bool :=
  match List.find (fun pm => (pm.1 =? Path r)%string) setupTokenAllowedPaths with
  | Some pm => (pm.2 =? Method r)%string
  | None => false
  end.

(** Everything that refuses a verified token before its row is read. *)
Definition token_fits (r : Request) (c : Claims) : bool :=
  (negb (cl_Purpose c =? "2fa_setup")%string || setup_allows r) &&
  negb (cl_Purpose c =? "tab_proxy")%string && (cl_Issuer c =? "")%string.

Definition by_row (r : Request) (cookieAuth : bool) (c : Claims) : program verdict :=
  at_ ← call Now;
  u ← call (GetUserByUsername (cl_Username c));
  match u with
  | NoRows => Ret (Refuse 401 false)
  | ReadErr _ => Ret (Refuse 503 false)
  | Found u =>
      if match cl_ExpiresAt c with None => true | Some _ => false end || negb (cl_PwdFp c =? passwordFingerprint (sessionKey u))%string
      then Ret (Refuse 401 false) else
      let who := mkIdentity (cl_Username c) (IsAdmin u) (Some (ID u)) (cl_Purpose c) (Some c) (Some at_) in
      demo ← (if negb (IsAdmin u) && negb (safe_method (Method r)) then IsAccountChecked (ID u) else Ret (Some false));
      match demo with
      | None => Ret (Refuse 503 false)
      | Some true => Ret (Refuse 403 false)
      | Some false =>
          slid ← (if cookieAuth && (cl_Purpose c =? "")%string then slideSession c else Ret None);
          Ret (Admit who slid)
      end
  end.

Definition by_token (r : Request) (token : string) (cookieAuth : bool) : program verdict :=
  now ← call Now;
  match ParseWithClaims token now with
  | None => Ret (Refuse 401 cookieAuth)
  | Some c =>
      let c := withSessionID c token in
      revoked ← sessionRevoked (cl_ID c);
      if revoked : bool then Ret (Refuse 401 cookieAuth) else
      if negb (token_fits r c) then Ret (Refuse 403 false) else
      if has_store d then by_row r cookieAuth c
      else Ret (Admit (mkIdentity (cl_Username c) (cl_IsAdmin c) None (cl_Purpose c) (Some c) None) None)
  end.

Definition by_credentials (r : Request) : program verdict :=
  let header := if (Authorization r =? "")%string && negb (QueryToken r =? "")%string && (Method r =? "GET")%string
                then "Bearer " +:+ QueryToken r else Authorization r in
  if negb (header =? "")%string then by_token r (TrimPrefix header "Bearer ") false else
  let tok := sessionTokenFromCookie r in
  if (tok =? "")%string then Ret (Refuse 401 false) else
  if requireSameOriginForCookieAuth L r (FrontendURL d) then by_token r tok true else Ret (Refuse 403 false).

Definition AuthMiddleware (r : Request) : program verdict :=
  if (Authorization r =? "")%string && (Method r =? "GET")%string && has_redis d && sseTicketPaths (Path r) &&
     negb (QueryTicket r =? "")%string
  then stored ← call (TicketGet (QueryTicket r));
       match stored with
       | Some v => if (v =? "")%string then by_credentials r else by_ticket (QueryTicket r) v
       | None => by_credentials r
       end
  else by_credentials r.

(** A handler behind the middleware. *)
Definition authed (r : Request) (next : identity -> program reply) : program reply :=
  v ← AuthMiddleware r;
  match v with
  | Refuse s cleared => Ret (mkReply s (if cleared then [CookieCleared] else []))
  | Admit i slid =>
      a ← next i;
      Ret (mkReply (status a) ((match slid with Some t => [Session t] | None => [] end) ++ gives a))
  end.

Definition hasSessionShape (c : Claims) : bool :=
  match cl_ExpiresAt c with Some _ => true | None => false end && negb (cl_PwdFp c =? "")%string.

Definition IsAdminToken (r : Request) : program bool :=
  let header := if (Authorization r =? "")%string && negb (QueryToken r =? "")%string then "Bearer " +:+ QueryToken r else Authorization r in
  let token := TrimPrefix header "Bearer " in
  if (token =? "")%string then Ret false else
  now ← call Now;
  Ret (match ParseWithClaims token now with Some c => cl_IsAdmin c && hasSessionShape c | None => false end).

(** ** Tickets *)

Definition tabProxyTicketTTL : Z := minutes 5.

Definition IssueTabProxyTicket (sessionID username : string) (isAdmin : bool) (serverID tabID : Z) (readOnly : bool) : program (option string) :=
  now ← call Now;
  Ret (SignedString L (mkClaims username isAdmin "tab_proxy" serverID tabID readOnly "" 0 sessionID ""
    (Some (Unix (now + tabProxyTicketTTL))) None None)).

Definition ParseTabProxyTicket (token : string) : program (option Claims) :=
  now ← call Now;
  match ParseWithClaims token now with
  | None => Ret None
  | Some c =>
      if negb (cl_Purpose c =? "tab_proxy")%string then Ret None else
      revoked ← sessionRevoked (cl_ID c);
      Ret (if revoked : bool then None else Some c)
  end.

Definition MintSSETicket (i : identity) : program reply :=
  if negb (has_redis d) then Ret (refuse 503) else
  if (i_username i =? "")%string then Ret (refuse 401) else
  or_reply (if negb (has_store d) then Ret (inl "") else
            u ← call (GetUserByUsername (i_username i));
            Ret (match u with Found u => inl (passwordFingerprint (sessionKey u)) | _ => inr (refuse 503) end)) (fun fp =>
  t ← call (RandToken 32);
  match t with
  | None => Ret (refuse 500)
  | Some t =>
      let sid := match i_claims i with Some c => cl_ID c | None => "" end in
      let sep := String sseTicketSep "" in
      stored ← call (TicketSet t (i_username i +:+ sep +:+ fp +:+ sep +:+ sid) sseTicketTTL);
      Ret (if stored : bool then mkReply 200 [Ticket t] else refuse 503)
  end).

(** ** The second factor (totp.go, reauth.go) *)

Definition TOTPStepSeconds : Z := 30.
Definition totpReplayTTL : Z := 3 * TOTPStepSeconds * sec.
Definition wrongCodeLimit : Z := 10.
Definition wrongCodeWindow : Z := minutes 15.

(** The step of an instant. *)
Definition step_of (t : Z) : Z := Unix t / TOTPStepSeconds.

(** The step before, the current one and the next, in this order. *)
Definition MatchTOTPStep (code secret : string) (now : Z) : option Z :=
  if (secret =? "")%string then None
  else List.find (totp L code secret) (map (fun off => step_of (now + off * TOTPStepSeconds * sec)) [-1; 0; 1]).

Definition claimTOTPStep (userID : string) (step : Z) : program bool :=
  if negb (has_redis d) then Ret true else
  free ← call (ClaimStep userID step totpReplayTTL);
  Ret (match free with Some free => free | None => true end).

Definition reserveCodeAttempt (userID : string) : program bool :=
  if negb (has_redis d) then Ret true else
  n ← call (CountIncr userID);
  match n with
  | None => Ret true
  | Some n =>
      ttl ← call (CountTTL userID);
      _ ← when (match ttl with Some ttl => ttl <? 0 | None => false end) (call (CountExpire userID wrongCodeWindow));
      Ret (n <=? wrongCodeLimit)
  end.

Definition clearCodeAttempts (userID : string) : program unit := when (has_redis d) (call (CountDel userID)).

Inductive code_check := CodeRight | CodeWrong | CodeFailed | TooManyCodes.

(** The list without its first code that the caller typed. *)
Fixpoint without_code (hashed : list string) (code : string) : option (list string) :=
  match hashed with
  | [] => None
  | h :: rest => if bcrypt L h code then Some rest else match without_code rest code with Some r => Some (h :: r) | None => None end
  end.

Definition backup_code (u : User) (code : string) : program code_check :=
  match TOTPBackupCodes u with
  | None => Ret CodeFailed
  | Some hashed =>
      match without_code hashed code with
      | None => Ret CodeWrong
      | Some remaining =>
          spent ← call (ConsumeTOTPBackupCode (ID u) hashed remaining);
          match spent with
          | None => Ret CodeFailed
          | Some false => Ret CodeWrong
          | Some true => _ ← call (Audit "2fa_backup_code_consumed" (ID u) (ID u)); Ret CodeRight
          end
      end
  end.

Definition check_code (u : User) (code : string) (claimStep : bool) : program code_check :=
  step ← (if (TOTPSecret u =? "")%string then Ret None else now ← call Now; Ret (MatchTOTPStep code (TOTPSecret u) now));
  match step with
  | Some step =>
      free ← (if claimStep then claimTOTPStep (ID u) step else Ret true);
      Ret (if free : bool then CodeRight else CodeWrong)
  | None => backup_code u code
  end.

Definition verifyTOTPOrBackupWith (u : User) (code : string) (claimStep : bool) : program code_check :=
  let code := TrimSpace code in
  if (code =? "")%string then Ret CodeWrong else
  within ← reserveCodeAttempt (ID u);
  if negb within then Ret TooManyCodes else
  r ← check_code u code claimStep;
  _ ← when (match r with CodeRight => true | _ => false end) (clearCodeAttempts (ID u));
  Ret r.

(** [codeCheckFailed], and what a wrong code is answered with. *)
Definition code_reply (r : code_check) (wrong : Z) : option reply :=
  match r with
  | CodeRight => None
  | CodeWrong => Some (refuse wrong)
  | CodeFailed => Some (refuse 500)
  | TooManyCodes => Some (refuse 429)
  end.

(** [None] is to proceed. *)
Definition RequireReauth (userID password code : string) : program (option Z) :=
  if negb (has_store d) then Ret (Some 503) else
  u ← call (GetUserByID userID);
  match u with
  | Found u =>
      if negb (bcrypt L (Password u) password) then Ret (Some 401) else
      if negb (Is2FAEnabled u) then Ret None else
      r ← verifyTOTPOrBackupWith u code false;
      Ret (match r with CodeRight => None | TooManyCodes => Some 429 | CodeFailed => Some 500 | CodeWrong => Some 401 end)
  | _ => Ret (Some 401)
  end.

Definition RequireAdminReauth (i : identity) (password code : string) : program (option Z) :=
  match i_userID i with
  | None => Ret (Some 401)
  | Some actorID => if (actorID =? "")%string then Ret (Some 401) else RequireReauth actorID password code
  end.

(** ** Ending sessions (auth.go) *)

(** The user with the new epoch, or nothing changed. *)
Definition with_epoch (u : User) (epoch : Z) : User :=
  mkUser (ID u) (Username u) (Password u) (Email u) (MinecraftUsername u) (IsAdmin u) (Is2FAEnabled u) (TOTPSecret u) (TOTPBackupCodes u)
    epoch (PendingEmail u) (EmailVerifiedAt u) (EmailVerificationSentAt u) (DeletionStatus u) (LastUsernameChange u).

Definition endAllSessions (u : User) : program (option User) :=
  epoch ← call (BumpSessionEpoch (ID u));
  Ret (match epoch with Some e => Some (with_epoch u e) | None => None end).

Definition endSessionsAfter (u : User) : program User :=
  r ← endAllSessions u; Ret (match r with Some u => u | None => u end).

Definition reissueOwnSession (u : User) : program (list given) :=
  tok ← IssueToken (Username u) (IsAdmin u) (sessionKey u);
  Ret (match tok with Some t => [Session t] | None => [] end).

Definition Logout (r : Request) : program reply :=
  let tok := sessionTokenFromCookie r in
  _ ← (if negb (tok =? "")%string && requireSameOriginForCookieAuth L r (FrontendURL d) then
         now ← call Now;
         match ParseWithClaims tok now with
         | Some c => if (cl_Purpose c =? "")%string then revokeSession (withSessionID c tok) else Ret true
         | None => Ret true
         end
       else Ret true : program bool);
  Ret (mkReply 200 [CookieCleared]).

Definition LogoutEverywhere (i : identity) : program reply :=
  if (i_username i =? "")%string || negb (has_store d) then Ret (refuse 401) else
  u ← call (GetUserByUsername (i_username i));
  match u with
  | Found u =>
      u' ← endAllSessions u;
      match u' with
      | None => Ret (refuse 500)
      | Some u => _ ← call (Audit "sessions_revoked" (ID u) (ID u)); g ← reissueOwnSession u; Ret (mkReply 200 g)
      end
  | _ => Ret (refuse 401)
  end.

Definition SessionToken_ (r : Request) (i : identity) : program reply :=
  if negb (isWailsWebviewOrigin L (TrimSpace (Origin r))) then Ret (refuse 404) else
  if (i_username i =? "")%string || negb (has_store d) then Ret (refuse 401) else
  u ← call (GetUserByUsername (i_username i));
  match u with
  | Found u =>
      tok ← copyOfSession (i_claims i) (Username u) (IsAdmin u) (sessionKey u);
      Ret (match tok with Some t => mkReply 200 [Session t] | None => refuse 500 end)
  | _ => Ret (refuse 401)
  end.

(** ** Signing in (auth.go) *)

Definition unavailable_words : list string :=
  ["connection refused"; "dial tcp"; "no such host"; "bad connection"; "connection reset"; "broken pipe"; "i/o timeout";
   "server closed the connection"; "the database system is"; "does not exist"].
Definition dbUnavailable (msg : string) : bool := existsb (Contains (ToLower msg)) unavailable_words.

Record LoginRequest := mkLogin { lr_Username : string; lr_Password : string; lr_TOTPCode : string }.

Definition needs2FA (p : AuthPolicy) (u : User) : bool :=
  negb (Is2FAEnabled u) && ((IsAdmin u && Require2FAForAdmins p) || Require2FAForAllUsers p).

Definition setup_token (u : User) : program reply :=
  now ← call Now;
  Ret (mkReply 403 (match SignedString L (mkClaims (Username u) (IsAdmin u) "2fa_setup" 0 0 false
                            (passwordFingerprint (sessionKey u)) 0 "" "" (Some (Unix (now + minutes 15))) None None) with
                    | Some t => [SetupToken t] | None => [] end)).

(** The session of a caller who passed every gate. *)
Definition sign_in (u : User) : program reply :=
  tok ← IssueToken (Username u) (IsAdmin u) (sessionKey u);
  match tok with
  | None => Ret (refuse 500)
  | Some tok =>
      _ ← call (UpdateLastLoginAt (ID u));
      _ ← when (DeletionStatus u =? "pending_deletion")%string
            (cancelled ← call (CancelUserDeletion (ID u));
             when cancelled (call (Audit "deletion_cancelled_at_login" (ID u) (ID u))));
      Ret (mkReply 200 [Session tok])
  end.

Definition LoginHandler (req : LoginRequest) : program reply :=
  if negb (has_store d) then Ret (refuse 503) else
  u ← call (GetUserByUsername (lr_Username req));
  match u with
  | NoRows => Ret (refuse 401)
  | ReadErr msg => Ret (refuse (if dbUnavailable msg then 503 else 500))
  | Found u =>
      if negb (bcrypt L (Password u) (lr_Password req)) then Ret (refuse 401) else
      p ← LoadAuthPolicy;
      if EmailVerifyRequired p && negb (IsAdmin u) && match EmailVerifiedAt u with None => true | Some _ => false end then Ret (refuse 403) else
      if needs2FA p u then setup_token u else
      if Is2FAEnabled u then
        if (lr_TOTPCode req =? "")%string then Ret (refuse 401) else
        r ← verifyTOTPOrBackupWith u (lr_TOTPCode req) true;
        match code_reply r 401 with Some e => Ret e | None => sign_in u end
      else sign_in u
  end.

Definition demo_account : program (option User) :=
  uuid ← call (GetSetting "demo_account_uuid");
  if (uuid =? "")%string then Ret None else
  u ← call (GetUserByID uuid);
  Ret (match u with Found u => Some u | _ => None end).

Definition DemoStatus : program bool :=
  if negb (StoreEnabled d && has_store d) then Ret false else
  u ← demo_account; Ret (match u with Some _ => true | None => false end).

Definition DemoLogin : program reply :=
  if negb (StoreEnabled d) then Ret (refuse 404) else
  if negb (has_store d) then Ret (refuse 503) else
  u ← demo_account;
  match u with
  | None => Ret (refuse 404)
  | Some u =>
      caps ← call (StrictPanelCaps (ID u));
      if IsAdmin u || match caps with Some [] => false | _ => true end then Ret (refuse 404) else
      tok ← IssueToken (Username u) false (sessionKey u);
      Ret (match tok with Some t => mkReply 200 [Session t] | None => refuse 500 end)
  end.

(** *** Turning the second factor on and off (totp.go) *)

Definition backupCodeCount : nat := 10.

(** The codes and their hashes. *)
Fixpoint newBackupCodes (n : nat) : program (option (list string * list string)) :=
  match n with
  | O => Ret (Some ([], []))
  | S n =>
      p ← call (RandToken 8);
      match p with
      | None => Ret None
      | Some p =>
          h ← call (Hash p);
          match h with
          | None => Ret None
          | Some h => r ← newBackupCodes n; Ret (match r with Some (ps, hs) => Some (p :: ps, h :: hs) | None => None end)
          end
      end
  end.

Definition setting_up (i : identity) : bool := (i_purpose i =? "2fa_setup")%string.

(** The caller's own row. *)
Definition with_caller (i : identity) (missing : Z) (k : User -> program reply) : program reply :=
  if negb (has_store d) then Ret (refuse 503) else
  u ← call (GetUserByUsername (i_username i));
  match u with Found u => k u | _ => Ret (refuse missing) end.

Definition enrol (i : identity) (u : User) (secret : string) : program reply :=
  codes ← newBackupCodes backupCodeCount;
  match codes with
  | None => Ret (refuse 500)
  | Some (plain, hashed) =>
      stored ← call (SetUserTOTP (ID u) secret hashed true);
      if negb stored then Ret (refuse 500) else
      _ ← call (Audit "2fa_setup_completed" (ID u) (ID u));
      u ← endSessionsAfter u;
      g ← (if setting_up i then Ret [] else reissueOwnSession u);
      Ret (mkReply 200 (g ++ [Codes plain]))
  end.

Definition VerifyTOTPHandler (i : identity) (secret code password : string) : program reply :=
  with_caller i 404 (fun u =>
  let code := TrimSpace code in
  let secret := TrimSpace secret in
  if (secret =? "")%string || (code =? "")%string then Ret (refuse 400) else
  if Is2FAEnabled u then Ret (refuse 409) else
  if negb (setting_up i) && negb (bcrypt L (Password u) password) then Ret (refuse 403) else
  now ← call Now;
  match MatchTOTPStep code secret now with
  | None => Ret (refuse 403)
  | Some _ => enrol i u secret
  end).

(** The password and a code, both of an account that has 2FA on. *)
Definition with_both_factors (i : identity) (password code : string) (k : User -> program reply) : program reply :=
  with_caller i 404 (fun u =>
  if negb (Is2FAEnabled u) then Ret (refuse 400) else
  if negb (bcrypt L (Password u) password) then Ret (refuse 403) else
  r ← verifyTOTPOrBackupWith u code true;
  match code_reply r 403 with Some e => Ret e | None => k u end).

Definition RegenerateBackupCodesHandler (i : identity) (password code : string) : program reply :=
  with_both_factors i password code (fun u =>
  codes ← newBackupCodes backupCodeCount;
  match codes with
  | None => Ret (refuse 500)
  | Some (plain, hashed) =>
      stored ← call (SetUserTOTPBackupCodes (ID u) hashed);
      if negb stored then Ret (refuse 500) else
      _ ← call (Audit "2fa_backup_codes_regenerated" (ID u) (ID u));
      Ret (mkReply 200 [Codes plain])
  end).

Definition DisableTOTPHandler (i : identity) (password code : string) : program reply :=
  with_both_factors i password code (fun u =>
  off ← call (DisableUserTOTP (ID u));
  if negb off then Ret (refuse 500) else
  _ ← call (Audit "2fa_disabled" (ID u) (ID u));
  u ← endSessionsAfter u;
  g ← reissueOwnSession u;
  Ret (mkReply 200 g)).

(** *** Operators (totp.go, core/handlers/users/users.go) *)

Definition actor (i : identity) : string := match i_userID i with Some id => id | None => "" end.

(** The account an operator may manage, once [pre] raises no objection and the
    operator has proved who they are. *)
Definition with_target (i : identity) (id password code : string) (pre : User -> program (option reply)) (k : User -> program reply) :
    program reply :=
  u ← call (GetUserByID id);
  match u with
  | Found u =>
      may ← call (MayManageAccount (actor i) id);
      if negb may then Ret (refuse 403) else
      e ← pre u;
      match e with
      | Some e => Ret e
      | None => r ← RequireAdminReauth i password code; match r with Some s => Ret (refuse s) | None => k u end
      end
  | _ => Ret (refuse 404)
  end.

(** What every recovery of an account ends besides its sessions. *)
Definition revoke_keys (id : string) : program unit :=
  _ ← call (RevokeAllAPIKeys id); _ ← call (StampForUser id); call (RevokeAllSSHKeys id).

Definition AdminResetTOTPHandler (i : identity) (id password code : string) : program reply :=
  if negb (has_store d) then Ret (refuse 503) else
  with_target i id password code (fun _ => Ret None) (fun u =>
  off ← call (DisableUserTOTP id);
  if negb off then Ret (refuse 500) else
  _ ← endSessionsAfter u;
  _ ← revoke_keys id;
  _ ← call (Audit "2fa_admin_reset" (actor i) id);
  Ret ok).

Definition NotifyPasswordChanged (email : string) : program unit :=
  when (negb (TrimSpace email =? "")%string) (call (GoMail email PasswordChangedMail)).
Definition notifyAddressChanged (oldEmail newEmail : string) : program unit :=
  when (negb (TrimSpace oldEmail =? "")%string) (call (GoMail oldEmail (AddressChangedMail newEmail))).

(** The length a new password must have. *)
Definition too_short (password : string) : program bool :=
  p ← LoadAuthPolicy; Ret (Z.of_nat (String.length password) <? PasswordMinLength p).

Definition ResetUserPassword (i : identity) (id newPassword password code : string) : program reply :=
  if (newPassword =? "")%string then Ret (refuse 400) else
  with_target i id password code (fun _ => short ← too_short newPassword; Ret (if short : bool then Some (refuse 400) else None)) (fun u =>
  h ← call (Hash newPassword);
  match h with
  | None => Ret (refuse 500)
  | Some hashed =>
      stored ← call (UpdateUserPassword id hashed);
      if negb stored then Ret (refuse 500) else
      _ ← revoke_keys id;
      _ ← call (Audit "password_set_by_admin" (actor i) id);
      _ ← NotifyPasswordChanged (Email u);
      Ret ok
  end).

(** ** Password reset (password_reset.go) *)

Definition passwordResetCooldown : Z := minutes 1.

Definition ForgotPassword (email : string) : program reply :=
  let email := ToLower (TrimSpace email) in
  if negb (IsEmail email) then Ret ok else
  u ← call (GetUserByEmail email);
  match u with
  | Found u =>
      p ← LoadAuthPolicy;
      t ← call (RandToken 32);
      match t with
      | None => Ret ok
      | Some token =>
          now ← call Now;
          let expires := now + minutes (PasswordResetLinkTTLMinutes p) in
          issued ← call (SetPasswordResetToken (ID u) token expires (expires - passwordResetCooldown));
          match issued with
          | Some true =>
              _ ← call (GoMail (Email u) (ResetMail token));
              _ ← call (Audit "password_reset_requested" "" (ID u));
              Ret ok
          | _ => Ret ok
          end
      end
  | _ => Ret ok
  end.

Fixpoint answers_match (stored : qas) (plain : list string) : bool :=
  match stored, plain with
  | [], [] => true
  | (_, h) :: stored, p :: plain =>
      let a := TrimSpace (ToLower p) in negb (a =? "")%string && bcrypt L h a && answers_match stored plain
  | _, _ => false
  end.
Definition verifySecurityAnswersAgainstStored (stored : qas) (plain : list string) : bool :=
  negb (if stored then true else false) && answers_match stored plain.

(** Whether the answers are in order, or none are asked for. *)
Definition answers_asked (p : AuthPolicy) (u : User) (answers : list string) : program bool :=
  if SecurityQuestionsEnabled p && SecurityQuestionsRequiredAtReset p then
    stored ← call (GetUserSecurityQuestionsRaw (ID u));
    match stored with
    | None | Some [] => Ret true
    | Some qs => if verifySecurityAnswersAgainstStored qs answers then Ret true
                 else _ ← call (Audit "security_answers_failed_at_reset" "" (ID u)); Ret false
    end
  else Ret true.

Definition ResetPassword (token password : string) (answers : list string) : program reply :=
  if (String.length token <? 16)%nat then Ret (refuse 400) else
  p ← LoadAuthPolicy;
  if Z.of_nat (String.length password) <? PasswordMinLength p then Ret (refuse 400) else
  u ← call (GetUserByPasswordResetToken token);
  match u with
  | Found u =>
      asked ← answers_asked p u answers;
      if negb asked then Ret (refuse 401) else
      h ← call (Hash password);
      match h with
      | None => Ret (refuse 500)
      | Some hashed =>
          done ← call (ResetPasswordWithToken (ID u) token hashed);
          match done with
          | None => Ret (refuse 500)
          | Some false => Ret (refuse 410)
          | Some true => _ ← revoke_keys (ID u); _ ← call (Audit "password_reset_completed" "" (ID u)); Ret ok
          end
      end
  | _ => Ret (refuse 410)
  end.

(** ** Addresses (user_email.go, registration.go) *)

Definition resendVerificationCooldown : Z := minutes 1.
Definition verificationResendAllowed (lastSentAt : option Z) (now cooldown : Z) : bool :=
  match lastSentAt with None => true | Some t => cooldown <=? now - t end.

Definition sendChangedEmailVerification (id email : string) : program bool :=
  if (email =? "")%string then Ret false else
  p ← LoadAuthPolicy;
  if negb (EmailVerifyRequired p) then Ret false else
  t ← call (RandToken 32);
  match t with
  | None => Ret false
  | Some token =>
      stored ← call (SetEmailVerificationToken id token);
      if negb stored then Ret false else call (SendMail email (VerifyMail token))
  end.

(** The address belongs to an account other than [id]. A failed read says no. *)
Definition address_taken (email id : string) : program bool :=
  u ← call (GetUserByEmail email);
  Ret (match u with Found o => negb (ID o =? id)%string | _ => false end).

Definition SetEmail (i : identity) (id email password code : string) : program reply :=
  if negb (has_store d) then Ret (refuse 503) else
  let email := ToLower (TrimSpace email) in
  if negb (IsEmail email) then Ret (refuse 400) else
  with_target i id password code
    (fun u => if EqualFold (TrimSpace (Email u)) email then Ret (Some ok) else
              taken ← address_taken email id; Ret (if taken : bool then Some (refuse 409) else None))
    (fun u =>
  stored ← call (SetUserEmail id email);
  if negb stored then Ret (refuse 500) else
  _ ← call (Audit "user_email_changed" (actor i) id);
  _ ← notifyAddressChanged (Email u) email;
  _ ← sendChangedEmailVerification id email;
  Ret ok).

Definition VerifyEmail (token : string) : program reply :=
  if (String.length token <? 16)%nat then Ret (refuse 400) else
  u ← call (GetUserByEmailVerificationToken token);
  match u with
  | Found u =>
      let mark : program reply :=
        marked ← call (MarkEmailVerified (ID u));
        if negb marked then Ret (refuse 500) else _ ← call (Audit "email_verified" "" (ID u)); Ret ok in
      if (PendingEmail u =? "")%string then mark else
      taken ← address_taken (PendingEmail u) (ID u);
      if taken : bool then Ret (refuse 409) else
      c ← call (ConfirmPendingEmail (ID u));
      match c with
      | None => Ret (refuse 500)
      | Some (Some (oldEmail, newEmail)) =>
          _ ← call (Audit "user_email_changed" (ID u) (ID u)); _ ← notifyAddressChanged oldEmail newEmail; Ret ok
      | Some None => mark
      end
  (* an error leaves no user either *)
  | _ => Ret (refuse 410)
  end.

Definition ResendVerification (email : string) : program reply :=
  p ← LoadAuthPolicy;
  if negb (EmailVerifyRequired p) then Ret (refuse 400) else
  let email := ToLower (TrimSpace email) in
  if negb (IsEmail email) then Ret (refuse 400) else
  u ← call (GetUserByEmail email);
  match u with
  | Found u =>
      if match EmailVerifiedAt u with Some _ => true | None => false end then Ret ok else
      now ← call Now;
      if negb (verificationResendAllowed (EmailVerificationSentAt u) now resendVerificationCooldown) then Ret ok else
      t ← call (RandToken 32);
      match t with
      | None => Ret (refuse 500)
      | Some token =>
          stored ← call (SetEmailVerificationToken (ID u) token);
          if negb stored then Ret (refuse 500) else _ ← call (GoMail (Email u) (VerifyMail token)); Ret ok
      end
  | _ => Ret ok
  end.

(** ** Security questions (security_questions.go) *)

Definition defaultSecurityQuestionPool : list string :=
  ["What is the name of your first pet?"; "In what city were you born?"; "What was the name of your first school?";
   "What is your mother's maiden name?"; "What is the name of your favorite childhood teacher?"; "What was the model of your first car?";
   "What was your childhood nickname?"; "What is the name of the street you grew up on?"; "What is your favorite book?";
   "What was the name of your first stuffed animal?"].

Definition LoadSecurityQuestionPool : program (list string) :=
  raw ← call (GetSetting "auth.security_questions_pool");
  Ret (if (raw =? "")%string then defaultSecurityQuestionPool
       else match Unmarshal L raw with Some (q :: qs) => q :: qs | _ => defaultSecurityQuestionPool end).

(** [None] is a refusal of the items. *)
Fixpoint hash_items (pool seen : list string) (items : list (string * string)) : program (option qas) :=
  match items with
  | [] => Ret (Some [])
  | (q, a) :: items =>
      let q := TrimSpace q in
      let a := TrimSpace a in
      if (q =? "")%string || (a =? "")%string || (200 <? String.length a)%nat || negb (bool_decide (q ∈ pool)) || bool_decide (q ∈ seen)
      then Ret None else
      h ← call (Hash (ToLower a));
      match h with
      | None => Ret None
      | Some h => r ← hash_items pool (q :: seen) items; Ret (match r with Some qs => Some ((q, h) :: qs) | None => None end)
      end
  end.
Definition buildHashedQAJSON (items : list (string * string)) (pool : list string) (required : Z) : program (option qas) :=
  if negb (Z.of_nat (List.length items) =? required) then Ret None else hash_items pool [] items.

Definition SetMyQuestions (i : identity) (items : list (string * string)) (password code : string) : program reply :=
  let userID := actor i in
  if (userID =? "")%string then Ret (refuse 401) else
  p ← LoadAuthPolicy;
  if negb (SecurityQuestionsEnabled p) then Ret (refuse 403) else
  pool ← LoadSecurityQuestionPool;
  qs ← buildHashedQAJSON items pool (SecurityQuestionsCount p);
  match qs with
  | None => Ret (refuse 400)
  | Some qs =>
      r ← RequireReauth userID password code;
      match r with
      | Some s => Ret (refuse s)
      | None =>
          stored ← call (SetUserSecurityQuestions userID qs);
          if negb stored then Ret (refuse 500) else _ ← call (Audit "security_questions_set" userID userID); Ret ok
      end
  end.

(** ** Registration (registration.go) *)

Record registerRequest := mkRegister { rr_Username : string; rr_Email : string; rr_Password : string; rr_Questions : list (string * string) }.

Definition new_user (username email hashed : string) : User :=
  mkUser "" username hashed email "" false false "" (Some []) 0 "" None None "" None.

(** The questions of a new account; [Some] is the reason it was taken back. *)
Definition signup_questions (p : AuthPolicy) (id : string) (items : list (string * string)) : program (option reply) :=
  if negb (SecurityQuestionsEnabled p) then Ret None else
  match items with
  | [] => if SecurityQuestionsRequiredAtSignup p then _ ← call (DeleteUser id); Ret (Some (refuse 400)) else Ret None
  | _ =>
      pool ← LoadSecurityQuestionPool;
      qs ← buildHashedQAJSON items pool (SecurityQuestionsCount p);
      match qs with
      | None => _ ← call (DeleteUser id); Ret (Some (refuse 400))
      | Some qs =>
          stored ← call (SetUserSecurityQuestions id qs);
          if negb stored && SecurityQuestionsRequiredAtSignup p then _ ← call (DeleteUser id); Ret (Some (refuse 500)) else Ret None
      end
  end.

Definition signup_verification (p : AuthPolicy) (id email : string) : program (option reply) :=
  if EmailVerifyRequired p then
    t ← call (RandToken 32);
    match t with
    | None => Ret (Some (refuse 500))
    | Some token =>
        stored ← call (SetEmailVerificationToken id token);
        if negb stored then Ret (Some (refuse 500)) else _ ← call (GoMail email (VerifyMail token)); Ret None
    end
  else _ ← call (MarkEmailVerified id); Ret None.

Definition Register (req : registerRequest) : program reply :=
  p ← LoadAuthPolicy;
  if negb (RegistrationEnabled p) then Ret (refuse 403) else
  let username := TrimSpace (rr_Username req) in
  let email := ToLower (TrimSpace (rr_Email req)) in
  if negb (IsUsername username) || negb (IsEmail email) || (Z.of_nat (String.length (rr_Password req)) <? PasswordMinLength p)
  then Ret (refuse 400) else
  taken ← call (UsernameTaken username "");
  if taken : bool then Ret (refuse 409) else
  existing ← call (GetUserByEmail email);
  match existing with
  | Found _ => Ret ok
  | ReadErr _ => Ret (refuse 500)
  | NoRows =>
      h ← call (Hash (rr_Password req));
      match h with
      | None => Ret (refuse 500)
      | Some hashed =>
          created ← call (CreateUser (new_user username email hashed));
          match created with
          | None => Ret (refuse 500)
          | Some id =>
              e ← signup_questions p id (rr_Questions req);
              match e with Some e => Ret e | None =>
              e ← signup_verification p id email;
              match e with Some e => Ret e | None => _ ← call (Audit "user_registered" "" id); Ret ok end
              end
          end
      end
  end.

(** ** The profile (auth.go) *)

Record UpdateRequest := mkUpdate {
  OldPassword : string; NewUsername : option string; NewPassword : option string; ur_MinecraftUsername : option string;
  ur_Email : option string; TOTPCode : string
}.

(** The address to change to, if any. *)
Definition new_address (u : User) (isAdmin : bool) (req : UpdateRequest) : program (option string + reply) :=
  match ur_Email req with
  | None => Ret (inl None)
  | Some email =>
      let newEmail := ToLower (TrimSpace email) in
      if EqualFold (TrimSpace (Email u)) newEmail then Ret (inl None) else
      e ← (if (newEmail =? "")%string then p ← LoadAuthPolicy; Ret (if EmailVerifyRequired p && negb isAdmin then Some 400 else None)
           else if negb (IsEmail newEmail) then Ret (Some 400)
           else taken ← address_taken newEmail (ID u); Ret (if taken : bool then Some 409 else None) : program (option Z));
      match e with
      | Some s => Ret (inr (refuse s))
      | None =>
          now ← call Now;
          Ret (if verificationResendAllowed (EmailVerificationSentAt u) now resendVerificationCooldown
               then inl (Some newEmail) else inr (refuse 429))
      end
  end.

(** The name to change to, if any. *)
Definition new_name (u : User) (isAdmin : bool) (req : UpdateRequest) : program (option string + reply) :=
  match NewUsername req with
  | None => Ret (inl None)
  | Some name =>
      let newName := TrimSpace name in
      if (newName =? Username u)%string then Ret (inl None) else
      if negb (IsUsername newName) then Ret (inr (refuse 400)) else
      pol ← call GetUserAccountPolicy;
      if negb pol.1 && negb isAdmin then Ret (inr (refuse 403)) else
      waiting ← (match LastUsernameChange u with
                 | Some last => if isAdmin then Ret false else now ← call Now; Ret (now <? last + hours (pol.2 * 24))
                 | None => Ret false end : program bool);
      if waiting : bool then Ret (inr (refuse 429)) else
      taken ← call (UsernameTaken newName (ID u));
      Ret (if taken : bool then inr (refuse 409) else inl (Some newName))
  end.

Definition wanted_password (req : UpdateRequest) : option string :=
  match NewPassword req with Some p => if (p =? "")%string then None else Some p | None => None end.

(** The password is long enough and the Minecraft name well-formed. *)
Definition fields_fit (req : UpdateRequest) : program bool :=
  short ← (match wanted_password req with Some p => too_short p | None => Ret false end);
  Ret (negb short && match ur_MinecraftUsername req with
                     | Some mc => (TrimSpace mc =? "")%string || IsMinecraftUsername (TrimSpace mc)
                     | None => true end).

(** The second factor for a new address or password; [Some] is a refusal. *)
Definition profile_code (u : User) (req : UpdateRequest) (address : option string) : program (option reply) :=
  if Is2FAEnabled u && (match address with Some _ => true | None => false end || match wanted_password req with Some _ => true | None => false end)
  then if (TrimSpace (TOTPCode req) =? "")%string then Ret (Some (refuse 403)) else
       r ← verifyTOTPOrBackupWith u (TOTPCode req) true;
       Ret (code_reply r 403)
  else Ret None.

(** A new address that has to be confirmed is kept aside; what is left to
    write at once. *)
Definition keep_pending (u : User) (address : option string) : program (option string + reply) :=
  match address with
  | Some newEmail =>
      if (newEmail =? "")%string then Ret (inl address) else
      p ← LoadAuthPolicy;
      if negb (EmailVerifyRequired p) then Ret (inl address) else
      t ← call (RandToken 32);
      match t with
      | None => Ret (inr (refuse 500))
      | Some token =>
          stored ← call (SetPendingEmail (ID u) newEmail token);
          if negb stored then Ret (inr (refuse 500)) else
          _ ← call (Audit "user_email_change_requested" (ID u) (ID u));
          sent ← call (SendMail newEmail (ConfirmChangeMail token));
          if sent : bool then Ret (inl None)
          else _ ← call (SetPendingEmail (ID u) "" ""); Ret (inr (refuse 502))
      end
  | None => Ret (inl None)
  end.

Definition rename (u : User) (name : option string) : program (string + reply) :=
  match name with
  | None => Ret (inl (Username u))
  | Some newName =>
      r ← call (RenameUser (ID u) newName);
      match r with
      | NameTaken => Ret (inr (refuse 409))
      | RenameErr => Ret (inr (refuse 500))
      | Renamed => _ ← call (Publish "users.changed" (ID u)); Ret (inl newName)
      end
  end.

(** A write that is only made when there is a value. *)
Definition write_if (v : option string) (c : string -> op) (told : forall x, ans (c x) -> bool) : program bool :=
  match v with Some x => r ← call (c x); Ret (told x r) | None => Ret true end.

Definition save_profile (u : User) (req : UpdateRequest) (address : option string) (username : string) : program reply :=
  h ← (match wanted_password req with
       | None => Ret (inl None)
       | Some p => h ← call (Hash p); Ret (match h with Some h => inl (Some h) | None => inr tt end)
       end : program (option string + unit));
  match h with
  | inr _ => Ret (refuse 500)
  | inl hashed =>
      stored ← write_if hashed (UpdateUserPassword (ID u)) (fun _ b => b);
      if negb stored then Ret (refuse 500) else
      stored ← write_if (option_map TrimSpace (ur_MinecraftUsername req)) (SetUserMinecraftUsername (ID u)) (fun _ b => b);
      if negb stored then Ret (refuse 500) else
      stored ← write_if address (SetUserEmail (ID u)) (fun _ b => b);
      if negb stored then Ret (refuse 500) else
      _ ← (match address with
           | Some newEmail =>
               _ ← call (Audit "user_email_changed" (ID u) (ID u)); _ ← notifyAddressChanged (Email u) newEmail;
               _ ← sendChangedEmailVerification (ID u) newEmail; skip
           | None => skip end);
      match hashed with
      | None => Ret ok
      | Some hashed =>
          _ ← NotifyPasswordChanged (Email u);
          tok ← IssueToken username (IsAdmin u) (sessionKey
            (mkUser (ID u) username hashed (Email u) (MinecraftUsername u) (IsAdmin u) (Is2FAEnabled u) (TOTPSecret u) (TOTPBackupCodes u)
               (SessionEpoch u) (PendingEmail u) (EmailVerifiedAt u) (EmailVerificationSentAt u) (DeletionStatus u) (LastUsernameChange u)));
          Ret (mkReply 200 (match tok with Some t => [Session t] | None => [] end))
      end
  end.

Definition UpdateProfileHandler (i : identity) (req : UpdateRequest) : program reply :=
  if negb (has_store d) then Ret ok else
  u ← call (GetUserByUsername (i_username i));
  match u with
  | Found u =>
      if negb (bcrypt L (Password u) (OldPassword req)) then Ret (refuse 403) else
      or_reply (new_address u (i_isAdmin i) req) (fun address =>
      or_reply (new_name u (i_isAdmin i) req) (fun name =>
      fit ← fields_fit req;
      if negb fit then Ret (refuse 400) else
      e ← profile_code u req address;
      match e with
      | Some e => Ret e
      | None =>
          or_reply (keep_pending u address) (fun address =>
          or_reply (rename u name) (fun username => save_profile u req address username))
      end))
  | _ => Ret (refuse 404)
  end.

Definition UpdateMinecraftUsernameHandler (i : identity) (mc : string) : program reply :=
  if negb (has_store d) then Ret ok else
  let mc := TrimSpace mc in
  if negb (mc =? "")%string && negb (IsMinecraftUsername mc) then Ret (refuse 400) else
  u ← call (GetUserByUsername (i_username i));
  match u with
  | Found u => stored ← call (SetUserMinecraftUsername (ID u) mc); Ret (if stored : bool then ok else refuse 500)
  | _ => Ret (refuse 404)
  end.

(** ** Endpoints *)

Inductive entry :=
  | SignIn (req : LoginRequest) | TryDemo
  | SignOut (r : Request) | SignOutEverywhere (r : Request) | CopySession (r : Request) | MintTicket (r : Request)
  | Enrol (r : Request) (secret code password : string) | RegenerateCodes (r : Request) (password code : string)
  | Disable (r : Request) (password code : string)
  | AdminResetTOTP (r : Request) (id password code : string) | AdminResetPassword (r : Request) (id newPassword password code : string)
  | AdminSetEmail (r : Request) (id email password code : string)
  | Forgot (email : string) | ResetByLink (token password : string) (answers : list string)
  | Confirm (token : string) | Resend (email : string) | SignUp (req : registerRequest)
  | Questions (r : Request) (items : list (string * string)) (password code : string)
  | SaveProfile (r : Request) (req : UpdateRequest) | Minecraft (r : Request) (mc : string)
  | Visit (r : Request).

Definition handle (e : entry) : program reply :=
  match e with
  | SignIn req => LoginHandler req
  | TryDemo => DemoLogin
  | SignOut r => Logout r
  | SignOutEverywhere r => authed r LogoutEverywhere
  | CopySession r => authed r (SessionToken_ r)
  | MintTicket r => authed r MintSSETicket
  | Enrol r secret code password => authed r (fun i => VerifyTOTPHandler i secret code password)
  | RegenerateCodes r password code => authed r (fun i => RegenerateBackupCodesHandler i password code)
  | Disable r password code => authed r (fun i => DisableTOTPHandler i password code)
  | AdminResetTOTP r id password code => authed r (fun i => AdminResetTOTPHandler i id password code)
  | AdminResetPassword r id new password code => authed r (fun i => ResetUserPassword i id new password code)
  | AdminSetEmail r id email password code => authed r (fun i => SetEmail i id email password code)
  | Forgot email => ForgotPassword email
  | ResetByLink token password answers => ResetPassword token password answers
  | Confirm token => VerifyEmail token
  | Resend email => ResendVerification email
  | SignUp req => Register req
  | Questions r items password code => authed r (fun i => SetMyQuestions i items password code)
  | SaveProfile r req => authed r (fun i => UpdateProfileHandler i req)
  | Minecraft r mc => authed r (fun i => UpdateMinecraftUsernameHandler i mc)
  | Visit r => authed r (fun _ => Ret ok)
  end.

End sessions.
