(* ===== verification/SessionPolicy.v ===== *)
(** * Who is let in, and who may change how (over Sessions.v)

    Whatever Postgres, Redis, the mailer and the random source answer: what a
    request that passes [AuthMiddleware] has shown, what a caller who is handed
    a session has shown, and what has been shown before a password, a second
    factor, an address or a security question is written. Each is stated by
    the answers of the same request. *)

From Stdlib Require Import Ascii String.
From S2P Require Import Prelude GoStrings Programs Sessions.
Open Scope string_scope.
Open Scope list_scope.
Open Scope Z_scope.

Notation history := (list (event ans)).
Definition seen (h : history) (c : op) (a : ans c) : Prop := Ev c a ∈ h.

Lemma seen_later h l c a : seen h c a -> seen (l ++ h) c a.
Proof. unfold seen. intros H. apply elem_of_app. by right. Qed.
Lemma seen_cons h ev c a : seen h c a -> seen (ev :: h) c a.
Proof. unfold seen. by right. Qed.
Lemma seen_here h c a : seen (Ev c a :: h) c a.
Proof. by left. Qed.

Create HintDb seen.
#[export] Hint Resolve seen_later seen_cons seen_here : seen.

Definition any (c : op) (a : ans c) : Prop := True.
Notation tr G h p Q := (traced any G h p Q).

Lemma traced_do {A} G h c (k : ans c -> program A) Q :
  G h c -> (forall a, tr G (Ev c a :: h) (k a) Q) -> tr G h (call c ≫= k) Q.
Proof. intros HG Hk. apply traced_call; [done|]. intros a _. apply Hk. Qed.

Section policy.
Context (L : lib) (d : deps).

(** ** The middleware *)

(** The credential of a request, and whether it is the cookie, which counts
    for a change only from our own origin. *)
Definition presented (r : Request) (tok : string) (cookie : bool) : Prop :=
  if cookie
  then Authorization r = "" /\ tok = sessionTokenFromCookie r /\ tok <> "" /\ requireSameOriginForCookieAuth L r (FrontendURL d) = true
  else Authorization r <> "" /\ tok = TrimPrefix (Authorization r) "Bearer " \/
       Authorization r = "" /\ Method r = "GET" /\ QueryToken r <> "" /\ tok = QueryToken r.

(** Neither list that answered has the session. *)
Definition unlisted (h : history) (id : string) : Prop :=
  id = "" \/
  ((has_redis d = true -> exists a, a <> Some true /\ seen h (ExistsRevoked id) a) /\
   (has_store d = true -> exists a, a <> Some true /\ seen h (IsSessionRevoked id) a)).

(** A change is not the demo account's. *)
Definition may_write (h : history) (r : Request) (u : User) : Prop :=
  IsAdmin u = true \/ safe_method (Method r) = true \/ StoreEnabled d = false \/ ID u = "" \/
  exists v, seen h (GetSettingChecked "demo_account_uuid") (Some v) /\ v <> ID u.

(** The copy a session in use is replaced by. *)
Definition slid_copy (h : history) (c : Claims) (t : string) : Prop :=
  exists now loginAt, seen h Now now /\ login_date c = Some loginAt /\
    (forall iat, cl_IssuedAt c = Some iat -> sessionSlideAfter <= now - iat * sec) /\
    (forall e, cl_ExpiresAt c = Some e -> e * sec < sessionExpiry now loginAt) /\
    SignedString L (dated c (cl_ID c) (Unix loginAt) (Some (Unix (sessionExpiry now loginAt))) (Some (Unix now))) = Some t.

Definition by_session (h : history) (r : Request) (i : identity) (slid : option string) (u : User) : Prop :=
  exists tok cookie c0 now, presented r tok cookie /\ seen h Now now /\ ParseWithClaims L tok now = Some c0 /\
    let c := withSessionID L c0 tok in
    i_claims i = Some c /\ i_username i = cl_Username c /\ i_purpose i = cl_Purpose c /\ token_fits r c = true /\ unlisted h (cl_ID c) /\
    is_Some (cl_ExpiresAt c) /\ cl_PwdFp c = passwordFingerprint L (sessionKey u) /\ may_write h r u /\
    forall t, slid = Some t -> cookie = true /\ cl_Purpose c = "" /\ slid_copy h c t.

Definition by_stream (h : history) (r : Request) (i : identity) (slid : option string) (u : User) : Prop :=
  Authorization r = "" /\ Method r = "GET" /\ sseTicketPaths (Path r) = true /\ QueryTicket r <> "" /\ slid = None /\ i_claims i = None /\ i_purpose i = "" /\
  exists v fp sid legacy, seen h (TicketGet (QueryTicket r)) (Some v) /\ parseSSETicket v = (i_username i, fp, sid, legacy) /\
    unlisted h sid /\ (fp = "" \/ fp = passwordFingerprint L (sessionKey u)).

(** The row read for this request is the account's, and what was presented
    is bound to it as it was read. *)
Definition admitted (h : history) (r : Request) (i : identity) (slid : option string) : Prop :=
  has_store d = true ->
  exists u, seen h (GetUserByUsername (i_username i)) (Found u) /\ i_userID i = Some (ID u) /\ i_isAdmin i = IsAdmin u /\
    (by_session h r i slid u \/ by_stream h r i slid u).

(** How the middleware says no. *)
Definition refusal (s : Z) : bool := (s =? 401) || (s =? 403) || (s =? 503).

(** What the middleware may call. *)
Definition looks (c : op) : Prop :=
  match c with
  | Now | ExistsRevoked _ | IsSessionRevoked _ | TicketGet _ | TicketDel _ | TicketExpire _ _ | GetUserByUsername _ | GetSettingChecked _ => True
  | _ => False
  end.

(** Growing histories. *)
Lemma unlisted_app h l id : unlisted h id -> unlisted (l ++ h) id.
Proof. intros [H|[H1 H2]]; [by left|right; split; [intros Hr; destruct (H1 Hr) as (a & ? & ?)|intros Hs; destruct (H2 Hs) as (a & ? & ?)]; eauto with seen]. Qed.
Lemma may_write_app h l r u : may_write h r u -> may_write (l ++ h) r u.
Proof. unfold may_write. intros [H|[H|[H|[H|(v & H1 & H2)]]]]; auto 6. do 4 right. exists v. split; [by apply seen_later|done]. Qed.
Lemma slid_copy_app h l c t : slid_copy h c t -> slid_copy (l ++ h) c t.
Proof. intros (now & at_ & H1 & H2 & H3). exists now, at_. eauto with seen. Qed.
Lemma by_session_app h l r i slid u : by_session h r i slid u -> by_session (l ++ h) r i slid u.
Proof.
  intros (tok & ck & c0 & now & H1 & H2 & H3 & H4 & H5 & H6 & H7 & H8 & H9 & H10 & H11 & H12). exists tok, ck, c0, now. cbn zeta.
  split_and!; try done; [by apply seen_later|by apply unlisted_app|by apply may_write_app|].
  intros t Ht. destruct (H12 t Ht) as (? & ? & ?). eauto using slid_copy_app.
Qed.
Lemma admitted_app h l r i slid : admitted h r i slid -> admitted (l ++ h) r i slid.
Proof.
  intros H Hs. destruct (H Hs) as (u & H1 & H2 & H3 & H4). exists u. split_and!; [by apply seen_later|done..|].
  destruct H4 as [H4|(? & ? & ? & ? & ? & ? & ? & v & fp & sid & lg & ? & ? & ? & ?)]; [left; by apply by_session_app|right].
  split_and!; try done. exists v, fp, sid, lg. split_and!; [by apply seen_later|done|by apply unlisted_app|done].
Qed.

(** *** The parts *)
Section parts.
Context (G : history -> op -> Prop) (HG : forall h c, looks c -> G h c).

Lemma sessionRevoked_traced h id : tr G h (sessionRevoked d id) (fun h' b => b = false -> unlisted h' id).
Proof.
  unfold sessionRevoked. destruct (String.eqb_spec id "") as [->|Hne]; [intros _; by left|].
  apply (traced_part _ _ _ _ _ (fun h' n => n <> Some true -> has_redis d = true -> exists a, a <> Some true /\ seen h' (ExistsRevoked id) a)).
  { destruct (has_redis d); [|done]. split; [by apply HG|]. intros a _ Ha _. eauto with seen. }
  intros l n Hn. destruct (decide (n = Some true)) as [->|Hn']; [done|]. specialize (Hn Hn').
  assert (Hgo : tr G (l ++ h) (if negb (has_store d) then Ret false else b ← call (IsSessionRevoked id); Ret (match b with Some b => b | None => false end))
    (fun h' b => b = false -> unlisted h' id)).
  { destruct (has_store d) eqn:Es; cbn [negb].
    - apply traced_do; [by apply HG|]. intros [b|] Hb; right; (split; [intros Hr; destruct (Hn Hr) as (a & ? & ?); eauto with seen|]); intros _.
      + subst b. exists (Some false). split; [done|apply seen_here].
      + exists None. split; [done|apply seen_here].
    - intros _. right. split; [done|]. by rewrite Es. }
  destruct n as [[|]|]; [done|exact Hgo|exact Hgo].
Qed.

Lemma slide_traced h c : is_Some (cl_ExpiresAt c) -> tr G h (slideSession L c) (fun h' s => forall t, s = Some t -> slid_copy h' c t).
Proof.
  intros [e He]. unfold slideSession. apply traced_do; [by apply HG|]. intros now.
  destruct (match cl_IssuedAt c with Some iat => _ | None => false end) eqn:Ei; [by intros t [=]|].
  assert (Hl : exists at_, login_date c = Some at_) by (unfold login_date; rewrite He; destruct (0 <? cl_LoginAt c); eauto).
  destruct Hl as [at_ Hat]. unfold loginTime. rewrite Hat. cbn [mbind prog_mbind prog_bind]. rewrite He.
  destruct (Z.leb_spec (sessionExpiry now at_) (e * sec)) as [Hle|Hlt]; [by intros t [=]|].
  intros t Ht. exists now, at_. split_and!; try done; [apply seen_here| |].
  - intros iat Hiat. rewrite Hiat in Ei. by apply Z.ltb_ge.
  - intros e' [= <-]%(eq_trans (eq_sym He)). done.
Qed.

Lemma demo_traced h r u :
  tr G h (if negb (IsAdmin u) && negb (safe_method (Method r)) then IsAccountChecked d (ID u) else Ret (Some false))
    (fun h' b => b = Some false -> may_write h' r u).
Proof.
  unfold may_write. destruct (IsAdmin u); [by left|]. destruct (safe_method (Method r)) eqn:Em; [by right; left|]. cbn [negb andb].
  unfold IsAccountChecked. destruct (StoreEnabled d) eqn:Es; cbn [negb orb]; [|by right; right; left].
  destruct (String.eqb_spec (ID u) "") as [He|Hne]; [by right; right; right; left|].
  apply traced_do; [by apply HG|]. intros [v|]; [|done]. cbn [traced]. intros [= Hv].
  right; right; right; right. exists v. split; [apply seen_here|]. intros ->. rewrite String.eqb_refl in Hv.
  apply String.eqb_neq in Hne. by rewrite Hne in Hv.
Qed.

Lemma by_row_traced h r cookie c tok c0 now :
  c = withSessionID L c0 tok -> presented r tok cookie -> seen h Now now -> ParseWithClaims L tok now = Some c0 ->
  token_fits r c = true -> unlisted h (cl_ID c) ->
  tr G h (by_row L d r cookie c) (fun h' v => match v with Refuse s _ => refusal s = true | Admit i slid => admitted h' r i slid end).
Proof.
  intros Hc Hp Hn Hpar Hf Hun. unfold by_row. apply traced_do; [by apply HG|]. intros at_.
  apply traced_do; [by apply HG|]. intros [u| |msg]; [|done|done].
  destruct (_ || _) eqn:Eo; [done|]. apply orb_false_iff in Eo as [Eexp Efp]. apply negb_false_iff, String.eqb_eq in Efp.
  assert (Hexp : is_Some (cl_ExpiresAt c)) by (destruct (cl_ExpiresAt c); [by eauto|done]).
  eapply traced_part; [apply demo_traced|]. intros l [[|]|] Hd; [done| |done]. specialize (Hd eq_refl).
  eapply (traced_part _ _ _ _ _ (fun h' s => forall t, s = Some t -> cookie = true /\ cl_Purpose c = "" /\ slid_copy h' c t)).
  { destruct (cookie && _) eqn:Ec; [|by intros t [=]]. apply andb_true_iff in Ec as [-> Ep]. apply String.eqb_eq in Ep.
    eapply traced_mono; [done| |by apply slide_traced]. eauto. }
  intros l' slid Hs _. exists u. rewrite app_assoc. split_and!; [apply seen_later, seen_here|done|done|]. left. exists tok, cookie, c0, now. cbn zeta.
  rewrite <- Hc. split_and!; try done; [eauto with seen| |by rewrite <- app_assoc; apply may_write_app|].
  - rewrite <- (app_assoc l' l). apply unlisted_app, unlisted_app. apply (unlisted_app _ [_; _]), Hun.
  - by rewrite <- app_assoc.
Qed.

Lemma by_token_traced h r tok cookie :
  presented r tok cookie ->
  tr G h (by_token L d r tok cookie) (fun h' v => match v with Refuse s _ => refusal s = true | Admit i slid => admitted h' r i slid end).
Proof.
  intros Hp. unfold by_token. apply traced_do; [by apply HG|]. intros now.
  destruct (ParseWithClaims L tok now) as [c0|] eqn:Ep; [|done]. cbn zeta.
  eapply traced_part; [apply sessionRevoked_traced|]. intros l [|] Hu; [done|]. specialize (Hu eq_refl).
  destruct (token_fits r _) eqn:Ef; [|done]. cbn [negb]. destruct (has_store d) eqn:Es.
  - eapply by_row_traced; eauto with seen.
  - intros Hs. by rewrite Es in Hs.
Qed.

Lemma TrimPrefix_app p s : TrimPrefix (p +:+ s) p = s.
Proof.
  unfold TrimPrefix. rewrite HasPrefix_app. induction p as [|c p IH]; [done|]. exact IH.
Qed.

Lemma by_credentials_traced h r :
  tr G h (by_credentials L d r) (fun h' v => match v with Refuse s _ => refusal s = true | Admit i slid => admitted h' r i slid end).
Proof.
  unfold by_credentials. destruct (String.eqb_spec (Authorization r) "") as [Ea|Ea]; cbn [andb].
  - destruct (negb (QueryToken r =? "")%string && (Method r =? "GET")%string) eqn:Eq; cbn [negb].
    + apply andb_true_iff in Eq as [Eq Em]. apply negb_true_iff, String.eqb_neq in Eq. apply String.eqb_eq in Em.
      rewrite TrimPrefix_app. cbn. apply by_token_traced. right. done.
    + rewrite Ea. cbn [String.eqb negb]. destruct (String.eqb_spec (sessionTokenFromCookie r) "") as [Et|Et]; [done|].
      destruct (requireSameOriginForCookieAuth L r (FrontendURL d)) eqn:Eo; [|done]. by apply by_token_traced.
  - apply String.eqb_neq in Ea as Ea'. rewrite Ea'. cbn [negb]. apply by_token_traced. left. done.
Qed.

Lemma by_ticket_traced h r v :
  seen h (TicketGet (QueryTicket r)) (Some v) -> Authorization r = "" -> Method r = "GET" -> sseTicketPaths (Path r) = true -> QueryTicket r <> "" ->
  tr G h (by_ticket L d (QueryTicket r) v) (fun h' v => match v with Refuse s _ => refusal s = true | Admit i slid => admitted h' r i slid end).
Proof.
  intros Hv Ha Hm Hp Hq. unfold by_ticket. destruct (parseSSETicket v) as [[[name fp] sid] legacy] eqn:Epar.
  eapply traced_part; [apply sessionRevoked_traced|]. intros l [|] Hu; [by apply traced_do; [apply HG|]|]. specialize (Hu eq_refl).
  eapply (traced_part _ _ _ _ _ (fun _ _ => True)). { destruct legacy; [done|]. split; [by apply HG|]. done. }
  intros l' _ _. destruct (has_store d) eqn:Es; cbn [negb].
  - apply traced_do; [by apply HG|]. intros [u| |msg]; [|by apply traced_do; [apply HG|]|done].
    destruct (_ && _) eqn:Ef; [by apply traced_do; [apply HG|]|]. cbn. intros _. exists u. split_and!; [apply seen_here|done|done|].
    right. split_and!; try done. exists v, fp, sid, legacy. split_and!; [eauto with seen|done| |].
    + apply (unlisted_app _ (_ :: l')), Hu.
    + apply andb_false_iff in Ef as [Ef|Ef]; apply negb_false_iff, String.eqb_eq in Ef; auto.
  - cbn. intros Hs. by rewrite Es in Hs.
Qed.

Lemma AuthMiddleware_traced h r :
  tr G h (AuthMiddleware L d r) (fun h' v => match v with Refuse s _ => refusal s = true | Admit i slid => admitted h' r i slid end).
Proof.
  unfold AuthMiddleware. destruct (_ && _) eqn:E; [|apply by_credentials_traced].
  rewrite !andb_true_iff in E. destruct E as ((((E1 & E2) & _) & E4) & E5%negb_true_iff%String.eqb_neq). apply String.eqb_eq in E1, E2.
  apply traced_do; [by apply HG|]. intros [v|]; [|apply by_credentials_traced].
  destruct (v =? "")%string; [apply by_credentials_traced|]. apply by_ticket_traced; [apply seen_here|done..].
Qed.
End parts.

(** C7: The middleware lets in who the row says. Whatever is answered, a request
    that does not pass is told 401, 403 or 503. With the database connected, a
    request that passes is the account whose row was read for it, with the administrator flag of that row, and makes no call
    but reads, the refresh of a stream's ticket and the removal of a dead one.
    It carries a token that this Core signed, in date, bound to the password
    and session epoch in that row, not signed out on any list that answered,
    of no other issuer and not a ticket of the tab proxy; a token for setting
    up the second factor reaches its three endpoints only. A cookie changes
    things from our own origin only, the demo account changes nothing, and a
    cookie is replaced at most once an hour, by the same session with a later
    end. Or it opens one of the streams with a ticket that is bound to the
    same row or to none, of a session that is not signed out. *)
Theorem middleware_admits (r : Request) :
  tr (fun _ c => looks c) [] (AuthMiddleware L d r) (fun h v => match v with Refuse s _ => refusal s = true | Admit i slid => admitted h r i slid end).
Proof. apply AuthMiddleware_traced. done. Qed.

(** ** What a caller has shown *)

(** The attempt was counted, and within the limit unless Redis failed. *)
Definition within_limit (h : history) (id : string) : Prop :=
  has_redis d = true -> exists a, seen h (CountIncr id) a /\ forall n, a = Some n -> n <= wrongCodeLimit.

(** A code of the account's secret for now, its step taken if [claim]ed, or a
    backup code that was spent for it. *)
Definition second_factor (h : history) (u : User) (code : string) (claim : bool) : Prop :=
  within_limit h (ID u) /\
  ((exists now step, seen h Now now /\ MatchTOTPStep L code (TOTPSecret u) now = Some step /\
      (claim = true -> has_redis d = true -> exists a, a <> Some false /\ seen h (ClaimStep (ID u) step totpReplayTTL) a)) \/
   (exists hashed remaining, TOTPBackupCodes u = Some hashed /\ without_code L hashed code = Some remaining /\
      seen h (ConsumeTOTPBackupCode (ID u) hashed remaining) (Some true))).

(** The password, and the second factor of an account that has one. *)
Definition proven (h : history) (u : User) (password code : string) (claim : bool) : Prop :=
  bcrypt L (Password u) password = true /\ (Is2FAEnabled u = true -> second_factor h u (TrimSpace code) claim).

(** The account a request behind the middleware acts for, as read again by
    its handler. *)
Definition caller (h : history) (r : Request) (i : identity) (u : User) : Prop :=
  (exists slid, admitted h r i slid) /\ seen h (GetUserByUsername (i_username i)) (Found u).

(** An operator who proved who they are and may manage the account. *)
Definition operator (h : history) (r : Request) (id password code : string) : Prop :=
  exists i slid u me, admitted h r i slid /\ i_userID i = Some (actor i) /\ seen h (GetUserByID id) (Found u) /\
    seen h (MayManageAccount (actor i) id) true /\ seen h (GetUserByID (actor i)) (Found me) /\ proven h me password code false.

(** The security questions, where they are asked for and were read. *)
Definition answered (h : history) (u : User) (answers : list string) : Prop :=
  exists v w, seen h (GetSetting "auth.security_questions_enabled") v /\ seen h (GetSetting "auth.security_questions_required_at_reset") w /\
    (v = "true" -> w = "true" -> exists a, seen h (GetUserSecurityQuestionsRaw (ID u)) a /\
       forall qs, a = Some qs -> qs = [] \/ verifySecurityAnswersAgainstStored L qs answers = true).

(** The session of the cookie that is to be signed out. *)
Definition signs_out (h : history) (r : Request) (c : Claims) : Prop :=
  exists now c0, let tok := sessionTokenFromCookie r in
    requireSameOriginForCookieAuth L r (FrontendURL d) = true /\ seen h Now now /\ ParseWithClaims L tok now = Some c0 /\ cl_Purpose c0 = "" /\
    c = withSessionID L c0 tok.

(** When the session began; a token without a date counts from now. *)
Definition logged_in (h : history) (c : Claims) (loginAt : Z) : Prop :=
  login_date c = Some loginAt \/ login_date c = None /\ seen h Now loginAt.

(** What must be so before a call of a request [e]. *)
Definition guarded (e : entry) (h : history) (c : op) : Prop :=
  match c with
  | UpdateUserPassword id hashed =>
      (exists r req i u p, e = SaveProfile r req /\ caller h r i u /\ ID u = id /\ proven h u (OldPassword req) (TOTPCode req) true /\
         wanted_password req = Some p /\ seen h (Hash p) (Some hashed)) \/
      (exists r p password code, e = AdminResetPassword r id p password code /\ operator h r id password code /\ seen h (Hash p) (Some hashed))
  | ResetPasswordWithToken id token hashed =>
      exists password answers u, e = ResetByLink token password answers /\ seen h (GetUserByPasswordResetToken token) (Found u) /\ ID u = id /\
        answered h u answers /\ seen h (Hash password) (Some hashed)
  | SetPasswordResetToken id token _ _ =>
      exists email u, e = Forgot email /\ seen h (GetUserByEmail (ToLower (TrimSpace email))) (Found u) /\ ID u = id /\
        seen h (RandToken 32) (Some token)
  | SetUserTOTP id secret codes enabled =>
      enabled = true /\ exists r s code password i u now step, e = Enrol r s code password /\ secret = TrimSpace s /\ secret <> "" /\
        caller h r i u /\ ID u = id /\ Is2FAEnabled u = false /\ (i_purpose i = "2fa_setup" \/ bcrypt L (Password u) password = true) /\
        seen h Now now /\ MatchTOTPStep L (TrimSpace code) secret now = Some step
  | SetUserTOTPBackupCodes id _ =>
      exists r password code i u, e = RegenerateCodes r password code /\ caller h r i u /\ ID u = id /\ Is2FAEnabled u = true /\
        proven h u password code true
  | DisableUserTOTP id =>
      (exists r password code i u, e = Disable r password code /\ caller h r i u /\ ID u = id /\ Is2FAEnabled u = true /\
         proven h u password code true) \/
      (exists r password code, e = AdminResetTOTP r id password code /\ operator h r id password code)
  | BumpSessionEpoch id =>
      (exists r i u, e = SignOutEverywhere r /\ caller h r i u /\ ID u = id) \/
      (exists secret codes, seen h (SetUserTOTP id secret codes true) true) \/
      (exists x, seen h (DisableUserTOTP x) true /\ (x = id \/ exists u, seen h (GetUserByID x) (Found u) /\ ID u = id))
  | SetUserEmail id email =>
      (exists r req i u, e = SaveProfile r req /\ caller h r i u /\ ID u = id /\ proven h u (OldPassword req) (TOTPCode req) true) \/
      (exists r em password code, e = AdminSetEmail r id em password code /\ email = ToLower (TrimSpace em) /\ operator h r id password code)
  | SetPendingEmail id _ _ =>
      exists r req i u, e = SaveProfile r req /\ caller h r i u /\ ID u = id /\ proven h u (OldPassword req) (TOTPCode req) true
  | RenameUser id _ => exists r req i u, e = SaveProfile r req /\ caller h r i u /\ ID u = id /\ bcrypt L (Password u) (OldPassword req) = true
  | ConfirmPendingEmail id =>
      exists token u, e = Confirm token /\ seen h (GetUserByEmailVerificationToken token) (Found u) /\ ID u = id /\ PendingEmail u <> ""
  | MarkEmailVerified id =>
      (exists token u, e = Confirm token /\ seen h (GetUserByEmailVerificationToken token) (Found u) /\ ID u = id) \/
      (exists req u v, e = SignUp req /\ seen h (CreateUser u) (Some id) /\ seen h (GetSetting "auth.email_verify_required") v /\ v <> "true")
  | SetUserSecurityQuestions id _ =>
      (exists r items password code me, e = Questions r items password code /\ seen h (GetUserByID id) (Found me) /\
         proven h me password code false) \/
      (exists req u, e = SignUp req /\ seen h (CreateUser u) (Some id))
  | DeleteUser id => exists req u, e = SignUp req /\ seen h (CreateUser u) (Some id)
  | CreateUser u => exists req, e = SignUp req /\ IsAdmin u = false /\ Is2FAEnabled u = false
  | RevokeSession id until =>
      exists r c loginAt, e = SignOut r /\ signs_out h r c /\ cl_ID c = id /\ logged_in h c loginAt /\ until = loginAt + sessionMaxAge
  | SetRevoked id ttl =>
      exists r c loginAt now, e = SignOut r /\ signs_out h r c /\ cl_ID c = id /\ logged_in h c loginAt /\ seen h Now now /\
        ttl = loginAt + sessionMaxAge - now
  (* the step of a code that fits, by the clock just read *)
  | ClaimStep id step ttl =>
      ttl = totpReplayTTL /\ exists now h' u code, h = Ev Now now :: h' /\ ID u = id /\ MatchTOTPStep L code (TOTPSecret u) now = Some step
  | _ => True
  end.

(** Calls that need no justification. *)
Definition harmless (c : op) : bool :=
  match c with
  | UpdateUserPassword _ _ | ResetPasswordWithToken _ _ _ | SetPasswordResetToken _ _ _ _ | SetUserTOTP _ _ _ _
  | SetUserTOTPBackupCodes _ _ | DisableUserTOTP _ | BumpSessionEpoch _ | SetUserEmail _ _ | SetPendingEmail _ _ _ | RenameUser _ _
  | ConfirmPendingEmail _ | MarkEmailVerified _ | SetUserSecurityQuestions _ _ | DeleteUser _ | CreateUser _
  | RevokeSession _ _ | SetRevoked _ _ | ClaimStep _ _ _ => false
  | _ => true
  end.

Lemma harmless_guarded e h c : harmless c = true -> guarded e h c.
Proof. by destruct c. Qed.
Lemma looks_harmless c : looks c -> harmless c = true.
Proof. by destruct c. Qed.

(** *** They stay shown *)
Lemma within_limit_app h l id : within_limit h id -> within_limit (l ++ h) id.
Proof. intros H Hr. destruct (H Hr) as (a & ? & ?). exists a. split; [by apply seen_later|done]. Qed.
Lemma second_factor_app h l u code claim : second_factor h u code claim -> second_factor (l ++ h) u code claim.
Proof.
  intros [H1 [(now & step & H2 & H3 & H4)|(x & y & H2 & H3 & H4)]]; (split; [by apply within_limit_app|]); [left|right].
  - exists now, step. split_and!; [by apply seen_later|done|]. intros Hc Hr. destruct (H4 Hc Hr) as (a & ? & ?). exists a. split; [done|by apply seen_later].
  - exists x, y. split_and!; [done..|by apply seen_later].
Qed.
Lemma proven_app h l u password code claim : proven h u password code claim -> proven (l ++ h) u password code claim.
Proof. intros [H1 H2]. split; [done|]. intros H. by apply second_factor_app, H2. Qed.
Lemma caller_app h l r i u : caller h r i u -> caller (l ++ h) r i u.
Proof. intros [[slid H1] H2]. split; [exists slid; by apply admitted_app|by apply seen_later]. Qed.
Lemma operator_app h l r id password code : operator h r id password code -> operator (l ++ h) r id password code.
Proof.
  intros (i & slid & u & me & H1 & H2 & H3 & H4 & H5 & H6). exists i, slid, u, me.
  split_and!; [by apply admitted_app|done|by apply seen_later..|by apply proven_app].
Qed.
Lemma answers_app h l u answers : answered h u answers -> answered (l ++ h) u answers.
Proof.
  intros (v & w & H1 & H2 & H3). exists v, w. split_and!; [by apply seen_later..|]. intros Hv Hw. destruct (H3 Hv Hw) as (a & ? & ?).
  exists a. split; [by apply seen_later|done].
Qed.

(** *** Parts *)

Section parts2.
Context (e : entry).
Local Notation g h p Q := (traced any (guarded e) h p Q).
Local Notation quiet := (only (fun c => harmless c = true)).

Lemma quiet_part {A B} h (p : program A) (k : A -> program B) Q :
  quiet p -> (forall l a, g (l ++ h) (k a) Q) -> g h (p ≫= k) Q.
Proof.
  intros Hp Hk. eapply traced_part; [|intros l a _; apply Hk]. eapply only_traced; [|exact Hp]. intros h' c. apply harmless_guarded.
Qed.

Lemma ask {A} h c (k : ans c -> program A) Q : harmless c = true -> (forall a, g (Ev c a :: h) (k a) Q) -> g h (call c ≫= k) Q.
Proof. intros Hc Hk. apply traced_do; [by apply harmless_guarded|done]. Qed.

Lemma asked h c : harmless c = true -> g h (call c) (fun h' a => seen h' c a).
Proof. intros Hc. split; [by apply harmless_guarded|]. intros a _. apply seen_here. Qed.

Lemma flag_traced h key : g h (flag key) (fun h' b => exists v, b = (v =? "true")%string /\ seen h' (GetSetting key) v).
Proof. apply ask; [done|]. intros v. exists v. split; [done|apply seen_here]. Qed.
Lemma number_quiet key lo hi dflt : quiet (number key lo hi dflt).
Proof. by split. Qed.

(** The flags of a policy, as they were read. *)
Definition flag_read (h : history) (key : string) (b : bool) : Prop := exists v, b = (v =? "true")%string /\ seen h (GetSetting key) v.
Definition policy_read (h : history) (p : AuthPolicy) : Prop :=
  flag_read h "auth.email_verify_required" (EmailVerifyRequired p) /\
  flag_read h "auth.require_2fa_for_admins" (Require2FAForAdmins p) /\
  flag_read h "auth.require_2fa_for_all_users" (Require2FAForAllUsers p) /\
  flag_read h "auth.security_questions_enabled" (SecurityQuestionsEnabled p) /\
  flag_read h "auth.security_questions_required_at_reset" (SecurityQuestionsRequiredAtReset p).

Lemma flag_read_app h l key b : flag_read h key b -> flag_read (l ++ h) key b.
Proof. intros (v & ? & ?). exists v. split; [done|by apply seen_later]. Qed.
Lemma policy_read_app h l p : policy_read h p -> policy_read (l ++ h) p.
Proof. intros (H1 & H2 & H3 & H4 & H5). split_and!; by apply flag_read_app. Qed.

Lemma LoadAuthPolicy_traced h : g h LoadAuthPolicy policy_read.
Proof.
  unfold LoadAuthPolicy.
  eapply traced_part; [apply flag_traced|]. intros l1 b1 _.
  eapply traced_part; [apply flag_traced|]. intros l2 b2 H2.
  apply quiet_part; [apply number_quiet|]. intros l3 n3.
  eapply traced_part; [apply flag_traced|]. intros l4 b4 H4.
  eapply traced_part; [apply flag_traced|]. intros l5 b5 H5.
  apply quiet_part; [apply number_quiet|]. intros l6 n6.
  eapply traced_part; [apply flag_traced|]. intros l7 b7 H7.
  eapply traced_part; [apply flag_traced|]. intros l8 b8 _.
  eapply traced_part; [apply flag_traced|]. intros l9 b9 H9.
  apply quiet_part; [apply number_quiet|]. intros l10 n10.
  eapply traced_part; [apply flag_traced|]. intros l11 b11 _.
  apply quiet_part; [apply number_quiet|]. intros l12 n12. apply quiet_part; [apply number_quiet|]. intros l13 n13.
  apply quiet_part; [apply number_quiet|]. intros l14 n14. apply ask; [done|]. intros mode.
  split_and!; cbn [EmailVerifyRequired Require2FAForAdmins Require2FAForAllUsers SecurityQuestionsEnabled SecurityQuestionsRequiredAtReset].
  all: apply (flag_read_app _ [_]); repeat first [done|apply flag_read_app].
Qed.

Lemma LoadAuthPolicy_quiet : quiet LoadAuthPolicy.
Proof. unfold LoadAuthPolicy, flag, number. repeat (apply only_bind; [split; [done|intros ?; try exact I; split; done]|intros ?] || done). Qed.

Lemma reserve_traced h id : g h (reserveCodeAttempt d id) (fun h' b => b = true -> within_limit h' id).
Proof.
  unfold reserveCodeAttempt, within_limit. destruct (has_redis d); [cbn [negb]|done].
  apply ask; [done|]. intros [n|]; [|intros _ _; exists None; split; [apply seen_here|done]].
  apply ask; [done|]. intros ttl. apply quiet_part; [by destruct (match ttl with Some _ => _ | None => _ end)|]. intros l _ Hn%Z.leb_le _.
  exists (Some n). split; [apply seen_later, seen_cons, seen_here|]. by intros ? [= <-].
Qed.

Lemma check_traced h u code claim :
  within_limit h (ID u) ->
  g h (check_code L d u code claim) (fun h' r => r = CodeRight -> second_factor h' u code claim).
Proof.
  intros Hw. unfold check_code.
  apply (traced_part _ _ _ _ _ (fun h' s => forall step, s = Some step ->
    exists now l, h' = Ev Now now :: l /\ MatchTOTPStep L code (TOTPSecret u) now = Some step)).
  { destruct (_ =? "")%string; [by intros ? [=]|]. apply ask; [done|]. intros now step Hs. by exists now, h. }
  intros l [step|] Hs.
  - destruct (Hs step eq_refl) as (now & l0 & El & Hm). clear Hs.
    apply (traced_part _ _ _ _ _ (fun h' b => b = true -> claim = true -> has_redis d = true ->
      exists a, a <> Some false /\ seen h' (ClaimStep (ID u) step totpReplayTTL) a)).
    { destruct claim; [|by intros]. unfold claimTOTPStep. destruct (has_redis d); [cbn [negb]|done].
      apply traced_do; [split; [done|]; by exists now, l0, u, code|].
      intros [[|]|] Hb _ _; [|done|]; eexists; (split; [|apply seen_here]); done. }
    intros l' [|] Hb; [|done]. intros _. specialize (Hb eq_refl). split; [by apply within_limit_app, within_limit_app|]. left. exists now, step.
    split_and!; [apply seen_later; rewrite El; apply seen_here|done|done].
  - unfold backup_code. destruct (TOTPBackupCodes u) as [hashed|] eqn:Eh; [|done].
    destruct (without_code L hashed code) as [remaining|] eqn:Er; [|done]. apply ask; [done|]. intros [[|]|]; [|done|done].
    apply ask; [done|]. intros a _. split; [by apply (within_limit_app _ (_ :: _ :: l))|]. right. exists hashed, remaining.
    split_and!; [done..|apply seen_cons, seen_here].
Qed.

Lemma verify_traced h u code claim :
  g h (verifyTOTPOrBackupWith L d u code claim) (fun h' r => r = CodeRight -> second_factor h' u (TrimSpace code) claim).
Proof.
  unfold verifyTOTPOrBackupWith. destruct (_ =? "")%string; [done|].
  eapply traced_part; [apply reserve_traced|]. intros l [|] Hw; [cbn [negb]|done].
  eapply traced_part; [by apply check_traced, Hw|]. intros l' r Hr.
  apply quiet_part; [unfold clearCodeAttempts; destruct r; cbn; try done; by destruct (has_redis d)|].
  intros l'' a ->. by apply second_factor_app, Hr.
Qed.
Lemma reauth_traced h id password code :
  g h (RequireReauth L d id password code) (fun h' r => r = None -> exists me, seen h' (GetUserByID id) (Found me) /\ proven h' me password code false).
Proof.
  unfold RequireReauth. destruct (has_store d); [cbn [negb]|done]. apply ask; [done|]. intros [me| |]; [|done|done].
  destruct (bcrypt L (Password me) password) eqn:Eb; [cbn [negb]|done]. destruct (Is2FAEnabled me) eqn:E2; cbn [negb].
  - eapply traced_part; [apply verify_traced|]. intros l r Hr Hn. destruct r; try done. exists me.
    split; [apply seen_later, seen_here|]. split; [done|]. intros _. by apply Hr.
  - intros _. exists me. split; [apply seen_here|]. split; [done|]. by rewrite E2.
Qed.

(** *** Sessions handed out *)

Definition session_claims (now : Z) (id name : string) (isAdmin : bool) (key : string) : Claims :=
  mkClaims name isAdmin "" 0 0 false (passwordFingerprint L key) (Unix now) id "" (Some (Unix (sessionExpiry now now))) (Some (Unix now)) None.

(** A new session, bound to [key]. *)
Definition issued (h : history) (tok name : string) (isAdmin : bool) (key : string) : Prop :=
  exists now id, seen h Now now /\ seen h (RandHex 16) id /\ SignedString L (session_claims now id name isAdmin key) = Some tok.

(** Another token of the session [c], bound to [key]. *)
Definition copied (h : history) (c : Claims) (tok name : string) (isAdmin : bool) (key : string) : Prop :=
  exists now now' id loginAt, seen h Now now /\ seen h Now now' /\ (login_date c = Some loginAt \/ login_date c = None /\ seen h Now loginAt) /\
    SignedString L (dated (session_claims now id name isAdmin key) (cl_ID c) (Unix loginAt) (Some (Unix (sessionExpiry now' loginAt)))
      (Some (Unix now))) = Some tok.

Lemma issued_app h l tok name isAdmin key : issued h tok name isAdmin key -> issued (l ++ h) tok name isAdmin key.
Proof. intros (now & id & ? & ? & ?). exists now, id. split_and!; [by apply seen_later..|done]. Qed.

Lemma issue_traced h name isAdmin key :
  g h (IssueToken L name isAdmin key) (fun h' t => forall tok, t = Some tok -> issued h' tok name isAdmin key).
Proof.
  unfold IssueToken, newSessionClaims. apply ask; [done|]. intros now. apply ask; [done|]. intros id tok Ht. exists now, id.
  split_and!; [apply seen_cons, seen_here|apply seen_here|exact Ht].
Qed.

Lemma copy_traced h c name isAdmin key :
  g h (copyOfSession L c name isAdmin key) (fun h' t => forall tok, t = Some tok ->
    match c with Some c => copied h' c tok name isAdmin key \/ cl_ID c = "" /\ issued h' tok name isAdmin key | None => issued h' tok name isAdmin key end).
Proof.
  unfold copyOfSession, newSessionClaims. apply ask; [done|]. intros now. apply ask; [done|]. intros id. destruct c as [c|].
  2: { intros tok Ht. exists now, id. split_and!; [apply seen_cons, seen_here|apply seen_here|exact Ht]. }
  destruct (String.eqb_spec (cl_ID c) "") as [He|Hne].
  { intros tok Ht. right. split; [done|]. exists now, id. split_and!; [apply seen_cons, seen_here|apply seen_here|exact Ht]. }
  apply (traced_part _ _ _ _ _ (fun h' at_ => login_date c = Some at_ \/ login_date c = None /\ seen h' Now at_)).
  { unfold loginTime. destruct (login_date c); [by left|]. split; [done|]. intros at_ _. right. split; [done|apply seen_here]. }
  intros l at_ Hat. apply ask; [done|]. intros now' tok Ht. left. exists now, now', id, at_.
  split_and!; [eauto with seen|apply seen_here| |exact Ht]. destruct Hat as [Hat|[Hat Hs]]; [by left|right; split; [done|by apply seen_cons]].
Qed.

(** The session of an account after [endSessionsAfter]. *)
Definition renewed (h : history) (tok : string) (u : User) : Prop :=
  exists u', (u' = u /\ seen h (BumpSessionEpoch (ID u)) None \/ exists epoch, u' = with_epoch u epoch /\ seen h (BumpSessionEpoch (ID u)) (Some epoch)) /\
    issued h tok (Username u) (IsAdmin u) (sessionKey u').

Lemma ended_traced h u :
  guarded e h (BumpSessionEpoch (ID u)) ->
  g h (endSessionsAfter u) (fun h' u' => u' = u /\ seen h' (BumpSessionEpoch (ID u)) None \/
    exists epoch, u' = with_epoch u epoch /\ seen h' (BumpSessionEpoch (ID u)) (Some epoch)).
Proof.
  intros Hg. unfold endSessionsAfter, endAllSessions. split; [exact Hg|]. intros [epoch|] _; [right; exists epoch|left]; (split; [done|apply seen_here]).
Qed.

Lemma ended_all_traced h u :
  guarded e h (BumpSessionEpoch (ID u)) ->
  g h (endAllSessions u) (fun h' r => forall u', r = Some u' -> exists epoch, u' = with_epoch u epoch /\ seen h' (BumpSessionEpoch (ID u)) (Some epoch)).
Proof. intros Hg. split; [exact Hg|]. intros [epoch|] _ u' [= <-]. exists epoch. split; [done|apply seen_here]. Qed.

Lemma reissue_traced h u : g h (reissueOwnSession L u) (fun h' l => forall tok, Session tok ∈ l -> issued h' tok (Username u) (IsAdmin u) (sessionKey u)).
Proof.
  unfold reissueOwnSession. eapply traced_part; [apply issue_traced|]. intros l [t|] Ht; [|by intros tok H%not_elem_of_nil].
  intros tok [= ->]%list_elem_of_singleton. by apply Ht.
Qed.

Lemma renew_traced h u u' :
  (u' = u /\ seen h (BumpSessionEpoch (ID u)) None \/ exists epoch, u' = with_epoch u epoch /\ seen h (BumpSessionEpoch (ID u)) (Some epoch)) ->
  g h (reissueOwnSession L u') (fun h' l => forall tok, Session tok ∈ l -> renewed h' tok u).
Proof.
  intros Hu. eapply traced_mono; [| |apply traced_grows, reissue_traced]; [by intros h' c [_ H]|]. cbn. intros h' gs [[l ->] Hgs] tok Ht. exists u'. split.
  - destruct Hu as [[-> Hu]|(ep & -> & Hu)]; [left|right; exists ep]; (split; [done|by apply seen_later]).
  - specialize (Hgs tok Ht). destruct Hu as [[-> _]|(ep & -> & _)]; exact Hgs.
Qed.

(** *** Signing in *)

(** The gates of the policy, by the settings as they were read. *)
Definition gates (h : history) (u : User) : Prop :=
  (exists v, seen h (GetSetting "auth.email_verify_required") v /\ (v = "true" -> IsAdmin u = true \/ is_Some (EmailVerifiedAt u))) /\
  (Is2FAEnabled u = false ->
   (exists v, seen h (GetSetting "auth.require_2fa_for_admins") v /\ (v = "true" -> IsAdmin u = false)) /\
   (exists v, seen h (GetSetting "auth.require_2fa_for_all_users") v /\ v <> "true")).

Lemma gates_app h l u : gates h u -> gates (l ++ h) u.
Proof.
  intros [(v & H1 & H2) H3]. split; [exists v; split; [by apply seen_later|done]|]. intros H. destruct (H3 H) as [(x & ? & ?) (y & ? & ?)].
  split; [exists x|exists y]; (split; [by apply seen_later|done]).
Qed.

Definition sign_in_earned (h : history) (req : LoginRequest) (tok : string) : Prop :=
  exists u, seen h (GetUserByUsername (lr_Username req)) (Found u) /\ proven h u (lr_Password req) (lr_TOTPCode req) true /\ gates h u /\
    issued h tok (Username u) (IsAdmin u) (sessionKey u).

Definition given_sessions (P : history -> string -> Prop) (h : history) (a : reply) : Prop := forall tok, Session tok ∈ gives a -> P h tok.

Lemma no_sessions P h s : given_sessions P h (refuse s).
Proof. by intros tok H%not_elem_of_nil. Qed.

Lemma sign_in_traced h u req :
  seen h (GetUserByUsername (lr_Username req)) (Found u) -> proven h u (lr_Password req) (lr_TOTPCode req) true -> gates h u ->
  g h (sign_in L u) (given_sessions (fun h tok => sign_in_earned h req tok)).
Proof.
  intros Hu Hp Hg. unfold sign_in. eapply traced_part; [apply issue_traced|]. intros l [t|] Ht; [|apply no_sessions].
  apply ask; [done|]. intros b. apply quiet_part. { destruct (_ =? _)%string; [|done]. split; [done|]. intros [|]; [by split|done]. }
  intros l' a tok [= ->]%list_elem_of_singleton. exists u. rewrite app_comm_cons, app_assoc.
  split_and!; [by apply seen_later|by apply proven_app|by apply gates_app|]. rewrite <- app_assoc. apply issued_app. apply (issued_app _ [_]). by apply Ht.
Qed.

Lemma login_traced h req : g h (LoginHandler L d req) (given_sessions (fun h tok => sign_in_earned h req tok)).
Proof.
  unfold LoginHandler. destruct (has_store d); [cbn [negb]|apply no_sessions]. apply ask; [done|].
  intros [u| |msg]; [|apply no_sessions..]. destruct (bcrypt L (Password u) (lr_Password req)) eqn:Eb; [cbn [negb]|apply no_sessions].
  eapply traced_part; [apply LoadAuthPolicy_traced|]. intros l p Hp. destruct (_ && match _ with Some _ => _ | None => _ end) eqn:Ever; [apply no_sessions|].
  destruct (needs2FA p u) eqn:En.
  { unfold setup_token. apply ask; [done|]. intros now tok. destruct (SignedString L _); [|by intros H%not_elem_of_nil].
    by intros [=]%list_elem_of_singleton. }
  assert (Hu : seen (l ++ Ev (GetUserByUsername (lr_Username req)) (Found u) :: h) (GetUserByUsername (lr_Username req)) (Found u))
    by apply seen_later, seen_here.
  assert (Hg : gates (l ++ Ev (GetUserByUsername (lr_Username req)) (Found u) :: h) u).
  { destruct Hp as ((v & Ev1 & Hv) & (a & Ea1 & Ha) & (b & Eb1 & Hb) & _). split.
    - exists v. split; [done|]. intros ->. rewrite Ev1 in Ever. cbn in Ever. destruct (IsAdmin u); [by left|right]. cbn in Ever.
      destruct (EmailVerifiedAt u); [by eauto|done].
    - intros H2. unfold needs2FA in En. rewrite H2 in En. cbn in En. apply orb_false_iff in En as [En1 En2]. split.
      + exists a. split; [done|]. intros ->. rewrite Ea1 in En1. by destruct (IsAdmin u).
      + exists b. split; [done|]. intros ->. by rewrite Eb1 in En2. }
  destruct (Is2FAEnabled u) eqn:E2.
  - destruct (_ =? "")%string; [apply no_sessions|]. eapply traced_part; [apply verify_traced|]. intros l' r Hr.
    destruct r; cbn [code_reply]; [|apply no_sessions..]. apply sign_in_traced; [by apply seen_later| |by apply gates_app].
    split; [done|]. intros _. by apply Hr.
  - apply sign_in_traced; [done| |done]. split; [done|]. by rewrite E2.
Qed.

Definition demo_earned (h : history) (tok : string) : Prop :=
  exists uuid u, StoreEnabled d = true /\ seen h (GetSetting "demo_account_uuid") uuid /\ seen h (GetUserByID uuid) (Found u) /\
    IsAdmin u = false /\ seen h (StrictPanelCaps (ID u)) (Some []) /\ issued h tok (Username u) false (sessionKey u).

Lemma demo_login_traced h : g h (DemoLogin L d) (given_sessions demo_earned).
Proof.
  unfold DemoLogin. destruct (StoreEnabled d) eqn:Es; [cbn [negb]|apply no_sessions]. destruct (has_store d); [cbn [negb]|apply no_sessions].
  apply (traced_part _ _ _ _ _ (fun h' u => forall x, u = Some x ->
    exists uuid, seen h' (GetSetting "demo_account_uuid") uuid /\ seen h' (GetUserByID uuid) (Found x))).
  { unfold demo_account. apply ask; [done|]. intros uuid. destruct (_ =? "")%string; [by intros ? [=]|]. apply ask; [done|].
    intros [u| |] x [= <-]. exists uuid. split; [apply seen_cons, seen_here|apply seen_here]. }
  intros l [u|] Hu; [|apply no_sessions]. destruct (Hu u eq_refl) as (uuid & H1 & H2). apply ask; [done|]. intros caps.
  destruct (IsAdmin u) eqn:Ea; [apply no_sessions|]. cbn [orb]. destruct caps as [[|]|]; [|apply no_sessions..].
  eapply traced_part; [apply issue_traced|]. intros l' [t|] Ht; [|apply no_sessions]. intros tok [= ->]%list_elem_of_singleton.
  exists uuid, u. split_and!; try done; [eauto with seen..|]. by apply Ht.
Qed.

(** *** Behind the middleware *)

Lemma authed_traced h r next P :
  (forall h i, (exists slid, admitted h r i slid) -> g h (next i) (given_sessions P)) ->
  g h (authed L d r next) (given_sessions (fun h tok => (exists i, admitted h r i (Some tok)) \/ P h tok)).
Proof.
  intros Hn. unfold authed. eapply traced_part.
  { apply AuthMiddleware_traced. intros h' c Hc. by apply harmless_guarded, looks_harmless. }
  intros l [i slid|s cleared] Hv; [|intros tok; destruct cleared; [by intros [=]%list_elem_of_singleton|by intros H%not_elem_of_nil]].
  eapply traced_part; [apply Hn; by eauto|]. intros l' a Ha tok [Ht|Ht]%elem_of_app; [left|right; by apply Ha].
  destruct slid as [t|]; [|by apply not_elem_of_nil in Ht]. apply list_elem_of_singleton in Ht as [= ->]. exists i. by apply admitted_app.
Qed.

Lemma caller_traced h r i missing k P :
  (exists slid, admitted h r i slid) -> (forall h u, caller h r i u -> g h (k u) (given_sessions P)) ->
  g h (with_caller d i missing k) (given_sessions P).
Proof.
  intros [slid Ha] Hk. unfold with_caller. destruct (has_store d); [cbn [negb]|apply no_sessions]. apply ask; [done|].
  intros [u| |]; [|apply no_sessions..]. apply Hk. split; [exists slid; by apply (admitted_app _ [_])|apply seen_here].
Qed.

Definition nothing (h : history) (tok : string) : Prop := False.

Lemma ok_gives P h : given_sessions P h ok.
Proof. by intros tok H%not_elem_of_nil. Qed.


Lemma everywhere_traced h r i :
  e = SignOutEverywhere r -> (exists slid, admitted h r i slid) ->
  g h (LogoutEverywhere L d i) (given_sessions (fun h tok => exists i u epoch, caller h r i u /\
    seen h (BumpSessionEpoch (ID u)) (Some epoch) /\ issued h tok (Username u) (IsAdmin u) (sessionKey (with_epoch u epoch)))).
Proof.
  intros He [slid Ha]. unfold LogoutEverywhere. destruct (_ || _); [apply no_sessions|]. apply ask; [done|]. intros [u| |]; [|apply no_sessions..].
  assert (Hc : caller (Ev (GetUserByUsername (i_username i)) (Found u) :: h) r i u)
    by (split; [exists slid; by apply (admitted_app _ [_])|apply seen_here]).
  eapply traced_part; [apply ended_all_traced; left; by exists r, i, u|]. intros l [u'|] Hu; [|apply no_sessions].
  destruct (Hu u' eq_refl) as (epoch & -> & Hb). apply ask; [done|]. intros x.
  eapply traced_part; [apply reissue_traced|].
  intros l' gs Hgs tok Ht. exists i, u, epoch. split_and!; [by apply caller_app, (caller_app _ (_ :: l))|by apply seen_later, seen_cons|by apply Hgs].
Qed.

Definition copy_earned (h : history) (r : Request) (tok : string) : Prop :=
  exists i u, caller h r i u /\ isWailsWebviewOrigin L (TrimSpace (Origin r)) = true /\
    match i_claims i with
    | Some c => copied h c tok (Username u) (IsAdmin u) (sessionKey u) \/ cl_ID c = "" /\ issued h tok (Username u) (IsAdmin u) (sessionKey u)
    | None => issued h tok (Username u) (IsAdmin u) (sessionKey u)
    end.

Lemma copy_session_traced h r i :
  (exists slid, admitted h r i slid) -> g h (SessionToken_ L d r i) (given_sessions (fun h tok => copy_earned h r tok)).
Proof.
  intros [slid Ha]. unfold SessionToken_. destruct (isWailsWebviewOrigin L _) eqn:Eo; [cbn [negb]|apply no_sessions].
  destruct (_ || _); [apply no_sessions|]. apply ask; [done|]. intros [u| |]; [|apply no_sessions..].
  eapply traced_part; [apply copy_traced|]. intros l [t|] Ht; [|apply no_sessions]. intros tok [= ->]%list_elem_of_singleton.
  exists i, u. split_and!; [split; [exists slid; by apply admitted_app, (admitted_app _ [_])|apply seen_later, seen_here]|done|by apply Ht].
Qed.

Lemma mint_quiet i : quiet (MintSSETicket L d i).
Proof.
  unfold MintSSETicket. destruct (has_redis d); [|done]. destruct (i_username i =? "")%string; [done|]. cbn [negb].
  apply only_bind. { destruct (has_store d); [|done]. split; [done|]. by intros []. }
  intros [fp|a]; [|done]. split; [done|]. intros [t|]; [|done]. split; [done|]. by intros [].
Qed.

(** A request that makes harmless calls and answers without a session. *)
Lemma quiet_traced h (p : program reply) P :
  quiet p -> (forall h, traced any (fun _ _ => True) h p (given_sessions P)) -> g h p (given_sessions P).
Proof.
  intros Hq Ht. specialize (Ht h). revert h Hq Ht. induction p as [a|c k IH]; intros h Hq Ht; [exact Ht|].
  destruct Hq as [Hc Hk], Ht as [_ Ht]. split; [by apply harmless_guarded|]. intros a _. apply IH; [apply Hk|by apply Ht].
Qed.

Lemma mint_traced h i : g h (MintSSETicket L d i) (given_sessions nothing).
Proof.
  apply quiet_traced; [apply mint_quiet|]. clear h. intros h. unfold MintSSETicket. destruct (has_redis d); [|apply no_sessions].
  destruct (i_username i =? "")%string; [apply no_sessions|]. cbn [negb].
  eapply (traced_part _ _ _ _ _ (fun _ r => forall a, r = inr a -> a = refuse 503)).
  { destruct (has_store d); [|by intros ? [=]]. split; [done|]. intros [u| |] _ a; [by intros [=]|by intros [= <-]..]. }
  intros l [fp|a] Ha; [|rewrite (Ha a eq_refl); apply no_sessions]. split; [done|]. intros [t|] _; [|apply no_sessions].
  split; [done|]. intros [|] _; [|apply no_sessions]. by intros tok [=]%list_elem_of_singleton.
Qed.

Lemma newBackupCodes_quiet n : quiet (newBackupCodes n).
Proof.
  induction n as [|n IH]; [done|]. cbn [newBackupCodes]. split; [done|]. intros [p|]; [|done]. split; [done|]. intros [x|]; [|done].
  apply only_bind; [exact IH|]. by intros [[]|].
Qed.

Definition enrol_earned (h : history) (r : Request) (secret password : string) (tok : string) : Prop :=
  exists i u codes, caller h r i u /\ i_purpose i <> "2fa_setup" /\ bcrypt L (Password u) password = true /\
    seen h (SetUserTOTP (ID u) (TrimSpace secret) codes true) true /\ renewed h tok u.

Lemma enrol_traced h r i secret code password :
  e = Enrol r secret code password -> (exists slid, admitted h r i slid) ->
  g h (VerifyTOTPHandler L d i secret code password) (given_sessions (fun h tok => enrol_earned h r secret password tok)).
Proof.
  intros He Ha. apply (caller_traced _ r); [done|]. clear h Ha. intros h u Hc. cbn zeta.
  destruct (_ || _) eqn:Ee; [apply no_sessions|]. apply orb_false_iff in Ee as [Es%String.eqb_neq _].
  destruct (Is2FAEnabled u) eqn:E2; [apply no_sessions|]. destruct (negb (setting_up i) && _) eqn:Ep; [apply no_sessions|].
  assert (Hp : i_purpose i = "2fa_setup" \/ bcrypt L (Password u) password = true).
  { unfold setting_up in Ep. destruct (String.eqb_spec (i_purpose i) "2fa_setup"); [by left|right]. by apply negb_false_iff. }
  apply ask; [done|]. intros now. destruct (MatchTOTPStep L _ _ now) as [step|] eqn:Em; [|apply no_sessions].
  unfold enrol. apply quiet_part; [apply newBackupCodes_quiet|]. intros l [[plain hashed]|]; [|apply no_sessions].
  apply traced_do.
  { split; [done|]. exists r, secret, code, password, i, u, now, step. split_and!; try done; [|apply seen_later, seen_here].
    by apply caller_app, (caller_app _ [_]). }
  intros [|]; [cbn [negb]|apply no_sessions]. apply ask; [done|]. intros x. cbn [mbind prog_mbind].
  eapply traced_part; [apply ended_traced; right; left; exists (TrimSpace secret), hashed; apply seen_cons, seen_here|].
  intros l' u' Hu. eapply (traced_part _ _ _ _ _ (fun h' l => forall tok, Session tok ∈ l -> i_purpose i <> "2fa_setup" /\ renewed h' tok u)).
  { unfold setting_up. destruct (String.eqb_spec (i_purpose i) "2fa_setup") as [E|E]; [by intros tok H%not_elem_of_nil|].
    eapply traced_mono; [done| |exact (renew_traced _ u u' Hu)]. cbn. intros h' gs H tok Ht. split; [done|by apply H]. }
  intros l'' gs Hgs tok [Ht|[=]%list_elem_of_singleton]%elem_of_app. destruct (Hgs tok Ht) as [Hns Hr]. exists i, u, hashed.
  split_and!; [|done|by destruct Hp| |done].
  - apply caller_app, caller_app, (caller_app _ [_; _]), caller_app, (caller_app _ [_]), Hc.
  - apply seen_later, seen_later, seen_cons, seen_here.
Qed.

Lemma both_traced h r i password code k P :
  (exists slid, admitted h r i slid) ->
  (forall h u, caller h r i u -> Is2FAEnabled u = true -> proven h u password code true -> g h (k u) (given_sessions P)) ->
  g h (with_both_factors L d i password code k) (given_sessions P).
Proof.
  intros Ha Hk. apply (caller_traced _ r); [done|]. clear h Ha. intros h u Hc. destruct (Is2FAEnabled u) eqn:E2; [cbn [negb]|apply no_sessions].
  destruct (bcrypt L (Password u) password) eqn:Eb; [cbn [negb]|apply no_sessions].
  eapply traced_part; [apply verify_traced|]. intros l rr Hr. destruct rr; cbn [code_reply]; [|apply no_sessions..].
  apply Hk; [by apply caller_app|done|]. split; [done|]. intros _. by apply Hr.
Qed.

Lemma regenerate_traced h r i password code :
  e = RegenerateCodes r password code -> (exists slid, admitted h r i slid) ->
  g h (RegenerateBackupCodesHandler L d i password code) (given_sessions nothing).
Proof.
  intros He Ha. apply (both_traced _ r); [done|]. clear h Ha. intros h u Hc E2 Hp.
  apply quiet_part; [apply newBackupCodes_quiet|]. intros l [[plain hashed]|]; [|apply no_sessions]. apply traced_do.
  { exists r, password, code, i, u. split_and!; try done; [by apply caller_app|by apply proven_app]. }
  intros [|]; [cbn [negb]|apply no_sessions]. apply ask; [done|]. intros x. by intros tok [=]%list_elem_of_singleton.
Qed.

Definition disable_earned (h : history) (r : Request) (password code tok : string) : Prop :=
  exists i u, caller h r i u /\ proven h u password code true /\ seen h (DisableUserTOTP (ID u)) true /\ renewed h tok u.

Lemma disable_traced h r i password code :
  e = Disable r password code -> (exists slid, admitted h r i slid) ->
  g h (DisableTOTPHandler L d i password code) (given_sessions (fun h tok => disable_earned h r password code tok)).
Proof.
  intros He Ha. apply (both_traced _ r); [done|]. clear h Ha. intros h u Hc E2 Hp. apply traced_do.
  { left. exists r, password, code, i, u. done. }
  intros [|]; [cbn [negb]|apply no_sessions]. apply ask; [done|]. intros x.
  eapply traced_part; [apply ended_traced; right; right; exists (ID u); split; [apply seen_cons, seen_here|by left]|]. intros l u' Hu.
  eapply traced_part; [exact (renew_traced _ u u' Hu)|]. intros l' gs Hgs tok Ht. exists i, u.
  split_and!; [apply caller_app, caller_app, (caller_app _ [_; _]), Hc|apply proven_app, proven_app, (proven_app _ [_; _]), Hp
    |apply seen_later, seen_later, seen_cons, seen_here|by apply Hgs].
Qed.


(** *** Operators *)

Lemma target_traced h r i id password code pre k P :
  (exists slid, admitted h r i slid) -> (forall u, quiet (pre u)) ->
  (forall h u, traced any (fun _ _ => True) h (pre u) (fun h a => forall x, a = Some x -> given_sessions P h x)) ->
  (forall h u, operator h r id password code -> seen h (GetUserByID id) (Found u) -> g h (k u) (given_sessions P)) ->
  g h (with_target L d i id password code pre k) (given_sessions P).
Proof.
  intros [slid Ha] Hq Hpre Hk. unfold with_target. apply ask; [done|]. intros [u| |]; [|apply no_sessions..].
  apply ask; [done|]. intros [|]; [cbn [negb]|apply no_sessions].
  apply (traced_part _ _ _ _ _ (fun h a => forall x, a = Some x -> given_sessions P h x)).
  { specialize (Hq u). specialize (Hpre (Ev (MayManageAccount (actor i) id) true :: Ev (GetUserByID id) (Found u) :: h) u). revert Hq Hpre.
    generalize (pre u) (Ev (MayManageAccount (actor i) id) true :: Ev (GetUserByID id) (Found u) :: h). clear.
    induction p as [a|c p IH]; intros h Hq Ht; [exact Ht|]. destruct Hq as [Hc Hq], Ht as [_ Ht].
    split; [by apply harmless_guarded|]. intros a _. apply IH; [apply Hq|by apply Ht]. }
  intros l [a|] Hx; [by apply Hx|]. unfold RequireAdminReauth. destruct (i_userID i) as [actorID|] eqn:Ei; [|apply no_sessions].
  destruct (actorID =? "")%string; [apply no_sessions|]. eapply traced_part; [apply reauth_traced|].
  intros l' [s|] Hr; [apply no_sessions|]. destruct (Hr eq_refl) as (me & Hme & Hp).
  apply Hk; [|apply seen_later, seen_later, seen_cons, seen_here]. exists i, slid, u, me.
  assert (Hact : actor i = actorID) by (unfold actor; by rewrite Ei). rewrite Hact in *.
  split_and!; try done; [apply admitted_app, admitted_app, (admitted_app _ [_; _]), Ha|apply seen_later, seen_later, seen_cons, seen_here
    |apply seen_later, seen_later, seen_here].
Qed.

Lemma revoke_keys_quiet id : quiet (revoke_keys id).
Proof. by repeat (split; [done|intros ?]). Qed.
Lemma notify_quiet (m : string -> mail) email x : quiet (when (negb (TrimSpace email =? "")%string) (call (GoMail email (m x)))).
Proof. destruct (negb _); [by split|done]. Qed.
Lemma changed_verification_quiet id email : quiet (sendChangedEmailVerification id email).
Proof.
  unfold sendChangedEmailVerification. destruct (_ =? "")%string; [done|]. apply only_bind; [apply LoadAuthPolicy_quiet|]. intros p.
  destruct (negb _); [done|]. split; [done|]. intros [t|]; [|done]. split; [done|]. intros [|]; [by split|done].
Qed.

Lemma admin_totp_traced h r i id password code :
  e = AdminResetTOTP r id password code -> (exists slid, admitted h r i slid) ->
  g h (AdminResetTOTPHandler L d i id password code) (given_sessions nothing).
Proof.
  intros He Ha. unfold AdminResetTOTPHandler. destruct (has_store d); [cbn [negb]|apply no_sessions].
  apply (target_traced _ r); [done|done|by intros ? ? ? [=]|]. clear h Ha. intros h u Ho Hu.
  apply traced_do; [right; by exists r, password, code|]. intros [|]; [cbn [negb]|apply no_sessions].
  eapply traced_part; [apply ended_traced; right; right; exists id; split; [apply seen_here|right; exists u; split; [by apply seen_cons|done]]|].
  intros l u' _. apply quiet_part; [apply revoke_keys_quiet|]. intros l' x. apply ask; [done|]. intros y. apply ok_gives.
Qed.

Lemma too_short_quiet password : quiet (too_short password).
Proof. apply only_bind; [apply LoadAuthPolicy_quiet|done]. Qed.

Lemma admin_password_traced h r i id new password code :
  e = AdminResetPassword r id new password code -> (exists slid, admitted h r i slid) ->
  g h (ResetUserPassword L d i id new password code) (given_sessions nothing).
Proof.
  intros He Ha. unfold ResetUserPassword. destruct (new =? "")%string; [apply no_sessions|].
  apply (target_traced _ r); [done| | |].
  - intros u. apply only_bind; [apply too_short_quiet|done].
  - intros h' u. eapply traced_part; [apply traced_any|]. intros l [|] _ x; [intros [= <-]; apply no_sessions|by intros [=]].
  - clear h Ha. intros h u Ho Hu. apply ask; [done|]. intros [hashed|]; [|apply no_sessions].
    apply traced_do. { right. exists r, new, password, code. split_and!; [done|by apply (operator_app _ [_])|apply seen_here]. }
    intros [|]; [cbn [negb]|apply no_sessions]. apply quiet_part; [apply revoke_keys_quiet|]. intros l x. apply ask; [done|]. intros y.
    apply quiet_part; [apply (notify_quiet (fun _ => PasswordChangedMail) _ "")|]. intros l' z. apply ok_gives.
Qed.

Lemma taken_quiet email id : quiet (address_taken email id).
Proof. split; [done|]. by intros []. Qed.

Lemma admin_email_traced h r i id email password code :
  e = AdminSetEmail r id email password code -> (exists slid, admitted h r i slid) ->
  g h (SetEmail L d i id email password code) (given_sessions nothing).
Proof.
  intros He Ha. unfold SetEmail. destruct (has_store d); [cbn [negb]|apply no_sessions]. cbn zeta. destruct (negb (IsEmail _)); [apply no_sessions|].
  apply (target_traced _ r); [done| | |].
  - intros u. destruct (EqualFold _ _); [done|]. apply only_bind; [apply taken_quiet|done].
  - intros h' u. destruct (EqualFold _ _); [intros x [= <-]; apply ok_gives|]. eapply traced_part; [apply traced_any|].
    intros l [|] _ x; [intros [= <-]; apply no_sessions|by intros [=]].
  - clear h Ha. intros h u Ho Hu. apply traced_do; [right; by exists r, email, password, code|]. intros [|]; [cbn [negb]|apply no_sessions].
    apply ask; [done|]. intros x. apply quiet_part; [apply (notify_quiet AddressChangedMail)|]. intros l y.
    apply quiet_part; [apply changed_verification_quiet|]. intros l' z. apply ok_gives.
Qed.

(** *** Mailed links *)

Lemma forgot_traced h email : e = Forgot email -> g h (ForgotPassword email) (given_sessions nothing).
Proof.
  intros He. unfold ForgotPassword. cbn zeta. destruct (negb _); [apply ok_gives|]. apply ask; [done|]. intros [u| |]; [|apply ok_gives..].
  apply quiet_part; [apply LoadAuthPolicy_quiet|]. intros l p. apply ask; [done|]. intros [t|]; [|apply ok_gives]. apply ask; [done|]. intros now.
  apply traced_do. { exists email, u. split_and!; [done|eauto with seen|done|apply seen_cons, seen_here]. }
  intros [[|]|]; [|apply ok_gives..]. apply ask; [done|]. intros x. apply ask; [done|]. intros y. apply ok_gives.
Qed.

Lemma answers_traced h p u answers :
  policy_read h p -> g h (answers_asked L p u answers) (fun h' b => b = true -> answered h' u answers).
Proof.
  intros (_ & _ & _ & (v & Ev1 & Hv) & (w & Ew & Hw)). unfold answers_asked, answered. destruct (_ && _) eqn:Ea.
  - apply ask; [done|]. intros a. assert (Hgo : (forall qs, a = Some qs -> qs = [] \/ verifySecurityAnswersAgainstStored L qs answers = true) ->
      exists v w, seen (Ev (GetUserSecurityQuestionsRaw (ID u)) a :: h) (GetSetting "auth.security_questions_enabled") v /\
        seen (Ev (GetUserSecurityQuestionsRaw (ID u)) a :: h) (GetSetting "auth.security_questions_required_at_reset") w /\
        (v = "true" -> w = "true" -> exists a', seen (Ev (GetUserSecurityQuestionsRaw (ID u)) a :: h) (GetUserSecurityQuestionsRaw (ID u)) a' /\
           forall qs, a' = Some qs -> qs = [] \/ verifySecurityAnswersAgainstStored L qs answers = true)).
    { intros H. exists v, w. split_and!; [by apply seen_cons..|]. intros _ _. exists a. split; [apply seen_here|done]. }
    destruct a as [[|q qs]|].
    + intros _. apply Hgo. intros ? [= <-]. by left.
    + destruct (verifySecurityAnswersAgainstStored _ _ _) eqn:Eq; [|by apply ask]. intros _. apply Hgo. intros ? [= <-]. by right.
    + intros _. apply Hgo. by intros ? [=].
  - intros _. exists v, w. split_and!; [done..|]. intros -> ->. by rewrite Ev1, Ew in Ea.
Qed.

Lemma reset_traced h token password answers :
  e = ResetByLink token password answers -> g h (ResetPassword L token password answers) (given_sessions nothing).
Proof.
  intros He. unfold ResetPassword. destruct (_ <? 16)%nat; [apply no_sessions|]. eapply traced_part; [apply LoadAuthPolicy_traced|]. intros l p Hp.
  destruct (_ <? _); [apply no_sessions|]. apply ask; [done|]. intros [u| |]; [|apply no_sessions..].
  eapply traced_part; [apply answers_traced; by apply (policy_read_app _ [_])|]. intros l' [|] Ha; [cbn [negb]|apply no_sessions].
  apply ask; [done|]. intros [hashed|]; [|apply no_sessions]. apply traced_do.
  { exists password, answers, u. split_and!; [done|apply seen_cons, seen_later, seen_here|done|by apply (answers_app _ [_]), Ha|apply seen_here]. }
  intros [[|]|]; [|apply no_sessions..]. apply quiet_part; [apply revoke_keys_quiet|]. intros l'' x. apply ask; [done|]. intros y. apply ok_gives.
Qed.

Lemma confirm_traced h token : e = Confirm token -> g h (VerifyEmail token) (given_sessions nothing).
Proof.
  intros He. unfold VerifyEmail. destruct (_ <? 16)%nat; [apply no_sessions|]. apply ask; [done|]. intros [u| |]; [|apply no_sessions..].
  cbn zeta. assert (Hmark : forall h, seen h (GetUserByEmailVerificationToken token) (Found u) ->
    g h (marked ← call (MarkEmailVerified (ID u)); if negb marked then Ret (refuse 500) else _ ← call (Audit "email_verified" "" (ID u)); Ret ok)
      (given_sessions nothing)).
  { clear h. intros h Hu. apply traced_do; [left; by exists token, u|]. intros [|]; [cbn [negb]|apply no_sessions]. apply ask; [done|]. intros x. apply ok_gives. }
  destruct (String.eqb_spec (PendingEmail u) "") as [Hp|Hp]; [apply Hmark, seen_here|].
  apply quiet_part; [apply taken_quiet|]. intros l [|]; [apply no_sessions|].
  apply traced_do. { exists token, u. split_and!; [done|apply seen_later, seen_here|done|done]. }
  intros [[[old new]|]|]; [|apply Hmark, seen_cons, seen_later, seen_here|apply no_sessions].
  apply ask; [done|]. intros x. apply quiet_part; [apply (notify_quiet AddressChangedMail)|]. intros l' y. apply ok_gives.
Qed.

Lemma resend_traced h email : g h (ResendVerification email) (given_sessions nothing).
Proof.
  unfold ResendVerification. apply quiet_part; [apply LoadAuthPolicy_quiet|]. intros l p. destruct (negb _); [apply no_sessions|]. cbn zeta.
  destruct (negb _); [apply no_sessions|]. apply ask; [done|]. intros [u| |]; [|apply ok_gives..].
  destruct (match EmailVerifiedAt u with Some _ => _ | None => _ end); [apply ok_gives|]. apply ask; [done|]. intros now. destruct (negb _); [apply ok_gives|].
  apply ask; [done|]. intros [t|]; [|apply no_sessions]. apply ask; [done|]. intros [|]; [cbn [negb]|apply no_sessions].
  apply ask; [done|]. intros x. apply ok_gives.
Qed.


(** *** Signing out, questions, signing up *)

Lemma loginTime_quiet c : quiet (loginTime c).
Proof. unfold loginTime. destruct (login_date c); [done|by split]. Qed.

Lemma loginTime_traced h c : g h (loginTime c) (fun h' t => logged_in h' c t).
Proof. unfold loginTime, logged_in. destruct (login_date c); [by left|]. split; [done|]. intros t. right. split; [done|apply seen_here]. Qed.

Lemma logged_in_app h l c t : logged_in h c t -> logged_in (l ++ h) c t.
Proof. intros [H|[H1 H2]]; [by left|right]. split; [done|by apply seen_later]. Qed.

Lemma sign_out_traced h r : e = SignOut r -> g h (Logout L d r) (given_sessions nothing).
Proof.
  intros He. unfold Logout. cbn zeta. eapply (traced_part _ _ _ _ _ (fun _ _ => True)); [|intros l b _ tok; by intros [=]%list_elem_of_singleton].
  destruct (_ && _) eqn:Eo; [|done]. apply andb_true_iff in Eo as [_ Eo]. apply ask; [done|]. intros now.
  destruct (ParseWithClaims L _ now) as [c|] eqn:Ec; [|done]. destruct (_ =? "")%string eqn:Ep; [|done]. apply String.eqb_eq in Ep.
  set (c' := withSessionID L c (sessionTokenFromCookie r)).
  assert (Hout : forall l, signs_out (l ++ Ev Now now :: h) r c') by (intros l; exists now, c; split_and!; try done; apply seen_later, seen_here).
  unfold revokeSession. destruct (_ =? "")%string; [done|]. eapply traced_part; [apply loginTime_traced|]. intros l at_ Hat. cbn zeta.
  apply ask; [done|]. intros now'. destruct (_ <=? 0); [done|].
  eapply (traced_part _ _ _ _ _ (fun _ _ => True)).
  { destruct (has_store d); [|done]. split; [|done]. exists r, c', at_. split_and!; [done|apply (Hout (_ :: l))|done|by apply (logged_in_app _ [_])|done]. }
  intros l' [|] _; [cbn [negb]|done]. destruct (has_redis d); [|done]. split; [|done].
  exists r, c', at_, now'. split_and!; [done| |done|by apply logged_in_app, (logged_in_app _ [_])|apply seen_later, seen_here|done].
  specialize (Hout (l' ++ Ev Now now' :: l)). by rewrite <- app_assoc in Hout.
Qed.

Lemma pool_quiet : quiet (LoadSecurityQuestionPool L).
Proof. split; [done|]. intros raw. done. Qed.
Lemma hash_items_quiet pool items seen_ : quiet (hash_items pool seen_ items).
Proof.
  revert seen_. induction items as [|[q a] items IH]; intros seen_; [done|]. cbn [hash_items]. destruct (_ || _); [done|].
  split; [done|]. intros [x|]; [|done]. apply only_bind; [apply IH|]. by intros [].
Qed.
Lemma build_quiet items pool n : quiet (buildHashedQAJSON items pool n).
Proof. unfold buildHashedQAJSON. destruct (negb _); [done|apply hash_items_quiet]. Qed.

Lemma questions_traced h r i items password code :
  e = Questions r items password code -> g h (SetMyQuestions L d i items password code) (given_sessions nothing).
Proof.
  intros He. unfold SetMyQuestions. cbn zeta. destruct (_ =? "")%string; [apply no_sessions|]. apply quiet_part; [apply LoadAuthPolicy_quiet|]. intros l p.
  destruct (negb _); [apply no_sessions|]. apply quiet_part; [apply pool_quiet|]. intros l1 pool. apply quiet_part; [apply build_quiet|].
  intros l2 [qs|]; [|apply no_sessions]. eapply traced_part; [apply reauth_traced|]. intros l3 [s|] Hr; [apply no_sessions|].
  destruct (Hr eq_refl) as (me & Hme & Hp). apply traced_do; [left; by exists r, items, password, code, me|].
  intros [|]; [cbn [negb]|apply no_sessions]. apply ask; [done|]. intros x. apply ok_gives.
Qed.

Lemma signup_questions_traced h req u0 p id :
  e = SignUp req -> seen h (CreateUser u0) (Some id) ->
  g h (signup_questions L p id (rr_Questions req)) (fun h' a => forall x, a = Some x -> given_sessions nothing h' x).
Proof.
  intros He Hc. assert (Hdel : forall h s, seen h (CreateUser u0) (Some id) ->
    g h (_ ← call (DeleteUser id); Ret (Some (refuse s))) (fun h' a => forall x, a = Some x -> given_sessions nothing h' x)).
  { clear h Hc. intros h s Hc. apply traced_do; [by exists req, u0|]. intros b x [= <-]. apply no_sessions. }
  unfold signup_questions. destruct (negb _); [by intros x [=]|]. destruct (rr_Questions req) as [|q qs].
  - destruct (SecurityQuestionsRequiredAtSignup p); [by apply Hdel|by intros x [=]].
  - apply quiet_part; [apply pool_quiet|]. intros l pool. apply quiet_part; [apply build_quiet|]. intros l' [items|]; [|by apply Hdel, seen_later, seen_later].
    apply traced_do; [right; exists req, u0; split; [done|by apply seen_later, seen_later]|]. intros b.
    destruct (negb b && _); [by apply Hdel, seen_cons, seen_later, seen_later|by intros x [=]].
Qed.

Lemma signup_verification_traced h req u0 p id email :
  e = SignUp req -> seen h (CreateUser u0) (Some id) -> policy_read h p ->
  g h (signup_verification p id email) (fun h' a => forall x, a = Some x -> given_sessions nothing h' x).
Proof.
  intros He Hc [(v & Ev1 & Hv) _]. unfold signup_verification. destruct (EmailVerifyRequired p) eqn:Ep.
  - apply ask; [done|]. intros [t|]; [|intros x [= <-]; apply no_sessions]. apply ask; [done|]. intros [|]; [cbn [negb]|intros x [= <-]; apply no_sessions].
    apply ask; [done|]. by intros y x [=].
  - apply traced_do; [|by intros b x [=]]. right. exists req, u0, v. split_and!; try done. intros ->. by rewrite String.eqb_refl in Ev1.
Qed.

Lemma signup_traced h req : e = SignUp req -> g h (Register L req) (given_sessions nothing).
Proof.
  intros He. unfold Register. eapply traced_part; [apply LoadAuthPolicy_traced|]. intros l p Hp. destruct (negb _); [apply no_sessions|]. cbn zeta.
  destruct (_ || _); [apply no_sessions|]. apply ask; [done|]. intros [|]; [apply no_sessions|]. apply ask; [done|].
  intros [x| |]; [apply ok_gives| |apply no_sessions]. apply ask; [done|]. intros [hashed|]; [|apply no_sessions].
  apply traced_do; [by exists req|]. intros [id|]; [|apply no_sessions].
  eapply traced_part; [eapply signup_questions_traced; [exact He|apply seen_here]|]. intros l1 [a|] Ha; [by apply Ha|].
  eapply traced_part. { eapply signup_verification_traced; [exact He|apply seen_later, seen_here|]. apply policy_read_app, (policy_read_app _ [_; _; _; _]), Hp. }
  intros l2 [a|] Ha'; [by apply Ha'|]. apply ask; [done|]. intros y. apply ok_gives.
Qed.

(** *** The profile *)

Lemma new_address_traced h u isAdmin req P :
  g h (new_address u isAdmin req) (fun h' r => forall a, r = inr a -> given_sessions P h' a).
Proof.
  unfold new_address. destruct (ur_Email req) as [email|]; [|by intros a [=]]. cbn zeta. destruct (EqualFold _ _); [by intros a [=]|].
  apply quiet_part.
  { destruct (_ =? "")%string; [apply only_bind; [apply LoadAuthPolicy_quiet|done]|]. destruct (negb _); [done|].
    apply only_bind; [apply taken_quiet|done]. }
  intros l [s|]; [intros a [= <-]; apply no_sessions|]. apply ask; [done|]. intros now a. destruct (verificationResendAllowed _ _ _); intros [= <-]. apply no_sessions.
Qed.

Lemma new_name_traced h u isAdmin req P :
  g h (new_name u isAdmin req) (fun h' r => forall a, r = inr a -> given_sessions P h' a).
Proof.
  unfold new_name. destruct (NewUsername req) as [name|]; [|by intros a [=]]. cbn zeta. destruct (_ =? _)%string; [by intros a [=]|].
  destruct (negb _); [intros a [= <-]; apply no_sessions|]. apply ask; [done|]. intros pol. destruct (_ && _); [intros a [= <-]; apply no_sessions|].
  apply quiet_part. { destruct (LastUsernameChange u); [|done]. destruct isAdmin; [done|]. by split. }
  intros l [|]; [intros a [= <-]; apply no_sessions|]. apply ask; [done|]. intros [|] a; intros [= <-]. apply no_sessions.
Qed.

Lemma profile_code_traced h u req address :
  g h (profile_code L d u req address) (fun h' r => (forall a, r = Some a -> a = refuse (status a)) /\
    (r = None -> (is_Some address \/ is_Some (wanted_password req)) -> Is2FAEnabled u = true -> second_factor h' u (TrimSpace (TOTPCode req)) true)).
Proof.
  unfold profile_code. destruct (Is2FAEnabled u && _) eqn:Ec.
  - destruct (_ =? "")%string; [split; [by intros a [= <-]|done]|]. eapply traced_part; [apply verify_traced|]. intros l r Hr.
    destruct r; (split; [by intros a [= <-] || by intros a [=]|]); try done. intros _ _ _. by apply Hr.
  - split; [by intros a [=]|]. intros _ Hx E2. rewrite E2 in Ec. cbn in Ec. apply orb_false_iff in Ec as [E1 E3].
    destruct Hx as [[x Hx]|[x Hx]]; rewrite Hx in *; done.
Qed.

Section profile.
Context (r : Request) (req : UpdateRequest) (i : identity) (u : User) (He : e = SaveProfile r req).

(** The caller is known, the password right, and the code if one is needed. *)
Definition cleared (h : history) (sensitive : Prop) : Prop :=
  caller h r i u /\ bcrypt L (Password u) (OldPassword req) = true /\ (sensitive -> proven h u (OldPassword req) (TOTPCode req) true).

Lemma cleared_app h l s : cleared h s -> cleared (l ++ h) s.
Proof. intros (H1 & H2 & H3). split_and!; [by apply caller_app|done|]. intros Hs. by apply proven_app, H3. Qed.

Definition profile_earned (h : history) (tok : string) : Prop :=
  exists p hashed name, caller h r i u /\ proven h u (OldPassword req) (TOTPCode req) true /\ wanted_password req = Some p /\
    seen h (Hash p) (Some hashed) /\ seen h (UpdateUserPassword (ID u) hashed) true /\
    issued h tok name (IsAdmin u) (if SessionEpoch u =? 0 then hashed else hashed +:+ "#" +:+ Itoa (SessionEpoch u)).

Lemma keep_pending_traced h address :
  cleared h (is_Some address) ->
  g h (keep_pending u address) (fun h' x => match x with inl a => is_Some a -> is_Some address | inr a => a = refuse (status a) end).
Proof.
  intros Hc. unfold keep_pending. destruct address as [email|]; [|exact id]. destruct (_ =? "")%string; [exact id|].
  apply quiet_part; [apply LoadAuthPolicy_quiet|]. intros l p. destruct (negb _); [exact id|]. apply ask; [done|]. intros [t|]; [|done].
  assert (Hg : forall h x y, cleared h (is_Some (Some email)) -> guarded e h (SetPendingEmail (ID u) x y)).
  { intros h' x y (H1 & _ & H3). exists r, req, i, u. split_and!; try done. apply H3. by eauto. }
  apply traced_do; [by apply Hg, (cleared_app _ [_]), cleared_app|]. intros [|]; [cbn [negb]|done]. apply ask; [done|]. intros x.
  apply ask; [done|]. intros [|]; [by intros []|]. apply traced_do; [|done]. apply Hg, (cleared_app _ [_; _; _; _]), cleared_app, Hc.
Qed.

Lemma rename_traced h name s :
  cleared h s -> g h (rename u name) (fun h' x => match x with inl _ => True | inr a => a = refuse (status a) end).
Proof.
  intros (H1 & H2 & _). unfold rename. destruct name as [n|]; [|done]. apply traced_do; [by exists r, req, i, u|].
  intros []; [|done|done]. by apply ask.
Qed.

Lemma write_if_traced h v c told (P : Prop) :
  (is_Some v -> P) -> (P -> forall x, v = Some x -> guarded e h (c x)) ->
  g h (write_if v c told) (fun h' b => b = true -> forall x, v = Some x -> exists a, seen h' (c x) a /\ told x a = true).
Proof.
  intros Hv Hg. unfold write_if. destruct v as [x|]; [|done]. apply traced_do; [apply Hg; [apply Hv; by eauto|done]|].
  intros a Ht y [= <-]. exists a. split; [apply seen_here|done].
Qed.

Lemma save_traced h address username :
  cleared h (is_Some address \/ is_Some (wanted_password req)) -> g h (save_profile L u req address username) (given_sessions profile_earned).
Proof.
  intros Hc. unfold save_profile.
  apply (traced_part _ _ _ _ _ (fun h' x => forall y hashed, x = inl y -> y = Some hashed ->
    exists p, wanted_password req = Some p /\ seen h' (Hash p) (Some hashed))).
  { destruct (wanted_password req) as [p|]; [|by intros y hashed [= <-]]. apply ask; [done|].
    intros [x|] y hashed; [|by intros [=]]. intros [= <-] [= <-]. exists p. split; [done|apply seen_here]. }
  intros l [hashed|[]] Hh; [|apply no_sessions]. apply (cleared_app _ l) in Hc.
  assert (Hw : is_Some hashed -> is_Some address \/ is_Some (wanted_password req)).
  { intros [x ->]. destruct (Hh _ x eq_refl eq_refl) as (p & -> & _). by eauto. }
  eapply traced_part.
  { apply (write_if_traced _ _ _ _ _ Hw). intros Hs x ->. destruct (Hh _ x eq_refl eq_refl) as (p & Hp & Hx). destruct Hc as (H1 & _ & H3).
    left. exists r, req, i, u, p. split_and!; try done. by apply H3. }
  intros l1 [|] Hpw; [cbn [negb]|apply no_sessions]. apply (cleared_app _ l1) in Hc.
  eapply traced_part; [apply (write_if_traced _ _ _ _ True); done|]. intros l2 [|] _; [cbn [negb]|apply no_sessions]. apply (cleared_app _ l2) in Hc.
  eapply traced_part.
  { apply (write_if_traced _ address _ _ (is_Some address)); [done|]. intros Hs x _. destruct Hc as (H1 & _ & H3).
    left. exists r, req, i, u. split_and!; try done. apply H3. by left. }
  intros l3 [|] _; [cbn [negb]|apply no_sessions]. apply (cleared_app _ l3) in Hc. apply quiet_part.
  { destruct address; [|done]. split; [done|]. intros x. apply only_bind; [apply (notify_quiet AddressChangedMail)|]. intros y.
    apply only_bind; [apply changed_verification_quiet|done]. }
  intros l4 x. apply (cleared_app _ l4) in Hc. destruct hashed as [hashed|]; [|apply ok_gives].
  apply quiet_part; [apply (notify_quiet (fun _ => PasswordChangedMail) _ "")|]. intros l5 y. apply (cleared_app _ l5) in Hc.
  eapply traced_part; [apply issue_traced|]. intros l6 [t|] Ht; [|by intros tok H%not_elem_of_nil]. apply (cleared_app _ l6) in Hc.
  intros tok [= ->]%list_elem_of_singleton. destruct (Hh _ hashed eq_refl eq_refl) as (p & Hp & Hx).
  destruct (Hpw eq_refl hashed eq_refl) as (b & Hb & ->). destruct Hc as (H1 & _ & H3).
  exists p, hashed, username. split_and!; [done|apply H3; by eauto|done|by do 6 apply seen_later|by do 5 apply seen_later|by apply (Ht t)].
Qed.
End profile.


Lemma or_reply_traced {A} h (p : program (A + reply)) k (R : history -> A -> Prop) P :
  g h p (fun h' x => match x with inl a => R h' a | inr a => given_sessions P h' a end) ->
  (forall l a, R (l ++ h) a -> g (l ++ h) (k a) (given_sessions P)) -> g h (or_reply p k) (given_sessions P).
Proof. intros Hp Hk. eapply traced_part; [exact Hp|]. intros l [a|a] Ha; [by apply Hk|exact Ha]. Qed.

Lemma fields_fit_quiet req : quiet (fields_fit req).
Proof. apply only_bind; [destruct (wanted_password req); [apply too_short_quiet|done]|done]. Qed.

Lemma refused P h a : a = refuse (status a) -> given_sessions P h a.
Proof. intros ->. apply no_sessions. Qed.

Lemma profile_traced h r i req :
  e = SaveProfile r req -> (exists slid, admitted h r i slid) ->
  g h (UpdateProfileHandler L d i req) (given_sessions (fun h tok => exists i u, profile_earned r req i u h tok)).
Proof.
  intros He [slid Ha]. unfold UpdateProfileHandler. destruct (has_store d); [cbn [negb]|apply ok_gives]. apply ask; [done|].
  intros [u| |]; [|apply no_sessions..]. destruct (bcrypt L (Password u) (OldPassword req)) eqn:Eb; [cbn [negb]|apply no_sessions].
  assert (Hc : caller (Ev (GetUserByUsername (i_username i)) (Found u) :: h) r i u)
    by (split; [exists slid; by apply (admitted_app _ [_])|apply seen_here]).
  revert Hc. generalize (Ev (GetUserByUsername (i_username i)) (Found u) :: h). clear h Ha. intros h Hc.
  apply (or_reply_traced _ _ _ (fun _ _ => True)).
  { eapply traced_mono; [done| |apply new_address_traced]. intros h' [a|a] H; [done|by apply H]. }
  intros l address _. apply (caller_app _ l) in Hc. apply (or_reply_traced _ _ _ (fun _ _ => True)).
  { eapply traced_mono; [done| |apply new_name_traced]. intros h' [a|a] H; [done|by apply H]. }
  intros l1 name _. apply (caller_app _ l1) in Hc. apply quiet_part; [apply fields_fit_quiet|]. intros l2 [|]; [cbn [negb]|apply no_sessions].
  apply (caller_app _ l2) in Hc. eapply traced_part; [apply profile_code_traced|]. intros l3 [a|] [Hcode1 Hcode2]; [by apply refused, Hcode1|].
  specialize (Hcode2 eq_refl). apply (caller_app _ l3) in Hc. revert Hc Hcode2. generalize (l3 ++ l2 ++ l1 ++ l ++ h). intros h' Hc Hcode.
  assert (Hcl : cleared r req i u h' (is_Some address \/ is_Some (wanted_password req))).
  { split_and!; [done..|]. intros Hs. split; [done|]. by apply Hcode. }
  apply (or_reply_traced _ _ _ (fun _ a => is_Some a -> is_Some address)).
  { eapply traced_mono; [done| |apply (keep_pending_traced r req i u He)].
    - intros h'' [a|a]; [done|apply refused].
    - destruct Hcl as (H1 & H2 & H3). split_and!; [done..|]. intros Hs. apply H3. by left. }
  intros l4 address' Hs. apply (cleared_app _ _ _ _ _ l4) in Hcl. apply (or_reply_traced _ _ _ (fun _ _ => True)).
  { eapply traced_mono; [done| |eapply (rename_traced r req i u He), Hcl]. intros h'' [a|a]; [done|apply refused]. }
  intros l5 username _. apply (cleared_app _ _ _ _ _ l5) in Hcl.
  eapply traced_mono; [done| |apply (save_traced r req i u He)].
  - intros h'' a H tok Ht. exists i, u. by apply H.
  - destruct Hcl as (H1 & H2 & H3). split_and!; [done..|]. intros [Hx|Hx]; apply H3; [left; by apply Hs|by right].
Qed.

Lemma minecraft_traced h i mc : g h (UpdateMinecraftUsernameHandler d i mc) (given_sessions nothing).
Proof.
  unfold UpdateMinecraftUsernameHandler. destruct (negb (has_store d)); [apply ok_gives|]. cbn zeta. destruct (_ && _); [apply no_sessions|].
  apply ask; [done|]. intros [u| |]; [|apply no_sessions..]. apply ask; [done|]. intros [|]; [apply ok_gives|apply no_sessions].
Qed.
End parts2.

(** ** Every endpoint *)

(** The request of an endpoint behind the middleware. *)
Definition behind (e : entry) : option Request :=
  match e with
  | SignOutEverywhere r | CopySession r | MintTicket r | Enrol r _ _ _ | RegenerateCodes r _ _ | Disable r _ _ | AdminResetTOTP r _ _ _
  | AdminResetPassword r _ _ _ _ | AdminSetEmail r _ _ _ _ | Questions r _ _ _ | SaveProfile r _ | Minecraft r _ | Visit r => Some r
  | _ => None
  end.

(** What whoever is handed the session [tok] has shown. *)
Definition earned (e : entry) (h : history) (tok : string) : Prop :=
  match e with
  | SignIn req => sign_in_earned h req tok
  | TryDemo => demo_earned h tok
  | SignOutEverywhere r => exists i u epoch, caller h r i u /\ seen h (BumpSessionEpoch (ID u)) (Some epoch) /\
      issued h tok (Username u) (IsAdmin u) (sessionKey (with_epoch u epoch))
  | CopySession r => copy_earned h r tok
  | Enrol r secret code password => enrol_earned h r secret password tok
  | Disable r password code => disable_earned h r password code tok
  | SaveProfile r req => exists i u, profile_earned r req i u h tok
  | _ => False
  end.

Lemma handle_traced e :
  tr (guarded e) [] (handle L d e) (given_sessions (fun h tok =>
    (exists r i, behind e = Some r /\ admitted h r i (Some tok)) \/ earned e h tok)).
Proof.
  assert (Hout : forall P p, traced any (guarded e) [] p (given_sessions P) -> (forall h tok, P h tok -> earned e h tok) ->
    tr (guarded e) [] p (given_sessions (fun h tok => (exists r i, behind e = Some r /\ admitted h r i (Some tok)) \/ earned e h tok))).
  { intros P p Hp HP. eapply traced_mono; [done| |exact Hp]. intros h a H tok Ht. right. by apply HP, H. }
  assert (Hin : forall r next P, behind e = Some r -> (forall h i, (exists slid, admitted h r i slid) -> tr (guarded e) h (next i) (given_sessions P)) ->
    (forall h tok, P h tok -> earned e h tok) ->
    tr (guarded e) [] (authed L d r next) (given_sessions (fun h tok => (exists r i, behind e = Some r /\ admitted h r i (Some tok)) \/ earned e h tok))).
  { intros r next P Hb Hn HP. eapply traced_mono; [done| |by apply authed_traced]. intros h a H tok Ht.
    destruct (H tok Ht) as [[i Hi]|Hi]; [left; by exists r, i|right; by apply HP]. }
  destruct e; cbn [handle].
  - eapply Hout; [apply login_traced|done].
  - eapply Hout; [apply demo_login_traced|done].
  - eapply Hout; [by apply sign_out_traced|done].
  - eapply Hin; [done|intros; by apply everywhere_traced|done].
  - eapply Hin; [done|intros; by apply copy_session_traced|done].
  - eapply Hin; [done|intros; by apply mint_traced|done].
  - eapply Hin; [done|intros; by eapply enrol_traced|done].
  - eapply Hin; [done|intros; by eapply regenerate_traced|done].
  - eapply Hin; [done|intros; by eapply disable_traced|done].
  - eapply Hin; [done|intros; by eapply admin_totp_traced|done].
  - eapply Hin; [done|intros; by eapply admin_password_traced|done].
  - eapply Hin; [done|intros; by eapply admin_email_traced|done].
  - eapply Hout; [by apply forgot_traced|done].
  - eapply Hout; [by apply reset_traced|done].
  - eapply Hout; [by apply confirm_traced|done].
  - eapply Hout; [by apply resend_traced|done].
  - eapply Hout; [by apply signup_traced|done].
  - eapply Hin; [done|intros; by eapply questions_traced|done].
  - eapply Hin; [done|intros; by apply profile_traced|done].
  - eapply Hin; [done|intros; by apply minecraft_traced|done].
  - eapply (Hin _ _ nothing); [done|intros; apply ok_gives|done].
Qed.

(** C8: Nobody is handed a session they did not earn, at the endpoints of
    [entry]; the setup wizard, which signs its new administrator in, is not one
    of them. Whatever is answered, a sign-in hands out a session only to who
    typed the password of the row read, and where the account has a second
    factor also showed a code of its secret or spent a backup code. A code of
    the secret counts unless Redis answered that its step is taken, and either
    code unless Redis answered that the attempt is past the tenth of its window:
    with no Redis, or when it fails, neither refuses anybody. An account that must
    prove its address or enrol a second factor, by the settings as they were
    read, gets none; a setting that cannot be read asks for neither. The
    demo account's is handed out only while the account is designated, no
    administrator and without a panel capability. Every other endpoint that
    hands one out does so behind the middleware: the same session with a later
    end, a copy of it in the desktop app, or a new one after the sessions of
    the account were ended, the second factor was switched on with the password
    or off with the password and a code, or the password was changed with both.
    Each new session is bound to the password and epoch of the row as it was
    read, or as the request has just written them. *)
Theorem sessions_earned (e : entry) :
  tr (fun _ _ => True) [] (handle L d e) (fun h a => forall tok, Session tok ∈ gives a ->
    (exists r i, behind e = Some r /\ admitted h r i (Some tok)) \/ earned e h tok).
Proof. eapply traced_mono; [| |apply handle_traced]; done. Qed.

(** C9: How an account is entered changes only for who may change it, through the
    endpoints of [entry]; an operator's rename of another account and the setup
    wizard are not among them. Whatever is answered: a password is written for the caller's own row after its
    password and, with 2FA, a code, for an account an operator may manage after
    the operator proved who they are, or for a mailed link that was found, the
    security questions answered where they are asked for and could be read.
    The second factor is switched on for an account that was read without one,
    after its password or a setup token and a code of the new secret; it is
    switched off, and its backup codes replaced, with both factors, or by such
    an operator. Address and name are written after the password, an address
    with the code or by an operator; an address is confirmed for a link that
    was found, or at registration where no proof is asked for. The epoch of
    the sessions moves for the caller or after a change of the second factor,
    the questions are set after re-authentication or at registration, and
    registration creates no administrator and deletes nothing but what it
    created. *)
Theorem credentials_guarded (e : entry) : tr (guarded e) [] (handle L d e) (fun _ _ => True).
Proof. eapply traced_mono; [| |apply handle_traced]; done. Qed.
End policy.
