(* ===== verification/SessionWorld.v ===== *)
(** * Accounts, Redis and many requests at once (over Sessions.v)

    The rows of [users], the sign-out list, Redis and the clock, and the
    endpoints of Sessions.v running against them: any number at once, call by
    call, each call answered, answered in vain or failed. Redis may lose any of
    its keys at any time. Postgres, Redis and every Core read one clock. What is
    single use is used once, and what was ended stays ended, whatever the order. *)

From Stdlib Require Import Ascii String.
From S2P Require Import Prelude GoStrings Programs Sessions SessionPolicy.
Open Scope string_scope.
Open Scope list_scope.
Open Scope Z_scope.

(** ** Rows *)

(** A row of [users]: with the columns of [User], the stored digests of the
    mailed tokens and the security questions. *)
Record row := mkRow { r_user : User; r_verify : option string; r_reset : option string; r_reset_until : option Z; r_questions : list (string * string) }.

Definition set_password (h : string) (u : User) : User :=
  mkUser (ID u) (Username u) h (Email u) (MinecraftUsername u) (IsAdmin u) (Is2FAEnabled u) (TOTPSecret u) (TOTPBackupCodes u)
    (SessionEpoch u) (PendingEmail u) (EmailVerifiedAt u) (EmailVerificationSentAt u) (DeletionStatus u) (LastUsernameChange u).
Definition set_totp (enabled : bool) (secret : string) (codes : list string) (u : User) : User :=
  mkUser (ID u) (Username u) (Password u) (Email u) (MinecraftUsername u) (IsAdmin u) enabled secret (Some codes)
    (SessionEpoch u) (PendingEmail u) (EmailVerifiedAt u) (EmailVerificationSentAt u) (DeletionStatus u) (LastUsernameChange u).
Definition set_address (email pending : string) (verified sent : option Z) (u : User) : User :=
  mkUser (ID u) (Username u) (Password u) email (MinecraftUsername u) (IsAdmin u) (Is2FAEnabled u) (TOTPSecret u) (TOTPBackupCodes u)
    (SessionEpoch u) pending verified sent (DeletionStatus u) (LastUsernameChange u).
Definition set_names (username mc status : string) (changed : option Z) (u : User) : User :=
  mkUser (ID u) username (Password u) (Email u) mc (IsAdmin u) (Is2FAEnabled u) (TOTPSecret u) (TOTPBackupCodes u)
    (SessionEpoch u) (PendingEmail u) (EmailVerifiedAt u) (EmailVerificationSentAt u) status changed.
Definition set_role (isAdmin : bool) (u : User) : User :=
  mkUser (ID u) (Username u) (Password u) (Email u) (MinecraftUsername u) isAdmin (Is2FAEnabled u) (TOTPSecret u) (TOTPBackupCodes u)
    (SessionEpoch u) (PendingEmail u) (EmailVerifiedAt u) (EmailVerificationSentAt u) (DeletionStatus u) (LastUsernameChange u).
(** The row [CreateUser] inserts: the second factor is never on at creation. *)
Definition created (id : string) (u : User) : User :=
  mkUser id (Username u) (Password u) (Email u) (MinecraftUsername u) (IsAdmin u) false "" (Some []) 0 "" (EmailVerifiedAt u) None "active" None.

(** ** Statements (core/store)

    Each acts on the row of one account; a token is stored by its digest. *)
Inductive stmt :=
  | WPassword (h : string) | WReset (digest h : string) | WLink (digest : string) (expiresAt before : Z)
  | WTOTP (secret : string) (codes : list string) (enabled : bool) | WCodes (codes : list string)
  | WConsume (read remaining : list string) | WDisable | WBump
  | WEmail (email : string) | WPending (email : string) (digest : option string) | WConfirm | WMark | WVerify (digest : option string)
  | WName (name : string) | WMinecraft (mc : string) | WActive | WRole (isAdmin : bool) | WQuestions (qs : list (string * string)) | WInsert (id : string) (u : User) | WAnonymize (h : string) | WDelete.

Inductive report := Hit (b : bool) | Epoch (e : option Z) | Confirmed (c : option (string * string)).

Definition link_alive (now : Z) (r : row) : bool := match r_reset_until r with None => true | Some t => now <? t end.

Definition on_user (f : User -> User) (r : row) : row := mkRow (f (r_user r)) (r_verify r) (r_reset r) (r_reset_until r) (r_questions r).

Definition exec_row (now : Z) (w : stmt) (r : row) : option row * report :=
  let u := r_user r in
  let plain f := (Some (on_user f r), Hit true) in
  match w with
  | WPassword h => (Some (mkRow (set_password h u) (r_verify r) None None (r_questions r)), Hit true)
  | WReset digest h =>
      if bool_decide (r_reset r = Some digest) && link_alive now r
      then (Some (mkRow (set_password h u) (r_verify r) None None (r_questions r)), Hit true) else (Some r, Hit false)
  | WLink digest expiresAt before =>
      if match r_reset_until r with None => true | Some t => t <=? before end
      then (Some (mkRow u (r_verify r) (Some digest) (Some expiresAt) (r_questions r)), Hit true) else (Some r, Hit false)
  | WTOTP secret codes enabled => plain (set_totp enabled secret codes)
  | WCodes codes => if Is2FAEnabled u then plain (set_totp true (TOTPSecret u) codes) else (Some r, Hit false)
  | WConsume read remaining =>
      if Is2FAEnabled u && bool_decide (TOTPBackupCodes u = Some read) then plain (set_totp true (TOTPSecret u) remaining) else (Some r, Hit false)
  | WDisable => plain (set_totp false "" [])
  | WBump => (Some (on_user (fun u => with_epoch u (SessionEpoch u + 1)) r), Epoch (Some (SessionEpoch u + 1)))
  | WEmail email => (Some (mkRow (set_address email "" None None u) None None None (r_questions r)), Hit true)
  | WPending email digest =>
      if (email =? "")%string
      then (Some (mkRow (set_address (Email u) "" (EmailVerifiedAt u) None u) None (r_reset r) (r_reset_until r) (r_questions r)), Hit true)
      else (Some (mkRow (set_address (Email u) email (EmailVerifiedAt u) (Some now) u) digest (r_reset r) (r_reset_until r) (r_questions r)), Hit true)
  | WConfirm =>
      if (PendingEmail u =? "")%string then (Some r, Confirmed None)
      else (Some (mkRow (set_address (PendingEmail u) "" (Some now) None u) None None None (r_questions r)), Confirmed (Some (Email u, PendingEmail u)))
  | WMark =>
      (Some (mkRow (set_address (Email u) (PendingEmail u) (Some now) None u) None (r_reset r) (r_reset_until r) (r_questions r)), Hit true)
  | WVerify digest =>
      (Some (mkRow (set_address (Email u) "" (EmailVerifiedAt u) (match digest with Some _ => Some now | None => None end) u) digest
               (r_reset r) (r_reset_until r) (r_questions r)), Hit true)
  | WName name => if (Username u =? name)%string then (Some r, Hit true) else plain (set_names name (MinecraftUsername u) (DeletionStatus u) (Some now))
  | WMinecraft mc => plain (set_names (Username u) mc (DeletionStatus u) (LastUsernameChange u))
  | WActive => plain (set_names (Username u) (MinecraftUsername u) "active" (LastUsernameChange u))
  | WRole isAdmin => plain (set_role isAdmin)
  | WQuestions qs => (Some (mkRow u (r_verify r) (r_reset r) (r_reset_until r) qs), Hit true)
  | WInsert _ _ => (Some r, Hit false)
  | WAnonymize h =>
      let u := set_address "" (PendingEmail u) None None (set_password h u) in
      (Some (mkRow (set_totp false "" [] (set_names ("<deleted_user_" +:+ ID u +:+ ">") "" "anonymized" (LastUsernameChange u) u)) None None None []), Hit true)
  | WDelete => (None, Hit true)
  end.

(** A row that is not there is hit by an insertion only. *)
Definition exec_stmt (now : Z) (w : stmt) (r : option row) : option row * report :=
  match r with
  | Some r => exec_row now w r
  | None =>
      match w with
      | WInsert id u => (Some (mkRow (created id u) None None None []), Hit true)
      | WBump => (None, Epoch None)
      | WConfirm => (None, Confirmed None)
      | WReset _ _ | WLink _ _ _ | WConsume _ _ | WCodes _ | WName _ => (None, Hit false)
      | _ => (None, Hit true)
      end
  end.

(** ** State *)

Record state := mkState {
  st_users : gmap string row;
  st_revoked : gmap string Z;              (* revoked_sessions: until when *)
  st_redis_revoked : gmap string Z;        (* the same list in Redis *)
  st_tickets : gmap string (string * Z);   (* a ticket's value, until when *)
  st_steps : gmap (string * Z) Z;          (* spent steps, until when *)
  st_counts : gmap string (Z * option Z);  (* code attempts, until when *)
  st_mails : list (string * mail);         (* newest first *)
  st_now : Z
}.

Definition on_users f st := mkState (f (st_users st)) (st_revoked st) (st_redis_revoked st) (st_tickets st) (st_steps st) (st_counts st) (st_mails st) (st_now st).
Definition on_revoked f st := mkState (st_users st) (f (st_revoked st)) (st_redis_revoked st) (st_tickets st) (st_steps st) (st_counts st) (st_mails st) (st_now st).
Definition on_redis f st := mkState (st_users st) (st_revoked st) (f (st_redis_revoked st)) (st_tickets st) (st_steps st) (st_counts st) (st_mails st) (st_now st).
Definition on_tickets f st := mkState (st_users st) (st_revoked st) (st_redis_revoked st) (f (st_tickets st)) (st_steps st) (st_counts st) (st_mails st) (st_now st).
Definition on_steps f st := mkState (st_users st) (st_revoked st) (st_redis_revoked st) (st_tickets st) (f (st_steps st)) (st_counts st) (st_mails st) (st_now st).
Definition on_counts f st := mkState (st_users st) (st_revoked st) (st_redis_revoked st) (st_tickets st) (st_steps st) (f (st_counts st)) (st_mails st) (st_now st).
Definition on_mails f st := mkState (st_users st) (st_revoked st) (st_redis_revoked st) (st_tickets st) (st_steps st) (st_counts st) (f (st_mails st)) (st_now st).
Definition at_time t st := mkState (st_users st) (st_revoked st) (st_redis_revoked st) (st_tickets st) (st_steps st) (st_counts st) (st_mails st) t.

(** ** Calls *)

Section world.
Context (L : lib) (d : deps) (digest : string -> string).

Definition digest_of (token : string) : option string := if (token =? "")%string then None else Some (digest token).

(** The statement behind a call. *)
Definition stmt_of (c : op) : option (string * stmt) :=
  match c with
  | DeleteUser id => Some (id, WDelete)
  | CancelUserDeletion id => Some (id, WActive)
  | UpdateUserPassword id h => Some (id, WPassword h)
  | SetUserMinecraftUsername id mc => Some (id, WMinecraft mc)
  | RenameUser id name => Some (id, WName name)
  | SetUserEmail id email => Some (id, WEmail email)
  | SetEmailVerificationToken id token => Some (id, WVerify (digest_of token))
  | MarkEmailVerified id => Some (id, WMark)
  | SetPendingEmail id email token => Some (id, WPending email (digest_of token))
  | ConfirmPendingEmail id => Some (id, WConfirm)
  | SetUserTOTP id secret codes enabled => Some (id, WTOTP secret codes enabled)
  | ConsumeTOTPBackupCode id read remaining => Some (id, WConsume read remaining)
  | SetUserTOTPBackupCodes id codes => Some (id, WCodes codes)
  | DisableUserTOTP id => Some (id, WDisable)
  | BumpSessionEpoch id => Some (id, WBump)
  | SetPasswordResetToken id token expiresAt before => Some (id, WLink (digest token) expiresAt before)
  | ResetPasswordWithToken id token h => Some (id, WReset (digest token) h)
  | SetUserSecurityQuestions id qs => Some (id, WQuestions qs)
  | _ => None
  end.

Definition when_applied (o : outcome) (st st' : state) : state := if applied o then st' else st.
Definition answered_with {A} (o : outcome) (a : A) : option A := if replied o then Some a else None.
Definition hit (rep : report) : bool := match rep with Hit b => b | _ => false end.

(** The first row that [p] picks, in the order the database lists them. *)
Definition pick (o : outcome) (ord : list row -> list row) (p : row -> bool) (st : state) : lookup :=
  if replied o then match List.find p (ord (map snd (map_to_list (st_users st)))) with Some r => Found (r_user r) | None => NoRows end
  else ReadErr "connection refused".
Definition name_is (name : string) (r : row) : bool := EqualFold (Username (r_user r)) name.

(** A key of Redis that is still there. *)
Definition alive {A} (now : Z) (x : option (A * Z)) : option A :=
  match x with Some (a, t) => if now <? t then Some a else None | None => None end.

Definition week : Z := hours (7 * 24).

(** One statement on the row of an account, and what its caller is told. *)
Definition run_stmt {A} (o : outcome) (st : state) (id : string) (w : stmt) (say : report -> A) : A * state :=
  let x := exec_stmt (st_now st) w (st_users st !! id) in
  (say x.2, when_applied o st (on_users (partial_alter (fun _ => x.1) id) st)).

Definition exec (o : outcome) (ord : list row -> list row) (orc : forall c, ans c) (c : op) (st : state) : ans c * state :=
  let now := st_now st in
  let told {A} id w (say : report -> A) := run_stmt o st id w say in
  let plain id w := run_stmt o st id w (fun _ => replied o) in
  let redis {A} (f : state -> state) (a : A) : A * state := (a, when_applied o st (f st)) in
  match c return ans c * state with
  | Now => (now, st)
  | GetUserByUsername name =>
      (match pick o ord (fun r => (Username (r_user r) =? name)%string) st with NoRows => pick o ord (name_is name) st | a => a end, st)
  | GetUserByID id => (if replied o then match st_users st !! id with Some r => Found (r_user r) | None => NoRows end else ReadErr "connection refused", st)
  | GetUserByEmail email => (pick o ord (fun r => EqualFold (Email (r_user r)) email) st, st)
  | GetUserByEmailVerificationToken token =>
      (pick o ord (fun r => bool_decide (r_verify r = Some (digest token)) &&
         match EmailVerificationSentAt (r_user r) with Some t => now - week <? t | None => false end) st, st)
  | GetUserByPasswordResetToken token => (pick o ord (fun r => bool_decide (r_reset r = Some (digest token)) && link_alive now r) st, st)
  | UsernameTaken name exclude =>
      (replied o && existsb (fun r => name_is name r && negb (ID (r_user r) =? exclude)%string) (map snd (map_to_list (st_users st))), st)
  | CreateUser u =>
      (* the index on LOWER(username), and an id the database makes up *)
      match orc (CreateUser u) with
      | Some id =>
          if existsb (name_is (Username u)) (map snd (map_to_list (st_users st))) || bool_decide (is_Some (st_users st !! id)) then (None, st)
          else (answered_with o id, when_applied o st (on_users (partial_alter (fun _ => (exec_stmt now (WInsert id u) None).1) id) st))
      | None => (None, st)
      end
  | DeleteUser id => plain id WDelete
  | CancelUserDeletion id => plain id WActive
  | UpdateUserPassword id h => plain id (WPassword h)
  | SetUserMinecraftUsername id mc => plain id (WMinecraft mc)
  | RenameUser id name =>
      if existsb (fun r => name_is name r && negb (ID (r_user r) =? id)%string) (map snd (map_to_list (st_users st)))
      then (if replied o && bool_decide (is_Some (st_users st !! id)) then NameTaken else RenameErr, st)
      else told id (WName name) (fun rep => if replied o && hit rep then Renamed else RenameErr)
  | SetUserEmail id email => plain id (WEmail email)
  | SetEmailVerificationToken id token => plain id (WVerify (digest_of token))
  | MarkEmailVerified id => plain id WMark
  | SetPendingEmail id email token => plain id (WPending email (digest_of token))
  | ConfirmPendingEmail id => told id WConfirm (fun rep => answered_with o (match rep with Confirmed c => c | _ => None end))
  | SetUserTOTP id secret codes enabled => plain id (WTOTP secret codes enabled)
  | ConsumeTOTPBackupCode id read remaining => told id (WConsume read remaining) (fun rep => answered_with o (hit rep))
  | SetUserTOTPBackupCodes id codes => told id (WCodes codes) (fun rep => replied o && hit rep)
  | DisableUserTOTP id => plain id WDisable
  | BumpSessionEpoch id => told id WBump (fun rep => if replied o then match rep with Epoch e => e | _ => None end else None)
  | SetPasswordResetToken id token expiresAt before => told id (WLink (digest token) expiresAt before) (fun rep => answered_with o (hit rep))
  | ResetPasswordWithToken id token h => told id (WReset (digest token) h) (fun rep => answered_with o (hit rep))
  | GetUserSecurityQuestionsRaw id => (match st_users st !! id with Some r => answered_with o (r_questions r) | None => None end, st)
  | SetUserSecurityQuestions id qs => plain id (WQuestions qs)
  | RevokeSession id until => redis (on_revoked (fun m => filter (fun x => now <= x.2) (partial_alter (fun x => Some (Z.max until (default until x))) id m))) (replied o)
  | IsSessionRevoked id => (answered_with o (match st_revoked st !! id with Some t => now <? t | None => false end), st)
  | ExistsRevoked id => (answered_with o (match st_redis_revoked st !! id with Some t => now <? t | None => false end), st)
  | SetRevoked id ttl => redis (on_redis (insert id (now + ttl))) (replied o)
  | TicketGet t => (if replied o then alive now (st_tickets st !! t) else None, st)
  | TicketSet t v ttl => redis (on_tickets (insert t (v, now + ttl))) (replied o)
  | TicketDel t => redis (on_tickets (delete t)) tt
  | TicketExpire t ttl => redis (on_tickets (alter (fun x => (x.1, now + ttl)) t)) tt
  | ClaimStep id step ttl =>
      let free := match st_steps st !! (id, step) with Some t => t <=? now | None => true end in
      (answered_with o free, if free then when_applied o st (on_steps (insert (id, step) (now + ttl)) st) else st)
  | CountIncr id =>
      let n := match alive now (match st_counts st !! id with Some (n, Some t) => Some (n, t) | Some (n, None) => Some (n, now + 1) | None => None end) with
               | Some n => n + 1 | None => 1 end in
      let t := match st_counts st !! id with Some (_, Some t) => if now <? t then Some t else None | _ => None end in
      (answered_with o n, when_applied o st (on_counts (insert id (n, t)) st))
  | CountTTL id => (answered_with o (match st_counts st !! id with Some (_, Some t) => if now <? t then t - now else -2 | Some (_, None) => -1 | None => -2 end), st)
  | CountExpire id ttl => redis (on_counts (alter (fun x => (x.1, Some (now + ttl))) id)) tt
  | CountDel id => redis (on_counts (delete id)) tt
  | SendMail to m => redis (on_mails (cons (to, m))) (replied o)
  | GoMail to m => redis (on_mails (cons (to, m))) tt
  | c => (orc c, st)
  end.

(** ** What is made once

    A bcrypt hash and a mailed token are made by the program that needs them,
    and never twice. [makes] is what a call made, by hash or digest; [takes] is
    what a call puts into a row. *)
Notation res := (string + string)%type.

Definition makes (c : op) : ans c -> list res :=
  match c with
  | Hash _ => fun a => match a with Some h => [inl h] | None => [] end
  | RandToken _ => fun a => match a with Some t => [inr (digest t)] | None => [] end
  | _ => fun _ => []
  end.

Definition puts (w : stmt) : list res :=
  match w with
  | WPassword h | WReset _ h | WAnonymize h => [inl h]
  | WLink dg _ _ => [inr dg]
  | WTOTP _ codes _ | WCodes codes => inl <$> codes
  | WInsert _ u => [inl (Password u)]
  | _ => []
  end.

Definition takes (c : op) : list res :=
  match c with
  | CreateUser u => [inl (Password u)]
  | c => match stmt_of c with Some (_, w) => puts w | None => [] end
  end.

(** A code is taken off a list, and the rest stays. *)
Definition one_less (read remaining : list string) : Prop := exists l1 x l2, read = l1 ++ x :: l2 /\ remaining = l1 ++ l2.

(** Codes are taken off a list one at a time. *)
Definition shape (c : op) : Prop :=
  match c with
  | ConsumeTOTPBackupCode _ read remaining => one_less read remaining
  | _ => True
  end.

(** *** Programs use up what they made *)

Definition hold (s : list res) (c : op) (a : ans c) : list res := makes c a ++ list_difference s (takes c).
Definition may_take (s : list res) (c : op) : Prop := takes c ⊆+ s /\ shape c.
Notation linear s p Q := (monitored hold may_take s p Q).

Lemma list_difference_nil {A} `{EqDecision A} (l : list A) : list_difference l [] = l.
Proof. induction l as [|x l IH]; cbn; [done|]. destruct (decide_rel _ _ _) as [H|H]; [by apply elem_of_nil in H|by rewrite IH]. Qed.

Definition takes_nothing (c : op) : Prop := takes c = [] /\ shape c.

Lemma takes_nothing_linear {A} s (p : program A) : only takes_nothing p -> linear s p (fun s' _ => s ⊆+ s').
Proof.
  revert s. induction p as [a|c k IH]; intros s H; [cbn; reflexivity|]. destruct H as [[H1 H2] H3]. split; [split; [rewrite H1; apply submseteq_nil_l|done]|].
  intros a. eapply monitored_mono; [|apply IH, H3]. cbn. intros s' _ Hs. unfold hold in Hs. rewrite H1, list_difference_nil in Hs.
  etrans; [|exact Hs]. by apply submseteq_inserts_l.
Qed.

Lemma linear_nothing {A} s (p : program A) : only takes_nothing p -> linear s p (fun _ _ => True).
Proof. intros H. eapply monitored_mono; [done|by apply takes_nothing_linear]. Qed.

Lemma linear_part {A B} s (p : program A) (k : A -> program B) Q :
  only takes_nothing p -> (forall s' a, s ⊆+ s' -> linear s' (k a) Q) -> linear s (p ≫= k) Q.
Proof. intros Hp Hk. eapply monitored_part; [by apply takes_nothing_linear|]. intros s' a Hs. by apply Hk. Qed.

(** Which parts take nothing. *)
Local Notation takeless := (only takes_nothing).
Create HintDb takeless.
Ltac takeless_tac :=
  repeat first
    [ exact I
    | solve [auto 1 with takeless nocore]
    | match goal with |- forall _, _ => intros ? end
    | apply only_bind; [|intros ?]
    | split; [by split|]
    | match goal with |- only _ (match ?x with _ => _ end) => destruct x end
    | match goal with |- only _ (if ?x then _ else _) => destruct x end ].

Lemma policy_takeless : takeless LoadAuthPolicy.
Proof. unfold LoadAuthPolicy, flag, number. takeless_tac. Qed.
#[local] Hint Resolve policy_takeless : takeless.
Lemma revoked_takeless id : takeless (sessionRevoked d id).
Proof. unfold sessionRevoked. takeless_tac. Qed.
#[local] Hint Resolve revoked_takeless : takeless.
Lemma login_time_takeless c : takeless (loginTime c).
Proof. unfold loginTime. takeless_tac. Qed.
#[local] Hint Resolve login_time_takeless : takeless.
Lemma middleware_takeless r : takeless (AuthMiddleware L d r).
Proof.
  unfold AuthMiddleware, by_credentials, by_token, by_row, by_ticket, slideSession, IsAccountChecked, when. takeless_tac.
Qed.
#[local] Hint Resolve middleware_takeless : takeless.
Lemma issue_takeless name admin key : takeless (IssueToken L name admin key).
Proof. unfold IssueToken, newSessionClaims. takeless_tac. Qed.
#[local] Hint Resolve issue_takeless : takeless.
Lemma reissue_takeless u : takeless (reissueOwnSession L u).
Proof. unfold reissueOwnSession. takeless_tac. Qed.
#[local] Hint Resolve reissue_takeless : takeless.
Lemma ended_takeless u : takeless (endSessionsAfter u).
Proof. unfold endSessionsAfter, endAllSessions. takeless_tac. Qed.
#[local] Hint Resolve ended_takeless : takeless.

Lemma without_code_one hashed code remaining : without_code L hashed code = Some remaining -> one_less hashed remaining.
Proof.
  revert remaining. induction hashed as [|h hs IH]; intros remaining; [done|]. cbn [without_code]. destruct (bcrypt L h code).
  - intros [= <-]. by exists [], h, hs.
  - destruct (without_code L hs code) as [r|]; [|done]. intros [= <-]. destruct (IH r eq_refl) as (l1 & x & l2 & -> & ->). by exists (h :: l1), x, l2.
Qed.

Lemma one_less_sublist read remaining : one_less read remaining -> remaining `sublist_of` read.
Proof. intros (l1 & x & l2 & -> & ->). apply sublist_app; [done|]. by apply sublist_cons. Qed.

Lemma backup_takeless u code : takeless (backup_code L u code).
Proof.
  unfold backup_code. destruct (TOTPBackupCodes u) as [hashed|]; [|done]. destruct (without_code L hashed code) as [remaining|] eqn:Er; [|done].
  apply without_code_one in Er. takeless_tac.
Qed.
#[local] Hint Resolve backup_takeless : takeless.
Lemma verify_takeless u code claim : takeless (verifyTOTPOrBackupWith L d u code claim).
Proof.
  unfold verifyTOTPOrBackupWith, reserveCodeAttempt, check_code, claimTOTPStep, clearCodeAttempts, when. takeless_tac.
Qed.
#[local] Hint Resolve verify_takeless : takeless.
Lemma reauth_takeless id password code : takeless (RequireReauth L d id password code).
Proof. unfold RequireReauth. takeless_tac. Qed.
#[local] Hint Resolve reauth_takeless : takeless.
Lemma revoke_keys_takeless id : takeless (revoke_keys id).
Proof. unfold revoke_keys. takeless_tac. Qed.
#[local] Hint Resolve revoke_keys_takeless : takeless.
Lemma items_takeless pool seen_ items : takeless (hash_items pool seen_ items).
Proof. revert seen_. induction items as [|[q a] items IH]; intros seen_; [done|]. cbn [hash_items]. takeless_tac. Qed.
#[local] Hint Resolve items_takeless : takeless.
Lemma changed_takeless id email : takeless (sendChangedEmailVerification id email).
Proof. unfold sendChangedEmailVerification. takeless_tac. Qed.
#[local] Hint Resolve changed_takeless : takeless.

(** *** Where something is put into a row *)

Lemma linear_hash {A} s pw (k : option string -> program A) Q :
  (forall s', linear s' (k None) Q) -> (forall h, linear (inl h :: s) (k (Some h)) Q) -> linear s (call (Hash pw) ≫= k) Q.
Proof.
  intros Hn Hs. split; [split; [apply submseteq_nil_l|done]|]. intros [h|]; [|apply Hn]. unfold hold. cbn. rewrite list_difference_nil. apply Hs.
Qed.

Lemma linear_token {A} s n (k : option string -> program A) Q :
  (forall s', linear s' (k None) Q) -> (forall t, linear (inr (digest t) :: s) (k (Some t)) Q) -> linear s (call (RandToken n) ≫= k) Q.
Proof.
  intros Hn Hs. split; [split; [apply submseteq_nil_l|done]|]. intros [t|]; [|apply Hn]. unfold hold. cbn. rewrite list_difference_nil. apply Hs.
Qed.

Lemma linear_take {A} s c (k : ans c -> program A) Q :
  takes c ⊆+ s -> shape c -> (forall s' a, linear s' (k a) Q) -> linear s (call c ≫= k) Q.
Proof. intros H1 H2 Hk. split; [done|]. intros a. apply Hk. Qed.

Lemma take_one x s : [x] ⊆+ (x :: s : list res).
Proof. apply submseteq_skip, submseteq_nil_l. Qed.

Notation done_with := (fun _ _ => True).

Lemma codes_linear n s :
  linear s (newBackupCodes n) (fun s' r => forall ps hs, r = Some (ps, hs) -> (inl <$> hs) ++ s ⊆+ s').
Proof.
  revert s. induction n as [|n IH]; intros s; [by intros ps hs [= <- <-]|]. cbn [newBackupCodes].
  apply linear_token; [by intros s' ps hs|]. intros t. apply linear_hash; [by intros s' ps hs|]. intros h.
  eapply monitored_part; [apply IH|]. intros s' [[ps hs]|] Hs; [|by intros ps hs]. intros ps' hs' [= <- <-]. specialize (Hs ps hs eq_refl).
  etrans; [|exact Hs]. cbn. rewrite <- Permutation_middle. apply submseteq_skip, submseteq_app; [done|]. by apply submseteq_cons.
Qed.

Lemma enrol_linear s i u secret : linear s (enrol L i u secret) done_with.
Proof.
  unfold enrol. eapply monitored_part; [apply codes_linear|]. intros s' [[ps hs]|] Hs; [|done]. specialize (Hs ps hs eq_refl).
  apply linear_take; [cbn|done|]. { etrans; [|exact Hs]. apply submseteq_inserts_r. done. }
  intros s'' b. apply linear_nothing. takeless_tac.
Qed.

Lemma regenerate_linear s u :
  linear s (codes ← newBackupCodes backupCodeCount;
    match codes with
    | None => Ret (refuse 500)
    | Some (plain, hashed) =>
        stored ← call (SetUserTOTPBackupCodes (ID u) hashed);
        if negb stored then Ret (refuse 500) else
        _ ← call (Audit "2fa_backup_codes_regenerated" (ID u) (ID u)); Ret (mkReply 200 [Codes plain])
    end) done_with.
Proof.
  eapply monitored_part; [apply codes_linear|]. intros s' [[ps hs]|] Hs; [|done]. specialize (Hs ps hs eq_refl).
  apply linear_take; [cbn|done|]. { etrans; [|exact Hs]. apply submseteq_inserts_r. done. }
  intros s'' b. apply linear_nothing. takeless_tac.
Qed.

Lemma caller_linear s i missing k : (forall s u, linear s (k u) done_with) -> linear s (with_caller d i missing k) done_with.
Proof.
  intros Hk. unfold with_caller. destruct (negb _); [done|]. apply linear_part; [takeless_tac|]. intros s' [u| |] _; [apply Hk|done|done].
Qed.
Lemma both_linear s i password code k : (forall s u, linear s (k u) done_with) -> linear s (with_both_factors L d i password code k) done_with.
Proof.
  intros Hk. apply caller_linear. clear s. intros s u. destruct (negb _); [done|]. destruct (negb _); [done|].
  apply linear_part; [apply verify_takeless|]. intros s' [] _; cbn [code_reply]; [apply Hk|done..].
Qed.
Lemma target_linear s i id password code pre k :
  (forall u, takeless (pre u)) -> (forall s u, linear s (k u) done_with) -> linear s (with_target L d i id password code pre k) done_with.
Proof.
  intros Hp Hk. unfold with_target. apply linear_part; [takeless_tac|]. intros s1 [u| |] _; [|done|done].
  apply linear_part; [takeless_tac|]. intros s2 [|] _; [cbn [negb]|done]. apply linear_part; [apply Hp|]. intros s3 [e|] _; [done|].
  apply linear_part; [unfold RequireAdminReauth; takeless_tac|]. intros s4 [z|] _; [done|apply Hk].
Qed.
Lemma authed_linear s r next : (forall s i, linear s (next i) done_with) -> linear s (authed L d r next) done_with.
Proof.
  intros Hn. unfold authed. apply linear_part; [apply middleware_takeless|]. intros s' [i slid|z b] _; [|done].
  eapply monitored_part; [apply Hn|done].
Qed.

Lemma forgot_linear s email : linear s (ForgotPassword email) done_with.
Proof.
  unfold ForgotPassword. cbn zeta. destruct (negb _); [done|]. apply linear_part; [takeless_tac|]. intros s1 [u| |] _; [|done|done].
  apply linear_part; [apply policy_takeless|]. intros s2 p _. apply linear_token; [done|]. intros t.
  apply linear_part; [takeless_tac|]. intros s3 now Hs. apply linear_take; [cbn; etrans; [apply take_one|exact Hs]|done|].
  intros s4 b. apply linear_nothing. takeless_tac.
Qed.

Lemma reset_linear s token password answers : linear s (ResetPassword L token password answers) done_with.
Proof.
  unfold ResetPassword. destruct (_ <? 16)%nat; [done|]. apply linear_part; [apply policy_takeless|]. intros s1 p _. destruct (_ <? _); [done|].
  apply linear_part; [takeless_tac|]. intros s2 [u| |] _; [|done|done]. apply linear_part; [unfold answers_asked; takeless_tac|].
  intros s3 [|] _; [cbn [negb]|done]. apply linear_hash; [done|]. intros h. apply linear_take; [apply take_one|done|].
  intros s4 b. apply linear_nothing. takeless_tac.
Qed.

Lemma register_linear s req : linear s (Register L req) done_with.
Proof.
  unfold Register. apply linear_part; [apply policy_takeless|]. intros s1 p _. destruct (negb _); [done|]. cbn zeta. destruct (_ || _); [done|].
  apply linear_part; [takeless_tac|]. intros s2 [|] _; [done|]. apply linear_part; [takeless_tac|]. intros s3 [u| |] _; [done| |done].
  apply linear_hash; [done|]. intros h. apply linear_take; [apply take_one|done|]. intros s4 [id|]; [|done].
  apply linear_nothing. unfold signup_questions, signup_verification, LoadSecurityQuestionPool, buildHashedQAJSON. takeless_tac.
Qed.

Lemma save_linear s u req address username : linear s (save_profile L u req address username) done_with.
Proof.
  unfold save_profile, write_if, notifyAddressChanged, NotifyPasswordChanged, when. destruct (wanted_password req) as [p|].
  - apply monitored_bind, linear_hash; [done|]. intros h. cbn [monitored]. apply monitored_bind, linear_take; [apply take_one|done|].
    intros s' b. cbn [monitored]. apply linear_nothing. takeless_tac.
  - cbn [mbind prog_mbind prog_bind]. apply linear_nothing. takeless_tac.
Qed.

Lemma profile_linear s i req : linear s (UpdateProfileHandler L d i req) done_with.
Proof.
  unfold UpdateProfileHandler. destruct (negb _); [done|]. apply linear_part; [takeless_tac|]. intros s1 [u| |] _; [|done|done].
  destruct (negb _); [done|]. unfold or_reply at 1. apply linear_part; [unfold new_address, address_taken; takeless_tac|]. intros s2 [address|a] _; [|done].
  unfold or_reply at 1. apply linear_part; [unfold new_name; takeless_tac|]. intros s3 [name|a] _; [|done].
  apply linear_part; [unfold fields_fit, too_short; takeless_tac|]. intros s4 [|] _; [cbn [negb]|done].
  apply linear_part; [unfold profile_code; takeless_tac|]. intros s5 [a|] _; [done|].
  unfold or_reply at 1. apply linear_part; [unfold keep_pending; takeless_tac|]. intros s6 [address'|a] _; [|done].
  unfold or_reply at 1. apply linear_part; [unfold rename; takeless_tac|]. intros s7 [username|a] _; [|done]. apply save_linear.
Qed.

Lemma handle_linear e : linear [] (handle L d e) done_with.
Proof.
  destruct e; cbn [handle].
  - apply linear_nothing. unfold LoginHandler, setup_token, sign_in, when. takeless_tac.
  - apply linear_nothing. unfold DemoLogin, demo_account. takeless_tac.
  - apply linear_nothing. unfold Logout, revokeSession. takeless_tac.
  - apply authed_linear. intros s i. apply linear_nothing. unfold LogoutEverywhere, endAllSessions. takeless_tac.
  - apply authed_linear. intros s i. apply linear_nothing. unfold SessionToken_, copyOfSession, newSessionClaims. takeless_tac.
  - apply authed_linear. intros s i. apply linear_nothing. unfold MintSSETicket, or_reply. takeless_tac.
  - apply authed_linear. intros s i. apply caller_linear. clear s. intros s u. cbn zeta. destruct (_ || _); [done|]. destruct (Is2FAEnabled u); [done|].
    destruct (_ && _); [done|]. apply linear_part; [takeless_tac|]. intros s' now _. destruct (MatchTOTPStep L _ _ _); [apply enrol_linear|done].
  - apply authed_linear. intros s i. apply both_linear. clear s. intros s u. apply regenerate_linear.
  - apply authed_linear. intros s i. apply both_linear. clear s. intros s u. apply linear_nothing. takeless_tac.
  - apply authed_linear. intros s i. unfold AdminResetTOTPHandler. destruct (negb _); [done|]. apply target_linear; [done|]. clear s. intros s u.
    apply linear_nothing. takeless_tac.
  - apply authed_linear. intros s i. unfold ResetUserPassword. destruct (_ =? "")%string; [done|].
    apply target_linear; [intros u; unfold too_short; takeless_tac|]. clear s. intros s u. apply linear_hash; [done|]. intros h.
    apply linear_take; [apply take_one|done|]. intros s' b. apply linear_nothing. unfold NotifyPasswordChanged, when. takeless_tac.
  - apply authed_linear. intros s i. unfold SetEmail. destruct (negb _); [done|]. cbn zeta. destruct (negb _); [done|].
    apply target_linear; [intros u; unfold address_taken; takeless_tac|]. clear s. intros s u. apply linear_nothing.
    unfold notifyAddressChanged, when. takeless_tac.
  - apply forgot_linear.
  - apply reset_linear.
  - apply linear_nothing. unfold VerifyEmail, address_taken, notifyAddressChanged, when. takeless_tac.
  - apply linear_nothing. unfold ResendVerification. takeless_tac.
  - apply register_linear.
  - apply authed_linear. intros s i. apply linear_nothing. unfold SetMyQuestions, LoadSecurityQuestionPool, buildHashedQAJSON. takeless_tac.
  - apply authed_linear. intros s i. apply profile_linear.
  - apply authed_linear. intros s i. apply linear_nothing. unfold UpdateMinecraftUsernameHandler. takeless_tac.
  - apply authed_linear. done.
Qed.

(** ** What a row holds *)

Definition parts (pw : string) (codes : list string) (link : option string) : list res :=
  inl pw :: (inl <$> codes) ++ match link with Some dg => [inr dg] | None => [] end.
Definition codes_of (u : User) : list string := default [] (TOTPBackupCodes u).
Definition row_res (r : row) : list res := parts (Password (r_user r)) (codes_of (r_user r)) (r_reset r).
Definition ores (r : option row) : list res := match r with Some r => row_res r | None => [] end.

(** What a statement used up. *)
Definition spent (now : Z) (w : stmt) (r : option row) : list res :=
  match w, r with
  | WConsume read remaining, Some r =>
      if Is2FAEnabled (r_user r) && bool_decide (TOTPBackupCodes (r_user r) = Some read) then inl <$> List.filter (fun x => bool_decide (x ∉ remaining)) read else []
  | WReset dg _, Some r => if bool_decide (r_reset r = Some dg) && link_alive now r then [inr dg] else []
  | _, _ => []
  end.

Definition stmt_shape (w : stmt) : Prop :=
  match w with WConsume read remaining => one_less read remaining | _ => True end.

Lemma elem_of_parts x pw codes link :
  x ∈ parts pw codes link <-> match x with inl h => h = pw \/ h ∈ codes | inr dg => link = Some dg end.
Proof.
  unfold parts. rewrite elem_of_cons, elem_of_app, list_elem_of_fmap. destruct x as [h|dg].
  - destruct link; set_solver.
  - destruct link as [l|]; [|set_solver]. rewrite list_elem_of_singleton. naive_solver.
Qed.

Lemma NoDup_parts pw codes link : NoDup (parts pw codes link) <-> pw ∉ codes /\ NoDup codes.
Proof.
  change (NoDup (inl pw :: (inl <$> codes) ++ match link with Some dg => [inr dg] | None => [] end : list res) <-> pw ∉ codes /\ NoDup codes).
  rewrite NoDup_cons, NoDup_app, (NoDup_fmap inl). split.
  - intros (H1 & H2 & _). split; [|done]. intros H. apply H1, elem_of_app. left. apply list_elem_of_fmap. by eauto.
  - intros [H1 H2]. split_and!; [|done| |destruct link; [apply NoDup_singleton|apply NoDup_nil_2]].
    + intros [(y & [= ->] & H)%list_elem_of_fmap|H]%elem_of_app; [done|]. destruct link; [by apply list_elem_of_singleton in H|by apply not_elem_of_nil in H].
    + intros x (y & -> & _)%list_elem_of_fmap H. destruct link; [by apply list_elem_of_singleton in H|by apply not_elem_of_nil in H].
Qed.

Lemma filter_out_In (read remaining : list string) x :
  x ∈ List.filter (fun x => bool_decide (x ∉ remaining)) read <-> x ∈ read /\ x ∉ remaining.
Proof. rewrite !list_elem_of_In, filter_In, <- !list_elem_of_In, bool_decide_eq_true. done. Qed.

Lemma filter_out_NoDup (read : list string) f : NoDup read -> NoDup (List.filter f read).
Proof. rewrite !NoDup_ListNoDup. apply List.NoDup_filter. Qed.

Lemma NoDup_one (x : res) : NoDup [x].
Proof. apply NoDup_singleton. Qed.

(** Where the parts of a row come from: the row before, or the statement. *)
Definition comes_from (w : stmt) (r : row) (pw : string) (codes : list string) (link : option string) : Prop :=
  (pw = Password (r_user r) \/ inl pw ∈ puts w) /\
  (codes `sublist_of` codes_of (r_user r) \/ (inl <$> codes : list res) = puts w /\ pw = Password (r_user r)) /\
  (link = None \/ link = r_reset r \/ exists dg, link = Some dg /\ inr dg ∈ puts w).

Lemma stmt_comes_from now w r y :
  stmt_shape w -> (exec_stmt now w (Some r)).1 = Some y -> comes_from w r (Password (r_user y)) (codes_of (r_user y)) (r_reset y).
Proof.
  intros Hsh. destruct r as [u v rs un qs]; destruct w; cbn; intros Hy; repeat case_match; simplify_eq/=.
  all: split_and!; [first [by left|by right; left]|first [by left|by right|left; apply sublist_nil_l|idtac]|
    first [by left|by right; left|right; right; eexists; split; [done|by left]]].
  left. cbn. match goal with H : _ && _ = true |- _ => apply andb_true_iff in H as [_ H%bool_decide_eq_true]; unfold codes_of at 1; rewrite H end.
  by apply one_less_sublist.
Qed.

Lemma parts_new w r pw codes link :
  NoDup (row_res r) -> NoDup (puts w) -> (forall x, x ∈ puts w -> x ∉ row_res r) -> comes_from w r pw codes link ->
  NoDup (parts pw codes link) /\ forall x, x ∈ parts pw codes link -> x ∈ row_res r \/ x ∈ puts w.
Proof.
  intros [Hr1 Hr2]%NoDup_parts Hp Hf (Hpw & Hcodes & Hlink).
  assert (Hin : forall x, x ∈ puts w -> match x with inl h => h <> Password (r_user r) /\ h ∉ codes_of (r_user r) | inr dg => r_reset r <> Some dg end).
  { intros x Hx. specialize (Hf x Hx). unfold row_res in Hf. rewrite elem_of_parts in Hf. destruct x; naive_solver. }
  assert (Hsub : forall x, codes `sublist_of` codes_of (r_user r) -> x ∈ codes -> x ∈ codes_of (r_user r)).
  { intros x Hs Hx. eapply elem_of_submseteq; [exact Hx|by apply sublist_submseteq]. }
  split.
  - apply NoDup_parts. destruct Hcodes as [Hs|[He ->]].
    + split; [|by eapply sublist_NoDup]. intros Hx%Hsub; [|done]. destruct Hpw as [->|Hpw]; [done|]. by destruct (Hin _ Hpw).
    + rewrite <- He in Hp. apply NoDup_fmap in Hp; [|apply _]. split; [|done]. intros Hx.
      destruct (Hin (inl (Password (r_user r)))) as [Hc _]; [rewrite <- He; apply list_elem_of_fmap; by eauto|done].
  - intros x Hx. apply elem_of_parts in Hx. unfold row_res. rewrite elem_of_parts. destruct x as [h|dg].
    + destruct Hx as [->|Hx]; [destruct Hpw as [->|Hpw]; auto|]. destruct Hcodes as [Hs|[He _]]; [left; right; by apply Hsub|right].
      rewrite <- He. apply list_elem_of_fmap. by eauto.
    + subst link. destruct Hlink as [?|[?|(y & [= <-] & Hy)]]; [done|by left|by right].
Qed.

(** What a statement used up was in the row once and is there no more. *)
Lemma stmt_spent now w r :
  NoDup (row_res r) ->
  NoDup (spent now w (Some r)) /\ forall x, x ∈ spent now w (Some r) -> x ∈ row_res r /\ x ∉ ores (exec_stmt now w (Some r)).1.
Proof.
  intros [Hr1 Hr2]%NoDup_parts. destruct r as [u v rs un qs]. cbn [r_user] in Hr1, Hr2.
  destruct w; try (split; [apply NoDup_nil_2|by intros x H%not_elem_of_nil]).
  - cbn. destruct (bool_decide _ && _) eqn:E; [|split; [apply NoDup_nil_2|by intros x H%not_elem_of_nil]].
    apply andb_true_iff in E as [->%bool_decide_eq_true _]. split; [apply NoDup_one|]. intros x ->%list_elem_of_singleton.
    split; [by apply elem_of_parts|]. by intros Hx%elem_of_parts.
  - cbn. destruct (Is2FAEnabled u && _) eqn:E; [|split; [apply NoDup_nil_2|by intros x H%not_elem_of_nil]].
    assert (Ec : codes_of u = read) by (apply andb_true_iff in E as [_ E%bool_decide_eq_true]; unfold codes_of; by rewrite E).
    split; [apply (NoDup_fmap inl); rewrite <- Ec; by apply filter_out_NoDup|].
    intros x (y & -> & [Hy1 Hy2]%filter_out_In)%list_elem_of_fmap. split; [apply elem_of_parts; right; cbn [r_user]; by rewrite Ec|].
    intros [Hy|Hy]%elem_of_parts; [|done]. cbn in Hy. apply Hr1. by rewrite <- Hy, Ec.
Qed.

(** A statement leaves in the row what was there or what it puts there, and
    what it used up is gone. *)
Lemma stmt_res now w r :
  stmt_shape w -> NoDup (ores r) -> NoDup (puts w) -> (forall x, x ∈ puts w -> x ∉ ores r) ->
  let r' := (exec_stmt now w r).1 in
  NoDup (ores r') /\ (forall x, x ∈ ores r' -> x ∈ ores r \/ x ∈ puts w) /\
  NoDup (spent now w r) /\ (forall x, x ∈ spent now w r -> x ∈ ores r /\ x ∉ ores r').
Proof.
  intros Hsh Hr Hp Hf. cbn zeta. destruct r as [r|].
  - destruct (stmt_spent now w r Hr) as [S1 S2]. enough (H : NoDup (ores (exec_stmt now w (Some r)).1) /\ forall x, x ∈ ores (exec_stmt now w (Some r)).1 -> x ∈ row_res r \/ x ∈ puts w) by (by destruct H).
    destruct (exec_stmt now w (Some r)).1 as [y|] eqn:Ey; [|split; [apply NoDup_nil_2|by intros x H%not_elem_of_nil]].
    by apply parts_new, (stmt_comes_from now).
  - assert (Hs : spent now w None = []) by by destruct w. rewrite Hs.
    enough (H : NoDup (ores (exec_stmt now w None).1) /\ forall x, x ∈ ores (exec_stmt now w None).1 -> x ∈ puts w).
    { destruct H as [H1 H2]. split_and!; [done|by right; apply H2|apply NoDup_nil_2|by intros x H%not_elem_of_nil]. }
    destruct w; try (split; [apply NoDup_nil_2|by intros x H%not_elem_of_nil]).
    assert (Ho : ores (exec_stmt now (WInsert id u) None).1 = [inl (Password u)])
by done.
    rewrite Ho. split; [apply NoDup_one|done].
Qed.

(** The session key of a row, before it is written as one string. *)
Definition key_of (r : row) : string * Z := (Password (r_user r), SessionEpoch (r_user r)).

(** A statement keeps the password and does not lower the epoch, or puts a
    password there that it was given. *)
Lemma stmt_key now w r y :
  (exec_stmt now w r).1 = Some y ->
  (exists x, r = Some x /\ Password (r_user x) = Password (r_user y) /\ SessionEpoch (r_user x) <= SessionEpoch (r_user y)) \/
  inl (Password (r_user y)) ∈ puts w.
Proof.
  destruct r as [[u v rs un qs]|]; destruct w; cbn; intros Hy; repeat case_match; simplify_eq/=;
    first [by right; left|left; eexists; split_and!; [reflexivity|reflexivity|cbn; lia]].
Qed.

(** ** Good rows

    What is in a row was placed once, is in no other row, and is not among what
    was used up. *)
Record good (users : gmap string row) (placed : gset res) (used : list res) (keys : gset (string * Z)) : Prop := {
  g_once : forall id, NoDup (ores (users !! id));
  g_placed : forall id x, x ∈ ores (users !! id) -> x ∈ placed;
  g_apart : forall id id' x, x ∈ ores (users !! id) -> x ∈ ores (users !! id') -> id = id';
  g_used : NoDup used;
  g_gone : forall x, x ∈ used -> x ∈ placed /\ forall id, x ∉ ores (users !! id);
  (* every key a row has or had, by an epoch that only grows *)
  g_keys : forall id r, users !! id = Some r -> key_of r ∈ keys;
  g_older : forall p e, (p, e) ∈ keys -> inl p ∈ placed /\
    forall id r, users !! id = Some r -> Password (r_user r) = p -> e <= SessionEpoch (r_user r)
}.

Lemma password_in r : inl (Password (r_user r)) ∈ row_res r.
Proof. by left. Qed.

(** The key a statement leaves in its row is new, or was the row's. *)
Lemma stmt_key_new users placed used keys now id w y e :
  good users placed used keys -> (forall x, x ∈ puts w -> x ∉ placed) -> (exec_stmt now w (users !! id)).1 = Some y ->
  (Password (r_user y), e) ∈ keys -> e <= SessionEpoch (r_user y) /\
    forall x, users !! id = Some x -> Password (r_user x) = Password (r_user y).
Proof.
  intros HG Hfr Hy Hin. destruct (g_older _ _ _ _ HG _ _ Hin) as [Hp Hold].
  destruct (stmt_key _ _ _ _ Hy) as [(x & Hx & Epw & Hle)|Hput]; [|by apply Hfr in Hput]. split.
  - etrans; [|exact Hle]. by eapply Hold.
  - intros x' Hx'. rewrite Hx in Hx'. by injection Hx' as <-.
Qed.

(** One statement, with nothing to put that was placed before. *)
Lemma good_stmt users placed used keys now id w :
  good users placed used keys -> stmt_shape w -> NoDup (puts w) -> (forall x, x ∈ puts w -> x ∉ placed) ->
  let r' := (exec_stmt now w (users !! id)).1 in
  good (partial_alter (fun _ => r') id users) (list_to_set (puts w) ∪ placed) (spent now w (users !! id) ++ used)
    (match r' with Some y => {[key_of y]} | None => ∅ end ∪ keys).
Proof.
  intros HG Hsh Hnd Hfr. pose proof HG as [G1 G2 G3 G4 G5 G6 G7]. cbn zeta. set (r' := (exec_stmt now w (users !! id)).1).
  destruct (stmt_res now w (users !! id) Hsh (G1 id) Hnd) as (R1 & R2 & R3 & R4); [intros x H1 H2; by apply (Hfr x), (G2 id)|]. fold r' in R1, R2, R4.
  set (users' := partial_alter (fun _ => r') id users).
  assert (Heq : users' !! id = r') by apply lookup_partial_alter_eq.
  assert (Hne : forall id', id' <> id -> users' !! id' = users !! id') by (intros; by apply lookup_partial_alter_ne).
  assert (Hold : forall id' x, x ∈ ores (users' !! id') -> x ∈ ores (users !! id') \/ id' = id /\ x ∈ puts w).
  { intros id' x. destruct (decide (id' = id)) as [->|H]; [rewrite Heq|rewrite Hne by done; by left]. intros Hx. destruct (R2 x Hx); auto. }
  split.
  - intros id'. destruct (decide (id' = id)) as [->|H]; [by rewrite Heq|by rewrite Hne].
  - intros id' x Hx. destruct (Hold _ _ Hx) as [H|[_ H]]; [apply G2 in H|]; set_solver.
  - intros i j x Hi Hj. destruct (Hold _ _ Hi) as [Hi'|[-> Hi']], (Hold _ _ Hj) as [Hj'|[-> Hj']]; [by eapply G3| | |done].
    all: exfalso; eapply Hfr; [eassumption|by eapply G2].
  - apply NoDup_app. split_and!; [done| |done]. intros x Hx Hu. destruct (R4 x Hx) as [H _]. by apply (proj2 (G5 x Hu)) in H.
  - intros x [Hx|Hx]%elem_of_app.
    + destruct (R4 x Hx) as [Ha Hb]. split; [apply G2 in Ha; set_solver|]. intros id' Hin.
      destruct (decide (id' = id)) as [->|H]; [by rewrite Heq in Hin|]. rewrite Hne in Hin by done. by apply H, (G3 _ _ x).
    + destruct (G5 x Hx) as [Ha Hb]. split; [set_solver|]. intros id' Hin. destruct (Hold _ _ Hin) as [H|[_ H]]; [by apply Hb in H|by apply Hfr in H].
  - intros id' y Hy. destruct (decide (id' = id)) as [->|H]; [rewrite Heq in Hy; rewrite Hy; set_solver|]. rewrite Hne in Hy by done. apply G6 in Hy. set_solver.
  - intros q e Hin. assert (Hpl : inl q ∈ list_to_set (puts w) ∪ placed).
    { apply elem_of_union in Hin as [Hin|Hin]; [|apply G7 in Hin as [Hin _]; set_solver]. destruct r' as [y|] eqn:Ey; [|set_solver].
      apply elem_of_singleton in Hin as [= -> ->]. destruct (R2 _ (password_in y)) as [H|H]; [apply G2 in H|]; set_solver. }
    split; [exact Hpl|]. intros id' y Hy Eq. destruct (decide (id' = id)) as [->|H].
    + rewrite Heq in Hy. rewrite Hy in Hin. apply elem_of_union in Hin as [[= -> ->]%elem_of_singleton|Hin]; [done|]. subst q.
      by eapply stmt_key_new.
    + rewrite Hne in Hy by done. apply elem_of_union in Hin as [Hin|Hin]; [|by eapply G7]. destruct r' as [z|] eqn:Ez; [|set_solver].
      apply elem_of_singleton in Hin as [= Hz _]. exfalso. rewrite Hz in Eq.
      assert (Hzin : inl (Password (r_user z)) ∈ ores (users !! id')) by (rewrite Hy, <- Eq; apply password_in).
      destruct (R2 _ (password_in z)) as [Ho|Ho]; [by apply H, (G3 _ _ _ Hzin)|]. by apply (Hfr _ Ho), (G2 id').
Qed.

(** ** Many requests at once *)

Record thread := mkThread { t_entry : entry; t_hist : list (event ans); t_prog : program reply }.

(** The state, what was made so far, and the requests. *)
Record world := mkWorld { w_st : state; w_made : gset res; w_threads : list thread }.

(** What a program has made and not put anywhere yet. *)
Definition held (h : list (event ans)) : list res := foldr (fun ev s => hold s (projT1 ev) (projT2 ev)) [] h.

(** What a request used up, as it was told. *)
Definition spent_ev (ev : event ans) : list res :=
  match ev with
  | existT (ConsumeTOTPBackupCode _ read remaining) a =>
      match a with Some true => inl <$> List.filter (fun x => bool_decide (x ∉ remaining)) read | _ => [] end
  | existT (ResetPasswordWithToken _ token _) a => match a with Some true => [inr (digest token)] | _ => [] end
  | _ => []
  end.
Definition spent_by (t : thread) : list res := concat (spent_ev <$> t_hist t).

(** A bcrypt hash has no [#]. *)
Definition plain (x : res) : Prop := match x with inl h => all_chars (not_char "#") h = true | inr _ => True end.

(** A hash and a token have not been made before. *)
Definition fresh (made : gset res) (l : list res) : Prop := forall x, x ∈ l -> x ∉ made /\ plain x.

(** Redis runs without persistence: keys may be gone, the rows are not. *)
Record redis_loss (st st' : state) : Prop := {
  rl_users : st_users st' = st_users st; rl_revoked : st_revoked st' = st_revoked st;
  rl_mails : st_mails st' = st_mails st; rl_now : st_now st' = st_now st;
  rl_list : st_redis_revoked st' ⊆ st_redis_revoked st; rl_tickets : st_tickets st' ⊆ st_tickets st;
  rl_steps : st_steps st' ⊆ st_steps st; rl_counts : st_counts st' ⊆ st_counts st
}.

(** A request starts; a call of one takes effect; time passes; another part
    of Core runs a statement: an account is created, with a password of its own
    and no second factor, made anonymous, deleted or given a role; or Redis
    loses keys. *)
Inductive wstep : world -> world -> Prop :=
  | starts w e : wstep w (mkWorld (w_st w) (w_made w) (w_threads w ++ [mkThread e [] (handle L d e)]))
  | calls w i t c k o ord orc a st :
      w_threads w !! i = Some t -> t_prog t = Do c k -> (forall l, ord l ≡ₚ l) -> exec o ord orc c (w_st w) = (a, st) ->
      fresh (w_made w) (makes c a) ->
      wstep w (mkWorld st (list_to_set (makes c a) ∪ w_made w) (<[i := mkThread (t_entry t) (Ev c a :: t_hist t) (k a)]> (w_threads w)))
  | ticks w t : st_now (w_st w) <= t -> wstep w (mkWorld (at_time t (w_st w)) (w_made w) (w_threads w))
  | elsewhere w id s : stmt_shape s -> NoDup (puts s) -> fresh (w_made w) (puts s) ->
      wstep w (mkWorld (on_users (partial_alter (fun _ => (exec_stmt (st_now (w_st w)) s (st_users (w_st w) !! id)).1) id) (w_st w))
                (list_to_set (puts s) ∪ w_made w) (w_threads w))
  | forgets w st : redis_loss (w_st w) st -> wstep w (mkWorld st (w_made w) (w_threads w)).

(** The effect of a call on the rows: none, or that of one statement. *)
Lemma exec_users o ord orc c st :
  let r := exec o ord orc c st in
  (st_users r.2 = st_users st /\ spent_ev (Ev c r.1) = []) \/
  exists id w, puts w = takes c /\ (shape c -> stmt_shape w) /\
    st_users r.2 = partial_alter (fun _ => (exec_stmt (st_now st) w (st_users st !! id)).1) id (st_users st) /\
    spent_ev (Ev c r.1) ⊆+ spent (st_now st) w (st_users st !! id).
Proof.
  set (P := fun r : ans c * state => (st_users r.2 = st_users st /\ spent_ev (Ev c r.1) = []) \/ exists id w, puts w = takes c /\ (shape c -> stmt_shape w) /\
    st_users r.2 = partial_alter (fun _ => (exec_stmt (st_now st) w (st_users st !! id)).1) id (st_users st) /\
    spent_ev (Ev c r.1) ⊆+ spent (st_now st) w (st_users st !! id)).
  assert (Hno : forall (a : ans c) st', st_users st' = st_users st -> spent_ev (Ev c a) = [] -> P (a, st')) by (intros; by left).
  assert (Hst : forall id w (say : report -> ans c), puts w = takes c -> (shape c -> stmt_shape w) ->
    (forall rep, replied o = false \/ hit rep = false -> spent_ev (Ev c (say rep)) = []) ->
    (replied o = true -> spent_ev (Ev c (say (exec_stmt (st_now st) w (st_users st !! id)).2)) ⊆+ spent (st_now st) w (st_users st !! id)) ->
    P (run_stmt o st id w say)).
  { intros id w say H1 H2 H3 H4. unfold run_stmt, when_applied. destruct o; cbn [applied replied] in *.
    - right. exists id, w. by auto.
    - right. exists id, w. split_and!; [done..|]. cbn [fst]. rewrite H3 by auto. apply submseteq_nil_l.
    - apply Hno; [done|]. by apply H3; left. }
  change (P (exec o ord orc c st)). destruct c; cbn [exec]; try (apply Hno; destruct o; done).
  all: try (apply Hst; [done|done|by intros; destruct o|intros _; apply submseteq_nil_l]).
  - destruct (orc (CreateUser u)) as [id|]; [|by apply Hno]. destruct (_ || _) eqn:E; [by apply Hno|]. unfold when_applied.
    destruct (applied o); [|by apply Hno]. right. exists id, (WInsert id u). apply orb_false_iff in E as [_ E%bool_decide_eq_false].
    assert (Hn : st_users st !! id = None) by (destruct (st_users st !! id); [by destruct E; eauto|done]). rewrite Hn.
    split_and!; [done|done|done|apply submseteq_nil_l].
  - destruct (existsb _ _); [by apply Hno; destruct o|]. apply Hst; [done|done|by intros; destruct o|intros _; apply submseteq_nil_l].
  - apply Hst; [done|done| |].
    + intros rep [H|H]; unfold answered_with; rewrite H; [done|by destruct (replied o)].
    + intros Ho. unfold answered_with. rewrite Ho. cbn [spent_ev]. unfold spent, exec_stmt.
      destruct (st_users st !! id) as [r|]; [|apply submseteq_nil_l]. cbn. by destruct (_ && _).
  - apply Hst; [done|done| |].
    + intros rep [H|H]; unfold answered_with; rewrite H; [done|by destruct (replied o)].
    + intros Ho. unfold answered_with. rewrite Ho. cbn [spent_ev]. unfold spent, exec_stmt.
      destruct (st_users st !! id) as [r|]; [|apply submseteq_nil_l]. cbn. by destruct (_ && _).
  - apply Hno; [|done]. by destruct (match st_steps st !! (id, step) with Some _ => _ | None => _ end), o.
Qed.

(** *** Every request at its turn *)

Record thread_ok (made placed : gset res) (t : thread) : Prop := {
  th_run : run any (handle L d (t_entry t)) (rev (t_hist t)) (t_prog t);
  th_linear : linear (held (t_hist t)) (t_prog t) done_with;
  th_once : NoDup (held (t_hist t));
  th_fresh : forall x, x ∈ held (t_hist t) -> x ∈ made /\ x ∉ placed
}.

Record inv (w : world) (placed : gset res) (used : list res) (keys : gset (string * Z)) : Prop := {
  i_good : good (st_users (w_st w)) placed used keys;
  i_placed : placed ⊆ w_made w;
  i_plain : forall x, x ∈ w_made w -> plain x;
  i_threads : forall i t, w_threads w !! i = Some t -> thread_ok (w_made w) placed t;
  i_apart : forall i j t t' x, i <> j -> w_threads w !! i = Some t -> w_threads w !! j = Some t' -> x ∈ held (t_hist t) -> x ∉ held (t_hist t');
  i_used : concat (spent_by <$> w_threads w) ⊆+ used
}.

Lemma good_mono users placed placed' used keys : placed ⊆ placed' -> good users placed used keys -> good users placed' used keys.
Proof.
  intros Hle [G1 G2 G3 G4 G5 G6 G7]. split; try done.
  - intros id x Hx. apply G2 in Hx. set_solver.
  - intros x Hx. destruct (G5 x Hx). set_solver.
  - intros p e Hin. destruct (G7 p e Hin). set_solver.
Qed.

Lemma concat_insert {A B} (f : A -> list B) (l : list A) i t t' new :
  l !! i = Some t -> f t' = new ++ f t -> concat (f <$> <[i := t']> l) ≡ₚ new ++ concat (f <$> l).
Proof.
  revert i. induction l as [|x l IH]; intros [|i] Hi Hf; try done; cbn in *.
  - injection Hi as ->. by rewrite Hf, app_assoc.
  - rewrite (IH i Hi Hf), !app_assoc. f_equiv. apply Permutation_app_comm.
Qed.

Lemma run_snoc {A} (p : program A) h c k a : run any p h (Do c k) -> run any p (h ++ [Ev c a]) (k a).
Proof.
  intros H. remember (Do c k) as q eqn:Eq. revert k Eq. induction H as [p|c' k' a' h q Ha H IH]; intros k Eq; cbn.
  - subst p. by apply run_cons; [done|apply run_nil].
  - by apply run_cons; [done|apply IH].
Qed.

Lemma NoDup_makes c (a : ans c) : NoDup (makes c a).
Proof. destruct c; try apply NoDup_nil_2; destruct a; (apply NoDup_one || apply NoDup_nil_2). Qed.

Lemma submseteq_NoDup {A} (l k : list A) : l ⊆+ k -> NoDup k -> NoDup l.
Proof. intros [k' ->]%submseteq_Permutation. by intros [? _]%NoDup_app. Qed.

(** The thread that made a call. *)
Lemma thread_called made placed t c k a :
  thread_ok made placed t -> placed ⊆ made -> t_prog t = Do c k -> fresh made (makes c a) ->
  thread_ok (list_to_set (makes c a) ∪ made) (list_to_set (takes c) ∪ placed) (mkThread (t_entry t) (Ev c a :: t_hist t) (k a)) /\
  (forall x, x ∈ takes c -> x ∈ held (t_hist t)) /\ NoDup (takes c) /\ shape c.
Proof.
  intros [T1 T2 T3 T4] Hle Hp Hf. rewrite Hp in T1, T2. destruct T2 as [[Hsub Hsh] Hk].
  assert (Hin : forall x, x ∈ takes c -> x ∈ held (t_hist t)) by (intros x Hx; by eapply elem_of_submseteq).
  assert (Hnd : NoDup (takes c)) by (by eapply submseteq_NoDup).
  assert (Hheld : forall x, x ∈ held (Ev c a :: t_hist t) -> x ∈ makes c a \/ x ∈ held (t_hist t) /\ x ∉ takes c).
  { intros x [Hx|Hx]%elem_of_app; [by left|right]. by apply list_elem_of_difference in Hx. }
  split_and!; try done. split; cbn [t_entry t_hist t_prog].
  - cbn [rev]. by apply run_snoc.
  - apply Hk.
  - cbn. apply NoDup_app. split_and!; [apply NoDup_makes| |by apply NoDup_list_difference].
    intros x Hx [Hh _]%list_elem_of_difference. apply (Hf x Hx). by apply T4.
  - intros x Hx. destruct (Hheld x Hx) as [Hm|[Hh Ht]].
    + destruct (Hf x Hm) as [Hnm _]. split; [set_solver|]. intros [Ht%elem_of_list_to_set|Hpl]%elem_of_union; [by apply Hnm, T4, Hin|set_solver].
    + destruct (T4 x Hh). split; [set_solver|]. by intros [Ht'%elem_of_list_to_set|Hpl]%elem_of_union.
Qed.

(** What a request makes is in no other's hands. *)
Lemma held_apart (made : gset res) (ts : list thread) i t c k a :
  (forall j t' x, ts !! j = Some t' -> x ∈ held (t_hist t') -> x ∈ made) ->
  (forall j j' t t' x, j <> j' -> ts !! j = Some t -> ts !! j' = Some t' -> x ∈ held (t_hist t) -> x ∉ held (t_hist t')) ->
  ts !! i = Some t -> fresh made (makes c a) ->
  forall j j' u u' x, j <> j' -> <[i := mkThread (t_entry t) (Ev c a :: t_hist t) k]> ts !! j = Some u ->
    <[i := mkThread (t_entry t) (Ev c a :: t_hist t) k]> ts !! j' = Some u' -> x ∈ held (t_hist u) -> x ∉ held (t_hist u').
Proof.
  intros Hm Hap Hi Hf.
  assert (Hnew : forall j u x, i <> j -> ts !! j = Some u -> x ∈ held (Ev c a :: t_hist t) -> x ∉ held (t_hist u)).
  { intros j u x Hne Hj [Hx|Hx]%elem_of_app Hu; [apply (Hf x Hx); by eapply Hm|].
    apply list_elem_of_difference in Hx as [Hx _]. by apply (Hap i j t u x). }
  intros j j' u u' x Hne [(<- & <- & _)|[H1 Hj]]%list_lookup_insert_Some [(E & <- & _)|[H2 Hj']]%list_lookup_insert_Some Hx Hx'.
  - done.
  - by apply (Hnew j' u' x H2 Hj' Hx).
  - subst j'. by apply (Hnew j u x H1 Hj Hx').
  - by apply (Hap j j' u u' x).
Qed.

(** Whether a key is that of a row. *)
Definition current (users : gmap string row) (k : string * Z) : Prop := exists id r, users !! id = Some r /\ key_of r = k.

(** A key that was a row's and is no more does not come back. *)
Lemma key_gone users placed used keys now id w k :
  good users placed used keys -> (forall x, x ∈ puts w -> x ∉ placed) -> k ∈ keys -> ~ current users k ->
  ~ current (partial_alter (fun _ => (exec_stmt now w (users !! id)).1) id users) k.
Proof.
  intros HG Hfr Hk Hc (id' & y & Hy & <-). destruct (decide (id' = id)) as [->|Hne].
  - rewrite lookup_partial_alter_eq in Hy. destruct (stmt_key _ _ _ _ Hy) as [(x & Hx & Hp & Hle)|Hput].
    + apply Hc. exists id, x. split; [done|]. unfold key_of. rewrite Hp. f_equal.
      destruct (g_older _ _ _ _ HG _ _ Hk) as [_ Ho]. specialize (Ho id x Hx Hp). lia.
    + apply Hfr in Hput. by destruct (g_older _ _ _ _ HG _ _ Hk).
  - rewrite lookup_partial_alter_ne in Hy by done. apply Hc. by exists id', y.
Qed.

Definition after (w w' : world) (placed : gset res) (keys : gset (string * Z)) : Prop :=
  exists placed' used' keys', inv w' placed' used' keys' /\ keys ⊆ keys' /\
    forall k, k ∈ keys -> ~ current (st_users (w_st w)) k -> ~ current (st_users (w_st w')) k.

(** A statement of another part of Core. *)
Lemma inv_elsewhere w placed used keys id s made' st' :
  inv w placed used keys -> stmt_shape s -> NoDup (puts s) -> fresh (w_made w) (puts s) -> made' = list_to_set (puts s) ∪ w_made w ->
  st_users st' = partial_alter (fun _ => (exec_stmt (st_now (w_st w)) s (st_users (w_st w) !! id)).1) id (st_users (w_st w)) ->
  after w (mkWorld st' made' (w_threads w)) placed keys.
Proof.
  intros [I1 I2 I3 I4 I5 I6] Hsh Hnd Hf -> Hst.
  assert (Hfr : forall x, x ∈ puts s -> x ∉ placed) by (intros x Hx Hp; destruct (Hf x Hx) as [Hm _]; by apply Hm, I2).
  eexists _, _, _. split; [split; cbn [w_st w_made w_threads]|].
  - rewrite Hst. by apply good_stmt.
  - set_solver.
  - intros x [Hx%elem_of_list_to_set|Hx]%elem_of_union; [by apply Hf|by apply I3].
  - intros i t Hi. destruct (I4 i t Hi) as [T1 T2 T3 T4]. split; [done..|]. intros x Hx. destruct (T4 x Hx) as [Hm Hp]. split; [set_solver|].
    intros [Hx'%elem_of_list_to_set|Hx']%elem_of_union; [|done]. by destruct (Hf x Hx').
  - done.
  - etrans; [exact I6|]. by apply submseteq_inserts_l.
  - split; [set_solver|]. intros k Hk Hc. cbn. rewrite Hst. by eapply key_gone.
Qed.

(** A call of one of the requests. *)
Lemma inv_call w placed used keys i t c k o ord orc a st :
  inv w placed used keys -> w_threads w !! i = Some t -> t_prog t = Do c k -> (forall l, ord l ≡ₚ l) ->
  exec o ord orc c (w_st w) = (a, st) -> fresh (w_made w) (makes c a) ->
  after w (mkWorld st (list_to_set (makes c a) ∪ w_made w) (<[i := mkThread (t_entry t) (Ev c a :: t_hist t) (k a)]> (w_threads w))) placed keys.
Proof.
  intros [I1 I2 I3 I4 I5 I6] Hi Hp Ho Hex Hf.
  destruct (thread_called _ _ _ _ _ a (I4 i t Hi) I2 Hp Hf) as (Ht' & Hin & Hnd & Hsh).
  assert (Hfr : forall x, x ∈ takes c -> x ∉ placed) by (intros x Hx; by apply (th_fresh _ _ _ (I4 i t Hi)), Hin).
  assert (Hu : exists used' keys', good (st_users st) (list_to_set (takes c) ∪ placed) used' keys' /\ spent_ev (Ev c a) ++ used ⊆+ used' /\ keys ⊆ keys' /\
    forall k, k ∈ keys -> ~ current (st_users (w_st w)) k -> ~ current (st_users st) k).
  { pose proof (exec_users o ord orc c (w_st w)) as Hc. rewrite Hex in Hc. cbn [fst snd] in Hc.
    destruct Hc as [[-> ->]|(id & s & Es & Hs & -> & Hsub)].
    - exists used, keys. split_and!; [eapply good_mono; [|done]; set_solver|done..].
    - rewrite <- Es in Hnd, Hfr |- *. eexists _, _. split_and!; [by apply good_stmt; [|apply Hs|..]|by apply submseteq_skips_r|set_solver|].
      intros k' Hk' Hc'. by eapply key_gone. }
  destruct Hu as (used' & keys' & G & Hus & Hks & Hcur). exists (list_to_set (takes c) ∪ placed), used', keys'.
  split; [|done]. split; cbn [w_st w_made w_threads].
  - done.
  - intros x [Hx%elem_of_list_to_set|Hx]%elem_of_union; apply elem_of_union_r; [|by apply I2]. by apply (th_fresh _ _ _ (I4 i t Hi)), Hin.
  - intros x [Hx%elem_of_list_to_set|Hx]%elem_of_union; [by apply Hf|by apply I3].
  - intros j t' [(-> & <- & _)|[Hne Hj]]%list_lookup_insert_Some; [done|]. destruct (I4 j t' Hj) as [T1 T2 T3 T4]. split; [done..|].
    intros x Hx. destruct (T4 x Hx) as [Hm Hpl]. split; [set_solver|].
    intros [Hx'%elem_of_list_to_set|Hx']%elem_of_union; [|done]. by apply (I5 i j t t' x Hne Hi Hj (Hin x Hx')).
  - eapply held_apart; [|exact I5|exact Hi|exact Hf]. intros j t' x Hj. by apply (th_fresh _ _ _ (I4 j t' Hj)).
  - rewrite (concat_insert _ _ _ _ _ (spent_ev (Ev c a)) Hi) by done. etrans; [|exact Hus]. by apply submseteq_skips_l.
Qed.

Lemma inv_step w w' placed used keys : inv w placed used keys -> wstep w w' -> after w w' placed keys.
Proof.
  intros HI Hstep. destruct Hstep as [w e|w i t c k o ord orc a st Hi Hp Ho Hex Hf|w t Ht|w id s Hsh Hnd Hf|w st Hl].
  - destruct HI as [I1 I2 I3 I4 I5 I6]. exists placed, used, keys. split; [split; cbn [w_st w_made w_threads]; try done|done].
    + intros i t. rewrite lookup_app_Some. intros [Hi|[Hl Hi]]; [by eapply I4|]. apply list_lookup_singleton_Some in Hi as [_ <-].
      split; cbn; [apply run_nil|apply handle_linear|apply NoDup_nil_2|by intros x H%not_elem_of_nil].
    + intros i j t t' x Hne. rewrite !lookup_app_Some, !list_lookup_singleton_Some.
      intros [Hi|[Hl [Hi <-]]] [Hj|[Hl' [Hj <-]]]; [by eapply I5|intros _; apply not_elem_of_nil|by intros H%not_elem_of_nil|].
      exfalso. lia.
    + rewrite fmap_app, concat_app. cbn. by rewrite app_nil_r.
  - by eapply inv_call.
  - destruct HI as [I1 I2 I3 I4 I5 I6]. exists placed, used, keys. by split; [split|].
  - by eapply (inv_elsewhere _ _ _ _ id s).
  - destruct HI as [I1 I2 I3 I4 I5 I6], Hl as [Eu _ _ _ _ _ _ _]. exists placed, used, keys. unfold current. cbn. rewrite Eu.
    split; [split; cbn; rewrite ?Eu; done|done].
Qed.

End world.
