(* ===== verification/SessionLifetime.v ===== *)
(** * What ends, and what is used up (over SessionWorld.v)

    The guarantees of the panel's sessions and second factors over every order
    in which requests can run: what is single use is used once, a session that
    was ended does not come back, and no session outlives its login by more
    than its maximum age. *)

From Stdlib Require Import Ascii String.
From S2P Require Import Prelude GoStrings Programs Sessions SessionPolicy SessionWorld.
Open Scope string_scope.
Open Scope list_scope.
Open Scope Z_scope.

Section lifetime.
Context (L : lib) (d : deps) (digest : string -> string).
Notation wstep := (wstep L d digest).
Notation inv := (inv L d digest).
Notation exec := (exec digest).

(** ** Reachable worlds *)

(** No accounts and no requests yet; Redis and the clock as they are. *)
Definition start (st : state) : world := mkWorld (on_users (fun _ => ∅) st) ∅ [].

Definition reachable (w : world) : Prop := exists st, steps wstep (start st) w.

Lemma start_inv st : inv (start st) ∅ [] ∅.
Proof.
  split; cbn; try done.
  split; cbn; try (intros *; rewrite !lookup_empty); try done; try apply NoDup_nil_2; try by intros * H%not_elem_of_nil.
Qed.

Lemma steps_inv w w' placed used keys : inv w placed used keys -> steps wstep w w' -> exists placed' used' keys', inv w' placed' used' keys'.
Proof.
  intros Hi Hs. revert placed used keys Hi. induction Hs as [w|w w1 w2 H1 _ IH]; intros placed used keys Hi; [by eauto|].
  destruct (inv_step _ _ _ _ _ _ _ _ Hi H1) as (placed' & used' & keys' & Hi' & _). by eapply IH.
Qed.

Lemma reachable_inv w : reachable w -> exists placed used keys, inv w placed used keys.
Proof. intros [st Hs]. eapply steps_inv; [apply start_inv|exact Hs]. Qed.

Lemma reachable_steps w w' : reachable w -> steps wstep w w' -> reachable w'.
Proof. intros [st Hs] Hs'. exists st. by eapply steps_trans. Qed.

(** Time does not go back. *)
Lemma exec_now o ord orc c st : st_now (exec o ord orc c st).2 = st_now st.
Proof. destruct c, o; cbn; repeat case_match; done. Qed.

Lemma wstep_now w w' : wstep w w' -> st_now (w_st w) <= st_now (w_st w').
Proof.
  destruct 1 as [w e|w i t c k o ord orc a st Hi Hp Ho Hex Hf|w t Ht|w id s Hsh Hnd Hf|w st [_ _ _ En _ _ _ _]]; cbn; try lia; try done.
  pose proof (exec_now o ord orc c (w_st w)) as H. rewrite Hex in H. cbn in H. lia.
Qed.

Lemma steps_now w w' : steps wstep w w' -> st_now (w_st w) <= st_now (w_st w').
Proof. intros H. eapply (steps_monotone wstep (fun w => st_now (w_st w))); [apply wstep_now|exact H]. Qed.

(** *** What the answers told

    A fact [R] of every answer given while [I] holds is one of the histories of
    the requests that started then. *)
Lemma later_events (I : world -> Prop) (R : world -> event ans -> Prop) n :
  (forall w w', I w -> wstep w w' -> I w') -> (forall w w' ev, wstep w w' -> R w ev -> R w' ev) ->
  (forall w i t c k o ord orc a st made ts, I w -> w_threads w !! i = Some t -> t_prog t = Do c k -> (forall l, ord l ≡ₚ l) ->
     exec o ord orc c (w_st w) = (a, st) -> R (mkWorld st made ts) (Ev c a)) ->
  forall w1 w2, steps wstep w1 w2 -> I w1 ->
    (forall i t ev, (n <= i)%nat -> w_threads w1 !! i = Some t -> ev ∈ t_hist t -> R w1 ev) ->
    I w2 /\ forall i t ev, (n <= i)%nat -> w_threads w2 !! i = Some t -> ev ∈ t_hist t -> R w2 ev.
Proof.
  intros HI HR Hex w1 w2 Hs. induction Hs as [w|w w' w2 H1 _ IH]; intros Hi Hr; [done|].
  apply IH; [by eapply HI|]. intros i t ev Hn Ht Hev. pose proof H1 as H1'.
  destruct H1 as [w e|w j t' c k o ord orc a st Hj Hp Ho He Hf|w now Hnow|w id s Hsh Hnd Hf|w st Hl];
    try (eapply HR; [exact H1'|]; by eapply Hr); cbn [w_threads] in Ht.
  - apply lookup_app_Some in Ht as [Ht|[_ [_ <-]%list_lookup_singleton_Some]]; [eapply HR; [exact H1'|]; by eapply Hr|].
    by apply not_elem_of_nil in Hev.
  - apply list_lookup_insert_Some in Ht as [(-> & <- & _)|[_ Ht]]; [|by eapply HR; [exact H1'|]; eapply Hr].
    apply elem_of_cons in Hev as [->|Hev]; [by eapply Hex|by eapply HR; [exact H1'|]; eapply Hr].
Qed.

(** ** Single use *)

(** The code a request comes with, and whether its step is taken. *)
Definition typed_code (e : entry) : option string :=
  match e with
  | SignIn req => Some (lr_TOTPCode req)
  | SaveProfile _ req => Some (TOTPCode req)
  | RegenerateCodes _ _ code | Disable _ _ code | AdminResetTOTP _ _ _ code | AdminResetPassword _ _ _ _ code | AdminSetEmail _ _ _ _ code
  | Questions _ _ _ code => Some code
  | _ => None
  end.
Definition claiming (e : entry) : bool :=
  match e with SignIn _ | SaveProfile _ _ | RegenerateCodes _ _ _ | Disable _ _ _ => true | _ => false end.

(** The writes for which a code is asked. *)
Definition needs_code (c : op) : bool :=
  match c with
  | UpdateUserPassword _ _ | SetUserTOTPBackupCodes _ _ | DisableUserTOTP _ | SetUserEmail _ _ | SetPendingEmail _ _ _
  | SetUserSecurityQuestions _ _ => true
  | _ => false
  end.

(** A request got what it came for: a sign-in was handed a session, another has
    written what it was asked to. *)
Definition went_through (t : thread) : Prop :=
  (exists req a tok, t_entry t = SignIn req /\ t_prog t = Ret a /\ Session tok ∈ gives a) \/
  exists c a, Ev c a ∈ t_hist t /\ needs_code c = true.

(** A row as the request read it. *)
Definition row_read (h : list (event ans)) (u : User) : Prop :=
  (exists name, seen h (GetUserByUsername name) (Found u)) \/ exists id, seen h (GetUserByID id) (Found u).

(** This request used it up, and no other did. *)
Definition used_by (w : world) (i : nat) (x : string + string) : Prop := exists t, w_threads w !! i = Some t /\ x ∈ spent_by digest t.
Definition alone (w : world) (i : nat) (x : string + string) : Prop := used_by w i x /\ forall j, used_by w j x -> j = i.

(** A code of the secret by a clock the request read. *)
Definition by_clock (t : thread) (u : User) (code : string) : Prop :=
  exists now step, Ev Now now ∈ t_hist t /\ MatchTOTPStep L (TrimSpace code) (TOTPSecret u) now = Some step.

(** A finished request, by what its program guarantees. *)
Lemma finished w placed used keys i t a G Q :
  inv w placed used keys -> w_threads w !! i = Some t -> t_prog t = Ret a -> traced any G [] (handle L d (t_entry t)) Q -> Q (t_hist t) a.
Proof.
  intros Hi Ht Hp Htr. pose proof (th_run _ _ _ _ _ _ (i_threads _ _ _ _ _ _ _ Hi i t Ht)) as Hrun. rewrite Hp in Hrun.
  pose proof (traced_run _ _ _ _ _ _ _ Hrun Htr) as H. cbn in H. by rewrite rev_involutive, app_nil_r in H.
Qed.

(** What was so when a call of a request was made. *)
Lemma called w placed used keys i t c a G Q :
  inv w placed used keys -> w_threads w !! i = Some t -> Ev c a ∈ t_hist t -> traced any G [] (handle L d (t_entry t)) Q ->
  exists l h, t_hist t = l ++ h /\ G h c.
Proof.
  intros Hi Ht Hin Htr. pose proof (th_run _ _ _ _ _ _ (i_threads _ _ _ _ _ _ _ Hi i t Ht)) as Hrun.
  rewrite <- (rev_involutive (t_hist t)), <- (app_nil_r (rev (rev (t_hist t)))).
  apply list_elem_of_In, in_rev, list_elem_of_In in Hin. revert Hin Htr. generalize ([] : list (event ans)) as h0.
  induction Hrun as [p|c' k a' h q Ha Hrun IH]; intros h0 Hin Htr; [by apply not_elem_of_nil in Hin|]. destruct Htr as [Hg Hk].
  cbn [rev]. rewrite <- app_assoc. cbn [app]. apply elem_of_cons in Hin as [E|Hin].
  - exists (rev h ++ [Ev c' a']), h0. rewrite <- app_assoc. split; [done|]. by pose proof (f_equal (@projT1 _ _) E) as [= <-].
  - by apply (IH (Ev c' a' :: h0) Hin), Hk.
Qed.

Lemma operator_proven h r id password code : operator L d h r id password code -> exists u, row_read h u /\ proven L d h u password code false.
Proof. intros (i & slid & u & me & _ & _ & _ & _ & Hme & Hp). exists me. split; [right; by eexists|done]. Qed.

Lemma needs_proven e h c code :
  needs_code c = true -> typed_code e = Some code -> guarded L d e h c ->
  exists u password, row_read h u /\ proven L d h u password code (claiming e).
Proof.
  intros Hn Hc Hg.
  assert (Hcaller : forall r i u password, caller L d h r i u -> proven L d h u password code (claiming e) ->
    exists u password, row_read h u /\ proven L d h u password code (claiming e)).
  { intros r i u password [_ Hu] Hp. exists u, password. split; [left; by eexists|done]. }
  assert (Hop : forall r id password, claiming e = false -> operator L d h r id password code ->
    exists u password, row_read h u /\ proven L d h u password code (claiming e)).
  { intros r id password -> (u & Hu & Hp)%operator_proven. by exists u, password. }
  destruct c; try done; cbn in Hg.
  - destruct Hg as [(r & req & i & u & p & -> & Hca & _ & Hp & _)|(r & p & password & code' & -> & Ho & _)]; injection Hc as <-; [by eapply Hcaller|by eapply Hop].
  - destruct Hg as [(r & req & i & u & -> & Hca & _ & Hp)|(r & em & password & code' & -> & _ & Ho)]; injection Hc as <-; [by eapply Hcaller|by eapply Hop].
  - destruct Hg as (r & req & i & u & -> & Hca & _ & Hp). injection Hc as <-. by eapply Hcaller.
  - destruct Hg as (r & password & code' & i & u & -> & Hca & _ & _ & Hp). injection Hc as <-. by eapply Hcaller.
  - destruct Hg as [(r & password & code' & i & u & -> & Hca & _ & _ & Hp)|(r & password & code' & -> & Ho)]; injection Hc as <-; [by eapply Hcaller|by eapply Hop].
  - destruct Hg as [(r & items' & password & code' & me & -> & Hme & Hp)|(req & u & -> & _)]; [|done]. injection Hc as <-.
    exists me, password. split; [right; by eexists|done].
Qed.

(** Whoever went through has shown the second factor of the row it read. *)
Lemma went_proven w placed used keys i t code :
  inv w placed used keys -> w_threads w !! i = Some t -> typed_code (t_entry t) = Some code -> went_through t ->
  exists u password, row_read (t_hist t) u /\ proven L d (t_hist t) u password code (claiming (t_entry t)).
Proof.
  intros Hi Ht Hc [(req & a & tok & He & Hp & Hs)|(c & a & Hev & Hn)].
  - rewrite He in Hc |- *. injection Hc as <-. pose proof (finished _ _ _ _ _ _ _ _ _ Hi Ht Hp (handle_traced L d (t_entry t)) tok Hs) as H.
    rewrite He in H. destruct H as [(r & i' & Hb & _)|(u & Hu & Hpr & _)]; [done|].
    exists u, (lr_Password req). split; [left; by eexists|done].
  - destruct (called _ _ _ _ _ _ _ _ _ _ Hi Ht Hev (handle_traced L d (t_entry t))) as (l & h & -> & Hg).
    destruct (needs_proven _ _ _ _ Hn Hc Hg) as (u & password & Hu & Hpr). exists u, password. split; [|by apply proven_app].
    destruct Hu as [[n Hu]|[id Hu]]; [left; exists n|right; exists id]; by apply seen_later.
Qed.

(** *** What is taken off a list *)

Lemma without_spent codes code remaining :
  NoDup codes -> without_code L codes code = Some remaining ->
  exists x, x ∈ codes /\ bcrypt L x code = true /\ List.filter (fun x => bool_decide (x ∉ remaining)) codes = [x].
Proof.
  intros Hnd Hw. assert (exists l1 x l2, codes = l1 ++ x :: l2 /\ remaining = l1 ++ l2 /\ bcrypt L x code = true) as (l1 & x & l2 & -> & -> & Hb).
  { clear Hnd. revert remaining Hw. induction codes as [|h codes IH]; intros remaining; [done|]. cbn. destruct (bcrypt L h code) eqn:Eb.
    - intros [= <-]. by exists [], h, codes.
    - destruct (without_code L codes code) as [r|]; [|done]. intros [= <-]. destruct (IH r eq_refl) as (l1 & x & l2 & -> & -> & Hb).
      by exists (h :: l1), x, l2. }
  exists x. split; [apply elem_of_app; right; by left|]. split; [done|]. apply NoDup_app in Hnd as (H1 & H2 & [H3 H4]%NoDup_cons).
  assert (Hnone : forall l, (forall y, y ∈ l -> y ∈ l1 ++ l2) -> List.filter (fun x => bool_decide (x ∉ l1 ++ l2)) l = []).
  { induction l as [|y l IH]; intros Hl; [done|]. cbn [List.filter]. rewrite bool_decide_eq_false_2; [apply IH; intros z Hz; by apply Hl; right|].
    intros Hy. apply Hy, Hl. by left. }
  rewrite List.filter_app. cbn [List.filter]. rewrite bool_decide_eq_true_2.
  - rewrite !Hnone; [done|intros y Hy; apply elem_of_app; by right|intros y Hy; apply elem_of_app; by left].
  - intros [Hx|Hx]%elem_of_app; [|done]. apply (H2 x Hx). by left.
Qed.

(** A list from which a code was taken had no code twice. *)
Definition distinct_codes (ev : event ans) : Prop :=
  match ev with existT (ConsumeTOTPBackupCode _ read _) a => a = Some true -> NoDup read | _ => True end.

Lemma consumed_distinct w placed used keys o ord orc c a st :
  inv w placed used keys -> exec o ord orc c (w_st w) = (a, st) -> distinct_codes (Ev c a).
Proof.
  intros Hi Hex. destruct c; try done. intros ->. cbn in Hex. unfold run_stmt, answered_with, hit in Hex. destruct (replied o); [|discriminate].
  destruct (st_users (w_st w) !! id) as [r|] eqn:Er; [|discriminate]. cbn in Hex. destruct (Is2FAEnabled _ && _) eqn:E; [|discriminate].
  apply andb_true_iff in E as [_ E%bool_decide_eq_true]. pose proof (g_once _ _ _ _ (i_good _ _ _ _ _ _ _ Hi) id) as Hnd.
  rewrite Er in Hnd. apply NoDup_parts in Hnd as [_ Hnd]. unfold codes_of in Hnd. by rewrite E in Hnd.
Qed.

Lemma all_distinct w i t ev : reachable w -> w_threads w !! i = Some t -> ev ∈ t_hist t -> distinct_codes ev.
Proof.
  intros [st Hs] Ht Hev.
  destruct (later_events (fun w => exists placed used keys, inv w placed used keys) (fun _ => distinct_codes) 0) with (w1 := start st) (w2 := w) as [_ H];
    [|done| |done|eexists _, _, _; apply start_inv|by intros|by eapply (H i t ev (Nat.le_0_l _))].
  - intros w1 w2 (p1 & u1 & k1 & H1) H2. destruct (inv_step _ _ _ _ _ _ _ _ H1 H2) as (p2 & u2 & k2 & H3 & _). by eauto.
  - intros w' i' t' c k o ord orc a st' m' ts' (p1 & u1 & k1 & H1) _ _ _ H4. by eapply consumed_distinct.
Qed.

Lemma spends_alone w i t ev x :
  reachable w -> w_threads w !! i = Some t -> ev ∈ t_hist t -> x ∈ spent_ev digest ev -> alone w i x.
Proof.
  intros Hr Ht Hev Hx. destruct (reachable_inv w Hr) as (placed & used & keys & Hi).
  assert (Hnd : NoDup (concat (spent_by digest <$> w_threads w)))
    by (eapply submseteq_NoDup; [exact (i_used _ _ _ _ _ _ _ Hi)|exact (g_used _ _ _ _ (i_good _ _ _ _ _ _ _ Hi))]).
  assert (Hu : x ∈ spent_by digest t).
  { unfold spent_by. apply list_elem_of_In, in_concat. exists (spent_ev digest ev). rewrite <- !list_elem_of_In. split; [by apply list_elem_of_fmap_2|done]. }
  split; [by exists t|]. intros j (t' & Ht' & Hx'). clear Hr Hi Hev Hx. revert i j Ht Ht' Hnd.
  induction (w_threads w) as [|t0 ts IH]; intros i j Ht Ht' Hnd; [done|]. cbn in Hnd. apply NoDup_app in Hnd as (_ & Hd & Hnd).
  assert (Hin : forall n t1, ts !! n = Some t1 -> x ∈ spent_by digest t1 -> x ∈ concat (spent_by digest <$> ts)).
  { intros n t1 Hn H1. apply list_elem_of_In, in_concat. exists (spent_by digest t1). rewrite <- !list_elem_of_In.
    split; [apply list_elem_of_fmap_2; by eapply list_elem_of_lookup_2|done]. }
  destruct i as [|i], j as [|j]; cbn in Ht, Ht'; [done| | |f_equal; by eapply IH].
  - injection Ht as ->. by destruct (Hd x Hu (Hin j t' Ht' Hx')).
  - injection Ht' as ->. by destruct (Hd x Hx' (Hin i t Ht Hu)).
Qed.

Lemma anywhere {A} (p : program A) h : traced any (fun _ _ => True) h p (fun _ _ => True).
Proof. revert h. induction p as [a|c k IH]; intros h; [done|]. split; [done|]. intros a _. apply IH. Qed.

(** A reset that is answered with success used the link. *)
Lemma reset_used token password answers :
  traced any (fun _ _ => True) [] (ResetPassword L token password answers)
    (fun h a => status a = 200 -> exists id hashed, Ev (ResetPasswordWithToken id token hashed) (Some true) ∈ h).
Proof.
  unfold ResetPassword. destruct (_ <? 16)%nat; [done|]. eapply traced_part; [apply anywhere|]. intros l p _. destruct (_ <? _); [done|].
  apply traced_do; [done|]. intros [u| |]; [|done..]. eapply traced_part; [apply anywhere|]. intros l1 [|] _; [cbn [negb]|done].
  apply traced_do; [done|]. intros [hashed|]; [|done]. apply traced_do; [done|]. intros [[|]|]; [|done..].
  eapply traced_part; [apply anywhere|]. intros l2 x _. apply traced_do; [done|]. intros y _. exists (ID u), hashed.
  right. apply elem_of_app. right. by left.
Qed.

(** C11: What is single use is used once, over the whole life of the platform,
    whatever the accounts, the requests, their order and the calls of theirs
    that fail. A request that typed a code and got what it came for, a session
    at a sign-in or a write for which a code is asked, had read a row without a
    second factor, or showed a code of the row's secret by the clock, or took a
    backup code that fits what was typed off the list of that row, and no other
    request ever took that one. A reset that is answered with success used up its
    link, and no other request ever used the same link: two requests with one
    link do not both set a password. Nothing is used up twice by one request
    either. *)
Theorem single_use (w : world) :
  reachable w ->
  (forall i t code, w_threads w !! i = Some t -> typed_code (t_entry t) = Some code -> went_through t ->
     exists u, row_read (t_hist t) u /\ (Is2FAEnabled u = true -> by_clock t u code \/
       exists codes x, TOTPBackupCodes u = Some codes /\ x ∈ codes /\ bcrypt L x (TrimSpace code) = true /\ alone w i (inl x))) /\
  (forall i t token password answers a, w_threads w !! i = Some t -> t_entry t = ResetByLink token password answers ->
     t_prog t = Ret a -> status a = 200 -> alone w i (inr (digest token))) /\
  NoDup (concat (spent_by digest <$> w_threads w)).
Proof.
  intros Hr. destruct (reachable_inv w Hr) as (placed & used & keys & Hi). split_and!.
  - intros i t code Ht Hc Hw. destruct (went_proven _ _ _ _ _ _ _ Hi Ht Hc Hw) as (u & password & Hu & _ & H2). exists u. split; [done|].
    intros E. destruct (H2 E) as [_ [(now & step & Hn & Hm & _)|(codes & remaining & Ec & Ew & Hs)]]; [left; by exists now, step|right].
    destruct (without_spent codes (TrimSpace code) remaining) as (x & Hx & Hb & Hf); [exact (all_distinct _ _ _ _ Hr Ht Hs eq_refl)|done|].
    exists codes, x. split_and!; try done. eapply (spends_alone w i t); [done..|exact Hs|]. cbn. rewrite Hf. by left.
  - intros i t token password answers a Ht He Hp Ha. pose proof (reset_used token password answers) as Htr.
    change (ResetPassword L token password answers) with (handle L d (ResetByLink token password answers)) in Htr. rewrite <- He in Htr.
    destruct (finished _ _ _ _ _ _ _ _ _ Hi Ht Hp Htr Ha) as (id & hashed & Hev).
    eapply (spends_alone w i t); [done..|exact Hev|]. by left.
  - eapply submseteq_NoDup; [exact (i_used _ _ _ _ _ _ _ Hi)|exact (g_used _ _ _ _ (i_good _ _ _ _ _ _ _ Hi))].
Qed.

(** ** Sessions that were ended *)

Lemma visit_traced r : traced any (fun _ _ => True) [] (handle L d (Visit r)) (fun h a => refusal (status a) = true \/ exists i slid, admitted L d h r i slid).
Proof.
  cbn [handle]. unfold authed. eapply traced_part; [by apply AuthMiddleware_traced|]. intros l [i slid|s cleared] Hv.
  - right. by exists i, slid.
  - by left.
Qed.

(** The key of an account as one string tells the password and the epoch. *)
Lemma sessionKey_inj u v :
  all_chars (not_char "#") (Password u) = true -> all_chars (not_char "#") (Password v) = true -> sessionKey u = sessionKey v ->
  Password u = Password v /\ SessionEpoch u = SessionEpoch v.
Proof.
  intros Hu Hv E. unfold sessionKey in E. pose proof (f_equal (Cut "#") E) as E'.
  destruct (Z.eqb_spec (SessionEpoch u) 0), (Z.eqb_spec (SessionEpoch v) 0); [split; [done|lia]|..]; clear E; rename E' into E.
  - rewrite Cut_None in E by done. change ("#" +:+ ?s) with (String "#" s) in E. by rewrite Cut_app in E by done.
  - rewrite (Cut_None _ (Password v)) in E by done. change ("#" +:+ ?s) with (String "#" s) in E. by rewrite Cut_app in E by done.
  - change ("#" +:+ ?s) with (String "#" s) in E. rewrite !Cut_app in E by done. injection E as E1 E2. split; [done|by apply Itoa_inj].
Qed.

Definition ukey (u : User) : string * Z := (Password u, SessionEpoch u).

(** The rows that are read are those that are there. *)
Lemma pick_row o ord p st u : (forall l, ord l ≡ₚ l) -> pick o ord p st = Found u -> exists id r, st_users st !! id = Some r /\ r_user r = u.
Proof.
  intros Ho. unfold pick. destruct (replied o); [|done]. destruct (List.find p _) as [r|] eqn:E; [|done]. intros [= <-].
  apply find_some in E as [E _]. apply list_elem_of_In in E. rewrite (Ho _) in E.
  apply list_elem_of_In, in_map_iff in E as ([id r'] & [= <-] & E%list_elem_of_In%elem_of_map_to_list). by exists id, r'.
Qed.

Lemma read_row o ord orc name st u st' : (forall l, ord l ≡ₚ l) -> exec o ord orc (GetUserByUsername name) st = (Found u, st') ->
  exists id r, st_users st !! id = Some r /\ r_user r = u.
Proof.
  intros Ho [= H _]. destruct (pick o ord (fun r => (Username (r_user r) =? name)%string) st) as [v| |m] eqn:E; [|by eapply pick_row|done].
  injection H as <-. by eapply pick_row.
Qed.

(** A row that was read while a key was no row's has another. *)
Definition other_key (k : string * Z) (ev : event ans) : Prop :=
  match ev with
  | existT (GetUserByUsername _) a => forall u, a = Found u -> ukey u <> k /\ plain (inl (Password u))
  | _ => True
  end.

Definition gone (k : string * Z) (w : world) : Prop :=
  ~ current (st_users (w_st w)) k /\ exists placed used keys, inv w placed used keys /\ k ∈ keys.

Lemma gone_step k w w' : gone k w -> wstep w w' -> gone k w'.
Proof.
  intros [Hc (p & u & ks & Hi & Hk)] Hs. destruct (inv_step _ _ _ _ _ _ _ _ Hi Hs) as (p' & u' & ks' & Hi' & Hsub & Hgone).
  split; [by apply Hgone|]. exists p', u', ks'. split; [done|set_solver].
Qed.

Lemma row_plain w placed used keys id r : inv w placed used keys -> st_users (w_st w) !! id = Some r -> plain (inl (Password (r_user r))).
Proof.
  intros [I1 I2 I3 _ _ _] Hr. apply I3, I2, (g_placed _ _ _ _ I1 id). rewrite Hr. apply password_in.
Qed.

Lemma gone_reads k w o ord orc c a st : gone k w -> (forall l, ord l ≡ₚ l) -> exec o ord orc c (w_st w) = (a, st) -> other_key k (Ev c a).
Proof.
  intros [Hc (p & us & ks & Hi & Hk)] Ho Hex. destruct c; try done. intros u ->. apply read_row in Hex as (id & r & Hr & <-); [|done].
  split; [|by eapply row_plain]. intros <-. apply Hc. by exists id, r.
Qed.

Lemma key_kept w0 w1 id old : reachable w0 -> steps wstep w0 w1 -> st_users (w_st w0) !! id = Some old ->
  exists placed used keys, inv w1 placed used keys /\ key_of old ∈ keys.
Proof.
  intros Hr Hs Hold. destruct (reachable_inv _ Hr) as (p & u & ks & Hi). pose proof (g_keys _ _ _ _ (i_good _ _ _ _ _ _ _ Hi) _ _ Hold) as Hk.
  clear Hr Hold. revert p u ks Hi Hk. induction Hs as [w|w w' w2 H1 _ IH]; intros p u ks Hi Hk; [by eauto|].
  destruct (inv_step _ _ _ _ _ _ _ _ Hi H1) as (p' & u' & ks' & Hi' & Hsub & _). eapply IH; [exact Hi'|set_solver].
Qed.

(** C10: A session that was ended stays ended. Take a token bound to an account
    as its row was once, and a later time at which the row has another password
    or epoch, or is gone: a change or reset of the password, a sign-out
    everywhere or a change of the second factor has gone through. Whatever
    happens after that, in whatever order, a request that starts then and comes
    with the token is refused, unless the fingerprint of the key of a row read for it is
    that of the old key although the keys differ, a collision of the hash. *)
Theorem ended_sessions_stay_ended (w0 w1 w2 : world) id old i t r a :
  reachable w0 -> steps wstep w0 w1 -> steps wstep w1 w2 ->
  st_users (w_st w0) !! id = Some old -> ~ current (st_users (w_st w1)) (key_of old) ->
  has_store d = true -> (List.length (w_threads w1) <= i)%nat -> w_threads w2 !! i = Some t -> t_entry t = Visit r -> t_prog t = Ret a ->
  QueryTicket r = "" ->
  (forall tok cookie c, presented L d r tok cookie -> signed L tok = Some c -> cl_PwdFp c = passwordFingerprint L (sessionKey (r_user old))) ->
  refusal (status a) = true \/
  exists name u, Ev (GetUserByUsername name) (Found u) ∈ t_hist t /\ sessionKey u <> sessionKey (r_user old) /\
    passwordFingerprint L (sessionKey u) = passwordFingerprint L (sessionKey (r_user old)).
Proof.
  intros Hr H01 H12 Hold Hcur Hst Hlen Ht He Hp Hq Htok.
  destruct (key_kept _ _ _ _ Hr H01 Hold) as (p1 & u1 & k1 & Hi1 & Hk1).
  destruct (later_events (gone (key_of old)) (fun _ => other_key (key_of old)) (List.length (w_threads w1))) with (w1 := w1) (w2 := w2)
    as [[_ (p2 & u2 & k2 & Hi2 & Hk2)] Hev]; [apply gone_step|done|by intros; eapply gone_reads|done|by split; eauto| |].
  { intros j t' ev Hj Ht'. apply lookup_lt_Some in Ht'. lia. }
  pose proof (visit_traced r) as Hv. rewrite <- He in Hv.
  destruct (finished _ _ _ _ _ _ _ _ _ Hi2 Ht Hp Hv) as [Ha|(ident & slid & (u & Hu & _ & _ & Hby)%(fun H => H Hst))]; [by left|right].
  destruct Hby as [(tok & ck & c0 & now & Hpre & _ & Hparse & Hrest)|(_ & _ & _ & Hne & _)]; [|done]. cbn zeta in Hrest.
  destruct Hrest as (_ & _ & _ & _ & _ & _ & Hfp & _).
  assert (Hc : cl_PwdFp (withSessionID L c0 tok) = passwordFingerprint L (sessionKey (r_user old))).
  { unfold ParseWithClaims in Hparse. destruct (signed L tok) as [c|] eqn:Es; [|done]. destruct (_ && _); [|done]. injection Hparse as <-.
    rewrite <- (Htok tok ck c Hpre Es). unfold withSessionID. by destruct (_ =? "")%string. }
  exists (i_username ident), u. split_and!; [done| |congruence].
  destruct (Hev i t _ Hlen Ht Hu u eq_refl) as [Hne Hpl]. intros E. apply Hne.
  assert (Hplo : plain (inl (Password (r_user old)))).
  { destruct Hi1 as [I1 I2 I3 _ _ _]. apply I3, I2, (g_older _ _ _ _ I1 _ _ Hk1). }
  destruct (sessionKey_inj u (r_user old) Hpl Hplo E) as [E1 E2]. unfold ukey, key_of. congruence.
Qed.

(** ** Sessions that were signed out *)

Definition listed (sid : string) (until : Z) (w : world) : Prop :=
  st_now (w_st w) < until -> exists t, st_revoked (w_st w) !! sid = Some t /\ until <= t.

Lemma listed_exec sid until o ord orc c st made ts made' ts' :
  listed sid until (mkWorld st made ts) -> listed sid until (mkWorld (exec o ord orc c st).2 made' ts').
Proof.
  unfold listed. cbn [w_st]. rewrite exec_now. intros H Hn. destruct (H Hn) as (t & Ht & Hle).
  assert (Hsame : forall st', st_revoked st' = st_revoked st -> exists t, st_revoked st' !! sid = Some t /\ until <= t)
    by (intros st' E; exists t; by rewrite E).
  destruct c; try (apply Hsame; cbn; unfold run_stmt, when_applied; repeat case_match; done).
  cbn. unfold when_applied. destruct (applied o); [|by apply Hsame]. cbn. destruct (decide (id = sid)) as [->|Hne].
  - exists (Z.max until0 t). split; [|lia]. apply map_lookup_filter_Some. rewrite lookup_partial_alter_eq, Ht. split; [done|]. cbn. lia.
  - exists t. split; [|done]. apply map_lookup_filter_Some. rewrite lookup_partial_alter_ne by done. split; [done|]. cbn. lia.
Qed.

Lemma listed_step sid until w w' : wstep w w' -> listed sid until w -> listed sid until w'.
Proof.
  intros Hs Hl. destruct Hs as [w e|[st m ts] i t c k o ord orc a st' Hi Hp Ho Hex Hf|w t Ht|w id s Hsh Hnd Hf|w st [_ Er _ En _ _ _ _]]; try done.
  3: { unfold listed. cbn. by rewrite Er, En. }
  - pose proof (listed_exec sid until o ord orc c st m ts) as H. cbn [w_st] in Hex. rewrite Hex in H. by apply H.
  - unfold listed. cbn. intros Hn. apply Hl. lia.
Qed.

(** Whoever was told that a session is on the list told the truth, and whoever
    was told that it is not asked after its end. *)
Definition puts_on_list (sid : string) (until : Z) (w : world) (ev : event ans) : Prop :=
  match ev with existT (RevokeSession id t) a => id = sid -> t = until -> a = true -> listed sid until w | _ => True end.
Definition asks_list (sid : string) (until : Z) (w : world) (ev : event ans) : Prop :=
  match ev with existT (IsSessionRevoked id) a => id = sid -> a = Some false -> until <= st_now (w_st w) | _ => True end.

Lemma revoked_listed sid until o ord orc c a st st' made ts :
  exec o ord orc c st = (a, st') -> puts_on_list sid until (mkWorld st' made ts) (Ev c a).
Proof.
  destruct c; try done. intros Hex -> -> ->. cbn in Hex. unfold when_applied in Hex. injection Hex as Ho Hst. destruct o; try done.
  cbn in Hst. subst st'. unfold listed. cbn. intros Hn.
  eexists. split; [apply map_lookup_filter_Some; rewrite lookup_partial_alter_eq; split; [done|cbn; lia]|lia].
Qed.

Lemma listed_asked sid until o ord orc c a st st' made ts made' ts' :
  listed sid until (mkWorld st made ts) -> exec o ord orc c st = (a, st') -> asks_list sid until (mkWorld st' made' ts') (Ev c a).
Proof.
  intros Hl. destruct c; try done. intros Hex -> ->. cbn in Hex. injection Hex as Ho <-. unfold answered_with in Ho. destruct (replied o); [|done].
  injection Ho as Ho. cbn. apply Z.nlt_ge. intros Hn. destruct (Hl Hn) as (t & Ht & Hle). cbn in Ht. rewrite Ht in Ho.
  apply Z.ltb_ge in Ho. cbn in Hn. lia.
Qed.

Lemma parsed_signed tok now c : ParseWithClaims L tok now = Some c -> signed L tok = Some c.
Proof. unfold ParseWithClaims. destruct (signed L tok); [|done]. by destruct (_ && _). Qed.

Lemma login_date_with c tok : login_date (withSessionID L c tok) = login_date c.
Proof. unfold withSessionID. by destruct (_ =? "")%string. Qed.

(** Who put a session on the list. *)
Lemma sign_out_entry w placed used keys i t sid until :
  inv w placed used keys -> w_threads w !! i = Some t -> Ev (RevokeSession sid until) true ∈ t_hist t ->
  exists r c loginAt, t_entry t = SignOut r /\ signed L (sessionTokenFromCookie r) = Some c /\ cl_Purpose c = "" /\
    sid = cl_ID (withSessionID L c (sessionTokenFromCookie r)) /\ logged_in (t_hist t) c loginAt /\ until = loginAt + sessionMaxAge.
Proof.
  intros Hi Ht Hev. destruct (called _ _ _ _ _ _ _ _ _ _ Hi Ht Hev (handle_traced L d (t_entry t))) as (l & h & -> & Hg).
  destruct Hg as (r & c & loginAt & He & (now & c0 & _ & _ & Hpar & Hpu & ->) & Hid & Hl & ->). exists r, c0, loginAt.
  split_and!; [done|by eapply parsed_signed|done|done| |done]. apply logged_in_app. unfold logged_in in *. by rewrite login_date_with in Hl.
Qed.

(** C12: A session that was signed out stays signed out. Take a request that put a
    session on the sign-out list and was told so: it was a sign-out, the session
    is that of a token in its cookie that this Core signed, and the entry lasts
    until ninety days after the login that token states, or after the time of
    the sign-out where it states none. Whatever happens after that, a request
    that starts then and comes with a token of the session is refused before that
    time, also with one that was given out when the session slid or was copied,
    unless the database did not answer whether it is on the list. *)
Theorem signed_out_stays_out (w1 w2 : world) j t1 sid until i t2 r a :
  reachable w1 -> steps wstep w1 w2 ->
  w_threads w1 !! j = Some t1 -> Ev (RevokeSession sid until) true ∈ t_hist t1 ->
  has_store d = true -> (List.length (w_threads w1) <= i)%nat -> w_threads w2 !! i = Some t2 -> t_entry t2 = Visit r -> t_prog t2 = Ret a ->
  QueryTicket r = "" -> sid <> "" ->
  (forall tok cookie c, presented L d r tok cookie -> signed L tok = Some c -> cl_ID (withSessionID L c tok) = sid) ->
  (exists r1 c1 loginAt, t_entry t1 = SignOut r1 /\ signed L (sessionTokenFromCookie r1) = Some c1 /\ cl_Purpose c1 = "" /\
     sid = cl_ID (withSessionID L c1 (sessionTokenFromCookie r1)) /\ logged_in (t_hist t1) c1 loginAt /\ until = loginAt + sessionMaxAge) /\
  (refusal (status a) = true \/ until <= st_now (w_st w2) \/ Ev (IsSessionRevoked sid) None ∈ t_hist t2).
Proof.
  intros Hr H12 Ht1 Hev1 Hst Hlen Ht2 He Hp Hq Hsid Htok. destruct (reachable_inv _ Hr) as (p1 & u1 & k1 & Hi1).
  destruct (steps_inv _ _ _ _ _ Hi1 H12) as (p2 & u2 & k2 & Hi2). split; [exact (sign_out_entry _ _ _ _ _ _ _ _ Hi1 Ht1 Hev1)|].
  assert (Hl1 : listed sid until w1).
  { destruct Hr as [st Hs]. destruct (later_events (fun _ => True) (puts_on_list sid until) 0) with (w1 := start st) (w2 := w1) as [_ H];
      [done| |by intros; eapply revoked_listed|done|done|by intros|by apply (H j t1 _ (Nat.le_0_l _) Ht1 Hev1)].
    intros w w' [c x] Hs'. destruct c; try done. cbn. intros H -> -> ->. by eapply listed_step, H. }
  destruct (later_events (listed sid until) (asks_list sid until) (List.length (w_threads w1))) with (w1 := w1) (w2 := w2) as [_ Hev];
    [by intros; eapply listed_step| |by intros [] **; eapply listed_asked|done|done| |].
  { intros w w' [c x] Hs'. destruct c; try done. cbn. intros H -> ->. etrans; [by apply H|by apply wstep_now]. }
  { intros i' t' ev Hj Ht'. apply lookup_lt_Some in Ht'. lia. }
  pose proof (visit_traced r) as Hv. rewrite <- He in Hv.
  destruct (finished _ _ _ _ _ _ _ _ _ Hi2 Ht2 Hp Hv) as [Ha|(ident & slid & (u & Hu & _ & _ & Hby)%(fun H => H Hst))]; [by left|right].
  destruct Hby as [(tok & ck & c0 & now & Hpre & _ & Hparse & Hrest)|(_ & _ & _ & Hne & _)]; [|done]. cbn zeta in Hrest.
  destruct Hrest as (_ & _ & _ & _ & Hun & _).
  unfold ParseWithClaims in Hparse. destruct (signed L tok) as [c|] eqn:Es; [|done]. destruct (_ && _); [|done]. injection Hparse as <-.
  rewrite (Htok tok ck c Hpre Es) in Hun. destruct Hun as [?|[_ Hun]]; [done|]. destruct (Hun Hst) as (b & Hb & Hseen).
  destruct b as [[|]|]; [done|left|by right]. by apply (Hev i t2 _ Hlen Ht2 Hseen).
Qed.

(** ** How long a session lasts *)

Lemma Unix_le t : Unix t * sec <= t < Unix t * sec + sec.
Proof. unfold Unix. pose proof (Z.div_mod t sec ltac:(done)). pose proof (Z.mod_pos_bound t sec ltac:(done)). lia. Qed.

Lemma sessionExpiry_le now loginAt : sessionExpiry now loginAt <= now + sessionTTL /\ sessionExpiry now loginAt <= loginAt + sessionMaxAge.
Proof. unfold sessionExpiry. cbn zeta. destruct (Z.ltb_spec (loginAt + sessionMaxAge) (now + sessionTTL)); lia. Qed.

Lemma login_date_whole c t : login_date c = Some t -> Unix t * sec = t.
Proof.
  unfold login_date. destruct (0 <? cl_LoginAt c); [intros [= <-]; unfold Unix; by rewrite Z.div_mul|].
  destruct (cl_ExpiresAt c) as [e|]; [|done]. intros [= <-]. change legacySessionTTL with (24 * 3600 * sec).
  unfold Unix. rewrite <- Z.mul_sub_distr_r. by rewrite Z.div_mul.
Qed.

(** A session ends thirty days after it was last extended at the latest, and
    ninety after its login. *)
Definition well_dated (h : list (event ans)) (c : Claims) : Prop :=
  exists now exp, seen h Now now /\ cl_ExpiresAt c = Some exp /\ exp * sec <= now + sessionTTL /\ exp * sec <= cl_LoginAt c * sec + sessionMaxAge.

(** A session of a login now, or the one that the request came with. *)
Definition new_session (h : list (event ans)) (c : Claims) : Prop :=
  exists now id, seen h Now now /\ seen h (RandHex 16) id /\ cl_LoginAt c = Unix now /\ cl_ID c = id.
Definition same_session (e : entry) (c : Claims) : Prop :=
  exists r tok cookie c0, behind e = Some r /\ presented L d r tok cookie /\ signed L tok = Some c0 /\
    cl_ID c = cl_ID (withSessionID L c0 tok) /\ login_date c0 = Some (cl_LoginAt c * sec).

Lemma issued_dates h tok name isAdmin key :
  (forall c t, SignedString L c = Some t -> signed L t = Some c) -> issued L h tok name isAdmin key ->
  exists c, signed L tok = Some c /\ well_dated h c /\ new_session h c.
Proof.
  intros Hjwt (now & id & Hn & Hid & Hs). eexists. split; [by apply Hjwt|]. split; [|by exists now, id].
  exists now, (Unix (sessionExpiry now now)). cbn. pose proof (Unix_le (sessionExpiry now now)). destruct (sessionExpiry_le now now).
  pose proof (Unix_le now). split_and!; try done; [lia|]. change sessionTTL with (30 * 24 * 3600 * sec) in *. change sessionMaxAge with (90 * 24 * 3600 * sec).
  unfold sec in *. lia.
Qed.

(** Another token of a session has its ID and its login, and the bounds. *)
Lemma kept_dates h e r tok0 cookie c0 tok now loginAt c :
  (forall c t, SignedString L c = Some t -> signed L t = Some c) ->
  behind e = Some r -> presented L d r tok0 cookie -> signed L tok0 = Some c0 -> login_date c0 = Some loginAt -> seen h Now now ->
  SignedString L c = Some tok -> cl_ID c = cl_ID (withSessionID L c0 tok0) -> cl_LoginAt c = Unix loginAt ->
  cl_ExpiresAt c = Some (Unix (sessionExpiry now loginAt)) ->
  exists c, signed L tok = Some c /\ well_dated h c /\ same_session e c.
Proof.
  intros Hjwt Hb Hp Hs0 Hl Hn Hs Hid Hla Hexp. exists c. split; [by apply Hjwt|]. pose proof (login_date_whole _ _ Hl) as Hw. split.
  - exists now, (Unix (sessionExpiry now loginAt)). pose proof (Unix_le (sessionExpiry now loginAt)). destruct (sessionExpiry_le now loginAt).
    rewrite Hla, Hw. split_and!; [done|done|lia|lia].
  - exists r, tok0, cookie, c0. by rewrite Hla, Hw.
Qed.

(** *** What an endpoint hands out, by its dates *)

Lemma slid_dates h e r i tok :
  (forall c t, SignedString L c = Some t -> signed L t = Some c) -> has_store d = true -> behind e = Some r -> admitted L d h r i (Some tok) ->
  exists c, signed L tok = Some c /\ well_dated h c /\ same_session e c.
Proof.
  intros Hjwt Hst Hb Ha. destruct (Ha Hst) as (u & _ & _ & _ & [(tok0 & ck & c0 & at_ & Hp & _ & Hpar & Hrest)|(_ & _ & _ & _ & Hno & _)]); [|done].
  cbn zeta in Hrest. destruct Hrest as (_ & _ & _ & _ & _ & _ & _ & _ & Hsl).
  destruct (Hsl tok eq_refl) as (_ & _ & now & loginAt & Hn & Hl & _ & _ & Hs). rewrite login_date_with in Hl.
  eapply (kept_dates h e r tok0 ck c0 tok now loginAt); try done. by eapply parsed_signed.
Qed.

Lemma copied_dates h e r i c tok name isAdmin key :
  (forall c t, SignedString L c = Some t -> signed L t = Some c) -> has_store d = true -> behind e = Some r -> (exists slid, admitted L d h r i slid) ->
  i_claims i = Some c -> copied L h c tok name isAdmin key -> exists c, signed L tok = Some c /\ well_dated h c /\ same_session e c.
Proof.
  intros Hjwt Hst Hb [slid Ha] Hi (now & now' & id & loginAt & Hn & Hn' & Hl & Hs).
  destruct (Ha Hst) as (u & _ & _ & _ & [(tok0 & ck & c0 & at_ & Hp & _ & Hpar & Hrest)|(_ & _ & _ & _ & _ & Hno & _)]); [|congruence].
  cbn zeta in Hrest. destruct Hrest as (Hc & _ & _ & _ & _ & [e0 He0] & _). rewrite Hc in Hi. injection Hi as <-. rewrite login_date_with in Hl.
  assert (Hl' : login_date c0 = Some loginAt).
  { destruct Hl as [Hl|[Hl _]]; [done|]. unfold login_date in Hl. destruct (0 <? _); [done|].
    unfold withSessionID in He0. destruct (cl_ID c0 =? "")%string; cbn in He0; by rewrite He0 in Hl. }
  eapply (kept_dates h e r tok0 ck c0 tok now' loginAt); try done. by eapply parsed_signed.
Qed.

Lemma earned_dates e h tok :
  (forall c t, SignedString L c = Some t -> signed L t = Some c) -> has_store d = true -> earned L d e h tok ->
  exists c, signed L tok = Some c /\ well_dated h c /\ (new_session h c \/ same_session e c).
Proof.
  intros Hjwt Hst H. assert (Hnew : forall name isAdmin key, issued L h tok name isAdmin key ->
    exists c, signed L tok = Some c /\ well_dated h c /\ (new_session h c \/ same_session e c)).
  { intros name isAdmin key Hi. destruct (issued_dates _ _ _ _ _ Hjwt Hi) as (c & ? & ? & ?). exists c. auto. }
  destruct e; try done.
  - destruct H as (u & _ & _ & _ & H). by eapply Hnew.
  - destruct H as (uuid & u & _ & _ & _ & _ & _ & H). by eapply Hnew.
  - destruct H as (i & u & epoch & _ & _ & H). by eapply Hnew.
  - destruct H as (i & u & [Hc _] & _ & H). destruct (i_claims i) as [c|] eqn:Ei; [|by eapply Hnew].
    destruct H as [H|[_ H]]; [|by eapply Hnew].
    destruct (copied_dates h (CopySession r) r i c tok _ _ _ Hjwt Hst eq_refl Hc Ei H) as (c' & ? & ? & ?). exists c'. auto.
  - destruct H as (i & u & codes & _ & _ & _ & _ & u' & _ & H). by eapply Hnew.
  - destruct H as (i & u & _ & _ & _ & u' & _ & H). by eapply Hnew.
  - destruct H as (i & u & p & hashed & name & _ & _ & _ & _ & _ & H). by eapply Hnew.
Qed.

(** C38: No session outlives its login by more than ninety days. Whatever is
    answered, with the database connected and a signer whose tokens read back
    as what was signed: every session an endpoint hands out ends at most thirty
    days after the clock was read for it and at most ninety days after the
    login it states. It is a new session, with an ID made for it and the login
    now, or it has the ID and the login of the session the request came with.
    So a session that slides or is copied for ever keeps the ID under which it
    is signed out, and ends when the entry on the sign-out list does. *)
Theorem session_lifetime (e : entry) :
  (forall c t, SignedString L c = Some t -> signed L t = Some c) -> has_store d = true ->
  traced any (fun _ _ => True) [] (handle L d e) (fun h a => forall tok, Session tok ∈ gives a ->
    exists c, signed L tok = Some c /\ well_dated h c /\ (new_session h c \/ same_session e c)).
Proof.
  intros Hjwt Hst. eapply traced_mono; [| |apply handle_traced]; [done|]. intros h a H tok Ht.
  destruct (H tok Ht) as [(r & i & Hb & Ha)|He]; [|by apply earned_dates].
  destruct (slid_dates _ _ _ _ _ Hjwt Hst Hb Ha) as (c & ? & ? & ?). exists c. auto.
Qed.

(** ** One-time codes *)

(** The window in which a code of a step is accepted. *)
Definition window_start (step : Z) : Z := (step - 1) * TOTPStepSeconds * sec.
Definition window_end (step : Z) : Z := (step + 2) * TOTPStepSeconds * sec.

Lemma match_window code secret now step : MatchTOTPStep L code secret now = Some step -> window_start step <= now < window_end step.
Proof.
  unfold MatchTOTPStep. destruct (_ =? "")%string; [done|]. intros [Hin _]%find_some. unfold window_start, window_end.
  assert (Hoff : forall off, -1 <= off <= 1 -> step = step_of (now + off * TOTPStepSeconds * sec) ->
    (step - 1) * TOTPStepSeconds * sec <= now < (step + 2) * TOTPStepSeconds * sec).
  { intros off Ho ->. unfold step_of, Unix. set (x := now + off * TOTPStepSeconds * sec). rewrite Z.div_div by done.
    pose proof (Z.div_mod x (sec * TOTPStepSeconds) ltac:(done)). pose proof (Z.mod_pos_bound x (sec * TOTPStepSeconds) ltac:(done)).
    unfold x in *. unfold sec, TOTPStepSeconds in *. lia. }
  destruct Hin as [<-|[<-|[<-|[]]]]; (eapply Hoff; [|reflexivity]; lia).
Qed.

(** A clock reading is not of the future. *)
Definition read_before (w : world) (ev : event ans) : Prop := match ev with existT Now t => t <= st_now (w_st w) | _ => True end.

Lemma readings w i t ev : reachable w -> w_threads w !! i = Some t -> ev ∈ t_hist t -> read_before w ev.
Proof.
  intros [st Hs] Ht Hev. destruct (later_events (fun _ => True) read_before 0) with (w1 := start st) (w2 := w) as [_ H];
    [done| | |done|done|by intros|by apply (H i t ev (Nat.le_0_l _) Ht Hev)].
  - intros w1 w2 [c x] Hs'. destruct c; try done. cbn. intros Hx. etrans; [exact Hx|by apply wstep_now].
  - intros w1 i' t' c k o ord orc a st' m ts _ _ _ _ Hex. destruct c; try done. cbn in Hex. injection Hex as <- <-. cbn. lia.
Qed.

(** The code was checked by the clock just read, within its window. *)
Lemma claim_window w i t id step ttl k :
  reachable w -> w_threads w !! i = Some t -> t_prog t = Do (ClaimStep id step ttl) k ->
  ttl = totpReplayTTL /\ exists now h, t_hist t = Ev Now now :: h /\ window_start step <= now < window_end step /\ now <= st_now (w_st w).
Proof.
  intros Hr Ht Hp. destruct (reachable_inv _ Hr) as (pl & us & ks & Hi).
  pose proof (th_run _ _ _ _ _ _ (i_threads _ _ _ _ _ _ _ Hi i t Ht)) as Hrun. rewrite Hp in Hrun.
  pose proof (traced_run _ _ _ _ _ _ _ Hrun (handle_traced L d (t_entry t))) as [Hg _]. rewrite rev_involutive, app_nil_r in Hg.
  destruct Hg as (-> & now & h & u & code & Hh & _ & Hm). split; [done|]. exists now, h. split_and!; [done|by eapply match_window..|].
  apply (readings w i t (Ev Now now) Hr Ht). rewrite Hh. by left.
Qed.

(** A step that was taken is not free before it runs out. *)
Definition taken (id : string) (step until : Z) (w : world) : Prop :=
  st_now (w_st w) < until -> exists t, st_steps (w_st w) !! (id, step) = Some t /\ until <= t.

(** Redis loses no spent step that has not run out. *)
Definition keeps_steps (w w' : world) : Prop :=
  forall key t, st_steps (w_st w) !! key = Some t -> st_now (w_st w') < t -> st_steps (w_st w') !! key = Some t.
Definition remembers (w w' : world) : Prop := wstep w w' /\ keeps_steps w w'.

(** Only a loss of Redis' own takes a step away. *)
Lemma exec_keeps_steps o ord orc c st key t :
  st_steps st !! key = Some t -> st_now st < t -> st_steps (exec o ord orc c st).2 !! key = Some t.
Proof.
  intros Ht Hn. destruct c; try (cbn; unfold run_stmt, when_applied; repeat case_match; done). cbn.
  destruct (decide ((id, step) = key)) as [<-|Hne].
  - rewrite Ht. by destruct (Z.leb_spec t (st_now st)); [lia|].
  - destruct (match st_steps st !! (id, step) with Some _ => _ | None => _ end); [|done]. unfold when_applied.
    destruct (applied o); [|done]. cbn. by rewrite lookup_insert_ne.
Qed.

Lemma wstep_remembers w w' :
  wstep w w' -> remembers w w' \/ redis_loss (w_st w) (w_st w') /\ w_threads w' = w_threads w.
Proof.
  intros Hs. pose proof Hs as Hs0.
  destruct Hs as [w e|[st m ts] i t c k o ord orc a st' Hi Hp Ho Hex Hf|w t Ht|w x s Hsh Hnd Hf|w st Hl]; [left..|by right]; (split; [done|]).
  - by intros key t0 H0 _.
  - intros key t0 H0 Hn. cbn in *. pose proof (exec_keeps_steps o ord orc c st key t0 H0) as H. pose proof (exec_now o ord orc c st) as En.
    rewrite Hex in H, En. cbn in H, En. apply H. lia.
  - by intros key t0 H0 _.
  - by intros key t0 H0 _.
Qed.

Lemma remembers_steps w w' : steps remembers w w' -> steps wstep w w'.
Proof. intros Hs. induction Hs as [w|w w1 w2 [H1 _] _ IH]; [apply steps_refl|by eapply steps_cons]. Qed.

Lemma taken_step id step until w w' : remembers w w' -> taken id step until w -> taken id step until w'.
Proof.
  intros [Hs Hk] Ht Hn. apply wstep_now in Hs. destruct Ht as (t & Ht & Hle); [lia|]. exists t. split; [|done]. apply Hk; [done|lia].
Qed.

(** Where an answer came from. *)
Lemma event_origin w w' i t' ev :
  wstep w w' -> w_threads w' !! i = Some t' -> ev ∈ t_hist t' ->
  (exists t, w_threads w !! i = Some t /\ ev ∈ t_hist t) \/
  exists t c k o ord orc a, ev = Ev c a /\ w_threads w !! i = Some t /\ t_prog t = Do c k /\ exec o ord orc c (w_st w) = (a, w_st w') /\
    forall j, j <> i -> w_threads w' !! j = w_threads w !! j.
Proof.
  intros Hs Ht Hev. destruct Hs as [w e|w j t c k o ord orc a st Hj Hp Ho He Hf|w now Hnow|w id s Hsh Hnd Hf|w st Hl]; cbn in *; try (left; by exists t').
  - apply lookup_app_Some in Ht as [Ht|[_ [_ <-]%list_lookup_singleton_Some]]; [left; by exists t'|by apply not_elem_of_nil in Hev].
  - apply list_lookup_insert_Some in Ht as [(-> & <- & _)|[_ Ht]]; [|left; by exists t'].
    apply elem_of_cons in Hev as [->|Hev]; [right|left; by exists t]. exists t, c, k, o, ord, orc, a. split_and!; try done.
    intros j' Hne. by apply list_lookup_insert_ne.
Qed.

Definition has_step (t : thread) (id : string) (step : Z) : Prop := Ev (ClaimStep id step totpReplayTTL) (Some true) ∈ t_hist t.

Lemma claim_free w i t id step k o ord orc w' :
  reachable w -> w_threads w !! i = Some t -> t_prog t = Do (ClaimStep id step totpReplayTTL) k ->
  exec o ord orc (ClaimStep id step totpReplayTTL) (w_st w) = (Some true, w_st w') ->
  taken id step (window_end step) w' /\ (taken id step (window_end step) w -> window_end step <= st_now (w_st w)).
Proof.
  intros Hr Ht Hp Hex. destruct (claim_window _ _ _ _ _ _ _ Hr Ht Hp) as (_ & now & h & _ & [Hn _] & Hle).
  cbn in Hex. destruct (match st_steps (w_st w) !! (id, step) with Some _ => _ | None => _ end) eqn:Efree;
    [|unfold answered_with in Hex; by destruct (replied o)].
  injection Hex as Ho Hst. destruct o; try done. cbn in Hst. split.
  - intros _. rewrite <- Hst. cbn. eexists. rewrite lookup_insert_eq. split; [done|].
    unfold window_start, window_end, totpReplayTTL, TOTPStepSeconds in *. lia.
  - intros Htk. apply Z.nlt_ge. intros Hlt. destruct (Htk Hlt) as (t0 & E & Hle0). rewrite E in Efree. apply Z.leb_le in Efree. lia.
Qed.

(** Every step that was given away is taken, and was given away once. *)
Definition steps_once (w : world) : Prop :=
  (forall i t id step, w_threads w !! i = Some t -> has_step t id step -> taken id step (window_end step) w) /\
  (forall i j t t' id step, i <> j -> w_threads w !! i = Some t -> w_threads w !! j = Some t' -> has_step t id step -> has_step t' id step ->
     window_end step <= st_now (w_st w)).

Definition claim_answer (ev : event ans) : option bool := match ev with existT (ClaimStep _ _ _) a => a | _ => None end.

Lemma steps_once_step w w' : reachable w -> remembers w w' -> steps_once w -> steps_once w'.
Proof.
  intros Hr Hs [H1 H2]. pose proof Hs as [Hw Hk]. pose proof (wstep_now _ _ Hw) as Hnow.
  assert (Hnew : forall i j t t' id step, i <> j -> w_threads w' !! i = Some t -> w_threads w' !! j = Some t' -> has_step t id step -> has_step t' id step ->
    (exists t0 k o ord orc, w_threads w !! i = Some t0 /\ t_prog t0 = Do (ClaimStep id step totpReplayTTL) k /\
       exec o ord orc (ClaimStep id step totpReplayTTL) (w_st w) = (Some true, w_st w')) -> (forall n, n <> i -> w_threads w' !! n = w_threads w !! n) ->
    window_end step <= st_now (w_st w')).
  { intros i j t t' id step Hne Hi Hj _ Hj' (t0 & k & o & ord & orc & Ht0 & Hp & Hex) Hothers. rewrite Hothers in Hj by done.
    destruct (claim_free _ _ _ _ _ _ _ _ _ _ Hr Ht0 Hp Hex) as [_ Hf]. etrans; [exact (Hf (H1 j t' id step Hj Hj'))|done]. }
  assert (Hor : forall i t id step, w_threads w' !! i = Some t -> has_step t id step ->
    (exists t0, w_threads w !! i = Some t0 /\ has_step t0 id step) \/
    ((exists t0 k o ord orc, w_threads w !! i = Some t0 /\ t_prog t0 = Do (ClaimStep id step totpReplayTTL) k /\
       exec o ord orc (ClaimStep id step totpReplayTTL) (w_st w) = (Some true, w_st w')) /\ forall n, n <> i -> w_threads w' !! n = w_threads w !! n)).
  { intros i t id step Hi He. destruct (event_origin _ _ _ _ _ Hw Hi He) as [(t0 & ? & ?)|(t0 & c & k & o & ord & orc & a & E & Ht0 & Hp & Hex & Ho)];
      [left; by exists t0|right]. pose proof (f_equal (@projT1 _ _) E) as Ec. cbn in Ec. subst c. pose proof (f_equal claim_answer E) as Ea. cbn in Ea. subst a.
    split; [by exists t0, k, o, ord, orc|done]. }
  split.
  - intros i t id step Hi He. destruct (Hor _ _ _ _ Hi He) as [(t0 & Ht0 & He0)|[(t0 & k & o & ord & orc & Ht0 & Hp & Hex) _]].
    + eapply taken_step; [done|by eapply (H1 i t0)].
    + by eapply claim_free.
  - intros i j t t' id step Hne Hi Hj Hei Hej. destruct (Hor _ _ _ _ Hi Hei) as [(t0 & Ht0 & He0)|[Hc Ho]]; [|by eapply (Hnew i j)].
    destruct (Hor _ _ _ _ Hj Hej) as [(t1 & Ht1 & He1)|[Hc Ho]]; [|by eapply (Hnew j i)]. etrans; [by eapply (H2 i j)|done].
Qed.

Lemma remembered st w : steps remembers (start st) w -> reachable w /\ steps_once w.
Proof.
  intros Hs. assert (H : forall w0 w, steps remembers w0 w -> reachable w0 /\ steps_once w0 -> reachable w /\ steps_once w).
  { clear. intros w0 w Hs. induction Hs as [w|w w1 w2 H1 _ IH]; [done|]. intros [Hr Ho]. apply IH. split; [|by eapply steps_once_step].
    eapply reachable_steps; [exact Hr|]. eapply steps_cons; [apply H1|apply steps_refl]. }
  eapply H; [exact Hs|]. split; [exists st; apply steps_refl|]. by split.
Qed.

(** C39: A one-time code is good once, where a step is taken for it: at a sign-in,
    a change of the password or the address, new backup codes and the end of
    the second factor; what operators confirm and the security questions take
    no step. With Redis connected and losing no spent step that has not run
    out, whatever the order of the requests: one of these requests that typed a
    code and got what it came for had read a row without a second factor, or
    spent a backup code, or its code is of a step by a clock it read within the
    ninety seconds of that step's window, and Redis either did not answer when the
    step was claimed or said that it was free. While the window is not over no
    other request was told that of the same step of the same account; so of two
    requests with one code that are let in before its window ends, Redis left
    one without an answer. A request that read the clock within the window and
    claims the step after its end is not held up. *)
Theorem totp_code_once (st : state) (w : world) i t code :
  steps remembers (start st) w -> has_redis d = true -> w_threads w !! i = Some t ->
  claiming (t_entry t) = true -> typed_code (t_entry t) = Some code -> went_through t ->
  exists u, row_read (t_hist t) u /\ (Is2FAEnabled u = true ->
    (exists codes remaining, TOTPBackupCodes u = Some codes /\ without_code L codes (TrimSpace code) = Some remaining /\
       Ev (ConsumeTOTPBackupCode (ID u) codes remaining) (Some true) ∈ t_hist t) \/
    exists now step, Ev Now now ∈ t_hist t /\ MatchTOTPStep L (TrimSpace code) (TOTPSecret u) now = Some step /\
      window_start step <= now < window_end step /\
      (Ev (ClaimStep (ID u) step totpReplayTTL) None ∈ t_hist t \/
       has_step t (ID u) step /\ forall j t', j <> i -> w_threads w !! j = Some t' -> has_step t' (ID u) step -> window_end step <= st_now (w_st w))).
Proof.
  intros Hs Hred Ht Hcl Hc Hw. destruct (remembered _ _ Hs) as [Hr [_ Honce]]. destruct (reachable_inv w Hr) as (placed & used & keys & Hi).
  destruct (went_proven _ _ _ _ _ _ _ Hi Ht Hc Hw) as (u & password & Hu & _ & H2). exists u. split; [done|]. intros E.
  destruct (H2 E) as [_ [(now & step & Hn & Hm & Hclaim)|(codes & remaining & Ec & Ew & Hsp)]]; [right|left; by exists codes, remaining].
  exists now, step. split_and!; [done|done|by eapply match_window..|]. destruct (Hclaim Hcl Hred) as ([[|]|] & Hne & Ha); [right|done|by left].
  split; [done|]. intros j t' Hj Ht' Hst. by eapply (Honce j i).
Qed.

End lifetime.
