(* ===== verification/SessionRuns.v ===== *)
(** * Runs of the panel's sessions (over SessionLifetime.v)

    A Core with libraries that can be run, scripts that say which request makes
    its next call and what becomes of it, and the runs in which the code does
    not do what its comments promise. *)

From Stdlib Require Import Ascii String.
From S2P Require Import Prelude GoStrings Programs Sessions SessionPolicy SessionWorld SessionLifetime.
Open Scope string_scope.
Open Scope list_scope.
Open Scope Z_scope.

(** ** Libraries that can be run *)

(** A token is its claims, field by field. *)
Definition fields (c : Claims) : list positive :=
  [encode (cl_Username c); encode (cl_IsAdmin c); encode (cl_Purpose c); encode (cl_ServerID c); encode (cl_TabID c); encode (cl_ReadOnly c);
   encode (cl_PwdFp c); encode (cl_LoginAt c); encode (cl_ID c); encode (cl_Issuer c); encode (cl_ExpiresAt c); encode (cl_IssuedAt c);
   encode (cl_NotBefore c)].
Definition of_fields (l : list positive) : option Claims :=
  match l with
  | [a; b; c; d; e; f; g; h; i; j; k; l; m] =>
      a ← decode a; b ← decode b; c ← decode c; d ← decode d; e ← decode e; f ← decode f; g ← decode g; h ← decode h; i ← decode i;
      j ← decode j; k ← decode k; l ← decode l; m ← decode m; Some (mkClaims a b c d e f g h i j k l m)
  | _ => None
  end.

Fixpoint bits (p : positive) : string :=
  match p with xH => "" | xO p => String "0" (bits p) | xI p => String "1" (bits p) end.
Fixpoint unbits (s : string) : positive :=
  match s with EmptyString => xH | String c s => if Ascii.eqb c "0" then xO (unbits s) else xI (unbits s) end.

Definition sign (c : Claims) : string := bits (encode (fields c)).
Definition verify (t : string) : option Claims := l ← decode (unbits t); of_fields l.

Lemma unbits_bits p : unbits (bits p) = p.
Proof. induction p; cbn; congruence. Qed.

Lemma verify_sign c : verify (sign c) = Some c.
Proof. unfold verify, sign. rewrite unbits_bits, decode_encode. cbn. rewrite !decode_encode. by destruct c. Qed.

(** A hash is the password and a salt; a code is the secret and its step. *)
Definition libs : lib :=
  mkLib (fun h p => HasPrefix h (p +:+ "/")) (fun s => s) (fun s => s) (fun c => Some (sign c)) verify
    (fun code secret step => (code =? secret +:+ "-" +:+ Itoa step)%string)
    (fun o => match Cut ":" o with Some (scheme, rest) => Some (mkURL scheme (drop_str 2 rest) (drop_str 2 rest)) | None => None end)
    (fun _ => None).
Definition core : deps := mkDeps true true false "https://panel.example".
Definition mark (t : string) : string := "d:" +:+ t.

(** ** Scripts *)

Inductive move :=
  | Begin (e : entry)
  | Call (i : nat) (o : outcome)
  | Calls (i n : nat)
  | At (t : Z)
  | Else (id : string) (s : stmt).

Section scripts.
Context (settings : string -> string).

(** What the world does not hold, and what is made new; a setting that cannot
    be read is empty. *)
Definition oracle (n : Z) (o : outcome) (c : op) : ans c :=
  match c with
  | Hash p => Some (p +:+ "/" +:+ Itoa n)
  | RandToken _ => Some ("token-of-call-" +:+ Itoa (n + 100))
  | RandHex _ => "session-" +:+ Itoa n
  | CreateUser _ => Some ("account-" +:+ Itoa n)
  | GetSetting key => if replied o then settings key else ""
  | GetSettingChecked key => if replied o then Some (settings key) else None
  | GetUserAccountPolicy => (true, 30)
  | StrictPanelCaps _ => Some []
  | Now => 0
  | GetUserByUsername _ | GetUserByID _ | GetUserByEmail _ | GetUserByEmailVerificationToken _ | GetUserByPasswordResetToken _ => NoRows
  | RenameUser _ _ => Renamed
  | ConfirmPendingEmail _ => None | TicketGet _ => None | GetUserSecurityQuestionsRaw _ => None
  | ConsumeTOTPBackupCode _ _ _ | SetPasswordResetToken _ _ _ _ | ResetPasswordWithToken _ _ _ | IsSessionRevoked _ | ExistsRevoked _
  | ClaimStep _ _ _ => None
  | BumpSessionEpoch _ | CountIncr _ | CountTTL _ => None
  | TicketDel _ | TicketExpire _ _ | CountExpire _ _ | CountDel _ | RevokeAllAPIKeys _ | RevokeAllSSHKeys _ | StampForUser _
  | Audit _ _ _ | Publish _ _ | GoMail _ _ => tt
  | UsernameTaken _ _ => false
  | DeleteUser _ | UpdateLastLoginAt _ | CancelUserDeletion _ | UpdateUserPassword _ _ | SetUserMinecraftUsername _ _ | SetUserEmail _ _
  | SetEmailVerificationToken _ _ | MarkEmailVerified _ | SetPendingEmail _ _ _ | SetUserTOTP _ _ _ _ | SetUserTOTPBackupCodes _ _
  | DisableUserTOTP _ | SetUserSecurityQuestions _ _ | MayManageAccount _ _ | RevokeSession _ _ | SetRevoked _ _ | TicketSet _ _ _ | SendMail _ _ => true
  end.

(** Every call so far gives what the next one makes its number. *)
Definition serial (w : world) : Z := Z.of_nat (List.length (concat (t_hist <$> w_threads w))).

Definition is_plain (x : string + string) : bool := match x with inl h => all_chars (not_char "#") h | inr _ => true end.
Definition is_fresh (made : gset (string + string)) (l : list (string + string)) : bool :=
  forallb (fun x => bool_decide (x ∉ made) && is_plain x) l.

Definition next (o : outcome) (i : nat) (w : world) : option world :=
  match w_threads w !! i with
  | Some t =>
      match t_prog t with
      | Do c k =>
          let '(a, st) := exec mark o id (oracle (serial w) o) c (w_st w) in
          if is_fresh (w_made w) (makes mark c a)
          then Some (mkWorld st (list_to_set (makes mark c a) ∪ w_made w) (<[i := mkThread (t_entry t) (Ev c a :: t_hist t) (k a)]> (w_threads w)))
          else None
      | Ret _ => None
      end
  | None => None
  end.

(** Up to [n] calls of one request, all answered. *)
Fixpoint nexts (n : nat) (i : nat) (w : world) : world :=
  match n with
  | O => w
  | S n => match next Replied i w with Some w => nexts n i w | None => w end
  end.

Definition put_row (id : string) (s : stmt) (w : world) : state :=
  on_users (partial_alter (fun _ => (exec_stmt (st_now (w_st w)) s (st_users (w_st w) !! id)).1) id) (w_st w).

(** What a statement of another part of Core looks like here. *)
Definition shaped (s : stmt) : bool :=
  match s with WConsume _ _ => false | _ => true end.

Lemma shaped_shape s : shaped s = true -> stmt_shape s.
Proof. by destruct s. Qed.

Definition move_once (m : move) (w : world) : option world :=
  match m with
  | Begin e => Some (mkWorld (w_st w) (w_made w) (w_threads w ++ [mkThread e [] (handle libs core e)]))
  | Call i o => next o i w
  | Calls i n => Some (nexts n i w)
  | At t => if st_now (w_st w) <=? t then Some (mkWorld (at_time t (w_st w)) (w_made w) (w_threads w)) else None
  | Else id s =>
      if shaped s && bool_decide (NoDup (puts s)) && is_fresh (w_made w) (puts s)
      then Some (mkWorld (put_row id s w) (list_to_set (puts s) ∪ w_made w) (w_threads w)) else None
  end.

Fixpoint play (l : list move) (w : world) : option world :=
  match l with
  | [] => Some w
  | m :: l => match move_once m w with Some w => play l w | None => None end
  end.

(** No script loses a key of Redis. *)
Notation wsteps := (steps (remembers libs core mark)).

Lemma is_fresh_spec made l : is_fresh made l = true -> fresh made l.
Proof.
  unfold is_fresh. rewrite forallb_forall. intros H x Hx%list_elem_of_In%H. apply andb_true_iff in Hx as [Hx%bool_decide_eq_true Hp].
  split; [done|]. by destruct x.
Qed.

Lemma call_steps o i w w' : next o i w = Some w' -> remembers libs core mark w w'.
Proof.
  unfold next. destruct (w_threads w !! i) as [t|] eqn:Ei; [|done]. destruct (t_prog t) as [a|c k] eqn:Ep; [done|].
  destruct (exec _ _ _ _ _ _) as [a st] eqn:Ex. destruct (is_fresh _ _) eqn:Ef; [|done]. intros [= <-].
  split; [eapply (calls _ _ _ w i t c k o id); [exact Ei|exact Ep|done|exact Ex|by apply is_fresh_spec]|].
  intros key t0 H0 Hn. cbn in *. pose proof (exec_keeps_steps mark o id (oracle (serial w) o) c (w_st w) key t0 H0) as H.
  pose proof (exec_now mark o id (oracle (serial w) o) c (w_st w)) as En. rewrite Ex in H, En. apply H. cbn in En. lia.
Qed.

Lemma calls_steps n i w : wsteps w (nexts n i w).
Proof.
  revert w. induction n as [|n IH]; intros w; [apply steps_refl|]. cbn [nexts]. destruct (next Replied i w) as [w'|] eqn:E; [|apply steps_refl].
  eapply steps_cons; [by eapply call_steps|apply IH].
Qed.

Lemma once_steps m w w' : move_once m w = Some w' -> wsteps w w'.
Proof.
  destruct m as [e|i o|i n|t|id s]; cbn [move_once].
  - intros [= <-]. eapply steps_cons; [split; [apply starts|by intros key t0 H0 _]|apply steps_refl].
  - intros H. eapply steps_cons; [by eapply call_steps|apply steps_refl].
  - intros [= <-]. apply calls_steps.
  - destruct (Z.leb_spec (st_now (w_st w)) t); [|done]. intros [= <-]. eapply steps_cons; [split; [by apply ticks|by intros key t0 H0 _]|apply steps_refl].
  - destruct (_ && _) eqn:E; [|done]. rewrite !andb_true_iff in E. destruct E as [[E1%shaped_shape E2%bool_decide_eq_true] E3%is_fresh_spec].
    intros [= <-]. eapply steps_cons; [split; [by apply elsewhere|by intros key t0 H0 _]|apply steps_refl].
Qed.

Lemma script_steps l w w' : play l w = Some w' -> wsteps w w'.
Proof.
  revert w. induction l as [|m l IH]; intros w H; [injection H as <-; apply steps_refl|]. cbn [play] in H.
  destruct (move_once m w) as [w1|] eqn:E; [|done]. eapply steps_trans; [by eapply once_steps|by apply IH].
Qed.

(** Where every script begins. *)
Definition nothing_yet : world := start (mkState ∅ ∅ ∅ ∅ ∅ ∅ [] 0).

Lemma played_reachable l w : play l nothing_yet = Some w -> reachable libs core mark w.
Proof. intros H%script_steps%remembers_steps. by eexists. Qed.
End scripts.

(** ** A panel with an administrator and a user *)

Definition person (name hash email : string) (isAdmin : bool) : User :=
  mkUser "" name hash email "" isAdmin false "" (Some []) 0 "" (Some 0) None "active" None.
Definition joined (id : string) (u : User) : move := Else id (WInsert id u).
Definition day_1 : Z := hours 24.

(** The session of a sign-in that was the [n]th call. *)
Definition session (name : string) (isAdmin : bool) (hash : string) (n : Z) : string :=
  sign (session_claims libs day_1 ("session-" +:+ Itoa n) name isAdmin hash).
Definition with_token (tok : string) : Request := mkRequest "POST" "/api/auth/profile" ("Bearer " +:+ tok) "wails://wails" "panel.example" true "" [] "" "".
Definition with_cookie (tok : string) : Request :=
  mkRequest "POST" "/api/auth/logout" "" "https://panel.example" "panel.example" true "" [("__Host-dylaris_session", tok)] "" "".

(** Enough calls for any request to end. *)
Notation all := 100%nat.

(** Both have signed in: the administrator and alice. *)
Definition signed_in : list move :=
  [At day_1; joined "admin" (person "root" "root-password/0" "root@panel.example" true);
   joined "alice" (person "alice" "alice-password/0" "alice@old.example" false);
   Begin (SignIn (mkLogin "root" "root-password" "")); Calls 0 all; Begin (SignIn (mkLogin "alice" "alice-password" "")); Calls 1 all].

Definition root_ : Request := with_token (session "root" true "root-password/0" 17).
Definition alice : Request := with_token (session "alice" false "alice-password/0" 36).

(** ** What goes wrong *)

Inductive breach :=
  | ResetUndone            (* an operator sets a password; a change that was under way replaces it *)
  | SessionOfTheNewKey     (* a session copied across a password reset is bound to the new password *)
  | UnprovenAddress        (* a confirmation confirms an address that was set after its link was found *)
  | AnswersSkipped         (* the stored answers cannot be read: the link alone sets a password *)
  | LinkToTheOldAddress    (* a reset link for the address of before goes out after the address changed *)
  | EnrolledTwice          (* a second factor replaces one that was switched on meanwhile *)
  | SharedAddress          (* two registrations with one address *)
  | CodeReplayed           (* a code signs in twice *)
  | GateOpen.              (* the policy cannot be read: an administrator gets in without the second factor *)

Definition settings_of (b : breach) (key : string) : string :=
  let on l := if bool_decide (key ∈ l) then "true" else "" in
  match b with
  | UnprovenAddress => on ["auth.email_verify_required"]
  | AnswersSkipped => on ["auth.security_questions_enabled"; "auth.security_questions_required_at_reset"]
  | SharedAddress => on ["auth.registration_enabled"]
  | GateOpen => on ["auth.require_2fa_for_admins"]
  | _ => ""
  end.

Definition change (password email : option string) : UpdateRequest := mkUpdate "alice-password" None password None email "".
Definition mailed (n : Z) : string := "token-of-call-" +:+ Itoa n.
Definition step_2880 (secret : string) : string := secret +:+ "-2880".
Definition reset_alice : entry := AdminResetPassword root_ "alice" "fresh-password" "root-password" "".

Definition script (b : breach) : list move :=
  match b with
  | ResetUndone =>
      signed_in ++ [Begin (SaveProfile alice (change (Some "mallory-password") None)); Calls 2 22; Begin reset_alice; Calls 3 all; Calls 2 all]
  | SessionOfTheNewKey => signed_in ++ [Begin (CopySession alice); Calls 2 5; Begin reset_alice; Calls 3 all; Calls 2 all]
  | UnprovenAddress =>
      signed_in ++ [Begin (SaveProfile alice (change None (Some "mallory@new.example"))); Calls 2 all; At (day_1 + minutes 2);
        Begin (Confirm (mailed 161)); Calls 3 2; Begin (SaveProfile alice (change None (Some "victim@bank.example"))); Calls 4 all; Calls 3 all]
  | AnswersSkipped =>
      signed_in ++ [Else "alice" (WQuestions [("pet", "rex/0")]); Begin (Forgot "alice@old.example"); Calls 2 all;
        Begin (ResetByLink (mailed 154) "mallory-password" []); Calls 3 16; Call 3 Failed; Calls 3 all]
  | LinkToTheOldAddress =>
      signed_in ++ [Begin (Forgot "alice@old.example"); Calls 2 1;
        Begin (AdminSetEmail root_ "alice" "alice@new.example" "root-password" ""); Calls 3 all; Calls 2 all]
  | EnrolledTwice =>
      signed_in ++ [Begin (Enrol alice "mallory-secret" (step_2880 "mallory-secret") "alice-password"); Calls 2 6;
        Begin (Enrol alice "alice-secret" (step_2880 "alice-secret") "alice-password"); Calls 3 all; Calls 2 all]
  | SharedAddress =>
      [Begin (SignUp (mkRegister "bob" "shared@mail.example" "bob-long-password" [])); Calls 0 18;
       Begin (SignUp (mkRegister "eve" "shared@mail.example" "eve-long-password" [])); Calls 1 all; Calls 0 all]
  | CodeReplayed =>
      [joined "alice" (person "alice" "alice-password/0" "" false); Else "alice" (WTOTP "alice-secret" [] true);
       At (window_start 2880); Begin (SignIn (mkLogin "alice" "alice-password" (step_2880 "alice-secret"))); Calls 0 all;
       At (window_end 2880 - 1); Begin (SignIn (mkLogin "alice" "alice-password" (step_2880 "alice-secret"))); Calls 1 20;
       At (window_end 2880); Calls 1 all]
  | GateOpen =>
      [joined "admin" (person "root" "root-password/0" "" true); Begin (SignIn (mkLogin "root" "root-password" "")); Calls 0 4; Call 0 Failed; Calls 0 all]
  end.

Definition account (w : world) (id : string) : option row := st_users (w_st w) !! id.
Definition passes (w : world) (id password : string) : bool :=
  match account w id with Some r => bcrypt libs (Password (r_user r)) password | None => false end.

(** The sessions that a request was handed. *)
Definition handed (w : world) (i : nat) : list string :=
  match w_threads w !! i with
  | Some t => match t_prog t with Ret a => omap (fun g => match g with Session tok => Some tok | _ => None end) (gives a) | Do _ _ => [] end
  | None => []
  end.
Definition answer (w : world) (i : nat) : Z :=
  match w_threads w !! i with Some t => match t_prog t with Ret a => status a | Do _ _ => 0 end | None => 0 end.

(** What is wrong at the end. *)
Definition breached (b : breach) (w : world) : bool :=
  match b with
  | ResetUndone => (answer w 3 =? 200) && passes w "alice" "mallory-password"
  | SessionOfTheNewKey =>
      passes w "alice" "fresh-password" &&
      match handed w 2, account w "alice" with
      | [tok], Some r => match signed libs tok with Some c => (cl_PwdFp c =? passwordFingerprint libs (sessionKey (r_user r)))%string | None => false end
      | _, _ => false
      end
  | UnprovenAddress =>
      match account w "alice" with
      | Some r => (Email (r_user r) =? "victim@bank.example")%string && match EmailVerifiedAt (r_user r) with Some t => 0 <? t | None => false end
      | None => false
      end
  | AnswersSkipped => (answer w 3 =? 200) && passes w "alice" "mallory-password"
  | LinkToTheOldAddress =>
      match account w "alice", st_mails (w_st w) with
      | Some r, (to, ResetMail token) :: _ =>
          (to =? "alice@old.example")%string && (Email (r_user r) =? "alice@new.example")%string && bool_decide (r_reset r = Some (mark token))
      | _, _ => false
      end
  | EnrolledTwice =>
      (answer w 3 =? 200) && (answer w 2 =? 200) &&
      match account w "alice" with Some r => (TOTPSecret (r_user r) =? "mallory-secret")%string | None => false end
  | SharedAddress =>
      bool_decide (List.length (List.filter (fun r => (Email (r_user r) =? "shared@mail.example")%string) (snd <$> map_to_list (st_users (w_st w)))) = 2%nat)
  | CodeReplayed => match handed w 0, handed w 1 with [_], [_] => true | _, _ => false end
  | GateOpen => match handed w 0, account w "admin" with [_], Some r => IsAdmin (r_user r) && negb (Is2FAEnabled (r_user r)) | _, _ => false end
  end.

(** Each breach happens in a run of the programs. A password an operator set
    after a theft is replaced by a change of the profile that was under way
    with the stolen one, and a session that was being copied then is bound to
    the new password. The link mailed to one address confirms another, never
    proven, that was set after the link was found. With the stored answers
    unreadable, a link alone sets a password where the answers are required. A
    reset link goes to the address of before after an operator changed it, and
    is alive. Two enrolments at once both succeed, and the later secret
    replaces the one that was switched on. Two registrations at once share an
    address. A code signs in twice when its second use is checked at the end of
    its window and claimed after it. With one setting unreadable, an
    administrator without a second factor gets a session where administrators
    must have one. *)
Lemma every_breach_happens (b : breach) :
  exists w, steps (wstep libs core mark) nothing_yet w /\ play (settings_of b) (script b) nothing_yet = Some w /\ breached b w = true.
Proof.
  assert (H : match play (settings_of b) (script b) nothing_yet with Some w => breached b w | None => false end = true)
    by (destruct b; vm_compute; reflexivity).
  destruct (play (settings_of b) (script b) nothing_yet) as [w|] eqn:E; [|done]. exists w. split_and!; [by eapply remembers_steps, script_steps|done|done].
Qed.

(** ** Runs that go as they should *)

Definition no_settings (key : string) : string := "".

(** The world after a script, if it can be played. *)
Definition world_after (l : list move) : world := match play no_settings l nothing_yet with Some w => w | None => nothing_yet end.
Definition playable (l : list move) : bool := match play no_settings l nothing_yet with Some _ => true | None => false end.
Definition idle : thread := mkThread (Forgot "") [] (Ret ok).
Definition thread_at (i : nat) (w : world) : thread := default idle (w_threads w !! i).
Definition reply_at (i : nat) (w : world) : reply := match t_prog (thread_at i w) with Ret a => a | Do _ _ => ok end.
Definition finished_at (i : nat) (w : world) : bool :=
  match w_threads w !! i with Some t => match t_prog t with Ret _ => true | Do _ _ => false end | None => false end.

Lemma world_after_reachable l : reachable libs core mark (world_after l).
Proof. unfold world_after. destruct (play _ _ _) as [w|] eqn:E; [by eapply played_reachable|]. eexists. apply steps_refl. Qed.

Lemma play_app f l l' w : play f (l ++ l') w = match play f l w with Some w => play f l' w | None => None end.
Proof. revert w. induction l as [|m l IH]; intros w; [done|]. cbn. by destruct (move_once f m w). Qed.

Lemma world_after_steps l l' : playable (l ++ l') = true -> steps (wstep libs core mark) (world_after l) (world_after (l ++ l')).
Proof.
  unfold playable, world_after. rewrite play_app. destruct (play no_settings l nothing_yet) as [w|]; [|done].
  destruct (play no_settings l' w) as [w'|] eqn:E; [|done]. intros _. by eapply remembers_steps, script_steps.
Qed.

Lemma world_after_remembers l : steps (remembers libs core mark) nothing_yet (world_after l).
Proof. unfold world_after. destruct (play _ _ _) as [w|] eqn:E; [by eapply script_steps|apply steps_refl]. Qed.

Lemma thread_at_eq i w : finished_at i w = true -> w_threads w !! i = Some (thread_at i w) /\ t_prog (thread_at i w) = Ret (reply_at i w).
Proof. unfold finished_at, reply_at, thread_at. destruct (w_threads w !! i) as [t|]; [|done]. cbn. by destruct (t_prog t). Qed.

(** Alice's link, presented twice at once. *)
Definition link_twice : list move :=
  signed_in ++ [Begin (Forgot "alice@old.example"); Calls 2 all; Begin (ResetByLink (mailed 154) "first-password" []); Calls 3 17;
    Begin (ResetByLink (mailed 154) "second-password" []); Calls 4 all; Calls 3 all].

Lemma single_use_witness :
  answer (world_after link_twice) 3 = 410 /\ answer (world_after link_twice) 4 = 200 /\
  alone mark (world_after link_twice) 4 (inr (mark (mailed 154))).
Proof.
  split; [vm_compute; reflexivity|]. split; [vm_compute; reflexivity|].
  destruct (thread_at_eq 4 (world_after link_twice)) as [Ht Hp]; [vm_compute; reflexivity|].
  destruct (single_use libs core mark (world_after link_twice) (world_after_reachable link_twice)) as (_ & H & _).
  apply (H 4%nat _ (mailed 154) "second-password" [] (reply_at 4 (world_after link_twice)) Ht); [vm_compute; reflexivity|exact Hp|vm_compute; reflexivity].
Defined.

(** An operator resets Alice's password; her session is over. *)
Definition after_reset : list move := [Begin reset_alice; Calls 2 all].
Definition come_back : list move := [Begin (Visit alice); Calls 3 all].
Definition alice_row : row := default (mkRow (person "" "" "" false) None None None []) (account (world_after signed_in) "alice").

Lemma alice_token tok cookie : presented libs core alice tok cookie -> tok = session "alice" false "alice-password/0" 36.
Proof.
  destruct cookie; [by intros [? _]|]. intros [[_ ->]|[? _]]; [|done]. vm_compute. reflexivity.
Qed.

Lemma not_current_dec users k : forallb (fun x => negb (bool_decide (key_of x.2 = k))) (map_to_list users) = true -> ~ current users k.
Proof.
  rewrite forallb_forall. intros H (id & r & Hr & Hk). apply elem_of_map_to_list, list_elem_of_In, H in Hr. cbn in Hr.
  by rewrite bool_decide_eq_true_2 in Hr.
Qed.

Lemma ended_sessions_stay_ended_witness :
  refusal (status (reply_at 3 (world_after ((signed_in ++ after_reset) ++ come_back)))) = true \/
  exists name u, Ev (GetUserByUsername name) (Found u) ∈ t_hist (thread_at 3 (world_after ((signed_in ++ after_reset) ++ come_back))) /\
    sessionKey u <> sessionKey (r_user alice_row) /\ passwordFingerprint libs (sessionKey u) = passwordFingerprint libs (sessionKey (r_user alice_row)).
Proof.
  destruct (thread_at_eq 3 (world_after ((signed_in ++ after_reset) ++ come_back))) as [Ht Hp]; [vm_compute; reflexivity|].
  apply (ended_sessions_stay_ended libs core mark (world_after signed_in) (world_after (signed_in ++ after_reset))
    (world_after ((signed_in ++ after_reset) ++ come_back)) "alice" alice_row 3 _ alice).
  - apply world_after_reachable.
  - apply world_after_steps. vm_compute. reflexivity.
  - apply world_after_steps. vm_compute. reflexivity.
  - vm_compute. reflexivity.
  - apply not_current_dec. vm_compute. reflexivity.
  - reflexivity.
  - vm_compute. lia.
  - exact Ht.
  - vm_compute. reflexivity.
  - exact Hp.
  - reflexivity.
  - intros tok cookie c ->%alice_token Hc. cbn [signed libs] in Hc. unfold session in Hc. rewrite verify_sign in Hc. injection Hc as <-.
    vm_compute. reflexivity.
Defined.

(** Alice signs out, and her token is used again. *)
Definition sign_out : list move := [Begin (SignOut (with_cookie (session "alice" false "alice-password/0" 36))); Calls 2 all].

Lemma signed_out_stays_out_witness :
  (exists r1 c1 loginAt, t_entry (thread_at 2 (world_after (signed_in ++ sign_out))) = SignOut r1 /\
     signed libs (sessionTokenFromCookie r1) = Some c1 /\ cl_Purpose c1 = "" /\
     "session-36" = cl_ID (withSessionID libs c1 (sessionTokenFromCookie r1)) /\
     logged_in (t_hist (thread_at 2 (world_after (signed_in ++ sign_out)))) c1 loginAt /\ day_1 + sessionMaxAge = loginAt + sessionMaxAge) /\
  (refusal (status (reply_at 3 (world_after ((signed_in ++ sign_out) ++ come_back)))) = true \/
   day_1 + sessionMaxAge <= st_now (w_st (world_after ((signed_in ++ sign_out) ++ come_back))) \/
   Ev (IsSessionRevoked "session-36") None ∈ t_hist (thread_at 3 (world_after ((signed_in ++ sign_out) ++ come_back)))).
Proof.
  destruct (thread_at_eq 2 (world_after (signed_in ++ sign_out))) as [Ht1 _]; [vm_compute; reflexivity|].
  destruct (thread_at_eq 3 (world_after ((signed_in ++ sign_out) ++ come_back))) as [Ht Hp]; [vm_compute; reflexivity|].
  apply (signed_out_stays_out libs core mark (world_after (signed_in ++ sign_out)) (world_after ((signed_in ++ sign_out) ++ come_back)) 2 _
    "session-36" (day_1 + sessionMaxAge) 3 _ alice).
  - apply world_after_reachable.
  - apply world_after_steps. vm_compute. reflexivity.
  - exact Ht1.
  - apply (list_elem_of_lookup_2 _ 1). vm_compute. reflexivity.
  - reflexivity.
  - vm_compute. lia.
  - exact Ht.
  - vm_compute. reflexivity.
  - exact Hp.
  - reflexivity.
  - done.
  - intros tok cookie c ->%alice_token Hc. cbn [signed libs] in Hc. unfold session in Hc. rewrite verify_sign in Hc. injection Hc as <-.
    vm_compute. reflexivity.
Defined.

Lemma session_lifetime_witness :
  traced any (fun _ _ => True) [] (handle libs core (CopySession alice)) (fun h a => forall tok, Session tok ∈ gives a ->
    exists c, signed libs tok = Some c /\ well_dated h c /\ (new_session h c \/ same_session libs core (CopySession alice) c)).
Proof. apply (session_lifetime libs core (CopySession alice)); [|reflexivity]. intros c t [= <-]. apply verify_sign. Defined.

(** A code that is typed twice within its window. *)
Definition code_twice : list move :=
  [joined "alice" (person "alice" "alice-password/0" "" false); Else "alice" (WTOTP "alice-secret" [] true);
   At (window_start 2880); Begin (SignIn (mkLogin "alice" "alice-password" (step_2880 "alice-secret"))); Calls 0 20;
   Begin (SignIn (mkLogin "alice" "alice-password" (step_2880 "alice-secret"))); Calls 1 all; Calls 0 all].

Lemma totp_code_once_witness :
  answer (world_after code_twice) 0 = 401 /\ answer (world_after code_twice) 1 = 200 /\
  exists u, row_read (t_hist (thread_at 1 (world_after code_twice))) u.
Proof.
  split; [vm_compute; reflexivity|]. split; [vm_compute; reflexivity|].
  destruct (thread_at_eq 1 (world_after code_twice)) as [Ht Hp]; [vm_compute; reflexivity|].
  destruct (totp_code_once libs core mark (mkState ∅ ∅ ∅ ∅ ∅ ∅ [] 0) (world_after code_twice) 1 _ (step_2880 "alice-secret")
    (world_after_remembers code_twice) eq_refl Ht) as (u & Hu & _);
    [vm_compute; reflexivity|vm_compute; reflexivity| |by exists u].
  left. eexists _, _, _. split; [vm_compute; reflexivity|]. split; [exact Hp|]. vm_compute. by left.
Defined.
